(* ===== verification/_CoqProject ===== *)
-Q . S2P
Prelude.v
SipHash.v
Entry.v
Page.v
IndexTable.v
CacheConfig.v
Shard.v
ShardInv.v
ShardGet.v
ShardPut.v
ShardRoom.v
ShardEvict.v
ShardFit.v
ShardWrite.v
ShardProps.v
Crc32.v
CacheFile.v
LogCodec.v
MemLog.v
Wal.v
WalInv.v
WalOps.v
WalRecover.v
WalProps.v
Ring.v
Engine.v
EngineInv.v
EngineOps.v
EngineSnap.v
EngineProps.v
Replication.v
ReplInv.v
ReplSteps.v
ReplProps.v
Wire.v
KVIndex.v
MetaState.v
MetaFSM.v
MetaProps.v
MetaSnapshot.v
Failover.v
FailoverProps.v
Drivers.v
DriversProps.v
MetaRuns.v
EngineEff.v
Cluster.v
ClusterProps.v
ClusterInv.v
ClusterMain.v
ClusterRuns.v
KVWire.v
KVWireProps.v
ShardLog.v
Cache.v
KVOps.v
KVSpec.v
CacheProps.v
CacheMark.v
ShardFSM.v
FSMProps.v
CacheFSM.v
CacheOpen.v
CacheCrash.v
PBApply.v
CacheIter.v
Snapshot.v
SnapshotProps.v
SnapshotCache.v
ReadIndex.v
ReadIndexProps.v
PBInstall.v
PBInstallProps.v
