(* ===== verification/Prelude.v ===== *)
(** * Verification of rostam: cache, Raft log, state machine, replication and metadata.

    rostam is a sharded key-value and vector store written in Go. A client request is
    encoded by src/sdk/wire, routed to the shard of its key, and written to the
    shard's log: a Raft log (src/raft/logstore under hashicorp/raft) or the
    primary-backup engine of src/shard/pbisr. Each replica applies the entries of the
    log to its cache (src/shard/fsm.go over src/ops over src/cache). A second Raft
    group, the metadata (src/cluster), holds who is primary of which shard, in which
    epoch, with which set in sync, and drives failover.

    ** Conventions

    A Go function is a function into [outcome E A]: a value, an error or a panic (an
    index or slice out of range is a panic). State is threaded by [st S E A]. Machine
    integers are [Z] with their wrap-around written out ([u16], [u32], [u64]); bytes
    are lists of bytes; Go maps are [gmap]s or association lists where the order
    matters. Code under a mutex is one step; where the source releases the mutex the
    model has several steps and the runs interleave them. What is not in the
    repository is a parameter with its documented behaviour as a hypothesis: xxhash
    (any 64-bit function), the clock, the nonce source, msync and the system calls
    (an oracle that answers each call), hashicorp/raft (delivers one log in order),
    encoding/gob.

    ** Files

    - [Prelude], [Wire]: outcomes, the state monad with its [wp], slices, fixed-width
      codecs, reading at an offset, the tactics that run an encoder or a decoder.
    - [SipHash], [Entry], [Page], [IndexTable], [CacheConfig], [Shard]: src/cache, from
      siphash.go, ringbuf.go, page.go, indextable.go, slabref.go, sieve.go and config.go to
      shard.go, ttl.go, seqlock.go, relocate_evict.go and onremove.go. A shard is an index
      table over pages of framed entries. [ShardInv] has the invariant [shard_ok] and the map a
      shard represents, [lookup]; [ShardGet], [ShardPut], [ShardRoom], [ShardEvict],
      [ShardFit], [ShardWrite] prove each operation against it, [ShardProps] has the
      theorems.
    - [Crc32], [CacheFile]: the header of a data file and the flush sidecar (file.go,
      flush.go). [Cache]: the sharded facade (cache.go, flush.go). [CacheOpen]: opening
      a shard's file (newShard of shard.go), and what a killed process leaves.
    - [KVWire], [KVWireProps]: the key-value codecs (src/sdk/wire/builtin.go, batch.go).
      [KVOps]: the handlers (src/ops/builtin.go, batch.go, runtime.go) over the class
      [KVStore] of what they use of a cache. [KVSpec]: the class [KVLaws] of what a
      cache promises, the specification [decide_] of each request as a function of
      the live entry of its key, and that every handler meets it. [CacheProps],
      [CacheMark]: the cache is an instance.
    - [ShardLog], [ShardFSM]: the entries of a shard's log (src/shard/log.go) and the
      state machine (fsm.go, apply_class.go, pb_applier.go) over the classes [KVStore]
      and [Watermark]. [FSMProps]: replicas against [WatermarkLaws]; [CacheFSM]: the
      cache is an instance, and a sample replica; [CacheCrash], [PBApply]: a killed
      process, and the applier of the primary-backup engine.
    - [CacheIter], [Snapshot]: the walk of a cache (src/cache/iterate.go) and the snapshots
      of a shard (src/shard/snapshot.go, [Snapshot] and [Restore] of fsm.go) over the class [Walk] of
      what they use of it; the vector store and the loaders of the registrations are
      parameters. [SnapshotProps]: taking and restoring against [WalkLaws];
      [SnapshotCache]: the cache is an instance, sample replicas.
    - [ReadIndex], [ReadIndexProps]: read barriers that concurrent readers share
      (src/shard/readindex_coalesce.go and its two copies in src/cluster) as a system of
      interleaved callers, and the read path of src/shard/store.go. [PBInstall],
      [PBInstallProps]: the durable frontier of the primary-backup engine, its stamper and the
      fence around the install of a snapshot (src/cache/cache.go, src/shard/pb_frontier.go,
      pb_fence.go, pb_snapshot_store.go).
    - [LogCodec], [MemLog], [Wal]: the Raft log store (src/raft/logstore: codec.go,
      mem.go, wal.go). [LogStore] is the class of what raft relies on. [WalInv],
      [WalOps], [WalRecover], [WalProps]: the durable store keeps it across crashes.
    - [Ring], [Engine]: the primary-backup engine (src/shard/pbisr: engine.go,
      pb_pipeline.go, pb_grow.go, pb_snapshot.go, types.go). [EngineInv], [EngineOps],
      [EngineSnap], [EngineProps], [EngineEff]: its invariant and operations.
      [Replication], [ReplInv], [ReplSteps], [ReplProps]: the engines of a shard, the
      transport and the control plane as one system, event by event.
    - [KVIndex], [MetaState], [MetaFSM], [MetaProps], [MetaSnapshot], [Failover],
      [FailoverProps], [Drivers], [DriversProps], [MetaRuns]: the metadata and its
      drivers (src/cluster: meta_state.go, meta_fsm.go, meta.go, placement.go, peer.go,
      pb_failover.go, pb_beacon.go, pb_shrink.go, pb_grow.go, pb_control.go,
      meta_readindex.go, config.go; src/sdk/wire/kvindex.go).
    - [Cluster], [ClusterProps], [ClusterInv], [ClusterMain], [ClusterRuns]: a shard, the metadata log and the goroutines
      between them (pb_wiring.go and the files above) as one system.

    ** What the theorems show

    - Entries and pages: entries round-trip and only authentic frames are accepted; a page is a
      FIFO queue; the index table is a finite map; streaming SipHash is SipHash-2-4.
    - A shard: gets, puts and deletes refine a partial map with expiries that loses
      keys only to eviction, expiry or a write of another key with the same hash
      ([shard_refines_cache]); each operation's result and effect on every branch, the
      delete record of an mmap shard included ([shard_put], [shard_get], [shard_delete]);
      with the evicting policy a put of an entry that fits always succeeds.
    - The key-value interface: codecs round-trip and never read out of range; each of
      the twelve write requests answers and acts as [decide_] says ([requests_met]).
    - A replica: whatever batches, redeliveries and restarts, the store is the replay
      of a prefix of the log on a plain map, and so are the answers, except that the delete
      of an expired entry may find nothing ([replica_replays_log]; for a store that does
      not evict and restarts that keep its exact index); a request on one key applied by
      the primary-backup engine is atomic ([pb_request_atomic]), a batch is its puts one by
      one ([put_batch_is_its_puts]). A snapshot restores
      every entry its walk saw ([snapshot_roundtrip]), so a replica restored from one is the
      replay of the log for every read after the walks ([restored_replica_replays_log]);
      restoring any bytes ends without a panic ([restore_total]).
    - Reads: no reader is served a barrier from before its arrival ([read_covers_arrival]) and
      every reader returns once readers stop arriving ([readers_return]). A committed install
      leaves the installed frontier on disk ([committed_install]) when the flushes work.
    - The Raft log: the durable store refines the in-memory one in any sequence of
      sessions and is crash-safe under any outcome of any system call.
    - Replication: replicas that end with the same write hold the same state and an
      acknowledged write was accepted by every member of its set that the drivers had not
      removed, whatever the interleaving of the metadata log, its application and the
      engines' events ([cluster_replicas_agree], [cluster_acked_write]). Both hold for
      runs in which no node is promoted with writes of its own past the ones it received
      (the mark [rewound]), the first also needs that no write is received between
      the application and the registration of a node's own (the mark [raced]). The code
      rules out neither; [promotion_forgets_own_writes] and [race_splits_state_from_log]
      say what happens then. A backup appends only the next write of its history
      ([receive_appends_next]); the commit sweep terminates.
    - Metadata: one primary per epoch, one former per shard, snapshots agree with the
      log, promotions wait for the lease to end, do not cascade and pick the candidate
      with the most writes.
    - Defects: the theorems of kind error state, for every state that meets their
      hypotheses, what goes wrong: a snapshot leaves out entries that are live for the log
      ([snapshot_forgets_live_entries]), an install whose flushes fail is left unfenced
      ([unstamped_install_unfenced]), the reader that leads can be held for ever ([leader_is_held]), and the two
      of replication above. Lemmas compute single runs of others: a deleted key that a restart
      brings back ([deleted_key_resurrected]), applied writes lost by a killed process
      ([crash_loses_applied_writes]), log entries lost to a stale segment
      ([stale_segment_loses_entries]), and acknowledged writes lost to a tie at failover
      or to crossed sets ([tie_loses_acked_write], [crossed_sets_ack_alone]).

    ** Bounds and fuel

    Loops are structural, over the pages or slots at hand, or have fuel that is proved
    to suffice: probes are bounded by the table's size, the walk over a page by its
    bytes, the entries of a snapshot by its bytes, the room search by the number of pages, the commit sweep by the records in
    flight. [applyWithRetry] waits as long as an operation is not resident: its fuel is the number of
    waits observed, and the requests of the theorems never wait. Concrete runs use
    pages of 96 or 128 bytes where the configuration demands a megabyte: the size is only a
    number in the code they run.

    ** Not modelled

    The vector engine (floating-point kernels and randomised graphs), the record and
    operate interfaces, WebAssembly procedures, sockets, HTTP, gRPC and MCP front ends,
    client libraries and applications. Of the cache: compaction, the migration of
    version-4 files, the msync and sweep goroutines. Of a shard: the
    backup streams, the store that wires the parts (all but its read path). Of the cluster: routing,
    rebalancing, migration, backups and the record index. Lock-free readers are
    modelled by their sequential effect. *)
From stdpp Require Export base list gmap.
From coqutil Require Export Byte LittleEndianList.
From Stdlib Require Export ZArith Lia.
From Stdlib Require Strings.Byte.
Open Scope Z_scope.

(** ** Outcomes of Go code

    A Go function either returns a value, returns an error value, or panics
    (an out-of-range slice expression, an explicit [panic]). *)

Inductive outcome (E A : Type) : Type :=
| Ok (a : A)
| Err (e : E)
| Panic.
Arguments Ok {E A} a.
Arguments Err {E A} e.
Arguments Panic {E A}.

#[export] Instance outcome_ret {E} : MRet (outcome E) := fun A a => Ok a.
#[export] Instance outcome_bind {E} : MBind (outcome E) := fun A B f m =>
  match m with
  | Ok a => f a
  | Err e => Err e
  | Panic => Panic
  end.

#[export] Instance outcome_eq_dec {E A} `{EqDecision E, EqDecision A} :
  EqDecision (outcome E A).
Proof. solve_decision. Defined.

Lemma Ok_inj {E A} (a b : A) : @Ok E A a = Ok b -> a = b.
Proof. by intros [= ->]. Qed.

Lemma bind_Ok {E A B} (m : outcome E A) (f : A -> outcome E B) b :
  m ≫= f = Ok b -> exists a, m = Ok a /\ f a = Ok b.
Proof. destruct m; simpl; try done. eauto. Qed.

(** ** Stateful code

    A method on a mutable object: it runs to a new object and an outcome, and
    what it wrote before it failed stays written. *)

Definition st (S E A : Type) : Type := S -> S * outcome E A.

#[export] Instance st_ret {S E} : MRet (st S E) := fun A a s => (s, Ok a).
#[export] Instance st_bind {S E} : MBind (st S E) := fun A B k m s =>
  match m s with
  | (s', Ok a) => k a s'
  | (s', Err e) => (s', Err e)
  | (s', Panic) => (s', Panic)
  end.

Definition gets {S E A} (f : S -> A) : st S E A := fun s => (s, Ok (f s)).
Definition modify {S E} (f : S -> S) : st S E unit := fun s => (f s, Ok tt).
Definition throw {S E A} (e : E) : st S E A := fun s => (s, Err e).
Definition panic {S E A} : st S E A := fun s => (s, Panic).
Definition lift {S E A} (o : outcome E A) : st S E A := fun s => (s, o).

(** [v, err := m()] with the error inspected by the caller. *)
Definition try {S E A} (m : st S E A) : st S E (A + E) := fun s =>
  match m s with
  | (s', Ok a) => (s', Ok (inl a))
  | (s', Err e) => (s', Ok (inr e))
  | (s', Panic) => (s', Panic)
  end.

(** The slot of an array, panicking out of range. *)
Definition oget {S E A} (o : option A) : st S E A :=
  match o with Some a => mret a | None => panic end.

(** The weakest precondition of [m] for a condition on the final state and the
    outcome. *)
Definition wp {S E A} (m : st S E A) (Q : S -> outcome E A -> Prop) (s : S) : Prop :=
  let (s', o) := m s in Q s' o.

(** [Q] holds of a normal return, and there is no panic; an error must
    satisfy [R]. *)
Definition post {S E A} (Q : S -> A -> Prop) (R : S -> E -> Prop) (s : S) (o : outcome E A) : Prop :=
  match o with Ok a => Q s a | Err e => R s e | Panic => False end.

Lemma wp_mono {S E A} (m : st S E A) (Q Q' : S -> outcome E A -> Prop) s :
  wp m Q s -> (forall s' o, Q s' o -> Q' s' o) -> wp m Q' s.
Proof. unfold wp. destruct (m s). auto. Qed.

Lemma wp_bind {S E A B} (m : st S E A) (k : A -> st S E B) Q s :
  wp m (fun s' o => match o with Ok a => wp (k a) Q s' | Err e => Q s' (Err e) | Panic => Q s' Panic end) s ->
  wp (m ≫= k) Q s.
Proof. unfold wp, mbind, st_bind. destruct (m s) as [s' [a|e|]]; auto. Qed.

(** Sequencing specifications: the first part meets [post Q1 R], the rest is
    verified from [Q1]. *)
Lemma wp_seq {S E A B} (m : st S E A) (k : A -> st S E B) (Q1 : S -> A -> Prop) R1 Q R s :
  wp m (post Q1 R1) s -> (forall s' a, Q1 s' a -> wp (k a) (post Q R) s') ->
  (forall s' e, R1 s' e -> R s' e) -> wp (m ≫= k) (post Q R) s.
Proof.
  intros Hm Hk HR. apply wp_bind. eapply wp_mono; [exact Hm|]. intros s' [a|e|]; simpl; auto.
Qed.

Lemma wp_ret_r {S E A} (m : st S E A) Q s : wp (m ≫= mret) Q s -> wp m Q s.
Proof. unfold wp, mbind, st_bind. by destruct (m s) as [s' [a|e|]]. Qed.

Lemma wp_try {S E A} (m : st S E A) (Q : S -> (A + E) -> Prop) R s :
  wp m (post (fun s a => Q s (inl a)) (fun s e => Q s (inr e))) s -> wp (try m) (post Q R) s.
Proof. unfold wp, try. destruct (m s) as [s' [a|e|]]; auto. Qed.

Lemma wp_post_mono {S E A} (m : st S E A) (Q Q' : S -> A -> Prop) (R R' : S -> E -> Prop) s :
  wp m (post Q R) s -> (forall s' a, Q s' a -> Q' s' a) -> (forall s' e, R s' e -> R' s' e) ->
  wp m (post Q' R') s.
Proof. intros Hm HQ HR. eapply wp_mono; [exact Hm|]. intros s' [a|e|]; simpl; auto. Qed.

(** The rules for the steps of a sequence. *)
Lemma wp_gets {S E A B} (f : S -> A) (k : A -> st S E B) Q s : wp (k (f s)) Q s -> wp (gets f ≫= k) Q s.
Proof. done. Qed.
Lemma wp_modify {S E B} (f : S -> S) (k : unit -> st S E B) Q s : wp (k tt) Q (f s) -> wp (modify f ≫= k) Q s.
Proof. done. Qed.
Lemma wp_mret {S E A B} (a : A) (k : A -> st S E B) Q s : wp (k a) Q s -> wp (mret a ≫= k) Q s.
Proof. done. Qed.
Lemma wp_oget {S E A B} (a : A) (k : A -> st S E B) Q s : wp (k a) Q s -> wp (oget (Some a) ≫= k) Q s.
Proof. done. Qed.
Lemma wp_lift {S E A B} (a : A) (k : A -> st S E B) Q s : wp (k a) Q s -> wp (lift (Ok a) ≫= k) Q s.
Proof. done. Qed.
Lemma wp_assoc {S E A B C} (m : st S E A) (k : A -> st S E B) (k' : B -> st S E C) Q s :
  wp (m ≫= (fun a => k a ≫= k')) Q s -> wp ((m ≫= k) ≫= k') Q s.
Proof. unfold wp, mbind, st_bind. by destruct (m s) as [s' [a|e|]]. Qed.

(** Running a sequence on a state. *)
Lemma bind_ok {S E A B} (m : st S E A) (k : A -> st S E B) s s' a : m s = (s', Ok a) -> (m ≫= k) s = k a s'.
Proof. unfold mbind, st_bind. by intros ->. Qed.
Lemma bind_err {S E A B} (m : st S E A) (k : A -> st S E B) s s' e : m s = (s', Err e) -> (m ≫= k) s = (s', Err e).
Proof. unfold mbind, st_bind. by intros ->. Qed.
Lemma bind_assoc {S E A B C} (m : st S E A) (f : A -> st S E B) (g : B -> st S E C) s : (x ← (y ← m; f y); g x) s = (y ← m; x ← f y; g x) s.
Proof. unfold mbind, st_bind. by destruct (m s) as [s' [a| |]]. Qed.
Lemma bind_gets {S E A B} (f : S -> A) (k : A -> st S E B) s : (gets f ≫= k) s = k (f s) s.
Proof. done. Qed.
Lemma bind_lift {S E A B} (o : outcome E A) a (k : A -> st S E B) s : o = Ok a -> (lift o ≫= k) s = k a s.
Proof. by intros ->. Qed.
Lemma bind_lift_err {S E A B} (o : outcome E A) e (k : A -> st S E B) s : o = Err e -> (lift o ≫= k) s = (s, Err e).
Proof. by intros ->. Qed.
Lemma bind_modify {S E B} (f : S -> S) (k : unit -> st S E B) s : (modify f ≫= k) s = k tt (f s).
Proof. done. Qed.

(** ** Byte slices *)

Abbreviation bytes := (list byte).

#[export] Instance byte_eq_decision : EqDecision byte.
Proof. unfold EqDecision, Decision. exact Stdlib.Strings.Byte.byte_eq_dec. Defined.

#[export] Program Instance byte_countable : Countable byte :=
  inj_countable Stdlib.Strings.Byte.to_N Stdlib.Strings.Byte.of_N _.
Next Obligation. intros x. apply Stdlib.Strings.Byte.of_to_N. Qed.

Definition blen {A} (b : list A) : Z := Z.of_nat (length b).

(** [b[lo:hi]]: panics when the bounds are not [0 <= lo <= hi <= len(b)]. *)
Definition slice {E} (b : bytes) (lo hi : Z) : outcome E bytes :=
  if (0 <=? lo) && (lo <=? hi) && (hi <=? blen b)
  then Ok (take (Z.to_nat (hi - lo)) (drop (Z.to_nat lo) b))
  else Panic.

(** [b[lo:]]. *)
Definition slice_from {E} (b : bytes) (lo : Z) : outcome E bytes :=
  slice b lo (blen b).

(** [b[i]]. *)
Definition byte_at {E} (b : bytes) (i : Z) : outcome E Z :=
  if (0 <=? i) && (i <? blen b)
  then match b !! Z.to_nat i with
       | Some x => Ok (byte.unsigned x)
       | None => Panic
       end
  else Panic.

(** [copy(b[lo:lo+len(src)], src)] and the [binary.*.PutUint*] stores: the
    bytes of [src] replace those of [b] from [lo] on; panics when they do not
    fit. *)
Definition store {E} (b : bytes) (lo : Z) (src : bytes) : outcome E bytes :=
  if (0 <=? lo) && (lo + blen src <=? blen b)
  then Ok (take (Z.to_nat lo) b ++ src ++ drop (Z.to_nat lo + length src) b)
  else Panic.

(** ** Fixed-width integers on the wire (package encoding/binary) *)

Definition le_put (n : nat) (x : Z) : bytes := le_split n x.
Definition be_put (n : nat) (x : Z) : bytes := reverse (le_split n x).

(** [binary.LittleEndian.UintN(b)] reads the first [n] bytes of [b] and panics
    when there are fewer. *)
Definition le_get {E} (n : nat) (b : bytes) : outcome E Z :=
  if (n <=? length b)%nat then Ok (le_combine (take n b)) else Panic.
Definition be_get {E} (n : nat) (b : bytes) : outcome E Z :=
  if (n <=? length b)%nat then Ok (le_combine (reverse (take n b))) else Panic.

Arguments le_put : simpl never.
Arguments be_put : simpl never.

(** ** Machine widths *)

Definition wrap (w x : Z) : Z := x mod 2 ^ w.
Abbreviation u8 := (wrap 8).
Abbreviation u16 := (wrap 16).
Abbreviation u32 := (wrap 32).
Abbreviation u64 := (wrap 64).

(** [x] is a value of the unsigned type of width [w]. *)
Definition fits (w x : Z) : Prop := 0 <= x < 2 ^ w.

#[export] Instance fits_dec w x : Decision (fits w x).
Proof. unfold fits. apply _. Defined.

Lemma wrap_fits w x : fits w x -> wrap w x = x.
Proof. intros H. unfold wrap. by apply Z.mod_small. Qed.

Lemma fits_wrap w x : 0 <= w -> fits w (wrap w x).
Proof. intros Hw. unfold fits, wrap. apply Z.mod_pos_bound, Z.pow_pos_nonneg; lia. Qed.

Lemma fits_mono w w' x : 0 <= w <= w' -> fits w x -> fits w' x.
Proof.
  unfold fits. intros Hw Hx.
  pose proof (Z.pow_le_mono_r 2 w w' ltac:(lia) ltac:(lia)). lia.
Qed.

Lemma fits_bits w x :
  0 <= w -> fits w x <-> 0 <= x /\ forall i, w <= i -> Z.testbit x i = false.
Proof.
  intros Hw. unfold fits. split.
  - intros [H0 H1]. split; [done|]. intros i Hi.
    rewrite <- (Z.mod_small x (2 ^ w)) by done. by apply Z.mod_pow2_bits_high.
  - intros [H0 H1]. split; [done|].
    destruct (decide (x = 0)) as [-> | Hx]; [apply Z.pow_pos_nonneg; lia|].
    apply Z.log2_lt_pow2; [lia|]. destruct (decide (Z.log2 x < w)); [done|].
    specialize (H1 (Z.log2 x) ltac:(lia)). rewrite Z.bit_log2 in H1 by lia. done.
Qed.

Lemma fits_lxor w x y : 0 <= w -> fits w x -> fits w y -> fits w (Z.lxor x y).
Proof.
  intros Hw. rewrite !fits_bits by done. intros [? Hx] [? Hy]. split.
  - apply Z.lxor_nonneg. lia.
  - intros i Hi. by rewrite Z.lxor_spec, Hx, Hy.
Qed.

Lemma fits_lor w x y : 0 <= w -> fits w x -> fits w y -> fits w (Z.lor x y).
Proof.
  intros Hw. rewrite !fits_bits by done. intros [? Hx] [? Hy]. split.
  - apply Z.lor_nonneg. lia.
  - intros i Hi. by rewrite Z.lor_spec, Hx, Hy.
Qed.

Lemma fits_shiftr w x k : 0 <= w -> 0 <= k -> fits w x -> fits w (Z.shiftr x k).
Proof.
  intros Hw Hk. rewrite !fits_bits by done. intros [? Hx]. split.
  - by apply Z.shiftr_nonneg.
  - intros i Hi. rewrite Z.shiftr_spec by lia. apply Hx. lia.
Qed.

Lemma fits_le_combine (b : bytes) : fits (8 * blen b) (le_combine b).
Proof. apply le_combine_bound. Qed.

(** Width goals, by the shape of the term. *)
Ltac fit :=
  repeat lazymatch goal with
  | H : fits ?w ?x |- fits ?w ?x => exact H
  | |- fits ?w (wrap ?w _) => apply fits_wrap
  | |- fits _ (Z.lxor _ _) => apply fits_lxor
  | |- fits _ (Z.lor _ _) => apply fits_lor
  | |- fits _ (Z.shiftr _ _) => apply fits_shiftr
  | |- _ <= _ => lia
  end.

(** ** Lengths *)

Lemma blen_nil {A} : blen (@nil A) = 0.
Proof. done. Qed.
Lemma blen_cons {A} (x : A) l : blen (x :: l) = 1 + blen l.
Proof. unfold blen. simpl. lia. Qed.
Lemma blen_app {A} (a b : list A) : blen (a ++ b) = blen a + blen b.
Proof. unfold blen. rewrite length_app. lia. Qed.
Lemma blen_le_put n x : blen (le_put n x) = Z.of_nat n.
Proof. unfold blen, le_put. by rewrite length_le_split. Qed.
Lemma blen_be_put n x : blen (be_put n x) = Z.of_nat n.
Proof. unfold blen, be_put. by rewrite length_reverse, length_le_split. Qed.
Lemma blen_nonneg {A} (b : list A) : 0 <= blen b.
Proof. unfold blen. lia. Qed.
Lemma blen_replicate {A} n (x : A) : blen (replicate n x) = Z.of_nat n.
Proof. unfold blen. by rewrite length_replicate. Qed.
Lemma blen_take {A} n (l : list A) : blen (take n l) = Z.min (Z.of_nat n) (blen l).
Proof. unfold blen. rewrite length_take. lia. Qed.
Lemma blen_drop {A} n (l : list A) : blen (drop n l) = Z.max 0 (blen l - Z.of_nat n).
Proof. unfold blen. rewrite length_drop. lia. Qed.
Lemma blen_insert {A} i x (l : list A) : blen (<[i:=x]> l) = blen l.
Proof. unfold blen. by rewrite length_insert. Qed.
Lemma blen_to_nat {A} (b : list A) : Z.to_nat (blen b) = length b.
Proof. unfold blen. lia. Qed.
Lemma blen_reverse {A} (b : list A) : blen (reverse b) = blen b.
Proof. unfold blen. by rewrite length_reverse. Qed.

Create Rewrite HintDb blen.
#[export] Hint Rewrite @blen_nil @blen_cons @blen_app @blen_le_put @blen_be_put
  @blen_replicate @blen_take @blen_drop @blen_insert @blen_reverse : blen.

(** Closes goals about lengths. *)
Ltac len :=
  autorewrite with blen in *; unfold blen in *;
  rewrite ?length_app, ?length_reverse, ?length_take, ?length_drop, ?length_insert;
  lia.

(** ** Slices *)

Lemma slice_in {E} (b : bytes) lo hi :
  0 <= lo -> lo <= hi -> hi <= blen b ->
  slice (E:=E) b lo hi = Ok (take (Z.to_nat (hi - lo)) (drop (Z.to_nat lo) b)).
Proof.
  intros. unfold slice.
  by rewrite (proj2 (Z.leb_le 0 lo)), (proj2 (Z.leb_le lo hi)), (proj2 (Z.leb_le hi _)).
Qed.

Lemma slice_out {E} (b : bytes) lo hi :
  lo < 0 \/ hi < lo \/ blen b < hi -> slice (E:=E) b lo hi = Panic.
Proof.
  intros H. unfold slice. repeat case_match; try done.
  repeat match goal with
  | H : (_ && _) = true |- _ => apply andb_true_iff in H as [? ?]
  end. lia.
Qed.

Lemma slice_Ok_inv {E} (b r : bytes) lo hi :
  slice (E:=E) b lo hi = Ok r -> blen r = hi - lo /\ 0 <= lo <= hi /\ hi <= blen b.
Proof.
  unfold slice. case_match eqn:E1; [|done]. intros [= <-].
  apply andb_true_iff in E1 as [[? ?]%andb_true_iff ?]. len.
Qed.

Lemma slice_all {E} (b : bytes) hi : hi = blen b -> slice (E:=E) b 0 hi = Ok b.
Proof.
  intros ->. rewrite slice_in by len. change (Z.to_nat 0) with 0%nat.
  rewrite Z.sub_0_r, blen_to_nat, drop_0. by rewrite take_ge.
Qed.

Lemma slice_app_l {E} (a b : bytes) lo hi :
  hi <= blen a -> slice (E:=E) (a ++ b) lo hi = slice a lo hi.
Proof.
  intros Hhi. destruct (decide (0 <= lo <= hi)) as [?|Hn].
  - rewrite !slice_in by len. f_equal.
    unfold blen in Hhi. rewrite drop_app_le by lia.
    rewrite take_app_le; [done|]. rewrite length_drop. lia.
  - rewrite !slice_out; [done|lia|lia].
Qed.

Lemma slice_app_r {E} (a b : bytes) lo hi :
  blen a <= lo -> slice (E:=E) (a ++ b) lo hi = slice b (lo - blen a) (hi - blen a).
Proof.
  intros Hlo. destruct (decide (lo <= hi /\ hi <= blen a + blen b)) as [?|Hn].
  - rewrite !slice_in by len. f_equal.
    replace (hi - blen a - (lo - blen a)) with (hi - lo) by lia.
    rewrite drop_app_ge by (unfold blen in *; lia). repeat f_equal.
    unfold blen in *. lia.
  - rewrite !slice_out; [done|len|len].
Qed.

(** The middle part of a concatenation. *)
Lemma slice_mid {E} (a b c : bytes) lo hi :
  lo = blen a -> hi = blen a + blen b -> slice (E:=E) (a ++ b ++ c) lo hi = Ok b.
Proof.
  intros -> ->. rewrite slice_app_r by lia.
  rewrite Z.sub_diag, slice_app_l by lia. apply slice_all. lia.
Qed.

Lemma slice_here {E} (b c : bytes) lo hi :
  lo = 0 -> hi = blen b -> slice (E:=E) (b ++ c) lo hi = Ok b.
Proof. intros -> ->. rewrite slice_app_l by lia. by apply slice_all. Qed.

Lemma slice_step {E} (a b r : bytes) lo hi :
  blen a <= lo -> slice (E:=E) b (lo - blen a) (hi - blen a) = Ok r ->
  slice (E:=E) (a ++ b) lo hi = Ok r.
Proof. intros Hlo. by rewrite slice_app_r. Qed.

Lemma slice_whole {E} (b : bytes) lo hi :
  lo = 0 -> hi = blen b -> slice (E:=E) b lo hi = Ok b.
Proof. intros -> ->. by apply slice_all. Qed.

(** A slice that runs over several pieces. *)
Lemma slice_join {E} (a b r : bytes) hi :
  blen a <= hi -> slice (E:=E) b 0 (hi - blen a) = Ok r -> slice (E:=E) (a ++ b) 0 hi = Ok (a ++ r).
Proof.
  intros Hhi Hs. pose proof (slice_Ok_inv _ _ _ _ Hs) as (Hr & Hb & ?).
  rewrite slice_in in Hs by lia. apply Ok_inj in Hs. rewrite slice_in by len. f_equal.
  change (Z.to_nat 0) with 0%nat in *. rewrite drop_0 in *. rewrite Z.sub_0_r in *.
  rewrite take_app. f_equal; [apply take_ge; unfold blen in *; lia|].
  rewrite <- Hs. f_equal. unfold blen. lia.
Qed.

(** Computes the slices of a decoder over a concatenation of pieces. *)
Ltac solve_slice :=
  first [apply slice_whole; [len|len] | apply slice_here; [len|len]
        | eapply slice_step; [len|solve_slice]
        | eapply slice_join; [len|rewrite ?Z.sub_0_r; solve_slice]].
Ltac step_slice :=
  match goal with
  | |- context [slice ?d ?lo ?hi] =>
      let E := fresh "E" in
      eassert (slice d lo hi = Ok _) as E by solve_slice; rewrite E; clear E
  end; cbn [mbind outcome_bind].

Lemma slice_from_app {E} (a b : bytes) lo :
  lo = blen a -> slice_from (E:=E) (a ++ b) lo = Ok b.
Proof.
  intros ->. unfold slice_from. rewrite slice_app_r by lia.
  rewrite Z.sub_diag. apply slice_all. len.
Qed.

(** ** Integers read back from what was written *)

Lemma le_get_app {E} n x r : le_get (E:=E) n (le_put n x ++ r) = Ok (wrap (8 * Z.of_nat n) x).
Proof.
  unfold le_get, le_put. rewrite length_app, length_le_split.
  case_match eqn:E1; [|apply Nat.leb_gt in E1; lia].
  rewrite take_app_length' by (by rewrite length_le_split).
  rewrite le_combine_split. unfold wrap. do 3 f_equal. lia.
Qed.

Lemma le_get_put {E} n x : le_get (E:=E) n (le_put n x) = Ok (wrap (8 * Z.of_nat n) x).
Proof. rewrite <- (app_nil_r (le_put n x)). apply le_get_app. Qed.

Lemma be_get_app {E} n x r : be_get (E:=E) n (be_put n x ++ r) = Ok (wrap (8 * Z.of_nat n) x).
Proof.
  unfold be_get, be_put. rewrite length_app, length_reverse, length_le_split.
  case_match eqn:E1; [|apply Nat.leb_gt in E1; lia].
  rewrite take_app_length' by (by rewrite length_reverse, length_le_split).
  rewrite reverse_involutive, le_combine_split. unfold wrap. do 3 f_equal. lia.
Qed.

Lemma be_get_put {E} n x : be_get (E:=E) n (be_put n x) = Ok (wrap (8 * Z.of_nat n) x).
Proof. rewrite <- (app_nil_r (be_put n x)). apply be_get_app. Qed.

Lemma le_get_in {E} n b :
  Z.of_nat n <= blen b -> le_get (E:=E) n b = Ok (le_combine (take n b)).
Proof.
  intros H. unfold le_get, blen in *. by rewrite (proj2 (Nat.leb_le n _)) by lia.
Qed.

Lemma be_get_in {E} n b :
  Z.of_nat n <= blen b -> be_get (E:=E) n b = Ok (le_combine (reverse (take n b))).
Proof.
  intros H. unfold be_get, blen in *. by rewrite (proj2 (Nat.leb_le n _)) by lia.
Qed.

Lemma le_get_ok {E} n b : Z.of_nat n <= blen b -> exists x, le_get (E:=E) n b = Ok x /\ fits (8 * Z.of_nat n) x.
Proof.
  intros H. unfold le_get, blen in *. case_match eqn:E1; [|apply Nat.leb_gt in E1; lia].
  eexists. split; [done|]. pose proof (le_combine_bound (take n b)) as Hb.
  unfold fits. rewrite length_take in Hb. by replace (Z.of_nat n) with (Z.of_nat (Nat.min n (length b))) by lia.
Qed.

Lemma be_get_ok {E} n b : Z.of_nat n <= blen b -> exists x, be_get (E:=E) n b = Ok x /\ fits (8 * Z.of_nat n) x.
Proof.
  intros H. unfold be_get, blen in *. case_match eqn:E1; [|apply Nat.leb_gt in E1; lia].
  eexists. split; [done|]. pose proof (le_combine_bound (reverse (take n b))) as Hb.
  unfold fits. rewrite length_reverse, length_take in Hb.
  by replace (Z.of_nat n) with (Z.of_nat (Nat.min n (length b))) by lia.
Qed.

(** ** Stores *)

Lemma store_here {E} (b c src : bytes) lo :
  lo = 0 -> blen src = blen b -> store (E:=E) (b ++ c) lo src = Ok (src ++ c).
Proof.
  intros -> Hb. unfold store. rewrite (proj2 (Z.leb_le (0 + _) _)) by len. simpl.
  unfold blen in Hb. rewrite drop_app_length' by lia. done.
Qed.

Lemma store_app_r {E} (a b r src : bytes) lo :
  blen a <= lo -> store (E:=E) b (lo - blen a) src = Ok r ->
  store (E:=E) (a ++ b) lo src = Ok (a ++ r).
Proof.
  intros Hlo. unfold store. destruct ((0 <=? lo - blen a) && _) eqn:E1; [|done].
  apply andb_true_iff in E1 as [E1 E2]. apply Z.leb_le in E1, E2. intros [= <-].
  rewrite (proj2 (Z.leb_le 0 lo)), (proj2 (Z.leb_le (lo + _) _)) by len. simpl. f_equal.
  unfold blen in *. rewrite take_app_ge, drop_app_ge by lia.
  rewrite <- app_assoc. repeat f_equal; lia.
Qed.

(** The bytes [b] at offset [lo] are replaced by [src]. *)
Lemma store_mid {E} (a b c src : bytes) lo :
  lo = blen a -> blen src = blen b ->
  store (E:=E) (a ++ b ++ c) lo src = Ok (a ++ src ++ c).
Proof.
  intros -> Hb. apply store_app_r; [lia|]. apply store_here; [lia|done].
Qed.

(** Computes the stores of an encoder into a concatenation of pieces. *)
Ltac solve_store :=
  first [apply store_here; [len|len] | eapply store_app_r; [len|solve_store]].
Ltac step_store :=
  match goal with
  | |- context [store ?d ?lo ?s] =>
      let E := fresh "E" in
      eassert (store d lo s = Ok _) as E by solve_store; rewrite E; clear E
  end; cbn [mbind outcome_bind].

Lemma store_len {E} (b r src : bytes) lo : store (E:=E) b lo src = Ok r -> blen r = blen b.
Proof.
  unfold store. destruct (_ && _) eqn:E1; [|done].
  apply andb_true_iff in E1 as [E1 E2]. apply Z.leb_le in E1, E2. intros [= <-]. len.
Qed.

(** Cuts the first [k] bytes off a list. *)
Lemma cut (k : Z) {A} (b : list A) :
  0 <= k <= blen b -> exists a c, b = a ++ c /\ blen a = k.
Proof.
  intros Hk. exists (take (Z.to_nat k) b), (drop (Z.to_nat k) b).
  rewrite take_drop. split; [done|]. len.
Qed.

Lemma le_put_combine (b : bytes) n : blen b = Z.of_nat n -> le_put n (le_combine b) = b.
Proof. intros Hb. unfold le_put. apply split_le_combine'. unfold blen in Hb. lia. Qed.

Lemma le_combine_put n x : fits (8 * Z.of_nat n) x -> le_combine (le_put n x) = x.
Proof.
  intros Hx. unfold le_put. rewrite le_combine_split.
  replace (Z.of_nat n * 8) with (8 * Z.of_nat n) by lia. by apply Z.mod_small.
Qed.

Lemma be_put_combine (b : bytes) n :
  blen b = Z.of_nat n -> be_put n (le_combine (reverse b)) = b.
Proof.
  intros Hb. unfold be_put. rewrite split_le_combine', reverse_involutive; [done|].
  rewrite length_reverse. unfold blen in Hb. lia.
Qed.
