(* ===== verification/SipHash.v ===== *)
(** * SipHash-2-4, the keyed integrity field of a cache entry
    (src/cache/siphash.go).

    The streaming hasher of the source ([sipHasher], with its eight-byte
    carry buffer) is modelled step by step and proved equal to the one-shot
    definition of SipHash-2-4 on the concatenation of everything written. *)
From S2P Require Import Prelude.

Module SipHash.

Definition sipC0 : Z := 0x736f6d6570736575.
Definition sipC1 : Z := 0x646f72616e646f6d.
Definition sipC2 : Z := 0x6c7967656e657261.
Definition sipC3 : Z := 0x7465646279746573.

Definition framingKeyLen : Z := 16.

(** [bits.RotateLeft64(x, k)]. *)
Definition rotl (x k : Z) : Z := Z.lor (u64 (Z.shiftl x k)) (Z.shiftr x (64 - k)).

(** The four lanes [v0..v3]. *)
Record lanes := Lanes { v0 : Z; v1 : Z; v2 : Z; v3 : Z }.

(** The hasher: lanes, the eight-byte carry buffer, the number of buffered
    bytes and the number of absorbed bytes. *)
Record sipHasher := SipHasher {
  st : lanes;
  buf : bytes;
  n : nat;
  total : Z;
}.

Definition sipLanes (k0 k1 : Z) : lanes :=
  Lanes (Z.lxor sipC0 k0) (Z.lxor sipC1 k1) (Z.lxor sipC2 k0) (Z.lxor sipC3 k1).

Definition newSipHasher (k0 k1 : Z) : sipHasher :=
  SipHasher (sipLanes k0 k1) (replicate 8 Byte.x00) 0 0.

Definition sipRound (s : lanes) : lanes :=
  let a0 := u64 (v0 s + v1 s) in
  let a1 := Z.lxor (rotl (v1 s) 13) a0 in
  let a0 := rotl a0 32 in
  let a2 := u64 (v2 s + v3 s) in
  let a3 := Z.lxor (rotl (v3 s) 16) a2 in
  let a0 := u64 (a0 + a3) in
  let a3 := Z.lxor (rotl a3 21) a0 in
  let a2 := u64 (a2 + a1) in
  let a1 := Z.lxor (rotl a1 17) a2 in
  let a2 := rotl a2 32 in
  Lanes a0 a1 a2 a3.

(** [h.v0 ^= m], [h.v2 ^= m], [h.v3 ^= m]. *)
Definition xor0 (s : lanes) (m : Z) : lanes := Lanes (Z.lxor (v0 s) m) (v1 s) (v2 s) (v3 s).
Definition xor2 (s : lanes) (m : Z) : lanes := Lanes (v0 s) (v1 s) (Z.lxor (v2 s) m) (v3 s).
Definition xor3 (s : lanes) (m : Z) : lanes := Lanes (v0 s) (v1 s) (v2 s) (Z.lxor (v3 s) m).

Definition compress (s : lanes) (m : Z) : lanes :=
  xor0 (sipRound (sipRound (xor3 s m))) m.

(** First loop of [write]: top up the carry buffer. *)
Fixpoint fill (b : bytes) (k : nat) (p : bytes) : bytes * nat * bytes :=
  match p with
  | [] => (b, k, [])
  | x :: p' => if (k <? 8)%nat then fill (<[k:=x]> b) (S k) p' else (b, k, p)
  end.

(** Second loop of [write]: compress whole words; returns the lanes and the
    remaining (fewer than eight) bytes. *)
Fixpoint words (fuel : nat) (s : lanes) (p : bytes) : lanes * bytes :=
  match fuel with
  | O => (s, p)
  | S fuel =>
      if (8 <=? length p)%nat
      then words fuel (compress s (le_combine (take 8 p))) (drop 8 p)
      else (s, p)
  end.

(** Third loop of [write]: buffer the rest. *)
Fixpoint tailfill (b : bytes) (k : nat) (p : bytes) : bytes * nat :=
  match p with
  | [] => (b, k)
  | x :: p' => tailfill (<[k:=x]> b) (S k) p'
  end.

Definition write (h : sipHasher) (p : bytes) : sipHasher :=
  let tot := u64 (total h + blen p) in
  let '(s, b, k, p) :=
    if (0 <? n h)%nat then
      let '(b, k, p) := fill (buf h) (n h) p in
      if (k =? 8)%nat then (compress (st h) (le_combine b), b, O, p)
      else (st h, b, k, p)
    else (st h, buf h, n h, p) in
  let '(s, p) := words (length p) s p in
  let '(b, k) := tailfill b k p in
  SipHasher s b k tot.

(** The last word: the length byte and the buffered bytes. *)
Fixpoint lastword (b : bytes) (i : nat) (acc : Z) : Z :=
  match b with
  | [] => acc
  | x :: b' => lastword b' (S i) (Z.lor acc (Z.shiftl (byte.unsigned x) (8 * Z.of_nat i)))
  end.

Definition finish (s : lanes) (b : Z) : Z :=
  let s := xor0 (sipRound (sipRound (xor3 s b))) b in
  let s := xor2 s 0xff in
  let s := sipRound (sipRound (sipRound (sipRound s))) in
  Z.lxor (Z.lxor (Z.lxor (v0 s) (v1 s)) (v2 s)) (v3 s).

Definition sum (h : sipHasher) : Z :=
  finish (st h) (lastword (take (n h) (buf h)) 0 (u64 (Z.shiftl (total h) 56))).

(** Panics when the key is not sixteen bytes. *)
Definition sipKeyHalves {E} (key : bytes) : outcome E (Z * Z) :=
  if blen key =? framingKeyLen then
    k0 ← slice key 0 8; k0 ← le_get 8 k0;
    k1 ← slice key 8 16; k1 ← le_get 8 k1;
    mret (k0, k1)
  else Panic.

Definition sipHash24 {E} (key msg : bytes) : outcome E Z :=
  '(k0, k1) ← sipKeyHalves key;
  mret (sum (write (newSipHasher k0 k1) msg)).

(** ** Reference definition

    SipHash-2-4 as its paper defines it: the message is cut into eight-byte
    little-endian words, the last word carries the remaining bytes and the
    message length modulo 256 in its top byte. *)

Fixpoint absorb (s : lanes) (ws : list Z) : lanes :=
  match ws with
  | [] => s
  | w :: ws => absorb (compress s w) ws
  end.

Fixpoint whole_words (k : nat) (m : bytes) : list Z :=
  match k with
  | O => []
  | S k => le_combine (take 8 m) :: whole_words k (drop 8 m)
  end.

Definition siphash_spec (k0 k1 : Z) (m : bytes) : Z :=
  let q := (length m / 8)%nat in
  let rest := drop (8 * q) m in
  finish (absorb (sipLanes k0 k1) (whole_words q m))
         (le_combine rest + (blen m mod 256) * 2 ^ 56).

(** ** The streaming hasher absorbs the concatenation of its writes *)

Lemma absorb_app s a b : absorb s (a ++ b) = absorb (absorb s a) b.
Proof. revert s. induction a as [|w a IH]; intros s; simpl; auto. Qed.

Lemma whole_words_app k j (a b : bytes) :
  length a = (8 * k)%nat ->
  whole_words (k + j) (a ++ b) = whole_words k a ++ whole_words j b.
Proof.
  revert a. induction k as [|k IH]; intros a Ha.
  - destruct a; [done|simpl in Ha; lia].
  - cbn [whole_words Nat.add app]. rewrite take_app_le, drop_app_le by lia.
    f_equal. apply IH. rewrite length_drop. lia.
Qed.

Lemma words_spec fuel s p :
  (length p <= fuel)%nat ->
  exists j M r, p = M ++ r /\ length M = (8 * j)%nat /\ (length r < 8)%nat /\
    words fuel s p = (absorb s (whole_words j M), r).
Proof.
  revert s p. induction fuel as [|fuel IH]; intros s p Hf.
  - destruct p; [|simpl in Hf; lia].
    exists O, [], []. split_and!; simpl; auto; lia.
  - cbn [words]. destruct (8 <=? length p)%nat eqn:E8.
    + apply Nat.leb_le in E8.
      destruct (IH (compress s (le_combine (take 8 p))) (drop 8 p))
        as (j & M & r & Hp & HM & Hr & Hw); [rewrite length_drop; lia|].
      exists (S j), (take 8 p ++ M), r. rewrite <- app_assoc, <- Hp, take_drop.
      repeat split; [rewrite length_app, length_take; lia|done|].
      rewrite Hw. cbn [whole_words].
      rewrite take_app_length', drop_app_length' by (rewrite length_take; lia). done.
    + apply Nat.leb_gt in E8. exists O, [], p. split_and!; simpl; auto; lia.
Qed.

Lemma take_S_insert (b : bytes) k x :
  (k < length b)%nat -> take (S k) (<[k:=x]> b) = take k b ++ [x].
Proof.
  intros Hk. erewrite take_S_r by (by apply list_lookup_insert_eq).
  by rewrite take_insert_ge by lia.
Qed.

Lemma fill_spec b k p b' k' p' :
  fill b k p = (b', k', p') -> (k <= 8)%nat -> length b = 8%nat ->
  exists c, p = c ++ p' /\ k' = (k + length c)%nat /\ (k' <= 8)%nat /\
    take k' b' = take k b ++ c /\ length b' = 8%nat /\ (k' = 8%nat \/ p' = []).
Proof.
  revert b k. induction p as [|x p IH]; intros b k Hf Hk Hb; simpl in Hf.
  - injection Hf as <- <- <-. exists []. simpl. rewrite ?app_nil_r.
    repeat split; auto; lia.
  - destruct (k <? 8)%nat eqn:E8.
    + apply Nat.ltb_lt in E8.
      destruct (IH (<[k:=x]> b) (S k)) as (c & -> & -> & ? & Ht & ? & ?);
        [done|lia|by rewrite length_insert|].
      exists (x :: c). rewrite take_S_insert, <- app_assoc in Ht by lia.
      simpl in *. split_and!; auto; lia.
    + apply Nat.ltb_ge in E8. injection Hf as <- <- <-.
      exists []. simpl. rewrite ?app_nil_r. repeat split; auto; lia.
Qed.

Lemma tailfill_spec b k p b' k' :
  tailfill b k p = (b', k') -> (k + length p <= 8)%nat -> length b = 8%nat ->
  k' = (k + length p)%nat /\ take k' b' = take k b ++ p /\ length b' = 8%nat.
Proof.
  revert b k. induction p as [|x p IH]; intros b k Hf Hk Hb; simpl in Hf, Hk.
  - injection Hf as <- <-. rewrite app_nil_r. simpl. repeat split; auto; lia.
  - destruct (IH (<[k:=x]> b) (S k)) as (-> & Ht & ?); auto;
      [lia|by rewrite length_insert|].
    rewrite take_S_insert, <- app_assoc in Ht by lia.
    simpl in *. split_and!; auto; lia.
Qed.

(** The hasher [h] has absorbed exactly the bytes [m]. *)
Definition absorbed (k0 k1 : Z) (h : sipHasher) (m : bytes) : Prop :=
  exists q M, m = M ++ take (n h) (buf h) /\ length M = (8 * q)%nat /\
    st h = absorb (sipLanes k0 k1) (whole_words q M) /\
    (n h < 8)%nat /\ length (buf h) = 8%nat /\ total h = u64 (blen m).

Lemma absorbed_new k0 k1 : absorbed k0 k1 (newSipHasher k0 k1) [].
Proof. exists O, []. repeat split; auto. simpl. lia. Qed.

Lemma whole_words_snoc s q (M b : bytes) :
  length M = (8 * q)%nat -> length b = 8%nat ->
  compress (absorb s (whole_words q M)) (le_combine b) =
  absorb s (whole_words (q + 1) (M ++ b)).
Proof.
  intros HM Hb. rewrite whole_words_app by done. rewrite absorb_app. simpl.
  by rewrite take_ge by lia.
Qed.

Lemma u64_add_r x y : u64 (u64 x + y) = u64 (x + y).
Proof. unfold wrap. by rewrite Zplus_mod_idemp_l. Qed.

Lemma write_absorbed k0 k1 h m p :
  absorbed k0 k1 h m -> absorbed k0 k1 (write h p) (m ++ p).
Proof.
  intros (q & M & -> & HM & Hst & Hn & Hb & Ht). unfold write.
  assert (Htot : u64 (total h + blen p) = u64 (blen ((M ++ take (n h) (buf h)) ++ p))).
  { rewrite Ht, u64_add_r. f_equal. len. }
  destruct (0 <? n h)%nat eqn:E0.
  - destruct (fill (buf h) (n h) p) as [[b k] r] eqn:Ef.
    destruct (fill_spec _ _ _ _ _ _ Ef ltac:(lia) Hb) as (c & -> & Hk & Hk8 & Htk & Hbl & Hor).
    destruct (k =? 8)%nat eqn:E8.
    + apply Nat.eqb_eq in E8. rewrite E8 in Htk.
      rewrite take_ge in Htk by lia. rewrite Hst, (whole_words_snoc _ _ _ _ HM Hbl).
      destruct (words_spec (length r) (absorb (sipLanes k0 k1) (whole_words (q + 1) (M ++ b))) r)
        as (j & M' & r' & Hr & HM' & Hr' & Hw); [done|]. rewrite Hw.
      destruct (tailfill b 0 r') as [b' k'] eqn:Et.
      destruct (tailfill_spec _ _ _ _ _ Et ltac:(simpl; lia) Hbl) as (Hk' & Ht' & Hb').
      exists (q + 1 + j)%nat, ((M ++ b) ++ M'). simpl in *. rewrite Ht'. simpl.
      repeat split; auto; try lia.
      * rewrite Hr, Htk, <- !app_assoc. done.
      * rewrite !length_app. lia.
      * rewrite (whole_words_app (q + 1) j) by (rewrite length_app; lia).
        by rewrite absorb_app.
    + apply Nat.eqb_neq in E8. destruct Hor as [?| ->]; [lia|]. simpl.
      exists q, M. simpl. rewrite Htk. repeat split; auto; try lia.
      by rewrite !app_nil_r, <- app_assoc.
  - apply Nat.ltb_ge in E0. assert (n h = 0)%nat as Hn0 by lia.
    rewrite Hn0 in *. rewrite take_0, app_nil_r in Htot. rewrite take_0, app_nil_r.
    destruct (words_spec (length p) (st h) p) as (j & M' & r' & Hr & HM' & Hr' & Hw); [done|].
    rewrite Hw. destruct (tailfill (buf h) 0 r') as [b' k'] eqn:Et.
    destruct (tailfill_spec _ _ _ _ _ Et ltac:(simpl; lia) Hb) as (Hk' & Ht' & Hb').
    exists (q + j)%nat, (M ++ M'). simpl in *. rewrite Ht'. simpl.
    repeat split; auto; try lia.
    + by rewrite Hr, <- app_assoc.
    + rewrite !length_app. lia.
    + rewrite whole_words_app by done. by rewrite absorb_app, Hst.
Qed.

Lemma lastword_lor b i acc :
  lastword b i acc = Z.lor acc (Z.shiftl (le_combine b) (8 * Z.of_nat i)).
Proof.
  revert i acc. induction b as [|x b IH]; intros i acc; simpl.
  - change (le_combine []) with 0. by rewrite Z.shiftl_0_l, Z.lor_0_r.
  - rewrite IH. change (le_combine (x :: b))
      with (Z.lor (byte.unsigned x) (Z.shiftl (le_combine b) 8)).
    rewrite Z.shiftl_lor, Z.shiftl_shiftl, Z.lor_assoc by lia.
    do 2 f_equal. lia.
Qed.

Lemma lor_disjoint_add a b k :
  0 <= k -> 0 <= a < 2 ^ k -> Z.lor (b * 2 ^ k) a = b * 2 ^ k + a.
Proof.
  intros Hk Ha. assert (Z.land (b * 2 ^ k) a = 0) as Hl.
  { apply Z.bits_inj'. intros i Hi.
    rewrite Z.land_spec, Z.bits_0, <- Z.shiftl_mul_pow2 by lia.
    destruct (decide (i < k)); [by rewrite Z.shiftl_spec_low by lia|].
    destruct (decide (a = 0)) as [-> |]; [by rewrite Z.bits_0, andb_false_r|].
    rewrite (Z.bits_above_log2 a i), andb_false_r; [done|lia|].
    apply Z.log2_lt_pow2; [lia|]. pose proof (Z.pow_le_mono_r 2 k i). lia. }
  rewrite Z.add_nocarry_lxor by done. symmetry. by apply Z.lxor_lor.
Qed.

Lemma top_byte x : u64 (Z.shiftl (u64 x) 56) = (x mod 256) * 2 ^ 56.
Proof.
  unfold wrap. rewrite Z.shiftl_mul_pow2 by lia.
  change (2 ^ 64) with (256 * 2 ^ 56). rewrite Z.mul_mod_distr_r by lia.
  f_equal. rewrite Z.mod_mod_divide; [done|by exists (2 ^ 56)].
Qed.

Lemma absorbed_sum k0 k1 h m :
  absorbed k0 k1 h m -> sum h = siphash_spec k0 k1 m.
Proof.
  intros (q & M & -> & HM & Hst & Hn & Hb & Ht). unfold sum, siphash_spec.
  set (r := take (n h) (buf h)) in *.
  assert (length r = n h) as Hr by (unfold r; rewrite length_take; lia).
  assert (length (M ++ r) / 8 = q)%nat as ->.
  { rewrite length_app, HM, Hr. rewrite Nat.mul_comm, Nat.div_add_l by lia.
    rewrite Nat.div_small by lia. lia. }
  rewrite drop_app_length' by done.
  rewrite <- (Nat.add_0_r q) at 1. rewrite whole_words_app, app_nil_r by done.
  rewrite Hst. f_equal. rewrite lastword_lor, Ht, top_byte, Z.shiftl_0_r.
  pose proof (le_combine_bound r) as Hbd.
  rewrite lor_disjoint_add; [lia|lia|].
  pose proof (Z.pow_le_mono_r 2 (8 * Z.of_nat (length r)) 56). lia.
Qed.

Lemma sipKeyHalves_ok {E} key :
  blen key = framingKeyLen ->
  sipKeyHalves (E:=E) key = Ok (le_combine (take 8 key), le_combine (drop 8 key)).
Proof.
  intros Hk. unfold sipKeyHalves, framingKeyLen in *. rewrite Hk. simpl.
  rewrite !slice_in by lia. cbn [mbind outcome_bind].
  rewrite !le_get_in by (autorewrite with blen; lia). cbn.
  change (Z.to_nat (8 - 0)) with 8%nat. change (Z.to_nat (16 - 8)) with 8%nat.
  change (Z.to_nat 0) with 0%nat. change (Z.to_nat 8) with 8%nat.
  rewrite drop_0, !take_take. simpl. unfold blen in Hk.
  by rewrite (take_ge (drop 8 key)) by (rewrite length_drop; lia).
Qed.

(** ** The hash is a 64-bit value *)

Definition lanes_fit (s : lanes) : Prop :=
  fits 64 (v0 s) /\ fits 64 (v1 s) /\ fits 64 (v2 s) /\ fits 64 (v3 s).

Lemma fits_rotl x k : 0 <= k <= 64 -> fits 64 x -> fits 64 (rotl x k).
Proof. intros Hk Hx. unfold rotl. fit. Qed.

Ltac sip_fit :=
  repeat (fit; lazymatch goal with |- fits _ (rotl _ _) => apply fits_rotl; [lia|] end).

Lemma sipRound_fit s : lanes_fit s -> lanes_fit (sipRound s).
Proof.
  intros (? & ? & ? & ?). unfold lanes_fit, sipRound. simpl. split_and!; sip_fit.
Qed.

Lemma xor0_fit s m : lanes_fit s -> fits 64 m -> lanes_fit (xor0 s m).
Proof. intros (? & ? & ? & ?) ?. unfold lanes_fit, xor0. simpl. split_and!; fit. Qed.
Lemma xor2_fit s m : lanes_fit s -> fits 64 m -> lanes_fit (xor2 s m).
Proof. intros (? & ? & ? & ?) ?. unfold lanes_fit, xor2. simpl. split_and!; fit. Qed.
Lemma xor3_fit s m : lanes_fit s -> fits 64 m -> lanes_fit (xor3 s m).
Proof. intros (? & ? & ? & ?) ?. unfold lanes_fit, xor3. simpl. split_and!; fit. Qed.

Create HintDb sip.
#[local] Hint Resolve xor0_fit xor2_fit xor3_fit sipRound_fit : sip.

Lemma compress_fit s m : lanes_fit s -> fits 64 m -> lanes_fit (compress s m).
Proof. unfold compress. auto with sip. Qed.

Lemma absorb_fit s ws : lanes_fit s -> Forall (fits 64) ws -> lanes_fit (absorb s ws).
Proof.
  intros Hs Hws. revert s Hs. induction Hws; intros s Hs; simpl; auto using compress_fit.
Qed.

Lemma fold_lanes_fit s :
  lanes_fit s -> fits 64 (Z.lxor (Z.lxor (Z.lxor (v0 s) (v1 s)) (v2 s)) (v3 s)).
Proof. intros (? & ? & ? & ?). fit. Qed.

Lemma finish_fits s b : lanes_fit s -> fits 64 b -> fits 64 (finish s b).
Proof.
  intros. apply fold_lanes_fit. do 4 apply sipRound_fit. apply xor2_fit.
  - auto with sip.
  - unfold fits. lia.
Qed.

Lemma whole_words_fit q m : (8 * q <= length m)%nat -> Forall (fits 64) (whole_words q m).
Proof.
  revert m. induction q as [|q IH]; intros m Hm; simpl; constructor.
  - pose proof (fits_le_combine (take 8 m)) as Hf.
    eapply fits_mono; [|exact Hf]. len.
  - apply IH. rewrite length_drop. lia.
Qed.

Lemma siphash_spec_fits k0 k1 m :
  fits 64 k0 -> fits 64 k1 -> fits 64 (siphash_spec k0 k1 m).
Proof.
  intros H0 H1. unfold siphash_spec.
  assert (Hq : (8 * (length m / 8) <= length m < 8 * (length m / 8) + 8)%nat).
  { pose proof (Nat.div_mod_eq (length m) 8).
    pose proof (Nat.mod_upper_bound (length m) 8 ltac:(lia)). lia. }
  apply finish_fits.
  - apply absorb_fit; [|apply whole_words_fit; lia].
    unfold lanes_fit, sipLanes. simpl.
    split_and!; apply fits_lxor; try done; unfold fits; lia.
  - pose proof (le_combine_bound (drop (8 * (length m / 8)) m)) as Hb.
    rewrite length_drop in Hb.
    pose proof (Z.pow_le_mono_r 2 (8 * Z.of_nat (length m - 8 * (length m / 8))) 56).
    pose proof (Z.mod_pos_bound (blen m) 256). unfold fits. lia.
Qed.

(** Feeding the hasher chunk by chunk. *)
Definition stream (k0 k1 : Z) (chunks : list bytes) : sipHasher :=
  foldl write (newSipHasher k0 k1) chunks.

Lemma stream_absorbed k0 k1 h m chunks :
  absorbed k0 k1 h m -> absorbed k0 k1 (foldl write h chunks) (m ++ concat chunks).
Proof.
  revert h m. induction chunks as [|c chunks IH]; intros h m Hm; simpl.
  - by rewrite app_nil_r.
  - rewrite app_assoc. by apply IH, write_absorbed.
Qed.

Lemma stream_sum k0 k1 chunks :
  sum (stream k0 k1 chunks) = siphash_spec k0 k1 (concat chunks).
Proof. apply absorbed_sum, (stream_absorbed _ _ _ []), absorbed_new. Qed.

Lemma sipHash24_spec {E} key msg :
  blen key = framingKeyLen ->
  sipHash24 (E:=E) key msg =
    Ok (siphash_spec (le_combine (take 8 key)) (le_combine (drop 8 key)) msg).
Proof.
  intros Hk. unfold sipHash24. rewrite sipKeyHalves_ok by done. simpl.
  unfold mret, outcome_ret. f_equal.
  apply absorbed_sum, (write_absorbed _ _ _ []), absorbed_new.
Qed.

(** C33. The keyed hash that guards every cache entry on disk does not depend
    on how its input is cut into [write] calls: absorbing any list of chunks
    and summing gives SipHash-2-4 of their concatenation, so the partial-word
    buffer of the streaming hasher neither drops, repeats nor reorders a
    byte. *)
Theorem sip_streaming_is_siphash24 : forall k0 k1 chunks,
  sum (stream k0 k1 chunks) = siphash_spec k0 k1 (concat chunks).
Proof. exact stream_sum. Qed.

(** Test vector of the SipHash paper (key 00..0f, message 00..0e). *)
Example sip_vector :
  sipHash24 (E:=unit) (map (fun i => byte.of_Z (Z.of_nat i)) (seq 0 16))
            (map (fun i => byte.of_Z (Z.of_nat i)) (seq 0 15)) = Ok 0xa129ca6149be45e5.
Proof. vm_compute. reflexivity. Qed.

End SipHash.
