(* ===== verification/Entry.v ===== *)
(** * Cache entries: layout, encoder and decoders (src/cache/ringbuf.go).

    An entry is [keyLen:2][valueLen:4][expiryMs:8][meta:8][mac:8][key][value],
    little-endian, with a keyed MAC over the page nonce, the offset, the first
    22 header bytes and the payload. *)
From S2P Require Import Prelude SipHash.
Import SipHash.

(** The errors the cache package returns. *)
Inductive cerr :=
| errBufferTooSmall | errKeyTooLong | errValueTooLong | errEntryTruncated
| errMACMismatch | errPageFull | errPageNotOverwritable
| ErrNotFound | ErrFull | ErrCannotEvict | ErrReuseBarrier
| errEntryTooLarge | errUnknownPolicy | ErrFlushNotDurable.

#[export] Instance cerr_eq_dec : EqDecision cerr.
Proof. solve_decision. Defined.

Module Entry.

Definition entryHeaderSize : Z := 2 + 4 + 8 + 8 + 8.
Definition entryMetaOff : Z := 14.
Definition entryMACOff : Z := 22.
Definition maxKeyLen : Z := 2 ^ 16 - 1.
Definition maxValueLen : Z := 2 ^ 32 - 1.
Definition entryFlagTombstone : Z := Z.shiftl 1 56.
Definition entrySeqMask : Z := entryFlagTombstone - 1.

Definition makeMeta (seq : Z) (tombstone : bool) : Z :=
  let m := Z.land seq entrySeqMask in
  if tombstone then Z.lor m entryFlagTombstone else m.

Definition metaSeq (meta : Z) : Z := Z.land meta entrySeqMask.

Definition metaIsTombstone (meta : Z) : bool :=
  negb (Z.land meta entryFlagTombstone =? 0).

Definition entryMetaAt (src : bytes) : outcome cerr Z :=
  if blen src <? entryHeaderSize then mret 0
  else m ← slice src entryMetaOff entryMACOff; le_get 8 m.

Definition entryMAC (framingKey : bytes) (nonce offset : Z) (header22 payload : bytes)
  : outcome cerr Z :=
  '(k0, k1) ← sipKeyHalves framingKey;
  let h := newSipHasher k0 k1 in
  let h := write h (le_put 8 nonce ++ le_put 4 offset) in
  let h := write h header22 in
  let h := write h payload in
  mret (sum h).

(** The header (its MAC slot untouched) and the payload are written into
    [dst]; the result is the new [dst] and the number of bytes written. *)
Definition encodeEntryHeader (dst key value : bytes) (expiryMs meta : Z)
  : outcome cerr (bytes * Z) :=
  if maxKeyLen <? blen key then Err errKeyTooLong
  else if maxValueLen <? blen value then Err errValueTooLong
  else
    let total := entryHeaderSize + blen key + blen value in
    if blen dst <? total then Err errBufferTooSmall
    else
      dst ← store dst 0 (le_put 2 (blen key));
      dst ← store dst 2 (le_put 4 (blen value));
      dst ← store dst 6 (le_put 8 expiryMs);
      dst ← store dst entryMetaOff (le_put 8 meta);
      dst ← store dst entryHeaderSize key;
      dst ← store dst (entryHeaderSize + blen key) value;
      mret (dst, total).

Definition encodeEntry (dst key value : bytes) (expiryMs meta : Z)
  (framingKey : bytes) (nonce offset : Z) : outcome cerr (bytes * Z) :=
  '(dst, n) ← encodeEntryHeader dst key value expiryMs meta;
  header22 ← slice dst 0 entryMACOff;
  payload ← slice dst entryHeaderSize n;
  mac ← entryMAC framingKey nonce offset header22 payload;
  dst ← store dst entryMACOff (le_put 8 mac);
  mret (dst, n).

Definition encodeEntryNoCRC (dst key value : bytes) (expiryMs meta : Z)
  : outcome cerr (bytes * Z) :=
  encodeEntryHeader dst key value expiryMs meta.

Definition decodeEntry (src framingKey : bytes) (nonce offset : Z)
  : outcome cerr (bytes * bytes * Z * Z) :=
  if blen src <? entryHeaderSize then Err errEntryTruncated
  else
    keyLen ← (b ← slice src 0 2; le_get 2 b);
    valLen ← (b ← slice src 2 6; le_get 4 b);
    if valLen <? 0 then Err errEntryTruncated
    else if blen src - entryHeaderSize - keyLen <? valLen then Err errEntryTruncated
    else
      expiryMs ← (b ← slice src 6 14; le_get 8 b);
      meta ← (b ← slice src entryMetaOff entryMACOff; le_get 8 b);
      storedMAC ← (b ← slice src entryMACOff entryHeaderSize; le_get 8 b);
      let total := entryHeaderSize + keyLen + valLen in
      header22 ← slice src 0 entryMACOff;
      payload ← slice src entryHeaderSize total;
      mac ← entryMAC framingKey nonce offset header22 payload;
      if negb (mac =? storedMAC) then Err errMACMismatch
      else
        key ← slice src entryHeaderSize (entryHeaderSize + keyLen);
        value ← slice src (entryHeaderSize + keyLen) total;
        mret (key, value, expiryMs, meta).

(** The hot read path: framing only, no MAC. *)
Definition decodeEntryFast (src : bytes) : outcome cerr (bytes * bytes * Z) :=
  if blen src <? entryHeaderSize then Err errEntryTruncated
  else
    keyLen ← (b ← slice src 0 2; le_get 2 b);
    valLen ← (b ← slice src 2 6; le_get 4 b);
    if valLen <? 0 then Err errEntryTruncated
    else if blen src - entryHeaderSize - keyLen <? valLen then Err errEntryTruncated
    else
      expiryMs ← (b ← slice src 6 14; le_get 8 b);
      let total := entryHeaderSize + keyLen + valLen in
      key ← slice src entryHeaderSize (entryHeaderSize + keyLen);
      value ← slice src (entryHeaderSize + keyLen) total;
      mret (key, value, expiryMs).

Definition entrySpanExact (keyLen valueLen : Z) : Z := entryHeaderSize + keyLen + valueLen.
Definition classOf (valueLen : Z) : Z := valueLen.
Definition entrySpan (keyLen valueLen : Z) (padded : bool) : Z :=
  if padded then entrySpanExact keyLen (classOf valueLen)
  else entrySpanExact keyLen valueLen.

(** ** The meta word *)

Lemma land_mask56 x : Z.land x entrySeqMask = x mod 2 ^ 56.
Proof. change entrySeqMask with (Z.ones 56). by rewrite Z.land_ones by lia. Qed.

Lemma land_bit56 x : Z.land x entryFlagTombstone = if Z.testbit x 56 then 2 ^ 56 else 0.
Proof.
  change entryFlagTombstone with (Z.shiftl 1 56). apply Z.bits_inj'. intros i Hi.
  rewrite Z.land_spec. destruct (decide (i = 56)) as [-> | Hne].
  - rewrite Z.shiftl_spec by lia. change (Z.testbit 1 (56 - 56)) with true.
    rewrite andb_true_r. destruct (Z.testbit x 56) eqn:E1; by rewrite ?Z.bits_0.
  - assert (Z.testbit (2 ^ 56) i = false) as H1.
    { rewrite Z.pow2_bits_eqb by lia. apply Z.eqb_neq. lia. }
    change (Z.shiftl 1 56) with (2 ^ 56). rewrite H1, andb_false_r.
    destruct (Z.testbit x 56); by rewrite ?Z.bits_0.
Qed.

Lemma testbit56_mod x : Z.testbit (x mod 2 ^ 56) 56 = false.
Proof. by rewrite Z.mod_pow2_bits_high by lia. Qed.

Lemma metaSeq_makeMeta seq t : metaSeq (makeMeta seq t) = seq mod 2 ^ 56.
Proof.
  unfold metaSeq, makeMeta. rewrite !land_mask56. destruct t.
  - apply Z.bits_inj'. intros i Hi. change entryFlagTombstone with (2 ^ 56).
    destruct (decide (i < 56)).
    + rewrite !Z.mod_pow2_bits_low, Z.lor_spec, Z.mod_pow2_bits_low by lia.
      rewrite Z.pow2_bits_eqb by lia. rewrite (proj2 (Z.eqb_neq 56 i)) by lia.
      by rewrite orb_false_r.
    + by rewrite !Z.mod_pow2_bits_high by lia.
  - by rewrite Z.mod_mod by lia.
Qed.

Lemma metaIsTombstone_makeMeta seq t : metaIsTombstone (makeMeta seq t) = t.
Proof.
  unfold metaIsTombstone, makeMeta. rewrite land_mask56, land_bit56. destruct t.
  - rewrite Z.lor_spec, testbit56_mod.
    change entryFlagTombstone with (2 ^ 56). by rewrite Z.pow2_bits_true by lia.
  - by rewrite testbit56_mod.
Qed.

(** ** The frame of an entry *)

Definition rawhdr (kl vl expiryMs meta : Z) : bytes :=
  le_put 2 kl ++ le_put 4 vl ++ le_put 8 expiryMs ++ le_put 8 meta.

Definition header22 (key value : bytes) (expiryMs meta : Z) : bytes :=
  rawhdr (blen key) (blen value) expiryMs meta.

Definition frame (key value : bytes) (expiryMs meta mac : Z) : bytes :=
  header22 key value expiryMs meta ++ le_put 8 mac ++ key ++ value.

(** The MAC the frame carries: SipHash-2-4 under the framing key of nonce,
    offset, header and payload. *)
Definition mac_of (framingKey : bytes) (nonce offset : Z) (hdr payload : bytes) : Z :=
  siphash_spec (le_combine (take 8 framingKey)) (le_combine (drop 8 framingKey))
    ((le_put 8 nonce ++ le_put 4 offset) ++ hdr ++ payload).

Lemma blen_rawhdr kl vl e m : blen (rawhdr kl vl e m) = 22.
Proof. unfold rawhdr. autorewrite with blen. done. Qed.

Lemma blen_header22 key value e m : blen (header22 key value e m) = 22.
Proof. apply blen_rawhdr. Qed.

Lemma blen_frame key value e m mac :
  blen (frame key value e m mac) = entryHeaderSize + blen key + blen value.
Proof. unfold frame. autorewrite with blen. rewrite blen_header22. unfold entryHeaderSize. lia. Qed.

#[local] Hint Rewrite blen_rawhdr blen_header22 blen_frame : blen.

Lemma entryMAC_ok fk nonce offset hdr payload :
  blen fk = framingKeyLen ->
  entryMAC fk nonce offset hdr payload = Ok (mac_of fk nonce offset hdr payload).
Proof.
  intros Hk. unfold entryMAC. rewrite sipKeyHalves_ok by done. simpl.
  unfold mret, outcome_ret, mac_of. f_equal. apply absorbed_sum.
  rewrite app_assoc. apply write_absorbed, write_absorbed, (write_absorbed _ _ _ []), absorbed_new.
Qed.

Lemma entryMAC_bad_key fk nonce offset hdr payload :
  blen fk <> framingKeyLen -> entryMAC fk nonce offset hdr payload = Panic.
Proof.
  intros Hk. unfold entryMAC, sipKeyHalves. by rewrite (proj2 (Z.eqb_neq _ _) Hk).
Qed.

(** ** Encoding *)

Lemma encodeEntryHeader_ok dst key value e m :
  blen key <= maxKeyLen -> blen value <= maxValueLen ->
  entryHeaderSize + blen key + blen value <= blen dst ->
  exists mac0 rest, blen mac0 = 8 /\
    blen rest = blen dst - (entryHeaderSize + blen key + blen value) /\
    rest = drop (Z.to_nat (entryHeaderSize + blen key + blen value)) dst /\
    encodeEntryHeader dst key value e m =
      Ok (header22 key value e m ++ mac0 ++ key ++ value ++ rest,
          entryHeaderSize + blen key + blen value).
Proof.
  intros Hk Hv Hd. unfold encodeEntryHeader.
  rewrite (proj2 (Z.ltb_ge maxKeyLen _)), (proj2 (Z.ltb_ge maxValueLen _)),
    (proj2 (Z.ltb_ge (blen dst) _)) by lia.
  unfold entryHeaderSize in *.
  destruct (cut 2 dst) as (d0 & r0 & -> & H0); [len|].
  destruct (cut 4 r0) as (d1 & r1 & -> & H1); [len|].
  destruct (cut 8 r1) as (d2 & r2 & -> & H2); [len|].
  destruct (cut 8 r2) as (d3 & r3 & -> & H3); [len|].
  destruct (cut 8 r3) as (d4 & r4 & -> & H4); [len|].
  destruct (cut (blen key) r4) as (d5 & r5 & -> & H5); [len|].
  destruct (cut (blen value) r5) as (d6 & r6 & -> & H6); [len|].
  exists d4, r6. split; [done|]. split; [len|]. split.
  { rewrite !app_assoc. rewrite drop_app_length'; [done|]. len. }
  unfold entryMetaOff. do 6 step_store. unfold header22, rawhdr. by rewrite <- !app_assoc.
Qed.

Lemma encodeEntry_ok dst key value e m fk nonce offset :
  blen key <= maxKeyLen -> blen value <= maxValueLen ->
  entryHeaderSize + blen key + blen value <= blen dst -> blen fk = framingKeyLen ->
  encodeEntry dst key value e m fk nonce offset =
    Ok (frame key value e m (mac_of fk nonce offset (header22 key value e m) (key ++ value))
          ++ drop (Z.to_nat (entryHeaderSize + blen key + blen value)) dst,
        entryHeaderSize + blen key + blen value).
Proof.
  intros Hk Hv Hd Hf.
  destruct (encodeEntryHeader_ok dst key value e m) as (mac0 & rest & Hm & Hr & -> & He); auto.
  unfold encodeEntry. rewrite He. cbn [mbind outcome_bind]. clear He.
  set (rest := drop _ dst) in *. unfold entryMACOff, entryHeaderSize in *.
  step_slice. rewrite (app_assoc key).
  step_slice. rewrite entryMAC_ok by done. cbn [mbind outcome_bind].
  step_store. unfold frame. by rewrite <- !app_assoc.
Qed.

(** ** Decoding, on any input of at least a header *)

Lemma split_raw (src : bytes) :
  entryHeaderSize <= blen src ->
  exists kl vl e m mac r, src = rawhdr kl vl e m ++ le_put 8 mac ++ r /\
    fits 16 kl /\ fits 32 vl /\ fits 64 e /\ fits 64 m /\ fits 64 mac.
Proof.
  unfold entryHeaderSize. intros Hd.
  destruct (cut 2 src) as (d0 & r0 & -> & H0); [len|].
  destruct (cut 4 r0) as (d1 & r1 & -> & H1); [len|].
  destruct (cut 8 r1) as (d2 & r2 & -> & H2); [len|].
  destruct (cut 8 r2) as (d3 & r3 & -> & H3); [len|].
  destruct (cut 8 r3) as (d4 & r4 & -> & H4); [len|].
  exists (le_combine d0), (le_combine d1), (le_combine d2), (le_combine d3), (le_combine d4), r4.
  unfold rawhdr. rewrite !le_put_combine by done. rewrite <- !app_assoc.
  split; [done|]. clear Hd. unfold fits, blen in *.
  repeat match goal with
  | H : Z.of_nat (length ?d) = _ |- _ =>
      pose proof (le_combine_bound d); rewrite H in *; clear H
  end.
  split_and!; lia.
Qed.

Ltac raw_field src lo hi v :=
  let H := fresh in
  assert (slice (E:=cerr) src lo hi = Ok v) as H
    by (unfold src; first [solve_slice | unfold rawhdr; rewrite <- ?app_assoc; solve_slice]);
  rewrite H; clear H.

Lemma decodeEntry_raw kl vl e m mac r fk nonce offset :
  fits 16 kl -> fits 32 vl -> fits 64 e -> fits 64 m -> fits 64 mac ->
  blen fk = framingKeyLen ->
  decodeEntry (rawhdr kl vl e m ++ le_put 8 mac ++ r) fk nonce offset =
    if blen r - kl <? vl then Err errEntryTruncated
    else
      let key := take (Z.to_nat kl) r in
      let value := take (Z.to_nat vl) (drop (Z.to_nat kl) r) in
      if mac_of fk nonce offset (rawhdr kl vl e m) (key ++ value) =? mac
      then Ok (key, value, e, m) else Err errMACMismatch.
Proof.
  intros Hkl Hvl He Hm Hmac Hf. unfold decodeEntry.
  rewrite (proj2 (Z.ltb_ge _ entryHeaderSize)) by (unfold entryHeaderSize; len).
  set (src := rawhdr kl vl e m ++ le_put 8 mac ++ r).
  assert (Hlen : blen src = 30 + blen r) by (unfold src; len).
  unfold entryMetaOff, entryMACOff, entryHeaderSize.
  raw_field src 0 2 (le_put 2 kl). raw_field src 2 6 (le_put 4 vl).
  cbn [mbind outcome_bind]. rewrite !le_get_put. cbn [mbind outcome_bind].
  rewrite !wrap_fits by done. unfold fits in Hkl, Hvl.
  rewrite (proj2 (Z.ltb_ge vl 0)) by lia. rewrite Hlen.
  replace (30 + blen r - (2 + 4 + 8 + 8 + 8) - kl) with (blen r - kl) by lia.
  destruct (blen r - kl <? vl) eqn:Ev; [done|]. apply Z.ltb_ge in Ev.
  raw_field src 6 14 (le_put 8 e). raw_field src 14 22 (le_put 8 m).
  raw_field src 22 (2 + 4 + 8 + 8 + 8) (le_put 8 mac).
  raw_field src 0 22 (rawhdr kl vl e m).
  cbn [mbind outcome_bind]. rewrite !le_get_put. cbn [mbind outcome_bind].
  rewrite !wrap_fits by done.
  destruct (cut kl r) as (key & r1 & -> & Hkey); [lia|].
  destruct (cut vl r1) as (value & rest & -> & Hval); [len|].
  assert (Hk' : Z.to_nat kl = length key) by len.
  assert (Hv' : Z.to_nat vl = length value) by len.
  rewrite Hk', Hv', drop_app_length, !take_app_length. cbv zeta.
  assert (Hp : slice (E:=cerr) src (2 + 4 + 8 + 8 + 8) (2 + 4 + 8 + 8 + 8 + kl + vl) = Ok (key ++ value)).
  { unfold src. rewrite (app_assoc key). solve_slice. }
  rewrite Hp. cbn [mbind outcome_bind]. rewrite entryMAC_ok by done. cbn [mbind outcome_bind].
  destruct (mac_of _ _ _ _ _ =? mac); cbn [negb]; [|done].
  raw_field src (2 + 4 + 8 + 8 + 8) (2 + 4 + 8 + 8 + 8 + kl) key.
  raw_field src (2 + 4 + 8 + 8 + 8 + kl) (2 + 4 + 8 + 8 + 8 + kl + vl) value.
  done.
Qed.

Lemma decodeEntryFast_raw kl vl e m mac r :
  fits 16 kl -> fits 32 vl -> fits 64 e ->
  decodeEntryFast (rawhdr kl vl e m ++ le_put 8 mac ++ r) =
    if blen r - kl <? vl then Err errEntryTruncated
    else Ok (take (Z.to_nat kl) r, take (Z.to_nat vl) (drop (Z.to_nat kl) r), e).
Proof.
  intros Hkl Hvl He. unfold decodeEntryFast.
  rewrite (proj2 (Z.ltb_ge _ entryHeaderSize)) by (unfold entryHeaderSize; len).
  set (src := rawhdr kl vl e m ++ le_put 8 mac ++ r).
  assert (Hlen : blen src = 30 + blen r) by (unfold src; len).
  unfold entryHeaderSize.
  raw_field src 0 2 (le_put 2 kl). raw_field src 2 6 (le_put 4 vl).
  cbn [mbind outcome_bind]. rewrite !le_get_put. cbn [mbind outcome_bind].
  rewrite !wrap_fits by done. unfold fits in Hkl, Hvl.
  rewrite (proj2 (Z.ltb_ge vl 0)) by lia. rewrite Hlen.
  replace (30 + blen r - (2 + 4 + 8 + 8 + 8) - kl) with (blen r - kl) by lia.
  destruct (blen r - kl <? vl) eqn:Ev; [done|]. apply Z.ltb_ge in Ev.
  raw_field src 6 14 (le_put 8 e).
  cbn [mbind outcome_bind]. rewrite !le_get_put. cbn [mbind outcome_bind].
  rewrite !wrap_fits by done.
  destruct (cut kl r) as (key & r1 & -> & Hkey); [lia|].
  destruct (cut vl r1) as (value & rest & -> & Hval); [len|].
  assert (Hk' : Z.to_nat kl = length key) by len.
  assert (Hv' : Z.to_nat vl = length value) by len.
  rewrite Hk', Hv', drop_app_length, !take_app_length.
  raw_field src (2 + 4 + 8 + 8 + 8) (2 + 4 + 8 + 8 + 8 + kl) key.
  cbn [mbind outcome_bind].
  raw_field src (2 + 4 + 8 + 8 + 8 + kl) (2 + 4 + 8 + 8 + 8 + kl + vl) value.
  done.
Qed.

Lemma decode_short src fk nonce offset :
  blen src < entryHeaderSize ->
  decodeEntry src fk nonce offset = Err errEntryTruncated /\
  decodeEntryFast src = Err errEntryTruncated.
Proof.
  intros H. unfold decodeEntry, decodeEntryFast.
  by rewrite (proj2 (Z.ltb_lt _ entryHeaderSize)) by done.
Qed.

Lemma mac_of_fits fk nonce offset hdr payload :
  blen fk = framingKeyLen -> fits 64 (mac_of fk nonce offset hdr payload).
Proof.
  intros Hf. unfold framingKeyLen in Hf. apply siphash_spec_fits.
  - pose proof (fits_le_combine (take 8 fk)) as H. by replace (8 * _) with 64 in H by len.
  - pose proof (fits_le_combine (drop 8 fk)) as H. by replace (8 * _) with 64 in H by len.
Qed.

Lemma frame_app key value e m mac rest :
  frame key value e m mac ++ rest =
  rawhdr (blen key) (blen value) e m ++ le_put 8 mac ++ (key ++ value ++ rest).
Proof. unfold frame, header22. by rewrite <- !app_assoc. Qed.

Lemma payload_split (key value rest : bytes) :
  take (Z.to_nat (blen key)) (key ++ value ++ rest) = key /\
  take (Z.to_nat (blen value)) (drop (Z.to_nat (blen key)) (key ++ value ++ rest)) = value.
Proof. by rewrite !blen_to_nat, drop_app_length, !take_app_length. Qed.

(** The payload lengths and integer fields an encoder accepts. *)
Record entry_ok (key value : bytes) (e m : Z) : Prop := {
  eo_key : blen key <= maxKeyLen;
  eo_value : blen value <= maxValueLen;
  eo_exp : fits 64 e;
  eo_meta : fits 64 m;
}.

Lemma decodeEntry_frame key value e m rest fk nonce offset :
  entry_ok key value e m -> blen fk = framingKeyLen ->
  decodeEntry (frame key value e m
      (mac_of fk nonce offset (header22 key value e m) (key ++ value)) ++ rest)
    fk nonce offset = Ok (key, value, e, m).
Proof.
  intros [Hk Hv He Hm] Hf. unfold maxKeyLen, maxValueLen in *. rewrite frame_app.
  rewrite decodeEntry_raw; auto using mac_of_fits; try (unfold fits; len).
  rewrite (proj2 (Z.ltb_ge _ (blen value))) by len. cbv zeta.
  destruct (payload_split key value rest) as [-> ->]. unfold header22.
  by rewrite Z.eqb_refl.
Qed.

Lemma decodeEntryFast_frame key value e m mac rest :
  entry_ok key value e m ->
  decodeEntryFast (frame key value e m mac ++ rest) = Ok (key, value, e).
Proof.
  intros [Hk Hv He Hm]. unfold maxKeyLen, maxValueLen in *. rewrite frame_app.
  rewrite decodeEntryFast_raw; auto; try (unfold fits; len).
  rewrite (proj2 (Z.ltb_ge _ (blen value))) by len.
  by destruct (payload_split key value rest) as [-> ->].
Qed.

(** ** Properties *)

(** An entry written into a page is read back unchanged. For every key of
    at most 65535 bytes, value of at most 2^32-1 bytes, 64-bit expiry and meta
    word, and every destination with room, [encodeEntry] succeeds, writes
    exactly [entryHeaderSize + len(key) + len(value)] bytes, leaves the bytes
    behind them alone, and both [decodeEntry] (with the same framing key,
    nonce and offset) and [decodeEntryFast] return the same key, value, expiry
    and meta word. *)
Theorem entry_roundtrip : forall dst key value e m fk nonce offset,
  entry_ok key value e m -> blen fk = framingKeyLen ->
  entryHeaderSize + blen key + blen value <= blen dst ->
  exists dst', 
    encodeEntry dst key value e m fk nonce offset =
      Ok (dst', entrySpanExact (blen key) (blen value)) /\
    blen dst' = blen dst /\
    drop (Z.to_nat (entrySpanExact (blen key) (blen value))) dst' =
      drop (Z.to_nat (entrySpanExact (blen key) (blen value))) dst /\
    decodeEntry dst' fk nonce offset = Ok (key, value, e, m) /\
    decodeEntryFast dst' = Ok (key, value, e).
Proof.
  intros dst key value e m fk nonce offset Hok Hf Hd.
  pose proof Hok as [Hk Hv _ _]. rewrite encodeEntry_ok by done. eexists.
  split; [done|]. unfold entrySpanExact. split_and!.
  - pose proof (blen_frame key value e m 0). unfold entryHeaderSize in *. len.
  - rewrite drop_app_length'; [done|]. by rewrite <- blen_to_nat, blen_frame.
  - by apply decodeEntry_frame.
  - by apply decodeEntryFast_frame.
Qed.

(** C31. Whatever [decodeEntry] accepts is a genuine frame: its input starts
    with the byte-for-byte encoding of the returned key, value, expiry and
    meta word, carrying the MAC computed under this framing key, nonce and
    offset. No other bytes decode. *)
Theorem decode_accepts_only_frames : forall src fk nonce offset key value e m,
  blen fk = framingKeyLen ->
  decodeEntry src fk nonce offset = Ok (key, value, e, m) ->
  entry_ok key value e m /\
  exists rest, src = frame key value e m
    (mac_of fk nonce offset (header22 key value e m) (key ++ value)) ++ rest.
Proof.
  intros src fk nonce offset key value e m Hf Hd.
  destruct (decide (blen src < entryHeaderSize)) as [Hs|Hs].
  { by rewrite (proj1 (decode_short _ fk nonce offset Hs)) in Hd. }
  destruct (split_raw src) as (kl & vl & e' & m' & mac & r & -> & Hkl & Hvl & He & Hm & Hmac); [lia|].
  rewrite decodeEntry_raw in Hd by done.
  destruct (_ <? vl) eqn:Ev; [done|]. apply Z.ltb_ge in Ev. cbv zeta in Hd.
  destruct (_ =? mac) eqn:Emac; [|done]. apply Z.eqb_eq in Emac. injection Hd as <- <- <- <-.
  unfold fits in Hkl, Hvl.
  set (key := take (Z.to_nat kl) r) in *.
  set (value := take (Z.to_nat vl) (drop (Z.to_nat kl) r)) in *.
  assert (blen key = kl) as Hkey by (unfold key; len).
  assert (blen value = vl) as Hval by (unfold value; len).
  split; [split; unfold maxKeyLen, maxValueLen; try done; lia|].
  exists (drop (Z.to_nat vl) (drop (Z.to_nat kl) r)).
  rewrite frame_app. unfold header22. rewrite Hkey, Hval, Emac. do 2 f_equal.
  unfold key, value. by rewrite !take_drop.
Qed.

(** Decoding never panics: on every byte string, however damaged,
    [decodeEntry] (with a 16-byte framing key) returns an entry or an error,
    and so does [decodeEntryFast]; when [decodeEntry] accepts, the fast path
    returns the same key, value and expiry. *)
Theorem decode_total : forall src fk nonce offset,
  blen fk = framingKeyLen ->
  decodeEntry src fk nonce offset <> Panic /\ decodeEntryFast src <> Panic /\
  (forall key value e m, decodeEntry src fk nonce offset = Ok (key, value, e, m) ->
     decodeEntryFast src = Ok (key, value, e)).
Proof.
  intros src fk nonce offset Hf.
  destruct (decide (blen src < entryHeaderSize)) as [Hs|Hs].
  { by destruct (decode_short _ fk nonce offset Hs) as [-> ->]. }
  destruct (split_raw src) as (kl & vl & e' & m' & mac & r & -> & Hkl & Hvl & He & Hm & Hmac); [lia|].
  rewrite decodeEntry_raw, decodeEntryFast_raw by done. cbv zeta.
  destruct (_ <? vl); [done|]. destruct (_ =? mac); split_and!; try done.
  by intros ? ? ? ? [= -> -> -> ->].
Qed.

(** The errors of the encoder, exactly: an over-long key, an over-long
    value and a destination without room are reported in this order, and
    nothing else fails. *)
Theorem encode_errors : forall dst key value e m fk nonce offset,
  blen fk = framingKeyLen ->
  encodeEntry dst key value e m fk nonce offset =
    if maxKeyLen <? blen key then Err errKeyTooLong
    else if maxValueLen <? blen value then Err errValueTooLong
    else if blen dst <? entryHeaderSize + blen key + blen value then Err errBufferTooSmall
    else Ok (frame key value e m
               (mac_of fk nonce offset (header22 key value e m) (key ++ value))
             ++ drop (Z.to_nat (entryHeaderSize + blen key + blen value)) dst,
             entryHeaderSize + blen key + blen value).
Proof.
  intros dst key value e m fk nonce offset Hf.
  destruct (maxKeyLen <? blen key) eqn:E1;
    [by unfold encodeEntry, encodeEntryHeader; rewrite E1|].
  destruct (maxValueLen <? blen value) eqn:E2;
    [by unfold encodeEntry, encodeEntryHeader; rewrite E1, E2|].
  destruct (blen dst <? _) eqn:E3;
    [by unfold encodeEntry, encodeEntryHeader; rewrite E1, E2, E3|].
  apply Z.ltb_ge in E1, E2, E3. by apply encodeEntry_ok.
Qed.

(** The meta word keeps the write sequence (modulo 2^56, its width) and
    the tombstone flag apart: both are recovered from the packed word. *)
Theorem meta_roundtrip : forall seq t,
  metaSeq (makeMeta seq t) = seq mod 2 ^ 56 /\ metaIsTombstone (makeMeta seq t) = t.
Proof. intros seq t. split; [apply metaSeq_makeMeta|apply metaIsTombstone_makeMeta]. Qed.

(** ** Concrete instances *)

Definition sampleKey : bytes := replicate 16 Byte.x07.
Definition sampleDst : bytes := replicate 40 Byte.xff.
Definition sampleSrc : bytes :=
  match encodeEntry sampleDst [Byte.x61] [Byte.x62; Byte.x63] 5 9 sampleKey 3 0 with
  | Ok (d, _) => d
  | _ => []
  end.

Lemma decode_accepts_only_frames_witness : exists rest,
  sampleSrc = frame [Byte.x61] [Byte.x62; Byte.x63] 5 9
    (mac_of sampleKey 3 0 (header22 [Byte.x61] [Byte.x62; Byte.x63] 5 9) [Byte.x61; Byte.x62; Byte.x63]) ++ rest.
Proof.
  apply (decode_accepts_only_frames sampleSrc sampleKey 3 0 [Byte.x61] [Byte.x62; Byte.x63] 5 9);
    vm_compute; reflexivity.
Defined.


End Entry.
