(* ===== verification/Page.v ===== *)
(** * Pages: fixed-size slabs of framed entries (src/cache/page.go).

    A page is an append-only log of entries between [head] and [tail]; eviction
    pops entries at [head]. The component is proved to be a FIFO queue of
    entries whose contents are read back through their offsets. *)
From S2P Require Import Prelude SipHash Entry.
Import SipHash Entry.

Module Page.

Inductive pageBacking := backingHeap | backingMmap.

#[export] Instance pageBacking_eq_dec : EqDecision pageBacking.
Proof. solve_decision. Defined.

Definition pageHdrSize : Z := 16.

(** The page object. [retiredAt], a wall-clock instant only the online
    compactor reads, is not modelled. *)
Record page := MkPage {
  data : bytes;
  backing : pageBacking;
  heapHead : Z;
  heapTail : Z;
  gen : Z;
  nonce : Z;
  framingKey : bytes;
  retired : bool;
  reuseBarrierFailed : bool;
  relocatedOut : Z;
  preparedTail : Z;
  vers : option (list Z);
}.

Definition newHeapPage (size : Z) : page :=
  MkPage (replicate (Z.to_nat size) Byte.x00) backingHeap 0 0 0 0 [] false false 0 0 None.

Definition newMmapPage (region : bytes) : page :=
  MkPage region backingMmap 0 0 0 0 [] false false 0 0 None.

Definition head (p : page) : Z := heapHead p.
Definition tail (p : page) : Z := heapTail p.

Definition setHead (p : page) (v : Z) : page :=
  MkPage (data p) (backing p) v (heapTail p) (gen p) (nonce p) (framingKey p)
    (retired p) (reuseBarrierFailed p) (relocatedOut p) (preparedTail p) (vers p).

Definition setTail (p : page) (v : Z) : page :=
  MkPage (data p) (backing p) (heapHead p) v (gen p) (nonce p) (framingKey p)
    (retired p) (reuseBarrierFailed p) (relocatedOut p) (preparedTail p) (vers p).

(** Assignment to the backing bytes. *)
Definition setData (p : page) (d : bytes) : page :=
  MkPage d (backing p) (heapHead p) (heapTail p) (gen p) (nonce p) (framingKey p)
    (retired p) (reuseBarrierFailed p) (relocatedOut p) (preparedTail p) (vers p).

Definition setGen (p : page) (g : Z) : page :=
  MkPage (data p) (backing p) (heapHead p) (heapTail p) g (nonce p) (framingKey p)
    (retired p) (reuseBarrierFailed p) (relocatedOut p) (preparedTail p) (vers p).

Definition setNonce (p : page) (n : Z) : page :=
  MkPage (data p) (backing p) (heapHead p) (heapTail p) (gen p) n (framingKey p)
    (retired p) (reuseBarrierFailed p) (relocatedOut p) (preparedTail p) (vers p).

Definition setFramingKey (p : page) (k : bytes) : page :=
  MkPage (data p) (backing p) (heapHead p) (heapTail p) (gen p) (nonce p) k
    (retired p) (reuseBarrierFailed p) (relocatedOut p) (preparedTail p) (vers p).

Definition setReuseBarrierFailed (p : page) (b : bool) : page :=
  MkPage (data p) (backing p) (heapHead p) (heapTail p) (gen p) (nonce p) (framingKey p)
    (retired p) b (relocatedOut p) (preparedTail p) (vers p).

Definition addRelocatedOut (p : page) (n : Z) : page :=
  MkPage (data p) (backing p) (heapHead p) (heapTail p) (gen p) (nonce p) (framingKey p)
    (retired p) (reuseBarrierFailed p) (relocatedOut p + n) (preparedTail p) (vers p).

Definition setVers (p : page) (v : option (list Z)) : page :=
  MkPage (data p) (backing p) (heapHead p) (heapTail p) (gen p) (nonce p) (framingKey p)
    (retired p) (reuseBarrierFailed p) (relocatedOut p) (preparedTail p) v.

Definition isMmap (p : page) : bool :=
  match backing p with backingMmap => true | backingHeap => false end.

(** The bounds stored in the file header of an mmap page. *)
Definition durableBounds (p : page) : outcome cerr (Z * Z) :=
  if negb (isMmap p) then mret (0, 0)
  else
    h ← (b ← slice (data p) 0 4; le_get 4 b);
    t ← (b ← slice (data p) 4 8; le_get 4 b);
    mret (h, t).

Definition projectBounds (p : page) (h t : Z) : outcome cerr page :=
  if negb (isMmap p) then mret p
  else
    d ← store (data p) 0 (le_put 4 h);
    d ← store d 4 (le_put 4 t);
    mret (setData p d).

Definition durableNonce (p : page) : outcome cerr Z :=
  if negb (isMmap p) then mret 0
  else b ← slice (data p) 8 16; le_get 8 b.

Definition projectNonce (p : page) (n : Z) : outcome cerr page :=
  if negb (isMmap p) then mret p
  else d ← store (data p) 8 (le_put 8 n); mret (setData p d).

(** The entry region. *)
Definition entries (p : page) : bytes :=
  if isMmap p then drop (Z.to_nat pageHdrSize) (data p) else data p.

Definition setEntries (p : page) (e : bytes) : page :=
  setData p (if isMmap p then take (Z.to_nat pageHdrSize) (data p) ++ e else e).

Definition FreeTail (p : page) : Z :=
  if tail p <? 0 then 0 else blen (entries p) - tail p.

Definition Empty (p : page) : bool := head p =? tail p.

(** Appends an entry; returns the page, the entry's offset and its size. The
    encoder writes into [entries()[tail:]], in place. *)
Definition Write (p : page) (key value : bytes) (expiryMs meta : Z)
  : outcome cerr (page * Z * Z) :=
  let need := entrySpan (blen key) (blen value) true in
  if FreeTail p <? need then Err errPageFull
  else
    let t := tail p in
    let off := u32 t in
    dst ← slice_from (entries p) t;
    '(dst, n) ← (if isMmap p
                 then encodeEntry dst key value expiryMs meta (framingKey p) (nonce p) off
                 else encodeEntryNoCRC dst key value expiryMs meta);
    ent ← store (entries p) t dst;
    mret (setTail (setEntries p ent) (t + n), off, u32 n).

(** Overwrites the entry at [offset] with one of the same size. *)
Definition WriteAt (p : page) (offset : Z) (key value : bytes) (expiryMs meta : Z)
  : outcome cerr page :=
  if isMmap p then Err errPageNotOverwritable
  else
    let span := entrySpan (blen key) (blen value) true in
    let exact := entrySpanExact (blen key) (blen value) in
    if (offset <? head p) || (tail p <? offset + span) then Err errEntryTruncated
    else
      dst ← slice (entries p) offset (offset + exact);
      '(dst, _) ← encodeEntryNoCRC dst key value expiryMs meta;
      ent ← store (entries p) offset dst;
      mret (setEntries p ent).

Definition Read (p : page) (offset : Z) : outcome cerr (bytes * bytes * Z) :=
  if blen (entries p) <=? offset then Err errEntryTruncated
  else src ← slice_from (entries p) offset; decodeEntryFast src.

(** The meta word at [offset], or [None]. *)
Definition MetaAt (p : page) (offset : Z) : outcome cerr (option Z) :=
  if blen (entries p) <? offset + entryHeaderSize then mret None
  else src ← slice_from (entries p) offset; m ← entryMetaAt src; mret (Some m).

(** Removes the oldest entry; returns the page, the entry's key and size. *)
Definition EvictFront (p : page) : outcome cerr (page * bytes * Z) :=
  if Empty p then Err errEntryTruncated
  else
    let h := head p in
    let t := tail p in
    let ent := entries p in
    if blen ent <? h + entryHeaderSize then Err errEntryTruncated
    else
      keyLen ← (b ← slice ent h (h + 2); le_get 2 b);
      valLen ← (b ← slice ent (h + 2) (h + 6); le_get 4 b);
      if valLen <? 0 then Err errEntryTruncated
      else
        let keyStart := h + entryHeaderSize in
        let keyEnd := keyStart + keyLen in
        if (t <? keyEnd) || (t - keyEnd <? valLen) then Err errEntryTruncated
        else
          let newHead := keyEnd + valLen in
          let size := u32 (entryHeaderSize + keyLen + valLen) in
          out ← slice ent keyStart keyEnd;
          if newHead =? t then mret (setTail (setHead p 0) 0, out, size)
          else mret (setHead p newHead, out, size).

Definition Reset (p : page) : page :=
  MkPage (data p) (backing p) 0 0 (gen p) (nonce p) (framingKey p)
    (retired p) (reuseBarrierFailed p) 0 0 (vers p).

(** ** What a page holds *)

(** A stored entry. *)
Record erec := ERec { ekey : bytes; evalue : bytes; eexp : Z; emeta : Z }.

Definition span (r : erec) : Z := entrySpanExact (blen (ekey r)) (blen (evalue r)).
Definition rec_ok (r : erec) : Prop := entry_ok (ekey r) (evalue r) (eexp r) (emeta r).

(** The bytes of [p] at [off] are the frame of [r]; on an mmap page its MAC
    binds the framing key, the page nonce and the offset. *)
Definition framed (p : page) (off : Z) (r : erec) : Prop :=
  rec_ok r /\ 0 <= off /\ exists mac,
    take (Z.to_nat (span r)) (drop (Z.to_nat off) (entries p)) =
      frame (ekey r) (evalue r) (eexp r) (emeta r) mac /\
    (isMmap p = true ->
       mac = mac_of (framingKey p) (nonce p) off
               (header22 (ekey r) (evalue r) (eexp r) (emeta r)) (ekey r ++ evalue r)).

(** [es] are the entries that tile the bytes between [lo] and [hi]. *)
Fixpoint tiled (p : page) (lo hi : Z) (es : list erec) : Prop :=
  match es with
  | [] => lo = hi
  | r :: es => framed p lo r /\ tiled p (lo + span r) hi es
  end.

(** The layout invariant of the source: [0 <= head <= tail <= len(entries)],
    a page of less than 4 GiB, and, on an mmap page, room for the header and a
    16-byte framing key. *)
Record page_wf (p : page) : Prop := {
  wf_bounds : 0 <= head p /\ head p <= tail p /\ tail p <= blen (entries p);
  wf_size : blen (entries p) < 2 ^ 32;
  wf_mmap : isMmap p = true -> pageHdrSize <= blen (data p) /\ blen (framingKey p) = framingKeyLen;
}.

(** The page is a well-formed queue of the entries [es]. *)
Definition queue (p : page) (es : list erec) : Prop :=
  page_wf p /\ tiled p (head p) (tail p) es.

Lemma span_pos r : entryHeaderSize <= span r.
Proof. unfold span, entrySpanExact. pose proof (blen_nonneg (ekey r)). pose proof (blen_nonneg (evalue r)). lia. Qed.

Lemma framed_drop p off r :
  framed p off r -> exists mac rest,
    drop (Z.to_nat off) (entries p) = frame (ekey r) (evalue r) (eexp r) (emeta r) mac ++ rest /\
    (isMmap p = true ->
       mac = mac_of (framingKey p) (nonce p) off
               (header22 (ekey r) (evalue r) (eexp r) (emeta r)) (ekey r ++ evalue r)).
Proof.
  intros (_ & _ & mac & Ht & Hm). exists mac, (drop (Z.to_nat (span r)) (drop (Z.to_nat off) (entries p))).
  rewrite <- Ht, take_drop. auto.
Qed.

Lemma framed_bound p off r : framed p off r -> off + span r <= blen (entries p).
Proof.
  intros (Hok & Hoff & mac & Ht & _). apply (f_equal blen) in Ht. rewrite blen_frame in Ht.
  pose proof (span_pos r). unfold span, entrySpanExact, entryHeaderSize in *. len.
Qed.

(** Framing only depends on the bytes of the entry. *)
Lemma framed_ext p q off r :
  isMmap q = isMmap p -> framingKey q = framingKey p -> nonce q = nonce p ->
  take (Z.to_nat (span r)) (drop (Z.to_nat off) (entries q)) =
    take (Z.to_nat (span r)) (drop (Z.to_nat off) (entries p)) ->
  framed p off r -> framed q off r.
Proof.
  intros Hi Hf Hn He (Hok & Hoff & mac & Ht & Hm). split; [done|]. split; [done|].
  exists mac. rewrite He, Hi, Hf, Hn. auto.
Qed.

Lemma tiled_mono p q lo hi es :
  (forall off r, off + span r <= hi -> framed p off r -> framed q off r) ->
  tiled p lo hi es -> tiled q lo hi es.
Proof.
  intros Hext. revert lo. induction es as [|r es IH]; simpl; [done|].
  intros lo [Hf Ht]. split; [|auto]. apply Hext; [|done].
  clear -Ht. revert Ht. generalize (lo + span r) as a. induction es as [|r' es IH]; simpl.
  - intros a ->. lia.
  - intros a [_ Ht]. specialize (IH _ Ht). pose proof (span_pos r'). unfold entryHeaderSize in *. lia.
Qed.

Lemma tiled_snoc p lo hi es r :
  tiled p lo hi es -> framed p hi r -> tiled p lo (hi + span r) (es ++ [r]).
Proof.
  revert lo. induction es as [|r' es IH]; simpl.
  - by intros lo ->.
  - intros lo [Hf Ht] Hr. auto.
Qed.

Lemma tiled_le p lo hi es : tiled p lo hi es -> lo <= hi.
Proof.
  revert lo. induction es as [|r es IH]; simpl; intros lo; [lia|].
  intros [_ Ht]. apply IH in Ht. pose proof (span_pos r). unfold entryHeaderSize in *. lia.
Qed.

(** ** Reading *)

Lemma slice_from_in {E} (b : bytes) lo :
  0 <= lo <= blen b -> slice_from (E:=E) b lo = Ok (drop (Z.to_nat lo) b).
Proof.
  intros H. unfold slice_from. rewrite slice_in by lia. f_equal.
  apply take_ge. rewrite length_drop. len.
Qed.

Lemma Read_framed p off r :
  framed p off r -> Read p off = Ok (ekey r, evalue r, eexp r).
Proof.
  intros Hf. pose proof (framed_bound _ _ _ Hf) as Hb. pose proof (span_pos r) as Hs.
  unfold entryHeaderSize in Hs. pose proof Hf as (Hok & Hoff & _).
  destruct (framed_drop _ _ _ Hf) as (mac & rest & Hd & _).
  unfold Read. rewrite (proj2 (Z.leb_gt _ off)) by lia.
  rewrite slice_from_in by lia. cbn [mbind outcome_bind]. rewrite Hd.
  by apply decodeEntryFast_frame.
Qed.

Lemma entryMetaAt_frame k v e m mac rest :
  fits 64 m -> entryMetaAt (frame k v e m mac ++ rest) = Ok m.
Proof.
  intros Hm. unfold entryMetaAt. rewrite frame_app.
  rewrite (proj2 (Z.ltb_ge _ entryHeaderSize)) by (autorewrite with blen; rewrite blen_rawhdr; unfold entryHeaderSize; len).
  unfold entryMetaOff, entryMACOff, rawhdr. rewrite <- !app_assoc. step_slice.
  rewrite le_get_put. by rewrite wrap_fits.
Qed.

Lemma MetaAt_framed p off r : framed p off r -> MetaAt p off = Ok (Some (emeta r)).
Proof.
  intros Hf. pose proof (framed_bound _ _ _ Hf) as Hb. pose proof (span_pos r) as Hs.
  pose proof Hf as (Hok & Hoff & _).
  destruct (framed_drop _ _ _ Hf) as (mac & rest & Hd & _).
  unfold MetaAt. rewrite (proj2 (Z.ltb_ge _ (off + _))) by lia.
  unfold entryHeaderSize in Hs.
  rewrite slice_from_in by lia. cbn [mbind outcome_bind]. rewrite Hd.
  rewrite entryMetaAt_frame by apply Hok. done.
Qed.

Lemma decodeEntry_framed p off r hi :
  framed p off r -> isMmap p = true -> blen (framingKey p) = framingKeyLen ->
  off + span r <= hi <= blen (entries p) ->
  (src ← slice (entries p) off hi; decodeEntry src (framingKey p) (nonce p) off) =
    Ok (ekey r, evalue r, eexp r, emeta r).
Proof.
  intros Hf Hi Hk Hhi. pose proof (span_pos r) as Hs. unfold entryHeaderSize in Hs.
  pose proof Hf as (Hok & Hoff & mac & Ht & Hm).
  rewrite slice_in by lia. cbn [mbind outcome_bind].
  assert (take (Z.to_nat (hi - off)) (drop (Z.to_nat off) (entries p)) =
          frame (ekey r) (evalue r) (eexp r) (emeta r) mac ++
          take (Z.to_nat (hi - off) - Z.to_nat (span r)) (drop (Z.to_nat (span r)) (drop (Z.to_nat off) (entries p)))) as ->.
  { rewrite <- Ht, take_take_drop. f_equal. lia. }
  rewrite (Hm Hi). by apply decodeEntry_frame.
Qed.

(** ** Appending *)

Lemma blen_entries_setEntries p e :
  (isMmap p = true -> pageHdrSize <= blen (data p)) -> entries (setEntries p e) = e.
Proof.
  intros Hm. unfold entries, setEntries. unfold isMmap in *. simpl.
  destruct (backing p); [done|]. specialize (Hm eq_refl). unfold pageHdrSize in *.
  rewrite drop_app_length'; [done|]. len.
Qed.

Lemma FreeTail_wf p : page_wf p -> FreeTail p = blen (entries p) - tail p.
Proof.
  intros [? ? ?]. unfold FreeTail. by rewrite (proj2 (Z.ltb_ge (tail p) 0)) by lia.
Qed.

(** What [Write] does to the bytes: the frame of the entry replaces those at
    the tail. *)
Lemma Write_ok p k v e m :
  page_wf p -> entry_ok k v e m ->
  entrySpanExact (blen k) (blen v) <= FreeTail p ->
  exists mac,
    let r := ERec k v e m in
    let ent := take (Z.to_nat (tail p)) (entries p) ++ frame k v e m mac ++
               drop (Z.to_nat (tail p + span r)) (entries p) in
    Write p k v e m =
      Ok (setTail (setEntries p ent) (tail p + span r), tail p, span r) /\
    (isMmap p = true ->
       mac = mac_of (framingKey p) (nonce p) (tail p) (header22 k v e m) (k ++ v)).
Proof.
  intros Hwf [Hk Hv He Hm] Hfree. pose proof (FreeTail_wf p Hwf) as HF.
  destruct Hwf as [Hb Hsz Hmm]. unfold Write, entrySpan, classOf.
  rewrite (proj2 (Z.ltb_ge (FreeTail p) _)) by done.
  rewrite slice_from_in by lia. cbn [mbind outcome_bind].
  assert (Hu : u32 (tail p) = tail p) by (apply wrap_fits; unfold fits; lia).
  set (ent := entries p) in *. set (t := tail p) in *. rewrite HF in Hfree.
  unfold span. cbn [ekey evalue]. unfold entrySpanExact in *.
  set (n := entryHeaderSize + blen k + blen v) in *.
  assert (Hn : 0 < n) by (unfold n, entryHeaderSize; len).
  assert (Hun : u32 n = n) by (apply wrap_fits; unfold fits; lia).
  assert (Hst : forall X, blen X = n ->
    store (E:=cerr) ent t (X ++ drop (Z.to_nat n) (drop (Z.to_nat t) ent)) =
      Ok (take (Z.to_nat t) ent ++ X ++ drop (Z.to_nat (t + n)) ent)).
  { intros X HX. unfold store.
    rewrite (proj2 (Z.leb_le 0 t)), (proj2 (Z.leb_le (t + _) _)) by len.
    cbn [andb]. f_equal. f_equal. rewrite <- !app_assoc. f_equal.
    rewrite (drop_ge ent (Z.to_nat t + _)) by len.
    rewrite app_nil_r, drop_drop. f_equal. len. }
  destruct (isMmap p) eqn:Ei.
  - destruct (Hmm eq_refl) as [_ Hfk].
    rewrite encodeEntry_ok by (try done; fold n; unfold ent in *; len).
    cbn [mbind outcome_bind]. fold n. rewrite Hu.
    rewrite Hst by apply blen_frame. cbn [mbind outcome_bind].
    eexists. cbv zeta. rewrite Hun. split; [done|]. by intros _.
  - unfold encodeEntryNoCRC.
    destruct (encodeEntryHeader_ok (drop (Z.to_nat t) ent) k v e m)
      as (mac0 & rest & Hm0 & _ & -> & Henc); try done; [fold n; len|].
    rewrite Henc. cbn [mbind outcome_bind]. fold n.
    exists (le_combine mac0). cbv zeta.
    assert (frame k v e m (le_combine mac0) = header22 k v e m ++ mac0 ++ k ++ v) as Hfr.
    { unfold frame. by rewrite le_put_combine. }
    assert (header22 k v e m ++ mac0 ++ k ++ v ++ drop (Z.to_nat n) (drop (Z.to_nat t) ent) =
            frame k v e m (le_combine mac0) ++ drop (Z.to_nat n) (drop (Z.to_nat t) ent)) as ->.
    { rewrite Hfr. by rewrite <- !app_assoc. }
    rewrite Hst by apply blen_frame. cbn [mbind outcome_bind]. rewrite Hu, Hun.
    split; [done|]. done.
Qed.

Lemma region_before (e X : bytes) (t off s : nat) :
  (off + s <= t)%nat -> (t <= length e)%nat ->
  take s (drop off (take t e ++ X)) = take s (drop off e).
Proof.
  intros H1 H2. rewrite drop_app_le by (rewrite length_take; lia).
  rewrite take_app_le by (rewrite length_drop, length_take; lia).
  rewrite skipn_firstn_comm, take_take. f_equal. lia.
Qed.

Lemma region_after (e X : bytes) (t off s n : nat) :
  length X = n -> (t + n <= off)%nat -> (t <= length e)%nat ->
  take s (drop off (take t e ++ X ++ drop (t + n) e)) = take s (drop off e).
Proof.
  intros HX H1 H2. rewrite drop_app_ge by (rewrite length_take; lia).
  rewrite drop_app_ge by (rewrite length_take; lia).
  rewrite drop_drop. do 2 f_equal. rewrite length_take. lia.
Qed.

Lemma region_at (e X : bytes) (t n : nat) rest :
  length X = n -> (t <= length e)%nat ->
  take n (drop t (take t e ++ X ++ rest)) = X.
Proof.
  intros HX H2. rewrite drop_app_length' by (rewrite length_take; lia).
  by rewrite take_app_length'.
Qed.

Lemma Write_frames p k v e m p' off n :
  page_wf p -> entry_ok k v e m -> Write p k v e m = Ok (p', off, n) ->
  let r := ERec k v e m in
  off = tail p /\ n = span r /\ page_wf p' /\ head p' = head p /\ tail p' = tail p + span r /\
  gen p' = gen p /\ isMmap p' = isMmap p /\ blen (entries p') = blen (entries p) /\
  framed p' (tail p) r /\
  (forall o r', o + span r' <= tail p -> framed p o r' -> framed p' o r').
Proof.
  intros Hwf Hok HW.
  assert (Hfree : entrySpanExact (blen k) (blen v) <= FreeTail p).
  { unfold Write, entrySpan, classOf in HW.
    destruct (FreeTail p <? _) eqn:E1; [done|]. by apply Z.ltb_ge in E1. }
  destruct (Write_ok p k v e m Hwf Hok Hfree) as (mac & Hw & Hmac). cbv zeta in Hw.
  rewrite HW in Hw. apply Ok_inj, pair_eq in Hw as [[-> ->]%pair_eq ->]. cbv zeta. clear HW.
  rewrite (FreeTail_wf p Hwf) in Hfree. pose proof Hwf as [Hb Hsz Hmm].
  set (r := ERec k v e m) in *. pose proof (span_pos r) as Hs. unfold entryHeaderSize in Hs.
  set (ent := take (Z.to_nat (tail p)) (entries p) ++ frame k v e m mac ++
              drop (Z.to_nat (tail p + span r)) (entries p)) in *.
  assert (He : entries (setTail (setEntries p ent) (tail p + span r)) = ent).
  { change (entries (setEntries p ent) = ent). apply blen_entries_setEntries. intros H. by apply Hmm. }
  assert (Hfl : blen (frame k v e m mac) = span r) by apply blen_frame.
  fold (span r) in Hfree. change (entrySpanExact (blen k) (blen v)) with (span r) in Hfree.
  assert (Hlen : blen ent = blen (entries p)) by (unfold ent; len).
  split_and!; try done.
  - split; rewrite ?He, ?Hlen;
      [change (0 <= head p /\ head p <= tail p + span r /\ tail p + span r <= blen (entries p)); lia|done|].
    intros H. destruct (Hmm H) as [H1 H2]. split; [|done].
    unfold setEntries, isMmap in *. simpl in *. destruct (backing p); [done|].
    unfold pageHdrSize in *. len.
  - by rewrite He.
  - split; [done|]. split; [lia|]. exists mac. rewrite He. split; [|done].
    unfold ent. apply (region_at _ (frame k v e m mac)); len.
  - intros o r' Ho Hf. apply (framed_ext p); [done|done|done| |exact Hf]. rewrite He. unfold ent.
    pose proof (span_pos r') as Hs'. unfold entryHeaderSize in Hs'.
    destruct Hf as (_ & Hoff & _). apply region_before; len.
Qed.

Lemma Write_queue p es k v e m p' off n :
  queue p es -> entry_ok k v e m -> Write p k v e m = Ok (p', off, n) ->
  queue p' (es ++ [ERec k v e m]).
Proof.
  intros [Hwf Ht] Hok HW.
  destruct (Write_frames _ _ _ _ _ _ _ _ Hwf Hok HW)
    as (_ & _ & Hwf' & Hh & Htl & _ & _ & _ & Hr & Hold). split; [done|].
  rewrite Hh, Htl. apply tiled_snoc; [|done]. by apply (tiled_mono p).
Qed.

(** ** Evicting *)

Lemma EvictFront_ok p r es :
  queue p (r :: es) ->
  EvictFront p =
    Ok (if head p + span r =? tail p then setTail (setHead p 0) 0
        else setHead p (head p + span r), ekey r, span r).
Proof.
  intros [[Hb Hsz Hmm] [Hf Ht]]. pose proof (tiled_le _ _ _ _ Ht) as Hle.
  pose proof (framed_bound _ _ _ Hf) as Hbd. pose proof (span_pos r) as Hs.
  destruct (framed_drop _ _ _ Hf) as (mac & rest & Hd & _).
  pose proof Hf as ([Hk Hv _ _] & _). unfold maxKeyLen, maxValueLen in *.
  assert (Hent : entries p = take (Z.to_nat (head p)) (entries p) ++
            (le_put 2 (blen (ekey r)) ++ le_put 4 (blen (evalue r)) ++
             (le_put 8 (eexp r) ++ le_put 8 (emeta r) ++ le_put 8 mac) ++ ekey r ++ evalue r ++ rest)).
  { rewrite <- (take_drop (Z.to_nat (head p)) (entries p)) at 1. f_equal. rewrite Hd.
    rewrite frame_app. unfold rawhdr. by rewrite <- !app_assoc. }
  assert (Hpre : blen (take (Z.to_nat (head p)) (entries p)) = head p) by len.
  set (pre := take (Z.to_nat (head p)) (entries p)) in *. clearbody pre.
  unfold EvictFront. unfold Empty.
  assert (Hsp : span r = 30 + blen (ekey r) + blen (evalue r)) by reflexivity.
  unfold entryHeaderSize in *.
  rewrite (proj2 (Z.eqb_neq (head p) (tail p))) by lia.
  rewrite (proj2 (Z.ltb_ge _ (head p + _))) by lia. rewrite Hent.
  assert (E1 : slice (E:=cerr) (pre ++ le_put 2 (blen (ekey r)) ++ le_put 4 (blen (evalue r)) ++
            (le_put 8 (eexp r) ++ le_put 8 (emeta r) ++ le_put 8 mac) ++ ekey r ++ evalue r ++ rest)
            (head p) (head p + 2) = Ok (le_put 2 (blen (ekey r)))) by solve_slice.
  rewrite E1. clear E1. cbn [mbind outcome_bind]. rewrite le_get_put. cbn [mbind outcome_bind].
  match goal with |- context [slice ?s (head p + 2) (head p + 6)] =>
    assert (E2 : slice (E:=cerr) s (head p + 2) (head p + 6) = Ok (le_put 4 (blen (evalue r)))) by solve_slice end.
  rewrite E2. clear E2. cbn [mbind outcome_bind]. rewrite le_get_put. cbn [mbind outcome_bind].
  rewrite !wrap_fits by (unfold fits; len).
  rewrite (proj2 (Z.ltb_ge (blen (evalue r)) 0)) by len.
  pose proof (blen_nonneg (evalue r)). pose proof (blen_nonneg (ekey r)).
  rewrite (proj2 (Z.ltb_ge (tail p) _)) by lia.
  rewrite (proj2 (Z.ltb_ge (tail p - _) _)) by lia. cbn [orb].
  match goal with |- context [slice ?s ?a ?b] =>
    assert (E3 : slice (E:=cerr) s a b = Ok (ekey r)) by solve_slice end.
  rewrite E3. clear E3. cbn [mbind outcome_bind].
  replace (head p + (2 + 4 + 8 + 8 + 8) + blen (ekey r) + blen (evalue r)) with (head p + span r) by lia.
  replace (2 + 4 + 8 + 8 + 8 + blen (ekey r) + blen (evalue r)) with (span r) by lia.
  by destruct (_ =? tail p).
Qed.

Lemma queue_bounds p q es h t :
  queue p es -> data q = data p -> backing q = backing p -> framingKey q = framingKey p ->
  nonce q = nonce p -> head q = h -> tail q = t -> 0 <= h <= t -> t <= tail p ->
  forall es', tiled p h t es' -> queue q es'.
Proof.
  intros [[Hb Hsz Hmm] _] Hd Hbk Hfk Hn Hh Ht Hle Htl es' Hti.
  assert (He : entries q = entries p) by (unfold entries, isMmap; by rewrite Hd, Hbk).
  assert (Hi : isMmap q = isMmap p) by (unfold isMmap; by rewrite Hbk).
  split.
  - split; rewrite ?He, ?Hh, ?Ht; try lia. rewrite Hi, Hd, Hfk. done.
  - rewrite Hh, Ht. apply (tiled_mono p); [|done].
    intros off r _ Hf. eapply framed_ext; eauto. by rewrite He.
Qed.

Lemma EvictFront_queue p r es p' k n :
  queue p (r :: es) -> EvictFront p = Ok (p', k, n) ->
  k = ekey r /\ n = span r /\ queue p' es.
Proof.
  intros Hq HE. rewrite (EvictFront_ok _ _ _ Hq) in HE. injection HE as <- <- <-.
  split; [done|]. split; [done|]. pose proof Hq as [[Hb Hsz Hmm] [Hf Ht]].
  pose proof (tiled_le _ _ _ _ Ht) as Hle. pose proof (span_pos r) as Hs. unfold entryHeaderSize in Hs.
  destruct (head p + span r =? tail p) eqn:E1.
  - apply Z.eqb_eq in E1. rewrite E1 in Ht. destruct es as [|r' es].
    + eapply (queue_bounds p _ _ 0 0 Hq); try done; simpl; try lia.
    + destruct Ht as [_ Ht]. apply tiled_le in Ht. pose proof (span_pos r').
      unfold entryHeaderSize in *. lia.
  - eapply (queue_bounds p _ _ (head p + span r) (tail p) Hq); try done; simpl; lia.
Qed.

(** ** Overwriting in place *)

(** Offset of the entry behind [es]. *)
Definition spans (es : list erec) : Z := foldr (fun r a => span r + a) 0 es.

Lemma tiled_app p lo hi a b :
  tiled p lo hi (a ++ b) <-> tiled p lo (lo + spans a) a /\ tiled p (lo + spans a) hi b.
Proof.
  revert lo. induction a as [|r a IH]; simpl; intros lo.
  - rewrite Z.add_0_r. tauto.
  - rewrite IH, <- Z.add_assoc. tauto.
Qed.

Lemma tiled_mono_ge p q lo hi es :
  (forall off r, lo <= off -> framed p off r -> framed q off r) ->
  tiled p lo hi es -> tiled q lo hi es.
Proof.
  revert lo. induction es as [|r es IH]; simpl; intros lo Hext; [done|].
  intros [Hf Ht]. split; [apply Hext; [lia|done]|]. apply IH; [|done].
  intros off r' Hoff. apply Hext. pose proof (span_pos r). unfold entryHeaderSize in *. lia.
Qed.

Lemma queue_at p es1 r es2 :
  queue p (es1 ++ r :: es2) -> framed p (head p + spans es1) r /\
  head p <= head p + spans es1 /\ head p + spans es1 + span r <= tail p.
Proof.
  intros [_ Ht]. apply tiled_app in Ht as [H1 [H2 H3]].
  apply tiled_le in H1, H3. auto.
Qed.

Lemma WriteAt_ok p es1 r es2 v e m :
  queue p (es1 ++ r :: es2) -> isMmap p = false -> blen v = blen (evalue r) ->
  fits 64 e -> fits 64 m ->
  let r' := ERec (ekey r) v e m in
  exists p', WriteAt p (head p + spans es1) (ekey r) v e m = Ok p' /\
    queue p' (es1 ++ r' :: es2) /\ head p' = head p /\ tail p' = tail p /\ gen p' = gen p.
Proof.
  intros Hq Hi Hv He Hm r'. destruct (queue_at _ _ _ _ Hq) as (Hf & Hlo & Hhi).
  pose proof Hq as [[Hb Hsz Hmm] Ht]. set (off := head p + spans es1) in *.
  pose proof Hf as ([Hk Hvl _ _] & Hoff & _).
  assert (Hspan : entrySpanExact (blen (ekey r)) (blen v) = span r) by (unfold span; by rewrite Hv).
  pose proof (span_pos r) as Hs. unfold entryHeaderSize in Hs.
  unfold WriteAt. rewrite Hi. unfold entrySpan, classOf. rewrite Hspan.
  rewrite (proj2 (Z.ltb_ge off _)), (proj2 (Z.ltb_ge (tail p) _)) by lia. cbn [orb].
  rewrite slice_in by lia. cbn [mbind outcome_bind].
  set (dst := take _ (drop _ (entries p))).
  assert (Hd : blen dst = span r) by (unfold dst; len).
  destruct (encodeEntryHeader_ok dst (ekey r) v e m) as (mac0 & rest & Hm0 & Hr & _ & Henc);
    [done|by rewrite Hv|unfold entrySpanExact in Hspan; lia|].
  unfold encodeEntryNoCRC. rewrite Henc. cbn [mbind outcome_bind]. unfold entrySpanExact in Hspan.
  rewrite Hspan, Hd in Hr. assert (rest = []) as -> by (destruct rest; [done|len]).
  rewrite !app_nil_r.
  assert (header22 (ekey r) v e m ++ mac0 ++ ekey r ++ v = frame (ekey r) v e m (le_combine mac0)) as ->.
  { unfold frame. by rewrite le_put_combine. }
  assert (Hfl : blen (frame (ekey r) v e m (le_combine mac0)) = span r).
  { by rewrite blen_frame, Hspan. }
  set (fr := frame _ _ _ _ _) in *.
  unfold store. rewrite (proj2 (Z.leb_le 0 off)), (proj2 (Z.leb_le (off + _) _)) by lia.
  cbn [andb mbind outcome_bind].
  set (ent := take (Z.to_nat off) (entries p) ++ fr ++ drop (Z.to_nat off + length fr) (entries p)).
  assert (He' : entries (setEntries p ent) = ent).
  { apply blen_entries_setEntries. by rewrite Hi. }
  assert (Hlen : blen ent = blen (entries p)) by (unfold ent; len).
  assert (Hfn : length fr = Z.to_nat (span r)) by len.
  eexists. split; [done|]. split; [|done]. split.
  { split; rewrite ?He', ?Hlen; try done. change (isMmap (setEntries p ent)) with (isMmap p).
    by rewrite Hi. }
  change (head (setEntries p ent)) with (head p). change (tail (setEntries p ent)) with (tail p).
  apply tiled_app in Ht as [Ht1 [_ Ht2]]. apply tiled_app. fold off in Ht1, Ht2 |- *. split.
  - apply (tiled_mono p); [|done]. intros o r1 Ho Hf1. apply (framed_ext p); [done..| |done].
    rewrite He'. unfold ent. pose proof (span_pos r1). unfold entryHeaderSize in *.
    destruct Hf1 as (_ & ? & _). apply region_before; len.
  - split.
    + split; [split; try done; cbn; by rewrite Hv|]. split; [lia|]. exists (le_combine mac0).
      rewrite He'. change (isMmap (setEntries p ent)) with (isMmap p). rewrite Hi. split; [|done].
      change (span r') with (entryHeaderSize + blen (ekey r) + blen v). rewrite Hspan.
      unfold ent. apply (region_at _ fr); len.
    + change (span r') with (entryHeaderSize + blen (ekey r) + blen v). rewrite Hspan.
      apply (tiled_mono_ge p); [|done]. intros o r1 Ho Hf1. apply (framed_ext p); [done..| |done].
      rewrite He'. unfold ent. apply (region_after _ fr); len.
Qed.

Lemma newHeapPage_queue size :
  0 <= size < 2 ^ 32 -> queue (newHeapPage size) [].
Proof.
  intros Hs. split; [|done]. split; simpl; [|unfold entries; simpl; len|done].
  unfold head, tail, entries. simpl. len.
Qed.

(** ** Properties *)

(** C27. A page is a FIFO queue of entries. On a page holding exactly the
    entries [es], [Write] either appends the new entry at the tail (its offset
    is the old tail, and reading that offset returns it) or reports
    [errPageFull] because the framed entry does not fit; [EvictFront] removes
    the oldest entry and returns its key and size, or fails on an empty
    page; and every entry the page held before a [Write] still reads back. *)
Theorem page_is_fifo : forall p es,
  queue p es ->
  (forall k v e m, entry_ok k v e m ->
     (FreeTail p < entrySpanExact (blen k) (blen v) /\ Write p k v e m = Err errPageFull) \/
     (exists p', Write p k v e m = Ok (p', tail p, entrySpanExact (blen k) (blen v)) /\
        queue p' (es ++ [ERec k v e m]) /\ Read p' (tail p) = Ok (k, v, e) /\
        MetaAt p' (tail p) = Ok (Some m) /\
        (forall off r, off + span r <= tail p -> framed p off r ->
           Read p' off = Ok (ekey r, evalue r, eexp r)))) /\
  match es with
  | [] => EvictFront p = Err errEntryTruncated
  | r :: es' => exists p', EvictFront p = Ok (p', ekey r, span r) /\ queue p' es'
  end.
Proof.
  intros p es Hq. split.
  - intros k v e m Hok. pose proof Hq as [Hwf _].
    destruct (decide (FreeTail p < entrySpanExact (blen k) (blen v))) as [Hlt|Hge].
    + left. split; [done|]. unfold Write, entrySpan, classOf.
      by rewrite (proj2 (Z.ltb_lt _ _) Hlt).
    + right. destruct (Write_ok p k v e m Hwf Hok) as (mac & HW & _); [lia|]. cbv zeta in HW.
      destruct (Write_frames _ _ _ _ _ _ _ _ Hwf Hok HW)
        as (_ & _ & _ & _ & _ & _ & _ & _ & Hr & Hold).
      eexists. split; [exact HW|]. split; [by eapply Write_queue|].
      split; [exact (Read_framed _ _ _ Hr)|]. split; [exact (MetaAt_framed _ _ _ Hr)|].
      intros off r Ho Hf. apply Read_framed. auto.
  - destruct es as [|r es].
    + destruct Hq as [_ Ht]. unfold EvictFront, Empty. by rewrite (proj2 (Z.eqb_eq _ _) Ht).
    + rewrite (EvictFront_ok _ _ _ Hq). eexists. split; [done|].
      by eapply (EvictFront_queue p r es); [|apply (EvictFront_ok _ _ es)].
Qed.

(** The same-size in-place update of a heap page replaces one entry and
    nothing else: the page's bounds and generation are unchanged, the entry at
    the given offset becomes the new one under the same key, and the entries
    before and behind it are the ones that were there. *)
Theorem page_overwrite_in_place : forall p es1 r es2 v e m,
  queue p (es1 ++ r :: es2) -> isMmap p = false -> blen v = blen (evalue r) ->
  fits 64 e -> fits 64 m ->
  exists p', WriteAt p (head p + spans es1) (ekey r) v e m = Ok p' /\
    queue p' (es1 ++ ERec (ekey r) v e m :: es2) /\
    head p' = head p /\ tail p' = tail p /\ gen p' = gen p /\
    Read p' (head p + spans es1) = Ok (ekey r, v, e).
Proof.
  intros p es1 r es2 v e m Hq Hi Hv He Hm.
  destruct (WriteAt_ok p es1 r es2 v e m Hq Hi Hv He Hm) as (p' & Hw & Hq' & Hh & Ht & Hg).
  exists p'. split_and!; try done. rewrite <- Hh.
  destruct (queue_at _ _ _ _ Hq') as [Hf _]. exact (Read_framed _ _ _ Hf).
Qed.

Lemma drop_header (a b c r : bytes) :
  blen a = 4 -> blen b = 4 -> blen c = 8 -> drop (Z.to_nat pageHdrSize) (a ++ b ++ c ++ r) = r.
Proof. intros Ha Hb Hc. rewrite !app_assoc. apply drop_app_length'. unfold pageHdrSize. len. Qed.

(** The file header of an mmap page stores the bounds and the nonce: what
    [projectBounds] and [projectNonce] write, [durableBounds] and
    [durableNonce] read back, without touching the entry region or each
    other's field. *)
Theorem page_header_roundtrip : forall p h t n,
  isMmap p = true -> pageHdrSize <= blen (data p) ->
  fits 32 h -> fits 32 t -> fits 64 n ->
  exists p1 p2, projectBounds p h t = Ok p1 /\ projectNonce p1 n = Ok p2 /\
    durableBounds p2 = Ok (h, t) /\ durableNonce p2 = Ok n /\ entries p2 = entries p /\
    durableNonce p1 = durableNonce p.
Proof.
  intros p h t n Hi Hlen Hh Ht Hn. unfold pageHdrSize in *.
  destruct p as [d b hh ht g no fk re rb ro pt vs]. destruct b; [done|]. cbn [data] in Hlen.
  destruct (cut 4 d) as (d0 & r0 & -> & H0); [len|].
  destruct (cut 4 r0) as (d1 & r1 & -> & H1); [len|].
  destruct (cut 8 r1) as (d2 & r2 & -> & H2); [len|].
  unfold projectBounds, projectNonce, durableBounds, durableNonce, isMmap. cbn [backing negb data].
  do 2 step_store. unfold setData, entries, isMmap.
  eexists _, _. split; [reflexivity|]. cbn [backing negb data].
  do 1 step_store. split; [reflexivity|]. cbn [backing negb data].
  split; [do 2 (step_slice; rewrite le_get_put; cbn [mbind outcome_bind]); by rewrite !wrap_fits|].
  split; [step_slice; rewrite le_get_put; by rewrite wrap_fits|].
  split; [|do 2 step_slice; done].
  by rewrite !drop_header by len.
Qed.

(** ** Concrete instances *)

(** A heap page of 100 bytes holding one entry. *)
Definition samplePage : page :=
  match Write (newHeapPage 100) [Byte.x61] [Byte.x62] 0 1 with
  | Ok (p, _, _) => p
  | _ => newHeapPage 100
  end.

Lemma samplePage_queue : queue samplePage [ERec [Byte.x61] [Byte.x62] 0 1].
Proof.
  apply (Write_queue (newHeapPage 100) [] [Byte.x61] [Byte.x62] 0 1 samplePage 0 32).
  - apply newHeapPage_queue. lia.
  - split; vm_compute; done.
  - vm_compute. done.
Qed.

Lemma page_is_fifo_witness : exists p',
  EvictFront samplePage = Ok (p', [Byte.x61], 32) /\ queue p' [].
Proof. exact (proj2 (page_is_fifo samplePage _ samplePage_queue)). Defined.

End Page.
