(* ===== verification/IndexTable.v ===== *)
(** * The shard index: an open-addressing hash table
    (src/cache/indextable.go, slabref.go, sieve.go).

    Keyed by the full 64-bit key hash, linear probing, tombstones, a SIEVE
    reference hint above the tag bits, and a rehash at 3/4 fill. The table is
    proved to implement a finite map from hashes to references; every probe
    loop terminates. A loop that ran out of fuel, or an index out of range,
    would be [None]. *)
From S2P Require Import Prelude.

Module SlabRef.

(** gen:16 | pageIdx:16 | offset:32. *)
Definition makeSlabRef (pageIdx gen offset : Z) : Z :=
  Z.lor (Z.lor (u64 (Z.shiftl gen 48)) (u64 (Z.shiftl pageIdx 32))) offset.

Definition pageIdx (r : Z) : Z := u16 (Z.shiftr r 32).
Definition offset (r : Z) : Z := u32 r.
Definition gen (r : Z) : Z := u16 (Z.shiftr r 48).

Lemma makeSlabRef_add p g o :
  fits 16 p -> fits 16 g -> fits 32 o -> makeSlabRef p g o = g * 2 ^ 48 + p * 2 ^ 32 + o.
Proof.
  unfold fits, makeSlabRef. intros Hp Hg Ho. rewrite !Z.shiftl_mul_pow2 by lia.
  rewrite !wrap_fits by (unfold fits; lia).
  rewrite <- (Z.lxor_lor (g * 2 ^ 48)), <- Z.add_nocarry_lxor.
  2,3: apply Z.bits_inj'; intros i Hi; rewrite Z.land_spec, Z.bits_0;
       destruct (decide (i < 48)); [by rewrite Z.mul_pow2_bits_low by lia|];
       rewrite (proj2 (proj1 (fits_bits 48 (p * 2 ^ 32) ltac:(lia)) ltac:(unfold fits; lia))) by lia;
       by rewrite andb_false_r.
  replace (g * 2 ^ 48 + p * 2 ^ 32) with ((g * 2 ^ 16 + p) * 2 ^ 32) by lia.
  rewrite <- Z.lxor_lor, <- Z.add_nocarry_lxor; [done| |].
  all: apply Z.bits_inj'; intros i Hi; rewrite Z.land_spec, Z.bits_0;
       destruct (decide (i < 32)); [by rewrite Z.mul_pow2_bits_low by lia|];
       rewrite (proj2 (proj1 (fits_bits 32 o ltac:(lia)) ltac:(unfold fits; lia))) by lia;
       by rewrite andb_false_r.
Qed.

Lemma slabref_fields p g o :
  fits 16 p -> fits 16 g -> fits 32 o ->
  pageIdx (makeSlabRef p g o) = p /\ gen (makeSlabRef p g o) = g /\
  offset (makeSlabRef p g o) = o.
Proof.
  intros Hp Hg Ho. rewrite makeSlabRef_add by done. unfold fits, pageIdx, gen, offset, wrap in *.
  rewrite !Z.shiftr_div_pow2 by lia.
  split_and!.
  - replace (g * 2 ^ 48 + p * 2 ^ 32 + o) with ((g * 2 ^ 16 + p) * 2 ^ 32 + o) by lia.
    rewrite Z.div_add_l, Z.div_small, Z.add_0_r by lia.
    rewrite Z.add_comm, Z.mod_add by lia. apply Z.mod_small. lia.
  - replace (g * 2 ^ 48 + p * 2 ^ 32 + o) with (g * 2 ^ 48 + (p * 2 ^ 32 + o)) by lia.
    rewrite Z.div_add_l, Z.div_small, Z.add_0_r by lia. apply Z.mod_small. lia.
  - replace (g * 2 ^ 48 + p * 2 ^ 32 + o) with (o + (g * 2 ^ 16 + p) * 2 ^ 32) by lia.
    rewrite Z.mod_add by lia. apply Z.mod_small. lia.
Qed.

End SlabRef.

Module IndexTable.

Definition ctrlEmpty : Z := 0.
Definition ctrlTombstone : Z := 1.
Definition tagPresentBit : Z := Z.shiftl 1 16.
Definition ctrlVisited : Z := Z.shiftl 1 17.
Definition ctrlTagMask : Z := ctrlVisited - 1.
Definition minIndexSlots : Z := 8.

Definition tagFor (h : Z) : Z := Z.lor (Z.shiftr h 48) tagPresentBit.

Record indexTable := MkTable {
  ctrl : list Z;
  refs : list Z;
  hashes : list Z;
  mask : Z;
  live : Z;
  tomb : Z;
}.

(** [for s < n { s <<= 1 }]. *)
Fixpoint nextPow2_loop (fuel : nat) (s n : Z) : Z :=
  match fuel with
  | O => s
  | S fuel => if s <? n then nextPow2_loop fuel (Z.shiftl s 1) n else s
  end.

(** 64 rounds exceed every [int]. *)
Definition nextPow2 (n : Z) : Z := nextPow2_loop 64 minIndexSlots n.

Definition newIndexTable (entries : Z) : indexTable :=
  let slots := nextPow2 (2 * entries + 1) in
  let z := replicate (Z.to_nat slots) 0 in
  MkTable z z z (slots - 1) 0 0.

(** Number of probe steps that visits every slot. *)
Definition probes (t : indexTable) : nat := length (ctrl t).

Definition next (t : indexTable) (i : Z) : Z := Z.land (i + 1) (mask t).

Definition isTag (c tag : Z) : bool := Z.land c ctrlTagMask =? tag.

(** Slot and reference of the live entry for [h]. *)
Fixpoint findSlot_loop (fuel : nat) (t : indexTable) (h i : Z) : option (option (Z * Z)) :=
  match fuel with
  | O => None
  | S fuel =>
      c ← ctrl t !! Z.to_nat i;
      if c =? ctrlEmpty then Some None
      else
        hi ← hashes t !! Z.to_nat i;
        if isTag c (tagFor h) && (hi =? h) then
          r ← refs t !! Z.to_nat i; Some (Some (i, r))
        else findSlot_loop fuel t h (next t i)
  end.

Definition findSlot (t : indexTable) (h : Z) : option (option (Z * Z)) :=
  findSlot_loop (probes t) t h (Z.land h (mask t)).

Definition setRef (t : indexTable) (i r : Z) : indexTable :=
  MkTable (ctrl t) (<[Z.to_nat i := r]> (refs t)) (hashes t) (mask t) (live t) (tomb t).

Definition setCtrl (t : indexTable) (i c : Z) : indexTable :=
  MkTable (<[Z.to_nat i := c]> (ctrl t)) (refs t) (hashes t) (mask t) (live t) (tomb t).

(** Inserts or repoints; returns the table, the slot and whether the key was
    absent. [firstFree] is the first tombstone on the probe run. *)
Fixpoint upsert_loop (fuel : nat) (t : indexTable) (h ref i : Z) (firstFree : option Z)
  : option (indexTable * Z * bool) :=
  match fuel with
  | O => None
  | S fuel =>
      c ← ctrl t !! Z.to_nat i;
      hi ← hashes t !! Z.to_nat i;
      if c =? ctrlEmpty then
        let slot := match firstFree with Some s => s | None => i end in
        let tomb' := match firstFree with Some _ => tomb t - 1 | None => tomb t end in
        Some (MkTable (<[Z.to_nat slot := tagFor h]> (ctrl t))
                (<[Z.to_nat slot := ref]> (refs t))
                (<[Z.to_nat slot := h]> (hashes t))
                (mask t) (live t + 1) tomb', slot, true)
      else if c =? ctrlTombstone then
        upsert_loop fuel t h ref (next t i)
          (match firstFree with Some s => Some s | None => Some i end)
      else if isTag c (tagFor h) && (hi =? h) then Some (setRef t i ref, i, false)
      else upsert_loop fuel t h ref (next t i) firstFree
  end.

Definition upsert (t : indexTable) (h ref : Z) : option (indexTable * Z * bool) :=
  upsert_loop (probes t) t h ref (Z.land h (mask t)) None.

Definition tombstone (t : indexTable) (slot : Z) : indexTable :=
  MkTable (<[Z.to_nat slot := ctrlTombstone]> (ctrl t)) (refs t) (hashes t) (mask t)
    (live t - 1) (tomb t + 1).

Definition overThreshold (t : indexTable) : bool :=
  Z.of_nat (length (ctrl t)) * 3 <=? (live t + tomb t) * 4.

(** The SIEVE hint (sieve.go): set on an access, taken by a drain. *)
Definition setVisited (t : indexTable) (slot tag ref : Z) : option indexTable :=
  c ← ctrl t !! Z.to_nat slot;
  if negb (c =? tag) then Some t
  else
    r ← refs t !! Z.to_nat slot;
    if negb (r =? ref) then Some t
    else Some (setCtrl t slot (Z.lor tag ctrlVisited)).

Definition takeVisited (t : indexTable) (slot tag : Z) : option (indexTable * bool) :=
  c ← ctrl t !! Z.to_nat slot;
  if c =? Z.lor tag ctrlVisited then Some (setCtrl t slot tag, true) else Some (t, false).

(** One turn of the loop of [rehashed]: copy slot [i] of [t] into [nt]. *)
Definition rehash_slot (t : indexTable) (nt : indexTable) (i : nat) : option indexTable :=
  c ← ctrl t !! i;
  if (c =? ctrlEmpty) || (c =? ctrlTombstone) then Some nt
  else
    h ← hashes t !! i;
    r ← refs t !! i;
    '(nt, slot, _) ← upsert nt h r;
    if negb (Z.land c ctrlVisited =? 0)
    then Some (setCtrl nt slot (Z.lor (tagFor h) ctrlVisited))
    else Some nt.

Fixpoint rehash_from (t : indexTable) (nt : indexTable) (l : list nat) : option indexTable :=
  match l with
  | [] => Some nt
  | i :: l => nt ← rehash_slot t nt i; rehash_from t nt l
  end.

Definition rehashed (t : indexTable) : option indexTable :=
  rehash_from t (newIndexTable (live t)) (seq 0 (length (ctrl t))).

(** ** Control words *)

Lemma tagFor_fits h : fits 64 h -> 2 ^ 16 <= tagFor h < 2 ^ 17.
Proof.
  intros Hh. unfold tagFor. change tagPresentBit with (1 * 2 ^ 16).
  assert (fits 16 (Z.shiftr h 48)) as Hf.
  { rewrite Z.shiftr_div_pow2 by lia. unfold fits in *. split; [apply Z.div_pos; lia|].
    apply Z.div_lt_upper_bound; lia. }
  assert (fits 17 (Z.lor (Z.shiftr h 48) (1 * 2 ^ 16))) as H17.
  { apply fits_lor; [lia| |unfold fits; lia]. eapply fits_mono; [|exact Hf]. lia. }
  unfold fits in *. split; [|lia].
  apply Z.ldiff_le; [lia|]. apply Z.bits_inj'. intros i Hi.
  rewrite Z.ldiff_spec, Z.lor_spec, Z.bits_0.
  destruct (Z.testbit (2 ^ 16) i) eqn:E1; [|done].
  change (1 * 2 ^ 16) with (2 ^ 16). rewrite E1. by rewrite orb_true_r.
Qed.

Definition visited (c : Z) : Z := Z.lor c ctrlVisited.

Lemma visited_add c : 0 <= c < 2 ^ 17 -> visited c = c + 2 ^ 17.
Proof.
  intros Hc. unfold visited. change ctrlVisited with (2 ^ 17).
  assert (Z.land c (2 ^ 17) = 0) as Hl.
  { apply Z.bits_inj'. intros i Hi. rewrite Z.land_spec, Z.pow2_bits_eqb, Z.bits_0 by lia.
    destruct (17 =? i) eqn:E1; [|by rewrite andb_false_r]. apply Z.eqb_eq in E1 as <-.
    rewrite (proj2 (proj1 (fits_bits 17 c ltac:(lia)) Hc)) by lia. done. }
  rewrite Z.add_nocarry_lxor by done. symmetry. by apply Z.lxor_lor.
Qed.

Lemma land_tagmask c : Z.land c ctrlTagMask = c mod 2 ^ 17.
Proof. change ctrlTagMask with (Z.ones 17). by rewrite Z.land_ones by lia. Qed.

(** The control words of a slot that carries hash [h]. *)
Definition tag_word (c h : Z) : Prop := c = tagFor h \/ c = visited (tagFor h).

Lemma tag_word_occupied c h : fits 64 h -> tag_word c h -> c <> 0 /\ c <> 1.
Proof.
  intros Hh. pose proof (tagFor_fits h Hh). intros [-> | ->]; [lia|].
  rewrite visited_add by lia. lia.
Qed.

Lemma isTag_word c h : fits 64 h -> tag_word c h -> isTag c (tagFor h) = true.
Proof.
  intros Hh. pose proof (tagFor_fits h Hh). unfold isTag. rewrite land_tagmask.
  intros [-> | ->]; apply Z.eqb_eq.
  - apply Z.mod_small. lia.
  - rewrite visited_add by lia. rewrite <- (Z.mul_1_l (2 ^ 17)) at 1.
    rewrite Z.mod_add by lia. apply Z.mod_small. lia.
Qed.

(** ** Counting slots *)

Fixpoint cnt (f : Z -> bool) (l : list Z) : Z :=
  match l with
  | [] => 0
  | x :: l => (if f x then 1 else 0) + cnt f l
  end.

Definition isOcc (c : Z) : bool := negb (c =? ctrlEmpty) && negb (c =? ctrlTombstone).
Definition isTomb (c : Z) : bool := c =? ctrlTombstone.

Lemma cnt_insert f l i x y :
  l !! i = Some y ->
  cnt f (<[i:=x]> l) = cnt f l + (if f x then 1 else 0) - (if f y then 1 else 0).
Proof.
  revert i. induction l as [|z l IH]; intros [|i] Hi; simpl in *; try done.
  - injection Hi as ->. lia.
  - rewrite (IH i) by done. lia.
Qed.

Lemma cnt_nonneg f l : 0 <= cnt f l.
Proof. induction l as [|x l IH]; simpl; [lia|]. destruct (f x); lia. Qed.

Lemma cnt_replicate f n x : f x = false -> cnt f (replicate n x) = 0.
Proof. intros Hf. induction n as [|n IH]; simpl; [done|]. rewrite Hf. lia. Qed.

Lemma cnt_room l :
  cnt isOcc l + cnt isTomb l < Z.of_nat (length l) -> exists i, l !! i = Some 0.
Proof.
  induction l as [|x l IH]; simpl; [lia|]. intros H.
  destruct (decide (x = 0)) as [-> |Hx]; [by exists O|].
  destruct IH as [i Hi]; [|by exists (S i)].
  assert ((if isOcc x then 1 else 0) + (if isTomb x then 1 else 0) = 1).
  { unfold isOcc, isTomb, ctrlEmpty, ctrlTombstone.
    rewrite (proj2 (Z.eqb_neq x 0) Hx). simpl. by destruct (x =? 1). }
  lia.
Qed.

(** ** The invariant *)

Definition slots (t : indexTable) : Z := Z.of_nat (length (ctrl t)).

(** Slot [i] carries the live entry for hash [h]. *)
Definition occ (t : indexTable) (i : nat) (h : Z) : Prop :=
  exists c, ctrl t !! i = Some c /\ c <> 0 /\ c <> 1 /\ hashes t !! i = Some h.

(** The slot visited at step [d] of the probe run of [h]. *)
Definition pos (t : indexTable) (h d : Z) : Z := (h + d) mod slots t.

Record twf (t : indexTable) : Prop := {
  tw_refs : length (refs t) = length (ctrl t);
  tw_hashes : length (hashes t) = length (ctrl t);
  tw_pow : exists k, 3 <= k /\ slots t = 2 ^ k;
  tw_mask : mask t = slots t - 1;
  tw_tag : forall i c h, ctrl t !! i = Some c -> hashes t !! i = Some h ->
    c = 0 \/ c = 1 \/ (fits 64 h /\ tag_word c h);
  tw_reach : forall i h d, occ t i h -> 0 <= d < (Z.of_nat i - h) mod slots t ->
    ctrl t !! Z.to_nat (pos t h d) <> Some 0;
  tw_uniq : forall i j h, occ t i h -> occ t j h -> i = j;
  tw_live : live t = cnt isOcc (ctrl t);
  tw_tomb : tomb t = cnt isTomb (ctrl t);
  tw_room : live t + tomb t < slots t;
}.

Lemma slots_pos t : twf t -> 8 <= slots t.
Proof.
  intros [_ _ (k & Hk & Hs) _ _ _ _ _ _ _]. rewrite Hs.
  change 8 with (2 ^ 3). by apply Z.pow_le_mono_r.
Qed.

Lemma land_mask t x : twf t -> Z.land x (mask t) = x mod slots t.
Proof.
  intros [_ _ (k & Hk & Hs) Hm _ _ _ _ _ _]. rewrite Hm, Hs.
  replace (2 ^ k - 1) with (Z.ones k) by (rewrite Z.ones_equiv; lia).
  by rewrite Z.land_ones by lia.
Qed.

Lemma pos_range t h d : twf t -> 0 <= pos t h d < slots t.
Proof. intros Hw. apply Z.mod_pos_bound. pose proof (slots_pos t Hw). lia. Qed.

Lemma pos_start t h : twf t -> Z.land h (mask t) = pos t h 0.
Proof. intros Hw. rewrite land_mask by done. unfold pos. by rewrite Z.add_0_r. Qed.

Lemma next_pos t h d : twf t -> next t (pos t h d) = pos t h (d + 1).
Proof.
  intros Hw. unfold next, pos. rewrite land_mask by done.
  rewrite Zplus_mod_idemp_l. f_equal. lia.
Qed.

(** The probe run of [h] reaches every slot. *)
Lemma pos_dist t h i :
  twf t -> (i < length (ctrl t))%nat ->
  pos t h ((Z.of_nat i - h) mod slots t) = Z.of_nat i.
Proof.
  intros Hw Hi. unfold pos. rewrite Zplus_mod_idemp_r.
  replace (h + (Z.of_nat i - h)) with (Z.of_nat i) by lia.
  apply Z.mod_small. unfold slots. lia.
Qed.

Lemma occ_lt t i h : occ t i h -> (i < length (ctrl t))%nat.
Proof. intros (c & Hc & _). by apply lookup_lt_Some in Hc. Qed.

Lemma occ_word t i h : twf t -> occ t i h ->
  exists c, ctrl t !! i = Some c /\ hashes t !! i = Some h /\ fits 64 h /\ tag_word c h.
Proof.
  intros Hw (c & Hc & H0 & H1 & Hh).
  destruct (tw_tag t Hw i c h Hc Hh) as [?|[?|[? ?]]]; [lia|lia|]. eauto.
Qed.

(** If the first [d] slots of the run are neither empty nor [h]'s and the next
    one is empty, the table has no entry for [h]. *)
Lemma run_absent t h d :
  twf t -> 0 <= d -> ctrl t !! Z.to_nat (pos t h d) = Some 0 ->
  (forall d', 0 <= d' < d -> ~ occ t (Z.to_nat (pos t h d')) h) ->
  forall i, ~ occ t i h.
Proof.
  intros Hw Hd He Hrun i Ho. pose proof (occ_lt _ _ _ Ho) as Hi.
  pose proof (slots_pos t Hw). set (e := (Z.of_nat i - h) mod slots t).
  assert (0 <= e) by (apply Z.mod_pos_bound; lia).
  assert (Hp : pos t h e = Z.of_nat i) by by apply pos_dist.
  destruct (decide (d < e)) as [Hlt|Hge].
  - by apply (tw_reach t Hw i h d Ho).
  - destruct (decide (d = e)) as [-> |Hne].
    + rewrite Hp, Nat2Z.id in He. destruct Ho as (c & Hc & ? & _). congruence.
    + apply (Hrun e); [lia|]. by rewrite Hp, Nat2Z.id.
Qed.

Lemma room_on_run t h : twf t -> exists d, 0 <= d < slots t /\ ctrl t !! Z.to_nat (pos t h d) = Some 0.
Proof.
  intros Hw. destruct (cnt_room (ctrl t)) as [i Hi].
  { pose proof (tw_room t Hw). rewrite (tw_live t Hw), (tw_tomb t Hw) in *. done. }
  exists ((Z.of_nat i - h) mod slots t). pose proof (slots_pos t Hw).
  split; [apply Z.mod_pos_bound; lia|].
  rewrite pos_dist, Nat2Z.id; [done|done|by apply lookup_lt_Some in Hi].
Qed.

(** ** Lookup *)

Lemma lookup_slot (l : list Z) t h d :
  twf t -> length l = length (ctrl t) ->
  exists x, l !! Z.to_nat (pos t h d) = Some x.
Proof.
  intros Hw Hl. apply lookup_lt_is_Some_2. pose proof (pos_range t h d Hw).
  rewrite Hl. unfold slots in *. lia.
Qed.

Definition find_result (t : indexTable) (h : Z) (res : option (Z * Z)) : Prop :=
  match res with
  | None => forall i, ~ occ t i h
  | Some (i, r) => 0 <= i < slots t /\ occ t (Z.to_nat i) h /\ refs t !! Z.to_nat i = Some r
  end.

Lemma findSlot_loop_spec t h d fuel :
  twf t -> fits 64 h -> 0 <= d ->
  (forall d', 0 <= d' < d -> ~ occ t (Z.to_nat (pos t h d')) h) ->
  (exists e, d <= e < d + Z.of_nat fuel /\ ctrl t !! Z.to_nat (pos t h e) = Some 0) ->
  exists res, findSlot_loop fuel t h (pos t h d) = Some res /\ find_result t h res.
Proof.
  intros Hw Hh. revert d. induction fuel as [|fuel IH]; intros d Hd Hrun (e & He & Hz); [lia|].
  cbn [findSlot_loop].
  destruct (lookup_slot (ctrl t) t h d Hw eq_refl) as [c Hc].
  destruct (lookup_slot (hashes t) t h d Hw (tw_hashes t Hw)) as [hi Hhi].
  destruct (lookup_slot (refs t) t h d Hw (tw_refs t Hw)) as [r Hr].
  rewrite Hc, Hhi, Hr. cbn [mbind option_bind]. unfold ctrlEmpty.
  destruct (c =? 0) eqn:E0.
  - apply Z.eqb_eq in E0 as ->. exists None. split; [done|]. exact (run_absent t h d Hw Hd Hc Hrun).
  - apply Z.eqb_neq in E0.
    destruct (isTag c (tagFor h) && (hi =? h)) eqn:Et.
    + apply andb_true_iff in Et as [Et Eh]. apply Z.eqb_eq in Eh as ->.
      exists (Some (pos t h d, r)). split; [done|]. split; [by apply pos_range|]. split; [|done].
      exists c. split_and!; try done. intros ->. pose proof (tagFor_fits h Hh).
      unfold isTag in Et. rewrite land_tagmask in Et. apply Z.eqb_eq in Et.
      rewrite Z.mod_small in Et by lia. lia.
    + rewrite next_pos by done. apply IH; [lia| |].
      * intros d' Hd'. destruct (decide (d' = d)) as [-> |]; [|apply Hrun; lia].
        intros Ho. destruct (occ_word _ _ _ Hw Ho) as (c' & Hc' & Hh' & _ & Hw').
        rewrite Hc in Hc'. injection Hc' as <-. rewrite Hhi in Hh'. injection Hh' as ->.
        rewrite isTag_word in Et by done. by rewrite Z.eqb_refl in Et.
      * exists e. split; [|done]. destruct (decide (e = d)) as [-> |]; [|lia].
        rewrite Hc in Hz. congruence.
Qed.

Lemma findSlot_spec t h :
  twf t -> fits 64 h -> exists res, findSlot t h = Some res /\ find_result t h res.
Proof.
  intros Hw Hh. unfold findSlot. rewrite pos_start by done.
  apply findSlot_loop_spec; [done..|lia|lia|].
  destruct (room_on_run t h Hw) as (e & He & Hz). exists e. split; [|done].
  unfold probes. unfold slots in He. lia.
Qed.

(** ** The map a table represents *)

Definition entry_at (t : indexTable) (i : nat) : option (Z * Z) :=
  c ← ctrl t !! i;
  if isOcc c then h ← hashes t !! i; r ← refs t !! i; Some (h, r) else None.

Definition abs (t : indexTable) : gmap Z Z :=
  list_to_map (omap (entry_at t) (seq 0 (length (ctrl t)))).

Lemma isOcc_spec c : isOcc c = true <-> c <> 0 /\ c <> 1.
Proof.
  unfold isOcc, ctrlEmpty, ctrlTombstone. rewrite andb_true_iff, !negb_true_iff, !Z.eqb_neq. done.
Qed.

Lemma isTomb_false c : c <> 1 -> isTomb c = false.
Proof. apply Z.eqb_neq. Qed.

Lemma entry_at_spec t i h r :
  entry_at t i = Some (h, r) <-> occ t i h /\ refs t !! i = Some r.
Proof.
  unfold entry_at, occ. split.
  - destruct (ctrl t !! i) as [c|]; simpl; [|done].
    destruct (isOcc c) eqn:Eo; [|done]. apply isOcc_spec in Eo as [? ?].
    destruct (hashes t !! i) as [h'|]; simpl; [|done].
    destruct (refs t !! i) as [r'|]; simpl; [|done]. intros [= -> ->]. eauto 10.
  - intros [(c & Hc & ? & ? & Hh) Hr]. rewrite Hc, Hh, Hr. simpl.
    by rewrite (proj2 (isOcc_spec c)).
Qed.

Lemma omap_fst_nodup {A} (f : nat -> option (Z * A)) (l : list nat) :
  NoDup l -> (forall i j h a b, i ∈ l -> j ∈ l -> f i = Some (h, a) -> f j = Some (h, b) -> i = j) ->
  NoDup (omap f l).*1.
Proof.
  intros Hl Hinj. induction Hl as [|i l Hi Hl IH]; simpl; [constructor|].
  assert (NoDup (omap f l).*1) as Hrec.
  { apply IH. intros. eapply Hinj; eauto; by apply list_elem_of_further. }
  destruct (f i) as [[h a]|] eqn:Ef; simpl; [|done]. constructor; [|done].
  intros ([h' b] & Heq & Hin)%list_elem_of_fmap. simpl in Heq. subst h'.
  apply list_elem_of_omap in Hin as (j & Hj & Ej).
  assert (i = j) as ->. { eapply Hinj; eauto; [apply list_elem_of_here|by apply list_elem_of_further]. }
  done.
Qed.

Lemma lookup_abs t h r :
  twf t -> abs t !! h = Some r <-> exists i, occ t i h /\ refs t !! i = Some r.
Proof.
  intros Hw. unfold abs.
  assert (Hnd : NoDup (omap (entry_at t) (seq 0 (length (ctrl t)))).*1).
  { apply omap_fst_nodup; [apply NoDup_seq|]. intros i j h' a b _ _ Hi Hj.
    apply entry_at_spec in Hi as [Hi _]. apply entry_at_spec in Hj as [Hj _].
    by apply (tw_uniq t Hw i j h'). }
  rewrite <- (elem_of_list_to_map _ h r Hnd), list_elem_of_omap. split.
  - intros (i & _ & Hi). apply entry_at_spec in Hi. eauto.
  - intros (i & Ho & Hr). exists i. rewrite entry_at_spec. split; [|done].
    apply elem_of_seq. pose proof (occ_lt _ _ _ Ho). lia.
Qed.

Lemma abs_None t h : twf t -> abs t !! h = None <-> forall i, ~ occ t i h.
Proof.
  intros Hw. split.
  - intros Hn i Ho. destruct (lookup_lt_is_Some_2 (refs t) i) as [r Hr].
    { rewrite (tw_refs t Hw). by eapply occ_lt. }
    assert (abs t !! h = Some r) by (apply lookup_abs; eauto). congruence.
  - intros Hn. destruct (abs t !! h) as [r|] eqn:E1; [|done].
    apply lookup_abs in E1 as (i & Ho & _); [|done]. by destruct (Hn i).
Qed.

Lemma find_result_abs t h res :
  twf t -> find_result t h res -> abs t !! h = snd <$> res.
Proof.
  intros Hw. destruct res as [[i r]|]; simpl.
  - intros (_ & Ho & Hr). apply lookup_abs; eauto.
  - by apply abs_None.
Qed.

(** ** Insertion *)

(** What an insertion writes. *)
Definition place (t : indexTable) (slot h ref tomb' : Z) : indexTable :=
  MkTable (<[Z.to_nat slot := tagFor h]> (ctrl t)) (<[Z.to_nat slot := ref]> (refs t))
    (<[Z.to_nat slot := h]> (hashes t)) (mask t) (live t + 1) tomb'.

Definition upsert_result (t : indexTable) (h ref : Z) (t' : indexTable) (slot : Z) (ins : bool) : Prop :=
  (ins = false /\ 0 <= slot < slots t /\ occ t (Z.to_nat slot) h /\ t' = setRef t slot ref) \/
  (ins = true /\ (forall i, ~ occ t i h) /\ exists d tomb', 0 <= d /\ slot = pos t h d /\
     (forall d', 0 <= d' < d -> ctrl t !! Z.to_nat (pos t h d') <> Some 0) /\
     (ctrl t !! Z.to_nat slot = Some 0 /\ tomb' = tomb t \/
      ctrl t !! Z.to_nat slot = Some 1 /\ tomb' = tomb t - 1) /\
     t' = place t slot h ref tomb').

Lemma upsert_loop_spec t h ref d fuel ff :
  twf t -> fits 64 h -> 0 <= d ->
  (forall d', 0 <= d' < d -> ctrl t !! Z.to_nat (pos t h d') <> Some 0) ->
  (forall d', 0 <= d' < d -> ~ occ t (Z.to_nat (pos t h d')) h) ->
  (forall s, ff = Some s -> exists d', 0 <= d' < d /\ s = pos t h d' /\ ctrl t !! Z.to_nat s = Some 1) ->
  (exists e, d <= e < d + Z.of_nat fuel /\ ctrl t !! Z.to_nat (pos t h e) = Some 0) ->
  exists t' slot ins, upsert_loop fuel t h ref (pos t h d) ff = Some (t', slot, ins) /\
    upsert_result t h ref t' slot ins.
Proof.
  intros Hw Hh. revert d ff.
  induction fuel as [|fuel IH]; intros d ff Hd Hnz Hrun Hff (e & He & Hz); [lia|].
  cbn [upsert_loop].
  destruct (lookup_slot (ctrl t) t h d Hw eq_refl) as [c Hc].
  destruct (lookup_slot (hashes t) t h d Hw (tw_hashes t Hw)) as [hi Hhi].
  rewrite Hc, Hhi. cbn [mbind option_bind]. unfold ctrlEmpty, ctrlTombstone.
  destruct (c =? 0) eqn:E0.
  { apply Z.eqb_eq in E0 as ->. do 3 eexists. split; [done|]. right. split; [done|].
    split; [exact (run_absent t h d Hw Hd Hc Hrun)|].
    destruct ff as [s|].
    - destruct (Hff s eq_refl) as (d' & Hd' & -> & Ht). exists d', (tomb t - 1).
      split_and!; try done; [lia| |by right]. intros d'' ?. apply Hnz. lia.
    - exists d, (tomb t). split_and!; try done. by left. }
  apply Z.eqb_neq in E0.
  assert (Hnz' : forall d', 0 <= d' < d + 1 -> ctrl t !! Z.to_nat (pos t h d') <> Some 0).
  { intros d' Hd'. destruct (decide (d' = d)) as [-> |]; [congruence|apply Hnz; lia]. }
  assert (Hroom : exists e, d + 1 <= e < d + 1 + Z.of_nat fuel /\ ctrl t !! Z.to_nat (pos t h e) = Some 0).
  { exists e. split; [|done]. destruct (decide (e = d)) as [-> |]; [congruence|lia]. }
  destruct (c =? 1) eqn:E1.
  { apply Z.eqb_eq in E1 as ->. rewrite next_pos by done. apply IH; [lia|done| | |done].
    - intros d' Hd'. destruct (decide (d' = d)) as [-> |]; [|apply Hrun; lia].
      intros (c & Hc' & _ & ? & _). congruence.
    - intros s Hs. destruct ff as [s'|].
      + injection Hs as <-. destruct (Hff s' eq_refl) as (d' & ? & ? & ?). exists d'. split; [lia|done].
      + injection Hs as <-. exists d. split; [lia|done]. }
  apply Z.eqb_neq in E1.
  destruct (isTag c (tagFor h) && (hi =? h)) eqn:Et.
  - apply andb_true_iff in Et as [_ Eh]. apply Z.eqb_eq in Eh as ->.
    do 3 eexists. split; [done|]. left. split; [done|]. split; [by apply pos_range|].
    split; [|done]. by exists c.
  - rewrite next_pos by done. apply IH; [lia|done| | |done].
    + intros d' Hd'. destruct (decide (d' = d)) as [-> |]; [|apply Hrun; lia].
      intros Ho. destruct (occ_word _ _ _ Hw Ho) as (c' & Hc' & Hh' & _ & Hw').
      rewrite Hc in Hc'. injection Hc' as <-. rewrite Hhi in Hh'. injection Hh' as ->.
      rewrite isTag_word in Et by done. by rewrite Z.eqb_refl in Et.
    + intros s Hs. destruct (Hff s Hs) as (d' & ? & ? & ?). exists d'. split; [lia|done].
Qed.

Lemma upsert_spec t h ref :
  twf t -> fits 64 h ->
  exists t' slot ins, upsert t h ref = Some (t', slot, ins) /\ upsert_result t h ref t' slot ins.
Proof.
  intros Hw Hh. unfold upsert. rewrite pos_start by done.
  apply upsert_loop_spec; [done|done|lia|lia|lia|done|].
  destruct (room_on_run t h Hw) as (e & He & Hz). exists e. split; [|done].
  unfold probes. unfold slots in He. lia.
Qed.

(** ** Slot updates keep the invariant *)

Lemma place_slots t slot h ref tb : slots (place t slot h ref tb) = slots t.
Proof. unfold slots. simpl. by rewrite length_insert. Qed.

Lemma place_occ_same t slot h ref tb :
  twf t -> fits 64 h -> 0 <= slot < slots t -> forall h',
  occ (place t slot h ref tb) (Z.to_nat slot) h' <-> h' = h.
Proof.
  intros Hw Hh Hs h'. unfold occ, slots in *. simpl.
  rewrite !list_lookup_insert_eq by (rewrite ?(tw_hashes t Hw); lia).
  pose proof (tagFor_fits h Hh). split.
  - intros (c & _ & _ & _ & [= ->]). done.
  - intros ->. exists (tagFor h). split_and!; try done; lia.
Qed.

Lemma place_occ_other t slot h ref tb j h' :
  Z.to_nat slot <> j -> occ (place t slot h ref tb) j h' <-> occ t j h'.
Proof. intros Hj. unfold occ. simpl. rewrite !list_lookup_insert_ne by done. done. Qed.

Lemma place_wf t slot h ref tb d :
  twf t -> fits 64 h -> (forall i, ~ occ t i h) -> 0 <= d -> slot = pos t h d ->
  (forall d', 0 <= d' < d -> ctrl t !! Z.to_nat (pos t h d') <> Some 0) ->
  (ctrl t !! Z.to_nat slot = Some 0 /\ tb = tomb t \/
   ctrl t !! Z.to_nat slot = Some 1 /\ tb = tomb t - 1) ->
  live t + tomb t + 1 < slots t ->
  twf (place t slot h ref tb).
Proof.
  intros Hw Hh Habs Hd Hs Hnz Hslot Hroom.
  pose proof (pos_range t h d Hw) as Hrg. rewrite <- Hs in Hrg.
  pose proof (tagFor_fits h Hh) as Htg.
  assert (Hnew : forall j, Z.to_nat slot <> j -> ctrl (place t slot h ref tb) !! j = ctrl t !! j).
  { intros j Hj. simpl. by rewrite list_lookup_insert_ne. }
  assert (Hat : ctrl (place t slot h ref tb) !! Z.to_nat slot = Some (tagFor h)).
  { simpl. apply list_lookup_insert_eq. unfold slots in Hrg. lia. }
  assert (Hkeep : forall j, ctrl (place t slot h ref tb) !! j = Some 0 -> ctrl t !! j = Some 0).
  { intros j Hj. destruct (decide (Z.to_nat slot = j)) as [<- |Hne].
    - rewrite Hat in Hj. injection Hj as Hj. lia.
    - by rewrite Hnew in Hj. }
  pose proof Hw as [Hr Hhs Hp Hm Htag Hreach Huniq Hlive Htomb Hrm].
  split; rewrite ?place_slots; simpl; rewrite ?length_insert; try done.
  - intros i c h' Hc Hh'. destruct (decide (Z.to_nat slot = i)) as [<- |Hne].
    + rewrite list_lookup_insert_eq in Hc by (unfold slots in Hrg; lia).
      rewrite list_lookup_insert_eq in Hh' by (unfold slots in Hrg; lia).
      injection Hc as <-. injection Hh' as <-. right. right. split; [done|by left].
    + rewrite list_lookup_insert_ne in Hc, Hh' by done. eauto.
  - intros i h' d' Ho Hd'. unfold pos. rewrite place_slots. fold (pos t h' d').
    intros Hz. apply Hkeep in Hz.
    destruct (decide (Z.to_nat slot = i)) as [<- |Hne].
    + apply place_occ_same in Ho; [|done..]. subst h'.
      apply (Hnz d'); [|done]. rewrite Z2Nat.id in Hd' by lia. rewrite Hs in Hd'.
      unfold pos in Hd'. rewrite Zminus_mod_idemp_l in Hd'.
      replace (h + d - h) with d in Hd' by lia.
      pose proof (Z.mod_le d (slots t)). unfold slots in *. lia.
    + apply place_occ_other in Ho; [|done]. by apply (Hreach i h' d').
  - intros i j h' Hi Hj.
    destruct (decide (Z.to_nat slot = i)) as [<- |Hi']; destruct (decide (Z.to_nat slot = j)) as [<- |Hj']; try done.
    + apply place_occ_same in Hi; [|done..]. subst h'.
      apply place_occ_other in Hj; [|done]. by destruct (Habs j).
    + apply place_occ_same in Hj; [|done..]. subst h'.
      apply place_occ_other in Hi; [|done]. by destruct (Habs i).
    + apply place_occ_other in Hi; [|done]. apply place_occ_other in Hj; [|done]. eauto.
  - assert (isOcc (tagFor h) = true) as Ho by (apply isOcc_spec; lia).
    destruct Hslot as [[Hc _]|[Hc _]]; rewrite (cnt_insert _ _ _ _ _ Hc), Ho, Hlive; simpl; lia.
  - assert (isTomb (tagFor h) = false) as Ho by (apply isTomb_false; lia).
    destruct Hslot as [[Hc ->]|[Hc ->]]; rewrite (cnt_insert _ _ _ _ _ Hc), Ho, Htomb; simpl; lia.
  - destruct Hslot as [[_ ->]|[_ ->]]; lia.
Qed.

Lemma abs_eq t (m : gmap Z Z) :
  twf t -> (forall h r, (exists i, occ t i h /\ refs t !! i = Some r) <-> m !! h = Some r) -> abs t = m.
Proof.
  intros Hw Hm. apply map_eq. intros h. apply option_eq. intros r.
  rewrite <- Hm. by apply lookup_abs.
Qed.

Lemma place_abs t slot h ref tb :
  twf t -> twf (place t slot h ref tb) -> fits 64 h -> (forall i, ~ occ t i h) -> 0 <= slot < slots t ->
  ctrl t !! Z.to_nat slot = Some 0 \/ ctrl t !! Z.to_nat slot = Some 1 ->
  abs (place t slot h ref tb) = <[h := ref]> (abs t).
Proof.
  intros Hw Hw' Hh Habs Hs Hfree. apply abs_eq; [done|]. intros h' r.
  assert (Hr : refs (place t slot h ref tb) !! Z.to_nat slot = Some ref).
  { simpl. apply list_lookup_insert_eq. rewrite (tw_refs t Hw). unfold slots in Hs. lia. }
  destruct (decide (h' = h)) as [-> |Hne].
  - rewrite lookup_insert_eq. split.
    + intros (i & Ho & Hri). destruct (decide (Z.to_nat slot = i)) as [<- |Hi]; [congruence|].
      apply place_occ_other in Ho; [|done]. by destruct (Habs i).
    + intros [= <-]. exists (Z.to_nat slot). split; [|done]. by apply place_occ_same.
  - rewrite lookup_insert_ne by done. rewrite lookup_abs by done.
    split; intros (i & Ho & Hri); exists i; destruct (decide (Z.to_nat slot = i)) as [<- |Hi].
    + by apply place_occ_same in Ho.
    + apply place_occ_other in Ho; [|done]. simpl in Hri. by rewrite list_lookup_insert_ne in Hri.
    + destruct Ho as (c & Hc & ? & ? & _). destruct Hfree; congruence.
    + rewrite place_occ_other by done. simpl. by rewrite list_lookup_insert_ne.
Qed.

Lemma setRef_wf t slot ref : twf t -> twf (setRef t slot ref).
Proof. intros [Hr Hhs Hp Hm Htag Hreach Huniq Hlive Htomb Hrm]. split; try done. simpl. by rewrite length_insert. Qed.

Lemma setRef_abs t slot h ref :
  twf t -> 0 <= slot < slots t -> occ t (Z.to_nat slot) h -> abs (setRef t slot ref) = <[h := ref]> (abs t).
Proof.
  intros Hw Hs Ho. apply abs_eq; [by apply setRef_wf|]. intros h' r.
  assert (Hlt : (Z.to_nat slot < length (refs t))%nat).
  { rewrite (tw_refs t Hw). unfold slots in Hs. lia. }
  destruct (decide (h' = h)) as [-> |Hne].
  - rewrite lookup_insert_eq. simpl. split.
    + intros (i & Hi & Hri). rewrite (tw_uniq t Hw i _ h Hi Ho) in Hri.
      by rewrite list_lookup_insert_eq in Hri.
    + intros [= <-]. exists (Z.to_nat slot). by rewrite list_lookup_insert_eq.
  - rewrite lookup_insert_ne by done. rewrite lookup_abs by done. simpl.
    split; intros (i & Hi & Hri); exists i; (split; [done|]).
    all: assert (Z.to_nat slot <> i)
      by (intros <-; destruct Hi as (? & _ & _ & _ & Hi); destruct Ho as (? & _ & _ & _ & Ho); simpl in *; congruence).
    all: by rewrite list_lookup_insert_ne in *.
Qed.

(** Rewriting the control word of a live slot between its two tag words. *)
Lemma setCtrl_occ t slot h c :
  fits 64 h -> tag_word c h -> occ t (Z.to_nat slot) h -> forall j h', occ (setCtrl t slot c) j h' <-> occ t j h'.
Proof.
  intros Hh Hc Ho j h'. pose proof (occ_lt _ _ _ Ho) as Hlt. pose proof (tag_word_occupied _ _ Hh Hc) as [? ?].
  unfold occ. simpl. destruct (decide (Z.to_nat slot = j)) as [<- |Hne].
  - rewrite list_lookup_insert_eq by done. destruct Ho as (c' & Hc' & ? & ? & Hh'). split.
    + intros (? & _ & _ & _ & ?). eauto.
    + intros (? & _ & _ & _ & ?). eauto.
  - by rewrite list_lookup_insert_ne.
Qed.

Lemma setCtrl_wf t slot h c :
  twf t -> fits 64 h -> tag_word c h -> occ t (Z.to_nat slot) h -> twf (setCtrl t slot c).
Proof.
  intros Hw Hh Hc Ho. pose proof (setCtrl_occ t slot h c Hh Hc Ho) as Hocc.
  pose proof (tag_word_occupied _ _ Hh Hc) as [H0 H1]. pose proof (occ_lt _ _ _ Ho) as Hlt.
  assert (Hsl : slots (setCtrl t slot c) = slots t) by (unfold slots; simpl; by rewrite length_insert).
  pose proof Hw as [Hr Hhs Hp Hm Htag Hreach Huniq Hlive Htomb Hrm].
  destruct Ho as (c0 & Hc0 & Hn0 & Hn1 & Hh0).
  split; rewrite ?Hsl; simpl; rewrite ?length_insert; try done.
  - intros i c' h' Hc' Hh'. destruct (decide (Z.to_nat slot = i)) as [<- |Hne].
    + rewrite list_lookup_insert_eq in Hc' by done. injection Hc' as <-.
      rewrite Hh0 in Hh'. injection Hh' as <-. eauto.
    + rewrite list_lookup_insert_ne in Hc' by done. eauto.
  - intros i h' d Ho' Hd Hz. apply Hocc in Ho'. unfold pos in Hz. rewrite Hsl in Hz.
    destruct (decide (Z.to_nat slot = Z.to_nat (pos t h' d))) as [Heq|Hne].
    + unfold pos in Heq. rewrite <- Heq, list_lookup_insert_eq in Hz by done. congruence.
    + rewrite list_lookup_insert_ne in Hz by done. by apply (Hreach i h' d).
  - intros i j h' Hi Hj. apply Hocc in Hi, Hj. eauto.
  - rewrite (cnt_insert _ _ _ _ _ Hc0), (proj2 (isOcc_spec c0)), (proj2 (isOcc_spec c)) by done. simpl. lia.
  - rewrite (cnt_insert _ _ _ _ _ Hc0), !isTomb_false by done. lia.
Qed.

Lemma setCtrl_abs t slot h c :
  twf t -> fits 64 h -> tag_word c h -> occ t (Z.to_nat slot) h -> abs (setCtrl t slot c) = abs t.
Proof.
  intros Hw Hh Hc Ho. apply abs_eq; [by eapply setCtrl_wf|]. intros h' r. rewrite lookup_abs by done.
  by setoid_rewrite (setCtrl_occ t slot h c Hh Hc Ho).
Qed.

(** ** Deletion *)

Lemma tombstone_occ t slot h :
  twf t -> 0 <= slot -> occ t (Z.to_nat slot) h ->
  forall j h', occ (tombstone t slot) j h' <-> occ t j h' /\ h' <> h.
Proof.
  intros Hw Hs Ho j h'. pose proof (occ_lt _ _ _ Ho) as Hlt. unfold occ at 1. simpl.
  destruct (decide (Z.to_nat slot = j)) as [<- |Hne].
  - rewrite list_lookup_insert_eq by done. split.
    + intros (c & [= <-] & _ & Hf & _). done.
    + intros [(? & _ & _ & _ & H') Hne]. destruct Ho as (? & _ & _ & _ & Ho). congruence.
  - rewrite list_lookup_insert_ne by done. fold (occ t j h'). split; [|tauto].
    intros Hj. split; [done|]. intros ->. by rewrite (tw_uniq t Hw _ _ h Ho Hj) in Hne.
Qed.

Lemma tombstone_wf t slot h :
  twf t -> 0 <= slot -> occ t (Z.to_nat slot) h -> twf (tombstone t slot).
Proof.
  intros Hw Hs Ho. pose proof (tombstone_occ t slot h Hw Hs Ho) as Hocc. pose proof (occ_lt _ _ _ Ho) as Hlt.
  assert (Hsl : slots (tombstone t slot) = slots t) by (unfold slots; simpl; by rewrite length_insert).
  pose proof Hw as [Hr Hhs Hp Hm Htag Hreach Huniq Hlive Htomb Hrm].
  destruct Ho as (c0 & Hc0 & Hn0 & Hn1 & Hh0).
  split; rewrite ?Hsl; simpl; rewrite ?length_insert; try done.
  - intros i c' h' Hc' Hh'. destruct (decide (Z.to_nat slot = i)) as [<- |Hne].
    + rewrite list_lookup_insert_eq in Hc' by done. injection Hc' as <-. by right; left.
    + rewrite list_lookup_insert_ne in Hc' by done. eauto.
  - intros i h' d Ho' Hd Hz. apply Hocc in Ho' as [Ho' _]. unfold pos in Hz. rewrite Hsl in Hz.
    destruct (decide (Z.to_nat slot = Z.to_nat (pos t h' d))) as [Heq|Hne].
    + unfold pos in Heq. rewrite <- Heq, list_lookup_insert_eq in Hz by done. done.
    + rewrite list_lookup_insert_ne in Hz by done. by apply (Hreach i h' d).
  - intros i j h' [Hi _]%Hocc [Hj _]%Hocc. eauto.
  - rewrite (cnt_insert _ _ _ _ _ Hc0), (proj2 (isOcc_spec c0)) by done. simpl. lia.
  - rewrite (cnt_insert _ _ _ _ _ Hc0), (isTomb_false c0) by done. simpl. lia.
  - lia.
Qed.

Lemma tombstone_abs t slot h :
  twf t -> 0 <= slot -> occ t (Z.to_nat slot) h -> abs (tombstone t slot) = delete h (abs t).
Proof.
  intros Hw Hs Ho. apply abs_eq; [by eapply tombstone_wf|]. intros h' r.
  setoid_rewrite (tombstone_occ t slot h Hw Hs Ho). rewrite lookup_delete_Some, lookup_abs by done. simpl. split.
  - intros (i & [Hi Hne] & Hr). split; [done|eauto].
  - intros [Hne (i & Hi & Hr)]. eauto.
Qed.

(** ** The operations on the represented map *)

Lemma upsert_ok t h ref :
  twf t -> fits 64 h -> live t + tomb t + 1 < slots t ->
  exists t' slot ins, upsert t h ref = Some (t', slot, ins) /\ twf t' /\
    abs t' = <[h := ref]> (abs t) /\ ins = bool_decide (abs t !! h = None) /\
    live t' = live t + (if ins then 1 else 0) /\ 0 <= tomb t' <= tomb t /\ slots t' = slots t /\
    0 <= slot < slots t /\ occ t' (Z.to_nat slot) h /\
    (ins = true -> exists tb, t' = place t slot h ref tb /\
       (ctrl t !! Z.to_nat slot = Some 0 \/ ctrl t !! Z.to_nat slot = Some 1)).
Proof.
  intros Hw Hh Hroom. destruct (upsert_spec t h ref Hw Hh) as (t' & slot & ins & Hup & Hres).
  exists t', slot, ins. split; [done|].
  destruct Hres as [(-> & Hs & Ho & ->) | (-> & Habs & d & tb & Hd & Hs & Hnz & Hfree & ->)].
  - split_and!; try done; [by apply setRef_wf|by apply setRef_abs| |simpl; lia|simpl|lia|lia].
    + rewrite bool_decide_false; [done|]. intros Hn. by apply (proj1 (abs_None t h Hw) Hn) in Ho.
    + rewrite (tw_tomb t Hw). apply cnt_nonneg.
  - assert (Hrg : 0 <= slot < slots t) by (rewrite Hs; by apply pos_range).
    assert (Hw' : twf (place t slot h ref tb)) by (by eapply place_wf).
    split_and!; try done.
    + apply place_abs; try done. tauto.
    + rewrite bool_decide_true; [done|]. by apply abs_None.
    + rewrite (tw_tomb _ Hw'). apply cnt_nonneg.
    + simpl. lia.
    + apply place_slots.
    + lia.
    + lia.
    + by apply place_occ_same.
    + intros _. exists tb. split; [done|tauto].
Qed.

Lemma under_threshold_room t :
  twf t -> overThreshold t = false -> live t + tomb t + 1 < slots t.
Proof.
  intros Hw Ho. apply Z.leb_gt in Ho. pose proof (slots_pos t Hw). unfold slots in *. lia.
Qed.

(** ** Construction *)

Lemma nextPow2_loop_ok fuel s n k :
  s = 2 ^ k -> 0 <= k -> n <= s * 2 ^ Z.of_nat fuel ->
  exists k', k <= k' /\ nextPow2_loop fuel s n = 2 ^ k' /\ n <= 2 ^ k' /\ (2 ^ k' = s \/ 2 ^ k' < 2 * n).
Proof.
  intros -> Hk. revert k Hk. induction fuel as [|fuel IH]; intros k Hk Hn; cbn [nextPow2_loop].
  - exists k. rewrite Z.mul_1_r in Hn. split_and!; try lia.
  - destruct (2 ^ k <? n) eqn:E1; [|apply Z.ltb_ge in E1; exists k; lia]. apply Z.ltb_lt in E1.
    rewrite Z.shiftl_mul_pow2 by lia. rewrite <- Z.pow_add_r by lia.
    destruct (IH (k + 1)) as (k' & ? & ? & ? & H'); [lia| |].
    { rewrite Nat2Z.inj_succ, Z.pow_succ_r in Hn by lia. rewrite Z.pow_add_r by lia. lia. }
    exists k'. split_and!; try done; [lia|]. right. destruct H' as [-> |]; [|done].
    rewrite Z.pow_add_r by lia. lia.
Qed.

Lemma nextPow2_ok n :
  n <= 2 ^ 62 -> exists k, 3 <= k /\ nextPow2 n = 2 ^ k /\ n <= 2 ^ k /\ (2 ^ k = 8 \/ 2 ^ k < 2 * n).
Proof.
  intros Hn. apply (nextPow2_loop_ok 64 minIndexSlots n 3); [done|lia|].
  change (minIndexSlots * 2 ^ Z.of_nat 64) with (2 ^ 67). lia.
Qed.

Lemma newIndexTable_ok n :
  0 <= n < 2 ^ 61 ->
  let t := newIndexTable n in
  twf t /\ abs t = empty /\ live t = 0 /\ tomb t = 0 /\ 2 * n + 1 <= slots t /\ forall i h, ~ occ t i h.
Proof.
  intros Hn t. destruct (nextPow2_ok (2 * n + 1)) as (k & Hk & Hp & Hle & _); [lia|].
  assert (Hpos : 0 < 2 ^ k) by (apply Z.pow_pos_nonneg; lia).
  assert (Hs : slots t = 2 ^ k).
  { unfold slots, t. cbn [newIndexTable ctrl]. rewrite length_replicate, Hp. lia. }
  assert (Hocc : forall i h, ~ occ t i h).
  { intros i h (c & Hc & H0 & _). apply lookup_replicate in Hc as [-> _]. done. }
  assert (Hw : twf t).
  { split; cbn [newIndexTable t ctrl refs hashes mask live tomb]; rewrite ?Hs; try done.
    - by exists k.
    - cbn [newIndexTable t mask]. lia.
    - intros i c h Hc _. apply lookup_replicate in Hc as [-> _]. by left.
    - intros i h d Ho. by destruct (Hocc i h).
    - intros i j h Ho. by destruct (Hocc i h).
    - by rewrite cnt_replicate.
    - by rewrite cnt_replicate. }
  split_and!; try done; [|lia]. apply abs_eq; [done|]. intros h r. rewrite lookup_empty. split; [|done].
  intros (i & Ho & _). by destruct (Hocc i h).
Qed.

(** ** Rehashing *)

(** The entry for [h] is live and carries the SIEVE hint. *)
Definition hot (t : indexTable) (h : Z) : Prop :=
  exists i, occ t i h /\ ctrl t !! i = Some (visited (tagFor h)).

Lemma visited_bit c h : fits 64 h -> tag_word c h ->
  negb (Z.land c ctrlVisited =? 0) = bool_decide (c = visited (tagFor h)).
Proof.
  intros Hh Hc. pose proof (tagFor_fits h Hh) as Ht.
  assert (Hbit : Z.land (tagFor h) ctrlVisited = 0).
  { change ctrlVisited with (2 ^ 17). apply Z.bits_inj'. intros i Hi.
    rewrite Z.land_spec, Z.pow2_bits_eqb, Z.bits_0 by lia.
    destruct (17 =? i) eqn:E1; [|by rewrite andb_false_r]. apply Z.eqb_eq in E1 as <-.
    rewrite (proj2 (proj1 (fits_bits 17 (tagFor h) ltac:(lia)) ltac:(unfold fits; lia))) by lia. done. }
  destruct Hc as [-> | ->].
  - rewrite Hbit, bool_decide_false; [done|]. rewrite visited_add by lia. lia.
  - rewrite bool_decide_true by done. unfold visited.
    rewrite Z.land_lor_distr_l, Hbit, Z.land_diag. done.
Qed.

Lemma place_hot t slot h ref tb :
  twf t -> fits 64 h -> (forall i, ~ occ t i h) -> 0 <= slot < slots t ->
  (ctrl t !! Z.to_nat slot = Some 0 \/ ctrl t !! Z.to_nat slot = Some 1) ->
  forall h', hot (place t slot h ref tb) h' <-> hot t h'.
Proof.
  intros Hw Hh Habs Hs Hfree h'. pose proof (tagFor_fits h Hh) as Ht. unfold hot.
  split; intros (i & Ho & Hc); exists i; destruct (decide (Z.to_nat slot = i)) as [<- |Hi].
  - apply place_occ_same in Ho as ->; [|done..]. simpl in Hc.
    rewrite list_lookup_insert_eq in Hc by (unfold slots in Hs; lia). injection Hc as Hc.
    rewrite visited_add in Hc by lia. lia.
  - simpl in Hc. rewrite list_lookup_insert_ne in Hc by done. by apply place_occ_other in Ho.
  - destruct Ho as (c & Hc' & ? & ? & _). destruct Hfree; congruence.
  - simpl. rewrite list_lookup_insert_ne by done. by rewrite place_occ_other.
Qed.

Lemma setCtrl_visited_hot t slot h :
  twf t -> fits 64 h -> occ t (Z.to_nat slot) h ->
  forall h', hot (setCtrl t slot (visited (tagFor h))) h' <-> hot t h' \/ h' = h.
Proof.
  intros Hw Hh Ho h'. pose proof (occ_lt _ _ _ Ho) as Hlt. unfold hot.
  pose proof (setCtrl_occ t slot h (visited (tagFor h)) Hh (or_intror eq_refl) Ho) as Hocc.
  setoid_rewrite Hocc. simpl. split.
  - intros (i & Hi & Hc). destruct (decide (Z.to_nat slot = i)) as [<- |Hne].
    + right. destruct Hi as (? & _ & _ & _ & Hi). destruct Ho as (? & _ & _ & _ & Ho). congruence.
    + rewrite list_lookup_insert_ne in Hc by done. eauto.
  - intros [(i & Hi & Hc)| ->].
    + exists i. split; [done|]. destruct (decide (Z.to_nat slot = i)) as [<- |Hne].
      * rewrite list_lookup_insert_eq by done.
        destruct Hi as (? & _ & _ & _ & Hi). destruct Ho as (? & _ & _ & _ & Ho). congruence.
      * by rewrite list_lookup_insert_ne.
    + exists (Z.to_nat slot). by rewrite list_lookup_insert_eq.
Qed.

(** A table under construction: no tombstones, room for every entry of the
    source table. *)
Definition growing (n : Z) (nt : indexTable) : Prop := twf nt /\ tomb nt = 0 /\ 2 * n + 1 <= slots nt.

Lemma rehash_slot_ok t nt i h r n :
  twf t -> growing n nt -> occ t i h -> refs t !! i = Some r -> abs nt !! h = None -> live nt + 1 <= n ->
  exists nt', rehash_slot t nt i = Some nt' /\ growing n nt' /\ live nt' = live nt + 1 /\
    abs nt' = <[h := r]> (abs nt) /\
    forall h', hot nt' h' <-> hot nt h' \/ (h' = h /\ ctrl t !! i = Some (visited (tagFor h))).
Proof.
  intros Hw (Hnw & Hnt & Hsz) Ho Hr Hn Hroom.
  destruct (occ_word t i h Hw Ho) as (c & Hc & Hh & Hf & Htw).
  pose proof (tag_word_occupied _ _ Hf Htw) as [H0 H1].
  destruct (upsert_ok nt h r Hnw Hf) as (nt1 & slot & ins & Hup & Hw1 & Habs & Hins & Hl & Htb & Hsl & Hrg & Ho1 & Hpl).
  { pose proof (cnt_nonneg isOcc (ctrl nt)). rewrite <- (tw_live nt Hnw) in *. lia. }
  rewrite bool_decide_true in Hins by done. subst ins. destruct (Hpl eq_refl) as (tb & -> & Hfree).
  assert (Hab : forall j, ~ occ nt j h) by (by apply abs_None).
  unfold rehash_slot. rewrite Hc. simpl. unfold ctrlEmpty, ctrlTombstone.
  rewrite (proj2 (Z.eqb_neq c 0) H0), (proj2 (Z.eqb_neq c 1) H1). cbn [orb].
  rewrite Hh, Hr. cbn [mbind option_bind]. rewrite Hup. cbn [mbind option_bind].
  rewrite (visited_bit c h Hf Htw). case_bool_decide as Hv.
  - eexists. split; [done|]. fold (visited (tagFor h)). split; [split_and!|split_and!].
    + eapply setCtrl_wf; [done|exact Hf|by right|done].
    + simpl in *. lia.
    + unfold slots in *. simpl in *. rewrite !length_insert in *. lia.
    + simpl in *. lia.
    + erewrite setCtrl_abs; [exact Habs|done|exact Hf|by right|done].
    + intros h'. rewrite setCtrl_visited_hot, place_hot by done. subst c. tauto.
  - eexists. split; [done|]. split; [split_and!|split_and!]; try done; try lia.
    intros h'. rewrite place_hot by done. split; [tauto|]. intros [?|[-> Hc']]; [done|congruence].
Qed.

Lemma entry_at_None t nt i : twf t -> entry_at t i = None -> (i < length (ctrl t))%nat ->
  rehash_slot t nt i = Some nt /\ forall h, ~ occ t i h.
Proof.
  intros Hw He Hi.
  assert (Hno : forall h, ~ occ t i h).
  { intros h Ho. destruct (lookup_lt_is_Some_2 (refs t) i) as [r Hr]; [by rewrite (tw_refs t Hw)|].
    rewrite (proj2 (entry_at_spec t i h r)) in He; done. }
  split; [|done]. destruct (lookup_lt_is_Some_2 (ctrl t) i Hi) as [c Hc].
  destruct (lookup_lt_is_Some_2 (hashes t) i) as [h Hh]; [by rewrite (tw_hashes t Hw)|].
  unfold rehash_slot. rewrite Hc. simpl.
  destruct (decide (c = 0)) as [-> |H0]; [done|]. destruct (decide (c = 1)) as [-> |H1]; [done|].
  destruct (Hno h). by exists c.
Qed.

Lemma rehash_from_ok t l : twf t -> NoDup l -> (forall i, i ∈ l -> (i < length (ctrl t))%nat) ->
  forall nt, growing (live t) nt ->
  live nt + Z.of_nat (length (omap (entry_at t) l)) <= live t ->
  (forall i h, i ∈ l -> occ t i h -> abs nt !! h = None) ->
  exists nt', rehash_from t nt l = Some nt' /\ growing (live t) nt' /\
    live nt' = live nt + Z.of_nat (length (omap (entry_at t) l)) /\
    abs nt' = list_to_map (omap (entry_at t) l) ∪ abs nt /\
    forall h, hot nt' h <-> hot nt h \/ exists i, i ∈ l /\ occ t i h /\ ctrl t !! i = Some (visited (tagFor h)).
Proof.
  intros Hw Hnd. induction Hnd as [|i l Hi Hnd IH]; intros Hlt nt Hg Hroom Hfresh.
  - exists nt. simpl. split_and!; try done; [lia|by rewrite map_empty_union|].
    intros h. split; [tauto|]. intros [?|(i & Hi & _)]; [done|]. by apply elem_of_nil in Hi.
  - cbn [rehash_from omap list_omap] in *.
    assert (Hlt' : forall j, j ∈ l -> (j < length (ctrl t))%nat) by (intros; apply Hlt; by apply list_elem_of_further).
    destruct (entry_at t i) as [[h r]|] eqn:Ee.
    + apply entry_at_spec in Ee as [Ho Hr]. simpl in Hroom.
      destruct (rehash_slot_ok t nt i h r (live t) Hw Hg Ho Hr) as (nt1 & -> & Hg1 & Hl1 & Habs1 & Hhot1).
      { by apply (Hfresh i); [apply list_elem_of_here|]. }
      { lia. }
      destruct (IH Hlt' nt1 Hg1) as (nt2 & Hn2 & Hg2 & Hl2 & Habs2 & Hhot2).
      { lia. }
      { intros j h' Hj Ho'. rewrite Habs1. rewrite lookup_insert_ne.
        - apply (Hfresh j); [by apply list_elem_of_further|done].
        - intros <-. by rewrite (tw_uniq t Hw i j h Ho Ho') in Hi. }
      exists nt2. simpl. split_and!; try done; [lia| |].
      * rewrite Habs2, Habs1. rewrite <- insert_union_r.
        { by rewrite insert_union_l. }
        apply not_elem_of_list_to_map. intros ([h' r'] & Heq & Hin)%list_elem_of_fmap. simpl in Heq. subst h'.
        apply list_elem_of_omap in Hin as (j & Hj & [Ho' _]%entry_at_spec).
        by rewrite (tw_uniq t Hw i j h Ho Ho') in Hi.
      * intros h'. rewrite Hhot2, Hhot1. setoid_rewrite elem_of_cons. split.
        -- intros [[?|[-> ?]]|(j & ? & ?)]; eauto 10.
        -- intros [?|(j & [-> |?] & Ho' & Hc)]; eauto 10. left. right.
           destruct Ho as (? & _ & _ & _ & Ho). pose proof Ho' as (? & _ & _ & _ & Ho'').
           rewrite Ho in Ho''. by injection Ho'' as <-.
    + destruct (entry_at_None t nt i Hw Ee) as [-> Hno]; [apply Hlt, list_elem_of_here|].
      destruct (IH Hlt' nt Hg Hroom) as (nt2 & Hn2 & Hg2 & Hl2 & Habs2 & Hhot2).
      { intros j h' Hj. apply Hfresh. by apply list_elem_of_further. }
      exists nt2. split_and!; try done. intros h. rewrite Hhot2. setoid_rewrite elem_of_cons. split.
      * intros [?|(j & ? & ?)]; eauto 10.
      * intros [?|(j & [-> |?] & Ho & ?)]; eauto 10. by destruct (Hno h).
Qed.

Lemma live_entries t : twf t -> live t = Z.of_nat (length (omap (entry_at t) (seq 0 (length (ctrl t))))).
Proof.
  intros Hw. rewrite (tw_live t Hw).
  assert (H : forall n m, (n + m = length (ctrl t))%nat ->
    cnt isOcc (drop n (ctrl t)) = Z.of_nat (length (omap (entry_at t) (seq n m)))).
  { intros n m. revert n. induction m as [|m IH]; intros n Hn.
    - rewrite drop_ge by lia. done.
    - destruct (lookup_lt_is_Some_2 (ctrl t) n) as [c Hc]; [lia|].
      destruct (lookup_lt_is_Some_2 (refs t) n) as [r Hr]; [rewrite (tw_refs t Hw); lia|].
      destruct (lookup_lt_is_Some_2 (hashes t) n) as [h Hh]; [rewrite (tw_hashes t Hw); lia|].
      rewrite (drop_S _ c) by done. cbn [cnt seq omap list_omap]. rewrite (IH (S n)) by lia.
      unfold entry_at at 2. rewrite Hc, Hh, Hr. simpl. destruct (isOcc c); simpl; lia. }
  by rewrite <- (H O (length (ctrl t))).
Qed.

Lemma rehashed_ok t :
  twf t -> live t < 2 ^ 61 ->
  exists t', rehashed t = Some t' /\ twf t' /\ abs t' = abs t /\ live t' = live t /\ tomb t' = 0 /\
    overThreshold t' = false /\ forall h, hot t' h <-> hot t h.
Proof.
  intros Hw Hl. pose proof (cnt_nonneg isOcc (ctrl t)) as Hnn. rewrite <- (tw_live t Hw) in Hnn.
  destruct (newIndexTable_ok (live t)) as (Hw0 & Habs0 & Hl0 & Ht0 & Hs0 & Ho0); [lia|].
  destruct (rehash_from_ok t (seq 0 (length (ctrl t))) Hw (NoDup_seq _ _)
    ltac:(intros i Hi%elem_of_seq; lia) (newIndexTable (live t))) as (t' & He & (Hw' & Ht' & Hs') & Hl' & Habs' & Hhot').
  - done.
  - rewrite <- live_entries by done. lia.
  - intros i h _ _. by rewrite Habs0.
  - rewrite <- live_entries in Hl' by done. exists t'. split_and!; try done.
    + rewrite Habs', Habs0, map_union_empty. done.
    + unfold overThreshold. apply Z.leb_gt. pose proof (slots_pos t' Hw'). unfold slots in *. lia.
    + intros h. rewrite Hhot'. unfold hot. split.
      * intros [(i & Ho & _)|(i & _ & ?)]; [by destruct (Ho0 i h)|eauto].
      * intros (i & Ho & Hc). right. exists i. split; [|done]. apply elem_of_seq.
        pose proof (occ_lt _ _ _ Ho). lia.
Qed.

Lemma hot_at t slot h : twf t -> occ t slot h -> hot t h <-> ctrl t !! slot = Some (visited (tagFor h)).
Proof.
  intros Hw Ho. split; [|by exists slot]. intros (i & Hi & Hc). by rewrite (tw_uniq t Hw slot i h).
Qed.

Lemma setVisited_ok t slot h r :
  twf t -> fits 64 h -> occ t (Z.to_nat slot) h ->
  exists t', setVisited t slot (tagFor h) r = Some t' /\ twf t' /\ abs t' = abs t /\
    forall h', hot t' h' <-> hot t h' \/ (h' = h /\ refs t !! Z.to_nat slot = Some r).
Proof.
  intros Hw Hh Ho. destruct (occ_word _ _ _ Hw Ho) as (c & Hc & _ & _ & Htw).
  destruct (lookup_lt_is_Some_2 (refs t) (Z.to_nat slot)) as [r0 Hr].
  { rewrite (tw_refs t Hw). by eapply occ_lt. }
  unfold setVisited. rewrite Hc, Hr. cbn [mbind option_bind].
  destruct (c =? tagFor h) eqn:Ec; cbn [negb].
  2:{ apply Z.eqb_neq in Ec. exists t. split_and!; try done. intros h'. split; [tauto|].
      intros [?|[-> _]]; [done|]. destruct Htw as [-> | ->]; [done|]. by exists (Z.to_nat slot). }
  destruct (r0 =? r) eqn:Er; cbn [negb].
  2:{ apply Z.eqb_neq in Er. exists t. split_and!; try done. intros h'. split; [tauto|].
      intros [?|[-> ?]]; [done|congruence]. }
  apply Z.eqb_eq in Er as ->. eexists. split; [done|].
  split; [eapply setCtrl_wf|split; [eapply setCtrl_abs|]]; try done; try by right.
  intros h'. fold (visited (tagFor h)). rewrite setCtrl_visited_hot by done. tauto.
Qed.

Lemma takeVisited_ok t slot h :
  twf t -> fits 64 h -> occ t (Z.to_nat slot) h ->
  exists t' b, takeVisited t slot (tagFor h) = Some (t', b) /\ twf t' /\ abs t' = abs t /\
    (b = true <-> hot t h) /\ forall h', hot t' h' <-> hot t h' /\ h' <> h.
Proof.
  intros Hw Hh Ho. destruct (occ_word _ _ _ Hw Ho) as (c & Hc & Hhs & _ & Htw).
  pose proof (tagFor_fits h Hh) as Ht. pose proof (occ_lt _ _ _ Ho) as Hlt.
  assert (Hne : tagFor h <> visited (tagFor h)) by (rewrite visited_add by lia; lia).
  unfold takeVisited. rewrite Hc. cbn [mbind option_bind]. fold (visited (tagFor h)).
  pose proof (hot_at t (Z.to_nat slot) h Hw Ho) as Hat. rewrite Hc in Hat.
  destruct (c =? visited (tagFor h)) eqn:Ec.
  - apply Z.eqb_eq in Ec as ->. do 2 eexists. split; [done|].
    assert (Hw' : twf (setCtrl t slot (tagFor h))) by (eapply setCtrl_wf; try done; by left).
    pose proof (setCtrl_occ t slot h (tagFor h) Hh (or_introl eq_refl) Ho) as Hocc.
    split; [done|]. split; [eapply setCtrl_abs; try done; by left|]. split; [by rewrite Hat|].
    intros h'. unfold hot. setoid_rewrite Hocc. simpl. split.
    + intros (i & Hi & Hci). destruct (decide (Z.to_nat slot = i)) as [<- |Hi'].
      * rewrite list_lookup_insert_eq in Hci by done. destruct Hi as (? & _ & _ & _ & Hi).
        rewrite Hhs in Hi. injection Hi as ->. congruence.
      * rewrite list_lookup_insert_ne in Hci by done. split; [eauto|]. intros ->.
        by rewrite (tw_uniq t Hw _ _ h Ho Hi) in Hi'.
    + intros [(i & Hi & Hci) Hh']. exists i. split; [done|].
      rewrite list_lookup_insert_ne; [done|]. intros <-.
      destruct Hi as (? & _ & _ & _ & Hi). congruence.
  - apply Z.eqb_neq in Ec. do 2 eexists. split; [done|]. split_and!; try done.
    + rewrite Hat. split; [done|]. intros [= ?]. done.
    + intros h'. split; [|tauto]. intros Hhot. split; [done|]. intros ->.
      apply Hat in Hhot. congruence.
Qed.

(** ** Claims *)

(** C24. An index table is a finite map from 64-bit hashes to references. On a
    well-formed table a lookup terminates and returns the reference the map
    holds; an insertion terminates, sets the key and reports whether it was
    absent; tombstoning the slot a lookup returned deletes the key. Each
    operation leaves the table well formed. *)
Theorem index_table_is_a_map t h ref :
  twf t -> fits 64 h ->
  (exists res, findSlot t h = Some res /\ abs t !! h = snd <$> res /\
     forall slot r, res = Some (slot, r) ->
       twf (tombstone t slot) /\ abs (tombstone t slot) = delete h (abs t)) /\
  (overThreshold t = false -> exists t' slot, upsert t h ref = Some (t', slot, bool_decide (abs t !! h = None)) /\
     twf t' /\ abs t' = <[h := ref]> (abs t)).
Proof.
  intros Hw Hh. split.
  - destruct (findSlot_spec t h Hw Hh) as (res & Hf & Hres). exists res. split; [done|].
    split; [by apply find_result_abs|]. intros slot r ->. destruct Hres as (? & ? & ?).
    split; [eapply tombstone_wf|eapply tombstone_abs]; eauto; lia.
  - intros Hroom%under_threshold_room; [|done].
    destruct (upsert_ok t h ref Hw Hh Hroom) as (t' & slot & ins & Hup & ? & ? & -> & _). eauto 10.
Qed.

(** A rehash keeps every entry: the new table is well formed, represents the
    same map, has no tombstones, is below the rehash threshold, and an entry
    carries the SIEVE visited hint exactly if it did before. *)
Theorem rehash_keeps_the_map t :
  twf t -> live t < 2 ^ 61 ->
  exists t', rehashed t = Some t' /\ twf t' /\ abs t' = abs t /\ live t' = live t /\ tomb t' = 0 /\
    overThreshold t' = false /\ forall h, hot t' h <-> hot t h.
Proof. apply rehashed_ok. Qed.

(** The SIEVE hint is a set of keys beside the map. Marking a live slot adds
    its key if the slot still holds the reference that was read, and nothing
    otherwise; taking the hint reports whether the key was in the set and
    removes it. Neither changes the represented map. *)
Theorem sieve_hint_is_a_set t slot h r :
  twf t -> fits 64 h -> occ t (Z.to_nat slot) h ->
  (exists t', setVisited t slot (tagFor h) r = Some t' /\ twf t' /\ abs t' = abs t /\
     forall h', hot t' h' <-> hot t h' \/ (h' = h /\ refs t !! Z.to_nat slot = Some r)) /\
  (exists t' b, takeVisited t slot (tagFor h) = Some (t', b) /\ twf t' /\ abs t' = abs t /\
     (b = true <-> hot t h) /\ forall h', hot t' h' <-> hot t h' /\ h' <> h).
Proof. intros. split; [by apply setVisited_ok|by apply takeVisited_ok]. Qed.

(** ** A concrete table *)

(** Hash 5 mapped to reference 7 in a fresh table. *)
Definition sample : indexTable :=
  match upsert (newIndexTable 3) 5 7 with Some (t, _, _) => t | None => newIndexTable 3 end.

Lemma sample_ok : twf sample /\ abs sample = {[ 5 := 7 ]}.
Proof.
  destruct (newIndexTable_ok 3) as (Hw & Ha & _); [lia|].
  destruct (upsert_ok (newIndexTable 3) 5 7 Hw) as (t' & slot & ins & Hup & Hw' & Ha' & _).
  - unfold fits. lia.
  - vm_compute. done.
  - unfold sample. rewrite Hup. split; [done|]. by rewrite Ha', Ha.
Qed.

Lemma index_table_is_a_map_witness :
  (exists slot r, findSlot sample 5 = Some (Some (slot, r)) /\ r = 7) /\
  exists t' slot, upsert sample 9 4 = Some (t', slot, true) /\ abs t' = <[9 := 4]> {[ 5 := 7 ]}.
Proof.
  destruct sample_ok as [Hw Ha]. split.
  - destruct (proj1 (index_table_is_a_map sample 5 0 Hw ltac:(unfold fits; lia))) as (res & Hf & Hr & _).
    rewrite Ha, lookup_singleton_eq in Hr. destruct res as [[slot r]|]; [|done].
    injection Hr as <-. eauto.
  - destruct (proj2 (index_table_is_a_map sample 9 4 Hw ltac:(unfold fits; lia)) eq_refl)
      as (t' & slot & Hup & _ & Ha'). rewrite Ha in Hup, Ha'. eauto.
Defined.

End IndexTable.
