(* ===== verification/CacheConfig.v ===== *)
(** * Cache configuration (src/cache/config.go): the fields the modelled code
    reads and those [Validate] checks. *)
From S2P Require Import Prelude.

Module CacheConfig.

Inductive AtCapPolicyT := PolicyRingbufEvict | PolicyRejectWrites | PolicyOther (n : Z).

#[export] Instance AtCapPolicyT_eq_dec : EqDecision AtCapPolicyT.
Proof. solve_decision. Defined.

(** [HasDataDir] is [DataDir != ""]; durations are in nanoseconds. *)
Record Config := MkConfig {
  NumShards : Z;
  PageSize : Z;
  MaxMemoryPerShard : Z;
  InitialPagesPerShard : Z;
  AtCapPolicy : AtCapPolicyT;
  TTLSweepIntervalMs : Z;
  HasDataDir : bool;
  Mlock : bool;
  Durable : bool;
  MsyncIntervalMs : Z;
  Replicated : bool;
  RelocatingEviction : bool;
  RelocateReserveIntervalMs : Z;
  AliasQuarantine : Z;
  ServerWriteTimeout : Z;
  SieveVisitedBit : bool;
  InPlaceSameSizeUpdate : bool;
  InPlaceSeqlockReads : bool;
}.

(** [defaultRelocateReserveIntervalMs] of relocate_reserve.go. *)
Definition defaultRelocateReserveIntervalMs : Z := 50.

Definition DefaultConfig : Config :=
  MkConfig 256 (16 * 2 ^ 20) (256 * 2 ^ 20) 0 PolicyRingbufEvict 1000 false false false 100
    false false defaultRelocateReserveIntervalMs 0 0 false false false.

Definition MaxPagesPerShard (c : Config) : Z := Z.quot (MaxMemoryPerShard c) (PageSize c).

(** The checks of [Validate], in order; the constructor names the failed one. *)
Inductive configErr :=
| badNumShards | numShardsNotPow2 | pageSizeSmall | pageSizeLarge | maxMemorySmall
| badInitialPages | initialPagesLarge | tooManyPages | badPolicy
| badTTLSweep | ttlSweepOverflow | badReserve | reserveOverflow
| mmapUnsupported | durableNeedsDir | mlockNeedsDir | msyncOverflow | badMsync
| badQuarantine | badWriteTimeout.

Definition maxIntervalMs : Z := Z.quot (2 ^ 63 - 1) 1000000.
Definition maxPagesPerShardCap : Z := 2 ^ 16 - 1.

Definition Validate (mmapSupported : bool) (c : Config) : outcome configErr unit :=
  if NumShards c <=? 0 then Err badNumShards
  else if negb (Z.land (NumShards c) (NumShards c - 1) =? 0) then Err numShardsNotPow2
  else if PageSize c <? 2 ^ 20 then Err pageSizeSmall
  else if 2 ^ 30 <? PageSize c then Err pageSizeLarge
  else if MaxMemoryPerShard c <? PageSize c then Err maxMemorySmall
  else if InitialPagesPerShard c <? 0 then Err badInitialPages
  else if MaxPagesPerShard c <? InitialPagesPerShard c then Err initialPagesLarge
  else if maxPagesPerShardCap <? MaxPagesPerShard c then Err tooManyPages
  else match AtCapPolicy c with PolicyOther _ => Err badPolicy | _ =>
  if TTLSweepIntervalMs c <? 0 then Err badTTLSweep
  else if maxIntervalMs <? TTLSweepIntervalMs c then Err ttlSweepOverflow
  else if RelocateReserveIntervalMs c <? 0 then Err badReserve
  else if maxIntervalMs <? RelocateReserveIntervalMs c then Err reserveOverflow
  else if HasDataDir c && negb mmapSupported then Err mmapUnsupported
  else if Durable c && negb (HasDataDir c) then Err durableNeedsDir
  else if Mlock c && negb (HasDataDir c) then Err mlockNeedsDir
  else if maxIntervalMs <? MsyncIntervalMs c then Err msyncOverflow
  else if MsyncIntervalMs c <? 1 then Err badMsync
  else if AliasQuarantine c <? 0 then Err badQuarantine
  else if ServerWriteTimeout c <? 0 then Err badWriteTimeout
  else Ok tt
  end.

(** The number of shards is a power of two. *)
Lemma pow2_of_land n : 0 < n -> Z.land n (n - 1) = 0 -> exists k, 0 <= k /\ n = 2 ^ k.
Proof.
  intros Hn Hl. set (k := Z.log2 n). pose proof (Z.log2_nonneg n) as Hk. fold k in Hk.
  pose proof (Z.log2_spec n Hn) as [Hlo Hhi]. fold k in Hlo, Hhi.
  exists k. split; [done|]. destruct (decide (n = 2 ^ k)) as [|Hne]; [done|]. exfalso.
  (* both n and n-1 have bit k *)
  assert (Hb : Z.testbit n k = true) by (apply Z.bit_log2; lia).
  assert (Hb1 : Z.testbit (n - 1) k = true).
  { assert (Z.log2 (n - 1) = k) as <- by (apply Z.log2_unique; lia). apply Z.bit_log2. lia. }
  apply (f_equal (fun x => Z.testbit x k)) in Hl. rewrite Z.land_spec, Hb, Hb1, Z.bits_0 in Hl. done.
Qed.

Lemma validate_facts mm c :
  Validate mm c = Ok tt ->
  (exists k, 0 <= k /\ NumShards c = 2 ^ k) /\ 2 ^ 20 <= PageSize c <= 2 ^ 30 /\
  1 <= MaxPagesPerShard c <= 65535 /\ 0 <= InitialPagesPerShard c <= MaxPagesPerShard c /\
  (AtCapPolicy c = PolicyRingbufEvict \/ AtCapPolicy c = PolicyRejectWrites) /\
  (Durable c = true -> HasDataDir c = true).
Proof.
  unfold Validate. intros H.
  destruct (NumShards c <=? 0) eqn:E1; [done|]. apply Z.leb_gt in E1.
  destruct (Z.land (NumShards c) (NumShards c - 1) =? 0) eqn:E2; [|done]. apply Z.eqb_eq in E2. cbn [negb] in H.
  destruct (PageSize c <? 2 ^ 20) eqn:E3; [done|]. apply Z.ltb_ge in E3.
  destruct (2 ^ 30 <? PageSize c) eqn:E4; [done|]. apply Z.ltb_ge in E4.
  destruct (MaxMemoryPerShard c <? PageSize c) eqn:E5; [done|]. apply Z.ltb_ge in E5.
  destruct (InitialPagesPerShard c <? 0) eqn:E6; [done|]. apply Z.ltb_ge in E6.
  destruct (MaxPagesPerShard c <? InitialPagesPerShard c) eqn:E7; [done|]. apply Z.ltb_ge in E7.
  destruct (maxPagesPerShardCap <? MaxPagesPerShard c) eqn:E8; [done|]. apply Z.ltb_ge in E8.
  split; [by apply pow2_of_land|]. split; [lia|].
  assert (1 <= MaxPagesPerShard c).
  { unfold MaxPagesPerShard. rewrite Z.quot_div_nonneg by lia. apply Z.div_le_lower_bound; lia. }
  change maxPagesPerShardCap with 65535 in E8. split; [lia|]. split; [lia|].
  assert (Hd : Durable c && negb (HasDataDir c) = false).
  { destruct (AtCapPolicy c); try done;
      repeat match type of H with (if ?b then _ else _) = _ => destruct b eqn:?; [done|] end; done. }
  split; [destruct (AtCapPolicy c); auto; done|].
  intros Hdur. rewrite Hdur in Hd. by destruct (HasDataDir c).
Qed.

(** A configuration [Validate] accepts has a sound geometry: the number of
    shards is a power of two (the shard selector masks with it), a page is
    between 1 MiB and 1 GiB, a shard has at least one page and at most 65535, so
    that page indexes fit their 16 bits, and the initial pages fit. *)
Theorem validate_geometry mm c :
  Validate mm c = Ok tt ->
  (exists k, 0 <= k /\ NumShards c = 2 ^ k) /\ 2 ^ 20 <= PageSize c <= 2 ^ 30 /\
  1 <= MaxPagesPerShard c <= 65535 /\ 0 <= InitialPagesPerShard c <= MaxPagesPerShard c /\
  (AtCapPolicy c = PolicyRingbufEvict \/ AtCapPolicy c = PolicyRejectWrites) /\
  (Durable c = true -> HasDataDir c = true).
Proof. apply validate_facts. Qed.

End CacheConfig.
