(* ===== verification/Shard.v ===== *)
(** * The cache shard (src/cache/shard.go, seqlock.go, sieve.go, ttl.go,
    relocate_evict.go, onremove.go).

    A shard is an index table over a list of pages. Every operation runs under
    the shard's mutex, so the model is the sequential semantics of the critical
    sections. The hash (xxhash) is a parameter; the clock, the nonce source and
    the header msync are an oracle [world] indexed by the number of calls made,
    so nothing is assumed about them. The removal callback is the trace
    [removed]. *)
From S2P Require Import Prelude CacheConfig SipHash Entry Page IndexTable.
Import Entry Page IndexTable.
Export CacheConfig.

Module Shard.

(** ** State *)

(** The counters of the shard. *)
Inductive stat :=
| cGets | cMisses | cPuts | cDels | cExpirations | cEvictions | cEvictionsLive | cRejects
| cPagesAlloc | cCorrupt | cCorruptBytes | cInPlaceUpdates | cSeqlockRetries | cSeqlockFallbacks
| cIndexRehashes | cEvictRelocations | cEvictRelocatedBytes.

#[export] Instance stat_eq_dec : EqDecision stat.
Proof. solve_decision. Defined.

Record shard := MkShard {
  tab : indexTable;
  pages : list page;
  genCounter : Z;
  writeIdx : Z;
  writeSeq : Z;
  nextVictim : Z;
  isMmap : bool;
  sieve : bool;
  shardKey : bytes;
  flushedThroughSeq : Z;
  lastAppliedStampMs : Z;
  ctr : stat -> Z;
  removed : list bytes;
  calls : nat;
}.

(** Assignments. *)
Definition setTab (s : shard) (t : indexTable) : shard :=
  MkShard t (pages s) (genCounter s) (writeIdx s) (writeSeq s) (nextVictim s) (isMmap s) (sieve s)
    (shardKey s) (flushedThroughSeq s) (lastAppliedStampMs s) (ctr s) (removed s) (calls s).
Definition setPages (s : shard) (ps : list page) : shard :=
  MkShard (tab s) ps (genCounter s) (writeIdx s) (writeSeq s) (nextVictim s) (isMmap s) (sieve s)
    (shardKey s) (flushedThroughSeq s) (lastAppliedStampMs s) (ctr s) (removed s) (calls s).
Definition setGenCounter (s : shard) (g : Z) : shard :=
  MkShard (tab s) (pages s) g (writeIdx s) (writeSeq s) (nextVictim s) (isMmap s) (sieve s)
    (shardKey s) (flushedThroughSeq s) (lastAppliedStampMs s) (ctr s) (removed s) (calls s).
Definition setWriteIdx (s : shard) (i : Z) : shard :=
  MkShard (tab s) (pages s) (genCounter s) i (writeSeq s) (nextVictim s) (isMmap s) (sieve s)
    (shardKey s) (flushedThroughSeq s) (lastAppliedStampMs s) (ctr s) (removed s) (calls s).
Definition setWriteSeq (s : shard) (n : Z) : shard :=
  MkShard (tab s) (pages s) (genCounter s) (writeIdx s) n (nextVictim s) (isMmap s) (sieve s)
    (shardKey s) (flushedThroughSeq s) (lastAppliedStampMs s) (ctr s) (removed s) (calls s).
Definition setNextVictim (s : shard) (i : Z) : shard :=
  MkShard (tab s) (pages s) (genCounter s) (writeIdx s) (writeSeq s) i (isMmap s) (sieve s)
    (shardKey s) (flushedThroughSeq s) (lastAppliedStampMs s) (ctr s) (removed s) (calls s).
Definition setLastAppliedStampMs (s : shard) (n : Z) : shard :=
  MkShard (tab s) (pages s) (genCounter s) (writeIdx s) (writeSeq s) (nextVictim s) (isMmap s) (sieve s)
    (shardKey s) (flushedThroughSeq s) n (ctr s) (removed s) (calls s).
Definition setCtr (s : shard) (c : stat -> Z) : shard :=
  MkShard (tab s) (pages s) (genCounter s) (writeIdx s) (writeSeq s) (nextVictim s) (isMmap s) (sieve s)
    (shardKey s) (flushedThroughSeq s) (lastAppliedStampMs s) c (removed s) (calls s).
Definition setRemoved (s : shard) (l : list bytes) : shard :=
  MkShard (tab s) (pages s) (genCounter s) (writeIdx s) (writeSeq s) (nextVictim s) (isMmap s) (sieve s)
    (shardKey s) (flushedThroughSeq s) (lastAppliedStampMs s) (ctr s) l (calls s).
Definition setCalls (s : shard) (n : nat) : shard :=
  MkShard (tab s) (pages s) (genCounter s) (writeIdx s) (writeSeq s) (nextVictim s) (isMmap s) (sieve s)
    (shardKey s) (flushedThroughSeq s) (lastAppliedStampMs s) (ctr s) (removed s) n.

(** What the operating system answers to the [n]-th call: the clock in
    milliseconds, a random nonce (or a failure), and whether a header msync
    succeeds; whether the clock is an injected [nowFn], and, if it is not, the
    nanoseconds the wall clock is past the millisecond. *)
Record world := MkWorld {
  clock : nat -> Z;
  randomNonce : nat -> option Z;
  msyncOk : nat -> bool;
  injected : bool;
  subMs : nat -> Z;
}.

Abbreviation M := (st shard cerr).

(** ** Expiry (ttl.go) *)

(** [time.Duration] is in nanoseconds; [Milliseconds()] truncates. *)
Definition expiryAtFrom (ttl nowMs : Z) : Z :=
  if ttl <=? 0 then 0 else u64 (nowMs + u64 (Z.quot ttl 1000000)).

Definition isExpired (expiryMs nowMs : Z) : bool :=
  negb (expiryMs =? 0) && (expiryMs <=? nowMs).

(** ** Primitive steps *)

Definition bumpBy (c : stat) (n : Z) : M unit :=
  modify (fun s => setCtr s (fun c' => if bool_decide (c' = c) then u64 (ctr s c + n) else ctr s c')).
Definition bump (c : stat) : M unit := bumpBy c 1.

(** [s.pages[i]]. *)
Definition pageAt (i : Z) : M page :=
  ps ← gets pages;
  if i <? 0 then panic else oget (ps !! Z.to_nat i).

(** Writing through the pointer [s.pages[i]], and replacing it. *)
Definition setPage (i : Z) (p : page) : M unit :=
  modify (fun s => setPages s (<[Z.to_nat i := p]> (pages s))).

Definition findSlotM (h : Z) : M (option (Z * Z)) := t ← gets tab; oget (findSlot t h).

Definition tombstoneM (slot : Z) : M unit := modify (fun s => setTab s (tombstone (tab s) slot)).

Definition upsertM (h ref : Z) : M (Z * bool) :=
  t ← gets tab;
  '(t, slot, inserted) ← oget (upsert t h ref);
  modify (fun s => setTab s t);; mret (slot, inserted).

Definition setVisitedM (slot tag ref : Z) : M unit :=
  t ← gets tab;
  t ← oget (setVisited t slot tag ref);
  modify (fun s => setTab s t).

Definition takeVisitedM (slot tag : Z) : M bool :=
  t ← gets tab;
  '(t, b) ← oget (takeVisited t slot tag);
  modify (fun s => setTab s t);; mret b.

(** [s.pages[i].Write(...)] and [s.pages[i].WriteAt(...)]. *)
Definition writeM (i : Z) (key value : bytes) (expiryMs meta : Z) : M (Z * Z) :=
  p ← pageAt i;
  '(p, off, n) ← lift (Write p key value expiryMs meta);
  setPage i p;; mret (off, n).

Definition writeAtM (i off : Z) (key value : bytes) (expiryMs meta : Z) : M unit :=
  p ← pageAt i;
  p ← lift (WriteAt p off key value expiryMs meta);
  setPage i p.

Definition fireOnRemove (key : bytes) : M unit := modify (fun s => setRemoved s (removed s ++ [key])).

Definition fireOnRemoveAt (p : page) (off : Z) : M unit :=
  match Read p off with
  | Ok (key, _, _) => fireOnRemove key
  | Err _ => mret tt
  | Panic => panic
  end.

(** ** Page versions (seqlock.go) *)

Definition seqlockStripesPerPage : Z := 64.
Definition seqlockStripeMask : Z := seqlockStripesPerPage - 1.
Definition seqlockMaxRetries : Z := 4.
Definition seqlockMaxRestarts : Z := 8.

Definition enableVersions (p : page) : page :=
  setVers p (Some (replicate (Z.to_nat seqlockStripesPerPage) 0)).

(** The stripe of an offset, [None] when the page has no versions. *)
Definition versionAt (p : page) (off : Z) : option nat :=
  match vers p with
  | None => None
  | Some _ => Some (Z.to_nat (Z.land (Z.shiftr off 8) seqlockStripeMask))
  end.

Definition loadVersion (p : page) (k : nat) : outcome cerr Z :=
  match vers p with
  | None => Panic
  | Some vs => match vs !! k with Some v => Ok v | None => Panic end
  end.

(** [ver.Add(1)]. *)
Definition addVersion (i : Z) (k : nat) : M unit :=
  p ← pageAt i;
  v ← lift (loadVersion p k);
  setPage i (setVers p (match vers p with Some vs => Some (<[k := u64 (v + 1)]> vs) | None => None end)).

Definition bumpVersionLocked (i off : Z) (fn : M unit) : M unit :=
  p ← pageAt i;
  match versionAt p off with
  | None => fn
  | Some k =>
      addVersion i k;;
      r ← try fn;
      addVersion i k;;
      match r with inl _ => mret tt | inr e => throw e end
  end.

Inductive lookupStatus := lkMiss | lkCorrupt | lkHit.

(** Value, expiry, reference and status of a probe. *)
Abbreviation lookup_res := (bytes * Z * Z * lookupStatus)%type.

(** ** Operations that depend on the configuration *)

Section Ops.
Variable hashKey : bytes -> Z.
Variable w : world.
Variable cfg : Config.

(** [s.now()]. *)
Definition now : M Z := fun s => (setCalls s (S (calls s)), Ok (clock w (calls s))).

Definition inPlaceEligible (s : shard) : bool :=
  if negb (InPlaceSameSizeUpdate cfg) then false
  else if negb (bool_decide (AtCapPolicy cfg = PolicyRingbufEvict)) then false
  else negb (isMmap s).

Definition seqlockReads (s : shard) : bool := InPlaceSeqlockReads cfg && inPlaceEligible s.

Definition needsReadLockForGet (s : shard) : bool :=
  if negb (bool_decide (AtCapPolicy cfg = PolicyRingbufEvict)) then false
  else if isMmap s then true
  else InPlaceSameSizeUpdate cfg && negb (seqlockReads s).

Definition sieveVisited : bool :=
  SieveVisitedBit cfg && RelocatingEviction cfg && bool_decide (AtCapPolicy cfg = PolicyRingbufEvict).

Definition nextGen : M Z :=
  g ← gets genCounter; modify (fun s => setGenCounter s (u16 (g + 1)));; mret g.

Definition freshHeapPageLocked : M page :=
  g ← nextGen;
  s ← gets id;
  let p := setGen (newHeapPage (PageSize cfg)) g in
  mret (if seqlockReads s then enableVersions p else p).

Definition allocHeapPageLocked : M Z :=
  p ← freshHeapPageLocked;
  idx ← gets (fun s => blen (pages s));
  (if idx <? MaxPagesPerShard cfg then mret tt else panic);;
  modify (fun s => setPages s (pages s ++ [p]));;
  bump cPagesAlloc;; mret idx.

(** [s.pageSlots[i].Load()]: the published page, [None] before it is
    allocated. The array has [MaxPagesPerShard] slots. *)
Definition pageSlot (s : shard) (i : Z) : outcome cerr (option page) :=
  if i <? MaxPagesPerShard cfg then Ok (pages s !! Z.to_nat i) else Panic.

(** ** Lookups (indextable.go, seqlock.go, shard.go) *)

(** The mark of an accessed slot. *)
Definition markVisited (s : shard) (i h r : Z) : outcome cerr indexTable :=
  if sieve s then
    match setVisited (tab s) i (tagFor h) r with Some t => Ok t | None => Panic end
  else Ok (tab s).

(** [indexTable.get]: probes the tag run and verifies the stored key. A page
    that is absent or of another generation is passed over: [rechaseSlot] finds
    the table live and the slot unchanged, and reports the entry gone. The
    result carries the table, which the SIEVE mark may change. *)
Fixpoint get_loop (fuel : nat) (s : shard) (key : bytes) (h i : Z) : outcome cerr (indexTable * lookup_res) :=
  match fuel with
  | O => Panic
  | S fuel =>
      let t := tab s in
      match ctrl t !! Z.to_nat i, refs t !! Z.to_nat i with
      | Some c, Some r =>
          if c =? ctrlEmpty then Ok (t, ([], 0, 0, lkMiss))
          else if negb (isTag c (tagFor h)) then get_loop fuel s key h (next t i)
          else
            p ← pageSlot s (SlabRef.pageIdx r);
            match p with
            | None => get_loop fuel s key h (next t i)
            | Some p =>
                if negb (gen p =? SlabRef.gen r) then get_loop fuel s key h (next t i)
                else
                  match Read p (SlabRef.offset r) with
                  | Panic => Panic
                  | Err _ => Ok (t, ([], 0, 0, lkCorrupt))
                  | Ok (k, val, e) =>
                      if negb (bool_decide (k = key)) then get_loop fuel s key h (next t i)
                      else t' ← markVisited s i h r; Ok (t', (val, e, r, lkHit))
                  end
            end
      | _, _ => Panic
      end
  end.

Definition get (s : shard) (key : bytes) (h : Z) : outcome cerr (indexTable * lookup_res) :=
  get_loop (probes (tab s)) s key h (Z.land h (mask (tab s))).

(** [indexTable.getSeq]: the same probe bracketed by the page version of the
    entry's stripe. The last component is [ok]: false sends the caller back. *)
Fixpoint getSeq_loop (fuel : nat) (s : shard) (dst key : bytes) (h i : Z)
  : outcome cerr (indexTable * lookup_res * bool) :=
  match fuel with
  | O => Panic
  | S fuel =>
      let t := tab s in
      match ctrl t !! Z.to_nat i, refs t !! Z.to_nat i with
      | Some c, Some r =>
          if c =? ctrlEmpty then Ok (t, (dst, 0, 0, lkMiss), true)
          else if negb (isTag c (tagFor h)) then getSeq_loop fuel s dst key h (next t i)
          else
            p ← pageSlot s (SlabRef.pageIdx r);
            match p with
            | None => getSeq_loop fuel s dst key h (next t i)
            | Some p =>
                if negb (gen p =? SlabRef.gen r) then getSeq_loop fuel s dst key h (next t i)
                else
                  match versionAt p (SlabRef.offset r) with
                  | None => Ok (t, (dst, 0, 0, lkMiss), false)
                  | Some k1 =>
                      v1 ← loadVersion p k1;
                      if negb (Z.land v1 1 =? 0) then Ok (t, (dst, 0, 0, lkMiss), false)
                      else
                        match Read p (SlabRef.offset r) with
                        | Panic => Panic
                        | Err _ =>
                            v2 ← loadVersion p k1;
                            if negb (v2 =? v1) then Ok (t, (dst, 0, 0, lkMiss), false)
                            else Ok (t, (dst, 0, 0, lkCorrupt), true)
                        | Ok (k, val, e) =>
                            v2 ← loadVersion p k1;
                            if negb (bool_decide (k = key)) then
                              if negb (v2 =? v1) then Ok (t, (dst, 0, 0, lkMiss), false)
                              else getSeq_loop fuel s dst key h (next t i)
                            else if negb (v2 =? v1) then Ok (t, (dst, 0, 0, lkMiss), false)
                            else t' ← markVisited s i h r; Ok (t', (dst ++ val, e, r, lkHit), true)
                        end
                  end
            end
      | _, _ => Panic
      end
  end.

Definition getSeq (s : shard) (dst key : bytes) (h : Z) : outcome cerr (indexTable * lookup_res * bool) :=
  getSeq_loop (probes (tab s)) s dst key h (Z.land h (mask (tab s))).

(** Both probes, as steps on the shard. *)
Definition getM (key : bytes) (h : Z) : M lookup_res :=
  s ← gets id; '(t, res) ← lift (get s key h); modify (fun s => setTab s t);; mret res.

Definition getSeqM (dst key : bytes) (h : Z) : M (lookup_res * bool) :=
  s ← gets id; '(t, res, ok) ← lift (getSeq s dst key h); modify (fun s => setTab s t);; mret (res, ok).

(** [attempt] counts up to [seqlockMaxRetries]. *)
Fixpoint getSeqRetry_loop (n : nat) (attempt : Z) (dst key : bytes) (h : Z) : M (lookup_res * bool) :=
  match n with
  | O =>
      bumpBy cSeqlockRetries seqlockMaxRetries;; bump cSeqlockFallbacks;;
      mret ((dst, 0, 0, lkMiss), false)
  | S n =>
      '(res, ok) ← getSeqM dst key h;
      if ok : bool then
        (if 0 <? attempt then bumpBy cSeqlockRetries attempt else mret tt);; mret (res, true)
      else getSeqRetry_loop n (attempt + 1) dst key h
  end.

Definition getSeqRetry (dst key : bytes) (h : Z) : M (lookup_res * bool) :=
  getSeqRetry_loop (Z.to_nat seqlockMaxRetries) 0 dst key h.

(** Drops the slot of an expired entry if it still names the copy that was
    read. *)
Definition dropExpiredLocked (key : bytes) (h ref now : Z) : M unit :=
  r ← findSlotM h;
  match r with
  | None => mret tt
  | Some (slot, cur) =>
      if negb (cur =? ref) then mret tt
      else
        s ← gets id;
        let idx := SlabRef.pageIdx cur in
        if blen (pages s) <=? idx then mret tt
        else
          p ← pageAt idx;
          if negb (gen p =? SlabRef.gen cur) then mret tt
          else
            match Read p (SlabRef.offset cur) with
            | Panic => panic
            | Err _ => mret tt
            | Ok (storedKey, _, storedExp) =>
                if negb (bool_decide (storedKey = key)) then mret tt
                else if negb (isExpired storedExp now) then mret tt
                else tombstoneM slot;; bump cExpirations;; fireOnRemove key
            end
  end.

Definition resolveLookup (res : lookup_res) (key : bytes) (h now : Z) (allowPhysicalRemove : bool)
  : M (bytes * Z) :=
  let '(v, exp, ref, st) := res in
  match st with
  | lkCorrupt => bump cCorrupt;; bump cMisses;; throw ErrNotFound
  | lkMiss => bump cMisses;; throw ErrNotFound
  | lkHit =>
      if isExpired exp now then
        (if allowPhysicalRemove then dropExpiredLocked key h ref now else mret tt);;
        bump cMisses;; throw ErrNotFound
      else mret (v, exp)
  end.

Definition getLockedCore (key : bytes) (h now : Z) (allow : bool) : M (bytes * Z) :=
  res ← getM key h; resolveLookup res key h now allow.

Definition getCore (key : bytes) (h now : Z) (allow : bool) : M (bytes * Z) :=
  bump cGets;;
  s ← gets id;
  if seqlockReads s then
    '(res, ok) ← getSeqRetry [] key h;
    if ok : bool then resolveLookup res key h now allow else getLockedCore key h now allow
  else if needsReadLockForGet s then getLockedCore key h now allow
  else res ← getM key h; resolveLookup res key h now allow.

(** The variants that append the value to [dst]. *)
Definition appendTo (dst : bytes) (res : lookup_res) : lookup_res :=
  let '(v, exp, ref, st) := res in
  match st with lkHit => (dst ++ v, exp, ref, st) | _ => res end.

Definition getIntoLockedCore (dst key : bytes) (h now : Z) (allow : bool) : M (bytes * Z) :=
  res ← getM key h; resolveLookup (appendTo dst res) key h now allow.

Definition getIntoCore (dst key : bytes) (h now : Z) (allow : bool) : M (bytes * Z) :=
  bump cGets;;
  s ← gets id;
  if seqlockReads s then
    '(res, ok) ← getSeqRetry dst key h;
    if ok : bool then resolveLookup res key h now allow else getIntoLockedCore dst key h now allow
  else if needsReadLockForGet s then getIntoLockedCore dst key h now allow
  else res ← getM key h; resolveLookup (appendTo dst res) key h now allow.

Definition advanceAppliedStamp (stampMs : Z) : M unit :=
  modify (fun s => if stampMs <=? lastAppliedStampMs s then s else setLastAppliedStampMs s stampMs).

(** The client read and the read of the replicated apply path. *)
Definition getH (key : bytes) (h : Z) : M bytes :=
  n ← now; '(v, _) ← getCore key h n (negb (Replicated cfg)); mret v.

Definition getWithExpiryH (key : bytes) (h : Z) : M (bytes * Z) :=
  n ← now; getCore key h n (negb (Replicated cfg)).

Definition getWithExpiryAtH (key : bytes) (h nowMs : Z) : M (bytes * Z) :=
  advanceAppliedStamp nowMs;; getCore key h nowMs true.

Definition getAtH (key : bytes) (h nowMs : Z) : M bytes :=
  advanceAppliedStamp nowMs;; '(v, _) ← getCore key h nowMs true; mret v.

Definition Get (key : bytes) : M bytes := getH key (hashKey key).

(** ** Page reuse (mmap) *)

(** Rotates the nonce of a page about to be reused and makes its zeroed header
    durable. *)
Definition zeroDurableBoundsForReuseLocked (idx : Z) : M unit :=
  s ← gets id;
  if negb (isMmap s) then mret tt
  else
    p ← pageAt idx;
    n ← gets calls; modify (fun s => setCalls s (S (calls s)));;
    match randomNonce w n with
    | None => throw ErrReuseBarrier
    | Some nc =>
        p ← lift (projectNonce (setNonce p nc) nc);
        p ← lift (projectBounds p 0 0);
        setPage idx p;;
        n ← gets calls; modify (fun s => setCalls s (S (calls s)));;
        if msyncOk w n then mret tt else throw ErrReuseBarrier
    end.

(** Makes bounds corrected by recovery durable. *)
Definition flushRecoveredBoundsLocked (idx : Z) : M unit :=
  s ← gets id;
  if negb (isMmap s) then mret tt
  else
    p ← pageAt idx;
    p ← lift (projectBounds p (head p) (tail p));
    setPage idx p;;
    n ← gets calls; modify (fun s => setCalls s (S (calls s)));;
    if msyncOk w n then mret tt else throw ErrReuseBarrier.

Definition clearReuseBarrierIfFlushableLocked (idx : Z) : M bool :=
  r ← try (zeroDurableBoundsForReuseLocked idx);
  match r with
  | inr _ => mret false
  | inl _ => p ← pageAt idx; setPage idx (setReuseBarrierFailed p false);; mret true
  end.

(** ** Finding room *)

Definition maxEntryBytes (s : shard) : Z :=
  if isMmap s then PageSize cfg - pageHdrSize else PageSize cfg.

(** The first page with room, or -1; [n] pages are left from [i] on. *)
Fixpoint firstPageWithRoom_loop (n : nat) (i need : Z) : M Z :=
  match n with
  | O => mret (-1)
  | S n =>
      p ← pageAt i;
      if retired p then firstPageWithRoom_loop n (i + 1) need
      else if FreeTail p <? need then firstPageWithRoom_loop n (i + 1) need
      else
        blocked ← (if reuseBarrierFailed p then
                     b ← clearReuseBarrierIfFlushableLocked i; mret (negb b)
                   else mret false);
        if blocked : bool then firstPageWithRoom_loop n (i + 1) need else mret i
  end.

Definition firstPageWithRoomLocked (need : Z) : M Z :=
  n ← gets (fun s => length (pages s)); firstPageWithRoom_loop n 0 need.

(** The next non-empty page from [nextVictim] on, other than [skip], or -1;
    [n] offsets are left from [off] on. *)
Fixpoint nextNonEmptyPage_loop (n : nat) (off skip : Z) : M Z :=
  match n with
  | O => mret (-1)
  | S n =>
      s ← gets id;
      let i := Z.rem (nextVictim s + off) (blen (pages s)) in
      if i =? skip then nextNonEmptyPage_loop n (off + 1) skip
      else
        p ← pageAt i;
        if negb (Empty p) then mret i else nextNonEmptyPage_loop n (off + 1) skip
  end.

Definition nextNonEmptyPageLocked (skip : Z) : M Z :=
  n ← gets (fun s => length (pages s)); nextNonEmptyPage_loop n 0 skip.

(** ** Eviction *)

(** Drops the index slot of an entry of a victim page, if the slot names this
    copy; [ok] is whether it did. *)
Definition dropIfCurrent (key : bytes) (ref : Z) : M bool :=
  r ← findSlotM (hashKey key);
  match r with
  | Some (slot, cur) => if cur =? ref then tombstoneM slot;; mret true else mret false
  | None => mret false
  end.

(** The walk of [retirePageLocked] over the entries of the frozen page [old]. *)
Fixpoint retire_walk (fuel : nat) (idx : Z) (old : page) (now cursor : Z) : M unit :=
  match fuel with
  | O => panic
  | S fuel =>
      if tail old <=? cursor then mret tt
      else
        src ← lift (slice (entries old) cursor (tail old));
        match decodeEntryFast src with
        | Panic => panic
        | Err _ => mret tt
        | Ok (key, value, expiryMs) =>
            let ref := SlabRef.makeSlabRef (u16 idx) (gen old) (u32 cursor) in
            hit ← dropIfCurrent key ref;
            (if hit : bool then
               (if isExpired expiryMs now then bump cExpirations else bump cEvictionsLive);;
               fireOnRemove key
             else mret tt);;
            bump cEvictions;;
            retire_walk fuel idx old now (cursor + entrySpan (blen key) (blen value) true)
        end
  end.

Definition retirePageLocked (idx : Z) : M unit :=
  old ← pageAt idx;
  n ← now;
  retire_walk (S (length (entries old))) idx old n (head old);;
  fresh ← freshHeapPageLocked;
  setPage idx fresh.

(** ** Resynchronisation after a damaged entry *)

(** The first offset from [c] on at which a MAC-verified entry starts; the
    hashing budget bounds the work. *)
Fixpoint resync_loop (n : nat) (ent : bytes) (c tl : Z) (fk : bytes) (nonce budget hashed : Z)
  : outcome cerr (Z * bool) :=
  match n with
  | O => Ok (tl, false)
  | S n =>
      if tl <=? c then Ok (tl, false)
      else if tl <? c + entryHeaderSize then resync_loop n ent (c + 1) tl fk nonce budget hashed
      else
        keyLen ← (b ← slice ent c (c + 2); le_get 2 b);
        valLen ← (b ← slice ent (c + 2) (c + 6); le_get 4 b);
        if (valLen <? 0) || (tl - c - entryHeaderSize - keyLen <? valLen)
        then resync_loop n ent (c + 1) tl fk nonce budget hashed
        else
          let hashed := hashed + (entryHeaderSize + keyLen + valLen) in
          if budget <? hashed then Ok (tl, false)
          else
            src ← slice ent c tl;
            match decodeEntry src fk nonce (u32 c) with
            | Ok _ => Ok (c, true)
            | Err _ => resync_loop n ent (c + 1) tl fk nonce budget hashed
            | Panic => Panic
            end
  end.

Definition resyncForward (ent : bytes) (start tl : Z) (fk : bytes) (nonce : Z) : outcome cerr (Z * bool) :=
  resync_loop (S (Z.to_nat (tl - start))) ent start tl fk nonce (2 * blen ent) 0.

(** The references of the table's occupied slots, slot by slot. *)
Definition slotRef (s : shard) (i : nat) : option (Z * Z) :=
  match ctrl (tab s) !! i, refs (tab s) !! i, hashes (tab s) !! i with
  | Some c, Some r, Some h => if (c =? ctrlEmpty) || (c =? ctrlTombstone) then None else Some (r, h)
  | _, _, _ => None
  end.

Fixpoint dropDamaged_loop (l : list nat) (victim g lo hi : Z) : M unit :=
  match l with
  | [] => mret tt
  | i :: l =>
      s ← gets id;
      (match slotRef s i with
       | None => mret tt
       | Some (ref, _) =>
           if negb (SlabRef.pageIdx ref =? victim) || negb (SlabRef.gen ref =? g) then mret tt
           else if (SlabRef.offset ref <? lo) || (hi <=? SlabRef.offset ref) then mret tt
           else tombstoneM (Z.of_nat i);; bump cEvictions
       end);;
      dropDamaged_loop l victim g lo hi
  end.

Definition dropDamagedSlotsLocked (victim g lo hi : Z) : M unit :=
  n ← gets (fun s => length (ctrl (tab s))); dropDamaged_loop (seq 0 n) victim g lo hi.

Fixpoint discardCorrupt_loop (l : list nat) (victim : Z) (p : page) (now : Z) : M unit :=
  match l with
  | [] => mret tt
  | i :: l =>
      s ← gets id;
      (match slotRef s i with
       | None => mret tt
       | Some (ref, h) =>
           if negb (SlabRef.pageIdx ref =? victim) || negb (SlabRef.gen ref =? gen p) then mret tt
           else
             tombstoneM (Z.of_nat i);; bump cEvictions;;
             match Read p (SlabRef.offset ref) with
             | Panic => panic
             | Err _ => mret tt
             | Ok (key, _, exp) =>
                 if negb (hashKey key =? h) then mret tt
                 else
                   (if negb (isExpired exp now) then bump cEvictionsLive else mret tt);;
                   fireOnRemove key
             end
       end);;
      discardCorrupt_loop l victim p now
  end.

Definition barrierOrPoison (victim : Z) : M unit :=
  r ← try (zeroDurableBoundsForReuseLocked victim);
  match r with
  | inl _ => mret tt
  | inr e => p ← pageAt victim; setPage victim (setReuseBarrierFailed p true);; throw e
  end.

Definition discardCorruptPageLocked (victim discarded now : Z) : M unit :=
  p ← pageAt victim;
  bumpBy cCorruptBytes discarded;; bump cCorrupt;;
  n ← gets (fun s => length (ctrl (tab s)));
  discardCorrupt_loop (seq 0 n) victim p now;;
  setPage victim (Reset p);;
  barrierOrPoison victim.

(** Whether the bounds of a page are outside its entry region. *)
Definition badBounds (p : page) : bool :=
  (head p <? 0) || (tail p <? head p) || (blen (entries p) <? tail p).

(** The loop of [drainPageLocked]; the result is whether the page was
    discarded as corrupt. *)
Fixpoint drain_loop (fuel : nat) (victim now : Z) : M bool :=
  match fuel with
  | O => panic
  | S fuel =>
      p ← pageAt victim;
      if Empty p then mret false
      else if badBounds p then
        discardCorruptPageLocked victim (blen (entries p)) now;; mret true
      else
        let h := head p in
        let tl := tail p in
        let off := u32 h in
        src ← lift (slice (entries p) h tl);
        match decodeEntry src (framingKey p) (nonce p) off with
        | Panic => panic
        | Err _ =>
            '(resumeAt, _) ← lift (resyncForward (entries p) (h + 1) tl (framingKey p) (nonce p));
            bumpBy cCorruptBytes (resumeAt - h);; bump cCorrupt;;
            dropDamagedSlotsLocked victim (gen p) off (u32 resumeAt);;
            setPage victim (if tl <=? resumeAt then setTail (setHead p 0) 0 else setHead p resumeAt);;
            drain_loop fuel victim now
        | Ok (evictedKey, evictedVal, headExpiryMs, _) =>
            let newHead := h + entrySpanExact (blen evictedKey) (blen evictedVal) in
            let ref := SlabRef.makeSlabRef (u16 victim) (gen p) off in
            hit ← dropIfCurrent evictedKey ref;
            (if hit : bool then
               (if negb (isExpired headExpiryMs now) then bump cEvictionsLive else mret tt);;
               fireOnRemove evictedKey
             else mret tt);;
            bump cEvictions;;
            setPage victim (if tl <=? newHead then setTail (setHead p 0) 0 else setHead p newHead);;
            drain_loop fuel victim now
        end
  end.

Definition drainPageLocked (victim : Z) : M unit :=
  n ← now;
  p ← pageAt victim;
  discarded ← drain_loop (S (S (length (entries p)))) victim n;
  if discarded : bool then mret tt else barrierOrPoison victim.

(** ** Relocating eviction (relocate_evict.go) *)

Definition relocateMaxBytesPerEvictionDivisor : Z := 2.

(** The copy loop: walks the live entries of page [src] and appends those worth
    keeping to page [dst], within [budget]. Returns the entries and bytes moved. *)
Fixpoint relocate_loop (fuel : nat) (dst src : Z) (now budget cursor spent moved movedBytes : Z) : M (Z * Z) :=
  match fuel with
  | O => panic
  | S fuel =>
      p ← pageAt src;
      if tail p <=? cursor then mret (moved, movedBytes)
      else
        b ← lift (slice (entries p) cursor (tail p));
        match decodeEntryFast b with
        | Panic => panic
        | Err _ => mret (moved, movedBytes)
        | Ok (key, value, expiryMs) =>
            let size := entrySpan (blen key) (blen value) true in
            if budget - spent <? entryHeaderSize then mret (moved, movedBytes)
            else
              let ref := SlabRef.makeSlabRef (u16 src) (gen p) (u32 cursor) in
              let h := hashKey key in
              let skip := relocate_loop fuel dst src now budget (cursor + size) spent moved movedBytes in
              r ← findSlotM h;
              match r with
              | None => skip
              | Some (slot, cur) =>
                  if negb (cur =? ref) then skip
                  else if isExpired expiryMs now then skip
                  else
                    s ← gets id;
                    cold ← (if sieve s then b ← takeVisitedM slot (tagFor h); mret (negb b) else mret false);
                    if cold : bool then skip
                    else if budget <? spent + size then skip
                    else
                      newSeq ← gets (fun s => u64 (writeSeq s + 1));
                      wr ← try (writeM dst key value expiryMs (makeMeta newSeq false));
                      match wr with
                      | inr _ => mret (moved, movedBytes)
                      | inl (off, _) =>
                          modify (fun s => setWriteSeq s newSeq);;
                          d ← pageAt dst;
                          upsertM h (SlabRef.makeSlabRef (u16 dst) (gen d) off);;
                          relocate_loop fuel dst src now budget (cursor + size) (spent + size)
                            (u64 (moved + 1)) (u64 (movedBytes + u64 size))
                      end
              end
        end
  end.

Definition relocateIntoFreedPageLocked (freedIdx need : Z) : M (Z * Z) :=
  dst ← pageAt freedIdx;
  let maxBytes := Z.quot (PageSize cfg) relocateMaxBytesPerEvictionDivisor in
  let budget := FreeTail dst - need in
  let budget := if maxBytes <? budget then maxBytes else budget in
  if budget <=? 0 then mret (0, 0)
  else
    src ← nextNonEmptyPageLocked freedIdx;
    if src <? 0 then mret (0, 0)
    else
      p ← pageAt src;
      n ← now;
      '(moved, movedBytes) ← relocate_loop (S (length (entries p))) freedIdx src n budget (head p) 0 0 0;
      p ← pageAt src;
      setPage src (addRelocatedOut p movedBytes);;
      mret (moved, movedBytes).

Definition noteEvictRelocation (moved movedBytes : Z) : M unit :=
  if moved =? 0 then mret tt
  else bumpBy cEvictRelocatedBytes movedBytes;; bumpBy cEvictRelocations moved.

Definition evictVictimLocked (victim need : Z) : M unit :=
  s ← gets id;
  (if negb (isMmap s) then retirePageLocked victim else drainPageLocked victim);;
  if RelocatingEviction cfg then
    '(moved, movedBytes) ← relocateIntoFreedPageLocked victim need;
    noteEvictRelocation moved movedBytes
  else mret tt.

(** [for { ... }] until a page has room. *)
Fixpoint evictUntilFits_loop (fuel : nat) (need : Z) : M Z :=
  match fuel with
  | O => panic
  | S fuel =>
      idx ← firstPageWithRoomLocked need;
      if 0 <=? idx then mret idx
      else
        victim ← nextNonEmptyPageLocked (-1);
        if victim <? 0 then throw ErrCannotEvict
        else
          modify (fun s => setNextVictim s (Z.rem (victim + 1) (blen (pages s))));;
          evictVictimLocked victim need;;
          evictUntilFits_loop fuel need
  end.

Definition evictUntilFitsLocked (need : Z) : M Z :=
  n ← gets (fun s => length (pages s)); evictUntilFits_loop (S (S n)) need.

Definition findOrMakePageLocked (need : Z) : M Z :=
  s ← gets id;
  if maxEntryBytes s <? need then throw errEntryTooLarge
  else
    fits ← (if writeIdx s <? blen (pages s) then
              p ← pageAt (writeIdx s);
              mret (negb (reuseBarrierFailed p) && (need <=? FreeTail p))
            else mret false);
    if fits : bool then mret (writeIdx s)
    else
      idx ← firstPageWithRoomLocked need;
      if 0 <=? idx then modify (fun s => setWriteIdx s idx);; mret idx
      else
        s ← gets id;
        if negb (isMmap s) && (blen (pages s) <? MaxPagesPerShard cfg) then
          idx ← allocHeapPageLocked;
          p ← pageAt idx;
          if FreeTail p <? need then throw errEntryTooLarge
          else modify (fun s => setWriteIdx s idx);; mret idx
        else
          match AtCapPolicy cfg with
          | PolicyRingbufEvict =>
              idx ← evictUntilFitsLocked need;
              modify (fun s => setWriteIdx s idx);; mret idx
          | PolicyRejectWrites => bump cRejects;; throw ErrFull
          | PolicyOther _ => throw errUnknownPolicy
          end.

Definition rehashIfOverThresholdLocked : M unit :=
  t ← gets tab;
  if negb (overThreshold t) then mret tt
  else t ← oget (rehashed t); modify (fun s => setTab s t);; bump cIndexRehashes.

(** ** Put *)

Record inPlaceTarget := MkTarget { tgtPage : Z; tgtOff : Z; tgtSlot : Z; tgtRef : Z }.

Definition inPlaceTargetLocked (key value : bytes) (h : Z) : M (option inPlaceTarget) :=
  r ← findSlotM h;
  match r with
  | None => mret None
  | Some (slot, ref) =>
      s ← gets id;
      let idx := SlabRef.pageIdx ref in
      if blen (pages s) <=? idx then mret None
      else
        p ← pageAt idx;
        if negb (gen p =? SlabRef.gen ref) then mret None
        else
          let off := SlabRef.offset ref in
          match Read p off with
          | Panic => panic
          | Err _ => mret None
          | Ok (storedKey, storedVal, storedExp) =>
              if negb (bool_decide (storedKey = key)) then mret None
              else if negb (blen storedVal =? blen value) then mret None
              else if (off <? head p) || (tail p <? off + entrySpan (blen key) (blen value) true) then mret None
              else
                dead ← (if negb (storedExp =? 0) then n ← now; mret (isExpired storedExp n) else mret false);
                if dead : bool then mret None else mret (Some (MkTarget idx off slot ref))
          end
  end.

(** The in-place update of [putAtExpLocked]; true when it was done. *)
Definition putInPlace (key value : bytes) (exp h : Z) : M bool :=
  s ← gets id;
  if negb (inPlaceEligible s) then mret false
  else
    tgt ← inPlaceTargetLocked key value h;
    match tgt with
    | None => mret false
    | Some tgt =>
        seq ← gets (fun s => u64 (writeSeq s + 1));
        werr ← try (bumpVersionLocked (tgtPage tgt) (tgtOff tgt)
                      (writeAtM (tgtPage tgt) (tgtOff tgt) key value exp (makeMeta seq false)));
        match werr with
        | inr _ => mret false
        | inl _ =>
            modify (fun s => setWriteSeq s seq);; bump cInPlaceUpdates;;
            s ← gets id;
            (if sieve s then setVisitedM (tgtSlot tgt) (tagFor h) (tgtRef tgt) else mret tt);;
            mret true
        end
    end.

Definition putAtExpLocked (key value : bytes) (exp h : Z) : M unit :=
  bump cPuts;;
  done ← putInPlace key value exp h;
  if done : bool then mret tt
  else
    pageIdx ← findOrMakePageLocked (entrySpan (blen key) (blen value) true);
    modify (fun s => setWriteSeq s (u64 (writeSeq s + 1)));;
    seq ← gets writeSeq;
    '(off, _) ← writeM pageIdx key value exp (makeMeta seq false);
    p ← pageAt pageIdx;
    let ref := SlabRef.makeSlabRef (u16 pageIdx) (gen p) off in
    '(slot, inserted) ← upsertM h ref;
    s ← gets id;
    (if sieve s && negb inserted then setVisitedM slot (tagFor h) ref else mret tt);;
    rehashIfOverThresholdLocked.

(** [time.Now().Add(ttl).UnixMilli()]. *)
Definition expiryAt (ttl : Z) : M Z :=
  if ttl <=? 0 then mret 0
  else fun s => (setCalls s (S (calls s)), Ok (u64 ((clock w (calls s) * 1000000 + subMs w (calls s) + ttl) / 1000000))).

Definition wallExpiry (ttl : Z) : M Z := if injected w then n ← now; mret (expiryAtFrom ttl n) else expiryAt ttl.

Definition putH (key value : bytes) (ttl h : Z) : M unit :=
  exp ← wallExpiry ttl; putAtExpLocked key value exp h.

Definition putAtH (key value : bytes) (ttl nowMs h : Z) : M unit :=
  advanceAppliedStamp nowMs;; putAtExpLocked key value (expiryAtFrom ttl nowMs) h.

Definition putAbsH (key value : bytes) (expiryMs h : Z) : M unit := putAtExpLocked key value expiryMs h.

Definition Put (key value : bytes) (ttl : Z) : M unit := putH key value ttl (hashKey key).

(** ** Delete *)

Definition needsDurableTombstone (s : shard) : bool := isMmap s.

(** The key stored under a reference, [None] when it cannot be read. *)
Definition storedKeyAt (ref : Z) : M (option bytes) :=
  p ← pageAt (SlabRef.pageIdx ref);
  match Read p (SlabRef.offset ref) with
  | Panic => panic
  | Err _ => mret None
  | Ok (k, _, _) => mret (Some k)
  end.

Definition delH (key : bytes) (h : Z) : M bool :=
  r ← findSlotM h;
  match r with
  | None => mret false
  | Some (slot, ref) =>
      storedKey ← storedKeyAt ref;
      if negb (bool_decide (storedKey = Some key)) then mret false
      else
        s ← gets id;
        target ← (if needsDurableTombstone s then
                    pageIdx ← findOrMakePageLocked (entrySpan (blen key) 0 true);
                    modify (fun s => setWriteSeq s (u64 (writeSeq s + 1)));;
                    seq ← gets writeSeq;
                    writeM pageIdx key [] 0 (makeMeta seq true);;
                    r ← findSlotM h;
                    match r with
                    | None => mret None
                    | Some (slot, ref) =>
                        k2 ← storedKeyAt ref;
                        mret (if bool_decide (k2 = Some key) then Some slot else None)
                    end
                  else mret (Some slot));
        match target with
        | None => bump cDels;; mret true
        | Some slot => tombstoneM slot;; bump cDels;; fireOnRemove key;; mret true
        end
  end.

Definition Del (key : bytes) : M bool := delH key (hashKey key).

(** ** Sweeping *)

(** The body of [sweepIndex] for the slots [l]: drops unreadable and expired
    entries. *)
Fixpoint sweep_loop (l : list nat) (now : Z) : M unit :=
  match l with
  | [] => mret tt
  | i :: l =>
      s ← gets id;
      (match slotRef s i with
       | None => mret tt
       | Some (ref, _) =>
           p ← pageAt (SlabRef.pageIdx ref);
           match Read p (SlabRef.offset ref) with
           | Panic => panic
           | Err _ => tombstoneM (Z.of_nat i)
           | Ok (key, _, exp) =>
               if isExpired exp now then tombstoneM (Z.of_nat i);; bump cExpirations;; fireOnRemove key
               else mret tt
           end
       end);;
      sweep_loop l now
  end.

Definition sweepIndex (now : Z) : M unit :=
  n ← gets (fun s => length (ctrl (tab s))); sweep_loop (seq 0 n) now.

(** The scan of [tryRetireExpiredPageLocked]: [None] when a live entry pins the
    page, otherwise the slots (with offsets) of the expired current entries. *)
Fixpoint expired_scan (fuel : nat) (t : indexTable) (idx : Z) (p : page) (stamp cursor : Z) (acc : list (Z * Z))
  : outcome cerr (option (list (Z * Z))) :=
  match fuel with
  | O => Panic
  | S fuel =>
      if tail p <=? cursor then Ok (Some acc)
      else
        src ← slice (entries p) cursor (tail p);
        match decodeEntryFast src with
        | Panic => Panic
        | Err _ => Ok None
        | Ok (key, value, exp) =>
            let ref := SlabRef.makeSlabRef (u16 idx) (gen p) (u32 cursor) in
            let next := cursor + entrySpan (blen key) (blen value) true in
            match findSlot t (hashKey key) with
            | None => Panic
            | Some (Some (slot, cur)) =>
                if cur =? ref then
                  if negb (isExpired exp stamp) then Ok None
                  else expired_scan fuel t idx p stamp next (acc ++ [(slot, u32 cursor)])
                else expired_scan fuel t idx p stamp next acc
            | Some None => expired_scan fuel t idx p stamp next acc
            end
        end
  end.

Fixpoint dropExpiredSlots (l : list (Z * Z)) (p : page) : M unit :=
  match l with
  | [] => mret tt
  | (slot, off) :: l =>
      tombstoneM slot;; bump cExpirations;; fireOnRemoveAt p off;; dropExpiredSlots l p
  end.

Definition tryRetireExpiredPageLocked (idx stamp : Z) : M unit :=
  p ← pageAt idx;
  if Empty p then mret tt
  else
    t ← gets tab;
    r ← lift (expired_scan (S (length (entries p))) t idx p stamp (head p) []);
    match r with
    | None => mret tt
    | Some l =>
        dropExpiredSlots l p;;
        fresh ← freshHeapPageLocked;
        setPage idx fresh
    end.

Fixpoint reclaim_loop (l : list nat) (stamp : Z) : M unit :=
  match l with
  | [] => mret tt
  | i :: l => tryRetireExpiredPageLocked (Z.of_nat i) stamp;; reclaim_loop l stamp
  end.

Definition reclaimExpiredHeapPages (stamp : Z) : M unit :=
  s ← gets id;
  if isMmap s then mret tt else reclaim_loop (seq 0 (length (pages s))) stamp.

(** ** Warm restart *)

(** Whether the index already holds a copy at least as new as [seq]. *)
Definition indexedSeqAtLeast (h seq : Z) : M bool :=
  r ← findSlotM h;
  match r with
  | None => mret false
  | Some (_, cur) =>
      p ← pageAt (SlabRef.pageIdx cur);
      m ← lift (MetaAt p (SlabRef.offset cur));
      match m with
      | None => mret false
      | Some meta => mret (seq <=? metaSeq meta)
      end
  end.

(** One page of [rebuildIndexFromPages], from [cursor] on; returns the running
    maximum of the sequence numbers. *)
Fixpoint rebuild_page (fuel : nat) (pageIdx hd tl cursor maxSeq : Z) : M Z :=
  match fuel with
  | O => panic
  | S fuel =>
      if tl <=? cursor then mret maxSeq
      else
        p ← pageAt pageIdx;
        src ← lift (slice (entries p) cursor tl);
        match decodeEntry src (framingKey p) (nonce p) (u32 cursor) with
        | Panic => panic
        | Err _ =>
            '(resumeAt, found) ← lift (resyncForward (entries p) (cursor + 1) tl (framingKey p) (nonce p));
            bumpBy cCorruptBytes (resumeAt - cursor);; bump cCorrupt;;
            if found : bool then rebuild_page fuel pageIdx hd tl resumeAt maxSeq
            else
              setPage pageIdx (if cursor =? hd then Reset p else setTail p cursor);;
              flushRecoveredBoundsLocked pageIdx;;
              mret maxSeq
        | Ok (key, value, _, meta) =>
            let cursor' := cursor + entrySpanExact (blen key) (blen value) in
            let seq := metaSeq meta in
            s ← gets id;
            if seq <=? flushedThroughSeq s then rebuild_page fuel pageIdx hd tl cursor' maxSeq
            else
              let maxSeq := if maxSeq <? seq then seq else maxSeq in
              let h := hashKey key in
              newer ← indexedSeqAtLeast h seq;
              if newer : bool then rebuild_page fuel pageIdx hd tl cursor' maxSeq
              else
                upsertM h (SlabRef.makeSlabRef (u16 pageIdx) (gen p) (u32 cursor));;
                rehashIfOverThresholdLocked;;
                rebuild_page fuel pageIdx hd tl cursor' maxSeq
        end
  end.

Fixpoint rebuild_pages (n : nat) (pageIdx maxSeq : Z) : M Z :=
  match n with
  | O => mret maxSeq
  | S n =>
      p ← pageAt pageIdx;
      if badBounds p then
        bumpBy cCorruptBytes (blen (entries p));; bump cCorrupt;;
        setPage pageIdx (Reset p);;
        flushRecoveredBoundsLocked pageIdx;;
        rebuild_pages n (pageIdx + 1) maxSeq
      else
        maxSeq ← rebuild_page (S (length (entries p))) pageIdx (head p) (tail p) (head p) maxSeq;
        rebuild_pages n (pageIdx + 1) maxSeq
  end.

(** Removes from the index what lost its right to be there: delete records and,
    on a shard that is not replicated, expired entries. *)
Fixpoint strip_loop (l : list nat) (now : Z) : M unit :=
  match l with
  | [] => mret tt
  | i :: l =>
      s ← gets id;
      (match slotRef s i with
       | None => mret tt
       | Some (ref, _) =>
           p ← pageAt (SlabRef.pageIdx ref);
           m ← lift (MetaAt p (SlabRef.offset ref));
           if match m with Some meta => metaIsTombstone meta | None => false end then
             tombstoneM (Z.of_nat i);; fireOnRemoveAt p (SlabRef.offset ref)
           else if negb (Replicated cfg) then
             match Read p (SlabRef.offset ref) with
             | Panic => panic
             | Err _ => mret tt
             | Ok (k, _, exp) =>
                 if isExpired exp now then tombstoneM (Z.of_nat i);; fireOnRemove k else mret tt
             end
           else mret tt
       end);;
      strip_loop l now
  end.

Definition stripDeadSlots (now : Z) : M unit :=
  n ← gets (fun s => length (ctrl (tab s))); strip_loop (seq 0 n) now.

Definition rebuildIndexFromPages : M unit :=
  n ← now;
  k ← gets (fun s => length (pages s));
  maxSeq ← rebuild_pages k 0 0;
  stripDeadSlots n;;
  modify (fun s => if writeSeq s <? maxSeq then setWriteSeq s maxSeq else s).

(** ** Construction *)

(** A shard without pages, over an empty table. *)
Definition emptyShard (mm : bool) (fk : bytes) (flushed : Z) : shard :=
  MkShard (newIndexTable 0) [] 0 0 0 0 mm sieveVisited fk flushed 0 (fun _ => 0) [] 0.

Fixpoint alloc_pages (n : nat) : M unit :=
  match n with
  | O => mret tt
  | S n => allocHeapPageLocked;; alloc_pages n
  end.

(** [newShard] with no data directory. *)
Definition newHeapShard : shard * outcome cerr unit :=
  (alloc_pages (Z.to_nat (InitialPagesPerShard cfg));;
   modify (fun s => if 0 <? blen (pages s) then setWriteIdx s (blen (pages s) - 1) else s))
    (emptyShard false [] 0).

(** The page objects over the regions of the mapped file. *)
Fixpoint attach_pages (regions : list bytes) : M unit :=
  match regions with
  | [] => mret tt
  | r :: regions =>
      g ← nextGen;
      fk ← gets shardKey;
      let p := setFramingKey (setGen (newMmapPage r) g) fk in
      '(hd, tl) ← lift (durableBounds p);
      nc ← lift (durableNonce p);
      modify (fun s => setPages s (pages s ++ [setNonce (setTail (setHead p hd) tl) nc]));;
      attach_pages regions
  end.

Definition attachMmapRegion (regions : list bytes) : M unit := attach_pages regions.

(** The opening of an existing pages file whose header was accepted: [regions]
    are its pages, [fk] its framing key, [flushed] the flush watermark. Cold
    compaction ([compactAtOpen]) is disabled ([DisableColdCompaction]). *)
Definition openMmapShard (regions : list bytes) (fk : bytes) (flushed : Z) : shard * outcome cerr unit :=
  (attachMmapRegion regions;;
   rebuildIndexFromPages;;
   modify (fun s => setWriteIdx s (blen (pages s) - 1));;
   modify (fun s => if writeSeq s <? flushedThroughSeq s then setWriteSeq s (flushedThroughSeq s) else s))
    (emptyShard true fk flushed).

(** [Close] projects the bounds of every page into the mapped file; what is
    left on disk are the page regions. *)
Fixpoint project_all (ps : list page) : outcome cerr (list bytes) :=
  match ps with
  | [] => Ok []
  | p :: ps =>
      p ← projectBounds p (head p) (tail p);
      ds ← project_all ps;
      Ok (data p :: ds)
  end.

Definition Close (s : shard) : outcome cerr (list bytes) := project_all (pages s).

End Ops.

End Shard.
