(* ===== verification/ShardInv.v ===== *)
(** * The shard invariant, and lookups against it.

    [shard_ok] ties the index to the pages: every reference of the index is the
    offset of a framed entry of a page of the same generation, under the hash of
    its key. [lookup] is the map a shard represents. *)
From S2P Require Import Prelude CacheConfig SipHash Entry Page IndexTable Shard.
Import Entry Page IndexTable Shard.

(** ** Entries of a page by offset *)

Lemma framed_inj p off r r' : framed p off r -> framed p off r' -> r = r'.
Proof.
  intros H H'. pose proof (Read_framed _ _ _ H) as HR. pose proof (Read_framed _ _ _ H') as HR'.
  pose proof (MetaAt_framed _ _ _ H) as HM. pose proof (MetaAt_framed _ _ _ H') as HM'.
  rewrite HR in HR'. rewrite HM in HM'. destruct r, r'. simpl in *. congruence.
Qed.

Lemma tiled_inj p lo hi es es' : tiled p lo hi es -> tiled p lo hi es' -> es = es'.
Proof.
  revert lo es'. induction es as [|r es IH]; intros lo [|r' es']; simpl; try done.
  - intros -> [_ Ht]. apply tiled_le in Ht. pose proof (span_pos r'). unfold entryHeaderSize in *. lia.
  - intros [_ Ht] ->. apply tiled_le in Ht. pose proof (span_pos r). unfold entryHeaderSize in *. lia.
  - intros [Hf Ht] [Hf' Ht']. pose proof (framed_inj _ _ _ _ Hf Hf') as <-. f_equal. eauto.
Qed.

Lemma queue_inj p es es' : queue p es -> queue p es' -> es = es'.
Proof. intros [_ H] [_ H']. by eapply tiled_inj. Qed.

(** The entry that starts at [off] of the live region of [p]. *)
Definition entry_in (p : page) (off : Z) (r : erec) : Prop :=
  exists es1 es2, queue p (es1 ++ r :: es2) /\ off = head p + spans es1.

Lemma entry_in_split p es off r :
  queue p es -> entry_in p off r -> exists es1 es2, es = es1 ++ r :: es2 /\ off = head p + spans es1.
Proof. intros Hq (es1 & es2 & Hq' & Hoff). rewrite (queue_inj _ _ _ Hq Hq'). eauto. Qed.

Lemma entry_in_framed p off r : entry_in p off r ->
  framed p off r /\ head p <= off /\ off + span r <= tail p.
Proof. intros (es1 & es2 & Hq & ->). destruct (queue_at _ _ _ _ Hq) as (? & ? & ?). auto. Qed.

Lemma entry_in_read p off r : entry_in p off r -> Read p off = Ok (ekey r, evalue r, eexp r).
Proof. intros [Hf _]%entry_in_framed. by apply Read_framed. Qed.

Lemma entry_in_meta p off r : entry_in p off r -> MetaAt p off = Ok (Some (emeta r)).
Proof. intros [Hf _]%entry_in_framed. by apply MetaAt_framed. Qed.

Lemma entry_in_inj p off r r' : entry_in p off r -> entry_in p off r' -> r = r'.
Proof. intros [Hf _]%entry_in_framed [Hf' _]%entry_in_framed. by eapply framed_inj. Qed.

Lemma entry_in_bounds p off r : entry_in p off r -> 0 <= off < 2 ^ 32 /\ head p < tail p.
Proof.
  intros H. pose proof (entry_in_framed _ _ _ H) as (Hf & Hlo & Hhi).
  destruct H as (es1 & es2 & [[Hb Hsz _] _] & ->). pose proof (span_pos r). unfold entryHeaderSize in *. lia.
Qed.

(** ** What page operations do to the entries *)

Lemma Write_shape p k v e m p' off n :
  page_wf p -> entry_ok k v e m -> Write p k v e m = Ok (p', off, n) ->
  exists ent, blen ent = blen (entries p) /\ p' = setTail (setEntries p ent) (tail p + n).
Proof.
  intros Hwf Hok HW.
  assert (Hfree : entrySpanExact (blen k) (blen v) <= FreeTail p).
  { unfold Write, entrySpan, classOf in HW.
    destruct (FreeTail p <? _) eqn:E1; [done|]. by apply Z.ltb_ge in E1. }
  pose proof (Write_frames _ _ _ _ _ _ _ _ Hwf Hok HW) as (_ & _ & _ & _ & _ & _ & _ & Hlen & _).
  destruct (Write_ok p k v e m Hwf Hok Hfree) as (mac & Hw & _). cbv zeta in Hw.
  rewrite HW in Hw. apply Ok_inj, pair_eq in Hw as [[-> ->]%pair_eq ->].
  eexists. split; [|done]. revert Hlen.
  match goal with |- context [setEntries p ?E] => change (entries (setTail (setEntries p E) ?t)) with (entries (setEntries p E)) end.
  rewrite blen_entries_setEntries; [done|]. intros H. by apply Hwf.
Qed.

Lemma Write_fits p k v e m :
  page_wf p -> entry_ok k v e m -> entrySpanExact (blen k) (blen v) <= FreeTail p ->
  exists p', Write p k v e m = Ok (p', tail p, entrySpanExact (blen k) (blen v)).
Proof. intros Hwf Hok Hfree. destruct (Write_ok p k v e m Hwf Hok Hfree) as (mac & Hw & _). eauto. Qed.

Lemma Write_entries p es k v e m p' off n :
  queue p es -> entry_ok k v e m -> Write p k v e m = Ok (p', off, n) ->
  off = tail p /\ queue p' (es ++ [ERec k v e m]) /\ entry_in p' off (ERec k v e m) /\
  forall o r, entry_in p o r -> entry_in p' o r.
Proof.
  intros Hq Hok HW. pose proof (Write_queue _ _ _ _ _ _ _ _ _ Hq Hok HW) as Hq'.
  pose proof Hq as [Hwf Ht].
  destruct (Write_frames _ _ _ _ _ _ _ _ Hwf Hok HW) as (-> & _ & _ & Hh & _).
  split; [done|]. split; [done|]. split.
  - exists es, []. split; [done|]. rewrite Hh.
    rewrite <- (app_nil_r es) in Ht. apply tiled_app in Ht as [_ Ht]. simpl in Ht. lia.
  - intros o r Hin. destruct (entry_in_split _ _ _ _ Hq Hin) as (es1 & es2 & -> & ->).
    exists es1, (es2 ++ [ERec k v e m]). rewrite Hh. split; [|done]. by rewrite <- app_assoc in Hq'.
Qed.

(** Assignments outside the bytes, the bounds and the keying keep a queue. *)
Definition same_bytes (p q : page) : Prop :=
  data q = data p /\ backing q = backing p /\ heapHead q = heapHead p /\ heapTail q = heapTail p /\
  framingKey q = framingKey p /\ nonce q = nonce p.

Lemma same_bytes_queue p q es : same_bytes p q -> queue p es -> queue q es.
Proof.
  intros (Hd & Hb & Hh & Ht & Hk & Hn) Hq. pose proof Hq as [[Hbd _ _] Htl].
  unfold head, tail in *. eapply (queue_bounds p q es (heapHead p) (heapTail p)); try done; unfold tail; lia.
Qed.

Lemma same_bytes_entry p q off r : same_bytes p q -> entry_in p off r -> entry_in q off r.
Proof.
  intros Hs (es1 & es2 & Hq & ->). exists es1, es2. split; [by eapply same_bytes_queue|].
  destruct Hs as (_ & _ & Hh & _). unfold head. by rewrite Hh.
Qed.

(** An empty page stays well formed under any nonce and bounds header. *)
Lemma empty_queue p es : queue p es -> head p = tail p -> es = [].
Proof.
  intros [_ Ht] He. destruct es as [|r es]; [done|]. destruct Ht as [_ Ht]. apply tiled_le in Ht.
  pose proof (span_pos r). unfold entryHeaderSize in *. lia.
Qed.

(** ** The invariant *)

(** What [Config.Validate] guarantees of the geometry. *)
Record cfg_ok (cfg : Config) : Prop := {
  co_size : pageHdrSize < PageSize cfg <= 2 ^ 30;
  co_pages : 1 <= MaxPagesPerShard cfg <= 65535;
  co_init : 0 <= InitialPagesPerShard cfg <= MaxPagesPerShard cfg;
}.

Lemma validate_cfg_ok mm cfg : Validate mm cfg = Ok tt -> cfg_ok cfg.
Proof.
  intros H. apply validate_facts in H as (_ & ? & ? & ? & _). split; [|done|done].
  unfold pageHdrSize. lia.
Qed.

(** Even version stripes: no rewrite is in flight. *)
Definition vers_ok (p : page) : Prop :=
  match vers p with
  | None => True
  | Some vs => length vs = Z.to_nat seqlockStripesPerPage /\ Forall (fun v => Z.land v 1 = 0) vs
  end.

Section Inv.
Context (hashKey : bytes -> Z) (cfg : Config).

Record page_ok (mm : bool) (p : page) : Prop := {
  po_queue : exists es, queue p es;
  po_kind : Page.isMmap p = mm;
  po_size : blen (data p) = PageSize cfg;
  po_gen : fits 16 (gen p);
  po_retired : retired p = false;
  po_barrier : reuseBarrierFailed p = true -> head p = tail p;
  po_vers : vers_ok p;
  po_heap : mm = false -> head p = 0 /\ reuseBarrierFailed p = false;
}.

(** The reference [ref] of hash [h] names the entry [r]. *)
Definition ref_to (ps : list page) (h ref : Z) (r : erec) : Prop :=
  fits 64 ref /\ exists p, ps !! Z.to_nat (SlabRef.pageIdx ref) = Some p /\ gen p = SlabRef.gen ref /\
    entry_in p (SlabRef.offset ref) r /\ hashKey (ekey r) = h /\ metaIsTombstone (emeta r) = false.

Definition index_ok (t : indexTable) (ps : list page) : Prop :=
  forall h ref, abs t !! h = Some ref -> exists r, ref_to ps h ref r.

Record shard_ok (s : shard) : Prop := {
  ok_tab : twf (tab s);
  ok_load : overThreshold (tab s) = false;
  ok_pages : Forall (page_ok (isMmap s)) (pages s);
  ok_len : blen (pages s) <= MaxPagesPerShard cfg;
  ok_mmap : isMmap s = true -> blen (pages s) = MaxPagesPerShard cfg;
  ok_index : index_ok (tab s) (pages s);
  ok_writeIdx : 0 <= writeIdx s;
  ok_victim : 0 <= nextVictim s;
  ok_gen : fits 16 (genCounter s);
}.

(** Only the table, the pages and the cursors matter. *)
Lemma shard_ok_ext s s' :
  tab s' = tab s -> pages s' = pages s -> isMmap s' = isMmap s -> 0 <= writeIdx s' -> 0 <= nextVictim s' ->
  fits 16 (genCounter s') -> shard_ok s -> shard_ok s'.
Proof. intros Ht Hp Hm Hw Hv Hg []. split; rewrite ?Ht, ?Hp, ?Hm; done. Qed.

(** ** The map a shard represents *)

Definition rec_at (ps : list page) (ref : Z) : option (bytes * bytes * Z) :=
  match ps !! Z.to_nat (SlabRef.pageIdx ref) with
  | None => None
  | Some p => match Read p (SlabRef.offset ref) with Ok x => Some x | _ => None end
  end.

Definition lookup_in (m : gmap Z Z) (ps : list page) (k : bytes) : option (bytes * Z) :=
  match m !! hashKey k with
  | None => None
  | Some ref =>
      match rec_at ps ref with
      | Some (k', v, e) => if bool_decide (k' = k) then Some (v, e) else None
      | None => None
      end
  end.

Definition lookup (s : shard) (k : bytes) : option (bytes * Z) := lookup_in (abs (tab s)) (pages s) k.

Lemma ref_to_rec ps h ref r : ref_to ps h ref r -> rec_at ps ref = Some (ekey r, evalue r, eexp r).
Proof.
  intros (_ & p & Hp & _ & Hin & _). unfold rec_at. rewrite Hp. by rewrite (entry_in_read _ _ _ Hin).
Qed.

Lemma lookup_in_ref m ps k ref r :
  m !! hashKey k = Some ref -> ref_to ps (hashKey k) ref r ->
  lookup_in m ps k = if bool_decide (ekey r = k) then Some (evalue r, eexp r) else None.
Proof. intros Hm Hr. unfold lookup_in. by rewrite Hm, (ref_to_rec _ _ _ _ Hr). Qed.

Lemma ref_to_inj ps h h' ref r r' : ref_to ps h ref r -> ref_to ps h' ref r' -> r = r' /\ h = h'.
Proof.
  intros (_ & p & Hp & _ & Hin & Hh & _) (_ & p' & Hp' & _ & Hin' & Hh' & _).
  rewrite Hp in Hp'. injection Hp' as <-. pose proof (entry_in_inj _ _ _ _ Hin Hin') as <-. by subst.
Qed.

(** The page of a reference. *)
Lemma ref_to_idx ps h ref r : ref_to ps h ref r -> 0 <= SlabRef.pageIdx ref < blen ps.
Proof.
  intros (_ & p & Hp & _). apply lookup_lt_Some in Hp. unfold SlabRef.pageIdx in *.
  pose proof (fits_wrap 16 (Z.shiftr ref 32) ltac:(lia)) as Hf. unfold fits, blen in *. lia.
Qed.

Lemma makeSlabRef_eta ref : fits 64 ref ->
  SlabRef.makeSlabRef (SlabRef.pageIdx ref) (SlabRef.gen ref) (SlabRef.offset ref) = ref.
Proof.
  intros Hf.
  pose proof (fits_wrap 16 (Z.shiftr ref 32) ltac:(lia)). pose proof (fits_wrap 16 (Z.shiftr ref 48) ltac:(lia)).
  pose proof (fits_wrap 32 ref ltac:(lia)).
  rewrite SlabRef.makeSlabRef_add; [|done..].
  unfold SlabRef.pageIdx, SlabRef.gen, SlabRef.offset, wrap. rewrite !Z.shiftr_div_pow2 by lia.
  unfold fits in *.
  rewrite (Z.mod_small (ref / 2 ^ 48)).
  2:{ split; [apply Z.div_pos; lia|]. apply Z.div_lt_upper_bound; lia. }
  pose proof (Z.div_mod ref (2 ^ 32) ltac:(lia)) as Hd1.
  pose proof (Z.div_mod (ref / 2 ^ 32) (2 ^ 16) ltac:(lia)) as Hd2.
  rewrite Z.div_div in Hd2 by lia. change (2 ^ 32 * 2 ^ 16) with (2 ^ 48) in Hd2. lia.
Qed.

(** ** Probing *)

(** A slot whose control word carries the tag of [h] is live. *)
Lemma isTag_live c h : fits 64 h -> isTag c (tagFor h) = true -> c <> 0 /\ c <> 1.
Proof.
  intros Hh Ht. pose proof (tagFor_fits h Hh). unfold isTag in Ht. apply Z.eqb_eq in Ht.
  split; intros ->; rewrite land_tagmask, Z.mod_small in Ht by lia; lia.
Qed.

Lemma pageSlot_ref s h ref r :
  shard_ok s -> ref_to (pages s) h ref r ->
  exists p, pageSlot cfg s (SlabRef.pageIdx ref) = Ok (Some p) /\ gen p = SlabRef.gen ref /\
    entry_in p (SlabRef.offset ref) r.
Proof.
  intros Hok Hr. pose proof (ref_to_idx _ _ _ _ Hr) as Hi. pose proof (ok_len s Hok).
  destruct Hr as (_ & p & Hp & Hg & Hin & _). exists p. unfold pageSlot.
  rewrite (proj2 (Z.ltb_lt _ (MaxPagesPerShard cfg))) by lia. by rewrite Hp.
Qed.

(** The table a read leaves: the same map, the same load. *)
Definition same_map (t t' : indexTable) : Prop :=
  twf t' /\ abs t' = abs t /\ live t' = live t /\ tomb t' = tomb t /\ length (ctrl t') = length (ctrl t).

Lemma same_map_refl t : twf t -> same_map t t.
Proof. intros Hw. by split_and!. Qed.

Lemma same_map_load t t' : same_map t t' -> overThreshold t' = overThreshold t.
Proof. intros (_ & _ & Hl & Ht & Hn). unfold overThreshold. by rewrite Hl, Ht, Hn. Qed.

Lemma setVisited_same t slot h r :
  twf t -> fits 64 h -> occ t (Z.to_nat slot) h ->
  exists t', setVisited t slot (tagFor h) r = Some t' /\ same_map t t'.
Proof.
  intros Hw Hh Ho. destruct (setVisited_ok t slot h r Hw Hh Ho) as (t' & Hs & Hw' & Ha & _).
  exists t'. split; [done|]. split; [done|]. split; [done|].
  unfold setVisited in Hs. destruct (ctrl t !! Z.to_nat slot); [|done]. cbn [mbind option_bind] in Hs.
  destruct (negb _); [by injection Hs as <-|].
  destruct (refs t !! Z.to_nat slot); [|done]. cbn [mbind option_bind] in Hs.
  destruct (negb _); injection Hs as <-; [done|]. simpl. by rewrite length_insert.
Qed.

Lemma markVisited_ok s i h r :
  twf (tab s) -> fits 64 h -> occ (tab s) (Z.to_nat i) h ->
  exists t', markVisited s i h r = Ok t' /\ same_map (tab s) t'.
Proof.
  intros Hw Hh Ho. unfold markVisited. destruct (sieve s).
  - destruct (setVisited_same (tab s) i h r Hw Hh Ho) as (t' & -> & Hs). eauto.
  - eauto using same_map_refl.
Qed.

(** What a probe for [key] must answer. *)
Definition probe_ok (s : shard) (key : bytes) (res : lookup_res) : Prop :=
  match lookup s key with
  | Some (v, e) => exists ref, res = (v, e, ref, lkHit) /\ abs (tab s) !! hashKey key = Some ref
  | None => res = ([], 0, 0, lkMiss)
  end.

Section Probe.
Context (s : shard) (key : bytes).
Hypothesis Hok : shard_ok s.
Hypothesis Hhash : fits 64 (hashKey key).

(** No slot visited so far stores [key]. *)
Definition not_before (d : Z) : Prop :=
  forall d' i, 0 <= d' < d -> i = Z.to_nat (pos (tab s) (hashKey key) d') ->
    occ (tab s) i (hashKey key) -> lookup s key = None.

Lemma probe_end d :
  0 <= d -> not_before d -> ctrl (tab s) !! Z.to_nat (pos (tab s) (hashKey key) d) = Some 0 ->
  lookup s key = None.
Proof.
  intros Hd Hnb Hz. pose proof (ok_tab s Hok) as Hw.
  destruct (abs (tab s) !! hashKey key) as [ref|] eqn:Ea.
  2:{ unfold lookup, lookup_in. by rewrite Ea. }
  apply lookup_abs in Ea as (i & Ho & Hr); [|done].
  pose proof (occ_lt _ _ _ Ho) as Hlt.
  pose proof (slots_pos (tab s) Hw) as Hsl.
  set (e := (Z.of_nat i - hashKey key) mod slots (tab s)).
  assert (He : 0 <= e < slots (tab s)) by (apply Z.mod_pos_bound; lia).
  destruct (decide (e < d)) as [Hed|Hed].
  - apply (Hnb e i); [lia| |done]. unfold pos, e. rewrite Zplus_mod_idemp_r.
    replace (hashKey key + (Z.of_nat i - hashKey key)) with (Z.of_nat i) by lia.
    rewrite Z.mod_small by (unfold slots; lia). lia.
  - exfalso. destruct (decide (e = d)) as [Heq|Hne].
    + destruct Ho as (c & Hc & H0 & _).
      assert (Z.to_nat (pos (tab s) (hashKey key) d) = i) as Hp.
      { rewrite <- Heq. unfold pos, e. rewrite Zplus_mod_idemp_r.
        replace (hashKey key + (Z.of_nat i - hashKey key)) with (Z.of_nat i) by lia.
        rewrite Z.mod_small by (unfold slots; lia). lia. }
      rewrite Hp in Hz. congruence.
    + apply (tw_reach _ Hw i (hashKey key) d Ho); [fold e; lia|done].
Qed.

(** One slot of the run. *)
Inductive slot_case (i c r : Z) : Prop :=
| slot_empty : c = 0 -> slot_case i c r
| slot_other : c <> 0 -> isTag c (tagFor (hashKey key)) = false ->
    ~ occ (tab s) (Z.to_nat i) (hashKey key) -> slot_case i c r
| slot_live h rc : c <> 0 -> isTag c (tagFor (hashKey key)) = true -> occ (tab s) (Z.to_nat i) h ->
    abs (tab s) !! h = Some r -> ref_to (pages s) h r rc -> slot_case i c r.

Lemma slot_cases i c r :
  ctrl (tab s) !! Z.to_nat i = Some c -> refs (tab s) !! Z.to_nat i = Some r -> slot_case i c r.
Proof.
  intros Hc Hr. pose proof (ok_tab s Hok) as Hw.
  destruct (decide (c = 0)) as [-> |H0]; [by apply slot_empty|].
  destruct (isTag c (tagFor (hashKey key))) eqn:Et.
  - destruct (isTag_live _ _ Hhash Et) as [_ H1].
    destruct (lookup_lt_is_Some_2 (hashes (tab s)) (Z.to_nat i)) as [h Hh].
    { rewrite (tw_hashes _ Hw). by eapply lookup_lt_Some. }
    assert (Ho : occ (tab s) (Z.to_nat i) h) by (by exists c).
    assert (Ha : abs (tab s) !! h = Some r) by (apply lookup_abs; eauto).
    destruct (ok_index s Hok _ _ Ha) as (rc & Hrc). by eapply slot_live.
  - apply slot_other; [done|done|]. intros Ho.
    destruct (occ_word _ _ _ Hw Ho) as (c' & Hc' & _ & Hf & Htw). rewrite Hc in Hc'. injection Hc' as <-.
    by rewrite isTag_word in Et.
Qed.

Lemma not_before_step d i :
  not_before d -> i = Z.to_nat (pos (tab s) (hashKey key) d) ->
  (occ (tab s) i (hashKey key) -> lookup s key = None) -> not_before (d + 1).
Proof.
  intros Hnb -> Hi d' i' Hd' ->. destruct (decide (d' = d)) as [-> |Hne]; [done|]. apply (Hnb d' _); [lia|done].
Qed.

(** A live slot that holds another key does not hold [key]. *)
Lemma other_key h r rc :
  abs (tab s) !! h = Some r -> ref_to (pages s) h r rc -> ekey rc <> key -> h = hashKey key -> lookup s key = None.
Proof.
  intros Ha Hrc Hne ->. unfold lookup. rewrite (lookup_in_ref _ _ _ _ _ Ha Hrc).
  by rewrite bool_decide_false.
Qed.

Lemma get_loop_ok d fuel :
  0 <= d -> not_before d ->
  (exists e, d <= e < d + Z.of_nat fuel /\ ctrl (tab s) !! Z.to_nat (pos (tab s) (hashKey key) e) = Some 0) ->
  exists t' res, get_loop cfg fuel s key (hashKey key) (pos (tab s) (hashKey key) d) = Ok (t', res) /\
    same_map (tab s) t' /\ probe_ok s key res.
Proof.
  pose proof (ok_tab s Hok) as Hw. revert d.
  induction fuel as [|fuel IH]; intros d Hd Hnb (e & He & Hz); [lia|]. cbn [get_loop].
  destruct (lookup_slot (ctrl (tab s)) (tab s) (hashKey key) d Hw eq_refl) as [c Hc].
  destruct (lookup_slot (refs (tab s)) (tab s) (hashKey key) d Hw (tw_refs _ Hw)) as [r Hr].
  rewrite Hc, Hr. unfold ctrlEmpty.
  assert (Hgo : c <> 0 -> (occ (tab s) (Z.to_nat (pos (tab s) (hashKey key) d)) (hashKey key) -> lookup s key = None) ->
    exists t' res, get_loop cfg fuel s key (hashKey key) (next (tab s) (pos (tab s) (hashKey key) d)) = Ok (t', res) /\
    same_map (tab s) t' /\ probe_ok s key res).
  { intros H0 Hi. rewrite next_pos by done. apply IH; [lia|by eapply not_before_step|].
    exists e. split; [|done]. destruct (decide (e = d)) as [-> |]; [congruence|lia]. }
  destruct (slot_cases _ _ _ Hc Hr) as [-> | H0 Ht Hno | h rc H0 Ht Ho Ha Hrc].
  - cbn. do 2 eexists. split; [done|]. split; [by apply same_map_refl|].
    unfold probe_ok. by rewrite (probe_end d).
  - rewrite (proj2 (Z.eqb_neq c 0) H0), Ht. cbn [negb]. apply Hgo; [done|]. by intros ?%Hno.
  - rewrite (proj2 (Z.eqb_neq c 0) H0), Ht. cbn [negb].
    destruct (pageSlot_ref s h r rc Hok Hrc) as (p & -> & Hg & Hin). cbn [mbind outcome_bind].
    rewrite Hg, Z.eqb_refl. cbn [negb]. rewrite (entry_in_read _ _ _ Hin).
    case_bool_decide as Hk; cbn [negb].
    + destruct Hrc as (Hf & p' & Hp' & Hg' & Hin' & Hh & Hm).
      assert (h = hashKey key) as -> by (by rewrite <- Hk).
      destruct (markVisited_ok s (pos (tab s) (hashKey key) d) (hashKey key) r Hw Hhash Ho) as (t' & -> & Hs).
      cbn [mbind outcome_bind]. do 2 eexists. split; [done|]. split; [done|].
      unfold probe_ok, lookup. rewrite (lookup_in_ref _ _ _ r rc Ha) by (split; [done|]; eauto 10).
      rewrite bool_decide_true by done. eauto.
    + apply Hgo; [done|]. intros Ho'. eapply other_key; [exact Ha|done|done|].
      destruct Ho as (? & _ & _ & _ & E1). destruct Ho' as (? & _ & _ & _ & E2). congruence.
Qed.

Lemma get_ok : exists t' res, get cfg s key (hashKey key) = Ok (t', res) /\ same_map (tab s) t' /\ probe_ok s key res.
Proof.
  pose proof (ok_tab s Hok) as Hw. unfold get. rewrite pos_start by done.
  apply get_loop_ok; [lia|intros ???; lia|].
  destruct (room_on_run (tab s) (hashKey key) Hw) as (e & He & Hz). exists e. split; [|done].
  unfold probes, slots in *. lia.
Qed.

(** *** The seqlock probe *)

Definition probe_into_ok (dst : bytes) (res : lookup_res) : Prop :=
  match lookup s key with
  | Some (v, e) => exists ref, res = (dst ++ v, e, ref, lkHit) /\ abs (tab s) !! hashKey key = Some ref
  | None => res = (dst, 0, 0, lkMiss)
  end.

Lemma loadVersion_ok p off k :
  vers_ok p -> versionAt p off = Some k -> exists v, loadVersion p k = Ok v /\ Z.land v 1 = 0.
Proof.
  unfold vers_ok, versionAt, loadVersion. destruct (vers p) as [vs|]; [|done].
  intros [Hlen Hev] [= <-].
  assert (0 <= Z.land (Z.shiftr off 8) seqlockStripeMask < 64) as Hk.
  { change seqlockStripeMask with (Z.ones 6). rewrite Z.land_ones by lia. by apply Z.mod_pos_bound. }
  destruct (lookup_lt_is_Some_2 vs (Z.to_nat (Z.land (Z.shiftr off 8) seqlockStripeMask))) as [v Hv].
  { rewrite Hlen. unfold seqlockStripesPerPage. lia. }
  rewrite Hv. exists v. split; [done|]. by apply (Forall_lookup_1 _ _ _ _ Hev Hv).
Qed.

Lemma getSeq_loop_ok dst d fuel :
  0 <= d -> not_before d ->
  (exists e, d <= e < d + Z.of_nat fuel /\ ctrl (tab s) !! Z.to_nat (pos (tab s) (hashKey key) e) = Some 0) ->
  exists t' res ok, getSeq_loop cfg fuel s dst key (hashKey key) (pos (tab s) (hashKey key) d) = Ok (t', res, ok) /\
    same_map (tab s) t' /\ (ok = true -> probe_into_ok dst res).
Proof.
  pose proof (ok_tab s Hok) as Hw. pose proof (same_map_refl _ Hw) as Hsame. revert d.
  induction fuel as [|fuel IH]; intros d Hd Hnb (e & He & Hz); [lia|]. cbn [getSeq_loop].
  destruct (lookup_slot (ctrl (tab s)) (tab s) (hashKey key) d Hw eq_refl) as [c Hc].
  destruct (lookup_slot (refs (tab s)) (tab s) (hashKey key) d Hw (tw_refs _ Hw)) as [r Hr].
  rewrite Hc, Hr. unfold ctrlEmpty.
  assert (Hgo : c <> 0 -> (occ (tab s) (Z.to_nat (pos (tab s) (hashKey key) d)) (hashKey key) -> lookup s key = None) ->
    exists t' res ok, getSeq_loop cfg fuel s dst key (hashKey key) (next (tab s) (pos (tab s) (hashKey key) d)) = Ok (t', res, ok) /\
    same_map (tab s) t' /\ (ok = true -> probe_into_ok dst res)).
  { intros H0 Hi. rewrite next_pos by done. apply IH; [lia|by eapply not_before_step|].
    exists e. split; [|done]. destruct (decide (e = d)) as [-> |]; [congruence|lia]. }
  destruct (slot_cases _ _ _ Hc Hr) as [-> | H0 Ht Hno | h rc H0 Ht Ho Ha Hrc].
  - cbn. do 3 eexists. split; [done|]. split; [done|]. intros _.
    unfold probe_into_ok. by rewrite (probe_end d).
  - rewrite (proj2 (Z.eqb_neq c 0) H0), Ht. cbn [negb]. apply Hgo; [done|]. by intros ?%Hno.
  - rewrite (proj2 (Z.eqb_neq c 0) H0), Ht. cbn [negb].
    destruct (pageSlot_ref s h r rc Hok Hrc) as (p & Hps & Hg & Hin). rewrite Hps. cbn [mbind outcome_bind].
    rewrite Hg, Z.eqb_refl. cbn [negb].
    assert (Hv : vers_ok p).
    { unfold pageSlot in Hps. destruct (_ <? _); [|done]. apply Ok_inj in Hps.
      exact (po_vers _ _ (Forall_lookup_1 _ _ _ _ (ok_pages s Hok) Hps)). }
    destruct (versionAt p (SlabRef.offset r)) as [k1|] eqn:Ev; [|by do 3 eexists].
    destruct (loadVersion_ok _ _ _ Hv Ev) as (v1 & -> & Heven). cbn [mbind outcome_bind].
    rewrite Heven. cbn [negb Z.eqb]. rewrite (entry_in_read _ _ _ Hin). rewrite Z.eqb_refl. cbn [negb].
    case_bool_decide as Hk; cbn [negb].
    + pose proof Hrc as (_ & _ & _ & _ & _ & Hh & _).
      assert (h = hashKey key) as -> by (by rewrite <- Hk).
      destruct (markVisited_ok s (pos (tab s) (hashKey key) d) (hashKey key) r Hw Hhash Ho) as (t' & -> & Hs).
      cbn [mbind outcome_bind]. do 3 eexists. split; [done|]. split; [done|]. intros _.
      unfold probe_into_ok, lookup. rewrite (lookup_in_ref _ _ _ r rc Ha Hrc).
      rewrite bool_decide_true by done. eauto.
    + apply Hgo; [done|]. intros Ho'. eapply other_key; [exact Ha|done|done|].
      destruct Ho as (? & _ & _ & _ & E1). destruct Ho' as (? & _ & _ & _ & E2). congruence.
Qed.

Lemma getSeq_ok dst : exists t' res ok, getSeq cfg s dst key (hashKey key) = Ok (t', res, ok) /\
  same_map (tab s) t' /\ (ok = true -> probe_into_ok dst res).
Proof.
  pose proof (ok_tab s Hok) as Hw. unfold getSeq. rewrite pos_start by done.
  apply getSeq_loop_ok; [lia|intros ???; lia|].
  destruct (room_on_run (tab s) (hashKey key) Hw) as (e & He & Hz). exists e. split; [|done].
  unfold probes, slots in *. lia.
Qed.

End Probe.

End Inv.
