(* ===== verification/ShardGet.v ===== *)
(** * Steps of a shard, and its reads.

    [evo P s s'] is what an operation may do to a shard: keep the invariant and
    every key's entry, except that keys satisfying [P] may be dropped. Reads are
    specified against the map the shard represents. *)
From S2P Require Import Prelude CacheConfig SipHash Entry Page IndexTable Shard ShardInv.
Import Entry Page IndexTable Shard.

(** ** Steps that touch no data *)

(** Only the counters, the removal trace and the call count differ. *)
Definition quiet (s s' : shard) : Prop :=
  tab s' = tab s /\ pages s' = pages s /\ genCounter s' = genCounter s /\ writeIdx s' = writeIdx s /\
  writeSeq s' = writeSeq s /\ nextVictim s' = nextVictim s /\ isMmap s' = isMmap s /\ sieve s' = sieve s /\
  shardKey s' = shardKey s /\ flushedThroughSeq s' = flushedThroughSeq s /\
  lastAppliedStampMs s' = lastAppliedStampMs s.

Lemma quiet_refl s : quiet s s.
Proof. by split_and!. Qed.

Lemma quiet_trans s1 s2 s3 : quiet s1 s2 -> quiet s2 s3 -> quiet s1 s3.
Proof. unfold quiet. intuition congruence. Qed.

Lemma wp_bumpBy {B} c n (k : unit -> M B) Q s :
  (forall s', quiet s s' -> wp (k tt) Q s') -> wp (bumpBy c n ≫= k) Q s.
Proof. intros H. apply wp_bind. apply H. by split_and!. Qed.

Lemma wp_bump {B} c (k : unit -> M B) Q s :
  (forall s', quiet s s' -> wp (k tt) Q s') -> wp (bump c ≫= k) Q s.
Proof. apply wp_bumpBy. Qed.

Lemma wp_bump_end c Q s : (forall s', quiet s s' -> Q s' (Ok tt)) -> wp (bump c) Q s.
Proof. intros H. apply H. by split_and!. Qed.

Lemma wp_bumpBy_end c n Q s : (forall s', quiet s s' -> Q s' (Ok tt)) -> wp (bumpBy c n) Q s.
Proof. intros H. apply H. by split_and!. Qed.

Lemma wp_fire {B} key (k : unit -> M B) Q s :
  (forall s', quiet s s' -> wp (k tt) Q s') -> wp (fireOnRemove key ≫= k) Q s.
Proof. intros H. apply wp_bind. apply H. by split_and!. Qed.

Lemma wp_fire_end key Q s : (forall s', quiet s s' -> Q s' (Ok tt)) -> wp (fireOnRemove key) Q s.
Proof. intros H. apply H. by split_and!. Qed.

Lemma wp_now {B} w (k : Z -> M B) Q s :
  (forall s' n, quiet s s' -> wp (k n) Q s') -> wp (now w ≫= k) Q s.
Proof. intros H. apply wp_bind. apply H. by split_and!. Qed.

(** ** Pure steps *)

Lemma wp_pageAt {B} i p (k : page -> M B) Q s :
  pages s !! Z.to_nat i = Some p -> 0 <= i -> wp (k p) Q s -> wp (pageAt i ≫= k) Q s.
Proof.
  intros Hp Hi Hk. unfold pageAt, wp, mbind, st_bind, gets. simpl.
  rewrite (proj2 (Z.ltb_ge i 0)) by done. rewrite Hp. simpl. exact Hk.
Qed.

Section Reads.
Context (hashKey : bytes -> Z) (Hhash : forall k, fits 64 (hashKey k)).
Context (w : world) (cfg : Config) (Hcfg : cfg_ok cfg).
#[local] Abbreviation shard_ok := (shard_ok hashKey cfg).
#[local] Abbreviation lookup := (lookup hashKey).

Record evo (P : bytes -> Prop) (s s' : shard) : Prop := {
  ev_ok : shard_ok s';
  ev_mmap : isMmap s' = isMmap s;
  ev_sieve : sieve s' = sieve s;
  ev_lookup : forall k, lookup s' k = lookup s k \/ (P k /\ lookup s' k = None);
}.

Definition nokey : bytes -> Prop := fun _ => False.
Definition anykey : bytes -> Prop := fun _ => True.

Lemma evo_refl P s : shard_ok s -> evo P s s.
Proof. split; auto. Qed.

Lemma evo_trans P s1 s2 s3 : evo P s1 s2 -> evo P s2 s3 -> evo P s1 s3.
Proof.
  intros [H1 H2 H3 H4] [H5 H6 H7 H8]. split; [done|congruence|congruence|].
  intros k. destruct (H8 k) as [-> |[HP Hn]]; [apply H4|auto].
Qed.

Lemma evo_weaken (P Q : bytes -> Prop) s s' : (forall k, P k -> Q k) -> evo P s s' -> evo Q s s'.
Proof. intros HPQ [H1 H2 H3 H4]. split; auto. intros k. destruct (H4 k) as [?|[? ?]]; auto. Qed.

Lemma quiet_ok s s' : quiet s s' -> shard_ok s -> shard_ok s'.
Proof.
  intros (Ht & Hp & Hg & Hw & _ & Hv & Hm & _) Hok. pose proof Hok as [].
  apply (shard_ok_ext _ _ s); try done; by rewrite ?Hw, ?Hv, ?Hg.
Qed.

Lemma quiet_evo P s s' : quiet s s' -> shard_ok s -> evo P s s'.
Proof.
  intros Hq Hok. split; [by eapply quiet_ok|by destruct Hq as (_ & _ & _ & _ & _ & _ & ? & _)|
    by destruct Hq as (_ & _ & _ & _ & _ & _ & _ & ? & _)|].
  intros k. left. unfold ShardInv.lookup. destruct Hq as (-> & -> & _). done.
Qed.

(** ** Steps on the index *)

Lemma wp_findSlot {B} h (k : option (Z * Z) -> M B) Q s :
  twf (tab s) -> fits 64 h ->
  (forall r, find_result (tab s) h r -> wp (k r) Q s) -> wp (findSlotM h ≫= k) Q s.
Proof.
  intros Hw Hh Hk. destruct (findSlot_spec (tab s) h Hw Hh) as (r & Hf & Hr).
  unfold findSlotM. apply wp_assoc, wp_gets. rewrite Hf. by apply wp_oget, Hk.
Qed.

(** A table that represents the same map. *)
Lemma same_map_evo P s t : shard_ok s -> same_map (tab s) t -> evo P s (setTab s t).
Proof.
  intros Hok Hs. pose proof Hs as (Hw & Ha & _).
  pose proof Hok as [Hw0 Hl0 Hp0 Hn0 Hm0 Hi0 ? ? ?]. split; try done.
  - split; try done.
    + by rewrite <- Hl0; apply same_map_load.
    + intros h ref. simpl. rewrite Ha. apply Hi0.
  - intros k. left. unfold ShardInv.lookup. simpl. by rewrite Ha.
Qed.

Lemma tombstone_load t slot h : occ t (Z.to_nat slot) h -> overThreshold (tombstone t slot) = overThreshold t.
Proof.
  intros Ho. unfold overThreshold. simpl. rewrite length_insert.
  by replace (live t - 1 + (tomb t + 1)) with (live t + tomb t) by lia.
Qed.

Lemma tombstone_evo s slot h :
  shard_ok s -> 0 <= slot -> occ (tab s) (Z.to_nat slot) h ->
  evo (fun k => hashKey k = h) s (setTab s (tombstone (tab s) slot)).
Proof.
  intros Hok Hs Ho. pose proof Hok as [Hw Hl Hp Hn Hm Hi ? ? ?].
  pose proof (tombstone_abs _ _ _ Hw Hs Ho) as Ha.
  split; try done.
  - split; try done.
    + by eapply tombstone_wf.
    + cbn [tab setTab]. by rewrite (tombstone_load _ _ h).
    + intros h' ref. cbn [tab setTab pages]. rewrite Ha. intros Hd. apply lookup_delete_Some in Hd as [_ Hd]. eauto.
  - intros k. unfold ShardInv.lookup, lookup_in. cbn [tab setTab pages]. rewrite Ha.
    destruct (decide (hashKey k = h)) as [<- |Hne].
    + right. by rewrite lookup_delete_eq.
    + left. by rewrite lookup_delete_ne.
Qed.

(** When the slot's entry has key [key], only [key] is dropped. *)
Lemma tombstone_key_evo s slot ref rc :
  shard_ok s -> 0 <= slot -> occ (tab s) (Z.to_nat slot) (hashKey (ekey rc)) ->
  refs (tab s) !! Z.to_nat slot = Some ref -> ref_to hashKey (pages s) (hashKey (ekey rc)) ref rc ->
  evo (fun k => k = ekey rc) s (setTab s (tombstone (tab s) slot)) /\
  lookup (setTab s (tombstone (tab s) slot)) (ekey rc) = None.
Proof.
  intros Hok Hs Ho Hr Href. pose proof (ok_tab _ _ s Hok) as Hw.
  assert (Ha : abs (tab s) !! hashKey (ekey rc) = Some ref) by (apply lookup_abs; eauto).
  pose proof (tombstone_abs _ _ _ Hw Hs Ho) as Ha'.
  assert (Hnone : forall k, hashKey k = hashKey (ekey rc) -> lookup (setTab s (tombstone (tab s) slot)) k = None).
  { intros k Hk. unfold ShardInv.lookup, lookup_in. cbn [tab setTab pages]. by rewrite Ha', Hk, lookup_delete_eq. }
  split; [|by apply Hnone].
  destruct (tombstone_evo s slot _ Hok Hs Ho) as [H1 H2 H3 H4]. split; try done.
  intros k. destruct (H4 k) as [?|[Hk Hn]]; [by left|].
  destruct (decide (k = ekey rc)) as [-> |Hne]; [by right|]. left. rewrite Hn. symmetry.
  rewrite <- Hk in Ha, Href. unfold ShardInv.lookup. rewrite (lookup_in_ref _ _ _ _ _ _ Ha Href).
  by rewrite bool_decide_false.
Qed.

(** The entry a found slot names. *)
Lemma found_ref s h slot ref :
  shard_ok s -> find_result (tab s) h (Some (slot, ref)) ->
  exists rc p, ref_to hashKey (pages s) h ref rc /\ pages s !! Z.to_nat (SlabRef.pageIdx ref) = Some p /\
    gen p = SlabRef.gen ref /\ entry_in p (SlabRef.offset ref) rc /\ hashKey (ekey rc) = h /\
    0 <= SlabRef.pageIdx ref < blen (pages s) /\ abs (tab s) !! h = Some ref.
Proof.
  intros Hok (Hrg & Ho & Hr). pose proof (ok_tab _ _ s Hok) as Hw.
  assert (Ha : abs (tab s) !! h = Some ref) by (apply lookup_abs; eauto).
  destruct (ok_index _ _ s Hok _ _ Ha) as (rc & Href). pose proof (ref_to_idx _ _ _ _ _ Href) as Hi.
  pose proof Href as (_ & p & Hp & Hg & Hin & Hh & _). by exists rc, p.
Qed.

Definition no_err : shard -> cerr -> Prop := fun _ _ => False.

Lemma dropExpired_ok s key ref n :
  shard_ok s ->
  wp (dropExpiredLocked key (hashKey key) ref n) (post (fun s' _ => evo (fun k => k = key) s s') no_err) s.
Proof.
  intros Hok. pose proof (ok_tab _ _ s Hok) as Hw. pose proof (evo_refl (fun k => k = key) s Hok) as Hrefl.
  apply wp_findSlot; [done|done|]. intros [[slot cur]|] Hf; [|done].
  destruct (found_ref _ _ _ _ Hok Hf) as (rc & p & Href & Hp & Hg & Hin & Hh & Hi & _).
  destruct (negb (cur =? ref)); [done|]. apply wp_gets. cbv zeta. cbn [id].
  rewrite (proj2 (Z.leb_gt (blen (pages s)) _)) by lia.
  eapply wp_pageAt; [done|lia|]. rewrite Hg, Z.eqb_refl. cbn [negb]. rewrite (entry_in_read _ _ _ Hin).
  case_bool_decide as Hk; cbn [negb]; [|done]. destruct (negb (isExpired _ _)); [done|].
  destruct Hf as (Hrg & Ho & Hr). subst key.
  destruct (tombstone_key_evo s slot cur rc Hok ltac:(lia) Ho Hr Href) as [He _].
  apply wp_modify. apply wp_bump. intros s1 Hq1. apply wp_fire_end. intros s2 Hq2. simpl.
  eapply evo_trans; [exact He|]. eapply evo_trans; eapply quiet_evo; eauto using quiet_ok, ev_ok.
Qed.

(** ** Reads *)

(** A probe's answer, with the value appended to [dst]. *)
Definition probed (l : option (bytes * Z)) (dst : bytes) (res : lookup_res) : Prop :=
  match l with
  | Some (v, e) => exists ref, res = (dst ++ v, e, ref, lkHit)
  | None => exists d, res = (d, 0, 0, lkMiss)
  end.

Definition read_ok (s : shard) (dst key : bytes) (n : Z) (s' : shard) (x : bytes * Z) : Prop :=
  evo nokey s s' /\ exists v e, lookup s key = Some (v, e) /\ x = (dst ++ v, e) /\ isExpired e n = false.

Definition read_miss (s : shard) (key : bytes) (n : Z) (s' : shard) (e : cerr) : Prop :=
  e = ErrNotFound /\ evo (fun k => k = key) s s' /\
  match lookup s key with None => True | Some (_, exp) => isExpired exp n = true end.

Lemma evo_nokey_lookup s s' k : evo nokey s s' -> lookup s' k = lookup s k.
Proof. intros He. destruct (ev_lookup _ _ _ He k) as [?|[[] _]]. done. Qed.

Lemma wp_getM {B} s key (k : lookup_res -> M B) Q :
  shard_ok s ->
  (forall s' res, evo nokey s s' -> probed (lookup s key) [] res -> wp (k res) Q s') ->
  wp (getM cfg key (hashKey key) ≫= k) Q s.
Proof.
  intros Hok Hk. destruct (get_ok hashKey cfg s key Hok (Hhash key)) as (t' & res & Hg & Hs & Hp).
  unfold getM. apply wp_assoc, wp_gets, wp_assoc. cbn [id]. rewrite Hg.
  apply wp_lift, wp_assoc, wp_modify, wp_mret. apply Hk; [by apply same_map_evo|].
  unfold probe_ok in Hp. destruct (lookup s key) as [[v e]|]; [|by eexists].
  destruct Hp as (ref & -> & _). by eexists.
Qed.

Lemma resolve_ok s s1 dst key n allow res :
  evo nokey s s1 -> probed (lookup s key) dst res ->
  wp (resolveLookup res key (hashKey key) n allow) (post (read_ok s dst key n) (read_miss s key n)) s1.
Proof.
  intros He Hp. pose proof (ev_ok _ _ _ He) as Hok1.
  assert (Hw : evo (fun k => k = key) s s1) by (by eapply evo_weaken; [|exact He]).
  destruct (lookup s key) as [[v e]|] eqn:El; simpl in Hp.
  - destruct Hp as (ref & ->). simpl. destruct (isExpired e n) eqn:Ex.
    + assert (Hfin : forall s2, evo (fun k => k = key) s1 s2 ->
        wp (bump cMisses;; throw ErrNotFound) (post (read_ok s dst key n) (read_miss s key n)) s2).
      { intros s2 He2. apply wp_bump. intros s3 Hq3. split; [done|]. rewrite El. split; [|done].
        eapply evo_trans; [exact Hw|]. eapply evo_trans; [exact He2|]. eapply quiet_evo; eauto using ev_ok. }
      destruct allow.
      * eapply wp_seq; [by apply dropExpired_ok| |done]. intros s2 [] He2. by apply Hfin.
      * apply wp_mret. apply Hfin. by apply evo_refl.
    + split; [done|]. rewrite El. eauto.
  - destruct Hp as [d ->]. simpl. apply wp_bump. intros s2 Hq. split; [done|]. rewrite El. split; [|done].
    eapply evo_trans; [exact Hw|]. by eapply quiet_evo.
Qed.

Lemma getLocked_ok s s1 key n allow :
  evo nokey s s1 ->
  wp (getLockedCore cfg key (hashKey key) n allow) (post (read_ok s [] key n) (read_miss s key n)) s1.
Proof.
  intros He. apply wp_getM; [by eapply ev_ok|]. intros s2 res He2 Hp.
  rewrite (evo_nokey_lookup _ _ _ He) in Hp. apply resolve_ok; [by eapply evo_trans|done].
Qed.

Lemma probed_into l dst res : probed l [] res -> probed l dst (appendTo dst res).
Proof. destruct l as [[v e]|]; [intros [ref ->]|intros [d ->]]; simpl; eauto. Qed.

Lemma getIntoLocked_ok s s1 dst key n allow :
  evo nokey s s1 ->
  wp (getIntoLockedCore cfg dst key (hashKey key) n allow) (post (read_ok s dst key n) (read_miss s key n)) s1.
Proof.
  intros He. apply wp_getM; [by eapply ev_ok|]. intros s2 res He2 Hp.
  rewrite (evo_nokey_lookup _ _ _ He) in Hp. apply resolve_ok; [by eapply evo_trans|by apply probed_into].
Qed.

(** The seqlock probe, retried. *)
Lemma getSeqRetry_ok k attempt s s1 dst key :
  evo nokey s s1 ->
  wp (getSeqRetry_loop cfg k attempt dst key (hashKey key))
    (post (fun s' x => evo nokey s s' /\ (snd x = true -> probed (lookup s key) dst (fst x))) no_err) s1.
Proof.
  revert attempt s1. induction k as [|k IH]; intros attempt s1 He; cbn [getSeqRetry_loop].
  - apply wp_bumpBy. intros s2 Hq2. apply wp_bump. intros s3 Hq3. split; [|done].
    eapply evo_trans; [exact He|]. eapply evo_trans; eapply quiet_evo; eauto using quiet_ok, ev_ok.
  - pose proof (ev_ok _ _ _ He) as Hok1.
    destruct (getSeq_ok hashKey cfg s1 key Hok1 (Hhash key) dst) as (t' & res & ok & Hg & Hs & Hp).
    unfold getSeqM. apply wp_assoc, wp_gets, wp_assoc. cbn [id]. rewrite Hg.
    apply wp_lift, wp_assoc, wp_modify, wp_mret.
    assert (He' : evo nokey s (setTab s1 t')) by (eapply evo_trans; [exact He|by apply same_map_evo]).
    destruct ok; [|by apply IH].
    assert (Hres : probed (lookup s key) dst res).
    { specialize (Hp eq_refl). unfold probe_into_ok in Hp. rewrite (evo_nokey_lookup _ _ _ He) in Hp.
      destruct (lookup s key) as [[v e]|]; [|by eexists]. destruct Hp as (ref & -> & _). by eexists. }
    destruct (0 <? attempt); [|done]. apply wp_bumpBy. intros s2 Hq2. split; [|done].
    eapply evo_trans; [exact He'|]. eapply quiet_evo; eauto using ev_ok.
Qed.

Lemma getCore_ok s key n allow :
  shard_ok s ->
  wp (getCore cfg key (hashKey key) n allow) (post (read_ok s [] key n) (read_miss s key n)) s.
Proof.
  intros Hok. apply wp_bump. intros s1 Hq. apply wp_gets.
  pose proof (quiet_evo nokey _ _ Hq Hok) as He.
  destruct (seqlockReads cfg (id s1)).
  - eapply wp_seq; [by apply getSeqRetry_ok| |done]. intros s2 [res ok] [He2 Hp]. simpl in Hp.
    destruct ok; [by apply resolve_ok; auto|by apply getLocked_ok].
  - destruct (needsReadLockForGet cfg (id s1)); by apply getLocked_ok.
Qed.

Lemma getIntoCore_ok s dst key n allow :
  shard_ok s ->
  wp (getIntoCore cfg dst key (hashKey key) n allow) (post (read_ok s dst key n) (read_miss s key n)) s.
Proof.
  intros Hok. apply wp_bump. intros s1 Hq. apply wp_gets.
  pose proof (quiet_evo nokey _ _ Hq Hok) as He.
  destruct (seqlockReads cfg (id s1)).
  - eapply wp_seq; [by apply getSeqRetry_ok| |done]. intros s2 [res ok] [He2 Hp]. simpl in Hp.
    destruct ok; [by apply resolve_ok; auto|by apply getIntoLocked_ok].
  - destruct (needsReadLockForGet cfg (id s1)); by apply getIntoLocked_ok.
Qed.

End Reads.
