(* ===== verification/ShardPut.v ===== *)
(** * Writes: finding room, evicting, putting and deleting. *)
From S2P Require Import Prelude CacheConfig SipHash Entry Page IndexTable Shard ShardInv ShardGet.
Import Entry Page IndexTable Shard.

(** A list of distinct numbers below [n] has at most [n] elements. *)
Lemma pigeonhole (l : list Z) n : NoDup l -> Forall (fun x => 0 <= x < n) l -> blen l <= Z.max 0 n.
Proof.
  intros Hnd Hall. unfold blen.
  assert (l ⊆+ seqZ 0 n) as Hs.
  { apply NoDup_submseteq; [done|]. intros x Hx. apply elem_of_seqZ.
    rewrite Forall_forall in Hall. specialize (Hall x Hx). lia. }
  apply submseteq_length in Hs. rewrite length_seqZ in Hs. lia.
Qed.

Section Writes.
Context (hashKey : bytes -> Z) (Hhash : forall k, fits 64 (hashKey k)).
Context (w : world) (cfg : Config) (Hcfg : cfg_ok cfg).
#[local] Abbreviation shard_ok := (shard_ok hashKey cfg).
#[local] Abbreviation page_ok := (page_ok cfg).
#[local] Abbreviation lookup := (lookup hashKey).
#[local] Abbreviation evo := (evo hashKey cfg).
#[local] Abbreviation ref_to := (ref_to hashKey).
#[local] Abbreviation index_ok := (index_ok hashKey).

(** ** Replacing a page *)

(** The references to page [i] of the index of [s]. *)
Definition refs_to (s : shard) (i : nat) (P : Z -> erec -> Prop) : Prop :=
  forall h ref r, abs (tab s) !! h = Some ref -> ref_to (pages s) h ref r ->
    Z.to_nat (SlabRef.pageIdx ref) = i -> P ref r.

Lemma setPage_evo s i p p' :
  shard_ok s -> pages s !! i = Some p -> page_ok (isMmap s) p' ->
  refs_to s i (fun ref r => gen p' = SlabRef.gen ref /\ entry_in p' (SlabRef.offset ref) r) ->
  evo nokey s (setPages s (<[i := p']> (pages s))).
Proof.
  intros Hok Hp Hp' Hrefs. pose proof Hok as [Hw Hl Hps Hn Hm Hi Hwi Hv Hg].
  assert (Hlt : (i < length (pages s))%nat) by (by eapply lookup_lt_Some).
  assert (Hkeep : forall h ref r, abs (tab s) !! h = Some ref -> ref_to (pages s) h ref r ->
    ref_to (<[i := p']> (pages s)) h ref r).
  { intros h ref r Ha Hr. pose proof Hr as (Hf & q & Hq & Hgq & Hin & Hh & Ht). split; [done|].
    destruct (decide (Z.to_nat (SlabRef.pageIdx ref) = i)) as [E1|Hne].
    - destruct (Hrefs h ref r Ha Hr E1) as [Hg' Hin']. exists p'. rewrite E1, list_lookup_insert_eq by done. done.
    - exists q. rewrite list_lookup_insert_ne by done. done. }
  assert (Hi' : index_ok (tab s) (<[i := p']> (pages s))).
  { intros h ref Ha. destruct (Hi h ref Ha) as [r Hr]. exists r. by apply Hkeep. }
  split; try done.
  - split; try done.
    + by apply Forall_insert.
    + cbn [pages setPages]. by rewrite blen_insert.
    + cbn [pages setPages]. by rewrite blen_insert.
  - intros k. left. unfold ShardInv.lookup. cbn [tab pages setPages].
    destruct (abs (tab s) !! hashKey k) as [ref|] eqn:Ea.
    + destruct (Hi _ _ Ea) as [r Hr].
      rewrite (lookup_in_ref _ _ _ _ _ r Ea) by (by apply Hkeep). by rewrite (lookup_in_ref _ _ _ _ _ r Ea).
    + unfold lookup_in. by rewrite Ea.
Qed.

(** ** The index never outgrows the pages *)

Lemma index_bound t ps : twf t -> index_ok t ps -> blen ps <= 65535 -> live t < 2 ^ 61.
Proof.
  intros Hw Hi Hn. rewrite (live_entries t Hw).
  set (L := omap (entry_at t) (seq 0 (length (ctrl t)))).
  set (f := fun hr : Z * Z => SlabRef.pageIdx hr.2 * 2 ^ 32 + SlabRef.offset hr.2).
  assert (Hin : forall hr, hr ∈ L -> abs t !! hr.1 = Some hr.2).
  { intros [h ref] HL. apply list_elem_of_omap in HL as (j & _ & [Ho Hr]%entry_at_spec). apply lookup_abs; eauto. }
  assert (Hnd : NoDup L.*1).
  { apply omap_fst_nodup; [apply NoDup_seq|]. intros i j h a b _ _ Hia Hjb.
    apply entry_at_spec in Hia as [Hia _]. apply entry_at_spec in Hjb as [Hjb _]. by apply (tw_uniq t Hw i j h). }
  assert (Hrange : forall ref, 0 <= SlabRef.pageIdx ref < 2 ^ 16 /\ 0 <= SlabRef.offset ref < 2 ^ 32).
  { intros ref. split; apply Z.mod_pos_bound; lia. }
  assert (HndL : NoDup L) by (by apply (NoDup_fmap_1 fst)).
  assert (Hndf : NoDup (f <$> L)).
  { apply NoDup_fmap_2_strong; [|done]. intros [h ref] [h' ref'] Hx Hy Hf. unfold f in Hf. simpl in Hf.
    pose proof (Hrange ref). pose proof (Hrange ref').
    assert (SlabRef.pageIdx ref = SlabRef.pageIdx ref' /\ SlabRef.offset ref = SlabRef.offset ref') as [Ep Eo] by lia.
    pose proof (Hin _ Hx) as Ha. pose proof (Hin _ Hy) as Ha'. simpl in Ha, Ha'.
    destruct (Hi _ _ Ha) as (r & Hf1 & p & Hp & Hg & He & Hh & _).
    destruct (Hi _ _ Ha') as (r' & Hf2 & p' & Hp' & Hg' & He' & Hh' & _).
    rewrite <- Ep, Hp in Hp'. injection Hp' as <-. rewrite <- Eo in He'.
    pose proof (entry_in_inj _ _ _ _ He He') as <-. rewrite Hh in Hh'. subst h'. congruence. }
  pose proof (pigeonhole (f <$> L) (2 ^ 48) Hndf) as Hb.
  unfold blen in Hb. rewrite length_fmap in Hb.
  assert (Forall (fun x => 0 <= x < 2 ^ 48) (f <$> L)) as Hall.
  { apply Forall_forall. intros x ([h ref] & -> & _)%list_elem_of_fmap. unfold f. simpl.
    pose proof (Hrange ref). lia. }
  specialize (Hb Hall). lia.
Qed.

(** ** Index updates *)

Lemma rehash_wp s Q :
  twf (tab s) -> live (tab s) < 2 ^ 61 ->
  (forall s' t', twf t' -> abs t' = abs (tab s) -> overThreshold t' = false -> quiet (setTab s t') s' ->
     Q s' (Ok tt)) ->
  wp rehashIfOverThresholdLocked Q s.
Proof.
  intros Hw Hl HQ. unfold rehashIfOverThresholdLocked. apply wp_gets.
  destruct (overThreshold (tab s)) eqn:Eo; cbn [negb].
  - destruct (rehashed_ok (tab s) Hw Hl) as (t' & -> & Hw' & Ha & _ & _ & Ho & _).
    apply wp_oget, wp_modify, wp_bump_end. intros s' Hq. by apply (HQ s' t').
  - by apply (HQ s (tab s)).
Qed.

(** [key] now holds [(v, e)]; keys satisfying [P], and keys that collide with
    [key], may be gone. *)
Record stored (P : bytes -> Prop) (key v : bytes) (e : Z) (s s' : shard) : Prop := {
  sd_ok : shard_ok s';
  sd_mmap : isMmap s' = isMmap s;
  sd_sieve : sieve s' = sieve s;
  sd_key : lookup s' key = Some (v, e);
  sd_other : forall k, k <> key ->
    lookup s' k = lookup s k \/ ((P k \/ hashKey k = hashKey key) /\ lookup s' k = None);
}.

Lemma evo_stored P key v e s1 s2 s3 : evo P s1 s2 -> stored P key v e s2 s3 -> stored P key v e s1 s3.
Proof.
  intros [H1 H2 H3 H4] [H5 H6 H7 H8 H9]. split; try done; [congruence|congruence|].
  intros k Hk. destruct (H9 k Hk) as [-> |[HP Hn]]; [|by right].
  destruct (H4 k) as [?|[? ?]]; auto.
Qed.

(** Pointing the index at a stored entry. *)
Lemma insert_stored s s' key ref rc t' :
  shard_ok s -> ref_to (pages s) (hashKey key) ref rc -> ekey rc = key ->
  twf t' -> abs t' = <[hashKey key := ref]> (abs (tab s)) -> overThreshold t' = false ->
  quiet (setTab s t') s' -> stored nokey key (evalue rc) (eexp rc) s s'.
Proof.
  intros Hok Href Hk Hw' Ha' Ho' Hq. pose proof Hok as [Hw Hl Hps Hn Hm Hi Hwi Hv Hg].
  assert (Hidx : index_ok t' (pages s)).
  { intros h r0. rewrite Ha'. intros [[<- <-]|[Hne Ha]]%lookup_insert_Some; eauto. }
  destruct Hq as (Ht & Hp & Hgc & Hwx & _ & Hvx & Hmx & Hsx & _). cbn in Ht, Hp, Hgc, Hwx, Hvx, Hmx, Hsx.
  split; try done.
  - split; rewrite ?Ht, ?Hp, ?Hgc, ?Hwx, ?Hvx, ?Hmx; done.
  - unfold ShardInv.lookup. rewrite Ht, Hp.
    rewrite (lookup_in_ref hashKey _ _ key ref rc); [by rewrite bool_decide_true| |done].
    by rewrite Ha', lookup_insert_eq.
  - intros k Hne. unfold ShardInv.lookup. rewrite Ht, Hp.
    destruct (decide (hashKey k = hashKey key)) as [Heq|Hneq].
    + right. split; [by right|].
      rewrite (lookup_in_ref hashKey _ _ k ref rc).
      * rewrite bool_decide_false; [done|congruence].
      * by rewrite Ha', Heq, lookup_insert_eq.
      * by rewrite Heq.
    + left. unfold lookup_in. rewrite Ha', lookup_insert_ne by done. done.
Qed.

Lemma upsert_bound s h ref t' : shard_ok s ->
  twf t' -> abs t' = <[h := ref]> (abs (tab s)) -> (exists r, ref_to (pages s) h ref r) -> live t' < 2 ^ 61.
Proof.
  intros Hok Hw' Ha' [r Hr]. apply (index_bound t' (pages s)); [done| |].
  - intros h' r0. rewrite Ha'. intros [[<- <-]|[Hne Ha]]%lookup_insert_Some; [eauto|].
    by apply (ok_index _ _ s Hok).
  - pose proof (ok_len _ _ s Hok). pose proof (co_pages _ Hcfg). lia.
Qed.

(** The index half of a put: upsert, SIEVE mark, rehash. *)
Lemma put_index_wp s key ref rc :
  shard_ok s -> ref_to (pages s) (hashKey key) ref rc -> ekey rc = key ->
  wp ('(slot, inserted) ← upsertM (hashKey key) ref;
      s ← gets id;
      (if sieve s && negb inserted then setVisitedM slot (tagFor (hashKey key)) ref else mret tt);;
      rehashIfOverThresholdLocked)
    (post (fun s' _ => stored nokey key (evalue rc) (eexp rc) s s' /\ writeIdx s' = writeIdx s) no_err) s.
Proof.
  intros Hok Href Hk. pose proof (ok_tab _ _ s Hok) as Hw.
  pose proof (under_threshold_room _ Hw (ok_load _ _ s Hok)) as Hroom.
  destruct (upsert_ok (tab s) (hashKey key) ref Hw (Hhash key) Hroom)
    as (t1 & slot & ins & Hup & Hw1 & Ha1 & _ & _ & _ & _ & Hrg & Ho & _).
  unfold upsertM. apply wp_assoc, wp_gets, wp_assoc. rewrite Hup.
  apply wp_oget, wp_assoc, wp_modify, wp_mret. cbn beta iota. apply wp_gets. cbn [id].
  assert (Hgo : forall s1 t2, s1 = setTab s t2 -> twf t2 -> abs t2 = <[hashKey key := ref]> (abs (tab s)) ->
    wp rehashIfOverThresholdLocked
      (post (fun s' _ => stored nokey key (evalue rc) (eexp rc) s s' /\ writeIdx s' = writeIdx s) no_err) s1).
  { intros s1 t2 -> Hw2 Ha2. apply rehash_wp; [done| |].
    - apply (upsert_bound s (hashKey key) ref); eauto.
    - intros s' t3 Hw3 Ha3 Ho3 Hq3. cbn [tab setTab] in Ha3. rewrite Ha2 in Ha3.
      split; [by apply (insert_stored s s' key ref rc t3)|]. by destruct Hq3 as (_ & _ & _ & ? & _). }
  destruct (sieve _ && negb ins); [|by apply wp_mret; apply (Hgo _ t1)].
  destruct (setVisited_same t1 slot (hashKey key) ref Hw1 (Hhash key) Ho) as (t2 & Hs2 & Hm2).
  unfold setVisitedM. apply wp_assoc, wp_gets, wp_assoc. cbn [tab setTab]. rewrite Hs2.
  apply wp_oget, wp_modify. destruct Hm2 as (Hw2 & Ha2 & _). apply (Hgo _ t2); [done|done|congruence].
Qed.

(** ** Appending to a page *)

Lemma makeMeta_fits n b : fits 64 (makeMeta n b).
Proof.
  unfold makeMeta. rewrite land_mask56. pose proof (Z.mod_pos_bound n (2 ^ 56) ltac:(lia)).
  destruct b; [|unfold fits; lia]. apply fits_lor; [lia|unfold fits; lia|].
  change entryFlagTombstone with (2 ^ 56). unfold fits. lia.
Qed.

(** A page whose entry bytes and tail were rewritten. *)
Lemma rewritten_page_ok mm p p' ent t es :
  page_ok mm p -> blen ent = blen (entries p) -> p' = setTail (setEntries p ent) t -> queue p' es ->
  reuseBarrierFailed p = false -> page_ok mm p'.
Proof.
  intros [[es0 [Hwf _]] Hkind Hsize Hgen Hret _ Hv Hh] Hent -> Hq Hbar. split; try done.
  - by exists es.
  - rewrite <- Hsize. cbn [data setTail setEntries setData]. unfold entries in Hent.
    destruct (Page.isMmap p) eqn:Ei; [|done]. destruct (wf_mmap p Hwf Ei) as [Hmm _].
    unfold pageHdrSize in *. len.
  - intros H. change (reuseBarrierFailed p = true) in H. congruence.
Qed.

Lemma wp_write {B} s i p k v e m (K : Z * Z -> M B) Q :
  shard_ok s -> pages s !! Z.to_nat i = Some p -> 0 <= i -> entry_ok k v e m ->
  entrySpanExact (blen k) (blen v) <= FreeTail p -> reuseBarrierFailed p = false ->
  (forall p' s', s' = setPages s (<[Z.to_nat i := p']> (pages s)) -> evo nokey s s' ->
     pages s' !! Z.to_nat i = Some p' -> gen p' = gen p -> entry_in p' (tail p) (ERec k v e m) ->
     FreeTail p' = FreeTail p - entrySpanExact (blen k) (blen v) -> reuseBarrierFailed p' = false ->
     wp (K (tail p, entrySpanExact (blen k) (blen v))) Q s') ->
  wp (writeM i k v e m ≫= K) Q s.
Proof.
  intros Hok Hp Hi He Hfree Hbar HK.
  pose proof (Forall_lookup_1 _ _ _ _ (ok_pages _ _ s Hok) Hp) as Hpo.
  pose proof Hpo as [[es Hq] Hkind Hsize Hgen Hret Hb Hv Hh]. pose proof Hq as [Hwf _].
  destruct (Write_fits p k v e m Hwf He Hfree) as [p' HW].
  destruct (Write_entries _ _ _ _ _ _ _ _ _ Hq He HW) as (_ & Hq' & Hnew & Hold).
  destruct (Write_shape _ _ _ _ _ _ _ _ Hwf He HW) as (ent & Hent & Hshape).
  pose proof (Write_frames _ _ _ _ _ _ _ _ Hwf He HW) as (_ & _ & Hwf' & Hh' & Ht' & Hg' & Hm' & Hl' & _).
  assert (Hlt : (Z.to_nat i < length (pages s))%nat) by (by eapply lookup_lt_Some).
  unfold writeM. apply wp_assoc. eapply wp_pageAt; [done|done|].
  apply wp_assoc. rewrite HW. apply wp_lift, wp_assoc.
  apply wp_modify, wp_mret. apply (HK p'); try done.
  - apply (setPage_evo s _ p); [done|done| |].
    + apply (rewritten_page_ok (isMmap s) p p' ent (tail p + entrySpanExact (blen k) (blen v)) _ Hpo Hent Hshape Hq' Hbar).
    + intros h ref r Ha Href Hix. destruct Href as (_ & q & Hq2 & Hg2 & Hin2 & _).
      rewrite Hix, Hp in Hq2. injection Hq2 as <-. split; [congruence|]. by apply Hold.
  - cbn [pages setPages]. by rewrite list_lookup_insert_eq.
  - rewrite !FreeTail_wf by done. rewrite Ht', Hl'. unfold span. simpl. lia.
  - by rewrite Hshape.
Qed.

End Writes.
