(* ===== verification/ShardRoom.v ===== *)
(** * Finding room on a shard: page reuse, the room search and the victim
    search. *)
From S2P Require Import Prelude CacheConfig SipHash Entry Page IndexTable Shard ShardInv ShardGet ShardPut.
Import Entry Page IndexTable Shard.

(** ** Header stores leave the entries alone *)

Lemma store_header (d src : bytes) lo :
  0 <= lo -> lo + blen src <= pageHdrSize -> pageHdrSize <= blen d ->
  exists d', store (E:=cerr) d lo src = Ok d' /\ blen d' = blen d /\
    drop (Z.to_nat pageHdrSize) d' = drop (Z.to_nat pageHdrSize) d.
Proof.
  unfold pageHdrSize. intros Hlo Hsrc Hd. unfold store. pose proof (blen_nonneg src).
  rewrite (proj2 (Z.leb_le 0 lo)), (proj2 (Z.leb_le (lo + _) _)) by lia. cbn [andb].
  eexists. split; [done|]. split; [len|].
  rewrite drop_app_ge by len. rewrite drop_app_ge by len. rewrite drop_drop. f_equal. len.
Qed.

Lemma projectNonce_ok p n : Page.isMmap p = true -> pageHdrSize <= blen (data p) ->
  exists d, projectNonce p n = Ok (setData p d) /\ blen d = blen (data p) /\
    drop (Z.to_nat pageHdrSize) d = drop (Z.to_nat pageHdrSize) (data p).
Proof.
  intros Hi Hd. unfold projectNonce. rewrite Hi. cbn [negb].
  destruct (store_header (data p) (le_put 8 n) 8) as (d & -> & Hl & Hdr); try done.
  by exists d.
Qed.

Lemma projectBounds_ok p h t : Page.isMmap p = true -> pageHdrSize <= blen (data p) ->
  exists d, projectBounds p h t = Ok (setData p d) /\ blen d = blen (data p) /\
    drop (Z.to_nat pageHdrSize) d = drop (Z.to_nat pageHdrSize) (data p).
Proof.
  intros Hi Hd. unfold projectBounds. rewrite Hi. cbn [negb].
  destruct (store_header (data p) (le_put 4 h) 0) as (d & -> & Hl & Hdr); [done|by rewrite blen_le_put|done|].
  cbn [mbind outcome_bind].
  destruct (store_header d (le_put 4 t) 4) as (d' & -> & Hl' & Hdr'); [done|by rewrite blen_le_put|congruence|].
  exists d'. split; [done|]. split; congruence.
Qed.

Section Room.
Context (hashKey : bytes -> Z) (Hhash : forall k, fits 64 (hashKey k)).
Context (w : world) (cfg : Config) (Hcfg : cfg_ok cfg).
#[local] Abbreviation shard_ok := (shard_ok hashKey cfg).
#[local] Abbreviation page_ok := (page_ok cfg).
#[local] Abbreviation lookup := (lookup hashKey).
#[local] Abbreviation evo := (evo hashKey cfg).
#[local] Abbreviation ref_to := (ref_to hashKey).

(** ** Reusing an empty page *)

(** What reuse keeps of a page. *)
Definition same_page (p p' : page) : Prop :=
  gen p' = gen p /\ head p' = head p /\ tail p' = tail p /\ FreeTail p' = FreeTail p /\ retired p' = retired p.

Lemma same_page_refl p : same_page p p.
Proof. by split_and!. Qed.

Lemma same_page_trans p q r : same_page p q -> same_page q r -> same_page p r.
Proof. intros (? & ? & ? & ? & ?) (? & ? & ? & ? & ?). split_and!; congruence. Qed.

(** Only page [i] changed, from [p] to a page that satisfies [P]. *)
Definition one_page (P : page -> Prop) (i : Z) (s s' : shard) : Prop :=
  exists p', P p' /\ evo nokey s s' /\ quiet (setPages s (<[Z.to_nat i := p']> (pages s))) s'.

Lemma empty_page_no_refs s i p :
  pages s !! i = Some p -> head p = tail p -> refs_to hashKey s i (fun _ _ => False).
Proof.
  intros Hp He h ref r _ (_ & q & Hq & _ & Hin & _) Hi. rewrite Hi, Hp in Hq. injection Hq as <-.
  apply entry_in_bounds in Hin. lia.
Qed.

(** Replacing an empty page by another page object of the same kind. *)
Lemma replace_empty s i p p' :
  shard_ok s -> pages s !! i = Some p -> refs_to hashKey s i (fun _ _ => False) -> page_ok (isMmap s) p' ->
  evo nokey s (setPages s (<[i := p']> (pages s))).
Proof.
  intros Hok Hp He Hp'. apply (setPage_evo hashKey cfg s i p); [done|done|done|].
  intros h ref r Ha Hr Hi. by destruct (He h ref r Ha Hr Hi).
Qed.

Lemma reused_page_ok mm p n d b :
  page_ok mm p -> head p = tail p -> (mm = false -> b = false) ->
  blen d = blen (data p) -> drop (Z.to_nat pageHdrSize) d = drop (Z.to_nat pageHdrSize) (data p) ->
  (mm = false -> d = data p) ->
  let p' := setReuseBarrierFailed (setData (setNonce p n) d) b in
  page_ok mm p' /\ same_page p p'.
Proof.
  intros [[es [Hwf _]] Hkind Hsize Hgen Hret Hbar Hv Hh] He Hb Hl Hd Hheap p'.
  assert (Hent : entries p' = entries p).
  { unfold entries. change (Page.isMmap p') with (Page.isMmap p). rewrite Hkind.
    destruct mm; [exact Hd|by apply Hheap]. }
  assert (Hwf' : page_wf p').
  { destruct Hwf as [Hb1 Hs1 Hm1]. split; rewrite ?Hent; try done.
    intros Hi. destruct (Hm1 Hi) as [? ?]. cbn [data framingKey p' setReuseBarrierFailed setData setNonce].
    split; [lia|done]. }
  split.
  - split; try done; [exists []; split; done|cbn [data p' setReuseBarrierFailed setData setNonce]; lia|].
    intros Hm. destruct (Hh Hm) as [? ?]. split; [done|]. simpl. auto.
  - unfold same_page. rewrite !FreeTail_wf, Hent by done. by split_and!.
Qed.

Lemma zero_ok s i p :
  shard_ok s -> pages s !! Z.to_nat i = Some p -> 0 <= i -> head p = tail p ->
  let P := fun p' => page_ok (isMmap s) p' /\ same_page p p' /\ reuseBarrierFailed p' = reuseBarrierFailed p in
  wp (zeroDurableBoundsForReuseLocked w i)
    (post (fun s' _ => one_page P i s s')
          (fun s' e => e = ErrReuseBarrier /\ isMmap s = true /\ one_page P i s s')) s.
Proof.
  intros Hok Hp Hi He P. pose proof (Forall_lookup_1 _ _ _ _ (ok_pages _ _ s Hok) Hp) as Hpo.
  assert (Hlt : (Z.to_nat i < length (pages s))%nat) by (by eapply lookup_lt_Some).
  assert (Hid : forall s', quiet s s' -> one_page P i s s').
  { intros s' Hq. exists p. split; [done|]. split; [by apply quiet_evo|].
    rewrite list_insert_id by done. by destruct s. }
  unfold zeroDurableBoundsForReuseLocked. apply wp_gets. cbn [id].
  destruct (isMmap s) eqn:Em; cbn [negb]; [|by apply Hid].
  eapply wp_pageAt; [done|done|]. apply wp_gets, wp_modify.
  destruct (randomNonce w (calls s)) as [nc|]; [|split_and!; try done; by apply Hid].
  destruct Hpo as [Hq Hkind Hsize ? ? ? ? ?] eqn:Epo. clear Epo.
  pose proof (co_size _ Hcfg) as Hsz.
  destruct (projectNonce_ok (setNonce p nc) nc) as (d & Hn & Hl & Hd); [done|simpl; lia|].
  destruct (projectBounds_ok (setData (setNonce p nc) d) 0 0) as (d' & Hb & Hl' & Hd'); [done|simpl in *; lia|].
  apply wp_bind. rewrite Hn. cbn [lift wp]. apply wp_bind. rewrite Hb. cbn [lift wp].
  apply wp_modify, wp_gets, wp_modify.
  assert (Hfin : forall s', quiet (setPages s (<[Z.to_nat i := setData (setNonce p nc) d']> (pages s))) s' ->
    one_page P i s s').
  { intros s' Hqs. exists (setData (setNonce p nc) d').
    destruct (reused_page_ok true p nc d' (reuseBarrierFailed p)) as [Hok' Hsame].
    - by apply (Forall_lookup_1 _ _ _ _ (ok_pages _ _ s Hok)) in Hp; rewrite Em in Hp.
    - done.
    - done.
    - simpl in *. congruence.
    - simpl in *. congruence.
    - done.
    - replace (setReuseBarrierFailed (setData (setNonce p nc) d') (reuseBarrierFailed p))
        with (setData (setNonce p nc) d') in * by (by destruct p).
      split; [done|]. split; [|done].
      eapply evo_trans; [apply (replace_empty s (Z.to_nat i) p); [done|done|by eapply empty_page_no_refs|by rewrite Em]|].
      eapply quiet_evo; [exact Hqs|]. eapply ev_ok.
      apply (replace_empty s (Z.to_nat i) p); [done|done|by eapply empty_page_no_refs|by rewrite Em]. }
  destruct (msyncOk w _); [by apply Hfin|]. split_and!; try done. by apply Hfin.
Qed.

Lemma barrier_page_ok mm p b :
  page_ok mm p -> head p = tail p -> (mm = false -> b = false) ->
  page_ok mm (setReuseBarrierFailed p b) /\ same_page p (setReuseBarrierFailed p b).
Proof.
  intros [[es Hq] Hkind Hsize Hgen Hret Hbar Hv Hh] He Hb. split; [|done].
  split; try done.
  - exists es. by apply (same_bytes_queue p).
  - intros Hm. destruct (Hh Hm) as [? ?]. auto.
Qed.

(** A further assignment to the page [one_page] speaks of. *)
Lemma one_page_again (P P' : page -> Prop) i s s1 p' :
  (Z.to_nat i < length (pages s))%nat ->
  quiet (setPages s (<[Z.to_nat i := p']> (pages s))) s1 -> pages s1 !! Z.to_nat i = Some p'.
Proof. intros Hlt (_ & Hp & _). rewrite Hp. cbn. by rewrite list_lookup_insert_eq. Qed.

Lemma quiet_setPage s s1 i p' p'' :
  quiet (setPages s (<[Z.to_nat i := p']> (pages s))) s1 ->
  quiet (setPages s (<[Z.to_nat i := p'']> (pages s)))
        (setPages s1 (<[Z.to_nat i := p'']> (pages s1))).
Proof.
  intros (H1 & Hp & H2). cbn in Hp. split; [done|]. split; [|done]. cbn. by rewrite Hp, list_insert_insert_eq.
Qed.

Lemma clear_ok s i p :
  shard_ok s -> pages s !! Z.to_nat i = Some p -> 0 <= i -> reuseBarrierFailed p = true ->
  wp (clearReuseBarrierIfFlushableLocked w i)
    (post (fun s' b => one_page (fun p' => page_ok (isMmap s) p' /\ same_page p p' /\
             reuseBarrierFailed p' = negb b) i s s') no_err) s.
Proof.
  intros Hok Hp Hi Hbar. pose proof (Forall_lookup_1 _ _ _ _ (ok_pages _ _ s Hok) Hp) as Hpo.
  pose proof (po_barrier _ _ _ Hpo Hbar) as He.
  assert (Hlt : (Z.to_nat i < length (pages s))%nat) by (by eapply lookup_lt_Some).
  unfold clearReuseBarrierIfFlushableLocked.
  eapply (wp_seq _ _ (fun s' r => exists p', (page_ok (isMmap s) p' /\ same_page p p' /\
      reuseBarrierFailed p' = true) /\ evo nokey s s' /\
      quiet (setPages s (<[Z.to_nat i := p']> (pages s))) s')).
  - apply wp_try. eapply wp_post_mono; [by apply (zero_ok s i p)| |].
    + intros s' _ (p' & (H1 & H2 & H3) & H4 & H5). exists p'. split_and!; try done. congruence.
    + intros s' e (_ & _ & p' & (H1 & H2 & H3) & H4 & H5). exists p'. split_and!; try done. congruence.
  - intros s1 [[]|e] (p' & (H1 & H2 & H3) & H4 & H5); [|by exists p'].
    pose proof (one_page_again (fun _ => True) (fun _ => True) _ _ _ _ Hlt H5) as Hp1.
    assert (Hemp : head p' = tail p') by (destruct H2 as (_ & -> & -> & _); done).
    destruct (barrier_page_ok _ _ false H1 Hemp ltac:(done)) as [Hok' Hs'].
    eapply wp_pageAt; [done|done|]. apply wp_modify.
    exists (setReuseBarrierFailed p' false).
    split; [split; [done|split; [by eapply same_page_trans|done]]|]. split.
    + eapply evo_trans; [exact H4|]. apply (replace_empty s1 _ p'); [by eapply ev_ok|done|by eapply empty_page_no_refs|].
      by rewrite (ev_mmap _ _ _ _ _ H4).
    + by eapply quiet_setPage.
  - done.
Qed.

(** ** The room search *)

(** Page [i] can take [need] bytes. *)
Definition has_room (s : shard) (i need : Z) : Prop :=
  0 <= i /\ exists p, pages s !! Z.to_nat i = Some p /\ need <= FreeTail p /\ reuseBarrierFailed p = false.

Definition no_room (p : page) (need : Z) : Prop := FreeTail p < need \/ reuseBarrierFailed p = true.

(** The outcome of the search from page [i] on: a page with room, or no page
    had room and none has it afterwards. *)
Definition first_post (s : shard) (i need : Z) (s' : shard) (r : Z) : Prop :=
  evo nokey s s' /\ length (pages s') = length (pages s) /\
  (forall j, 0 <= j < i -> pages s' !! Z.to_nat j = pages s !! Z.to_nat j) /\
  ((0 <= r /\ has_room s' r need) \/
   (r = -1 /\ (forall j p, i <= j -> pages s !! Z.to_nat j = Some p -> no_room p need) /\
    (forall j p, i <= j -> pages s' !! Z.to_nat j = Some p -> no_room p need))).

Lemma first_loop_ok n i s need :
  shard_ok s -> 0 <= i -> i + Z.of_nat n = blen (pages s) ->
  wp (firstPageWithRoom_loop w n i need) (post (first_post s i need) no_err) s.
Proof.
  revert i s. induction n as [|n IH]; intros i s Hok Hi Hn; cbn [firstPageWithRoom_loop].
  { split; [by apply evo_refl|]. split; [done|]. split; [done|]. right. split; [done|].
    split; intros j p Hj Hp; apply lookup_lt_Some in Hp; unfold blen in Hn; lia. }
  destruct (lookup_lt_is_Some_2 (pages s) (Z.to_nat i)) as [p Hp]; [unfold blen in Hn; lia|].
  pose proof (Forall_lookup_1 _ _ _ _ (ok_pages _ _ s Hok) Hp) as Hpo.
  eapply wp_pageAt; [done|done|]. rewrite (po_retired _ _ _ Hpo).
  assert (Hnext : forall s1 p1, evo nokey s s1 -> pages s1 = <[Z.to_nat i := p1]> (pages s) ->
    no_room p need -> no_room p1 need ->
    wp (firstPageWithRoom_loop w n (i + 1) need) (post (first_post s i need) no_err) s1).
  { intros s1 p1 He Hps Hno Hno1. eapply wp_post_mono; [apply IH| |done].
    - by eapply ev_ok.
    - lia.
    - rewrite Hps, blen_insert. lia.
    - intros s' r (He' & Hl & Hlow & Hr). split; [by eapply evo_trans|].
      split; [by rewrite Hl, Hps, length_insert|]. split.
      { intros j Hj. rewrite Hlow by lia. rewrite Hps. apply list_lookup_insert_ne. lia. }
      destruct Hr as [?|(-> & Hr & Hr')]; [by left|]. right. split; [done|]. split.
      + intros j q Hj Hq. destruct (decide (j = i)) as [-> |Hne]; [congruence|].
        apply (Hr j); [lia|]. rewrite Hps, list_lookup_insert_ne by lia. done.
      + intros j q Hj Hq. destruct (decide (j = i)) as [-> |Hne]; [|apply (Hr' j); [lia|done]].
        rewrite Hlow, Hps, list_lookup_insert_eq in Hq; [congruence|by eapply lookup_lt_Some|lia]. }
  assert (Hsame : pages s = <[Z.to_nat i := p]> (pages s)) by (by rewrite list_insert_id).
  destruct (FreeTail p <? need) eqn:Ef.
  { apply Z.ltb_lt in Ef. apply (Hnext s p); try done; [by apply evo_refl|by left|by left]. }
  apply Z.ltb_ge in Ef. destruct (reuseBarrierFailed p) eqn:Eb.
  2:{ apply wp_mret. cbn beta iota. split; [by apply evo_refl|]. split; [done|]. split; [done|].
      left. split; [done|]. split; [done|]. eauto. }
  apply wp_assoc. eapply wp_seq; [by apply (clear_ok s i p)| |done].
  intros s1 b (p' & (H1 & H2 & H3) & H4 & H5). apply wp_mret.
  assert (Hlt : (Z.to_nat i < length (pages s))%nat) by (by eapply lookup_lt_Some).
  pose proof (one_page_again (fun _ => True) (fun _ => True) _ _ _ _ Hlt H5) as Hp1.
  destruct H5 as (_ & Hps & _). cbn in Hps.
  destruct b; cbn [negb] in *.
  - split; [done|]. split; [by rewrite Hps, length_insert|]. split.
    { intros j Hj. rewrite Hps. apply list_lookup_insert_ne. lia. }
    left. split; [done|]. split; [done|]. exists p'. destruct H2 as (_ & _ & _ & -> & _). done.
  - apply (Hnext s1 p'); try done; [by right|by right].
Qed.

Lemma first_ok s need :
  shard_ok s ->
  wp (firstPageWithRoomLocked w need)
    (post (fun s' r => evo nokey s s' /\ length (pages s') = length (pages s) /\
       ((0 <= r /\ has_room s' r need) \/
        (r = -1 /\ (forall j, ~ has_room s j need) /\ forall j, ~ has_room s' j need))) no_err) s.
Proof.
  intros Hok. unfold firstPageWithRoomLocked. apply wp_gets.
  eapply wp_post_mono; [apply first_loop_ok; [done|lia|unfold blen; lia]| |done].
  intros s' r (He & Hl & _ & Hr). split; [done|]. split; [done|]. destruct Hr as [?|(-> & Hr & Hr')]; [by left|]. right. split; [done|].
  split; intros j (Hj & p & Hp & Hf & Hb).
  - destruct (Hr j p Hj Hp); [lia|congruence].
  - destruct (Hr' j p Hj Hp); [lia|congruence].
Qed.

(** ** The victim search *)

(** The outcome of the search from offset [off] of the rotation on. *)
Definition victim_found (s : shard) (skip r : Z) : Prop :=
  0 <= r < blen (pages s) /\ r <> skip /\ exists p, pages s !! Z.to_nat r = Some p /\ head p <> tail p.

Definition next_post (s : shard) (off skip : Z) (s' : shard) (r : Z) : Prop :=
  s' = s /\
  ((r = -1 /\ forall o p, off <= o < blen (pages s) ->
      pages s !! Z.to_nat ((nextVictim s + o) mod blen (pages s)) = Some p ->
      (nextVictim s + o) mod blen (pages s) = skip \/ head p = tail p) \/
   victim_found s skip r).

Lemma next_loop_ok n off skip s :
  shard_ok s -> 0 <= off -> off + Z.of_nat n = blen (pages s) ->
  wp (nextNonEmptyPage_loop n off skip) (post (next_post s off skip) no_err) s.
Proof.
  revert off. induction n as [|n IH]; intros off Hok Hoff Hn; cbn [nextNonEmptyPage_loop].
  { split; [done|]. left. split; [done|]. intros o p Ho. lia. }
  apply wp_gets. cbn [id]. pose proof (ok_victim _ _ s Hok).
  rewrite Z.rem_mod_nonneg by lia. set (i := (nextVictim s + off) mod blen (pages s)).
  assert (Hi : 0 <= i < blen (pages s)) by (apply Z.mod_pos_bound; lia).
  destruct (lookup_lt_is_Some_2 (pages s) (Z.to_nat i)) as [p Hp]; [unfold blen in *; lia|].
  assert (Hnext : (i = skip \/ head p = tail p) -> wp (nextNonEmptyPage_loop n (off + 1) skip) (post (next_post s off skip) no_err) s).
  { intros Hskip. eapply wp_post_mono; [apply IH; [done|lia|lia]| |done].
    intros s' r [-> Hr]. split; [done|]. destruct Hr as [[-> Hr]|?]; [|by right]. left. split; [done|].
    intros o q Ho Hq. destruct (decide (o = off)) as [-> |Hne]; [|apply Hr; [lia|done]].
    fold i in Hq |- *. rewrite Hp in Hq. injection Hq as <-. done. }
  destruct (i =? skip) eqn:Es; [apply Z.eqb_eq in Es; by apply Hnext; left|]. apply Z.eqb_neq in Es.
  eapply wp_pageAt; [done|lia|]. unfold Empty.
  destruct (head p =? tail p) eqn:Ee; cbn [negb].
  - apply Z.eqb_eq in Ee. apply Hnext. by right.
  - apply Z.eqb_neq in Ee. split; [done|]. right. split; [lia|]. split; [done|]. eauto.
Qed.

Lemma next_ok skip s :
  shard_ok s ->
  wp (nextNonEmptyPageLocked skip)
    (post (fun s' r => s' = s /\
       ((r = -1 /\ forall j p, 0 <= j -> j <> skip -> pages s !! Z.to_nat j = Some p -> head p = tail p) \/
        victim_found s skip r)) no_err) s.
Proof.
  intros Hok. unfold nextNonEmptyPageLocked. apply wp_gets.
  eapply wp_post_mono; [apply next_loop_ok; [done|lia|unfold blen; lia]| |done].
  intros s' r [-> Hr]. split; [done|]. destruct Hr as [[-> Hr]|?]; [|by right]. left. split; [done|].
  intros j p Hj Hne Hp. assert (Hlt : j < blen (pages s)) by (apply lookup_lt_Some in Hp; unfold blen; lia).
  set (n := blen (pages s)) in *.
  assert (E1 : (nextVictim s + (j - nextVictim s) mod n) mod n = j).
  { rewrite Zplus_mod_idemp_r. replace (nextVictim s + (j - nextVictim s)) with j by lia. apply Z.mod_small. lia. }
  destruct (Hr ((j - nextVictim s) mod n) p) as [?|?]; [apply Z.mod_pos_bound; lia|by rewrite E1|congruence|done].
Qed.

End Room.
