(* ===== verification/ShardEvict.v ===== *)
(** * Eviction: retiring heap pages, draining mmap pages, relocating live
    entries, and the loop that frees room. *)
From S2P Require Import Prelude CacheConfig SipHash Entry Page IndexTable Shard ShardInv ShardGet ShardPut ShardRoom.
Import Entry Page IndexTable Shard.

(** ** Offsets of a run of entries *)

Fixpoint offs (lo : Z) (es : list erec) : list Z :=
  match es with
  | [] => []
  | r :: es => lo :: offs (lo + span r) es
  end.

Lemma tiled_count p lo hi es : tiled p lo hi es -> 30 * blen es <= hi - lo.
Proof.
  revert lo. induction es as [|r es IH]; simpl; intros lo.
  - intros ->. len.
  - intros [_ Ht%IH]. pose proof (span_pos r). unfold entryHeaderSize in *. rewrite blen_cons. lia.
Qed.

Lemma offs_spans lo es1 r es2 : lo + spans es1 ∈ offs lo (es1 ++ r :: es2).
Proof.
  revert lo. induction es1 as [|r1 es1 IH]; simpl; intros lo.
  - rewrite Z.add_0_r. apply list_elem_of_here.
  - apply list_elem_of_further. replace (lo + (span r1 + spans es1)) with ((lo + span r1) + spans es1) by lia. apply IH.
Qed.

Lemma entry_in_offs p es off r : queue p es -> entry_in p off r -> off ∈ offs (head p) es.
Proof. intros Hq Hin. destruct (entry_in_split _ _ _ _ Hq Hin) as (es1 & es2 & -> & ->). apply offs_spans. Qed.

(** ** Popping the oldest entry by moving the head *)

Definition pop (p : page) (newHead : Z) : page :=
  if tail p <=? newHead then setTail (setHead p 0) 0 else setHead p newHead.

Lemma pop_queue p r es : queue p (r :: es) -> queue (pop p (head p + span r)) es.
Proof.
  intros Hq. pose proof Hq as [[Hb Hsz Hmm] [Hf Ht]].
  pose proof (tiled_le _ _ _ _ Ht) as Hle. pose proof (span_pos r) as Hs. unfold entryHeaderSize in Hs.
  unfold pop. destruct (tail p <=? head p + span r) eqn:E1.
  - apply Z.leb_le in E1. assert (head p + span r = tail p) as E2 by lia. rewrite E2 in Ht.
    destruct es as [|r' es].
    + eapply (queue_bounds p _ _ 0 0 Hq); try done; simpl; try lia.
    + destruct Ht as [_ Ht]. apply tiled_le in Ht. pose proof (span_pos r').
      unfold entryHeaderSize in *. lia.
  - apply Z.leb_gt in E1. eapply (queue_bounds p _ _ (head p + span r) (tail p) Hq); try done; simpl; lia.
Qed.

Lemma pop_head p r es : queue p (r :: es) ->
  (es = [] /\ head (pop p (head p + span r)) = 0 /\ tail (pop p (head p + span r)) = 0) \/
  (es <> [] /\ head (pop p (head p + span r)) = head p + span r).
Proof.
  intros Hq. pose proof Hq as [_ [Hf Ht]]. unfold pop. destruct (tail p <=? head p + span r) eqn:E1.
  - left. split; [|done]. apply Z.leb_le in E1. pose proof (tiled_le _ _ _ _ Ht).
    destruct es as [|r' es]; [done|]. destruct Ht as [_ Ht]. apply tiled_le in Ht. pose proof (span_pos r').
    unfold entryHeaderSize in *. lia.
  - right. split; [|done]. intros ->. simpl in Ht. apply Z.leb_gt in E1. lia.
Qed.

Lemma pop_entry p r es off r' :
  queue p (r :: es) -> entry_in p off r' -> off <> head p -> entry_in (pop p (head p + span r)) off r'.
Proof.
  intros Hq Hin Hne. destruct (entry_in_split _ _ _ _ Hq Hin) as (es1 & es2 & Heq & ->).
  destruct es1 as [|r1 es1]; simpl in *; [lia|]. injection Heq as <- ->.
  pose proof (pop_queue _ _ _ Hq) as Hq'. exists es1, es2. split; [done|].
  destruct (pop_head _ _ _ Hq) as [(Hnil & _)|(_ & ->)]; [by destruct es1|lia].
Qed.

Lemma pop_same p nh :
  data (pop p nh) = data p /\ gen (pop p nh) = gen p /\ Page.isMmap (pop p nh) = Page.isMmap p /\
  retired (pop p nh) = retired p /\ reuseBarrierFailed (pop p nh) = reuseBarrierFailed p /\ vers (pop p nh) = vers p /\
  entries (pop p nh) = entries p.
Proof. unfold pop. by destruct (tail p <=? nh). Qed.

(** The hot decoder at an entry, with the rest of the live region behind it. *)
Lemma decode_at p off r hi :
  framed p off r -> off + span r <= hi -> 
  decodeEntryFast (take (Z.to_nat (hi - off)) (drop (Z.to_nat off) (entries p))) = Ok (ekey r, evalue r, eexp r).
Proof.
  intros (Hrok & Hoff & mac & Htake & _) Hhi. pose proof (span_pos r) as Hs. unfold entryHeaderSize in Hs.
  replace (take (Z.to_nat (hi - off)) (drop (Z.to_nat off) (entries p)))
    with (frame (ekey r) (evalue r) (eexp r) (emeta r) mac ++
      take (Z.to_nat (hi - off) - Z.to_nat (span r)) (drop (Z.to_nat (span r)) (drop (Z.to_nat off) (entries p)))).
  - by apply decodeEntryFast_frame.
  - rewrite <- Htake, take_take_drop. f_equal. lia.
Qed.

Section Evict.
Context (hashKey : bytes -> Z) (Hhash : forall k, fits 64 (hashKey k)).
Context (w : world) (cfg : Config) (Hcfg : cfg_ok cfg).
#[local] Abbreviation shard_ok := (shard_ok hashKey cfg).
#[local] Abbreviation page_ok := (page_ok cfg).
#[local] Abbreviation lookup := (lookup hashKey).
#[local] Abbreviation evo := (evo hashKey cfg).
#[local] Abbreviation ref_to := (ref_to hashKey).

(** ** Dropping one entry from the index *)

(** Only the index changed, and it only lost entries. *)
Definition index_shrinks (s s' : shard) : Prop :=
  quiet (setTab s (tab s')) s' /\
  forall h ref, abs (tab s') !! h = Some ref -> abs (tab s) !! h = Some ref.

Lemma index_shrinks_refl s : index_shrinks s s.
Proof. by split. Qed.

Lemma index_shrinks_trans s1 s2 s3 : index_shrinks s1 s2 -> index_shrinks s2 s3 -> index_shrinks s1 s3.
Proof.
  intros [Hq Hi] [Hq' Hi']. split; [|auto]. unfold quiet in *. simpl in *. intuition congruence.
Qed.

Lemma quiet_shrinks s s' : quiet s s' -> index_shrinks s s'.
Proof. intros Hq. split; [unfold quiet in *; simpl in *; intuition congruence|]. by destruct Hq as (-> & _). Qed.

Lemma index_shrinks_pages s s' : index_shrinks s s' -> pages s' = pages s.
Proof. by intros [(_ & ? & _) _]. Qed.

(** The reference of the entry at offset [off] of page [i]. *)
Lemma entry_ref s i p off r :
  shard_ok s -> pages s !! Z.to_nat i = Some p -> 0 <= i -> entry_in p off r ->
  let ref := SlabRef.makeSlabRef (u16 i) (gen p) (u32 off) in
  fits 64 ref /\ SlabRef.pageIdx ref = i /\ SlabRef.gen ref = gen p /\ SlabRef.offset ref = off.
Proof.
  intros Hok Hp Hi Hin. cbv zeta. pose proof (entry_in_bounds _ _ _ Hin) as [Ho _].
  assert (Hlt : i < blen (pages s)) by (apply lookup_lt_Some in Hp; unfold blen; lia).
  pose proof (ok_len _ _ s Hok). pose proof (co_pages _ Hcfg).
  pose proof (po_gen _ _ _ (Forall_lookup_1 _ _ _ _ (ok_pages _ _ s Hok) Hp)) as Hg.
  assert (fits 16 i) by (unfold fits; lia). assert (fits 32 off) by (unfold fits; lia).
  rewrite (wrap_fits 16 i), (wrap_fits 32 off) by done.
  destruct (SlabRef.slabref_fields i (gen p) off) as (-> & -> & ->); [done..|]. split_and!; try done.
  rewrite SlabRef.makeSlabRef_add by done. unfold fits in *. lia.
Qed.

Lemma drop_ok s i p off r :
  shard_ok s -> pages s !! Z.to_nat i = Some p -> 0 <= i -> entry_in p off r ->
  let ref := SlabRef.makeSlabRef (u16 i) (gen p) (u32 off) in
  wp (dropIfCurrent hashKey (ekey r) ref)
    (post (fun s' _ => evo anykey s s' /\ index_shrinks s s' /\
       forall h ref', abs (tab s') !! h = Some ref' -> SlabRef.pageIdx ref' = i -> SlabRef.offset ref' <> off) no_err) s.
Proof.
  intros Hok Hp Hi Hin. cbv zeta. set (ref := SlabRef.makeSlabRef _ _ _).
  destruct (entry_ref s i p off r Hok Hp Hi Hin) as (Hf & Hpi & Hg & Ho). fold ref in Hf, Hpi, Hg, Ho.
  pose proof (ok_tab _ _ s Hok) as Hw.
  (* whatever the index holds at this offset is this entry, under its hash *)
  assert (Hsame : forall h ref', abs (tab s) !! h = Some ref' -> SlabRef.pageIdx ref' = i -> SlabRef.offset ref' = off ->
    h = hashKey (ekey r) /\ ref' = ref).
  { intros h ref' Ha Hpi' Ho'. destruct (ok_index _ _ s Hok _ _ Ha) as (r' & Hf' & q & Hq & Hg' & Hin' & Hh & _).
    rewrite Hpi', Hp in Hq. injection Hq as <-. rewrite Ho' in Hin'.
    pose proof (entry_in_inj _ _ _ _ Hin Hin') as <-. split; [done|].
    rewrite <- (makeSlabRef_eta ref' Hf'), <- (makeSlabRef_eta ref Hf). congruence. }
  apply wp_findSlot; [done|done|]. intros [[slot cur]|] Hfind.
  - destruct (found_ref _ _ _ _ _ _ Hok Hfind) as (_ & _ & _ & _ & _ & _ & _ & _ & Hcur).
    destruct Hfind as (Hrg & Hocc & Hr). destruct (cur =? ref) eqn:Ec.
    + apply Z.eqb_eq in Ec as ->. apply wp_modify. unfold wp; simpl.
      pose proof (tombstone_evo hashKey cfg s slot _ Hok ltac:(lia) Hocc) as He.
      pose proof (tombstone_abs (tab s) slot _ Hw (proj1 Hrg) Hocc) as Ha.
      split; [by eapply evo_weaken; [|exact He]|]. split; [split; [done|]|].
      * intros h ref'. simpl. rewrite Ha. by intros [_ ?]%lookup_delete_Some.
      * intros h ref'. simpl. rewrite Ha. intros [Hne Ha']%lookup_delete_Some Hpi' Ho'.
        by destruct (Hsame _ _ Ha' Hpi' Ho').
    + apply Z.eqb_neq in Ec. split; [by apply evo_refl|]. split; [done|].
      intros h ref' Ha Hpi' Ho'. destruct (Hsame _ _ Ha Hpi' Ho') as [-> ->]. congruence.
  - split; [by apply evo_refl|]. split; [done|]. intros h ref' Ha Hpi' Ho'.
    destruct (Hsame _ _ Ha Hpi' Ho') as [-> _]. apply (find_result_abs _ _ None Hw) in Hfind. simpl in Hfind. congruence.
Qed.

(** ** Retiring a heap page *)

(** After the walk over the entries [es] from [cursor] on, the index holds none
    of them. *)
Definition unindexed (s : shard) (i : Z) (l : list Z) : Prop :=
  forall h ref, abs (tab s) !! h = Some ref -> SlabRef.pageIdx ref = i -> SlabRef.offset ref ∉ l.

Lemma unindexed_shrinks s s' i l : index_shrinks s s' -> unindexed s i l -> unindexed s' i l.
Proof. intros [_ Hi] Hu h ref Ha. apply Hu with h. auto. Qed.

(** Dropping the head of the walk, then the counters and the trace. *)
Lemma wp_drop_then {B} s i p off r ref (A C : M unit) (K : M B) Q R :
  shard_ok s -> pages s !! Z.to_nat i = Some p -> 0 <= i -> entry_in p off r ->
  ref = SlabRef.makeSlabRef (u16 i) (gen p) (u32 off) ->
  (forall s1, wp A (post (fun s' _ => quiet s1 s') no_err) s1) ->
  (forall s1, wp C (post (fun s' _ => quiet s1 s') no_err) s1) ->
  (forall s', evo anykey s s' -> index_shrinks s s' -> unindexed s' i [off] -> wp K (post Q R) s') ->
  wp (hit ← dropIfCurrent hashKey (ekey r) ref; (if hit : bool then A else mret tt);; C;; K) (post Q R) s.
Proof.
  intros Hok Hp Hi Hin -> HA HC HK.
  eapply wp_seq; [by apply drop_ok| |done]. intros s1 hit (He & Hsh & Hno).
  eapply (wp_seq _ _ (fun s' _ => quiet s1 s') no_err); [destruct hit; [apply HA|apply quiet_refl]| |done].
  intros s2 [] Hq2. eapply wp_seq; [apply HC| |done]. intros s3 [] Hq3.
  pose proof (quiet_ok _ _ _ _ Hq2 (ev_ok _ _ _ _ _ He)) as Hok2.
  apply HK.
  - eapply evo_trans; [exact He|]. eapply evo_trans; eapply quiet_evo; eauto using quiet_ok, ev_ok.
  - eapply index_shrinks_trans; [exact Hsh|]. eapply index_shrinks_trans; by apply quiet_shrinks.
  - intros h ref' Ha Hpi Hel%list_elem_of_singleton.
    destruct Hq2 as (E2 & _), Hq3 as (E3 & _). rewrite E3, E2 in Ha. by apply (Hno h ref').
Qed.

Lemma retire_walk_ok fuel s i old n cursor es1 es :
  shard_ok s -> pages s !! Z.to_nat i = Some old -> 0 <= i -> queue old (es1 ++ es) ->
  cursor = head old + spans es1 -> (length es < fuel)%nat ->
  wp (retire_walk hashKey fuel i old n cursor)
    (post (fun s' _ => evo anykey s s' /\ index_shrinks s s' /\ unindexed s' i (offs cursor es)) no_err) s.
Proof.
  revert s cursor es1 es. induction fuel as [|fuel IH]; intros s cursor es1 es Hok Hp Hi Hq Hc Hf; [lia|].
  cbn [retire_walk]. pose proof Hq as [Hwf Ht]. apply tiled_app in Ht as [_ Ht]. rewrite <- Hc in Ht.
  destruct es as [|r es].
  { simpl in Ht. rewrite (proj2 (Z.leb_le _ _)) by lia. split; [by apply evo_refl|]. split; [done|].
    intros h ref _ _. apply not_elem_of_nil. }
  pose proof Ht as [Hfr Ht']. pose proof (tiled_le _ _ _ _ Ht') as Hle. pose proof (span_pos r) as Hs.
  unfold entryHeaderSize in Hs. rewrite (proj2 (Z.leb_gt _ _)) by lia.
  assert (Hin : entry_in old cursor r) by (exists es1, es; split; done).
  destruct Hwf as [Hb _ _]. pose proof Hfr as (Hrok & Hoff & mac & Htake & _).
  rewrite slice_in by lia. apply wp_lift.
  rewrite (decode_at old cursor r (tail old)) by (done || lia).
  eapply (wp_drop_then s i old cursor r); try done.
  - intros s1. destruct (isExpired _ _); apply wp_bump; intros s2 Hq2; apply wp_fire_end; intros s3 Hq3;
      by eapply quiet_trans.
  - intros s1 He1 Hsh1 Hun1. unfold entrySpan, classOf. change (entrySpanExact _ _) with (span r).
    eapply wp_post_mono; [apply (IH s1 (cursor + span r) (es1 ++ [r]) es)| |done].
    + by eapply ev_ok.
    + by rewrite (index_shrinks_pages _ _ Hsh1).
    + done.
    + by rewrite <- app_assoc.
    + rewrite Hc. clear. induction es1; simpl; lia.
    + simpl in Hf. lia.
    + intros s' _ (He' & Hsh' & Hun'). split; [by eapply evo_trans|]. split; [by eapply index_shrinks_trans|].
      intros h ref Ha Hpi. simpl. intros [Heq|Hin']%elem_of_cons.
      * apply (unindexed_shrinks _ _ _ _ Hsh' Hun1 h ref Ha Hpi). rewrite Heq. apply list_elem_of_here.
      * by apply (Hun' h ref Ha Hpi).
Qed.

(** Once every entry of page [i] is out of the index, nothing refers to it. *)
Lemma unindexed_page s i p es :
  pages s !! Z.to_nat i = Some p -> 0 <= i -> queue p es -> unindexed s i (offs (head p) es) ->
  refs_to hashKey s (Z.to_nat i) (fun _ _ => False).
Proof.
  intros Hp Hi Hq Hun h ref r Ha Hr Hpi. pose proof (ref_to_idx _ _ _ _ _ Hr) as [? _].
  destruct Hr as (_ & q & Hq' & _ & Hin & _). rewrite Hpi, Hp in Hq'. injection Hq' as <-.
  apply (Hun h ref Ha); [lia|]. by eapply entry_in_offs.
Qed.

Lemma fresh_wp {B} s (K : page -> M B) Q :
  shard_ok s -> isMmap s = false ->
  (forall p s', page_ok false p -> head p = tail p -> FreeTail p = PageSize cfg -> reuseBarrierFailed p = false ->
     evo nokey s s' -> pages s' = pages s -> tab s' = tab s -> wp (K p) Q s') ->
  wp (freshHeapPageLocked cfg ≫= K) Q s.
Proof.
  intros Hok Hm HK. unfold freshHeapPageLocked, nextGen.
  apply wp_assoc, wp_assoc, wp_gets, wp_assoc, wp_modify, wp_mret, wp_assoc, wp_gets, wp_mret. cbv zeta. cbn [id].
  pose proof (ok_gen _ _ s Hok) as Hg. pose proof (co_size _ Hcfg) as Hsz.
  set (s1 := setGenCounter s _). set (p0 := setGen (newHeapPage (PageSize cfg)) (genCounter s)).
  assert (Hq0 : queue p0 []).
  { apply (same_bytes_queue (newHeapPage (PageSize cfg))); [done|]. apply newHeapPage_queue. unfold pageHdrSize in *. lia. }
  assert (Hp0 : page_ok false p0).
  { split; try done; [by exists []|]. cbn. unfold blen. rewrite length_replicate. unfold pageHdrSize in *. lia. }
  assert (Hf0 : FreeTail p0 = PageSize cfg).
  { unfold FreeTail. cbn. unfold entries. cbn. unfold blen. rewrite length_replicate. unfold pageHdrSize in *. lia. }
  apply HK.
  - destruct (seqlockReads cfg s1); [|done]. destruct Hp0. split; try done.
    + exists []. by apply (same_bytes_queue p0).
    + unfold vers_ok. simpl. split; [done|]. by repeat constructor.
  - by destruct (seqlockReads cfg s1).
  - by destruct (seqlockReads cfg s1).
  - by destruct (seqlockReads cfg s1).
  - split; try done; [|by left]. apply (shard_ok_ext _ _ s); try done.
    + apply Hok.
    + apply Hok.
    + apply fits_wrap. lia.
  - done.
  - done.
Qed.

(** Freed: the page can take anything that fits a page. *)
Definition freed (s : shard) (i : Z) : Prop :=
  0 <= i /\ exists p, pages s !! Z.to_nat i = Some p /\ maxEntryBytes cfg s <= FreeTail p /\ reuseBarrierFailed p = false.

Lemma retire_ok s i p :
  shard_ok s -> isMmap s = false -> pages s !! Z.to_nat i = Some p -> 0 <= i ->
  wp (retirePageLocked hashKey w cfg i) (post (fun s' _ => evo anykey s s' /\ freed s' i) no_err) s.
Proof.
  intros Hok Hm Hp Hi. pose proof (Forall_lookup_1 _ _ _ _ (ok_pages _ _ s Hok) Hp) as [[es Hq] _ _ _ _ _ _ _].
  assert (Hlt : (Z.to_nat i < length (pages s))%nat) by (by eapply lookup_lt_Some).
  unfold retirePageLocked. eapply wp_pageAt; [done|done|]. apply wp_now. intros s1 n Hq1.
  pose proof (quiet_ok _ _ _ _ Hq1 Hok) as Hok1. pose proof (quiet_evo _ _ anykey _ _ Hq1 Hok) as He1.
  assert (Hp1 : pages s1 !! Z.to_nat i = Some p) by (by destruct Hq1 as (_ & -> & _)).
  eapply wp_seq; [apply (retire_walk_ok _ s1 i p n (head p) [] es); try done| |done].
  - simpl. lia.
  - pose proof Hq as [[Hb _ _] Ht]. apply tiled_count in Ht. unfold blen in *. lia.
  - intros s2 [] (He2 & Hsh & Hun). pose proof (ev_ok _ _ _ _ _ He2) as Hok2.
    assert (Hp2 : pages s2 !! Z.to_nat i = Some p) by (by rewrite (index_shrinks_pages _ _ Hsh)).
    assert (Hm2 : isMmap s2 = false) by (rewrite (ev_mmap _ _ _ _ _ He2), (ev_mmap _ _ _ _ _ He1); done).
    apply fresh_wp; [done|done|]. intros p' s3 Hpo He Hf Hb He3 Hps Htab.
    pose proof (ev_ok _ _ _ _ _ He3) as Hok3.
    assert (Hrefs : refs_to hashKey s3 (Z.to_nat i) (fun _ _ => False)).
    { intros h ref r Ha Hr. rewrite Htab in Ha. rewrite Hps in Hr.
      by apply (unindexed_page s2 i p es Hp2 Hi Hq Hun h ref r Ha Hr). }
    assert (He4 : evo nokey s3 (setPages s3 (<[Z.to_nat i := p']> (pages s3)))).
    { apply (replace_empty hashKey cfg s3 _ p); [done|by rewrite Hps|done|].
      by rewrite (ev_mmap _ _ _ _ _ He3), Hm2. }
    unfold wp, setPage, modify. cbn. split.
    + eapply evo_trans; [exact He1|]. eapply evo_trans; [exact He2|].
      eapply evo_trans; [by eapply evo_weaken; [|exact He3]|by eapply evo_weaken; [|exact He4]].
    + split; [done|]. exists p'. cbn. rewrite list_lookup_insert_eq.
      * split_and!; try done. unfold maxEntryBytes. cbn. rewrite (ev_mmap _ _ _ _ _ He3), Hm2. lia.
      * rewrite Hps. by eapply lookup_lt_Some.
Qed.

(** ** Draining an mmap page *)

Lemma pop_page_ok p r es :
  page_ok true p -> queue p (r :: es) -> reuseBarrierFailed p = false -> page_ok true (pop p (head p + span r)).
Proof.
  intros [_ Hkind Hsize Hgen Hret Hbar Hv Hh] Hq Hb.
  destruct (pop_same p (head p + span r)) as (E1 & E2 & E3 & E4 & E5 & E6 & _).
  split; [by exists es; apply pop_queue|congruence|congruence|congruence|congruence|congruence| |done].
  unfold vers_ok in *. by rewrite E6.
Qed.

Lemma nonempty_barrier mm p r es : page_ok mm p -> queue p (r :: es) -> reuseBarrierFailed p = false.
Proof.
  intros Hpo Hq. destruct (reuseBarrierFailed p) eqn:Eb; [|done].
  pose proof (empty_queue _ _ Hq (po_barrier _ _ _ Hpo Eb)). done.
Qed.

Lemma drain_loop_ok fuel s i p es n :
  shard_ok s -> isMmap s = true -> pages s !! Z.to_nat i = Some p -> 0 <= i -> queue p es -> (length es < fuel)%nat ->
  wp (drain_loop hashKey w fuel i n)
    (post (fun s' b => b = false /\ evo anykey s s' /\ exists p', pages s' !! Z.to_nat i = Some p' /\
        reuseBarrierFailed p' = reuseBarrierFailed p /\
        (es = [] -> p' = p) /\ (es <> [] -> head p' = 0 /\ tail p' = 0)) no_err) s.
Proof.
  revert s p es. induction fuel as [|fuel IH]; intros s p es Hok Hm Hp Hi Hq Hf; [lia|].
  cbn [drain_loop]. eapply wp_pageAt; [done|done|]. pose proof Hq as [Hwf Ht].
  destruct es as [|r es].
  { simpl in Ht. unfold Empty. rewrite (proj2 (Z.eqb_eq _ _) Ht). split; [done|].
    split; [by apply evo_refl|]. by exists p. }
  pose proof (Forall_lookup_1 _ _ _ _ (ok_pages _ _ s Hok) Hp) as Hpo. rewrite Hm in Hpo.
  pose proof (nonempty_barrier _ _ _ _ Hpo Hq) as Hbar.
  pose proof Ht as [Hfr Ht']. pose proof (tiled_le _ _ _ _ Ht') as Hle. pose proof (span_pos r) as Hs.
  unfold entryHeaderSize in Hs. destruct Hwf as [Hb Hsz Hmm]. pose proof (po_kind _ _ _ Hpo) as Hkind.
  unfold Empty, badBounds. rewrite (proj2 (Z.eqb_neq _ _)) by lia.
  rewrite (proj2 (Z.ltb_ge (head p) 0)), (proj2 (Z.ltb_ge (tail p) (head p))), (proj2 (Z.ltb_ge _ (tail p))) by lia.
  cbn [orb]. cbv zeta.
  assert (Hu : u32 (head p) = head p) by (apply wrap_fits; unfold fits; lia).
  pose proof (decodeEntry_framed p (head p) r (tail p) Hfr Hkind ltac:(by apply Hmm) ltac:(lia)) as Hdec.
  apply wp_bind. destruct (slice (entries p) (head p) (tail p)) as [src| |]; try done. cbn [mbind outcome_bind] in Hdec.
  cbn [lift wp]. rewrite Hu, Hdec.
  assert (Hin : entry_in p (head p) r) by (exists [], es; split; [done|simpl; lia]).
  change (entrySpanExact _ _) with (span r).
  eapply (wp_drop_then s i p (head p) r); try done; [by rewrite Hu| |].
  { intros s1. destruct (negb (isExpired _ _)).
    - apply wp_bump. intros s2 Hq2. apply wp_fire_end. intros s3 Hq3. by eapply quiet_trans.
    - apply wp_mret, wp_fire_end. by intros s3 Hq3. }
  intros s1 He1 Hsh1 Hun1. apply wp_modify. fold (pop p (head p + span r)).
  pose proof (index_shrinks_pages _ _ Hsh1) as Hps1. pose proof (ev_ok _ _ _ _ _ He1) as Hok1.
  assert (Hp1 : pages s1 !! Z.to_nat i = Some p) by (by rewrite Hps1).
  assert (Hm1 : isMmap s1 = true) by (by rewrite (ev_mmap _ _ _ _ _ He1)).
  set (p1 := pop p (head p + span r)).
  assert (He2 : evo nokey s1 (setPages s1 (<[Z.to_nat i := p1]> (pages s1)))).
  { apply (setPage_evo _ _ s1 _ p); [done|done|by rewrite Hm1; eapply pop_page_ok|].
    intros h ref r' Ha Href Hpi. pose proof (ref_to_idx _ _ _ _ _ Href) as [? _].
    destruct Href as (_ & q & Hq' & Hg & Hin' & _). rewrite Hpi, Hp1 in Hq'. injection Hq' as <-.
    split; [unfold p1; by destruct (pop_same p (head p + span r)) as (_ & -> & _)|].
    eapply pop_entry; [done|done|]. intros Heq. apply (Hun1 h ref Ha); [lia|]. rewrite Heq. apply list_elem_of_here. }
  assert (Hlt : (Z.to_nat i < length (pages s1))%nat) by (by eapply lookup_lt_Some).
  eapply wp_post_mono; [apply (IH _ p1 es)| |done].
  - by eapply ev_ok.
  - done.
  - cbn. by rewrite list_lookup_insert_eq.
  - done.
  - by apply pop_queue.
  - simpl in Hf. lia.
  - intros s' b (-> & He3 & p' & Hp' & Hbp & Hnil & Hne). split; [done|]. split.
    { eapply evo_trans; [exact He1|]. eapply evo_trans; [by eapply evo_weaken; [|exact He2]|done]. }
    exists p'. split; [done|].
    split; [rewrite Hbp; unfold p1; by destruct (pop_same p (head p + span r)) as (_ & _ & _ & _ & -> & _)|].
    split; [done|]. intros _.
    destruct (pop_head _ _ _ Hq) as [(-> & Hh & Htl)|(Hnn & _)]; [|by apply Hne].
    rewrite Hnil by done. done.
Qed.

Lemma poison_ok s i p :
  shard_ok s -> isMmap s = true -> pages s !! Z.to_nat i = Some p -> 0 <= i -> head p = 0 -> tail p = 0 ->
  reuseBarrierFailed p = false ->
  wp (barrierOrPoison w i)
    (post (fun s' _ => evo nokey s s' /\ freed s' i) (fun s' e => evo nokey s s' /\ e = ErrReuseBarrier)) s.
Proof.
  intros Hok Hm Hp Hi Hh Ht Hb. unfold barrierOrPoison.
  assert (Hlt : (Z.to_nat i < length (pages s))%nat) by (by eapply lookup_lt_Some).
  eapply (wp_seq _ _ (fun s' r => (r = inl () \/ r = inr ErrReuseBarrier) /\ exists p', (page_ok (isMmap s) p' /\ same_page p p' /\
      reuseBarrierFailed p' = false) /\ evo nokey s s' /\
      quiet (setPages s (<[Z.to_nat i := p']> (pages s))) s') no_err).
  - apply wp_try. eapply wp_post_mono; [apply (zero_ok hashKey w cfg Hcfg s i p); try done; congruence| |].
    + intros s' [] (p' & (H1 & H2 & H3) & H4 & H5). split; [by left|]. exists p'. split_and!; try done. congruence.
    + intros s' e (-> & _ & p' & (H1 & H2 & H3) & H4 & H5). split; [by right|]. exists p'. split_and!; try done. congruence.
  - intros s1 r (Hr & p' & (H1 & H2 & H3) & H4 & H5).
    pose proof (one_page_again (fun _ => True) (fun _ => True) _ _ _ _ Hlt H5) as Hp1.
    destruct H2 as (Eg & Eh & Et & Ef & Er). rewrite Hh in Eh. rewrite Ht in Et.
    destruct Hr as [-> | ->].
    + split; [done|]. split; [done|]. exists p'. split_and!; try done.
      unfold maxEntryBytes. rewrite (ev_mmap _ _ _ _ _ H4), Hm. rewrite Hm in H1.
      destruct H1 as [[es [Hwf _]] Hkind Hsize _ _ _ _ _]. rewrite FreeTail_wf by done. rewrite Et.
      unfold entries. rewrite Hkind. pose proof (co_size _ Hcfg). unfold pageHdrSize in *. len.
    + eapply wp_pageAt; [done|done|]. apply wp_modify. split; [|done].
      rewrite Hm in H1. assert (Hemp : head p' = tail p') by congruence.
      destruct (barrier_page_ok cfg true p' true H1 Hemp ltac:(done)) as [Hok' _].
      eapply evo_trans; [exact H4|]. apply (replace_empty hashKey cfg s1 _ p'); [by eapply ev_ok|done|by eapply empty_page_no_refs|].
      by rewrite (ev_mmap _ _ _ _ _ H4), Hm.
  - done.
Qed.

Lemma drain_ok s i p :
  shard_ok s -> isMmap s = true -> pages s !! Z.to_nat i = Some p -> 0 <= i -> head p <> tail p ->
  wp (drainPageLocked hashKey w i)
    (post (fun s' _ => evo anykey s s' /\ freed s' i) (fun s' e => evo anykey s s' /\ e = ErrReuseBarrier)) s.
Proof.
  intros Hok Hm Hp Hi Hne. pose proof (Forall_lookup_1 _ _ _ _ (ok_pages _ _ s Hok) Hp) as Hpo.
  pose proof Hpo as [[es Hq] _ _ _ _ _ _ _].
  unfold drainPageLocked. apply wp_now. intros s1 n Hq1.
  pose proof (quiet_ok _ _ _ _ Hq1 Hok) as Hok1. pose proof (quiet_evo _ _ anykey _ _ Hq1 Hok) as He1.
  assert (Hp1 : pages s1 !! Z.to_nat i = Some p) by (by destruct Hq1 as (_ & -> & _)).
  eapply wp_pageAt; [done|done|].
  eapply wp_seq; [apply (drain_loop_ok _ s1 i p es n); try done| |].
  - by rewrite (ev_mmap _ _ _ _ _ He1).
  - pose proof Hq as [[Hb _ _] Ht]. apply tiled_count in Ht. unfold blen in *. lia.
  - intros s2 b (-> & He2 & p' & Hp' & Hb' & _ & Hfin).
    assert (Hes : es <> []). { intros ->. destruct Hq as [_ Ht]. simpl in Ht. done. }
    destruct (Hfin Hes) as [Hh Ht]. pose proof (ev_ok _ _ _ _ _ He2) as Hok2.
    assert (He12 : evo anykey s s2) by (by eapply evo_trans).
    assert (Hm2 : isMmap s2 = true) by (by rewrite (ev_mmap _ _ _ _ _ He12)).
    destruct es as [|r es]; [done|]. rewrite (nonempty_barrier _ _ _ _ Hpo Hq) in Hb'.
    eapply wp_post_mono; [by apply (poison_ok s2 i p')| |].
    + intros s' _ [He3 Hfr]. split; [|done]. eapply evo_trans; [exact He12|]. by eapply evo_weaken; [|exact He3].
    + intros s' e [He3 ->]. split; [|done]. eapply evo_trans; [exact He12|]. by eapply evo_weaken; [|exact He3].
  - done.
Qed.

End Evict.
