(* ===== verification/ShardFit.v ===== *)
(** * Relocating eviction and the loop that makes room for a write. *)
From S2P Require Import Prelude CacheConfig SipHash Entry Page IndexTable Shard ShardInv ShardGet ShardPut ShardRoom ShardEvict.
Import Entry Page IndexTable Shard.

Lemma takeVisited_same t slot h :
  twf t -> fits 64 h -> occ t (Z.to_nat slot) h ->
  exists t' b, takeVisited t slot (tagFor h) = Some (t', b) /\ same_map t t'.
Proof.
  intros Hw Hh Ho. destruct (takeVisited_ok t slot h Hw Hh Ho) as (t' & b & Hs & Hw' & Ha & _).
  exists t', b. split; [done|]. split; [done|]. split; [done|].
  unfold takeVisited in Hs. destruct (ctrl t !! Z.to_nat slot); [|done]. cbn [mbind option_bind] in Hs.
  destruct (_ =? _); injection Hs as <- _; [|done]. simpl. by rewrite length_insert.
Qed.

Section Fit.
Context (hashKey : bytes -> Z) (Hhash : forall k, fits 64 (hashKey k)).
Context (w : world) (cfg : Config) (Hcfg : cfg_ok cfg).
#[local] Abbreviation shard_ok := (shard_ok hashKey cfg).
#[local] Abbreviation page_ok := (page_ok cfg).
#[local] Abbreviation lookup := (lookup hashKey).
#[local] Abbreviation evo := (evo hashKey cfg).
#[local] Abbreviation ref_to := (ref_to hashKey).

(** Storing again what a key already holds changes nothing. *)
Lemma stored_same_evo key v e s s' :
  stored hashKey cfg nokey key v e s s' -> lookup s key = Some (v, e) -> evo nokey s s'.
Proof.
  intros [H1 H2 H3 H4 H5] Hl. split; try done. intros k. left.
  destruct (decide (k = key)) as [-> |Hne]; [congruence|].
  destruct (H5 k Hne) as [?|[[[]|Hh] Hn]]; [done|]. rewrite Hn. symmetry.
  unfold ShardInv.lookup, lookup_in in *. rewrite Hh.
  destruct (abs (tab s) !! hashKey key); [|done]. destruct (rec_at (pages s) z) as [[[k' v'] e']|]; [|done].
  case_bool_decide; [|done]. rewrite bool_decide_false; [done|congruence].
Qed.

(** Repointing a key at another copy of its entry. *)
Lemma wp_repoint {B} s key ref0 ref rc (K : Z * bool -> M B) Q :
  shard_ok s -> abs (tab s) !! hashKey key = Some ref0 -> ref_to (pages s) (hashKey key) ref rc -> ekey rc = key ->
  lookup s key = Some (evalue rc, eexp rc) ->
  (forall s' x, evo nokey s s' -> pages s' = pages s -> wp (K x) Q s') ->
  wp (upsertM (hashKey key) ref ≫= K) Q s.
Proof.
  intros Hok Ha0 Href Hk Hl HK. pose proof (ok_tab _ _ s Hok) as Hw.
  pose proof (under_threshold_room _ Hw (ok_load _ _ s Hok)) as Hroom.
  destruct (upsert_ok (tab s) (hashKey key) ref Hw (Hhash key) Hroom)
    as (t1 & slot & ins & Hup & Hw1 & Ha1 & Hins & Hlive & Htomb & Hslots & _).
  rewrite Ha0, bool_decide_false in Hins by done. subst ins. rewrite Z.add_0_r in Hlive.
  assert (Hload : overThreshold t1 = false).
  { pose proof (ok_load _ _ s Hok) as Hl0. unfold overThreshold, slots in *. apply Z.leb_gt in Hl0. apply Z.leb_gt. lia. }
  unfold upsertM. apply wp_assoc, wp_gets, wp_assoc. rewrite Hup.
  apply wp_oget, wp_assoc, wp_modify, wp_mret. apply HK; [|done].
  apply (stored_same_evo key (evalue rc) (eexp rc)); [|done].
  by apply (insert_stored _ _ s _ key ref rc t1).
Qed.

(** ** The relocation loop *)

(** Destination page [dst] still has [room] bytes. *)
Definition dst_room (s : shard) (dst room : Z) : Prop :=
  exists d, pages s !! Z.to_nat dst = Some d /\ room <= FreeTail d /\ reuseBarrierFailed d = false.

(** Appending a copy of the current entry of a key to page [dst] and repointing
    the index at it. *)
Lemma wp_move {B} s dst d r ref0 newSeq (E K : M B) Q R :
  shard_ok s -> 0 <= dst -> pages s !! Z.to_nat dst = Some d -> span r <= FreeTail d ->
  reuseBarrierFailed d = false -> rec_ok r ->
  abs (tab s) !! hashKey (ekey r) = Some ref0 -> lookup s (ekey r) = Some (evalue r, eexp r) ->
  (forall s', evo nokey s s' -> (forall j, j <> Z.to_nat dst -> pages s' !! j = pages s !! j) ->
     dst_room s' dst (FreeTail d - span r) -> wp K (post Q R) s') ->
  wp (wr ← try (writeM dst (ekey r) (evalue r) (eexp r) (makeMeta newSeq false));
      match wr with
      | inr _ => E
      | inl (off, _) =>
          modify (fun s => setWriteSeq s newSeq);;
          d ← pageAt dst;
          upsertM (hashKey (ekey r)) (SlabRef.makeSlabRef (u16 dst) (gen d) off);; K
      end) (post Q R) s.
Proof.
  intros Hok Hi Hd Hfree Hbar Hrok Ha Hl HK. set (m := makeMeta newSeq false).
  assert (Hok_r : entry_ok (ekey r) (evalue r) (eexp r) m).
  { destruct Hrok as [? ? ? ?]. split; try done. apply makeMeta_fits. }
  eapply (wp_seq _ _ (fun s' x => exists d', x = inl (tail d, span r) /\
      s' = setPages s (<[Z.to_nat dst := d']> (pages s)) /\
      evo nokey s s' /\ pages s' !! Z.to_nat dst = Some d' /\ gen d' = gen d /\
      entry_in d' (tail d) (ERec (ekey r) (evalue r) (eexp r) m) /\
      FreeTail d' = FreeTail d - span r /\ reuseBarrierFailed d' = false) no_err); [| |done].
  { apply wp_try, wp_ret_r. eapply wp_write; try done. intros d' s' -> He Hd' Hg Hin Hft Hb. by exists d'. }
  intros s1 x (d' & -> & -> & He & Hd' & Hg & Hin & Hft & Hb). cbn beta iota. apply wp_modify.
  set (s1 := setPages s _) in *. set (s2 := setWriteSeq s1 newSeq).
  assert (He2 : evo nokey s s2).
  { destruct He as [H1 H2 H3 H4]. split; try done. by apply (shard_ok_ext _ _ s1); try done; apply H1. }
  eapply wp_pageAt; [exact Hd'|done|].
  destruct (entry_ref hashKey cfg Hcfg s2 dst d' (tail d) _ (ev_ok _ _ _ _ _ He2) Hd' Hi Hin) as (Hfits & Hpi & Hgr & Hof).
  assert (Hu : u32 (tail d) = tail d).
  { apply wrap_fits. pose proof (entry_in_bounds _ _ _ Hin) as [? _]. unfold fits. lia. }
  rewrite Hu in *. set (ref := SlabRef.makeSlabRef (u16 dst) (gen d') (tail d)) in *.
  apply (wp_repoint s2 (ekey r) ref0 ref (ERec (ekey r) (evalue r) (eexp r) m)).
  - by eapply ev_ok.
  - done.
  - split; [done|]. exists d'. rewrite Hpi, Hof. split_and!; try done. apply metaIsTombstone_makeMeta.
  - done.
  - by rewrite (evo_nokey_lookup _ _ _ _ _ He2).
  - intros s3 _ He3 Hps3. apply HK; [by eapply evo_trans| |].
    + intros j Hj. rewrite Hps3. cbn. by rewrite list_lookup_insert_ne.
    + exists d'. rewrite Hps3. split; [exact Hd'|]. split; [lia|done].
Qed.

Lemma relocate_loop_ok fuel s dst src p n budget cursor spent moved mb es1 es room :
  shard_ok s -> 0 <= dst -> 0 <= src -> dst <> src -> pages s !! Z.to_nat src = Some p ->
  queue p (es1 ++ es) -> cursor = head p + spans es1 -> (length es < fuel)%nat ->
  0 <= room -> dst_room s dst (room + (budget - spent)) ->
  spent <= budget ->
  wp (relocate_loop hashKey fuel dst src n budget cursor spent moved mb)
    (post (fun s' _ => evo nokey s s' /\ dst_room s' dst room /\ pages s' !! Z.to_nat src = Some p) no_err) s.
Proof.
  revert s cursor spent moved mb es1 es.
  induction fuel as [|fuel IH]; intros s cursor spent moved mb es1 es Hok Hd0 Hs0 Hds Hp Hq Hc Hf Hr0 Hdst Hsp; [lia|].
  cbn [relocate_loop]. eapply wp_pageAt; [done|done|].
  assert (Hstop : forall s1 (x : Z * Z), evo nokey s s1 -> pages s1 = pages s ->
    wp (mret x) (post (fun s' _ => evo nokey s s' /\ dst_room s' dst room /\ pages s' !! Z.to_nat src = Some p) no_err) s1).
  { intros s1 x He Hps. split; [done|]. unfold dst_room. rewrite Hps. split; [|done].
    destruct Hdst as (d & Hd & Hroom & Hb). exists d. split_and!; try done. lia. }
  pose proof (evo_refl hashKey cfg nokey s Hok) as Hrefl.
  pose proof Hq as [Hwf Ht]. apply tiled_app in Ht as [_ Ht]. rewrite <- Hc in Ht.
  destruct es as [|r es].
  { simpl in Ht. rewrite (proj2 (Z.leb_le _ _)) by lia. by apply Hstop. }
  pose proof Ht as [Hfr Ht']. pose proof (tiled_le _ _ _ _ Ht') as Hle. pose proof (span_pos r) as Hs.
  unfold entryHeaderSize in Hs. rewrite (proj2 (Z.leb_gt _ _)) by lia.
  assert (Hin : entry_in p cursor r) by (exists es1, es; split; done).
  destruct Hwf as [Hb _ _]. pose proof Hfr as (Hrok & Hoff & mac & Htake & _).
  rewrite slice_in by lia. apply wp_lift.
  rewrite (decode_at p cursor r (tail p)) by (done || lia).
  unfold entrySpan, classOf. change (entrySpanExact _ _) with (span r). cbv zeta.
  destruct (budget - spent <? entryHeaderSize); [by apply Hstop|].
  (* passing over the entry *)
  assert (Hskip : forall s1, evo nokey s s1 -> pages s1 = pages s ->
    wp (relocate_loop hashKey fuel dst src n budget (cursor + span r) spent moved mb)
      (post (fun s' _ => evo nokey s s' /\ dst_room s' dst room /\ pages s' !! Z.to_nat src = Some p) no_err) s1).
  { intros s1 He Hps. eapply wp_post_mono; [apply (IH s1 (cursor + span r) spent moved mb (es1 ++ [r]) es)| |done].
    - by eapply ev_ok.
    - done.
    - done.
    - done.
    - by rewrite Hps.
    - by rewrite <- app_assoc.
    - rewrite Hc. clear. induction es1; simpl; lia.
    - simpl in Hf. lia.
    - done.
    - unfold dst_room. by rewrite Hps.
    - done.
    - intros s' x (H1 & H2 & H3). split; [by eapply evo_trans|done]. }
  apply wp_findSlot; [by apply Hok|done|]. intros [[slot cur]|] Hfind; [|by apply Hskip].
  destruct (negb (cur =? _)) eqn:Ec; [by apply Hskip|]. apply negb_false_iff, Z.eqb_eq in Ec.
  destruct (isExpired _ _); [by apply Hskip|]. apply wp_gets. cbn [id].
  destruct (found_ref _ _ _ _ _ _ Hok Hfind) as (rc & p' & Href & Hp' & Hg & Hin' & Hh & Hi & Ha).
  destruct (entry_ref hashKey cfg Hcfg s src p cursor r Hok Hp Hs0 Hin) as (Hfits & Hpi & Hgr & Hof).
  rewrite <- Ec in Hpi, Hgr, Hof. rewrite Hpi, Hp in Hp'. injection Hp' as <-. rewrite Hof in Hin'.
  pose proof (entry_in_inj _ _ _ _ Hin Hin') as <-.
  assert (Hlk : lookup s (ekey r) = Some (evalue r, eexp r)).
  { unfold ShardInv.lookup. rewrite (lookup_in_ref _ _ _ _ _ _ Ha Href). by rewrite bool_decide_true. }
  assert (Hocc : occ (tab s) (Z.to_nat slot) (hashKey (ekey r))) by apply Hfind.
  assert (Hgo : forall s1 (cold : bool), evo nokey s s1 -> pages s1 = pages s -> abs (tab s1) = abs (tab s) ->
    wp (if cold then relocate_loop hashKey fuel dst src n budget (cursor + span r) spent moved mb
        else if budget <? spent + span r then relocate_loop hashKey fuel dst src n budget (cursor + span r) spent moved mb
        else
          newSeq ← gets (fun s => u64 (writeSeq s + 1));
          wr ← try (writeM dst (ekey r) (evalue r) (eexp r) (makeMeta newSeq false));
          match wr with
          | inr _ => mret (moved, mb)
          | inl (off, _) =>
              modify (fun s => setWriteSeq s newSeq);;
              d ← pageAt dst;
              upsertM (hashKey (ekey r)) (SlabRef.makeSlabRef (u16 dst) (gen d) off);;
              relocate_loop hashKey fuel dst src n budget (cursor + span r) (spent + span r)
                (u64 (moved + 1)) (u64 (mb + u64 (span r)))
          end)
      (post (fun s' _ => evo nokey s s' /\ dst_room s' dst room /\ pages s' !! Z.to_nat src = Some p) no_err) s1).
  { intros s1 cold He1 Hps1 Hab1. destruct cold; [by apply Hskip|].
    destruct (budget <? spent + span r) eqn:Eb; [by apply Hskip|]. apply Z.ltb_ge in Eb.
    apply wp_gets. destruct Hdst as (d & Hd & Hroom & Hbd).
    apply (wp_move s1 dst d r cur); try done.
    - by eapply ev_ok.
    - by rewrite Hps1.
    - lia.
    - by rewrite Hab1.
    - by rewrite (evo_nokey_lookup _ _ _ _ _ He1).
    - intros s2 He2 Hother Hroom2.
      eapply wp_post_mono; [apply (IH s2 (cursor + span r) (spent + span r) _ _ (es1 ++ [r]) es)| |done]; try done.
      + by eapply ev_ok.
      + rewrite Hother by lia. by rewrite Hps1.
      + by rewrite <- app_assoc.
      + rewrite Hc. clear. induction es1; simpl; lia.
      + simpl in Hf. lia.
      + destruct Hroom2 as (d' & H1 & H2 & H3). exists d'. split_and!; try done. lia.
      + intros s' x (H1 & H2 & H3). split; [|done]. eapply evo_trans; [exact He1|]. by eapply evo_trans. }
  apply wp_bind. destruct (sieve s); [|by apply Hgo].
  destruct (takeVisited_same (tab s) slot (hashKey (ekey r)) (ok_tab _ _ s Hok) (Hhash _) Hocc) as (t1 & b & Htk & Hsm).
  apply wp_assoc, wp_gets, wp_assoc. rewrite Htk. apply wp_oget, wp_assoc, wp_modify, wp_mret.
  apply Hgo; [by apply same_map_evo|done|]. by destruct Hsm as (_ & ? & _).
Qed.

Lemma note_wp moved mb Q s : (forall s', quiet s s' -> Q s' (Ok tt)) -> wp (noteEvictRelocation moved mb) Q s.
Proof.
  intros HQ. unfold noteEvictRelocation. destruct (moved =? 0); [apply HQ, quiet_refl|].
  apply wp_bumpBy. intros s1 Hq1. apply wp_bumpBy_end. intros s2 Hq2. apply HQ. by eapply quiet_trans.
Qed.

(** Bookkeeping on a page: its bytes, bounds and keys are the same. *)
Lemma note_page_evo s i p p' :
  shard_ok s -> pages s !! i = Some p -> same_bytes p p' -> gen p' = gen p -> retired p' = retired p ->
  reuseBarrierFailed p' = reuseBarrierFailed p -> vers_ok p' ->
  evo nokey s (setPages s (<[i := p']> (pages s))).
Proof.
  intros Hok Hp Hsb Hg Hr Hb Hv. pose proof (Forall_lookup_1 _ _ _ _ (ok_pages _ _ s Hok) Hp) as Hpo.
  destruct Hpo as [[es Hq] Hkind Hsize Hgen Hret Hbar _ Hh].
  pose proof Hsb as (Ed & Ebk & Ehd & Etl & _).
  apply (setPage_evo _ _ s i p); [done|done| |].
  - split; unfold head, tail, Page.isMmap in *; rewrite ?Ed, ?Ebk, ?Ehd, ?Etl, ?Hg, ?Hr, ?Hb; try done.
    exists es. by apply (same_bytes_queue p).
  - intros h ref r Ha (_ & q & Hq' & Hg' & Hin & _) Hi. rewrite Hi, Hp in Hq'. injection Hq' as <-.
    split; [congruence|]. by apply (same_bytes_entry p).
Qed.

Lemma relocate_ok s i need :
  shard_ok s -> freed cfg s i -> 0 <= need <= maxEntryBytes cfg s ->
  wp (relocateIntoFreedPageLocked hashKey w cfg i need)
    (post (fun s' _ => evo nokey s s' /\ has_room s' i need) no_err) s.
Proof.
  intros Hok (Hi & d & Hd & Hmax & Hb) Hneed. unfold relocateIntoFreedPageLocked.
  eapply wp_pageAt; [done|done|]. cbv zeta.
  set (budget := if _ <? _ then _ else _).
  assert (Hbud : need + budget <= FreeTail d).
  { unfold budget. destruct (_ <? _) eqn:E1; [apply Z.ltb_lt in E1|]; lia. }
  assert (Hdone : forall s', evo nokey s s' -> dst_room s' i need -> evo nokey s s' /\ has_room s' i need).
  { intros s' He (d' & H1 & H2 & H3). split; [done|]. split; [done|]. eauto. }
  assert (Hhere : dst_room s i need) by (exists d; split_and!; try done; lia).
  destruct (budget <=? 0) eqn:E0; [exact (Hdone s (evo_refl _ _ _ s Hok) Hhere)|]. apply Z.leb_gt in E0.
  eapply wp_seq; [by apply (next_ok hashKey cfg)| |done]. intros s1 src [-> Hsrc].
  destruct Hsrc as [[-> _]|(Hr & Hne & p & Hp & _)]; [exact (Hdone s (evo_refl _ _ _ s Hok) Hhere)|].
  rewrite (proj2 (Z.ltb_ge src 0)) by lia. eapply wp_pageAt; [done|lia|].
  apply wp_now. intros s1 n Hq1. pose proof (quiet_evo _ _ nokey _ _ Hq1 Hok) as He1.
  assert (Hps1 : pages s1 = pages s) by (by destruct Hq1 as (_ & ? & _)).
  pose proof (Forall_lookup_1 _ _ _ _ (ok_pages _ _ s Hok) Hp) as [[es Hq] _ _ _ _ _ Hv _].
  eapply wp_seq; [apply (relocate_loop_ok _ s1 i src p n budget (head p) 0 0 0 [] es need)| |done].
  - by eapply ev_ok.
  - done.
  - lia.
  - done.
  - by rewrite Hps1.
  - done.
  - simpl. lia.
  - pose proof Hq as [[Hbd _ _] Ht]. apply tiled_count in Ht. unfold blen in *. lia.
  - lia.
  - unfold dst_room. rewrite Hps1. exists d. split_and!; try done. lia.
  - lia.
  - intros s2 [moved mb] (He2 & Hroom & Hp2). eapply wp_pageAt; [done|lia|]. apply wp_modify.
    assert (He3 : evo nokey s2 (setPages s2 (<[Z.to_nat src := addRelocatedOut p mb]> (pages s2)))).
    { apply (note_page_evo s2 _ p); try done. by eapply ev_ok. }
    apply Hdone.
    + eapply evo_trans; [exact He1|]. by eapply evo_trans.
    + destruct Hroom as (d' & H1 & H2 & H3). exists d'. split; [|done]. cbn.
      rewrite list_lookup_insert_ne; [done|lia].
Qed.

Lemma freed_room s i need : freed cfg s i -> need <= maxEntryBytes cfg s -> has_room s i need.
Proof. intros (Hi & p & Hp & Hm & Hb) Hn. split; [done|]. exists p. split_and!; try done. lia. Qed.

Lemma maxEntry_evo P s s' : evo P s s' -> maxEntryBytes cfg s' = maxEntryBytes cfg s.
Proof. intros He. unfold maxEntryBytes. by rewrite (ev_mmap _ _ _ _ _ He). Qed.

Lemma evictVictim_ok s i p need :
  shard_ok s -> pages s !! Z.to_nat i = Some p -> 0 <= i -> head p <> tail p -> 0 <= need <= maxEntryBytes cfg s ->
  wp (evictVictimLocked hashKey w cfg i need)
    (post (fun s' _ => evo anykey s s' /\ has_room s' i need)
          (fun s' e => evo anykey s s' /\ e = ErrReuseBarrier /\ isMmap s = true)) s.
Proof.
  intros Hok Hp Hi Hne Hneed. unfold evictVictimLocked. apply wp_gets. cbn [id].
  eapply (wp_seq _ _ (fun s' _ => evo anykey s s' /\ freed cfg s' i)
    (fun s' e => evo anykey s s' /\ e = ErrReuseBarrier /\ isMmap s = true)); [| |done].
  - destruct (isMmap s) eqn:Em; cbn [negb].
    + eapply wp_post_mono; [by apply (drain_ok hashKey Hhash w cfg Hcfg s i p)|done|]. by intros s' e [? ->].
    + eapply wp_post_mono; [by apply (retire_ok hashKey Hhash w cfg Hcfg s i p)|done|done].
  - intros s1 [] [He Hfr]. pose proof (ev_ok _ _ _ _ _ He) as Hok1.
    rewrite <- (maxEntry_evo _ _ _ He) in Hneed.
    destruct (RelocatingEviction cfg).
    + eapply wp_seq; [by apply relocate_ok| |done]. intros s2 [moved mb] [He2 Hroom].
      apply note_wp. intros s3 Hq3. simpl. split.
      * eapply evo_trans; [exact He|]. eapply evo_trans; [by eapply evo_weaken; [|exact He2]|].
        eapply quiet_evo; eauto using ev_ok.
      * unfold has_room in *. by destruct Hq3 as (_ & -> & _).
    + split; [done|]. apply freed_room; [done|lia].
Qed.

(** ** Making room *)

Definition room_err (s : shard) (need : Z) (e : cerr) : Prop :=
  (e = errEntryTooLarge /\ maxEntryBytes cfg s < need) \/
  (AtCapPolicy cfg = PolicyRingbufEvict /\ isMmap s = true /\ (e = ErrReuseBarrier \/ e = ErrCannotEvict)) \/
  (AtCapPolicy cfg = PolicyRejectWrites /\ e = ErrFull) \/
  ((exists n, AtCapPolicy cfg = PolicyOther n) /\ e = errUnknownPolicy).

(** A heap page without entries has all its room. *)
Lemma empty_heap_room s j p :
  shard_ok s -> isMmap s = false -> pages s !! Z.to_nat j = Some p -> 0 <= j -> head p = tail p ->
  has_room s j (maxEntryBytes cfg s).
Proof.
  intros Hok Hm Hp Hj He. pose proof (Forall_lookup_1 _ _ _ _ (ok_pages _ _ s Hok) Hp) as Hpo. rewrite Hm in Hpo.
  destruct Hpo as [[es [Hwf _]] Hkind Hsize _ _ _ _ Hh]. destruct (Hh eq_refl) as [H0 Hb].
  split; [done|]. exists p. split_and!; try done. unfold maxEntryBytes. rewrite Hm.
  rewrite FreeTail_wf by done. unfold entries. rewrite Hkind. lia.
Qed.

Lemma evictUntil_ok s need :
  shard_ok s -> 0 <= need <= maxEntryBytes cfg s -> 1 <= blen (pages s) ->
  wp (evictUntilFitsLocked hashKey w cfg need)
    (post (fun s' i => evo anykey s s' /\ has_room s' i need)
          (fun s' e => evo anykey s s' /\ isMmap s = true /\ (e = ErrReuseBarrier \/ e = ErrCannotEvict))) s.
Proof.
  intros Hok Hneed Hlen. unfold blen in Hlen. unfold evictUntilFitsLocked. apply wp_gets.
  cbn [evictUntilFits_loop]. eapply wp_seq; [by apply first_ok| |done].
  intros s1 r (He1 & Hl1 & Hr). pose proof (ev_ok _ _ _ _ _ He1) as Hok1.
  assert (Hw1 : evo anykey s s1) by (by eapply evo_weaken; [|exact He1]).
  destruct Hr as [[Hr Hroom]|(-> & _ & Hno)].
  { rewrite (proj2 (Z.leb_le 0 r)) by done. by split. }
  change (0 <=? -1) with false. cbn beta iota.
  assert (Hm1 : isMmap s1 = isMmap s) by (by rewrite (ev_mmap _ _ _ _ _ He1)).
  eapply wp_seq; [by apply (next_ok hashKey cfg)| |done]. intros s2 v [-> Hv].
  destruct Hv as [[-> Hempty]|(Hv & _ & p & Hp & Hne)].
  { change (-1 <? 0) with true. cbn beta iota. split; [done|]. split; [|by right].
    destruct (isMmap s) eqn:Em; [done|]. exfalso.
    destruct (pages s1) as [|p ps] eqn:Eps.
    - simpl in Hl1. lia.
    - apply (Hno 0). assert (Hp : pages s1 !! Z.to_nat 0 = Some p) by (by rewrite Eps).
      destruct (empty_heap_room s1 0 p Hok1 Hm1 Hp) as (_ & q & Hq & Hf & Hb); [lia|apply (Hempty 0 p); [lia|lia|done]|].
      rewrite (maxEntry_evo _ _ _ He1) in Hf. split; [lia|]. exists q. split_and!; try done. lia. }
  rewrite (proj2 (Z.ltb_ge v 0)) by lia. apply wp_modify.
  set (s2 := setNextVictim s1 _).
  assert (He2 : evo nokey s1 s2).
  { split; try done; [|by left]. apply (shard_ok_ext _ _ s1); try done; [apply Hok1| |apply Hok1].
    cbn. apply Z.rem_nonneg; lia. }
  assert (Hw2 : evo anykey s s2) by (eapply evo_trans; [exact Hw1|by eapply evo_weaken; [|exact He2]]).
  rewrite <- (maxEntry_evo _ _ _ Hw2) in Hneed. rewrite <- Hm1. change (isMmap s1) with (isMmap s2).
  eapply wp_seq; [apply (evictVictim_ok s2 v p need); try done; [by eapply ev_ok|lia]| |].
  - intros s3 [] [He3 Hroom3]. pose proof (ev_ok _ _ _ _ _ He3) as Hok3. cbn [evictUntilFits_loop].
    assert (Hw3 : evo anykey s s3) by (by eapply evo_trans).
    eapply wp_seq; [by apply first_ok| |done]. intros s4 r (He4 & _ & Hr).
    destruct Hr as [[Hr Hroom]|(-> & Hno4 & _)]; [|by destruct (Hno4 v)].
    rewrite (proj2 (Z.leb_le 0 r)) by done. split; [|done].
    eapply evo_trans; [exact Hw3|]. by eapply evo_weaken; [|exact He4].
  - intros s3 e (He3 & -> & Hm). split; [by eapply evo_trans|]. split; [done|]. by left.
Qed.

End Fit.
