(* ===== verification/ShardWrite.v ===== *)
(** * Put and delete. *)
From S2P Require Import Prelude CacheConfig SipHash Entry Page IndexTable Shard ShardInv ShardGet ShardPut ShardRoom ShardEvict ShardFit.
Import Entry Page IndexTable Shard.

(** ** Overwriting an entry in place *)

Lemma spans_app a b : spans (a ++ b) = spans a + spans b.
Proof. induction a as [|r a IH]; simpl; lia. Qed.

(** What [WriteAt] does to the entries of a page. *)
Lemma WriteAt_entries p off r v e m :
  entry_in p off r -> Page.isMmap p = false -> blen v = blen (evalue r) -> fits 64 e -> fits 64 m ->
  let r' := ERec (ekey r) v e m in
  exists p' ent, WriteAt p off (ekey r) v e m = Ok p' /\ p' = setEntries p ent /\ blen ent = blen (entries p) /\
    (exists es, queue p' es) /\ entry_in p' off r' /\
    forall o r0, entry_in p o r0 -> o <> off -> entry_in p' o r0.
Proof.
  intros (es1 & es2 & Hq & ->) Hi Hv He Hm r'.
  destruct (WriteAt_ok p es1 r es2 v e m Hq Hi Hv He Hm) as (p' & Hw & Hq' & Hh & _ & _).
  pose proof Hw as Hw'. unfold WriteAt in Hw'. rewrite Hi in Hw'.
  destruct (_ || _) in Hw'; [done|].
  apply bind_Ok in Hw' as (dst & Hdst & Hw').
  apply bind_Ok in Hw' as ([dst' n] & _ & Hw').
  apply bind_Ok in Hw' as (ent & Hent & Hw'). apply Ok_inj in Hw' as <-.
  apply store_len in Hent. exists (setEntries p ent), ent. split; [done|]. split; [done|]. split; [done|].
  split; [by eexists|]. split; [by exists es1, es2|].
  intros o r0 Hin Hne. destruct (entry_in_split _ _ _ _ Hq Hin) as (es1' & es2' & Heq & ->).
  (* the other entry is before or behind the rewritten one *)
  assert (Hsp : span r' = span r) by (unfold span, entrySpanExact, r'; simpl; lia).
  apply app_eq_inv in Heq as [(k & -> & Heq)|(k & -> & Heq)]; destruct k as [|x mid];
    rewrite ?app_nil_r in *; try done; injection Heq as <- ->.
  - exists es1', (mid ++ r' :: es2). rewrite Hh. split; [|done]. by rewrite <- app_assoc in Hq'.
  - exists (es1 ++ r' :: mid), es2'. rewrite Hh. split; [by rewrite <- app_assoc|].
    rewrite !spans_app. simpl. rewrite Hsp. lia.
Qed.

Lemma even_plus2 v : Z.land v 1 = 0 -> Z.land (u64 (u64 (v + 1) + 1)) 1 = 0.
Proof.
  assert (Hl : forall x, Z.land x 1 = x mod 2) by (intros x; apply (Z.land_ones x 1); lia).
  rewrite !Hl. unfold wrap. intros Hv. rewrite Zplus_mod_idemp_l.
  rewrite Z.mod_mod_divide by (by exists (2 ^ 63)).
  replace (v + 1 + 1) with (v + 1 * 2) by lia. by rewrite Z.mod_add by lia.
Qed.

Section Write.
Context (hashKey : bytes -> Z) (Hhash : forall k, fits 64 (hashKey k)).
Context (w : world) (cfg : Config) (Hcfg : cfg_ok cfg).
#[local] Abbreviation shard_ok := (shard_ok hashKey cfg).
#[local] Abbreviation page_ok := (page_ok cfg).
#[local] Abbreviation lookup := (lookup hashKey).
#[local] Abbreviation evo := (evo hashKey cfg).
#[local] Abbreviation ref_to := (ref_to hashKey).
#[local] Abbreviation stored := (stored hashKey cfg).

(** The seqlock bracket around the overwrite: the page ends with the new bytes
    and even versions. *)
Lemma bump_write_wp s i p off r v e m Q R :
  pages s !! Z.to_nat i = Some p -> 0 <= i -> vers_ok p ->
  entry_in p off r -> Page.isMmap p = false -> blen v = blen (evalue r) -> fits 64 e -> fits 64 m ->
  (forall p' vs, WriteAt p off (ekey r) v e m = Ok p' -> vers_ok (setVers p' vs) ->
     Q (setPages s (<[Z.to_nat i := setVers p' vs]> (pages s))) tt) ->
  wp (bumpVersionLocked i off (writeAtM i off (ekey r) v e m)) (post Q R) s.
Proof.
  intros Hp Hi Hv Hin Hm Hl He Hmt HQ. unfold bumpVersionLocked. eapply wp_pageAt; [done|done|].
  assert (Hlt : (Z.to_nat i < length (pages s))%nat) by (by eapply lookup_lt_Some).
  destruct (WriteAt_entries p off r v e m Hin Hm Hl He Hmt) as (p' & ent & HW & Hshape & _).
  destruct (versionAt p off) as [k|] eqn:Ek.
  2:{ unfold writeAtM. eapply wp_pageAt; [done|done|]. rewrite HW. apply wp_lift. simpl.
      replace p' with (setVers p' (vers p')) by (by destruct p'). apply HQ; [done|].
      unfold versionAt in Ek. subst p'. unfold vers_ok. cbn. by destruct (vers p). }
  destruct (vers p) as [vs|] eqn:Evs; [|by unfold versionAt in Ek; rewrite Evs in Ek].
  destruct (loadVersion_ok _ _ _ Hv Ek) as (x & Hx & Heven).
  assert (Hk : vs !! k = Some x).
  { unfold loadVersion in Hx. rewrite Evs in Hx. destruct (vs !! k); [|done]. by apply Ok_inj in Hx as ->. }
  assert (Hkl : (k < length vs)%nat) by (by eapply lookup_lt_Some).
  unfold addVersion at 1. apply wp_assoc. eapply wp_pageAt; [done|done|]. apply wp_assoc. rewrite Hx.
  apply wp_lift, wp_modify. rewrite Evs.
  set (p1 := setVers p (Some (<[k := u64 (x + 1)]> vs))).
  set (s1 := setPages s (<[Z.to_nat i := p1]> (pages s))).
  assert (Hp1 : pages s1 !! Z.to_nat i = Some p1) by (cbn; by rewrite list_lookup_insert_eq).
  assert (HW1 : WriteAt p1 off (ekey r) v e m = Ok (setVers p' (vers p1))).
  { revert HW. unfold WriteAt. change (Page.isMmap p1) with (Page.isMmap p). rewrite Hm.
    change (head p1) with (head p). change (tail p1) with (tail p). change (entries p1) with (entries p).
    destruct (_ || _); [done|].
    intros (d & -> & HW)%bind_Ok. cbn [mbind outcome_bind].
    apply bind_Ok in HW as ([d' n] & -> & HW). cbn [mbind outcome_bind].
    apply bind_Ok in HW as (en & -> & HW). cbn [mbind outcome_bind]. by apply Ok_inj in HW as <-. }
  set (p2 := setVers p' (vers p1)). set (s2 := setPages s1 (<[Z.to_nat i := p2]> (pages s1))).
  eapply (wp_seq _ _ (fun s' x => s' = s2 /\ x = inl ()) no_err); [| |done].
  { apply wp_try. unfold writeAtM. eapply wp_pageAt; [done|done|]. rewrite HW1. by apply wp_lift. }
  intros ? ? [-> ->]. unfold addVersion. apply wp_assoc.
  assert (Hp2 : pages s2 !! Z.to_nat i = Some p2).
  { cbn. rewrite list_lookup_insert_eq; [done|]. by rewrite length_insert. }
  eapply wp_pageAt; [exact Hp2|done|]. apply wp_assoc.
  assert (loadVersion p2 k = Ok (u64 (x + 1))) as ->.
  { unfold loadVersion. cbn. by rewrite list_lookup_insert_eq. }
  apply wp_lift, wp_modify. cbn [vers p2 setVers p1]. rewrite list_insert_insert_eq. simpl.
  cbn. rewrite !list_insert_insert_eq.
  apply (HQ p' (Some (<[k := u64 (u64 (x + 1) + 1)]> vs))); [done|].
  unfold vers_ok in *. cbn. rewrite Evs in Hv. destruct Hv as [Hn Hall]. rewrite length_insert. split; [done|].
  apply Forall_insert; [done|]. by apply even_plus2.
Qed.

(** The in-place target is the current entry of [key]. *)
Definition target_ok (s : shard) (key value : bytes) (t : inPlaceTarget) : Prop :=
  exists p r, pages s !! Z.to_nat (tgtPage t) = Some p /\ 0 <= tgtPage t /\
    entry_in p (tgtOff t) r /\ ekey r = key /\ blen (evalue r) = blen value /\
    metaIsTombstone (emeta r) = false /\ occ (tab s) (Z.to_nat (tgtSlot t)) (hashKey key) /\
    abs (tab s) !! hashKey key = Some (tgtRef t) /\ fits 64 (tgtRef t) /\ gen p = SlabRef.gen (tgtRef t) /\
    SlabRef.pageIdx (tgtRef t) = tgtPage t /\ SlabRef.offset (tgtRef t) = tgtOff t.

Lemma target_wp s key value :
  shard_ok s ->
  wp (inPlaceTargetLocked w key value (hashKey key))
    (post (fun s' t => quiet s s' /\ match t with None => True | Some t => target_ok s key value t end) no_err) s.
Proof.
  intros Hok. unfold inPlaceTargetLocked. apply wp_findSlot; [by apply Hok|done|].
  intros [[slot ref]|] Hf; [|by split]. apply wp_gets. cbv zeta. cbn [id].
  destruct (found_ref _ _ _ _ _ _ Hok Hf) as (rc & p & Href & Hp & Hg & Hin & Hh & Hi & Ha).
  rewrite (proj2 (Z.leb_gt (blen (pages s)) _)) by lia.
  eapply wp_pageAt; [done|lia|]. rewrite Hg, Z.eqb_refl. cbn [negb]. rewrite (entry_in_read _ _ _ Hin).
  case_bool_decide as Hk; cbn [negb]; [|by split].
  destruct (blen (evalue rc) =? blen value) eqn:El; cbn [negb]; [|by split]. apply Z.eqb_eq in El.
  destruct (_ || _); [by split|].
  assert (Ht : target_ok s key value (MkTarget (SlabRef.pageIdx ref) (SlabRef.offset ref) slot ref)).
  { destruct Hf as (_ & Hocc & _). destruct Href as (Hfits & _ & _ & _ & _ & _ & Htm). exists p, rc.
    subst key. cbn [tgtPage tgtOff tgtSlot tgtRef]. split_and!; try done. apply Hi. }
  destruct (negb (eexp rc =? 0)).
  - apply wp_assoc, wp_now. intros s1 n Hq. apply wp_mret. by destruct (isExpired _ n).
  - by apply wp_mret.
Qed.

(** Rewriting the current entry of [key] in place stores the new value. *)
Lemma overwrite_stored s s' key value e m t p p' vs :
  shard_ok s -> isMmap s = false -> target_ok s key value t -> pages s !! Z.to_nat (tgtPage t) = Some p ->
  fits 64 e -> fits 64 m -> metaIsTombstone m = false ->
  WriteAt p (tgtOff t) key value e m = Ok p' -> vers_ok (setVers p' vs) ->
  quiet (setPages s (<[Z.to_nat (tgtPage t) := setVers p' vs]> (pages s))) s' ->
  stored nokey key value e s s'.
Proof.
  intros Hok Hm (p0 & r & Hp0 & Hi & Hin & Hk & Hl & Htm & _ & Ha & Hf & Hg & Hpi & Hof) Hp He Hmf Hmt HW Hv Hq.
  rewrite Hp in Hp0. injection Hp0 as <-. pose proof Hok as [Hw Hlo Hps Hn Hmm Hidx Hwi Hnv Hgc].
  pose proof (Forall_lookup_1 _ _ _ _ Hps Hp) as Hpo. rewrite Hm in Hpo. pose proof (po_kind _ _ _ Hpo) as Hkind.
  destruct (WriteAt_entries p (tgtOff t) r value e m Hin Hkind (eq_sym Hl) He Hmf)
    as (p'' & ent & HW' & -> & Hel & [es Hqe] & Hnew & Hoth).
  rewrite Hk in HW', Hnew. rewrite HW in HW'. apply Ok_inj in HW'. subst p'.
  set (p1 := setVers (setEntries p ent) vs) in *.
  assert (Hsb : same_bytes (setEntries p ent) p1) by done.
  assert (Hpo1 : page_ok false p1).
  { destruct Hpo as [_ _ Hsize Hgen Hret Hbar _ Hh]. destruct (Hh eq_refl) as [H0 Hb].
    split; try done; [by exists es; apply (same_bytes_queue _ _ _ Hsb)|].
    rewrite <- Hsize. cbn. rewrite Hkind. unfold entries in Hel. by rewrite Hkind in Hel. }
  assert (Hlt : (Z.to_nat (tgtPage t) < length (pages s))%nat) by (by eapply lookup_lt_Some).
  set (ps' := <[Z.to_nat (tgtPage t) := p1]> (pages s)) in *.
  assert (Href' : ref_to ps' (hashKey key) (tgtRef t) (ERec key value e m)).
  { split; [done|]. exists p1. unfold ps'. rewrite Hpi, list_lookup_insert_eq by done. rewrite Hof.
    split_and!; try done. by apply (same_bytes_entry _ _ _ _ Hsb). }
  assert (Hkeep : forall h ref r0, h <> hashKey key -> abs (tab s) !! h = Some ref -> ref_to (pages s) h ref r0 -> ref_to ps' h ref r0).
  { intros h ref r0 Hne Hah Hr0. pose proof Hr0 as (Hf0 & q & Hq0 & Hg0 & Hin0 & Hh0 & Ht0). split; [done|].
    unfold ps'. destruct (decide (Z.to_nat (SlabRef.pageIdx ref) = Z.to_nat (tgtPage t))) as [E1|E1].
    - rewrite E1, Hp in Hq0. injection Hq0 as <-. exists p1. rewrite E1, list_lookup_insert_eq by done.
      split_and!; try done. apply (same_bytes_entry _ _ _ _ Hsb). apply Hoth; [done|]. intros Heq.
      rewrite Heq in Hin0. pose proof (entry_in_inj _ _ _ _ Hin Hin0) as <-. congruence.
    - exists q. rewrite list_lookup_insert_ne by done. done. }
  destruct Hq as (Ht & Hp' & Hgc' & Hwx & _ & Hvx & Hmx & Hsx & _). cbn in Ht, Hp', Hgc', Hwx, Hvx, Hmx, Hsx.
  split; try done.
  - split; rewrite ?Ht, ?Hp', ?Hgc', ?Hwx, ?Hvx, ?Hmx; try done.
    + apply Forall_insert; [done|]. by rewrite Hm.
    + unfold ps'. by rewrite blen_insert.
    + unfold ps'. by rewrite blen_insert.
    + intros h ref Hah. destruct (decide (h = hashKey key)) as [-> |Hne].
      * rewrite Ha in Hah. injection Hah as <-. eauto.
      * destruct (Hidx _ _ Hah) as [r0 Hr0]. exists r0. by apply Hkeep.
  - unfold ShardInv.lookup. rewrite Ht, Hp'. rewrite (lookup_in_ref _ _ _ _ _ _ Ha Href'). by rewrite bool_decide_true.
  - intros k Hne. left. unfold ShardInv.lookup. rewrite Ht, Hp'.
    destruct (decide (hashKey k = hashKey key)) as [Heq|Hneq].
    + assert (Hrold : ref_to (pages s) (hashKey key) (tgtRef t) r).
      { split; [done|]. exists p. rewrite Hpi, Hof. split_and!; try done. by rewrite Hk. }
      rewrite <- Heq in Ha, Href', Hrold.
      rewrite (lookup_in_ref _ _ _ _ _ _ Ha Href'), (lookup_in_ref _ _ _ _ _ _ Ha Hrold). simpl.
      rewrite !bool_decide_false by congruence. done.
    + destruct (abs (tab s) !! hashKey k) as [ref|] eqn:Eak.
      * destruct (Hidx _ _ Eak) as [r0 Hr0].
        rewrite (lookup_in_ref _ _ _ _ _ r0 Eak) by (by apply Hkeep). by rewrite (lookup_in_ref _ _ _ _ _ r0 Eak).
      * unfold lookup_in. by rewrite Eak.
Qed.

Lemma stored_quiet P key v e s1 s2 s3 : stored P key v e s1 s2 -> evo nokey s2 s3 -> stored P key v e s1 s3.
Proof.
  intros [H1 H2 H3 H4 H5] He. pose proof He as [H6 H7 H8 H9]. split; try done; [congruence|congruence| |].
  - by rewrite (evo_nokey_lookup _ _ _ _ _ He).
  - intros k Hk. rewrite !(evo_nokey_lookup _ _ _ _ _ He). by apply H5.
Qed.

Lemma putInPlace_ok s key value e :
  shard_ok s -> fits 64 e ->
  wp (putInPlace w cfg key value e (hashKey key))
    (post (fun s' b => if b : bool then stored nokey key value e s s' else evo nokey s s') no_err) s.
Proof.
  intros Hok He. unfold putInPlace. apply wp_gets. cbn [id].
  destruct (inPlaceEligible cfg s) eqn:Ei; cbn [negb]; [|by apply evo_refl].
  assert (Hm : isMmap s = false).
  { unfold inPlaceEligible in Ei. destruct (negb (InPlaceSameSizeUpdate cfg)); [done|].
    destruct (negb (bool_decide _)); [done|]. by destruct (isMmap s). }
  eapply wp_seq; [by apply target_wp| |done]. intros s1 [t|] [Hq Ht]; [|by apply quiet_evo].
  pose proof (quiet_ok _ _ _ _ Hq Hok) as Hok1. apply wp_gets. set (seq := u64 _).
  assert (Ht1 : target_ok s1 key value t) by (destruct Hq as (E1 & E2 & _); unfold target_ok in *; by rewrite E1, E2).
  pose proof Ht1 as (p & r & Hp & Hi & Hin & Hk & Hl & _ & Hocc & _).
  assert (Hm1 : isMmap s1 = false) by (by destruct Hq as (_ & _ & _ & _ & _ & _ & -> & _)).
  pose proof (Forall_lookup_1 _ _ _ _ (ok_pages _ _ s1 Hok1) Hp) as Hpo. rewrite Hm1 in Hpo.
  eapply (wp_seq _ _ (fun s' x => x = inl () /\ stored nokey key value e s1 s' /\ tab s' = tab s1) no_err); [| |done].
  { apply wp_try. rewrite <- Hk. apply (bump_write_wp s1 (tgtPage t) p (tgtOff t) r); try done.
    - apply Hpo.
    - apply Hpo.
    - apply makeMeta_fits.
    - intros p' vs HW Hv. split; [done|]. split; [|done]. rewrite Hk in *.
      apply (overwrite_stored s1 _ key value e (makeMeta seq false) t p p' vs); try done;
        [apply makeMeta_fits|apply metaIsTombstone_makeMeta]. }
  intros s2 x (-> & Hst & Htab). apply wp_modify, wp_bump. intros s3 Hq3. apply wp_gets. cbn [id].
  assert (Hst3 : stored nokey key value e s s3).
  { apply (evo_stored _ _ _ _ _ _ _ s1); [by apply quiet_evo|]. eapply stored_quiet; [exact Hst|].
    destruct Hst as [H1 _ _ _ _].
    assert (evo nokey s2 (setWriteSeq s2 seq)) as He2.
    { split; try done; [|by left]. apply (shard_ok_ext _ _ s2); try done; apply H1. }
    eapply evo_trans; [exact He2|]. eapply quiet_evo; [exact Hq3|]. by eapply ev_ok. }
  destruct (sieve s3); [|by apply wp_mret].
  assert (Ht3 : tab s3 = tab s1) by (destruct Hq3 as (-> & _); done).
  destruct (setVisited_same (tab s3) (tgtSlot t) (hashKey key) (tgtRef t)) as (t4 & Hs4 & Hsm4).
  - apply Hst3.
  - done.
  - by rewrite Ht3.
  - unfold setVisitedM. apply wp_assoc, wp_gets, wp_assoc. rewrite Hs4. apply wp_oget, wp_modify.
    apply (stored_quiet _ _ _ _ _ s3); [done|]. apply same_map_evo; [apply Hst3|done].
Qed.

(** ** Finding a page *)

Lemma append_page_evo s p :
  shard_ok s -> isMmap s = false -> blen (pages s) < MaxPagesPerShard cfg -> page_ok false p ->
  evo nokey s (setPages s (pages s ++ [p])).
Proof.
  intros Hok Hm Hlen Hpo. pose proof Hok as [Hw Hl Hps Hn Hmm Hi Hwi Hv Hg].
  assert (Hkeep : forall h ref r, ref_to (pages s) h ref r -> ref_to (pages s ++ [p]) h ref r).
  { intros h ref r (Hf & q & Hq & Hrest). split; [done|]. exists q. split; [|done].
    by apply lookup_app_l_Some. }
  split; try done.
  - split; try done.
    + cbn. apply Forall_app. split; [done|]. by rewrite Hm; constructor.
    + cbn. rewrite blen_app, blen_cons, blen_nil. lia.
    + cbn. by rewrite Hm.
    + intros h ref Ha. destruct (Hi h ref Ha) as [r Hr]. exists r. by apply Hkeep.
  - intros k. left. unfold ShardInv.lookup. cbn [tab pages setPages].
    destruct (abs (tab s) !! hashKey k) as [ref|] eqn:Ea.
    + destruct (Hi _ _ Ea) as [r Hr].
      rewrite (lookup_in_ref _ _ _ _ _ r Ea) by (by apply Hkeep). by rewrite (lookup_in_ref _ _ _ _ _ r Ea).
    + unfold lookup_in. by rewrite Ea.
Qed.

(** Keys that making room may cost: any, under the evicting policy. *)
Definition lossy : bytes -> Prop := fun _ => AtCapPolicy cfg = PolicyRingbufEvict.

Lemma setWriteIdx_evo P s i : shard_ok s -> 0 <= i -> evo P s (setWriteIdx s i).
Proof. intros Hok Hi. split; try done; [|by left]. apply (shard_ok_ext _ _ s); try done; apply Hok. Qed.

Lemma findOrMake_ok s need :
  shard_ok s -> 0 <= need ->
  wp (findOrMakePageLocked hashKey w cfg need)
    (post (fun s' i => evo lossy s s' /\ has_room s' i need) (fun s' e => evo lossy s s' /\ room_err cfg s need e)) s.
Proof.
  intros Hok Hneed. unfold findOrMakePageLocked. apply wp_gets. cbn [id].
  pose proof (evo_refl hashKey cfg lossy s Hok) as Hrefl.
  destruct (maxEntryBytes cfg s <? need) eqn:Emax.
  { apply Z.ltb_lt in Emax. split; [done|]. by left. }
  apply Z.ltb_ge in Emax. pose proof (ok_writeIdx _ _ s Hok) as Hwi.
  eapply (wp_seq _ _ (fun s' b => s' = s /\ (b = true -> has_room s (writeIdx s) need)) no_err); [| |done].
  { destruct (writeIdx s <? blen (pages s)) eqn:Ew; [|by split]. apply Z.ltb_lt in Ew.
    destruct (lookup_lt_is_Some_2 (pages s) (Z.to_nat (writeIdx s))) as [p Hp]; [unfold blen in Ew; lia|].
    eapply wp_pageAt; [done|done|]. split; [done|]. intros [Hb Hf]%andb_true_iff. split; [done|].
    exists p. apply negb_true_iff in Hb. apply Z.leb_le in Hf. done. }
  intros s1 b [-> Hb]. destruct b; [by split; [|apply Hb]|]. clear Hb.
  eapply wp_seq; [by apply first_ok| |done]. intros s1 r (He1 & _ & Hr). pose proof (ev_ok _ _ _ _ _ He1) as Hok1.
  assert (Hw1 : evo lossy s s1) by (by eapply evo_weaken; [|exact He1]).
  destruct Hr as [[Hr Hroom]|(-> & _ & Hno)].
  { rewrite (proj2 (Z.leb_le 0 r)) by done. apply wp_modify. split; [|done].
    eapply evo_trans; [exact Hw1|by apply setWriteIdx_evo]. }
  change (0 <=? -1) with false. cbn beta iota. apply wp_gets. cbn [id].
  rewrite <- (maxEntry_evo _ _ _ _ _ He1) in Emax.
  destruct (negb (isMmap s1) && (blen (pages s1) <? MaxPagesPerShard cfg)) eqn:Ealloc.
  { apply andb_true_iff in Ealloc as [Hm Hlen]. apply negb_true_iff in Hm. apply Z.ltb_lt in Hlen.
    unfold allocHeapPageLocked. apply wp_assoc. apply (fresh_wp hashKey cfg Hcfg); try done.
    intros p s2 Hpo _ Hf Hb He2 Hps2 _. apply wp_assoc, wp_gets, wp_assoc.
    rewrite (proj2 (Z.ltb_lt _ _)) by (rewrite Hps2; done). apply wp_mret.
    assert (Hm2 : isMmap s2 = false) by (by rewrite (ev_mmap _ _ _ _ _ He2)).
    apply wp_assoc, wp_modify, wp_assoc, wp_bump. intros s4 Hq4. apply wp_mret.
    set (s3 := setPages s2 (pages s2 ++ [p])) in *.
    assert (He3 : evo nokey s2 s3) by (apply append_page_evo; [by eapply ev_ok|done|by rewrite Hps2|done]).
    pose proof (quiet_evo _ _ nokey _ _ Hq4 (ev_ok _ _ _ _ _ He3)) as He4.
    assert (Hp4 : pages s4 !! Z.to_nat (blen (pages s2)) = Some p).
    { destruct Hq4 as (_ & -> & _). cbn. rewrite blen_to_nat. by apply list_lookup_middle. }
    eapply wp_pageAt; [exact Hp4|apply blen_nonneg|].
    unfold maxEntryBytes in Emax. rewrite Hm in Emax. rewrite (proj2 (Z.ltb_ge _ need)) by lia. apply wp_modify.
    assert (He14 : evo nokey s s4).
    { eapply evo_trans; [exact He1|]. eapply evo_trans; [exact He2|]. by eapply evo_trans. }
    split.
    - eapply evo_trans; [by eapply evo_weaken; [|exact He14]|]. apply setWriteIdx_evo; [by eapply ev_ok|apply blen_nonneg].
    - split; [apply blen_nonneg|]. exists p. split_and!; try done. lia. }
  assert (Hlen : 1 <= blen (pages s1)).
  { pose proof (co_pages _ Hcfg). destruct (isMmap s1) eqn:Em; cbn in Ealloc.
    - rewrite (ok_mmap _ _ s1 Hok1 Em). lia.
    - apply Z.ltb_ge in Ealloc. lia. }
  unfold room_err. destruct (AtCapPolicy cfg) eqn:Epol.
  - eapply wp_seq; [apply evictUntil_ok; try done; lia| |].
    + intros s2 i [He2 Hroom]. apply wp_modify. split; [|done].
      eapply evo_trans; [exact Hw1|]. eapply evo_trans; [by eapply evo_weaken; [|exact He2]|].
      apply setWriteIdx_evo; [by eapply ev_ok|apply Hroom].
    + intros s2 e (He2 & Hm & He). rewrite (ev_mmap _ _ _ _ _ He1) in Hm. split; [|by right; left].
      eapply evo_trans; [exact Hw1|]. by eapply evo_weaken; [|exact He2].
  - apply wp_bump. intros s2 Hq2. split; [|by right; right; left].
    eapply evo_trans; [exact Hw1|]. by eapply quiet_evo.
  - split; [done|]. right; right; right. eauto.
Qed.

(** ** Put *)

Definition put_err (s : shard) (key value : bytes) (e : cerr) : Prop :=
  room_err cfg s (entrySpanExact (blen key) (blen value)) e \/ (e = errKeyTooLong /\ maxKeyLen < blen key).

Lemma setWriteSeq_evo P s n : shard_ok s -> evo P s (setWriteSeq s n).
Proof. intros Hok. split; try done; [|by left]. apply (shard_ok_ext _ _ s); try done; apply Hok. Qed.

Lemma Write_key_too_long p k v e m :
  entrySpanExact (blen k) (blen v) <= FreeTail p -> page_wf p -> maxKeyLen < blen k -> Write p k v e m = Err errKeyTooLong.
Proof.
  intros Hf Hwf Hk. unfold Write, entrySpan, classOf. rewrite (proj2 (Z.ltb_ge _ _) Hf).
  destruct Hwf as [Hb _ _]. rewrite slice_from_in by lia. cbn [mbind outcome_bind].
  unfold encodeEntry, encodeEntryNoCRC, encodeEntryHeader. rewrite (proj2 (Z.ltb_lt _ _) Hk). by destruct (Page.isMmap p).
Qed.

(** The append path of [putAtExpLocked]. *)
Lemma put_append_ok s key value e :
  shard_ok s -> fits 64 e ->
  wp (pageIdx ← findOrMakePageLocked hashKey w cfg (entrySpan (blen key) (blen value) true);
      modify (fun s => setWriteSeq s (u64 (writeSeq s + 1)));;
      seq ← gets writeSeq;
      '(off, _) ← writeM pageIdx key value e (makeMeta seq false);
      p ← pageAt pageIdx;
      let ref := SlabRef.makeSlabRef (u16 pageIdx) (gen p) off in
      '(slot, inserted) ← upsertM (hashKey key) ref;
      s ← gets id;
      (if sieve s && negb inserted then setVisitedM slot (tagFor (hashKey key)) ref else mret tt);;
      rehashIfOverThresholdLocked)
    (post (fun s' _ => stored lossy key value e s s') (fun s' er => evo lossy s s' /\ put_err s key value er)) s.
Proof.
  intros Hok He. unfold entrySpan, classOf. set (need := entrySpanExact _ _).
  assert (Hneed : 0 <= need) by (unfold need, entrySpanExact, entryHeaderSize; len).
  eapply wp_seq; [by apply findOrMake_ok| |].
  2:{ intros s' er [? ?]. split; [done|]. by left. }
  intros s1 i [He1 (Hi & p & Hp & Hfree & Hbar)]. apply wp_modify, wp_gets. cbn [writeSeq setWriteSeq].
  set (m := makeMeta _ false). pose proof (setWriteSeq_evo nokey s1 (u64 (writeSeq s1 + 1)) (ev_ok _ _ _ _ _ He1)) as He2.
  set (s2 := setWriteSeq s1 _) in *. pose proof (ev_ok _ _ _ _ _ He2) as Hok2.
  assert (He12 : evo lossy s s2) by (eapply evo_trans; [exact He1|by eapply evo_weaken; [|exact He2]]).
  pose proof (Forall_lookup_1 _ _ _ _ (ok_pages _ _ s2 Hok2) Hp) as Hpo.
  pose proof Hpo as [[es [Hwf _]] _ _ _ _ _ _ _].
  destruct (decide (maxKeyLen < blen key)) as [Hk|Hk].
  { unfold writeM. apply wp_assoc. eapply wp_pageAt; [exact Hp|done|]. apply wp_assoc. apply wp_bind.
    rewrite (Write_key_too_long p key value e m Hfree Hwf Hk). split; [done|]. by right. }
  assert (Hval : blen value <= maxValueLen).
  { destruct Hwf as [Hb Hsz _]. unfold FreeTail in Hfree. unfold need, entrySpanExact, entryHeaderSize, maxValueLen in *.
    rewrite (proj2 (Z.ltb_ge (tail p) 0)) in Hfree by lia. pose proof (blen_nonneg key). lia. }
  assert (Heok : entry_ok key value e m) by (split; [lia|done|done|apply makeMeta_fits]).
  eapply wp_write; [exact Hok2|exact Hp|done|exact Heok|exact Hfree|done|].
  intros p' s3 Hs3 He3 Hp' Hg Hin Hft Hb'. cbn beta iota.
  eapply wp_pageAt; [exact Hp'|done|]. cbv zeta. pose proof (ev_ok _ _ _ _ _ He3) as Hok3.
  destruct (entry_ref hashKey cfg Hcfg s3 i p' (tail p) _ Hok3 Hp' Hi Hin) as (Hfits & Hpi & Hgr & Hof).
  assert (Hu : u32 (tail p) = tail p).
  { apply wrap_fits. pose proof (entry_in_bounds _ _ _ Hin) as [? _]. unfold fits. lia. }
  rewrite Hu in *.
  eapply wp_post_mono; [apply (put_index_wp hashKey Hhash cfg Hcfg s3 key _ (ERec key value e m)); [done| |done]| |done].
  - split; [done|]. exists p'. rewrite Hpi, Hof. split_and!; try done. apply metaIsTombstone_makeMeta.
  - intros s' _ [Hst _]. cbn [evalue eexp] in Hst.
    apply (evo_stored _ _ _ _ _ _ _ s3).
    + eapply evo_trans; [exact He12|]. by eapply evo_weaken; [|exact He3].
    + destruct Hst as [H1 H2 H3 H4 H5]. split; try done. intros k Hne. destruct (H5 k Hne) as [?|[[[]|?] ?]]; auto.
Qed.

Lemma put_ok s key value e :
  shard_ok s -> fits 64 e ->
  wp (putAtExpLocked hashKey w cfg key value e (hashKey key))
    (post (fun s' _ => stored lossy key value e s s') (fun s' er => evo lossy s s' /\ put_err s key value er)) s.
Proof.
  intros Hok He. unfold putAtExpLocked. apply wp_bump. intros s1 Hq.
  pose proof (quiet_ok _ _ _ _ Hq Hok) as Hok1. pose proof (quiet_evo _ _ lossy _ _ Hq Hok) as Hev.
  eapply wp_seq; [by apply putInPlace_ok| |done]. intros s2 b Hb. destruct b.
  - apply (evo_stored _ _ _ _ _ _ _ s1); [done|]. destruct Hb as [H1 H2 H3 H4 H5]. split; try done.
    intros k Hne. destruct (H5 k Hne) as [?|[[[]|?] ?]]; auto.
  - assert (Hev2 : evo lossy s s2) by (eapply evo_trans; [exact Hev|by eapply evo_weaken; [|exact Hb]]).
    eapply wp_post_mono; [apply put_append_ok; [by eapply ev_ok|done]| |].
    + intros s' u Hst. by apply (evo_stored _ _ _ _ _ _ _ s2).
    + intros s' er [He' Her]. split; [by eapply evo_trans|].
      destruct Her as [Her|?]; [left|by right]. unfold room_err in *.
      rewrite (maxEntry_evo _ _ _ _ _ Hev2), (ev_mmap _ _ _ _ _ Hev2) in Her. done.
Qed.

(** ** Delete *)

(** Reading the key under a reference of the index. *)
Lemma wp_storedKey {B} s h slot ref (K : option bytes -> M B) Q :
  shard_ok s -> find_result (tab s) h (Some (slot, ref)) ->
  (forall rc, ref_to (pages s) h ref rc -> abs (tab s) !! h = Some ref -> rec_ok rc -> wp (K (Some (ekey rc))) Q s) ->
  wp (storedKeyAt ref ≫= K) Q s.
Proof.
  intros Hok Hf HK. destruct (found_ref _ _ _ _ _ _ Hok Hf) as (rc & p & Href & Hp & Hg & Hin & Hh & Hi & Ha).
  unfold storedKeyAt. apply wp_assoc. eapply wp_pageAt; [done|lia|]. rewrite (entry_in_read _ _ _ Hin).
  apply wp_mret. apply HK; [done|done|]. apply entry_in_framed in Hin as [(Hr & _) _]. done.
Qed.

Lemma lookup_found s key ref rc :
  abs (tab s) !! hashKey key = Some ref -> ref_to (pages s) (hashKey key) ref rc ->
  lookup s key = if bool_decide (ekey rc = key) then Some (evalue rc, eexp rc) else None.
Proof. intros Ha Hr. by apply (lookup_in_ref _ _ _ _ ref). Qed.

Lemma lookup_unfound s key : twf (tab s) -> find_result (tab s) (hashKey key) None -> lookup s key = None.
Proof.
  intros Hw Hf. apply (find_result_abs _ _ None Hw) in Hf. unfold ShardInv.lookup, lookup_in. by rewrite Hf.
Qed.

Definition key_or_lossy (key : bytes) : bytes -> Prop := fun k => k = key \/ lossy k.

(** The delete record of [key], with the last sequence number of the shard, is in a page. *)
Definition recorded (key : bytes) (s : shard) : Prop :=
  exists i p off, pages s !! i = Some p /\ entry_in p off (ERec key [] 0 (makeMeta (writeSeq s) true)).

Lemma recorded_same key s s' : pages s' = pages s -> writeSeq s' = writeSeq s -> recorded key s -> recorded key s'.
Proof. intros Hp Hw (i & p & off & H). exists i, p, off. by rewrite Hp, Hw. Qed.

Definition del_ok (s : shard) (key : bytes) (s' : shard) (b : bool) : Prop :=
  evo (key_or_lossy key) s s' /\ lookup s' key = None /\ b = bool_decide (lookup s key <> None) /\ (b = true -> isMmap s = true -> recorded key s').

(** Dropping the slot of [key], with the counters and the trace. *)
Lemma drop_slot_wp s s1 key slot ref rc Q :
  evo (key_or_lossy key) s s1 -> find_result (tab s1) (hashKey key) (Some (slot, ref)) ->
  ref_to (pages s1) (hashKey key) ref rc -> ekey rc = key ->
  (forall s', evo (key_or_lossy key) s s' -> lookup s' key = None -> pages s' = pages s1 -> writeSeq s' = writeSeq s1 -> Q s' (Ok true)) ->
  wp (tombstoneM slot;; bump cDels;; fireOnRemove key;; mret true) Q s1.
Proof.
  intros He Hf Href Hk HQ. pose proof (ev_ok _ _ _ _ _ He) as Hok1. destruct Hf as (Hrg & Hocc & Hr). subst key.
  destruct (tombstone_key_evo hashKey cfg s1 slot ref rc Hok1 ltac:(lia) Hocc Hr Href) as [Het Hnone].
  apply wp_modify, wp_bump. intros s2 Hq2. apply wp_fire. intros s3 Hq3.
  pose proof (quiet_trans _ _ _ Hq2 Hq3) as Hq.
  pose proof (quiet_evo _ _ nokey _ _ Hq (ev_ok _ _ _ _ _ Het)) as He3.
  apply HQ.
  - eapply evo_trans; [exact He|]. eapply evo_trans.
    + eapply evo_weaken; [|exact Het]. intros k ->. by left.
    + by eapply evo_weaken; [|exact He3].
  - by rewrite (evo_nokey_lookup _ _ _ _ _ He3).
  - apply Hq.
  - apply Hq.
Qed.

Lemma del_absent_wp s key : shard_ok s -> lookup s key = None -> del_ok s key s false.
Proof. intros Hok Hn. split; [by apply evo_refl|]. split; [done|]. rewrite Hn. by case_bool_decide; split. Qed.

Lemma delete_ok s key :
  shard_ok s ->
  wp (delH hashKey w cfg key (hashKey key))
    (post (del_ok s key) (fun s' e => evo lossy s s' /\ isMmap s = true /\ lookup s key <> None /\
       room_err cfg s (entrySpanExact (blen key) 0) e)) s.
Proof.
  intros Hok. pose proof (ok_tab _ _ s Hok) as Hw. unfold delH. apply wp_findSlot; [done|done|].
  intros [[slot ref]|] Hf; [|by apply del_absent_wp; [|apply lookup_unfound]].
  eapply wp_storedKey; [done|done|]. intros rc Href Ha Hrok.
  pose proof (lookup_found _ _ _ _ Ha Href) as Hlk.
  destruct (bool_decide (Some (ekey rc) = Some key)) eqn:Ek; cbn [negb].
  2:{ apply bool_decide_eq_false in Ek. apply del_absent_wp; [done|]. rewrite Hlk, bool_decide_false; [done|congruence]. }
  apply bool_decide_eq_true in Ek. injection Ek as Ek. rewrite bool_decide_true in Hlk by done.
  assert (Hb : true = bool_decide (lookup s key <> None)) by (by rewrite bool_decide_true; [|by rewrite Hlk]).
  apply wp_gets. cbn [id]. unfold needsDurableTombstone.
  destruct (isMmap s) eqn:Em.
  2:{ apply wp_mret. cbn beta iota. eapply drop_slot_wp; [by apply evo_refl|done|done|done|].
      intros s' He Hn _ _. split_and!; try done. by rewrite Em. }
  unfold entrySpan, classOf. set (need := entrySpanExact _ _).
  assert (Hneed : 0 <= need) by (unfold need, entrySpanExact, entryHeaderSize; len).
  apply wp_assoc. eapply wp_seq; [by apply findOrMake_ok| |].
  2:{ intros s' er [He Her]. split_and!; try done. by rewrite Hlk. }
  intros s1 i [He1 (Hi & p & Hp & Hfree & Hbar)]. apply wp_assoc, wp_modify, wp_assoc, wp_gets. cbn [writeSeq setWriteSeq].
  set (m := makeMeta _ true). pose proof (setWriteSeq_evo nokey s1 (u64 (writeSeq s1 + 1)) (ev_ok _ _ _ _ _ He1)) as He2.
  set (s2 := setWriteSeq s1 _) in *. pose proof (ev_ok _ _ _ _ _ He2) as Hok2.
  assert (Heok : entry_ok key [] 0 m).
  { destruct Hrok as [Hk _ _ _]. rewrite Ek in Hk. split; [done|vm_compute; done|unfold fits; lia|apply makeMeta_fits]. }
  apply wp_assoc. eapply wp_write; [exact Hok2|exact Hp|done|exact Heok|exact Hfree|done|].
  intros p' s3 -> He3 Hp3 _ Hin3 _ _. set (s3 := setPages s2 _) in *. pose proof (ev_ok _ _ _ _ _ He3) as Hok3.
  assert (Hrec : recorded key s3) by (by exists (Z.to_nat i), p', (tail p)).
  assert (He13 : evo (key_or_lossy key) s s3).
  { eapply evo_trans; [eapply evo_weaken; [|exact He1]; by right|].
    eapply evo_trans; [by eapply evo_weaken; [|exact He2]|by eapply evo_weaken; [|exact He3]]. }
  assert (Hgone : lookup s3 key = None -> wp (bump cDels;; mret true)
    (post (del_ok s key) (fun s' e => evo lossy s s' /\ true = true /\ lookup s key <> None /\
       room_err cfg s need e)) s3).
  { intros Hn. apply wp_bump. intros s4 Hq4. pose proof (quiet_evo _ _ nokey _ _ Hq4 Hok3) as He4.
    split; [eapply evo_trans; [exact He13|by eapply evo_weaken; [|exact He4]]|].
    split; [by rewrite (evo_nokey_lookup _ _ _ _ _ He4)|]. split; [done|]. intros _ _. by eapply recorded_same; [apply Hq4..|]. }
  apply wp_assoc. apply wp_findSlot; [by apply Hok3|done|]. intros [[slot3 ref3]|] Hf3.
  2:{ apply wp_mret. apply Hgone. apply lookup_unfound; [apply Hok3|done]. }
  apply wp_assoc. eapply wp_storedKey; [done|done|]. intros rc3 Href3 Ha3 _. apply wp_mret.
  destruct (bool_decide (Some (ekey rc3) = Some key)) eqn:Ek3.
  - apply bool_decide_eq_true in Ek3. injection Ek3 as Ek3.
    eapply drop_slot_wp; [exact He13|done|done|done|]. intros s' He Hn Hpg Hws. split_and!; try done. intros _ _. by eapply recorded_same.
  - apply bool_decide_eq_false in Ek3. apply Hgone. rewrite (lookup_found _ _ _ _ Ha3 Href3).
    rewrite bool_decide_false; [done|congruence].
Qed.

End Write.
