(* ===== verification/ShardProps.v ===== *)
(** * Properties of the shard.

    An abstract cache is a partial map from keys to values with expiries. Each
    operation of a shard is an operation of it, on every state of the
    invariant. *)
From S2P Require Import Prelude CacheConfig SipHash Entry Page IndexTable Shard ShardInv ShardGet ShardPut ShardRoom ShardEvict ShardFit ShardWrite.
Import Entry Page IndexTable Shard.

(** ** Construction *)

Section Init.
Context (hashKey : bytes -> Z) (w : world) (cfg : Config) (Hcfg : cfg_ok cfg).

Lemma empty_ok fk fl mm : mm = false -> shard_ok hashKey cfg (emptyShard cfg mm fk fl).
Proof.
  intros ->. destruct (newIndexTable_ok 0) as (Hw & Ha & _); [lia|]. pose proof (co_pages _ Hcfg).
  split; try done; cbn; rewrite ?blen_nil; lia.
Qed.

Lemma alloc_pages_ok n s :
  shard_ok hashKey cfg s -> isMmap s = false -> blen (pages s) + Z.of_nat n <= MaxPagesPerShard cfg ->
  wp (alloc_pages cfg n) (post (fun s' _ => evo hashKey cfg nokey s s') no_err) s.
Proof.
  revert s. induction n as [|n IH]; intros s Hok Hm Hlen; [by apply evo_refl|].
  cbn [alloc_pages]. unfold allocHeapPageLocked. apply wp_assoc, (fresh_wp hashKey cfg Hcfg); [done|done|].
  intros p s2 Hpo _ _ _ He2 Hps2 _. apply wp_assoc, wp_gets, wp_assoc.
  rewrite (proj2 (Z.ltb_lt _ _)) by (rewrite Hps2; lia). apply wp_mret.
  assert (Hm2 : isMmap s2 = false) by (by rewrite (ev_mmap _ _ _ _ _ He2)).
  apply wp_assoc, wp_modify, wp_assoc, wp_bump. intros s4 Hq4. apply wp_mret.
  assert (He3 : evo hashKey cfg nokey s2 (setPages s2 (pages s2 ++ [p]))).
  { apply append_page_evo; [by eapply ev_ok|done|rewrite Hps2; lia|done]. }
  pose proof (quiet_evo _ _ nokey _ _ Hq4 (ev_ok _ _ _ _ _ He3)) as He4.
  eapply wp_post_mono; [apply IH| |done].
  - by eapply ev_ok.
  - by rewrite (ev_mmap _ _ _ _ _ He4).
  - destruct Hq4 as (_ & -> & _). cbn. rewrite blen_app, blen_cons, blen_nil, Hps2. lia.
  - intros s' u He5. eapply evo_trans; [exact He2|]. eapply evo_trans; [exact He3|]. by eapply evo_trans.
Qed.

Lemma new_ok : exists s, newHeapShard cfg = (s, Ok tt) /\ shard_ok hashKey cfg s /\ isMmap s = false /\
  forall k, lookup hashKey s k = None.
Proof.
  set (s0 := emptyShard cfg false [] 0).
  assert (Hok0 : shard_ok hashKey cfg s0) by (by apply empty_ok).
  assert (H : wp (alloc_pages cfg (Z.to_nat (InitialPagesPerShard cfg));;
     modify (fun s => if 0 <? blen (pages s) then setWriteIdx s (blen (pages s) - 1) else s))
    (post (fun s' _ => evo hashKey cfg nokey s0 s') no_err) s0).
  { eapply wp_seq; [apply alloc_pages_ok; [done|done|]| |done].
    - cbn. rewrite blen_nil. pose proof (co_init _ Hcfg). lia.
    - intros s1 [] He. unfold wp, modify. destruct (0 <? blen (pages s1)) eqn:E1; [|done].
      apply Z.ltb_lt in E1. simpl. eapply evo_trans; [exact He|]. apply setWriteIdx_evo; [by eapply ev_ok|lia]. }
  unfold newHeapShard. fold s0. unfold wp in H.
  match type of H with context [let (_, _) := ?m in _] => destruct m as [s [[]|e|]] end; simpl in H; [|done|done].
  exists s. split; [done|]. split; [by eapply ev_ok|]. split; [by rewrite (ev_mmap _ _ _ _ _ H)|].
  intros k. rewrite (evo_nokey_lookup _ _ _ _ _ H). unfold lookup, lookup_in.
  destruct (newIndexTable_ok 0) as (_ & Ha & _); [lia|]. cbn [tab s0 emptyShard]. by rewrite Ha.
Qed.

End Init.

(** ** The abstract cache *)

(** A cache holds a value and an expiry for some keys. *)
Definition cache := bytes -> option (bytes * Z).

Inductive op := OPut (k v : bytes) (exp : Z) | OGet (k : bytes) (now : Z) | ODel (k : bytes).
Inductive res := RDone | RValue (v : bytes) (exp : Z) | RBool (b : bool) | RErr (e : cerr).

(** [loses m m' P]: [m'] is [m] without some of the keys satisfying [P]. *)
Definition loses (P : bytes -> Prop) (m m' : cache) : Prop :=
  forall k, m' k = m k \/ (P k /\ m' k = None).

(** What an operation may answer, and the map afterwards. Under the evicting
    policy ([lossy]) a write may cost any other key; a write costs the keys that
    collide with it on the hash; nothing else is lost. *)
Inductive spec_step (hashKey : bytes -> Z) (lossy : Prop) (m : cache) : op -> res -> cache -> Prop :=
| spec_put k v e m' :
    m' k = Some (v, e) ->
    (forall k', k' <> k -> m' k' = m k' \/ ((lossy \/ hashKey k' = hashKey k) /\ m' k' = None)) ->
    spec_step hashKey lossy m (OPut k v e) RDone m'
| spec_put_err k v e er m' : loses (fun _ => lossy) m m' -> spec_step hashKey lossy m (OPut k v e) (RErr er) m'
| spec_hit k n v e m' :
    m k = Some (v, e) -> isExpired e n = false -> (forall k', m' k' = m k') ->
    spec_step hashKey lossy m (OGet k n) (RValue v e) m'
| spec_miss k n m' :
    match m k with Some (_, e) => isExpired e n = true | None => True end ->
    loses (fun k' => k' = k) m m' ->
    spec_step hashKey lossy m (OGet k n) (RErr ErrNotFound) m'
| spec_del k m' :
    m' k = None -> loses (fun k' => k' = k \/ lossy) m m' ->
    spec_step hashKey lossy m (ODel k) (RBool (bool_decide (m k <> None))) m'
| spec_del_err k er m' : loses (fun _ => lossy) m m' -> spec_step hashKey lossy m (ODel k) (RErr er) m'.

Inductive spec_run (hashKey : bytes -> Z) (lossy : Prop) : cache -> list (op * res) -> cache -> Prop :=
| run_nil m : spec_run hashKey lossy m [] m
| run_cons m o r m1 l m2 :
    spec_step hashKey lossy m o r m1 -> spec_run hashKey lossy m1 l m2 ->
    spec_run hashKey lossy m ((o, r) :: l) m2.

Section Props.
Context (hashKey : bytes -> Z) (Hhash : forall k, fits 64 (hashKey k)).
Context (w : world) (cfg : Config) (Hcfg : cfg_ok cfg).
#[local] Abbreviation shard_ok := (shard_ok hashKey cfg).
#[local] Abbreviation lookup := (lookup hashKey).

(** The concrete operations. *)
Definition exec (o : op) (s : shard) : shard * option res :=
  match o with
  | OPut k v e =>
      match putAbsH hashKey w cfg k v e (hashKey k) s with
      | (s', Ok _) => (s', Some RDone) | (s', Err e) => (s', Some (RErr e)) | (s', Panic) => (s', None)
      end
  | OGet k n =>
      match getWithExpiryAtH cfg k (hashKey k) n s with
      | (s', Ok (v, e)) => (s', Some (RValue v e)) | (s', Err e) => (s', Some (RErr e)) | (s', Panic) => (s', None)
      end
  | ODel k =>
      match delH hashKey w cfg k (hashKey k) s with
      | (s', Ok b) => (s', Some (RBool b)) | (s', Err e) => (s', Some (RErr e)) | (s', Panic) => (s', None)
      end
  end.

(** The operations' arguments are machine integers. *)
Definition op_ok (o : op) : Prop := match o with OPut _ _ e => fits 64 e | _ => True end.

Lemma stamp_evo P s n : shard_ok s ->
  evo hashKey cfg P s (if n <=? lastAppliedStampMs s then s else setLastAppliedStampMs s n).
Proof.
  intros Hok. destruct (_ <=? _); [by apply evo_refl|].
  split; try done; [|by left]. apply (shard_ok_ext _ _ s); try done; apply Hok.
Qed.

Lemma exec_simulates s o :
  shard_ok s -> op_ok o ->
  exists s' r, exec o s = (s', Some r) /\ shard_ok s' /\
    spec_step hashKey (AtCapPolicy cfg = PolicyRingbufEvict) (lookup s) o r (lookup s').
Proof.
  intros Hok Ho. destruct o as [k v e|k n|k]; unfold exec.
  - pose proof (put_ok hashKey Hhash w cfg Hcfg s k v e Hok Ho) as H. unfold wp in H. unfold putAbsH.
    destruct (putAtExpLocked _ _ _ _ _ _ _ s) as [s' [[]|er|]]; simpl in H; [| |done].
    + do 2 eexists. split; [done|]. destruct H as [H1 _ _ H4 H5]. split; [done|]. by constructor.
    + do 2 eexists. split; [done|]. destruct H as [He _]. split; [by eapply ev_ok|]. constructor. exact (ev_lookup _ _ _ _ _ He).
  - pose proof (stamp_evo nokey s n Hok) as He0. unfold getWithExpiryAtH, advanceAppliedStamp.
    set (s0 := if _ <=? _ then _ else _) in He0.
    pose proof (getCore_ok hashKey Hhash cfg s0 k n true (ev_ok _ _ _ _ _ He0)) as H. unfold wp in H.
    unfold mbind, st_bind, modify. fold s0.
    destruct (getCore cfg k (hashKey k) n true s0) as [s' [[v e]|er|]]; simpl in H; [| |done].
    + destruct H as (He & v' & e' & Hl & Hx & Hex). injection Hx as -> ->.
      rewrite (evo_nokey_lookup _ _ _ _ _ He0) in Hl. do 2 eexists. split; [done|]. split; [by eapply ev_ok|].
      constructor; [done|done|]. intros k'.
      by rewrite (evo_nokey_lookup _ _ _ _ _ He), (evo_nokey_lookup _ _ _ _ _ He0).
    + destruct H as (-> & He & Hm). do 2 eexists. split; [done|]. split; [by eapply ev_ok|].
      rewrite (evo_nokey_lookup _ _ _ _ _ He0) in Hm. constructor; [done|].
      intros k'. rewrite <- (evo_nokey_lookup _ _ _ _ k' He0). exact (ev_lookup _ _ _ _ _ He k').
  - pose proof (delete_ok hashKey Hhash w cfg Hcfg s k Hok) as H. unfold wp in H.
    destruct (delH _ _ _ _ _ s) as [s' [b|er|]]; simpl in H; [| |done].
    + do 2 eexists. split; [done|]. destruct H as (He & Hn & -> & _). split; [by eapply ev_ok|].
      constructor; [done|]. exact (ev_lookup _ _ _ _ _ He).
    + do 2 eexists. split; [done|]. destruct H as [He _]. split; [by eapply ev_ok|]. constructor. exact (ev_lookup _ _ _ _ _ He).
Qed.

Fixpoint exec_all (l : list op) (s : shard) : shard * option (list (op * res)) :=
  match l with
  | [] => (s, Some [])
  | o :: l =>
      match exec o s with
      | (s', Some r) =>
          match exec_all l s' with (s'', Some t) => (s'', Some ((o, r) :: t)) | (s'', None) => (s'', None) end
      | (s', None) => (s', None)
      end
  end.

Lemma exec_all_simulates l s :
  shard_ok s -> Forall op_ok l ->
  exists s' t, exec_all l s = (s', Some t) /\ shard_ok s' /\
    spec_run hashKey (AtCapPolicy cfg = PolicyRingbufEvict) (lookup s) t (lookup s').
Proof.
  revert s. induction l as [|o l IH]; intros s Hok Hl; simpl.
  - do 2 eexists. split; [done|]. split; [done|]. constructor.
  - inversion Hl as [|? ? Ho Hl' E1]. subst. destruct (exec_simulates s o Hok Ho) as (s1 & r & -> & Hok1 & Hst).
    destruct (IH s1 Hok1 Hl') as (s2 & t & -> & Hok2 & Hrun). do 2 eexists. split; [done|]. split; [done|].
    by econstructor.
Qed.

End Props.

Lemma exec_all_ops hashKey w cfg l : forall s s' t, exec_all hashKey w cfg l s = (s', Some t) -> t.*1 = l.
Proof.
  induction l as [|o l IH]; intros s s' t; simpl; [by intros [= _ <-]|].
  destruct (exec _ _ _ o s) as [s1 [r|]]; [|done].
  destruct (exec_all _ _ _ l s1) as [s2 [t'|]] eqn:E1; [|done]. intros [= _ <-]. simpl. f_equal. by eapply IH.
Qed.

(** ** Claims *)

(** C1. A heap shard is a cache. From a new shard, which is empty, every sequence
    of puts, gets and deletes runs without a panic, and its results are those of
    an abstract key/value cache with expiries: a put key reads back until it is
    deleted, overwritten or expired; other keys are lost only to eviction
    (evicting policy) or to a hash collision with a written key. *)
Theorem shard_refines_cache hashKey w cfg l :
  (forall k, fits 64 (hashKey k)) -> cfg_ok cfg -> Forall op_ok l ->
  exists s0 s t, newHeapShard cfg = (s0, Ok tt) /\ (forall k, lookup hashKey s0 k = None) /\
    exec_all hashKey w cfg l s0 = (s, Some t) /\ t.*1 = l /\ shard_ok hashKey cfg s /\
    spec_run hashKey (AtCapPolicy cfg = PolicyRingbufEvict) (lookup hashKey s0) t (lookup hashKey s).
Proof.
  intros Hh Hc Hl. destruct (new_ok hashKey cfg Hc) as (s0 & Hn & Hok & _ & Hempty).
  destruct (exec_all_simulates hashKey Hh w cfg Hc l s0 Hok Hl) as (s & t & He & Hok' & Hrun).
  exists s0, s, t. split_and!; try done. by eapply exec_all_ops.
Qed.

(** C6. Put, on every branch. On a state of the invariant (heap or mmap, either
    policy, with or without in-place updates and relocating eviction)
    [putAtExpLocked] never panics. When it succeeds the key holds exactly the
    new value and expiry, and any other key keeps its entry unless it was
    evicted or collides on the hash; when it fails the reason is one of those of
    [put_err] and nothing is lost but to eviction. The invariant is kept. *)
Theorem shard_put hashKey w cfg s key value e :
  (forall k, fits 64 (hashKey k)) -> cfg_ok cfg -> shard_ok hashKey cfg s -> fits 64 e ->
  match putAtExpLocked hashKey w cfg key value e (hashKey key) s with
  | (s', Ok _) =>
      shard_ok hashKey cfg s' /\ lookup hashKey s' key = Some (value, e) /\
      forall k, k <> key -> lookup hashKey s' k = lookup hashKey s k \/
        ((AtCapPolicy cfg = PolicyRingbufEvict \/ hashKey k = hashKey key) /\ lookup hashKey s' k = None)
  | (s', Err er) =>
      shard_ok hashKey cfg s' /\ put_err cfg s key value er /\
      forall k, lookup hashKey s' k = lookup hashKey s k \/
        (AtCapPolicy cfg = PolicyRingbufEvict /\ lookup hashKey s' k = None)
  | (_, Panic) => False
  end.
Proof.
  intros Hh Hc Hok He. pose proof (put_ok hashKey Hh w cfg Hc s key value e Hok He) as H. unfold wp in H.
  destruct (putAtExpLocked _ _ _ _ _ _ _ s) as [s' [[]|er|]]; simpl in H; [| |done].
  - by destruct H as [H1 _ _ H4 H5].
  - destruct H as [Hev Her]. split; [by eapply ev_ok|]. split; [done|]. exact (ev_lookup _ _ _ _ _ Hev).
Qed.

(** C11. On a heap shard with the evicting policy a put of an entry that fits a
    page always succeeds: the eviction loop terminates within two rounds and
    finds room. *)
Theorem heap_put_succeeds hashKey w cfg s key value e :
  (forall k, fits 64 (hashKey k)) -> cfg_ok cfg -> shard_ok hashKey cfg s -> fits 64 e ->
  AtCapPolicy cfg = PolicyRingbufEvict -> isMmap s = false -> blen key <= maxKeyLen ->
  entrySpanExact (blen key) (blen value) <= PageSize cfg ->
  exists s', putAtExpLocked hashKey w cfg key value e (hashKey key) s = (s', Ok tt) /\
    lookup hashKey s' key = Some (value, e).
Proof.
  intros Hh Hc Hok He Hpol Hm Hk Hfit.
  pose proof (put_ok hashKey Hh w cfg Hc s key value e Hok He) as H. unfold wp in H.
  destruct (putAtExpLocked _ _ _ _ _ _ _ s) as [s' [[]|er|]]; simpl in H; [| |done].
  - exists s'. split; [done|]. apply H.
  - exfalso. destruct H as [_ [[[_ Hmax]|[(_ & Hmm & _)|[(Hp & _)|((n & Hp) & _)]]]|[_ Hlong]]]; try congruence.
    + unfold maxEntryBytes in Hmax. rewrite Hm in Hmax. lia.
    + lia.
Qed.


(** C9. Delete, on every branch. It reports whether the key was there, and
    afterwards the key is gone; on an mmap shard a key that was there has left a
    delete record, with the last sequence number of the shard, in one of the
    pages, for a restart to find. An mmap shard can instead have no room for the
    record: then the delete fails, the key was there, and it still is unless it was
    evicted. Keys other than the deleted one are lost only to the eviction that
    was to make room. *)
Theorem shard_delete hashKey w cfg s key :
  (forall k, fits 64 (hashKey k)) -> cfg_ok cfg -> shard_ok hashKey cfg s ->
  match delH hashKey w cfg key (hashKey key) s with
  | (s', Ok b) =>
      shard_ok hashKey cfg s' /\ b = bool_decide (lookup hashKey s key <> None) /\ lookup hashKey s' key = None /\
      (b = true -> isMmap s = true -> recorded key s') /\
      forall k, k <> key -> lookup hashKey s' k = lookup hashKey s k \/
        (AtCapPolicy cfg = PolicyRingbufEvict /\ lookup hashKey s' k = None)
  | (s', Err er) =>
      shard_ok hashKey cfg s' /\ isMmap s = true /\ lookup hashKey s key <> None /\
      room_err cfg s (entrySpanExact (blen key) 0) er /\
      forall k, lookup hashKey s' k = lookup hashKey s k \/ (AtCapPolicy cfg = PolicyRingbufEvict /\ lookup hashKey s' k = None)
  | (_, Panic) => False
  end.
Proof.
  intros Hh Hc Hok. pose proof (delete_ok hashKey Hh w cfg Hc s key Hok) as H. unfold wp in H.
  destruct (delH _ _ _ _ _ s) as [s' [b|er|]]; simpl in H; [| |done].
  - destruct H as (He & Hn & -> & Hr). split; [by eapply ev_ok|]. split_and!; try done.
    intros k Hne. destruct (ev_lookup _ _ _ _ _ He k) as [?|[[?|?] ?]]; auto. done.
  - destruct H as (He & Hm & Hl & Her). split; [by eapply ev_ok|]. split_and!; try done.
    intros k. destruct (ev_lookup _ _ _ _ _ He k) as [?|[? ?]]; auto.
Qed.

(** ** Concrete instances *)

(** A hash, a configuration of four small pages, and a world whose clock, nonce
    source and msync always answer. *)
Definition sampleHash (k : bytes) : Z := u64 (le_combine (take 8 k) * 11400714819323198485).
Definition sampleWorld : world := MkWorld (fun _ => 1000) (fun n => Some (Z.of_nat n)) (fun _ => true) true (fun _ => 0).
Definition sampleCfg : Config := 
  MkConfig 1 96 384 1 PolicyRingbufEvict 0 false false false 1 false true 0 0 0 true true true.
Definition sampleShard : shard := fst (newHeapShard sampleCfg).

Lemma sampleHash_fits k : fits 64 (sampleHash k).
Proof. apply fits_wrap. lia. Qed.

Lemma sampleCfg_ok : cfg_ok sampleCfg.
Proof. split; vm_compute; split; done. Qed.

Lemma sampleShard_ok : shard_ok sampleHash sampleCfg sampleShard.
Proof.
  destruct (new_ok sampleHash sampleCfg sampleCfg_ok) as (s & Hn & Hok & _). unfold sampleShard. by rewrite Hn.
Qed.

Lemma shard_refines_cache_witness : exists s0 s t, newHeapShard sampleCfg = (s0, Ok tt) /\
  exec_all sampleHash sampleWorld sampleCfg
    [OPut [Byte.x01] [Byte.x02] 0; OGet [Byte.x01] 7; ODel [Byte.x01]; OGet [Byte.x01] 8] s0 = (s, Some t) /\
  spec_run sampleHash (AtCapPolicy sampleCfg = PolicyRingbufEvict) (lookup sampleHash s0) t (lookup sampleHash s).
Proof.
  destruct (shard_refines_cache sampleHash sampleWorld sampleCfg
    [OPut [Byte.x01] [Byte.x02] 0; OGet [Byte.x01] 7; ODel [Byte.x01]; OGet [Byte.x01] 8])
    as (s0 & s & t & Hn & _ & He & _ & _ & Hrun).
  - exact sampleHash_fits.
  - exact sampleCfg_ok.
  - repeat constructor; vm_compute; done.
  - exists s0, s, t. split; [exact Hn|]. split; [exact He|exact Hrun].
Defined.

Lemma shard_put_witness : exists s', putAtExpLocked sampleHash sampleWorld sampleCfg [Byte.x01] [Byte.x02] 0
    (sampleHash [Byte.x01]) sampleShard = (s', Ok tt) /\ lookup sampleHash s' [Byte.x01] = Some ([Byte.x02], 0).
Proof.
  pose proof (shard_put sampleHash sampleWorld sampleCfg sampleShard [Byte.x01] [Byte.x02] 0
    sampleHash_fits sampleCfg_ok sampleShard_ok ltac:(unfold fits; lia)) as H.
  destruct (putAtExpLocked _ _ _ _ _ _ _ sampleShard) as [s' [[]|er|]] eqn:E1; [|exfalso|done].
  - exists s'. split; [done|]. apply H.
  - vm_compute in E1. discriminate E1.
Defined.

Lemma heap_put_succeeds_witness : exists s', putAtExpLocked sampleHash sampleWorld sampleCfg [Byte.x01] [Byte.x02] 0
    (sampleHash [Byte.x01]) sampleShard = (s', Ok tt) /\ lookup sampleHash s' [Byte.x01] = Some ([Byte.x02], 0).
Proof.
  apply (heap_put_succeeds sampleHash sampleWorld sampleCfg sampleShard [Byte.x01] [Byte.x02] 0).
  - exact sampleHash_fits.
  - exact sampleCfg_ok.
  - exact sampleShard_ok.
  - unfold fits. lia.
  - reflexivity.
  - reflexivity.
  - vm_compute. done.
  - vm_compute. done.
Defined.

(** ** A deleted key that comes back *)

Definition mmapCfg : Config := 
  MkConfig 1 96 288 0 PolicyRingbufEvict 0 true false false 1 false false 0 0 0 false false false.
Definition mmapKey : bytes := replicate 16 Byte.x07.

Definition putB (k : byte) : M unit := putAbsH sampleHash sampleWorld mmapCfg [k] [Byte.x10] 0 (sampleHash [k]).

(** Put 1 and 2, delete 1, then fill the shard so that the page with the delete
    record is evicted. *)
Definition churn : M bool :=
  putB Byte.x01;; putB Byte.x02;;
  b ← Del sampleHash sampleWorld mmapCfg [Byte.x01];
  putB Byte.x03;; putB Byte.x04;; putB Byte.x05;; putB Byte.x06;; mret b.

Definition freshFile : list bytes := replicate 3 (replicate 96 Byte.x00).

(** The state before the restart, what [Get 1] answers in it, the file [Close]
    leaves, and what [Get 1] answers after the restart. *)
Definition restart : outcome cerr (outcome cerr bytes * outcome cerr bytes) :=
  let s0 := fst (openMmapShard sampleHash sampleWorld mmapCfg freshFile mmapKey 0) in
  let (s1, r) := churn s0 in
  b ← r;
  file ← Close s1;
  let s2 := fst (openMmapShard sampleHash sampleWorld mmapCfg file mmapKey 0) in
  if b : bool
  then Ok (snd (Get sampleHash sampleWorld mmapCfg [Byte.x01] s1), snd (Get sampleHash sampleWorld mmapCfg [Byte.x01] s2))
  else Err ErrNotFound.

(** On an mmap shard with the evicting policy a delete does not survive a
    restart once the page holding its record has been evicted (here with pages
    of 96 bytes and cold compaction disabled): the key was
    deleted (the delete answered true and a read finds nothing), and after
    [Close] and reopen the older copy, still framed on another page, is served
    again. *)
Lemma deleted_key_resurrected : restart = Ok (Err ErrNotFound, Ok [Byte.x10]).
Proof. vm_compute. reflexivity. Qed.
