(* ===== verification/Crc32.v ===== *)
(** * CRC-32 (IEEE), the checksum of Go's package hash/crc32.

    It guards the header of a cache file, the flush watermark, the records and
    the stable map of the raft log. [crc32_burst] is what the code relies on: a
    change of up to four consecutive bytes is never missed. *)
From S2P Require Import Prelude.

Module Crc32.

(** The reflected polynomial. *)
Definition poly : Z := 0xEDB88320.
Definition mask : Z := 0xFFFFFFFF.

(** One bit of the division, one byte, a slice. *)
Definition bitstep (x : Z) : Z :=
  if Z.testbit x 0 then Z.lxor (Z.shiftr x 1) poly else Z.shiftr x 1.
Definition bytestep (x : Z) (b : byte) : Z := Nat.iter 8 bitstep (Z.lxor x (byte.unsigned b)).
Definition update (crc : Z) (p : bytes) : Z := Z.lxor (foldl bytestep (Z.lxor crc mask) p) mask.
Definition ChecksumIEEE (p : bytes) : Z := update 0 p.

Lemma crc_check_value :
  ChecksumIEEE [Byte.x31; Byte.x32; Byte.x33; Byte.x34; Byte.x35; Byte.x36; Byte.x37; Byte.x38; Byte.x39] = 0xCBF43926.
Proof. vm_compute. reflexivity. Qed.

Lemma fits_poly : fits 32 poly.
Proof. by compute. Qed.
Lemma fits_mask : fits 32 mask.
Proof. by compute. Qed.
#[local] Hint Resolve fits_poly fits_mask : core.

Lemma bitstep_fits x : fits 32 x -> fits 32 (bitstep x).
Proof. intros. unfold bitstep. case_match; fit; auto. Qed.

Lemma iter_fits n x : fits 32 x -> fits 32 (Nat.iter n bitstep x).
Proof. intros. induction n; [done|]. by apply bitstep_fits. Qed.

(** The top bit of a step tells the bit that was shifted out. *)
Lemma bitstep_top x : fits 32 x -> Z.testbit (bitstep x) 31 = Z.testbit x 0.
Proof.
  intros [_ Hx]%fits_bits; [|lia]. unfold bitstep.
  destruct (Z.testbit x 0); rewrite ?Z.lxor_spec, Z.shiftr_spec, Hx by lia; reflexivity.
Qed.

Lemma shiftr1_inj x y : Z.testbit x 0 = Z.testbit y 0 -> Z.shiftr x 1 = Z.shiftr y 1 -> x = y.
Proof.
  intros H0 Hs. apply Z.bits_inj'. intros i Hi. destruct (decide (i = 0)) as [->|]; [done|].
  replace i with (i - 1 + 1) by lia. rewrite <- !Z.shiftr_spec by lia. by rewrite Hs.
Qed.

Lemma bitstep_inj x y : fits 32 x -> fits 32 y -> bitstep x = bitstep y -> x = y.
Proof.
  intros Hx Hy He. assert (H0 : Z.testbit x 0 = Z.testbit y 0) by (rewrite <- !bitstep_top by done; by rewrite He).
  apply shiftr1_inj; [done|]. unfold bitstep in He. rewrite H0 in He. destruct (Z.testbit y 0); [|done].
  apply (f_equal (fun z => Z.lxor z poly)) in He. by rewrite !Z.lxor_assoc, Z.lxor_nilpotent, !Z.lxor_0_r in He.
Qed.

Lemma iter_inj n x y : fits 32 x -> fits 32 y -> Nat.iter n bitstep x = Nat.iter n bitstep y -> x = y.
Proof.
  intros Hx Hy. induction n as [|n IH]; [done|]. cbn [Nat.iter nat_rect]. intros He.
  apply IH, bitstep_inj; [by apply iter_fits..|done].
Qed.

(** A bit enters the division only when it reaches the low end. *)
Lemma bitstep_shifted x y : bitstep (Z.lxor x (Z.shiftl y 1)) = Z.lxor (bitstep x) y.
Proof.
  unfold bitstep. rewrite Z.lxor_spec, Z.shiftl_spec_low, xorb_false_r by lia.
  rewrite Z.shiftr_lxor, Z.shiftr_shiftl_l, Z.sub_diag, Z.shiftl_0_r by lia.
  destruct (Z.testbit x 0); [|done]. rewrite !Z.lxor_assoc. f_equal. apply Z.lxor_comm.
Qed.

Lemma iter_shifted n x y : Nat.iter n bitstep (Z.lxor x (Z.shiftl y (Z.of_nat n))) = Z.lxor (Nat.iter n bitstep x) y.
Proof.
  revert x y. induction n as [|n IH]; intros x y; [by rewrite Z.shiftl_0_r|].
  replace (Z.shiftl y (Z.of_nat (S n))) with (Z.shiftl (Z.shiftl y 1) (Z.of_nat n)) by (rewrite Z.shiftl_shiftl by lia; f_equal; lia).
  change (bitstep (Nat.iter n bitstep (Z.lxor x (Z.shiftl (Z.shiftl y 1) (Z.of_nat n)))) = Z.lxor (bitstep (Nat.iter n bitstep x)) y).
  by rewrite IH, bitstep_shifted.
Qed.

Lemma le_combine_cons_lxor (b : byte) m :
  le_combine (b :: m) = Z.lxor (byte.unsigned b) (Z.shiftl (le_combine m) 8).
Proof.
  change (le_combine (b :: m)) with (Z.lor (byte.unsigned b) (Z.shiftl (le_combine m) 8)).
  apply Z.bits_inj'. intros i Hi. rewrite Z.lor_spec, Z.lxor_spec.
  pose proof (byte.unsigned_range b) as Hb.
  destruct (decide (i < 8)).
  - rewrite Z.shiftl_spec_low by lia. by destruct (Z.testbit _ _).
  - assert (Z.testbit (byte.unsigned b) i = false) as ->; [|by destruct (Z.testbit _ _)].
    apply (fits_bits 8 (byte.unsigned b)); [lia|exact Hb|lia].
Qed.

(** A slice is divided as one number. *)
Lemma foldl_bytestep p s :
  foldl bytestep s p = Nat.iter (8 * length p) bitstep (Z.lxor s (le_combine p)).
Proof.
  revert s. induction p as [|b p IH]; intros s; [cbn; by rewrite Z.lxor_0_r|].
  cbn [foldl length]. rewrite IH, le_combine_cons_lxor. unfold bytestep.
  rewrite <- Z.lxor_assoc. rewrite <- (iter_shifted 8). 
  replace (8 * S (length p))%nat with (8 * length p + 8)%nat by lia. by rewrite Nat.iter_add.
Qed.

Lemma bytestep_fits s b : fits 32 s -> fits 32 (bytestep s b).
Proof.
  intros. apply iter_fits. fit. apply (fits_mono 8); [lia|]. apply byte.unsigned_range.
Qed.

Lemma foldl_fits p s : fits 32 s -> fits 32 (foldl bytestep s p).
Proof. revert s. induction p as [|b p IH]; intros s Hs; [done|]. by apply IH, bytestep_fits. Qed.

Lemma crc_fits p : fits 32 (ChecksumIEEE p).
Proof. unfold ChecksumIEEE, update. fit; [|done]. apply foldl_fits. fit; done. Qed.

Lemma foldl_inj p s s' : fits 32 s -> fits 32 s' -> foldl bytestep s p = foldl bytestep s' p -> s = s'.
Proof.
  revert s s'. induction p as [|b p IH]; intros s s' Hs Hs'; [done|]. cbn [foldl]. intros He.
  apply IH in He; [|by apply bytestep_fits..]. pose proof (byte.unsigned_range b) as Hb.
  assert (Hb32 : fits 32 (byte.unsigned b)) by (apply (fits_mono 8); [lia|exact Hb]).
  apply iter_inj in He; [|fit..]. 
  apply (f_equal (fun z => Z.lxor z (byte.unsigned b))) in He.
  by rewrite !Z.lxor_assoc, Z.lxor_nilpotent, !Z.lxor_0_r in He.
Qed.

Lemma le_combine_inj (m m' : bytes) : length m = length m' -> le_combine m = le_combine m' -> m = m'.
Proof. intros Hl He. rewrite <- (split_le_combine m), <- (split_le_combine m'). by rewrite He, Hl. Qed.

(** A change confined to four consecutive bytes changes the checksum. *)
Lemma crc32_burst a m m' b :
  length m = length m' -> (length m <= 4)%nat -> ChecksumIEEE (a ++ m ++ b) = ChecksumIEEE (a ++ m' ++ b) -> m = m'.
Proof.
  intros Hl H4 He. unfold ChecksumIEEE, update in He.
  apply (f_equal (fun z => Z.lxor z mask)) in He. rewrite !Z.lxor_assoc, Z.lxor_nilpotent, !Z.lxor_0_r in He.
  rewrite !foldl_app in He. set (s := foldl bytestep _ a) in He.
  assert (Hs : fits 32 s) by (apply foldl_fits; by compute).
  apply foldl_inj in He; [|by apply foldl_fits..].
  assert (Hc : forall n : bytes, (length n <= 4)%nat -> fits 32 (le_combine n)).
  { intros n Hn. apply (fits_mono (8 * blen n)); [len|]. apply fits_le_combine. }
  rewrite !foldl_bytestep, <- Hl in He. apply iter_inj in He; [|fit; apply Hc; lia..].
  apply le_combine_inj; [done|]. apply (f_equal (Z.lxor s)) in He.
  by rewrite <- !Z.lxor_assoc, Z.lxor_nilpotent, !Z.lxor_0_l in He.
Qed.

End Crc32.
