(* ===== verification/CacheFile.v ===== *)
(** * The header of a cache data file and the flush watermark
    (src/cache/file.go, src/cache/flush.go).

    A header holds the geometry, the applied index, the logical clock, the
    primary-backup frontier and the framing key, each group under its own
    checksum. [layout] is the header as a record; the operations of the file are
    the operations of the record. *)
From S2P Require Import Prelude SipHash Crc32.
Import Crc32.

Module CacheFile.

Inductive fileErr :=
| regionTooSmall | headerCRC | badMagic | errFutureVersion | unsupportedVersion
| pageSizeMismatch | numPagesMismatch | framingKeyCRC | keyGeneration | sidecarInvalid | sidecarUnreadable.

#[export] Instance fileErr_eq_dec : EqDecision fileErr.
Proof. solve_decision. Defined.

Definition cacheMagic : Z := 0x4843414D54534552.
Definition cacheVersion : Z := 5.
Definition minReadableCacheVersion : Z := 4.
Definition headerSize : Z := 128.
Definition hdrStampOff : Z := 32.
Definition hdrStampCRCOff : Z := 40.
Definition hdrPBSeqOff : Z := 44.
Definition hdrPBEpochOff : Z := 52.
Definition hdrPBFrontierCRCOff : Z := 60.
Definition framingKeyOff : Z := 64.
Abbreviation framingKeyLen := SipHash.framingKeyLen.
Definition framingKeyCRCOff : Z := 80.

(** ** Reading *)

Definition u32At {E} (r : bytes) (lo hi : Z) : outcome E Z := b ← slice r lo hi; le_get 4 b.
Definition u64At {E} (r : bytes) (lo hi : Z) : outcome E Z := b ← slice r lo hi; le_get 8 b.
Definition crcOf {E} (r : bytes) (lo hi : Z) : outcome E Z := b ← slice r lo hi; Ok (ChecksumIEEE b).

Definition readHeader (r : bytes) : outcome fileErr (Z * Z * Z * Z * Z) :=
  if blen r <? headerSize then Err regionTooSmall else
  magic ← u64At r 0 8;
  version ← u32At r 8 12;
  pageSize ← u32At r 12 16;
  numPages ← u32At r 16 20;
  appliedIdx ← u64At r 20 28;
  storedCRC ← u32At r 28 32;
  wantCRC ← crcOf r 0 28;
  if negb (storedCRC =? wantCRC) then Err headerCRC
  else Ok (magic, version, pageSize, numPages, appliedIdx).

Definition readFramingKey (r : bytes) : outcome fileErr (option bytes) :=
  if blen r <? headerSize then Ok None else
  stored ← u32At r framingKeyCRCOff (framingKeyCRCOff + 4);
  want ← crcOf r framingKeyOff (framingKeyOff + framingKeyLen);
  if negb (stored =? want) then Ok None
  else k ← slice r framingKeyOff (framingKeyOff + framingKeyLen); Ok (Some k).

Definition readPBFrontier (r : bytes) : outcome fileErr (Z * Z) :=
  if blen r <? headerSize then Ok (0, 0) else
  stored ← u32At r hdrPBFrontierCRCOff (hdrPBFrontierCRCOff + 4);
  want ← crcOf r hdrPBSeqOff (hdrPBSeqOff + 16);
  if negb (stored =? want) then Ok (0, 0) else
  seq ← u64At r hdrPBSeqOff (hdrPBSeqOff + 8);
  epoch ← u64At r hdrPBEpochOff (hdrPBEpochOff + 8);
  Ok (seq, epoch).

Definition readAppliedStamp (r : bytes) : outcome fileErr Z :=
  if blen r <? headerSize then Ok 0 else
  stamp ← u64At r hdrStampOff (hdrStampOff + 8);
  stored ← u32At r hdrStampCRCOff (hdrStampCRCOff + 4);
  want ← crcOf r hdrStampOff (hdrStampOff + 8);
  if negb (stored =? want) then Ok 0 else Ok stamp.

Definition isZeroPrefix (b : bytes) : bool := forallb (fun v => byte.unsigned v =? 0) b.

(** The applied index and whether the file is fresh. *)
Definition validateHeader (r : bytes) (expectedPageSize expectedNumPages : Z) : outcome fileErr (Z * bool) :=
  if blen r <? headerSize then Err regionTooSmall else
  b ← slice r 0 headerSize;
  if isZeroPrefix b then Ok (0, true) else
  '(magic, version, pageSize, numPages, idx) ← readHeader r;
  if negb (magic =? cacheMagic) then Err badMagic
  else if cacheVersion <? version then Err errFutureVersion
  else if version <? minReadableCacheVersion then Err unsupportedVersion
  else if negb (pageSize =? expectedPageSize) then Err pageSizeMismatch
  else if negb (numPages =? expectedNumPages) then Err numPagesMismatch
  else if version =? cacheVersion then
    k ← readFramingKey r;
    match k with None => Err framingKeyCRC | Some _ => Ok (idx, false) end
  else Ok (idx, false).

(** ** Writing

    The region is mutated in place: what was stored before a failure stays. *)

Abbreviation W := (st bytes fileErr).

Definition putAt (lo : Z) (src : bytes) : W unit := fun r =>
  match store r lo src with
  | Ok r' => (r', Ok tt)
  | Err e => (r, Err e)
  | Panic => (r, Panic)
  end.
Definition crcAt (lo hi : Z) : W Z := fun r => (r, crcOf r lo hi).

Definition setPBFrontier (seq epoch : Z) : W unit :=
  putAt hdrPBSeqOff (le_put 8 seq);;
  putAt hdrPBEpochOff (le_put 8 epoch);;
  crc ← crcAt hdrPBSeqOff (hdrPBSeqOff + 16);
  putAt hdrPBFrontierCRCOff (le_put 4 crc).

Definition setAppliedStamp (stampMs : Z) : W unit :=
  putAt hdrStampOff (le_put 8 stampMs);;
  crc ← crcAt hdrStampOff (hdrStampOff + 8);
  putAt hdrStampCRCOff (le_put 4 crc).

Definition setAppliedIndex (appliedIdx : Z) : W unit :=
  putAt 20 (le_put 8 appliedIdx);;
  crc ← crcAt 0 28;
  putAt 28 (le_put 4 crc).

(** [rnd] is what [rand.Read] fills the key with, [None] when it fails. *)
Definition writeFramingKey (rnd : option bytes) : W unit :=
  match rnd with
  | None => throw keyGeneration
  | Some key =>
      putAt framingKeyOff key;;
      crc ← crcAt framingKeyOff (framingKeyOff + framingKeyLen);
      putAt framingKeyCRCOff (le_put 4 crc)
  end.

Definition writeHeader (rnd : option bytes) (pageSize numPages appliedIdx : Z) : W unit :=
  putAt 0 (le_put 8 cacheMagic);;
  putAt 8 (le_put 4 cacheVersion);;
  putAt 12 (le_put 4 pageSize);;
  putAt 16 (le_put 4 numPages);;
  putAt 20 (le_put 8 appliedIdx);;
  putAt 32 (replicate 96 Byte.x00);;
  crc ← crcAt 0 28;
  putAt 28 (le_put 4 crc);;
  setAppliedStamp 0;;
  setPBFrontier 0 0;;
  writeFramingKey rnd.

(** ** The flush watermark *)

Definition flushSidecarMagic : Z := 0x4C465352.
Definition flushSidecarVersion : Z := 1.
Definition flushSidecarSize : Z := 17.
Definition flushSidecarCRCOff : Z := 13.

Definition encodeFlushSidecar (floor : Z) : W unit :=
  putAt 0 (le_put 4 flushSidecarMagic);;
  putAt 4 (le_put 1 flushSidecarVersion);;
  putAt 5 (le_put 8 floor);;
  crc ← crcAt 0 flushSidecarCRCOff;
  putAt flushSidecarCRCOff (le_put 4 crc).

Definition decodeFlushSidecar (b : bytes) : outcome fileErr (option Z) :=
  if negb (blen b =? flushSidecarSize) then Ok None else
  magic ← u32At b 0 4;
  if negb (magic =? flushSidecarMagic) then Ok None else
  version ← byte_at b 4;
  if negb (version =? flushSidecarVersion) then Ok None else
  stored ← u32At b flushSidecarCRCOff flushSidecarSize;
  want ← crcOf b 0 flushSidecarCRCOff;
  if negb (stored =? want) then Ok None else
  floor ← u64At b 5 13; Ok (Some floor).

(** [os.ReadFile] of the sidecar: absent, unreadable, or its bytes. *)
Inductive fileRead := NotExist | ReadFailed | Contents (b : bytes).

Definition readFlushSidecar (f : fileRead) : outcome fileErr Z :=
  match f with
  | NotExist => Ok 0
  | ReadFailed => Err sidecarUnreadable
  | Contents b =>
      o ← decodeFlushSidecar b;
      match o with None => Err sidecarInvalid | Some floor => Ok floor end
  end.

(** ** The header as a record *)

Record header := MkHeader {
  hPageSize : Z; hNumPages : Z; hApplied : Z; hStamp : Z; hSeq : Z; hEpoch : Z; hKey : bytes;
}.

Record header_ok (h : header) : Prop := {
  ho_ps : fits 32 (hPageSize h); ho_np : fits 32 (hNumPages h); ho_idx : fits 64 (hApplied h);
  ho_st : fits 64 (hStamp h); ho_seq : fits 64 (hSeq h); ho_ep : fits 64 (hEpoch h);
  ho_key : blen (hKey h) = framingKeyLen;
}.

Definition guarded (b : bytes) : bytes := b ++ le_put 4 (ChecksumIEEE b).
Definition core (h : header) : bytes :=
  le_put 8 cacheMagic ++ le_put 4 cacheVersion ++ le_put 4 (hPageSize h) ++ le_put 4 (hNumPages h) ++ le_put 8 (hApplied h).
Definition frontier (h : header) : bytes := le_put 8 (hSeq h) ++ le_put 8 (hEpoch h).

(** The 128 bytes of a header, and what follows it in the file. *)
Definition layout (h : header) (rest : bytes) : bytes :=
  guarded (core h) ++ guarded (le_put 8 (hStamp h)) ++ guarded (frontier h) ++ guarded (hKey h) ++
  replicate 44 Byte.x00 ++ rest.

Lemma u32At_ok {E} r lo hi x : slice (E:=E) r lo hi = Ok (le_put 4 x) -> fits 32 x -> u32At (E:=E) r lo hi = Ok x.
Proof. intros Hs Hx. unfold u32At. rewrite Hs. cbn. rewrite le_get_put. f_equal. by apply wrap_fits. Qed.
Lemma u64At_ok {E} r lo hi x : slice (E:=E) r lo hi = Ok (le_put 8 x) -> fits 64 x -> u64At (E:=E) r lo hi = Ok x.
Proof. intros Hs Hx. unfold u64At. rewrite Hs. cbn. rewrite le_get_put. f_equal. by apply wrap_fits. Qed.
Lemma crcOf_ok {E} r lo hi b : slice (E:=E) r lo hi = Ok b -> crcOf (E:=E) r lo hi = Ok (ChecksumIEEE b).
Proof. intros Hs. unfold crcOf. by rewrite Hs. Qed.

Lemma bind_putAt {A} r r' lo src (k : unit -> W A) :
  store (E:=fileErr) r lo src = Ok r' -> (putAt lo src ≫= k) r = k tt r'.
Proof. intros Hs. unfold mbind, st_bind, putAt. by rewrite Hs. Qed.
Lemma putAt_ok r r' lo src : store (E:=fileErr) r lo src = Ok r' -> putAt lo src r = (r', Ok tt).
Proof. intros Hs. unfold putAt. by rewrite Hs. Qed.
Lemma bind_crcAt {A} r lo hi b (k : Z -> W A) :
  slice (E:=fileErr) r lo hi = Ok b -> (crcAt lo hi ≫= k) r = k (ChecksumIEEE b) r.
Proof. intros Hs. unfold mbind, st_bind, crcAt. by rewrite (crcOf_ok _ _ _ _ Hs). Qed.
Ltac offsets :=
  unfold hdrStampOff, hdrStampCRCOff, hdrPBSeqOff, hdrPBEpochOff, hdrPBFrontierCRCOff, framingKeyOff,
    SipHash.framingKeyLen, framingKeyCRCOff, headerSize, flushSidecarCRCOff, flushSidecarSize in *.

(** Runs the stores and checksums of a writer on a concatenation of pieces. *)
Ltac run :=
  repeat (rewrite ?bind_assoc;
    first [ erewrite bind_putAt by solve_store | erewrite bind_crcAt by solve_slice
          | erewrite putAt_ok by solve_store ]; cbv beta).

Section Header.
Context (h : header) (Hok : header_ok h) (rest : bytes).

Lemma flat_layout :
  layout h rest = le_put 8 cacheMagic ++ le_put 4 cacheVersion ++ le_put 4 (hPageSize h) ++ le_put 4 (hNumPages h) ++
    le_put 8 (hApplied h) ++ le_put 4 (ChecksumIEEE (core h)) ++ le_put 8 (hStamp h) ++
    le_put 4 (ChecksumIEEE (le_put 8 (hStamp h))) ++ le_put 8 (hSeq h) ++ le_put 8 (hEpoch h) ++
    le_put 4 (ChecksumIEEE (frontier h)) ++ hKey h ++ le_put 4 (ChecksumIEEE (hKey h)) ++ replicate 44 Byte.x00 ++ rest.
Proof. unfold layout, guarded, core, frontier. by rewrite <- !app_assoc. Qed.

Lemma layout_len : 128 <= blen (layout h rest).
Proof. rewrite flat_layout. pose proof (ho_key _ Hok). offsets. len. Qed.

Lemma key_len : blen (hKey h) = 16.
Proof. apply Hok. Qed.

Ltac fields := repeat (first [ erewrite u64At_ok; [|solve_slice|first [by apply Hok|by compute]]
        | erewrite u32At_ok; [|solve_slice|first [by apply Hok|by apply crc_fits|by compute]]
        | erewrite crcOf_ok by solve_slice ]; cbn [mbind outcome_bind]).
Ltac reads := offsets; pose proof key_len; rewrite (proj2 (Z.ltb_ge _ _)) by apply layout_len; rewrite flat_layout; fields.

Lemma readHeader_layout :
  readHeader (layout h rest) = Ok (cacheMagic, cacheVersion, hPageSize h, hNumPages h, hApplied h).
Proof. unfold readHeader. reads. fold (core h). by rewrite Z.eqb_refl. Qed.

Lemma readFramingKey_layout : readFramingKey (layout h rest) = Ok (Some (hKey h)).
Proof. unfold readFramingKey. reads. rewrite Z.eqb_refl. cbn [negb]. by step_slice. Qed.

Lemma readPBFrontier_layout : readPBFrontier (layout h rest) = Ok (hSeq h, hEpoch h).
Proof. unfold readPBFrontier. reads. fold (frontier h). rewrite Z.eqb_refl. cbn [negb]. by fields. Qed.

Lemma readAppliedStamp_layout : readAppliedStamp (layout h rest) = Ok (hStamp h).
Proof. unfold readAppliedStamp. reads. by rewrite Z.eqb_refl. Qed.

Lemma not_zero_prefix (r : bytes) i c : r !! i = Some c -> c <> Byte.x00 -> isZeroPrefix r = false.
Proof.
  intros Hr Hc. unfold isZeroPrefix. destruct (forallb _ r) eqn:E1; [|done]. exfalso. apply Hc.
  rewrite forallb_forall in E1. apply byte.unsigned_inj. apply Z.eqb_eq, E1.
  apply list_elem_of_In. by eapply list_elem_of_lookup_2.
Qed.

Lemma validateHeader_layout :
  validateHeader (layout h rest) (hPageSize h) (hNumPages h) = Ok (hApplied h, false).
Proof.
  unfold validateHeader. pose proof layout_len as Hl. offsets. rewrite (proj2 (Z.ltb_ge _ _)) by exact Hl.
  rewrite slice_in by lia. cbn [mbind outcome_bind].
  rewrite (not_zero_prefix _ 0 Byte.x52); [|rewrite flat_layout; reflexivity|done].
  rewrite readHeader_layout. cbn [mbind outcome_bind]. rewrite !Z.eqb_refl. cbn -[readFramingKey layout].
  by rewrite readFramingKey_layout.
Qed.

End Header.

Section Update.
Context (h : header) (Hok : header_ok h) (rest : bytes).

Ltac update := offsets; pose proof (key_len h Hok); rewrite flat_layout; run; f_equal;
  unfold layout, guarded, core, frontier; cbn [hPageSize hNumPages hApplied hStamp hSeq hEpoch hKey];
  by rewrite <- !app_assoc.

Lemma setAppliedIndex_layout i :
  setAppliedIndex i (layout h rest) =
  (layout (MkHeader (hPageSize h) (hNumPages h) i (hStamp h) (hSeq h) (hEpoch h) (hKey h)) rest, Ok tt).
Proof. unfold setAppliedIndex. update. Qed.

Lemma setAppliedStamp_layout x :
  setAppliedStamp x (layout h rest) =
  (layout (MkHeader (hPageSize h) (hNumPages h) (hApplied h) x (hSeq h) (hEpoch h) (hKey h)) rest, Ok tt).
Proof. unfold setAppliedStamp. update. Qed.

Lemma setPBFrontier_layout x y :
  setPBFrontier x y (layout h rest) =
  (layout (MkHeader (hPageSize h) (hNumPages h) (hApplied h) (hStamp h) x y (hKey h)) rest, Ok tt).
Proof. unfold setPBFrontier. update. Qed.

End Update.

Lemma writeHeader_layout key ps np i r :
  headerSize <= blen r -> blen key = framingKeyLen ->
  writeHeader (Some key) ps np i r = (layout (MkHeader ps np i 0 0 0 key) (drop 128 r), Ok tt).
Proof.
  offsets. intros Hr Hk. destruct (cut 8 r) as (r1 & q1 & -> & H1); [lia|]. rewrite blen_app in Hr.
  destruct (cut 4 q1) as (r2 & q2 & -> & H2); [lia|]. rewrite blen_app in Hr.
  destruct (cut 4 q2) as (r3 & q3 & -> & H3); [lia|]. rewrite blen_app in Hr.
  destruct (cut 4 q3) as (r4 & q4 & -> & H4); [lia|]. rewrite blen_app in Hr.
  destruct (cut 8 q4) as (r5 & q5 & -> & H5); [lia|]. rewrite blen_app in Hr.
  destruct (cut 4 q5) as (r6 & q6 & -> & H6); [lia|]. rewrite blen_app in Hr.
  destruct (cut 96 q6) as (r7 & q7 & -> & H7); [lia|].
  replace (drop 128 _) with q7.
  2:{ rewrite !app_assoc. rewrite drop_app_length'; [done|]. rewrite !length_app. unfold blen in *. lia. }
  unfold writeHeader. run.
  change (replicate 96 Byte.x00) with (replicate 8 Byte.x00 ++ replicate 4 Byte.x00 ++ replicate 8 Byte.x00 ++
    replicate 8 Byte.x00 ++ replicate 4 Byte.x00 ++ replicate 16 Byte.x00 ++ replicate 4 Byte.x00 ++ replicate 44 Byte.x00).
  rewrite <- !app_assoc. unfold setAppliedStamp, setPBFrontier, writeFramingKey. offsets. run. f_equal.
  unfold layout, guarded, core, frontier. cbn [hPageSize hNumPages hApplied hStamp hSeq hEpoch hKey].
  by rewrite <- !app_assoc.
Qed.

(** ** Damage *)

(** A store of up to four bytes into the piece [g] changes its checksum. *)
Lemma damage_piece (p g q m r' : bytes) lo :
  store (E:=fileErr) (p ++ g ++ q) lo m = Ok r' -> r' <> p ++ g ++ q -> blen m <= 4 ->
  blen p <= lo -> lo + blen m <= blen p + blen g ->
  exists g', r' = p ++ g' ++ q /\ blen g' = blen g /\ ChecksumIEEE g' <> ChecksumIEEE g.
Proof.
  intros Hs Hne Hm Hlo Hhi. pose proof (blen_nonneg m).
  destruct (cut (lo - blen p) g) as (a & g1 & -> & Ha); [pose proof (blen_nonneg p); lia|].
  rewrite blen_app in Hhi. destruct (cut (blen m) g1) as (n & b & -> & Hn); [lia|].
  assert (Hr : store (E:=fileErr) (p ++ (a ++ n ++ b) ++ q) lo m = Ok (p ++ (a ++ m ++ b) ++ q)).
  { rewrite <- !app_assoc. apply store_app_r; [lia|]. rewrite <- Ha. apply store_mid; lia. }
  rewrite Hr in Hs. apply Ok_inj in Hs. subst r'. exists (a ++ m ++ b).
  split; [done|]. split; [len|]. intros Hc. apply Hne. do 3 f_equal.
  f_equal. apply (crc32_burst a m n b); [unfold blen in *; lia..|done].
Qed.

(** A guarded piece whose bytes were damaged does not match its checksum. *)
Lemma stored_mismatch g g' : ChecksumIEEE g' <> ChecksumIEEE g -> (ChecksumIEEE g =? ChecksumIEEE g') = false.
Proof. intros H. apply Z.eqb_neq. congruence. Qed.

Lemma u32At_total {E} r lo hi : 0 <= lo -> hi = lo + 4 -> hi <= blen r -> exists x, u32At (E:=E) r lo hi = Ok x.
Proof.
  intros. unfold u32At. rewrite slice_in by lia. cbn. destruct (le_get_ok (E:=E) 4 (take (Z.to_nat (hi - lo)) (drop (Z.to_nat lo) r))) as (x & -> & _); [len|eauto].
Qed.
Lemma u64At_total {E} r lo hi : 0 <= lo -> hi = lo + 8 -> hi <= blen r -> exists x, u64At (E:=E) r lo hi = Ok x.
Proof.
  intros. unfold u64At. rewrite slice_in by lia. cbn. destruct (le_get_ok (E:=E) 8 (take (Z.to_nat (hi - lo)) (drop (Z.to_nat lo) r))) as (x & -> & _); [len|eauto].
Qed.

(** Evaluates the reads of a damaged header. *)
Ltac damaged_reads :=
  repeat match goal with
  | |- context [u64At ?r ?lo ?hi] => destruct (u64At_total (E:=fileErr) r lo hi) as [? ->]; [lia|lia|len|]; cbn [mbind outcome_bind]
  | |- context [u32At ?r ?lo ?hi] =>
      first [ erewrite (u32At_ok r lo hi) by first [solve_slice|apply crc_fits]
            | destruct (u32At_total (E:=fileErr) r lo hi) as [? ->]; [lia|lia|len|] ]; cbn [mbind outcome_bind]
  | |- context [crcOf ?r ?lo ?hi] => erewrite (crcOf_ok r lo hi) by solve_slice; cbn [mbind outcome_bind]
  end.

Section Damage.
Context (h : header) (Hok : header_ok h) (rest : bytes) (lo : Z) (m r' : bytes).
Context (Hs : store (E:=fileErr) (layout h rest) lo m = Ok r') (Hne : r' <> layout h rest) (Hm : blen m <= 4).

(** The damaged file, when the store hits the piece [g] of the header. *)
Lemma hit p g q : layout h rest = p ++ guarded g ++ q -> blen p <= lo -> lo + blen m <= blen p + blen g ->
  exists g', r' = p ++ g' ++ le_put 4 (ChecksumIEEE g) ++ q /\ blen g' = blen g /\
    128 <= blen (p ++ g' ++ le_put 4 (ChecksumIEEE g) ++ q) /\ (ChecksumIEEE g =? ChecksumIEEE g') = false.
Proof.
  intros Hl Hlo Hhi. pose proof (layout_len h Hok rest) as H128. unfold guarded in Hl. rewrite <- app_assoc in Hl.
  rewrite Hl in Hs, Hne, H128. destruct (damage_piece p g _ m r' lo Hs Hne Hm Hlo Hhi) as (g' & -> & Hg & Hcrc).
  exists g'. split; [done|]. split; [done|]. split; [|by apply stored_mismatch].
  rewrite !blen_app in *. lia.
Qed.

Lemma damaged_len : 128 <= blen r'.
Proof. rewrite (store_len _ _ _ _ Hs). by apply layout_len. Qed.

Lemma core_damage : 0 <= lo -> lo + blen m <= 28 -> readHeader r' = Err headerCRC.
Proof.
  intros Hlo Hhi. assert (Hc : blen (core h) = 28) by (unfold core; len).
  destruct (hit [] (core h) (drop 32 (layout h rest))) as (g & -> & Hg & Hlen & Hcrc); [|len|rewrite Hc; len|].
  { reflexivity. }
  unfold readHeader. offsets. cbn [app] in *. rewrite (proj2 (Z.ltb_ge _ _)) by exact Hlen. rewrite Hc in Hg.
  damaged_reads. by rewrite Hcrc.
Qed.

(** A damaged core is not taken for a fresh file. *)
Lemma core_damage_validate ps np : 0 <= lo -> lo + blen m <= 28 -> validateHeader r' ps np = Err headerCRC.
Proof.
  intros Hlo Hhi. unfold validateHeader. pose proof damaged_len as Hl. offsets.
  rewrite (proj2 (Z.ltb_ge _ _)) by exact Hl. rewrite slice_in by lia. cbn [mbind outcome_bind].
  assert (Hz : isZeroPrefix (take (Z.to_nat (128 - 0)) (drop (Z.to_nat 0) r')) = false).
  { revert Hs. unfold store. destruct (_ && _) eqn:E1; [|done]. intros [= <-]. rewrite drop_0.
    destruct (decide (lo = 0)) as [->|].
    - eapply (not_zero_prefix _ 7 Byte.x48); [|done]. cbn [take app]. rewrite lookup_take_lt by lia.
      unfold blen in Hm. change (Z.to_nat 0) with 0%nat. rewrite take_0. cbn [app]. rewrite lookup_app_r by lia.
      rewrite lookup_drop. replace (0 + length m + (7 - length m))%nat with 7%nat by lia. rewrite flat_layout. reflexivity.
    - eapply (not_zero_prefix _ 0 Byte.x52); [|done]. rewrite lookup_take_lt by lia.
      pose proof (layout_len h Hok rest) as H128. rewrite lookup_app_l by (rewrite length_take; unfold blen in *; lia).
      rewrite lookup_take_lt by lia. rewrite flat_layout. reflexivity. }
  rewrite Hz. by rewrite core_damage.
Qed.

Lemma frontier_damage : 44 <= lo -> lo + blen m <= 60 -> readPBFrontier r' = Ok (0, 0).
Proof.
  intros Hlo Hhi. assert (Hc : blen (frontier h) = 16) by (unfold frontier; len).
  assert (Hp : blen (guarded (core h) ++ guarded (le_put 8 (hStamp h))) = 44) by (unfold guarded, core; len).
  destruct (hit (guarded (core h) ++ guarded (le_put 8 (hStamp h))) (frontier h)
    (guarded (hKey h) ++ replicate 44 Byte.x00 ++ rest)) as (g & -> & Hg & Hlen & Hcrc);
    [unfold layout; by rewrite <- !app_assoc|lia|lia|].
  unfold readPBFrontier. offsets. rewrite (proj2 (Z.ltb_ge _ _)) by exact Hlen. rewrite Hc in Hg.
  clear Hs Hne. generalize dependent (guarded (core h) ++ guarded (le_put 8 (hStamp h))). intros p Hp Hlen.
  damaged_reads. by rewrite Hcrc.
Qed.

Lemma stamp_damage : 32 <= lo -> lo + blen m <= 40 -> readAppliedStamp r' = Ok 0.
Proof.
  intros Hlo Hhi. assert (Hp : blen (guarded (core h)) = 32) by (unfold guarded, core; len).
  destruct (hit (guarded (core h)) (le_put 8 (hStamp h)) (guarded (frontier h) ++ guarded (hKey h) ++ replicate 44 Byte.x00 ++ rest))
    as (g & -> & Hg & Hlen & Hcrc); [done|lia|rewrite blen_le_put; lia|].
  unfold readAppliedStamp. offsets. rewrite (proj2 (Z.ltb_ge _ _)) by exact Hlen. rewrite blen_le_put in Hg.
  clear Hs Hne. generalize dependent (guarded (core h)). intros p Hp Hlen. damaged_reads. by rewrite Hcrc.
Qed.

Lemma key_damage : 64 <= lo -> lo + blen m <= 80 -> readFramingKey r' = Ok None.
Proof.
  intros Hlo Hhi. pose proof (key_len h Hok) as Hc.
  assert (Hp : blen (guarded (core h) ++ guarded (le_put 8 (hStamp h)) ++ guarded (frontier h)) = 64)
    by (unfold guarded, core, frontier; len).
  destruct (hit (guarded (core h) ++ guarded (le_put 8 (hStamp h)) ++ guarded (frontier h)) (hKey h)
    (replicate 44 Byte.x00 ++ rest)) as (g & -> & Hg & Hlen & Hcrc); [unfold layout; by rewrite <- !app_assoc|lia|lia|].
  unfold readFramingKey. offsets. rewrite (proj2 (Z.ltb_ge _ _)) by exact Hlen. rewrite Hc in Hg.
  clear Hs Hne. generalize dependent (guarded (core h) ++ guarded (le_put 8 (hStamp h)) ++ guarded (frontier h)). intros p Hp Hlen.
  damaged_reads. by rewrite Hcrc.
Qed.

End Damage.

(** ** The watermark record *)

Definition sidecar_body (floor : Z) : bytes := le_put 4 flushSidecarMagic ++ le_put 1 flushSidecarVersion ++ le_put 8 floor.
Definition sidecar (floor : Z) : bytes := guarded (sidecar_body floor).

Lemma encode_sidecar floor b : blen b = flushSidecarSize -> encodeFlushSidecar floor b = (sidecar floor, Ok tt).
Proof.
  offsets. intros Hb. destruct (cut 4 b) as (r1 & q1 & -> & H1); [lia|]. rewrite blen_app in Hb.
  destruct (cut 1 q1) as (r2 & q2 & -> & H2); [lia|]. rewrite blen_app in Hb.
  destruct (cut 8 q2) as (r3 & r4 & -> & H3); [lia|]. rewrite blen_app in Hb.
  unfold encodeFlushSidecar. offsets. rewrite <- (app_nil_r r4). run.
  unfold sidecar, guarded, sidecar_body. by rewrite <- !app_assoc, !app_nil_r.
Qed.

Lemma decode_sidecar floor : fits 64 floor -> decodeFlushSidecar (sidecar floor) = Ok (Some floor).
Proof.
  intros Hf. unfold decodeFlushSidecar, sidecar, guarded. set (c := ChecksumIEEE (sidecar_body floor)).
  assert (Hc : fits 32 c) by apply crc_fits. assert (Hb : blen (sidecar_body floor) = 13) by (unfold sidecar_body; len).
  offsets. rewrite (proj2 (Z.eqb_eq _ _)) by len. cbn [negb].
  assert (H1 : slice (E:=fileErr) (sidecar_body floor ++ le_put 4 c) 0 4 = Ok (le_put 4 flushSidecarMagic)).
  { unfold sidecar_body. rewrite <- !app_assoc. apply slice_here; len. }
  assert (H2 : byte_at (E:=fileErr) (sidecar_body floor ++ le_put 4 c) 4 = Ok flushSidecarVersion).
  { unfold byte_at. rewrite (proj2 (Z.ltb_lt 4 _)) by len. reflexivity. }
  assert (H3 : slice (E:=fileErr) (sidecar_body floor ++ le_put 4 c) 5 13 = Ok (le_put 8 floor)).
  { unfold sidecar_body. rewrite <- !app_assoc. rewrite (app_assoc (le_put 4 _)). apply slice_mid; len. }
  rewrite (u32At_ok _ _ _ _ H1) by (by compute). cbn [mbind outcome_bind]. rewrite Z.eqb_refl. cbn [negb].
  rewrite H2. cbn [mbind outcome_bind]. rewrite Z.eqb_refl. cbn [negb].
  rewrite (u32At_ok _ 13 17 c); [|rewrite slice_app_r by lia; rewrite Hb; apply slice_whole; [lia|len]|done].
  cbn [mbind outcome_bind]. rewrite (crcOf_ok _ 0 13 (sidecar_body floor)) by (apply slice_here; lia).
  cbn [mbind outcome_bind]. fold c. rewrite Z.eqb_refl. cbn [negb]. by rewrite (u64At_ok _ _ _ _ H3).
Qed.

(** A record of the right size whose checksum does not match is refused. *)
Lemma decode_mismatch g c : blen g = 13 -> blen c = 4 -> le_combine c <> ChecksumIEEE g ->
  decodeFlushSidecar (g ++ c) = Ok None.
Proof.
  intros Hg Hc Hne. unfold decodeFlushSidecar. offsets. rewrite (proj2 (Z.eqb_eq _ _)) by len. cbn [negb].
  destruct (u32At_total (E:=fileErr) (g ++ c) 0 4) as [x ->]; [lia|lia|len|]. cbn [mbind outcome_bind].
  destruct (x =? flushSidecarMagic); [|done]. cbn [negb].
  unfold byte_at. rewrite (proj2 (Z.ltb_lt 4 _)) by len. cbn [andb Z.leb Z.compare].
  destruct ((g ++ c) !! Z.to_nat 4) as [v|] eqn:E1.
  2:{ apply lookup_ge_None in E1. rewrite length_app in E1. unfold blen in *. lia. }
  cbn [mbind outcome_bind]. destruct (_ =? flushSidecarVersion); [|done]. cbn [negb].
  unfold u32At at 1. assert (slice (E:=fileErr) (g ++ c) 13 17 = Ok c) as ->
    by (rewrite slice_app_r by lia; rewrite Hg; apply slice_whole; lia).
  cbn [mbind outcome_bind]. rewrite le_get_in by lia. cbn [mbind outcome_bind].
  rewrite (crcOf_ok _ 0 13 g) by (apply slice_here; lia). cbn [mbind outcome_bind].
  rewrite take_ge by (unfold blen in *; lia). rewrite (proj2 (Z.eqb_neq _ _)) by done. done.
Qed.

Lemma sidecar_damage floor lo m r' :
  store (E:=fileErr) (sidecar floor) lo m = Ok r' -> r' <> sidecar floor -> blen m <= 4 ->
  (0 <= lo /\ lo + blen m <= 13) \/ 13 <= lo -> decodeFlushSidecar r' = Ok None.
Proof.
  intros Hs Hne Hm Hlo. assert (Hb : blen (sidecar_body floor) = 13) by (unfold sidecar_body; len).
  unfold sidecar, guarded in Hs, Hne. destruct Hlo as [[Hlo Hhi]|Hlo].
  - destruct (damage_piece [] (sidecar_body floor) (le_put 4 (ChecksumIEEE (sidecar_body floor))) m r' lo Hs Hne Hm)
      as (g & -> & Hg & Hc); [by rewrite blen_nil|by rewrite Hb, blen_nil|].
    cbn [app]. apply decode_mismatch; [lia|len|]. rewrite le_combine_put by apply crc_fits. congruence.
  - set (g := sidecar_body floor) in *. set (c := le_put 4 (ChecksumIEEE g)) in *.
    assert (Hc : blen c = 4) by (unfold c; len).
    destruct (store (E:=fileErr) c (lo - 13) m) as [c'|e|] eqn:E1.
    + rewrite (store_app_r g c c' m lo) in Hs by (rewrite ?Hb; first [lia|done]). apply Ok_inj in Hs. subst r'.
      pose proof (store_len _ _ _ _ E1) as Hl. apply decode_mismatch; [done|lia|]. intros He. apply Hne. f_equal.
      unfold c. rewrite <- He. symmetry. apply le_put_combine. lia.
    + unfold store in E1. by destruct (_ && _).
    + unfold store in E1, Hs. destruct (_ && _) eqn:E2 in E1; [done|]. destruct (_ && _) eqn:E3 in Hs; [|done].
      exfalso. apply andb_true_iff in E3 as [? E3]. apply Z.leb_le in E3. rewrite blen_app in E3.
      apply andb_false_iff in E2 as [E2|E2]; apply Z.leb_gt in E2; lia.
Qed.

(** The frontier reads back, whatever the header holds beside it. *)
Lemma setPBFrontier_any r x y : blen r = headerSize -> fits 64 x -> fits 64 y ->
  exists r', setPBFrontier x y r = (r', Ok tt) /\ blen r' = headerSize /\ readPBFrontier r' = Ok (x, y).
Proof.
  offsets. intros Hr Hx Hy. rewrite <- (take_drop 44 r), <- (take_drop 8 (drop 44 r)), <- (take_drop 8 (drop 8 (drop 44 r))), <- (take_drop 4 (drop 8 (drop 8 (drop 44 r)))).
  assert (blen (take 44 r) = 44 /\ blen (take 8 (drop 44 r)) = 8 /\ blen (take 8 (drop 8 (drop 44 r))) = 8 /\ blen (take 4 (drop 8 (drop 8 (drop 44 r)))) = 4 /\ blen (drop 4 (drop 8 (drop 8 (drop 44 r)))) = 64) as (Ha & Hb & Hc & Hd & He)
    by (rewrite ?blen_take, ?blen_drop; lia).
  generalize dependent (take 44 r). intros a Ha. generalize dependent (take 8 (drop 44 r)). intros b Hb. generalize dependent (take 8 (drop 8 (drop 44 r))). intros c Hc.
  generalize dependent (take 4 (drop 8 (drop 8 (drop 44 r)))). intros d Hd. generalize dependent (drop 4 (drop 8 (drop 8 (drop 44 r)))). intros e He. clear Hr r.
  assert (forall z : bytes, slice (E:=fileErr) (a ++ le_put 8 x ++ le_put 8 y ++ z) 44 (44 + 16) = Ok (le_put 8 x ++ le_put 8 y)) as Hs
    by (intros z; rewrite (app_assoc (le_put 8 x)); apply slice_mid; len).
  unfold setPBFrontier. offsets. run. rewrite (bind_crcAt _ _ _ _ _ (Hs _)). run. eexists. split; [reflexivity|]. split; [len|].
  unfold readPBFrontier. offsets. rewrite (proj2 (Z.ltb_ge _ _)) by len.
  erewrite u32At_ok; [|solve_slice|by apply crc_fits]. cbn [mbind outcome_bind]. rewrite (crcOf_ok _ _ _ _ (Hs _)). cbn [mbind outcome_bind]. rewrite Z.eqb_refl. cbn [negb].
  erewrite u64At_ok; [|solve_slice|done]. cbn [mbind outcome_bind]. by erewrite u64At_ok; [|solve_slice|done].
Qed.

(** ** Claims *)

(** The header of a data file is a record of fields. A header written over any
    region carries the geometry, the applied index, the zero clock, the genesis
    frontier and the key, and keeps the bytes after it; the file is accepted on
    the next open under the same geometry; every field reads back; and each
    setter changes its own field and nothing else, leaving every checksum
    valid. *)
Theorem header_is_a_record h rest :
  header_ok h ->
  (forall r, headerSize <= blen r ->
     writeHeader (Some (hKey h)) (hPageSize h) (hNumPages h) (hApplied h) r =
     (layout (MkHeader (hPageSize h) (hNumPages h) (hApplied h) 0 0 0 (hKey h)) (drop 128 r), Ok tt)) /\
  validateHeader (layout h rest) (hPageSize h) (hNumPages h) = Ok (hApplied h, false) /\
  readFramingKey (layout h rest) = Ok (Some (hKey h)) /\
  readAppliedStamp (layout h rest) = Ok (hStamp h) /\
  readPBFrontier (layout h rest) = Ok (hSeq h, hEpoch h) /\
  (forall i, setAppliedIndex i (layout h rest) =
     (layout (MkHeader (hPageSize h) (hNumPages h) i (hStamp h) (hSeq h) (hEpoch h) (hKey h)) rest, Ok tt)) /\
  (forall x, setAppliedStamp x (layout h rest) =
     (layout (MkHeader (hPageSize h) (hNumPages h) (hApplied h) x (hSeq h) (hEpoch h) (hKey h)) rest, Ok tt)) /\
  (forall x y, setPBFrontier x y (layout h rest) =
     (layout (MkHeader (hPageSize h) (hNumPages h) (hApplied h) (hStamp h) x y (hKey h)) rest, Ok tt)).
Proof.
  intros Hok. pose proof (ho_key _ Hok).
  split_and!; intros; first [by apply writeHeader_layout | by apply validateHeader_layout | by apply readFramingKey_layout
    | by apply readAppliedStamp_layout | by apply readPBFrontier_layout | by apply setAppliedIndex_layout
    | by apply setAppliedStamp_layout | by apply setPBFrontier_layout].
Qed.

(** Damage to a header is noticed. Overwriting up to four consecutive bytes
    so that they change: in the core fields, the file is refused with a checksum
    error (and not taken for a fresh one); in the clock, it reads as 0; in the
    frontier, it reads as genesis (0, 0), so it never names a write the node
    does not hold; in the framing key, the key is unreadable. *)
Theorem header_damage_detected h rest lo m r' :
  header_ok h -> store (E:=fileErr) (layout h rest) lo m = Ok r' -> r' <> layout h rest -> blen m <= 4 -> 0 <= lo ->
  (lo + blen m <= 28 -> forall ps np, validateHeader r' ps np = Err headerCRC) /\
  (32 <= lo /\ lo + blen m <= 40 -> readAppliedStamp r' = Ok 0) /\
  (44 <= lo /\ lo + blen m <= 60 -> readPBFrontier r' = Ok (0, 0)) /\
  (64 <= lo /\ lo + blen m <= 80 -> readFramingKey r' = Ok None).
Proof.
  intros Hok Hs Hne Hm Hlo. split_and!.
  - intros Hhi ps np. by eapply core_damage_validate.
  - intros [? ?]. by eapply stamp_damage.
  - intros [? ?]. by eapply frontier_damage.
  - intros [? ?]. by eapply key_damage.
Qed.

(** The flush watermark. The record written for a floor is read back as that
    floor; an absent record means floor 0; a record with up to four damaged
    bytes, in its fields or in its checksum, fails the open and is never read as
    another floor. *)
Theorem flush_watermark floor :
  fits 64 floor ->
  (forall b, blen b = flushSidecarSize -> encodeFlushSidecar floor b = (sidecar floor, Ok tt)) /\
  readFlushSidecar (Contents (sidecar floor)) = Ok floor /\ readFlushSidecar NotExist = Ok 0 /\
  (forall lo m r', store (E:=fileErr) (sidecar floor) lo m = Ok r' -> r' <> sidecar floor -> blen m <= 4 ->
     (0 <= lo /\ lo + blen m <= 13) \/ 13 <= lo -> readFlushSidecar (Contents r') = Err sidecarInvalid).
Proof.
  intros Hf. split_and!; [by intros; apply encode_sidecar| |done|].
  - unfold readFlushSidecar. by rewrite decode_sidecar.
  - intros lo m r' Hs Hne Hm Hlo. unfold readFlushSidecar. by rewrite (sidecar_damage floor lo m).
Qed.

End CacheFile.
