(* ===== verification/LogCodec.v ===== *)
(** * The record format of the raft log (src/raft/logstore/codec.go). *)
From S2P Require Import Prelude Crc32.
Import Crc32.

Inductive lerr :=
| errCorrupt | ErrLogNotFound | ErrWALPoisoned | errIO | errMiddleDelete.

#[export] Instance lerr_eq_dec : EqDecision lerr.
Proof. solve_decision. Defined.

Module LogCodec.

(** [hraft.Log]. [AppendedAt] is an instant, in nanoseconds since the Unix epoch. *)
Record Log := MkLog {
  Index : Z;
  Term : Z;
  Type_ : Z;
  AppendedAt : Z;
  Data : bytes;
  Extensions : bytes;
}.

#[export] Instance Log_eq_dec : EqDecision Log.
Proof. solve_decision. Defined.

Definition recLenSize : Z := 4.
Definition crcSize : Z := 4.
Definition frameHdr : Z := recLenSize + crcSize.
Definition payloadHdr : Z := 8 + 8 + 1 + 8.
Definition maxRecBytes : Z := 256 * 2 ^ 20.

(** [uint64(t.UnixNano())]: the nanoseconds, wrapped to 64 bits. *)
Definition unixNano (t : Z) : Z := u64 t.
(** [time.Unix(0, int64(x))]. *)
Definition timeUnix (x : Z) : Z := if x <? 2 ^ 63 then x else x - 2 ^ 64.

Definition appendRecord (buf : bytes) (l : Log) : outcome lerr bytes :=
  let start := blen buf in
  let buf := buf ++ replicate 8 Byte.x00 in
  let buf := buf ++ le_put 8 (Index l) in
  let buf := buf ++ le_put 8 (Term l) in
  let buf := buf ++ le_put 1 (Type_ l) in
  let buf := buf ++ le_put 8 (unixNano (AppendedAt l)) in
  let buf := buf ++ le_put 4 (u32 (blen (Data l))) in
  let buf := buf ++ Data l in
  let buf := buf ++ le_put 4 (u32 (blen (Extensions l))) in
  let buf := buf ++ Extensions l in
  payload ← slice_from buf (start + frameHdr);
  let recLen := u32 (crcSize + blen payload) in
  buf ← store buf start (le_put 4 recLen);
  store buf (start + recLenSize) (le_put 4 (ChecksumIEEE payload)).

(** [out] is filled field by field: what was stored before an error stays. *)
Definition setIndex (x : Z) (o : Log) := MkLog x (Term o) (Type_ o) (AppendedAt o) (Data o) (Extensions o).
Definition setTerm (x : Z) (o : Log) := MkLog (Index o) x (Type_ o) (AppendedAt o) (Data o) (Extensions o).
Definition setType (x : Z) (o : Log) := MkLog (Index o) (Term o) x (AppendedAt o) (Data o) (Extensions o).
Definition setAppendedAt (x : Z) (o : Log) := MkLog (Index o) (Term o) (Type_ o) x (Data o) (Extensions o).
Definition setData (x : bytes) (o : Log) := MkLog (Index o) (Term o) (Type_ o) (AppendedAt o) x (Extensions o).
Definition setExtensions (x : bytes) (o : Log) := MkLog (Index o) (Term o) (Type_ o) (AppendedAt o) (Data o) x.

(** A length-prefixed byte string and what follows it. *)
Definition takeField (p : bytes) : outcome lerr (bytes * bytes) :=
  if blen p <? 4 then Err errCorrupt else
  n ← le_get 4 p;
  p ← slice_from p 4;
  if u32 (blen p) <? n then Err errCorrupt else
  d ← slice p 0 n;
  p ← slice_from p n;
  Ok (d, p).

Definition decodeInto (payload : bytes) : st Log lerr unit :=
  if blen payload <? payloadHdr then throw errCorrupt else
  i ← lift (le_get 8 payload);
  modify (setIndex i);;
  p8 ← lift (slice_from payload 8);
  t ← lift (le_get 8 p8);
  modify (setTerm t);;
  ty ← lift (byte_at payload 16);
  modify (setType ty);;
  p17 ← lift (slice_from payload 17);
  a ← lift (le_get 8 p17);
  modify (setAppendedAt (timeUnix a));;
  p ← lift (slice_from payload payloadHdr);
  '(d, p) ← lift (takeField p);
  modify (setData d);;
  '(e, p) ← lift (takeField p);
  modify (setExtensions e);;
  if negb (blen p =? 0) then throw errCorrupt else mret tt.

Definition cloneLog (l : Log) : Log := MkLog (Index l) (Term l) (Type_ l) (AppendedAt l) (Data l) (Extensions l).

(** ** Lemmas *)

(** What a record can hold. *)
Record log_ok (l : Log) : Prop := {
  lo_index : fits 64 (Index l);
  lo_term : fits 64 (Term l);
  lo_type : fits 8 (Type_ l);
  lo_time : - 2 ^ 63 <= AppendedAt l < 2 ^ 63;
  lo_size : crcSize + payloadHdr + 8 + blen (Data l) + blen (Extensions l) <= maxRecBytes;
}.

Definition payloadOf (l : Log) : bytes :=
  le_put 8 (Index l) ++ le_put 8 (Term l) ++ le_put 1 (Type_ l) ++ le_put 8 (unixNano (AppendedAt l)) ++
  le_put 4 (blen (Data l)) ++ Data l ++ le_put 4 (blen (Extensions l)) ++ Extensions l.

Definition frame (l : Log) : bytes :=
  le_put 4 (crcSize + blen (payloadOf l)) ++ le_put 4 (ChecksumIEEE (payloadOf l)) ++ payloadOf l.

Lemma payload_len l : blen (payloadOf l) = 33 + blen (Data l) + blen (Extensions l).
Proof. unfold payloadOf. len. Qed.

Lemma frame_len l : blen (frame l) = 41 + blen (Data l) + blen (Extensions l).
Proof. unfold frame. rewrite !blen_app, payload_len. len. Qed.

Lemma timeUnix_unixNano t : - 2 ^ 63 <= t < 2 ^ 63 -> timeUnix (unixNano t) = t.
Proof.
  intros Ht. unfold timeUnix, unixNano, wrap. destruct (decide (0 <= t)).
  - rewrite Z.mod_small by lia. by rewrite (proj2 (Z.ltb_lt _ _)) by lia.
  - replace (t mod 2 ^ 64) with (t + 2 ^ 64) by (rewrite <- (Z.mod_add t 1) by lia; rewrite Z.mod_small; lia).
    rewrite (proj2 (Z.ltb_ge _ _)) by lia. lia.
Qed.

Lemma appendRecord_frame buf l : log_ok l -> appendRecord buf l = Ok (buf ++ frame l).
Proof.
  intros [Hi Ht Hty Ha Hs]. unfold appendRecord, frameHdr, recLenSize, crcSize, payloadHdr, maxRecBytes in *.
  pose proof (blen_nonneg (Data l)). pose proof (blen_nonneg (Extensions l)).
  rewrite !(wrap_fits 32) by (unfold fits; lia).
  rewrite <- !app_assoc. change (replicate 8 Byte.x00) with (replicate 4 Byte.x00 ++ replicate 4 Byte.x00).
  rewrite <- !app_assoc. fold (payloadOf l).
  rewrite (app_assoc buf), (app_assoc (buf ++ _)), slice_from_app by len. cbn [mbind outcome_bind].
  rewrite wrap_fits by (rewrite payload_len; unfold fits; lia). rewrite <- !app_assoc.
  erewrite store_mid by len. cbn [mbind outcome_bind]. 
  rewrite (app_assoc buf). erewrite store_mid by len. unfold frame, crcSize. by rewrite <- !app_assoc.
Qed.

Lemma takeField_put x rest : blen x < 2 ^ 32 -> blen (x ++ rest) < 2 ^ 32 ->
  takeField (le_put 4 (blen x) ++ x ++ rest) = Ok (x, rest).
Proof.
  intros Hx Hr. unfold takeField. rewrite (proj2 (Z.ltb_ge _ _)) by len.
  rewrite le_get_app. cbn [mbind outcome_bind]. rewrite (slice_from_app (le_put 4 _)) by len. cbn [mbind outcome_bind].
  pose proof (blen_nonneg x). pose proof (blen_nonneg (x ++ rest)).
  change (8 * Z.of_nat 4) with 32. rewrite !wrap_fits by (unfold fits; lia).
  rewrite (proj2 (Z.ltb_ge _ _)) by len. rewrite slice_here by lia. cbn [mbind outcome_bind].
  rewrite slice_from_app by lia. done.
Qed.

(** The two variable fields, and nothing after them. *)
Definition decodeTail (o : Log) (rest : bytes) : Log * outcome lerr unit :=
  (('(d, p) ← lift (takeField rest); modify (setData d);;
   '(e, p) ← lift (takeField p); modify (setExtensions e);;
   if negb (blen p =? 0) then throw errCorrupt else mret tt) : st Log lerr unit) o.

(** The fixed fields are read by position. *)
Lemma decodeInto_run a b c d rest out :
  blen a = 8 -> blen b = 8 -> blen d = 8 ->
  decodeInto (a ++ b ++ [c] ++ d ++ rest) out =
  decodeTail (MkLog (le_combine a) (le_combine b) (byte.unsigned c) (timeUnix (le_combine d)) (Data out) (Extensions out)) rest.
Proof.
  intros Ha Hb Hd. unfold decodeInto, payloadHdr. rewrite (proj2 (Z.ltb_ge _ _)) by len.
  rewrite (bind_lift _ (le_combine a)) by (rewrite le_get_in, take_app_length' by (unfold blen in *; len); done).
  rewrite bind_modify. rewrite (bind_lift _ (b ++ [c] ++ d ++ rest)) by (apply slice_from_app; lia).
  rewrite (bind_lift _ (le_combine b)) by (rewrite le_get_in, take_app_length' by (unfold blen in *; len); done).
  rewrite bind_modify. rewrite (bind_lift _ (byte.unsigned c)).
  2:{ unfold byte_at. rewrite (proj2 (Z.ltb_lt 16 _)) by len. cbn [andb Z.leb Z.compare].
      rewrite app_assoc, lookup_app_r by (rewrite length_app; unfold blen in *; lia).
      replace (Z.to_nat 16 - length (a ++ b))%nat with 0%nat by (rewrite length_app; unfold blen in *; lia). done. }
  rewrite bind_modify. rewrite (bind_lift _ (d ++ rest)).
  2:{ rewrite !app_assoc. rewrite <- (app_assoc _ d rest). apply slice_from_app. len. }
  rewrite (bind_lift _ (le_combine d)) by (rewrite le_get_in, take_app_length' by (unfold blen in *; len); done).
  rewrite bind_modify. rewrite (bind_lift _ rest).
  2:{ rewrite !app_assoc. apply slice_from_app. len. }
  done.
Qed.

Lemma decodeInto_payload l out : log_ok l -> decodeInto (payloadOf l) out = (l, Ok tt).
Proof.
  intros [Hi Ht Hty Ha Hs]. unfold payloadHdr, crcSize, maxRecBytes in *.
  pose proof (blen_nonneg (Data l)). pose proof (blen_nonneg (Extensions l)).
  assert (Hx := fits_wrap 64 (AppendedAt l) ltac:(lia)). fold (unixNano (AppendedAt l)) in Hx.
  unfold payloadOf. change (le_put 1 (Type_ l)) with [byte.of_Z (Type_ l)].
  rewrite decodeInto_run by len. rewrite !le_combine_put by done. rewrite byte.unsigned_of_Z, timeUnix_unixNano by done.
  unfold byte.wrap. rewrite (Z.mod_small (Type_ l)) by exact Hty.
  unfold decodeTail. erewrite bind_lift by (apply takeField_put; len). cbv beta iota. rewrite bind_modify.
  rewrite <- (app_nil_r (Extensions l)) at 2.
  erewrite bind_lift by (apply takeField_put; len). cbv beta iota. rewrite bind_modify. by destruct l.
Qed.

(** What [takeField] accepts is a length-prefixed string. *)
Lemma takeField_inv p d q : blen p < 2 ^ 32 -> takeField p = Ok (d, q) ->
  p = le_put 4 (blen d) ++ d ++ q.
Proof.
  intros Hp. unfold takeField. destruct (blen p <? 4) eqn:E1; [done|]. apply Z.ltb_ge in E1.
  destruct (cut 4 p) as (a & b & -> & Ha); [lia|]. rewrite le_get_in by len. cbn [mbind outcome_bind].
  rewrite slice_from_app by done. cbn [mbind outcome_bind].
  rewrite take_app_length' by (unfold blen in Ha; lia).
  rewrite wrap_fits by (unfold fits; pose proof (blen_nonneg b); rewrite blen_app in Hp; lia).
  pose proof (fits_le_combine a) as Hf. rewrite Ha in Hf.
  destruct (blen b <? le_combine a) eqn:E2; [done|]. apply Z.ltb_ge in E2.
  destruct (cut (le_combine a) b) as (x & y & -> & Hx); [unfold fits in Hf; lia|].
  rewrite slice_here by lia. cbn [mbind outcome_bind]. rewrite slice_from_app by lia. cbn [mbind outcome_bind].
  intros [= <- <-]. rewrite Hx. by rewrite (le_put_combine a 4).
Qed.

Lemma takeField_total p : takeField p <> Panic.
Proof.
  unfold takeField. destruct (blen p <? 4) eqn:E1; [done|]. apply Z.ltb_ge in E1.
  destruct (cut 4 p) as (a & b & -> & Ha); [lia|]. rewrite le_get_in by len. cbn [mbind outcome_bind].
  rewrite slice_from_app by done. cbn [mbind outcome_bind]. rewrite take_app_length' by (unfold blen in Ha; lia).
  pose proof (fits_le_combine a) as Hf.
  assert (Hw : u32 (blen b) <= blen b) by (apply Z.mod_le; [apply blen_nonneg|lia]).
  destruct (u32 (blen b) <? le_combine a) eqn:E2; [done|]. apply Z.ltb_ge in E2. unfold fits in Hf.
  rewrite slice_in by lia. cbn [mbind outcome_bind]. unfold slice_from. rewrite slice_in by lia. done.
Qed.

Lemma unixNano_timeUnix x : fits 64 x -> unixNano (timeUnix x) = x.
Proof.
  intros Hx. unfold timeUnix, unixNano, wrap, fits in *. destruct (x <? 2 ^ 63); [by apply Z.mod_small|].
  rewrite <- (Z.mod_add (x - 2 ^ 64) 1) by lia. rewrite Z.mod_small; lia.
Qed.

(** Every payload of the right length starts with the fixed fields. *)
Lemma fixed_fields (p : bytes) : payloadHdr <= blen p ->
  exists (a b : bytes) c (d rest : bytes), p = a ++ b ++ [c] ++ d ++ rest /\ blen a = 8 /\ blen b = 8 /\ blen d = 8.
Proof.
  unfold payloadHdr. intros Hp. destruct (cut 8 p) as (a & p1 & -> & Ha); [lia|]. rewrite blen_app in Hp.
  destruct (cut 8 p1) as (b & p2 & -> & Hb); [lia|]. rewrite blen_app in Hp.
  destruct p2 as [|c p3]; [rewrite blen_nil in Hp; lia|]. rewrite blen_cons in Hp.
  destruct (cut 8 p3) as (d & rest & -> & Hd); [lia|]. by exists a, b, c, d, rest.
Qed.

Lemma decodeTail_inv o rest l : blen rest < 2 ^ 32 -> decodeTail o rest = (l, Ok tt) ->
  l = setExtensions (Extensions l) (setData (Data l) o) /\
  rest = le_put 4 (blen (Data l)) ++ Data l ++ le_put 4 (blen (Extensions l)) ++ Extensions l.
Proof.
  intros Hr. unfold decodeTail. destruct (takeField rest) as [[d p]|e|] eqn:E1; [|done|done].
  rewrite (bind_lift _ (d, p)) by done. apply takeField_inv in E1 as ->; [|done]. rewrite bind_modify.
  destruct (takeField p) as [[e q]|e|] eqn:E2; [|done|done]. rewrite !blen_app in Hr.
  rewrite (bind_lift _ (e, q)) by done. rewrite bind_modify.
  pose proof (blen_nonneg d). apply takeField_inv in E2 as ->; [|rewrite blen_le_put in Hr; lia].
  destruct (blen q =? 0) eqn:E3; [|done]. apply Z.eqb_eq in E3. destruct q as [|x q]; [|rewrite blen_cons in E3; pose proof (blen_nonneg q); lia].
  cbn. intros [= <-]. by rewrite app_nil_r.
Qed.

Lemma takeField_err p e : takeField p = Err e -> e = errCorrupt.
Proof.
  unfold takeField. destruct (blen p <? 4) eqn:E1; [by intros [= <-]|]. apply Z.ltb_ge in E1.
  rewrite le_get_in by lia. cbn [mbind outcome_bind]. unfold slice_from. rewrite slice_in by lia. cbn [mbind outcome_bind].
  destruct (_ <? _); [by intros [= <-]|]. unfold slice. by repeat case_match.
Qed.

Lemma decodeTail_err o rest l e : decodeTail o rest = (l, Err e) -> e = errCorrupt.
Proof.
  unfold decodeTail. destruct (takeField rest) as [[d p]|e'|] eqn:E1; [|intros [= _ <-]; by apply takeField_err in E1|done].
  rewrite (bind_lift _ (d, p)) by done. rewrite bind_modify.
  destruct (takeField p) as [[x q]|e'|] eqn:E2; [|intros [= _ <-]; by apply takeField_err in E2|done].
  rewrite (bind_lift _ (x, q)) by done. rewrite bind_modify. destruct (blen q =? 0); [done|]. by intros [= _ <-].
Qed.

Lemma decodeInto_inv p out l : blen p < 2 ^ 32 -> decodeInto p out = (l, Ok tt) -> p = payloadOf l.
Proof.
  intros Hp H. destruct (decide (payloadHdr <= blen p)) as [Hl|Hl].
  2:{ unfold decodeInto in H. by rewrite (proj2 (Z.ltb_lt _ _)) in H by lia. }
  destruct (fixed_fields p Hl) as (a & b & c & d & rest & -> & Ha & Hb & Hd).
  rewrite decodeInto_run in H by done. rewrite !blen_app in Hp.
  apply decodeTail_inv in H as [-> ->]; [|pose proof (blen_nonneg a); pose proof (blen_nonneg b);
    pose proof (blen_nonneg [c]); pose proof (blen_nonneg d); lia].
  unfold payloadOf, setExtensions, setData. cbn [Index Term Type_ AppendedAt Data Extensions].
  rewrite unixNano_timeUnix by (pose proof (fits_le_combine d) as Hf; by rewrite Hd in Hf).
  rewrite !le_put_combine by lia.
  change (le_put 1 (byte.unsigned c)) with [byte.of_Z (byte.unsigned c)]. by rewrite byte.of_Z_unsigned.
Qed.

Lemma decodeInto_total p out : snd (decodeInto p out) <> Panic.
Proof.
  destruct (decide (payloadHdr <= blen p)) as [Hl|Hl].
  2:{ unfold decodeInto. by rewrite (proj2 (Z.ltb_lt _ _)) by lia. }
  destruct (fixed_fields p Hl) as (a & b & c & d & rest & -> & Ha & Hb & Hd). rewrite decodeInto_run by done.
  unfold decodeTail. pose proof (takeField_total rest). destruct (takeField rest) as [[x q]|e|]; [|done|done].
  rewrite (bind_lift _ (x, q)) by done. rewrite bind_modify. pose proof (takeField_total q).
  destruct (takeField q) as [[y z]|e|]; [|done|done]. rewrite (bind_lift _ (y, z)) by done. rewrite bind_modify.
  by destruct (blen z =? 0).
Qed.

(** ** Claims *)

(** A log record is read back as written: [appendRecord] appends exactly one
    framed record to the buffer, and [decodeInto] of its payload fills the
    caller's entry with every field of the log entry, whatever it held
    before. *)
Theorem log_record_roundtrip buf l out :
  log_ok l ->
  exists rec, appendRecord buf l = Ok (buf ++ rec) /\ blen rec = frameHdr + blen (payloadOf l) /\
    drop (Z.to_nat frameHdr) rec = payloadOf l /\ decodeInto (payloadOf l) out = (l, Ok tt).
Proof.
  intros Hl. exists (frame l). split; [by apply appendRecord_frame|]. split; [rewrite frame_len, payload_len; unfold frameHdr, recLenSize, crcSize; lia|].
  split; [|by apply decodeInto_payload]. unfold frame. rewrite app_assoc. by rewrite drop_app_length'.
Qed.

(** The record decoder accepts nothing but records: it never panics, and a
    payload it accepts is byte for byte the encoding of the entry it returns, so
    no misframed or truncated payload passes. *)
Theorem log_decoder_exact p out :
  blen p < 2 ^ 32 ->
  match decodeInto p out with
  | (l, Ok _) => p = payloadOf l
  | (_, Err e) => e = errCorrupt
  | (_, Panic) => False
  end.
Proof.
  intros Hp. pose proof (decodeInto_total p out) as Ht. destruct (decodeInto p out) as [l [[]|e|]] eqn:E1; [| |done].
  - by eapply decodeInto_inv.
  - revert E1. destruct (decide (payloadHdr <= blen p)) as [Hl|Hl].
    + destruct (fixed_fields p Hl) as (a & b & c & d & rest & -> & Ha & Hb & Hd). rewrite decodeInto_run by done.
      apply decodeTail_err.
    + unfold decodeInto. rewrite (proj2 (Z.ltb_lt _ _)) by lia. by intros [= _ <-].
Qed.

Definition sampleLog : Log := MkLog 7 2 0 (-5) [Byte.x01; Byte.x02] [Byte.x03].



End LogCodec.
