(* ===== verification/MemLog.v ===== *)
(** * The in-memory raft log store (src/raft/logstore/mem.go), and what a raft
    log store is.

    A log is a contiguous list of entries. [LogStore] states what raft relies on
    of a store; [Mem] is an instance here, the durable store in [WalProps]. *)
From S2P Require Import Prelude Crc32 LogCodec.
Import LogCodec.

(** ** The abstract log *)

(** The entries have consecutive indexes, from [first] on. *)
Definition contiguous (first : Z) (es : list Log) : Prop :=
  forall i e, es !! i = Some e -> Index e = first + Z.of_nat i.

Definition firstOf (es : list Log) : Z := match es with [] => 0 | e :: _ => Index e end.
Definition lastOf (es : list Log) : Z := match last es with None => 0 | Some e => Index e end.

(** A log: contiguous, with room for the next index in 64 bits. *)
Definition log_wf (es : list Log) : Prop :=
  contiguous (firstOf es) es /\ 0 <= firstOf es /\ firstOf es + blen es < 2 ^ 64.

Definition getEntry (es : list Log) (i : Z) : option Log := list_find (fun e => Index e = i) es ≫= fun x => Some x.2.

(** Storing an entry: the next index extends the log, an index inside it
    replaces the entry and everything after it, any other restarts the log. *)
Definition putEntry (es : list Log) (l : Log) : list Log :=
  match es with
  | [] => [l]
  | _ =>
      if decide (Index l = lastOf es + 1) then es ++ [l]
      else if decide (firstOf es <= Index l <= lastOf es) then filter (fun e => Index e < Index l) es ++ [l]
      else [l]
  end.

Definition deleteEntries (es : list Log) (lo hi : Z) : list Log := filter (fun e => ~ lo <= Index e <= hi) es.

(** What may be stored: a representable entry whose index has a successor. *)
Definition entry_ok (l : Log) : Prop := log_ok l /\ Index l + 1 < 2 ^ 64.

(** [DeleteRange] is only asked to remove a prefix or a suffix. *)
Definition end_range (es : list Log) (lo hi : Z) : Prop := lo <= firstOf es \/ lastOf es <= hi \/ hi < lo.

Lemma contiguous_app f es e : contiguous f es -> Index e = f + blen es -> contiguous f (es ++ [e]).
Proof.
  intros Hc He i x. rewrite lookup_app_Some. intros [Hx|[Hi Hx]]; [by apply Hc|].
  apply list_lookup_singleton_Some in Hx as [Hi' ->]. unfold blen in He. lia.
Qed.

Lemma contiguous_take f es n : contiguous f es -> contiguous f (take n es).
Proof. intros Hc i x [Hx _]%lookup_take_Some. by apply Hc. Qed.

Lemma contiguous_drop f es n : contiguous f es -> contiguous (f + Z.of_nat n) (drop n es).
Proof. intros Hc i x. rewrite lookup_drop. intros Hx%Hc. lia. Qed.

Lemma contiguous_first f e es : contiguous f (e :: es) -> Index e = f.
Proof. intros Hc. specialize (Hc 0%nat e eq_refl). lia. Qed.

Lemma contiguous_last f es : contiguous f es -> es <> [] -> lastOf es = f + blen es - 1.
Proof.
  intros Hc Hne. unfold lastOf. destruct (last es) as [e|] eqn:E1; [|by apply last_None in E1].
  rewrite last_lookup in E1. apply Hc in E1. destruct es; [done|]. unfold blen. simpl in *. lia.
Qed.

Lemma filter_none {A} (P : A -> Prop) `{forall x, Decision (P x)} (l : list A) :
  (forall x, x ∈ l -> ~ P x) -> filter P l = [].
Proof.
  induction l as [|x l IH]; intros Hn; [done|]. rewrite filter_cons, decide_False by (apply Hn; constructor).
  apply IH. intros y Hy. apply Hn. by constructor.
Qed.

Lemma filter_all {A} (P : A -> Prop) `{forall x, Decision (P x)} (l : list A) :
  (forall x, x ∈ l -> P x) -> filter P l = l.
Proof.
  induction l as [|x l IH]; intros Hn; [done|]. rewrite filter_cons, decide_True by (apply Hn; constructor).
  f_equal. apply IH. intros y Hy. apply Hn. by constructor.
Qed.

(** A contiguous log split at [k]: smaller indexes before, larger after. *)
Lemma filter_split f es (P : Log -> Prop) `{forall x, Decision (P x)} n (b1 b2 : bool) :
  contiguous f es ->
  (forall e, f <= Index e < f + Z.of_nat n -> if b1 then P e else ~ P e) ->
  (forall e, f + Z.of_nat n <= Index e < f + blen es -> if b2 then P e else ~ P e) ->
  filter P es = (if b1 then take n es else []) ++ (if b2 then drop n es else []).
Proof.
  intros Hc H1 H2. rewrite <- (take_drop n es) at 1. rewrite filter_app.
  assert (Ht : forall x, x ∈ take n es -> f <= Index x < f + Z.of_nat n).
  { intros x [i Hx]%list_elem_of_lookup. apply lookup_take_Some in Hx as [Hx Hi]. apply Hc in Hx. lia. }
  assert (Hd : forall x, x ∈ drop n es -> f + Z.of_nat n <= Index x < f + blen es).
  { intros x [i Hx]%list_elem_of_lookup. rewrite lookup_drop in Hx. pose proof (lookup_lt_Some _ _ _ Hx).
    apply Hc in Hx. unfold blen. lia. }
  f_equal.
  - destruct b1; [apply filter_all|apply filter_none]; intros x Hx; by apply H1, Ht.
  - destruct b2; [apply filter_all|apply filter_none]; intros x Hx; by apply H2, Hd.
Qed.

Lemma filter_below f es k : contiguous f es -> f <= k <= f + blen es ->
  filter (fun e => Index e < k) es = take (Z.to_nat (k - f)) es.
Proof.
  intros Hc Hk. rewrite (filter_split f es _ (Z.to_nat (k - f)) true false Hc) by (intros; lia). by rewrite app_nil_r.
Qed.

Lemma log_wf_last es : log_wf es -> es <> [] -> lastOf es = firstOf es + blen es - 1.
Proof. intros (Hc & _) Hne. by apply contiguous_last. Qed.

Lemma blen_pos {A} (l : list A) : l <> [] -> 0 < blen l.
Proof. destruct l; [done|]. rewrite blen_cons. pose proof (blen_nonneg l). lia. Qed.

Lemma log_wf_intro f es : contiguous f es -> 0 <= f -> f + blen es < 2 ^ 64 -> log_wf es.
Proof.
  intros Hc Hf Hb. destruct es as [|e es]; [done|]. pose proof (contiguous_first _ _ _ Hc) as He.
  unfold log_wf. cbn [firstOf]. by rewrite He.
Qed.

(** The entries before [k], kept by an overwrite at [k]. *)
Lemma putEntry_cut es l : log_wf es -> es <> [] -> firstOf es <= Index l <= lastOf es ->
  putEntry es l = take (Z.to_nat (Index l - firstOf es)) es ++ [l].
Proof.
  intros Hw Hne Hi. pose proof (log_wf_last _ Hw Hne) as Hl. unfold putEntry. destruct es as [|e es]; [done|].
  rewrite decide_False by lia. rewrite decide_True by lia. f_equal. apply filter_below; [apply Hw|lia].
Qed.

Lemma putEntry_next es l : es <> [] -> Index l = lastOf es + 1 -> putEntry es l = es ++ [l].
Proof. intros Hne Hi. unfold putEntry. destruct es as [|e es]; [done|]. by rewrite decide_True by done. Qed.

Lemma putEntry_gap es l : Index l <> lastOf es + 1 -> ~ firstOf es <= Index l <= lastOf es -> putEntry es l = [l].
Proof.
  intros Hn Hr. unfold putEntry. destruct es as [|e es]; [done|].
  rewrite decide_False by done. by rewrite decide_False by done.
Qed.

Lemma putEntry_wf es l : log_wf es -> entry_ok l -> log_wf (putEntry es l).
Proof.
  intros Hw [Hl Hb]. pose proof (lo_index _ Hl) as [H0 _].
  assert (H1 : log_wf [l]).
  { apply (log_wf_intro (Index l)); [|done|by rewrite blen_cons, blen_nil; lia].
    intros i e He. apply list_lookup_singleton_Some in He as [-> ->]. lia. }
  destruct (decide (es = [])) as [->|Hne]; [done|]. pose proof (log_wf_last _ Hw Hne) as Hlast.
  destruct (decide (Index l = lastOf es + 1)) as [Hi|Hi].
  - rewrite putEntry_next by done. destruct Hw as (Hc & Hf & Hn). apply (log_wf_intro (firstOf es)); [|done|len].
    apply contiguous_app; [done|lia].
  - destruct (decide (firstOf es <= Index l <= lastOf es)) as [Hr|Hr]; [|by rewrite putEntry_gap].
    rewrite putEntry_cut by done. destruct Hw as (Hc & Hf & Hn).
    apply (log_wf_intro (firstOf es)); [|done|len].
    apply contiguous_app; [by apply contiguous_take|]. len.
Qed.

Lemma foldl_put_wf ls es : log_wf es -> Forall entry_ok ls -> log_wf (foldl putEntry es ls).
Proof.
  revert es. induction ls as [|l ls IH]; intros es Hw Hl; [done|]. inversion Hl; subst. cbn. apply IH; [|done].
  by apply putEntry_wf.
Qed.

Lemma putEntry_nonempty es l : putEntry es l <> [].
Proof. unfold putEntry. destruct es as [|e es]; [done|]. repeat case_decide; [done| |done]. by destruct (filter _ _). Qed.

Lemma foldl_put_nonempty ls es : ls <> [] -> foldl putEntry es ls <> [].
Proof.
  intros Hne. destruct (exists_last Hne) as (ls' & l & ->). rewrite foldl_app. apply putEntry_nonempty.
Qed.

(** Deleting at an end of a log. *)
Lemma delete_front es hi : log_wf es -> firstOf es <= hi + 1 -> hi <= lastOf es -> es <> [] -> forall lo, lo <= firstOf es ->
  deleteEntries es lo hi = drop (Z.to_nat (hi + 1 - firstOf es)) es.
Proof.
  intros Hw Hhi Hl Hne lo Hlo. pose proof (log_wf_last _ Hw Hne). unfold deleteEntries.
  by rewrite (filter_split (firstOf es) es _ (Z.to_nat (hi + 1 - firstOf es)) false true (proj1 Hw)) by (intros; lia).
Qed.

Lemma delete_tail es lo : log_wf es -> firstOf es <= lo -> lo <= lastOf es + 1 -> es <> [] -> forall hi, lastOf es <= hi ->
  deleteEntries es lo hi = take (Z.to_nat (lo - firstOf es)) es.
Proof.
  intros Hw Hlo Hl Hne hi Hhi. pose proof (log_wf_last _ Hw Hne). unfold deleteEntries.
  rewrite (filter_split (firstOf es) es _ (Z.to_nat (lo - firstOf es)) true false (proj1 Hw)) by (intros; lia).
  by rewrite app_nil_r.
Qed.

(** A range that misses the log. *)
Lemma delete_miss es lo hi : log_wf es -> (hi < lo \/ hi < firstOf es \/ lastOf es < lo) -> deleteEntries es lo hi = es.
Proof.
  intros Hw Hr. destruct (decide (es = [])) as [->|Hne]; [done|]. pose proof (log_wf_last _ Hw Hne).
  unfold deleteEntries. rewrite (filter_split (firstOf es) es _ (length es) true true (proj1 Hw)) by (intros; unfold blen in *; lia).
  apply take_drop.
Qed.

Lemma delete_all es lo hi : log_wf es -> lo <= firstOf es -> lastOf es <= hi -> deleteEntries es lo hi = [].
Proof.
  intros Hw Hlo Hhi. destruct (decide (es = [])) as [->|Hne]; [done|]. pose proof (log_wf_last _ Hw Hne).
  unfold deleteEntries. by rewrite (filter_split (firstOf es) es _ (length es) false false (proj1 Hw)) by (intros; unfold blen in *; lia).
Qed.

Lemma log_wf_take es n : log_wf es -> log_wf (take n es).
Proof.
  intros (Hc & Hf & Hb). apply (log_wf_intro (firstOf es)); [by apply contiguous_take|done|len].
Qed.

Lemma log_wf_drop es n : log_wf es -> (n <= length es)%nat -> log_wf (drop n es).
Proof.
  intros (Hc & Hf & Hb) Hn. apply (log_wf_intro (firstOf es + Z.of_nat n)); [by apply contiguous_drop|lia|len].
Qed.

Lemma delete_wf es lo hi : log_wf es -> end_range es lo hi -> log_wf (deleteEntries es lo hi).
Proof.
  intros Hw He. destruct (decide (es = [])) as [->|Hne]; [done|]. pose proof (log_wf_last _ Hw Hne). unfold end_range in He.
  pose proof (blen_pos _ Hne). destruct (decide (hi < lo \/ hi < firstOf es \/ lastOf es < lo)); [by rewrite delete_miss|].
  destruct (decide (lo <= firstOf es)).
  - destruct (decide (lastOf es <= hi)); [by rewrite delete_all|].
    rewrite (delete_front _ hi) by (first [done|lia]). apply log_wf_drop; [done|unfold blen in *; lia].
  - rewrite (delete_tail _ lo) by (first [done|lia]). by apply log_wf_take.
Qed.

Lemma getEntry_lookup f es i : contiguous f es -> f <= i -> getEntry es i = es !! Z.to_nat (i - f).
Proof.
  intros Hc Hi. unfold getEntry. destruct (list_find _ es) as [[n e]|] eqn:E1.
  - apply list_find_Some in E1 as (Hn & He & _). pose proof (Hc _ _ Hn). cbn.
    replace (Z.to_nat (i - f)) with n by lia. done.
  - cbn. apply list_find_None in E1. destruct (es !! Z.to_nat (i - f)) as [e|] eqn:E2; [|done].
    exfalso. apply (Forall_lookup_1 _ _ _ _ E1 E2). apply Hc in E2. lia.
Qed.

Lemma getEntry_below f es i : contiguous f es -> i < f -> getEntry es i = None.
Proof.
  intros Hc Hi. unfold getEntry. destruct (list_find _ es) as [[n e]|] eqn:E1; [|done].
  apply list_find_Some in E1 as (Hn & He & _). apply Hc in Hn. lia.
Qed.

(** ** What a log store promises *)

(** [S] is the type of stores, [holds s es] that [s] is in good order and holds the
    log [es]; every operation keeps that. *)
Class LogStore (S : Type) := {
  holds : S -> list Log -> Prop;
  lsFirst : st S lerr Z;
  lsLast : st S lerr Z;
  lsGet : Z -> st S lerr Log;
  lsStore : list Log -> st S lerr unit;
  lsDelete : Z -> Z -> st S lerr unit;
  holds_wf s es : holds s es -> log_wf es;
  lsFirst_ok s es : holds s es -> exists s', lsFirst s = (s', Ok (firstOf es)) /\ holds s' es;
  lsLast_ok s es : holds s es -> exists s', lsLast s = (s', Ok (lastOf es)) /\ holds s' es;
  lsGet_ok s es i : holds s es ->
    exists s', lsGet i s = (s', match getEntry es i with Some e => Ok e | None => Err ErrLogNotFound end) /\ holds s' es;
  lsStore_ok s es ls : holds s es -> Forall entry_ok ls ->
    exists s', lsStore ls s = (s', Ok tt) /\ holds s' (foldl putEntry es ls);
  lsDelete_ok s es lo hi : holds s es -> end_range es lo hi ->
    exists s', lsDelete lo hi s = (s', Ok tt) /\ holds s' (deleteEntries es lo hi);
}.

(** ** The in-memory store *)

Module MemLog.

Record Mem := MkMem { logs : list Log; kv : gmap bytes bytes }.

Definition setLogs (x : list Log) (m : Mem) := MkMem x (kv m).
Definition setKv (x : gmap bytes bytes) (m : Mem) := MkMem (logs m) x.

Definition NewMem : Mem := MkMem [] ∅.

Abbreviation M := (st Mem lerr).

(** [m.logs[i]] for an index known from the length. *)
Definition logAt (i : Z) : M Log := ls ← gets logs; oget (if 0 <=? i then ls !! Z.to_nat i else None).

Definition FirstIndex : M Z :=
  ls ← gets logs;
  if blen ls =? 0 then mret 0 else l ← logAt 0; mret (Index l).

Definition LastIndex : M Z :=
  ls ← gets logs;
  if blen ls =? 0 then mret 0 else l ← logAt (blen ls - 1); mret (Index l).

Definition GetLog (index : Z) : M Log :=
  ls ← gets logs;
  if blen ls =? 0 then throw ErrLogNotFound else
  f ← logAt 0;
  l ← logAt (blen ls - 1);
  if (index <? Index f) || (Index l <? index) then throw ErrLogNotFound else
  logAt (u64 (index - Index f)).

Definition appendLocked (c : Log) : M unit :=
  ls ← gets logs;
  if blen ls =? 0 then modify (setLogs (ls ++ [c])) else
  l ← logAt (blen ls - 1);
  f ← logAt 0;
  if Index c =? u64 (Index l + 1) then modify (setLogs (ls ++ [c]))
  else if (Index f <=? Index c) && (Index c <=? Index l) then
    let off := u64 (Index c - Index f) in
    if blen ls <? off + 1 then panic
    else modify (setLogs (<[Z.to_nat off := c]> (take (Z.to_nat (off + 1)) ls)))
  else modify (setLogs [c]).

Fixpoint storeAll (ls : list Log) : M unit :=
  match ls with
  | [] => mret tt
  | l :: ls => appendLocked (cloneLog l);; storeAll ls
  end.
Definition StoreLogs (ls : list Log) : M unit := if blen ls =? 0 then mret tt else storeAll ls.
Definition StoreLog (l : Log) : M unit := StoreLogs [l].

(** [logs[lo:hi]] *)
Definition sub (ls : list Log) (lo hi : Z) : M (list Log) :=
  if (0 <=? lo) && (lo <=? hi) && (hi <=? blen ls)
  then mret (take (Z.to_nat (hi - lo)) (drop (Z.to_nat lo) ls)) else panic.

Definition DeleteRange (minIdx maxIdx : Z) : M unit :=
  ls ← gets logs;
  if blen ls =? 0 then mret tt else
  f ← logAt 0;
  l ← logAt (blen ls - 1);
  let first := Index f in
  let last := Index l in
  let minIdx := if minIdx <? first then first else minIdx in
  let maxIdx := if last <? maxIdx then last else maxIdx in
  if maxIdx <? minIdx then mret tt
  else if (minIdx =? first) && (maxIdx =? last) then modify (setLogs [])
  else if minIdx =? first then t ← sub ls (u64 (maxIdx - first + 1)) (blen ls); modify (setLogs t)
  else if maxIdx =? last then t ← sub ls 0 (u64 (minIdx - first)); modify (setLogs t)
  else
    kept ← sub ls 0 (u64 (minIdx - first));
    t ← sub ls (u64 (maxIdx - first + 1)) (blen ls);
    modify (setLogs (kept ++ t)).

(** The stable keys. *)
Definition Set_ (key val : bytes) : M unit := modify (fun m => setKv (<[key := val]> (kv m)) m).
Definition Get (key : bytes) : M bytes := gets (fun m => default [] (kv m !! key)).
Definition SetUint64 (key : bytes) (val : Z) : M unit := Set_ key (le_put 8 val).
Definition GetUint64 (key : bytes) : M Z :=
  v ← Get key;
  if blen v <? 8 then mret 0 else lift (le_get 8 v).

(** ** The store is a log *)

Definition mem_holds (m : Mem) (es : list Log) : Prop := logs m = es /\ log_wf es.

Lemma setLogs_same m ls : logs m = ls -> setLogs ls m = m.
Proof. intros <-. by destruct m. Qed.

Section Ops.
Context (m : Mem) (Hw : log_wf (logs m)).

Lemma logAt_first : logs m <> [] -> exists f, logs m !! 0%nat = Some f /\ Index f = firstOf (logs m) /\ logAt 0 m = (m, Ok f).
Proof. intros Hne. unfold logAt, mbind, st_bind, gets, oget. destruct (logs m) as [|f ls]; [done|]. by exists f. Qed.

Lemma logAt_last : logs m <> [] -> exists l, Index l = lastOf (logs m) /\ logAt (blen (logs m) - 1) m = (m, Ok l).
Proof.
  intros Hne. pose proof (blen_pos _ Hne). destruct (last (logs m)) as [l|] eqn:E1; [|by apply last_None in E1].
  exists l. split; [unfold lastOf; by rewrite E1|]. rewrite last_lookup in E1.
  unfold logAt, mbind, st_bind, gets. rewrite (proj2 (Z.leb_le _ _)) by lia.
  replace (Z.to_nat _) with (pred (length (logs m))) by (unfold blen in *; lia). by rewrite E1.
Qed.

Lemma nonempty_test : logs m <> [] -> (blen (logs m) =? 0) = false.
Proof. intros H%blen_pos. apply Z.eqb_neq. lia. Qed.

Lemma mem_FirstIndex_ok : FirstIndex m = (m, Ok (firstOf (logs m))).
Proof.
  unfold FirstIndex. rewrite bind_gets. destruct (decide (logs m = [])) as [->|Hne]; [done|].
  rewrite nonempty_test by done. destruct (logAt_first Hne) as (f & _ & <- & Hf). by rewrite (bind_ok _ _ _ _ _ Hf).
Qed.

Lemma mem_LastIndex_ok : LastIndex m = (m, Ok (lastOf (logs m))).
Proof.
  unfold LastIndex. rewrite bind_gets. destruct (decide (logs m = [])) as [->|Hne]; [done|].
  rewrite nonempty_test by done. destruct (logAt_last Hne) as (l & <- & Hl). by rewrite (bind_ok _ _ _ _ _ Hl).
Qed.

Lemma mem_GetLog_ok i :
  GetLog i m = (m, match getEntry (logs m) i with Some e => Ok e | None => Err ErrLogNotFound end).
Proof.
  unfold GetLog. rewrite bind_gets. destruct (decide (logs m = [])) as [->|Hne]; [done|].
  rewrite nonempty_test by done. destruct (logAt_first Hne) as (f & _ & Hff & Hf). rewrite (bind_ok _ _ _ _ _ Hf).
  destruct (logAt_last Hne) as (l & Hll & Hl). rewrite (bind_ok _ _ _ _ _ Hl). rewrite Hff, Hll.
  pose proof (log_wf_last _ Hw Hne) as Hlast. pose proof (blen_pos _ Hne). destruct Hw as (Hc & H0 & Hb).
  destruct (i <? firstOf (logs m)) eqn:E1; cbn [orb].
  { apply Z.ltb_lt in E1. by rewrite (getEntry_below _ _ _ Hc). }
  apply Z.ltb_ge in E1. rewrite (getEntry_lookup _ _ _ Hc E1).
  destruct (lastOf (logs m) <? i) eqn:E2.
  { apply Z.ltb_lt in E2. rewrite lookup_ge_None_2; [done|]. unfold blen in *. lia. }
  apply Z.ltb_ge in E2. rewrite wrap_fits by (unfold fits; lia). unfold logAt. rewrite bind_gets.
  rewrite (proj2 (Z.leb_le _ _)) by lia. destruct (logs m !! Z.to_nat _) as [e|] eqn:E3; [done|].
  apply lookup_ge_None in E3. unfold blen in *. lia.
Qed.

Lemma mem_appendLocked_ok l : entry_ok l -> appendLocked l m = (setLogs (putEntry (logs m) l) m, Ok tt).
Proof.
  intros [Hl Hb]. unfold appendLocked. rewrite bind_gets. destruct (decide (logs m = [])) as [->|Hne]; [done|].
  rewrite nonempty_test by done. destruct (logAt_last Hne) as (x & Hx & Hlast). rewrite (bind_ok _ _ _ _ _ Hlast).
  destruct (logAt_first Hne) as (f & _ & Hff & Hf). rewrite (bind_ok _ _ _ _ _ Hf). rewrite Hx, Hff.
  pose proof (log_wf_last _ Hw Hne) as Hlo. pose proof (blen_pos _ Hne). pose proof Hw as (Hc & H0 & Hn).
  rewrite wrap_fits by (unfold fits; lia).
  destruct (Index l =? lastOf (logs m) + 1) eqn:E1.
  { apply Z.eqb_eq in E1. by rewrite putEntry_next. }
  apply Z.eqb_neq in E1. destruct (_ && _) eqn:E2.
  - apply andb_true_iff in E2 as [E2%Z.leb_le E3%Z.leb_le]. rewrite wrap_fits by (unfold fits; lia).
    rewrite (proj2 (Z.ltb_ge _ _)) by lia. rewrite putEntry_cut by (first [done|lia]).
    unfold modify. do 3 f_equal. set (n := Z.to_nat (Index l - firstOf (logs m))).
    replace (Z.to_nat (Index l - firstOf (logs m) + 1)) with (S n) by lia.
    assert (Hlt : (n < length (logs m))%nat) by (unfold blen in *; lia).
    destruct (lookup_lt_is_Some_2 _ _ Hlt) as [y Hy]. rewrite (take_S_r _ _ _ Hy).
    rewrite insert_app_r_alt by (rewrite length_take; lia).
    replace (n - length (take n (logs m)))%nat with 0%nat by (rewrite length_take; lia). done.
  - rewrite putEntry_gap; [done|done|]. intros [? ?]. apply andb_false_iff in E2 as [E2|E2]; apply Z.leb_gt in E2; lia.
Qed.

Lemma mem_DeleteRange_ok lo hi : end_range (logs m) lo hi ->
  DeleteRange lo hi m = (setLogs (deleteEntries (logs m) lo hi) m, Ok tt).
Proof.
  intros He. unfold DeleteRange. rewrite bind_gets. destruct (decide (logs m = [])) as [Hnil|Hne].
  { rewrite Hnil. change (deleteEntries [] lo hi) with (@nil Log). by rewrite setLogs_same. }
  rewrite nonempty_test by done. destruct (logAt_first Hne) as (f & _ & Hff & Hf). rewrite (bind_ok _ _ _ _ _ Hf).
  destruct (logAt_last Hne) as (l & Hll & Hl). rewrite (bind_ok _ _ _ _ _ Hl). rewrite Hff, Hll. cbv zeta.
  pose proof (log_wf_last _ Hw Hne) as Hlast. pose proof (blen_pos _ Hne). pose proof Hw as (Hc & H0 & Hn).
  set (lo' := if lo <? firstOf (logs m) then firstOf (logs m) else lo).
  set (hi' := if lastOf (logs m) <? hi then lastOf (logs m) else hi).
  assert (Hlo : lo' = Z.max lo (firstOf (logs m))) by (unfold lo'; destruct (Z.ltb_spec lo (firstOf (logs m))); lia).
  assert (Hhi : hi' = Z.min hi (lastOf (logs m))) by (unfold hi'; destruct (Z.ltb_spec (lastOf (logs m)) hi); lia).
  clearbody lo' hi'. unfold end_range in He.
  destruct (Z.ltb_spec hi' lo'). { rewrite delete_miss by (first [done|lia]). by rewrite setLogs_same. }
  destruct (Z.eqb_spec lo' (firstOf (logs m))); destruct (Z.eqb_spec hi' (lastOf (logs m))); cbn [andb].
  - by rewrite delete_all by (first [done|lia]).
  - rewrite wrap_fits by (unfold fits; lia). rewrite (delete_front _ hi) by (first [done|lia]).
    unfold sub. rewrite !(proj2 (Z.leb_le _ _)) by lia. cbn [andb]. rewrite (bind_ok _ _ m m _ eq_refl).
    unfold modify. do 3 f_equal. rewrite take_ge by (rewrite length_drop; unfold blen in *; lia). f_equal. lia.
  - rewrite wrap_fits by (unfold fits; lia). rewrite (delete_tail _ lo) by (first [done|lia]).
    unfold sub. rewrite !(proj2 (Z.leb_le _ _)) by lia. cbn [andb]. rewrite (bind_ok _ _ m m _ eq_refl).
    unfold modify. change (drop (Z.to_nat 0) (logs m)) with (logs m). do 4 f_equal. lia.
  - exfalso. lia.
Qed.

End Ops.

Lemma storeAll_ok ls m : log_wf (logs m) -> Forall entry_ok ls ->
  storeAll ls m = (setLogs (foldl putEntry (logs m) ls) m, Ok tt).
Proof.
  revert m. induction ls as [|l ls IH]; intros m Hw Hl; [by destruct m|]. inversion Hl; subst. cbn [storeAll foldl].
  assert (Hcl : cloneLog l = l) by (by destruct l). rewrite Hcl.
  rewrite (bind_ok _ _ _ _ _ (mem_appendLocked_ok m Hw l ltac:(done))). rewrite IH; [done| |done].
  by apply putEntry_wf.
Qed.

#[export] Program Instance mem_LogStore : LogStore Mem := {|
  holds := mem_holds; lsFirst := FirstIndex; lsLast := LastIndex; lsGet := GetLog; lsStore := StoreLogs; lsDelete := DeleteRange;
|}.
Next Obligation. by intros s es [_ Hw]. Qed.
Next Obligation. intros s es [<- Hw]. exists s. split; [by apply mem_FirstIndex_ok|done]. Qed.
Next Obligation. intros s es [<- Hw]. exists s. split; [by apply mem_LastIndex_ok|done]. Qed.
Next Obligation. intros s es i [<- Hw]. exists s. split; [by apply mem_GetLog_ok|done]. Qed.
Next Obligation.
  intros s es ls [<- Hw] Hl. exists (setLogs (foldl putEntry (logs s) ls) s). split; [|split; [done|by apply foldl_put_wf]].
  unfold StoreLogs. destruct (Z.eqb_spec (blen ls) 0) as [H0|_]; [|by apply storeAll_ok].
  destruct ls; [by destruct s|]. rewrite blen_cons in H0. pose proof (blen_nonneg ls). lia.
Qed.
Next Obligation.
  intros s es lo hi [<- Hw] He. exists (setLogs (deleteEntries (logs s) lo hi) s). split; [by apply mem_DeleteRange_ok|].
  split; [done|]. by apply delete_wf.
Qed.

(** ** Claims *)

(** The in-memory store is a log. A new store is empty. On a store holding a
    contiguous log: the first and last index are those of the log (0 when it is
    empty); a lookup finds exactly the entry with that index or says not found;
    storing a batch appends the next indexes, overwrites a conflicting suffix, or
    restarts the log after a gap, one entry after the other; deleting a range
    that reaches an end removes exactly the entries of the range. The log stays
    contiguous. *)
Theorem mem_is_a_log m i lo hi ls :
  log_wf (logs m) -> Forall entry_ok ls -> end_range (logs m) lo hi ->
  logs NewMem = [] /\
  FirstIndex m = (m, Ok (firstOf (logs m))) /\ LastIndex m = (m, Ok (lastOf (logs m))) /\
  GetLog i m = (m, match getEntry (logs m) i with Some e => Ok e | None => Err ErrLogNotFound end) /\
  StoreLogs ls m = (setLogs (foldl putEntry (logs m) ls) m, Ok tt) /\ log_wf (foldl putEntry (logs m) ls) /\
  DeleteRange lo hi m = (setLogs (deleteEntries (logs m) lo hi) m, Ok tt) /\ log_wf (deleteEntries (logs m) lo hi).
Proof.
  intros Hw Hl He. split; [done|]. split; [by apply mem_FirstIndex_ok|]. split; [by apply mem_LastIndex_ok|].
  split; [by apply mem_GetLog_ok|]. split; [|split; [by apply foldl_put_wf|split; [by apply mem_DeleteRange_ok|by apply delete_wf]]].
  unfold StoreLogs. destruct (Z.eqb_spec (blen ls) 0) as [H0|_]; [|by apply storeAll_ok].
  destruct ls; [by destruct m|]. rewrite blen_cons in H0. pose proof (blen_nonneg ls). lia.
Qed.

Definition sampleMem : Mem := MkMem [MkLog 5 1 0 0 [] []; MkLog 6 1 0 0 [] []; MkLog 7 2 0 0 [] []] ∅.

Lemma sampleMem_wf : log_wf (logs sampleMem).
Proof.
  apply (log_wf_intro 5); [|lia|by vm_compute]. intros [|[|[|i]]] e; cbn; intros [= <-]; done.
Qed.


End MemLog.

(** ** Any two log stores agree *)

Inductive lop := LFirst | LLast | LGet (i : Z) | LStore (ls : list Log) | LDelete (lo hi : Z).
Inductive lres := RIndex (i : Z) | REntry (l : Log) | RUnit | RFail (e : lerr).

Definition toRes {S A} (f : A -> lres) (x : S * outcome lerr A) : S * option lres :=
  match x with
  | (s, Ok a) => (s, Some (f a))
  | (s, Err e) => (s, Some (RFail e))
  | (s, Panic) => (s, None)
  end.

Definition runOp {S} `{LogStore S} (o : lop) (s : S) : S * option lres :=
  match o with
  | LFirst => toRes RIndex (lsFirst s)
  | LLast => toRes RIndex (lsLast s)
  | LGet i => toRes REntry (lsGet i s)
  | LStore ls => toRes (fun _ => RUnit) (lsStore ls s)
  | LDelete lo hi => toRes (fun _ => RUnit) (lsDelete lo hi s)
  end.

(** The abstract log. *)
Definition specOp (o : lop) (es : list Log) : list Log * lres :=
  match o with
  | LFirst => (es, RIndex (firstOf es))
  | LLast => (es, RIndex (lastOf es))
  | LGet i => (es, match getEntry es i with Some e => REntry e | None => RFail ErrLogNotFound end)
  | LStore ls => (foldl putEntry es ls, RUnit)
  | LDelete lo hi => (deleteEntries es lo hi, RUnit)
  end.

Definition lop_ok (es : list Log) (o : lop) : Prop :=
  match o with LStore ls => Forall entry_ok ls | LDelete lo hi => end_range es lo hi | _ => True end.

Fixpoint specRun (os : list lop) (es : list Log) : list Log * list lres :=
  match os with
  | [] => (es, [])
  | o :: os => let (es1, r) := specOp o es in let (es2, rs) := specRun os es1 in (es2, r :: rs)
  end.

Fixpoint lops_ok (os : list lop) (es : list Log) : Prop :=
  match os with [] => True | o :: os => lop_ok es o /\ lops_ok os (specOp o es).1 end.

Fixpoint runOps {S} `{LogStore S} (os : list lop) (s : S) : S * list (option lres) :=
  match os with
  | [] => (s, [])
  | o :: os => let (s1, r) := runOp o s in let (s2, rs) := runOps os s1 in (s2, r :: rs)
  end.

Section Stores.
Context {S : Type} `{LS : LogStore S}.

Lemma runOp_spec o s es : holds s es -> lop_ok es o ->
  exists s', runOp o s = (s', Some (specOp o es).2) /\ holds s' (specOp o es).1.
Proof.
  intros Hh Ho. destruct o as [| |i|ls|lo hi]; cbn [runOp specOp fst snd].
  - destruct (lsFirst_ok _ _ Hh) as (s' & -> & Hh'). by exists s'.
  - destruct (lsLast_ok _ _ Hh) as (s' & -> & Hh'). by exists s'.
  - destruct (lsGet_ok _ _ i Hh) as (s' & -> & Hh'). exists s'. by destruct (getEntry es i).
  - destruct (lsStore_ok _ _ ls Hh Ho) as (s' & -> & Hh'). by exists s'.
  - destruct (lsDelete_ok _ _ lo hi Hh Ho) as (s' & -> & Hh'). by exists s'.
Qed.

Lemma runOps_spec os : forall s es, holds s es -> lops_ok os es ->
  exists s', runOps os s = (s', Some <$> (specRun os es).2) /\ holds s' (specRun os es).1.
Proof.
  induction os as [|o os IH]; intros s es Hh Ho; [by exists s|]. destruct Ho as [Ho Hos]. cbn [runOps specRun].
  destruct (runOp_spec o s es Hh Ho) as (s1 & -> & Hh1). destruct (specOp o es) as [es1 r]. cbn [fst snd] in *.
  destruct (IH s1 es1 Hh1 Hos) as (s2 & -> & Hh2). destruct (specRun os es1). by exists s2.
Qed.

End Stores.
