(* ===== verification/Wal.v ===== *)
(** * The durable raft log store (src/raft/logstore/wal.go).

    A write-ahead log in segment files, with an in-memory index of record
    positions, a compaction floor and a small stable map. The disk is part of the
    state: the contents of the segment files by base index, of the floor file and
    of the stable file. Every system call may fail: [io n] is the outcome of the
    [n]-th one. *)
From stdpp Require Import sorting.
From S2P Require Import Prelude Crc32 LogCodec.
Import Crc32 LogCodec.

Module Wal.

(** ** State *)

(** [sid] is the identity of the segment object. *)
Record segment := MkSeg { base : Z; size : Z; sid : nat }.

Record recPos := MkPos { segIdx : Z; off : Z; rsize : Z }.

Record WAL := MkWAL {
  segs : list segment;
  first : Z;
  offsets : list recPos;
  poisoned : bool;
  kv : gmap bytes bytes;
  files : gmap Z bytes;
  floorFile : option bytes;
  stableFile : option bytes;
  calls : nat;
}.

Definition setSegs x w := MkWAL x (first w) (offsets w) (poisoned w) (kv w) (files w) (floorFile w) (stableFile w) (calls w).
Definition setFirst x w := MkWAL (segs w) x (offsets w) (poisoned w) (kv w) (files w) (floorFile w) (stableFile w) (calls w).
Definition setOffsets x w := MkWAL (segs w) (first w) x (poisoned w) (kv w) (files w) (floorFile w) (stableFile w) (calls w).
Definition setPoisoned w := MkWAL (segs w) (first w) (offsets w) true (kv w) (files w) (floorFile w) (stableFile w) (calls w).
Definition setKv x w := MkWAL (segs w) (first w) (offsets w) (poisoned w) x (files w) (floorFile w) (stableFile w) (calls w).
Definition setFiles x w := MkWAL (segs w) (first w) (offsets w) (poisoned w) (kv w) x (floorFile w) (stableFile w) (calls w).
Definition setFloorFile x w := MkWAL (segs w) (first w) (offsets w) (poisoned w) (kv w) (files w) x (stableFile w) (calls w).
Definition setStableFile x w := MkWAL (segs w) (first w) (offsets w) (poisoned w) (kv w) (files w) (floorFile w) x (calls w).
Definition setCalls x w := MkWAL (segs w) (first w) (offsets w) (poisoned w) (kv w) (files w) (floorFile w) (stableFile w) x.

Abbreviation M := (st WAL lerr).

Definition defaultMaxSegment : Z := 64 * 2 ^ 20.

(** What a system call may do: [None] succeeds; [Some k] fails, a write after
    [k] bytes. [maxSeg] is the rotation size, [sync] whether batches are synced,
    [order] the iteration order of a Go map. *)
Record env := MkEnv {
  io : nat -> option nat;
  maxSeg : Z;
  sync : bool;
  order : gmap bytes bytes -> list (bytes * bytes);
}.

Section Ops.
Context (e : env).

Definition sys : M unit :=
  n ← gets calls;
  modify (setCalls (S n));;
  match io e n with None => mret tt | Some _ => throw errIO end.

(** Any failure of [m] trips the latch. *)
Definition orPoison (m : M unit) : M unit :=
  r ← try m;
  match r with inl _ => mret tt | inr er => modify setPoisoned;; throw er end.

(** ** Files *)

Definition contents (b : Z) : M bytes := gets (fun w => default [] (files w !! b)).

Definition pad (b : bytes) (n : nat) : bytes := b ++ replicate (n - length b) Byte.x00.
Definition writeAt (b : bytes) (o : Z) (src : bytes) : bytes :=
  take (Z.to_nat o) (pad b (Z.to_nat o)) ++ src ++ drop (Z.to_nat o + length src) b.

Definition fileWriteAt (b : Z) (o : Z) (src : bytes) : M unit :=
  n ← gets calls;
  modify (setCalls (S n));;
  c ← contents b;
  match io e n with
  | None => modify (fun w => setFiles (<[b := writeAt c o src]> (files w)) w)
  | Some k => modify (fun w => setFiles (<[b := writeAt c o (take k src)]> (files w)) w);; throw errIO
  end.

Definition fileReadAt (b : Z) (o n : Z) : M bytes :=
  sys;;
  c ← contents b;
  match slice (E:=lerr) c o (o + n) with Ok d => mret d | _ => throw errIO end.

Definition fileTruncate (b : Z) (o : Z) : M unit :=
  sys;;
  c ← contents b;
  modify (fun w => setFiles (<[b := take (Z.to_nat o) (pad c (Z.to_nat o))]> (files w)) w).

(** [_ = os.Remove(path)] *)
Definition removeSegFile (b : Z) : M unit :=
  r ← try sys;
  match r with inl _ => modify (fun w => setFiles (delete b (files w)) w) | inr _ => mret tt end.

Fixpoint removeSegs (ss : list segment) : M unit :=
  match ss with [] => mret tt | s :: ss => removeSegFile (base s);; removeSegs ss end.

Definition fsync : M unit := orPoison sys.

Definition syncDir : M unit := orPoison sys;; orPoison sys;; sys.

(** The temp file is written, synced, closed and renamed over [path]; it is not
    read back, so only the rename is a change. *)
Definition writeFileDurable (publish : WAL -> WAL) : M unit :=
  orPoison (sys;; sys;; sys;; sys;; sys;; modify publish;; syncDir).

Definition writeFloorLocked : M unit :=
  f ← gets first;
  writeFileDurable (setFloorFile (Some (le_put 8 f))).

(** [os.ReadFile]: the floor is 0 when it cannot be read. *)
Definition readFloor : M Z :=
  r ← try sys;
  ff ← gets floorFile;
  match r, ff with
  | inl _, Some b => if blen b <? 8 then mret 0 else lift (le_get 8 b)
  | _, _ => mret 0
  end.

(** ** Log operations *)

Definition lastIdx (w : WAL) : Z :=
  if blen (offsets w) =? 0 then 0 else u64 (first w + blen (offsets w) - 1).
Definition lastLocked : M Z := gets lastIdx.

Definition FirstIndex : M Z := gets first.
Definition LastIndex : M Z := lastLocked.

Definition segAt (i : Z) : M segment :=
  ss ← gets segs; oget (if 0 <=? i then ss !! Z.to_nat i else None).
Definition posAt (i : Z) : M recPos :=
  os ← gets offsets; oget (if 0 <=? i then os !! Z.to_nat i else None).

(** The entry is decoded into the caller's [out]. *)
Definition GetLog (index : Z) (out : Log) : M Log :=
  n ← gets (fun w => blen (offsets w));
  f ← gets first;
  l ← lastLocked;
  if (n =? 0) || (index <? f) || (l <? index) then throw ErrLogNotFound else
  pos ← posAt (u64 (index - f));
  s ← segAt (segIdx pos);
  buf ← fileReadAt (base s) (off pos) (rsize pos);
  payload ← lift (slice_from buf frameHdr);
  h ← lift (slice_from buf recLenSize);
  crc ← lift (le_get 4 h);
  if negb (crc =? ChecksumIEEE payload) then throw errCorrupt else
  match decodeInto payload out with
  | (l, Ok _) => mret l
  | (_, Err er) => throw er
  | (_, Panic) => panic
  end.

Definition resetLocked : M unit :=
  ss ← gets segs;
  removeSegs ss;;
  modify (setSegs []);;
  modify (setOffsets []);;
  modify (setFirst 0);;
  ff ← gets floorFile;
  fl ← match ff with
       | None => mret false
       | Some _ =>
           r ← try sys;
           match r with inl _ => modify (setFloorFile None);; mret true | inr _ => mret false end
       end;
  if ((0 <? blen ss) || fl) && sync e then syncDir else mret tt.

Definition truncateFrontLocked (newFirst : Z) : M unit :=
  f ← gets first;
  os ← gets offsets;
  let drop_ := u64 (newFirst - f) in
  if blen os <=? drop_ then resetLocked else
  modify (setOffsets (drop (Z.to_nat drop_) os));;
  modify (setFirst newFirst);;
  writeFloorLocked;;
  p0 ← posAt 0;
  let firstSeg := segIdx p0 in
  if firstSeg =? 0 then mret tt else
  ss ← gets segs;
  removeSegs (take (Z.to_nat firstSeg) ss);;
  modify (setSegs (drop (Z.to_nat firstSeg) ss));;
  modify (fun w => setOffsets ((fun p => MkPos (segIdx p - firstSeg) (off p) (rsize p)) <$> offsets w) w);;
  if sync e then syncDir else mret tt.

(** Sets the size of the segment at index [i]. *)
Definition setSize (i : Z) (n : Z) : M unit :=
  s ← segAt i;
  modify (fun w => setSegs (<[Z.to_nat i := MkSeg (base s) n (sid s)]> (segs w)) w).

Definition truncateTailLocked (newFirstRemoved : Z) : M unit :=
  f ← gets first;
  let keepN := u64 (newFirstRemoved - f) in
  pos ← posAt keepN;
  modify (fun w => setOffsets (take (Z.to_nat keepN) (offsets w)) w);;
  seg ← segAt (segIdx pos);
  ss ← gets segs;
  let removed := segIdx pos + 1 <? blen ss in
  removeSegs (drop (Z.to_nat (segIdx pos + 1)) ss);;
  modify (setSegs (take (Z.to_nat (segIdx pos + 1)) ss));;
  fileTruncate (base seg) (off pos);;
  setSize (segIdx pos) (off pos);;
  if sync e then
    fsync;;
    if removed then syncDir else mret tt
  else mret tt.

Definition DeleteRange (minIdx maxIdx : Z) : M unit :=
  p ← gets poisoned;
  if p : bool then throw ErrWALPoisoned else
  n ← gets (fun w => blen (offsets w));
  if n =? 0 then mret tt else
  last ← lastLocked;
  f ← gets first;
  let minIdx := if minIdx <? f then f else minIdx in
  let maxIdx := if last <? maxIdx then last else maxIdx in
  if maxIdx <? minIdx then mret tt
  else if (minIdx =? f) && (maxIdx =? last) then resetLocked
  else if minIdx =? f then truncateFrontLocked (u64 (maxIdx + 1))
  else if maxIdx =? last then truncateTailLocked minIdx
  else throw errMiddleDelete.

Definition addSegmentLocked (b : Z) : M unit :=
  n ← gets calls;
  sys;;
  modify (fun w => setFiles (<[b := []]> (files w)) w);;
  modify (fun w => setSegs (segs w ++ [MkSeg b 0 n]) w).

Definition activeSeg : M segment := n ← gets (fun w => blen (segs w)); segAt (n - 1).

Definition appendLocked (l : Log) : M unit :=
  last ← lastLocked;
  n ← gets (fun w => blen (offsets w));
  f ← gets first;
  (if (n =? 0) || (Index l =? u64 (last + 1)) then mret tt
   else if (f <=? Index l) && (Index l <=? last) then truncateTailLocked (Index l)
   else resetLocked);;
  k ← gets (fun w => blen (segs w));
  (if k =? 0 then addSegmentLocked (Index l)
   else
     act ← activeSeg;
     if maxSeg e <=? size act then addSegmentLocked (Index l) else mret tt);;
  act ← activeSeg;
  encBuf ← lift (appendRecord [] l);
  let o := size act in
  fileWriteAt (base act) o encBuf;;
  k ← gets (fun w => blen (segs w));
  setSize (k - 1) (o + blen encBuf);;
  modify (fun w => if blen (offsets w) =? 0 then setFirst (Index l) w else w);;
  modify (fun w => setOffsets (offsets w ++ [MkPos (k - 1) o (blen encBuf)]) w).

Fixpoint appendAll (ls : list Log) : M unit :=
  match ls with [] => mret tt | l :: ls => appendLocked l;; appendAll ls end.

(** One [fsync] per open segment. *)
Fixpoint fsyncAll (ss : list segment) : M unit :=
  match ss with [] => mret tt | _ :: ss => fsync;; fsyncAll ss end.

Definition StoreLogs (ls : list Log) : M unit :=
  if blen ls =? 0 then mret tt else
  p ← gets poisoned;
  if p : bool then throw ErrWALPoisoned else
  pre ← gets segs;
  appendAll ls;;
  if negb (sync e) then mret tt else
  ss ← gets segs;
  fsyncAll ss;;
  act ← activeSeg;
  if negb (bool_decide (Some (sid act) = sid <$> list.last pre)) || negb (blen ss =? blen pre) then syncDir else mret tt.

Definition StoreLog (l : Log) : M unit := StoreLogs [l].

(** ** The stable map *)

Definition stableRecord (x : bytes * bytes) : bytes :=
  le_put 4 (u32 (blen x.1)) ++ x.1 ++ le_put 4 (u32 (blen x.2)) ++ x.2.
Definition stableBytes (m : gmap bytes bytes) : bytes := mjoin (stableRecord <$> order e m).

Definition writeStableLocked : M unit :=
  m ← gets kv;
  let buf := stableBytes m in
  writeFileDurable (setStableFile (Some (buf ++ le_put 4 (ChecksumIEEE buf)))).

Definition Set_ (key val : bytes) : M unit :=
  p ← gets poisoned;
  if p : bool then throw ErrWALPoisoned else
  modify (fun w => setKv (<[key := val]> (kv w)) w);;
  writeStableLocked.

Definition Get (key : bytes) : M bytes :=
  p ← gets poisoned;
  if p : bool then throw ErrWALPoisoned else
  gets (fun w => default [] (kv w !! key)).

Definition SetUint64 (key : bytes) (val : Z) : M unit := Set_ key (le_put 8 val).
Definition GetUint64 (key : bytes) : M Z :=
  v ← Get key;
  if blen v <? 8 then mret 0 else lift (le_get 8 v).

Fixpoint loadStable_loop (fuel : nat) (p : bytes) : M unit :=
  match fuel with
  | O => mret tt
  | S fuel =>
      if blen p <? 4 then mret tt else
      kl ← lift (le_get 4 p);
      p ← lift (slice_from p 4);
      if u32 (blen p) <? u32 (kl + 4) then mret tt else
      k ← lift (slice p 0 kl);
      p ← lift (slice_from p kl);
      vl ← lift (le_get 4 p);
      p ← lift (slice_from p 4);
      if u32 (blen p) <? vl then mret tt else
      v ← lift (slice p 0 vl);
      modify (fun w => setKv (<[k := v]> (kv w)) w);;
      p ← lift (slice_from p vl);
      loadStable_loop fuel p
  end.

Definition loadStable : M unit :=
  sf ← gets stableFile;
  match sf with
  | None => mret tt
  | Some buf =>
      sys;;
      if blen buf <? 4 then throw errCorrupt else
      payload ← lift (slice buf 0 (blen buf - 4));
      t ← lift (slice_from buf (blen buf - 4));
      crc ← lift (le_get 4 t);
      if negb (crc =? ChecksumIEEE payload) then throw errCorrupt else
      loadStable_loop (S (length payload)) payload
  end.

(** ** Recovery *)

(** [stopScan]: the segment being scanned is the last of [segs]. *)
Definition stopScan (b o : Z) : M unit :=
  fileTruncate b o;;
  k ← gets (fun w => blen (segs w));
  setSize (k - 1) o.

(** Returns whether the segment was torn, and the next expected index and the
    last term. *)
Fixpoint scan_loop (fuel : nat) (b fileSize o expected lastTerm floor : Z) : M (bool * Z * Z) :=
  match fuel with
  | O => panic
  | S fuel =>
      if o <? fileSize then
        let stop := stopScan b o;; mret (true, expected, lastTerm) in
        if fileSize <? o + frameHdr then stop else
        hdr ← fileReadAt b o frameHdr;
        h4 ← lift (slice hdr 0 recLenSize);
        recLen ← lift (le_get 4 h4);
        if (recLen <? crcSize) || (maxRecBytes <? recLen) then stop else
        let total := recLenSize + recLen in
        if fileSize <? o + total then stop else
        buf ← fileReadAt b o total;
        payload ← lift (slice_from buf frameHdr);
        c4 ← lift (slice buf recLenSize frameHdr);
        crc ← lift (le_get 4 c4);
        if negb (crc =? ChecksumIEEE payload) then stop else
        idx ← lift (le_get 8 payload);
        p8 ← lift (slice_from payload 8);
        term ← lift (le_get 8 p8);
        if idx <? floor then scan_loop fuel b fileSize (o + total) expected lastTerm floor else
        if negb (expected =? 0) && negb (idx =? expected) then stop else
        if term <? lastTerm then stop else
        modify (fun w => if blen (offsets w) =? 0 then setFirst idx w else w);;
        k ← gets (fun w => blen (segs w));
        modify (fun w => setOffsets (offsets w ++ [MkPos (k - 1) o total]) w);;
        scan_loop fuel b fileSize (o + total) (u64 (idx + 1)) term floor
      else
        k ← gets (fun w => blen (segs w));
        setSize (k - 1) fileSize;;
        mret (false, expected, lastTerm)
  end.

Definition scanSegment (b expected lastTerm floor : Z) : M (bool * Z * Z) :=
  sys;;
  c ← contents b;
  scan_loop (S (length c)) b (blen c) 0 expected lastTerm floor.

Fixpoint recover_loop (bases : list Z) (expected lastTerm floor : Z) : M unit :=
  match bases with
  | [] => mret tt
  | b :: bases =>
      n ← gets calls;
      sys;;
      modify (fun w => setSegs (segs w ++ [MkSeg b 0 n]) w);;
      r ← try (scanSegment b expected lastTerm floor);
      match r with
      | inr er => modify (setSegs []);; throw er
      | inl (torn, expected, lastTerm) =>
          if torn : bool then mret tt else recover_loop bases expected lastTerm floor
      end
  end.

Definition recover : M unit :=
  sys;;
  bases ← gets (fun w => merge_sort Z.le (fst <$> map_to_list (files w)));
  floor ← readFloor;
  recover_loop bases 0 0 floor.

(** The process starts with what is on disk. *)
Definition boot (w : WAL) : WAL := MkWAL [] 0 [] false ∅ (files w) (floorFile w) (stableFile w) (calls w).

Definition OpenWAL : M unit := modify boot;; sys;; recover;; loadStable.

(** [Close]: every segment and the directory are synced; the first error is
    returned. *)
Fixpoint closeSync (ss : list segment) (er : option lerr) : M (option lerr) :=
  match ss with
  | [] => mret er
  | _ :: ss =>
      r ← try sys;
      match r, er with
      | inr x, None => modify setPoisoned;; closeSync ss (Some x)
      | _, _ => closeSync ss er
      end
  end.

Fixpoint closeFiles (ss : list segment) (er : option lerr) : M (option lerr) :=
  match ss with
  | [] => mret er
  | _ :: ss =>
      r ← try sys;
      closeFiles ss (match r, er with inr x, None => Some x | _, _ => er end)
  end.

Definition Close : M unit :=
  ss ← gets segs;
  er ← closeSync ss None;
  er ← (if 0 <? blen ss then
          r ← try syncDir;
          mret (match r, er with inr x, None => Some x | _, _ => er end)
        else mret er);
  er ← closeFiles ss er;
  modify (setSegs []);;
  match er with None => mret tt | Some x => throw x end.

End Ops.

End Wal.
