(* ===== verification/WalInv.v ===== *)
(** * The invariant of the durable log.

    The segment files hold the frames of consecutive entries, [ess] per segment;
    the first [dead] of them are below the compaction floor and the rest is the
    log. *)
From stdpp Require Import sorting.
From S2P Require Import Prelude Crc32 LogCodec MemLog Wal.
Import Crc32 LogCodec Wal.

Definition frames (es : list Log) : bytes := mjoin (frame <$> es).

Arguments frames : simpl never.
Arguments frame : simpl never.

Lemma frames_app a b : frames (a ++ b) = frames a ++ frames b.
Proof. unfold frames. by rewrite fmap_app, join_app. Qed.

Lemma frames_cons l es : frames (l :: es) = frame l ++ frames es.
Proof. done. Qed.

Lemma frames_snoc es l : frames (es ++ [l]) = frames es ++ frame l.
Proof. rewrite frames_app. unfold frames at 2. cbn. by rewrite app_nil_r. Qed.

Lemma frame_pos l : 0 < blen (frame l).
Proof. rewrite frame_len. pose proof (blen_nonneg (Data l)). pose proof (blen_nonneg (Extensions l)). lia. Qed.

Lemma frames_pos es : es <> [] -> 0 < blen (frames es).
Proof. destruct es as [|l es]; [done|]. rewrite frames_cons, blen_app. pose proof (frame_pos l). pose proof (blen_nonneg (frames es)). lia. Qed.

(** ** Positions of the records *)

Fixpoint seg_positions (k o : Z) (es : list Log) : list recPos :=
  match es with
  | [] => []
  | l :: es => MkPos k o (blen (frame l)) :: seg_positions k (o + blen (frame l)) es
  end.

Fixpoint positions (k : Z) (ess : list (list Log)) : list recPos :=
  match ess with
  | [] => []
  | es :: ess => seg_positions k 0 es ++ positions (k + 1) ess
  end.

Lemma seg_positions_len k o es : length (seg_positions k o es) = length es.
Proof. revert o. induction es; intros o; cbn; auto. Qed.

Lemma positions_len k ess : length (positions k ess) = length (mjoin ess).
Proof. revert k. induction ess as [|es ess IH]; intros k; [done|]. cbn. by rewrite !length_app, seg_positions_len, IH. Qed.

Lemma seg_positions_app k o a b : seg_positions k o (a ++ b) = seg_positions k o a ++ seg_positions k (o + blen (frames a)) b.
Proof.
  revert o. induction a as [|l a IH]; intros o; cbn [app seg_positions].
  - f_equal. change (frames []) with (@nil byte). rewrite blen_nil. lia.
  - cbn. f_equal. rewrite IH. do 2 f_equal. rewrite frames_cons, blen_app. lia.
Qed.

Lemma positions_app k a b : positions k (a ++ b) = positions k a ++ positions (k + blen a) b.
Proof.
  revert k. induction a as [|es a IH]; intros k; cbn [app positions].
  - by rewrite blen_nil, Z.add_0_r.
  - rewrite IH, <- app_assoc. do 2 f_equal. rewrite blen_cons. f_equal. lia.
Qed.

Lemma positions_snoc pre es l :
  positions 0 (pre ++ [es ++ [l]]) = positions 0 (pre ++ [es]) ++ [MkPos (blen pre) (blen (frames es)) (blen (frame l))].
Proof.
  rewrite !positions_app. cbn [positions]. rewrite seg_positions_app. cbn [seg_positions]. by rewrite !app_nil_r, app_assoc, !Z.add_0_l.
Qed.

(** Renumbering the segments after the first ones are gone. *)
Definition rebase (d : Z) (p : recPos) : recPos := MkPos (segIdx p - d) (off p) (rsize p).

Lemma seg_positions_rebase d k o es : rebase d <$> seg_positions k o es = seg_positions (k - d) o es.
Proof. revert o. induction es as [|l es IH]; intros o; [done|]. cbn. f_equal. apply IH. Qed.

Lemma positions_rebase d k ess : rebase d <$> positions k ess = positions (k - d) ess.
Proof.
  revert k. induction ess as [|es ess IH]; intros k; [done|]. cbn [positions].
  rewrite fmap_app, seg_positions_rebase, IH. do 2 f_equal. lia.
Qed.

(** The segment and the record at a position. *)
Lemma seg_position_at k o es n p : seg_positions k o es !! n = Some p ->
  exists a l b, es = a ++ l :: b /\ length a = n /\ p = MkPos k (o + blen (frames a)) (blen (frame l)).
Proof.
  revert o n. induction es as [|l es IH]; intros o n; [done|]. destruct n as [|n]; cbn.
  - intros [= <-]. exists [], l, es. split_and!; try done. f_equal. change (frames []) with (@nil byte). rewrite blen_nil. lia.
  - intros (a & x & b & -> & <- & ->)%IH. exists (l :: a), x, b. split_and!; try done. f_equal. rewrite frames_cons, blen_app. lia.
Qed.

Lemma position_at k ess n p : positions k ess !! n = Some p ->
  exists pre a l b post, ess = pre ++ (a ++ l :: b) :: post /\ n = (length (mjoin pre) + length a)%nat /\
    p = MkPos (k + blen pre) (blen (frames a)) (blen (frame l)).
Proof.
  revert k n. induction ess as [|es ess IH]; intros k n; [done|]. cbn [positions]. rewrite lookup_app_Some.
  intros [(a & l & b & -> & Hn & ->)%seg_position_at|[Hn Hp]].
  - exists [], a, l, b, ess. split_and!; try done. f_equal. rewrite blen_nil. lia.
  - rewrite seg_positions_len in *. apply IH in Hp as (pre & a & l & b & post & -> & Hn' & ->).
    exists (es :: pre), a, l, b, post. split_and!; try done.
    + change (mjoin (es :: pre)) with (es ++ mjoin pre). rewrite length_app. lia.
    + f_equal. rewrite blen_cons. lia.
Qed.

Lemma join_at {A} pre (a : list A) l b post :
  mjoin (pre ++ (a ++ l :: b) :: post) = (mjoin pre ++ a) ++ l :: b ++ mjoin post.
Proof. rewrite join_app. change (mjoin (?x :: post)) with (x ++ mjoin post). by rewrite <- !app_assoc. Qed.

(** ** The disk *)

Definition disk (fs : gmap Z bytes) (bs : list Z) (cs : list bytes) : Prop :=
  length bs = length cs /\ forall b c, fs !! b = Some c <-> exists i, bs !! i = Some b /\ cs !! i = Some c.

Lemma disk_lookup fs bs cs i b c : disk fs bs cs -> bs !! i = Some b -> cs !! i = Some c -> fs !! b = Some c.
Proof. intros [_ H] ? ?. apply H. eauto. Qed.

Lemma disk_set fs bs cs i b c : disk fs bs cs -> NoDup bs -> bs !! i = Some b ->
  disk (<[b := c]> fs) bs (<[i := c]> cs).
Proof.
  intros [Hl H] Hd Hb. split; [by rewrite length_insert|]. intros b' c'. rewrite lookup_insert_Some. split.
  - intros [[<- <-]|[Hne (j & Hj & Hc)%H]].
    + exists i. split; [done|]. apply list_lookup_insert_eq. rewrite <- Hl. by eapply lookup_lt_Some.
    + exists j. split; [done|]. rewrite list_lookup_insert_ne; [done|]. congruence.
  - intros (j & Hj & Hc). destruct (decide (i = j)) as [->|Hij].
    + left. rewrite list_lookup_insert_eq in Hc by (rewrite <- Hl; by eapply lookup_lt_Some). split; congruence.
    + rewrite list_lookup_insert_ne in Hc by done. right. split; [|apply H; eauto].
      intros ->. apply Hij. by eapply NoDup_lookup.
Qed.

Lemma disk_snoc fs bs cs b c : disk fs bs cs -> b ∉ bs -> disk (<[b := c]> fs) (bs ++ [b]) (cs ++ [c]).
Proof.
  intros [Hl H] Hb. split; [rewrite !length_app; cbn; lia|]. intros b' c'. rewrite lookup_insert_Some. split.
  - intros [[<- <-]|[Hne (j & Hj & Hc)%H]].
    + exists (length bs). split; [by rewrite lookup_app_r, Nat.sub_diag by lia|]. by rewrite lookup_app_r, Hl, Nat.sub_diag by lia.
    + exists j. split; by apply lookup_app_l_Some.
  - intros (j & Hj & Hc). apply lookup_app_Some in Hj as [Hj|[Hj Hj']].
    + right. split; [intros <-; apply Hb; by eapply list_elem_of_lookup_2|]. apply H. exists j. split; [done|].
      rewrite lookup_app_l in Hc; [done|]. rewrite <- Hl. by eapply lookup_lt_Some.
    + apply list_lookup_singleton_Some in Hj' as [Hz ->]. rewrite lookup_app_r in Hc by lia. rewrite <- Hl, Hz in Hc.
      left. by injection Hc as <-.
Qed.

Definition removeAll (bs : list Z) (fs : gmap Z bytes) : gmap Z bytes := foldl (fun fs b => delete b fs) fs bs.

Lemma removeAll_lookup bs fs b : removeAll bs fs !! b = if decide (b ∈ bs) then None else fs !! b.
Proof.
  revert fs. induction bs as [|x bs IH]; intros fs; [by rewrite decide_False by (apply not_elem_of_nil)|].
  cbn. fold (removeAll bs (delete x fs)). rewrite IH. destruct (decide (b ∈ bs)).
  - by rewrite decide_True by (by constructor).
  - destruct (decide (x = b)) as [->|Hne].
    + rewrite decide_True by constructor. apply lookup_delete_eq.
    + rewrite decide_False by (intros [?|?]%elem_of_cons; congruence). by apply lookup_delete_ne.
Qed.

(** Removing part of the files leaves the others. *)
Lemma disk_remove fs bs cs n (front : bool) : disk fs bs cs -> NoDup bs ->
  disk (removeAll (if front then take n bs else drop n bs) fs)
    (if front then drop n bs else take n bs) (if front then drop n cs else take n cs).
Proof.
  intros [Hl H] Hd. pose proof (NoDup_lookup bs) as Hinj.
  split; [destruct front; rewrite ?length_drop, ?length_take; lia|]. intros b c. rewrite removeAll_lookup. split.
  - destruct (decide _) as [|Hn]; [done|]. intros (i & Hi & Hc)%H. destruct front.
    + destruct (decide (i < n)%nat).
      { exfalso. apply Hn. apply list_elem_of_lookup. exists i. by rewrite lookup_take_lt. }
      exists (i - n)%nat. rewrite !lookup_drop. by replace (n + (i - n))%nat with i by lia.
    + destruct (decide (i < n)%nat); [exists i; by rewrite !lookup_take_lt|].
      exfalso. apply Hn. apply list_elem_of_lookup. exists (i - n)%nat. rewrite lookup_drop.
      by replace (n + (i - n))%nat with i by lia.
  - intros (i & Hi & Hc). destruct front.
    + rewrite lookup_drop in Hi. rewrite lookup_drop in Hc. rewrite decide_False; [apply H; eauto|].
      intros [j Hj]%list_elem_of_lookup. apply lookup_take_Some in Hj as [Hj ?].
      pose proof (Hinj _ _ _ Hd Hi Hj). lia.
    + apply lookup_take_Some in Hi as [Hi ?], Hc as [Hc _]. rewrite decide_False; [apply H; eauto|].
      intros [j Hj]%list_elem_of_lookup. rewrite lookup_drop in Hj. pose proof (Hinj _ _ _ Hd Hi Hj). lia.
Qed.

(** ** The invariant *)

Definition floorOf (ff : option bytes) : Z :=
  match ff with Some b => if blen b <? 8 then 0 else le_combine (take 8 b) | None => 0 end.

Record core (w : WAL) (ess : list (list Log)) (dead : nat) (g : Z) : Prop := {
  c_sizes : size <$> segs w = (fun es => blen (frames es)) <$> ess;
  c_disk : disk (files w) (base <$> segs w) (frames <$> ess);
  c_bases : StronglySorted Z.lt (base <$> segs w);
  c_starts : forall i s, segs w !! i = Some s -> base s <= g + blen (mjoin (take i ess));
  c_offs : offsets w = drop dead (positions 0 ess);
  c_cont : contiguous g (mjoin ess);
  c_ok : Forall entry_ok (mjoin ess);
  c_dead : (dead <= length (mjoin ess))%nat;
  c_first : (dead < length (mjoin ess))%nat -> first w = g + Z.of_nat dead;
  c_floor : forall i x, mjoin ess !! i = Some x -> (i < dead)%nat <-> Index x < floorOf (floorFile w);
  c_next : 0 <= g /\ floorOf (floorFile w) <= g + blen (mjoin ess);
}.

(** The same files, index and floor. *)
Definition same_log (w w' : WAL) : Prop :=
  segs w' = segs w /\ first w' = first w /\ offsets w' = offsets w /\ files w' = files w /\ floorFile w' = floorFile w.

Lemma core_same w w' ess dead g : same_log w w' -> core w ess dead g -> core w' ess dead g.
Proof. intros (E1 & E2 & E3 & E4 & E5) [H1 H2 H3 H4 H5 H6 H7 H8 H9 H10 H11]. split; by rewrite ?E1, ?E2, ?E3, ?E4, ?E5. Qed.

(** The state holds the log [es]. *)
Definition wal_holds (w : WAL) (es : list Log) : Prop :=
  poisoned w = false /\ exists ess dead g, core w ess dead g /\ es = drop dead (mjoin ess) /\
    (es = [] -> segs w = [] /\ first w = 0 /\ floorOf (floorFile w) = 0).

Section Core.
Context (w : WAL) (ess : list (list Log)) (dead : nat) (g : Z) (Hc : core w ess dead g).

Lemma core_nodup : NoDup (base <$> segs w).
Proof.
  pose proof (c_bases _ _ _ _ Hc) as Hs. induction Hs as [|x l Hs IH Hf]; constructor; [|done].
  intros Hx. rewrite Forall_forall in Hf. specialize (Hf _ Hx). lia.
Qed.

Lemma core_segs_len : length (segs w) = length ess.
Proof. pose proof (f_equal length (c_sizes _ _ _ _ Hc)) as H. by rewrite !length_fmap in H. Qed.

Lemma core_offs_len : blen (offsets w) = blen (mjoin ess) - Z.of_nat dead.
Proof. rewrite (c_offs _ _ _ _ Hc). rewrite blen_drop. unfold blen. rewrite positions_len. pose proof (c_dead _ _ _ _ Hc). lia. Qed.

Lemma core_live_wf : log_wf (drop dead (mjoin ess)).
Proof.
  pose proof (c_dead _ _ _ _ Hc) as Hd. destruct (c_next _ _ _ _ Hc) as [Hg _].
  destruct (last (mjoin ess)) as [x|] eqn:E1; [|apply last_None in E1; by rewrite E1, drop_nil].
  apply (log_wf_intro (g + Z.of_nat dead)); [by apply contiguous_drop, (c_cont _ _ _ _ Hc)|lia|].
  pose proof (c_ok _ _ _ _ Hc) as Hok. rewrite last_lookup in E1. pose proof (lookup_lt_Some _ _ _ E1).
  pose proof (Forall_lookup_1 _ _ _ _ Hok E1) as [_ Hx]. apply (c_cont _ _ _ _ Hc) in E1. len.
Qed.

(** The bound that keeps the indexes within 64 bits. *)
Lemma core_bound : mjoin ess <> [] -> g + blen (mjoin ess) < 2 ^ 64.
Proof.
  intros Hne. destruct (last (mjoin ess)) as [x|] eqn:E1; [|by apply last_None in E1].
  pose proof (c_ok _ _ _ _ Hc) as Hok. rewrite last_lookup in E1.
  pose proof (Forall_lookup_1 _ _ _ _ Hok E1) as [_ Hx]. apply (c_cont _ _ _ _ Hc) in E1.
  unfold blen. destruct (length (mjoin ess)) eqn:E2; [by destruct (mjoin ess)|]. lia.
Qed.

Lemma core_live_first : drop dead (mjoin ess) <> [] -> firstOf (drop dead (mjoin ess)) = first w /\ first w = g + Z.of_nat dead.
Proof.
  intros Hne. assert (Hlt : (dead < length (mjoin ess))%nat).
  { destruct (decide (dead < length (mjoin ess))%nat); [done|]. exfalso. apply Hne. apply drop_ge. lia. }
  rewrite (c_first _ _ _ _ Hc Hlt). split; [|done]. destruct (drop dead (mjoin ess)) as [|x r] eqn:E1; [done|].
  pose proof (contiguous_drop _ _ dead (c_cont _ _ _ _ Hc)) as Hcd. rewrite E1 in Hcd. by apply contiguous_first in Hcd.
Qed.

Lemma core_lastIdx : lastIdx w = lastOf (drop dead (mjoin ess)).
Proof.
  unfold lastIdx. rewrite core_offs_len. pose proof (c_dead _ _ _ _ Hc). destruct (Z.eqb_spec (blen (mjoin ess) - Z.of_nat dead) 0) as [H0|H0].
  - unfold blen in H0. rewrite drop_ge by lia. done.
  - assert (Hne : drop dead (mjoin ess) <> []).
    { intros Hn. apply (f_equal length) in Hn. rewrite length_drop in Hn. cbn in Hn. unfold blen in H0. lia. }
    destruct (core_live_first Hne) as [Hf Hg]. rewrite (log_wf_last _ core_live_wf Hne), Hf.
    rewrite blen_drop. destruct core_live_wf as (_ & Hf0 & Hb). rewrite Hf, blen_drop in Hb. rewrite Hf in Hf0.
    rewrite wrap_fits by (unfold fits; unfold blen in *; lia). unfold blen in *. lia.
Qed.

Lemma core_offs_empty : (blen (offsets w) =? 0) = bool_decide (drop dead (mjoin ess) = []).
Proof.
  rewrite core_offs_len. pose proof (c_dead _ _ _ _ Hc). destruct (Z.eqb_spec (blen (mjoin ess) - Z.of_nat dead) 0) as [H0|H0].
  - symmetry. apply bool_decide_eq_true. apply drop_ge. unfold blen in H0. lia.
  - symmetry. apply bool_decide_eq_false. intros Hn. apply (f_equal length) in Hn. rewrite length_drop in Hn. cbn in Hn. unfold blen in H0. lia.
Qed.

(** The record of the entry with index [i]. *)
Lemma core_pos i : drop dead (mjoin ess) <> [] -> first w <= i <= lastIdx w ->
  exists pre a l b post s,
    ess = pre ++ (a ++ l :: b) :: post /\ (dead <= length (mjoin pre) + length a)%nat /\
    Z.of_nat (length (mjoin pre) + length a - dead) = i - first w /\
    getEntry (drop dead (mjoin ess)) i = Some l /\ Index l = i /\ entry_ok l /\
    offsets w !! Z.to_nat (i - first w) = Some (MkPos (blen pre) (blen (frames a)) (blen (frame l))) /\
    segs w !! length pre = Some s /\ files w !! base s = Some (frames (a ++ l :: b)).
Proof.
  intros Hne Hi. destruct (core_live_first Hne) as [Hf Hg]. pose proof (log_wf_last _ core_live_wf Hne) as Hl.
  rewrite core_lastIdx, Hl, Hf, blen_drop in Hi. pose proof (c_dead _ _ _ _ Hc) as Hd.
  set (n := (dead + Z.to_nat (i - first w))%nat). assert (Hn : (n < length (positions 0 ess))%nat) by (rewrite positions_len; unfold blen in *; lia).
  destruct (lookup_lt_is_Some_2 _ _ Hn) as [p Hp]. pose proof Hp as (pre & a & l & b & post & He & Hnn & ->)%position_at.
  rewrite Z.add_0_l in Hp.
  assert (Hlen : (length pre < length (segs w))%nat) by (rewrite core_segs_len, He, length_app; cbn; lia).
  destruct (lookup_lt_is_Some_2 _ _ Hlen) as [s Hs].
  assert (Hal : mjoin ess !! n = Some l).
  { rewrite He, join_at, Hnn. rewrite lookup_app_r by (rewrite length_app; lia). by rewrite length_app, Nat.sub_diag. }
  exists pre, a, l, b, post, s. split; [done|]. split; [lia|]. split; [lia|].
  pose proof (c_cont _ _ _ _ Hc _ _ Hal) as Hil.
  split.
  { rewrite (getEntry_lookup (g + Z.of_nat dead)); [|by apply contiguous_drop, (c_cont _ _ _ _ Hc)|lia].
    rewrite lookup_drop, <- Hal. f_equal. lia. }
  split; [lia|]. split; [by apply (Forall_lookup_1 _ _ _ _ (c_ok _ _ _ _ Hc) Hal)|].
  split; [rewrite (c_offs _ _ _ _ Hc), lookup_drop; done|]. split; [done|].
  eapply (disk_lookup _ _ _ (length pre) _ _ (c_disk _ _ _ _ Hc)); [by rewrite list_lookup_fmap, Hs|].
  rewrite list_lookup_fmap, He, lookup_app_r, Nat.sub_diag by lia. done.
Qed.

End Core.

(** ** Cutting the log at a record *)

Lemma core_segs_at w ess dead g pre es post : core w ess dead g -> ess = pre ++ es :: post ->
  exists ss1 s ss2, segs w = ss1 ++ s :: ss2 /\ length ss1 = length pre /\ size s = blen (frames es).
Proof.
  intros Hc ->. pose proof (core_segs_len _ _ _ _ Hc) as Hl. rewrite length_app in Hl. cbn in Hl.
  destruct (segs w !! length pre) as [s|] eqn:E1; [|apply lookup_ge_None in E1; lia].
  exists (take (length pre) (segs w)), s, (drop (S (length pre)) (segs w)).
  split; [symmetry; by apply take_drop_middle|]. split; [rewrite length_take; lia|].
  pose proof (c_sizes _ _ _ _ Hc) as Hs. apply (f_equal (fun x => x !! length pre)) in Hs.
  rewrite !list_lookup_fmap, E1, lookup_app_r, Nat.sub_diag in Hs by lia. by injection Hs.
Qed.

Lemma take_S_app {A} (a : list A) x b n : length a = n -> take (S n) (a ++ x :: b) = a ++ [x].
Proof. intros <-. rewrite take_app. rewrite take_ge by lia. by replace (S (length a) - length a)%nat with 1%nat by lia. Qed.

Lemma drop_S_app {A} (a : list A) x b n : length a = n -> drop (S n) (a ++ x :: b) = b.
Proof. intros <-. rewrite drop_app. rewrite drop_ge by lia. by replace (S (length a) - length a)%nat with 1%nat by lia. Qed.

Lemma insert_app_at {A} (a : list A) x y b n : length a = n -> <[n := y]> (a ++ x :: b) = a ++ y :: b.
Proof. intros <-. by rewrite insert_app_r_alt, Nat.sub_diag by lia. Qed.

Lemma core_cut w w' ess dead g pre a l b post ss1 s ss2 n :
  core w ess dead g -> ess = pre ++ (a ++ l :: b) :: post -> n = (length (mjoin pre) + length a)%nat -> (dead <= n)%nat ->
  segs w = ss1 ++ s :: ss2 -> length ss1 = length pre ->
  segs w' = ss1 ++ [MkSeg (base s) (blen (frames a)) (sid s)] ->
  first w' = first w -> offsets w' = take (n - dead) (offsets w) -> floorFile w' = floorFile w ->
  files w' = <[base s := frames a]> (removeAll (base <$> ss2) (files w)) ->
  core w' (pre ++ [a]) dead g /\ mjoin (pre ++ [a]) = take n (mjoin ess).
Proof.
  intros Hc He Hn Hd Hs Hl Hs' Hf Ho Hff Hfs.
  assert (Hj : mjoin ess = (mjoin pre ++ a) ++ l :: b ++ mjoin post) by (by rewrite He, join_at).
  assert (Hm : mjoin (pre ++ [a]) = take n (mjoin ess)).
  { rewrite Hj, join_app. cbn. rewrite app_nil_r. rewrite take_app_length'; [done|]. rewrite length_app. lia. }
  split; [|done]. assert (Hlen : length (mjoin (pre ++ [a])) = n).
  { rewrite join_app. cbn. rewrite app_nil_r, length_app. lia. }
  assert (Hll : mjoin ess !! n = Some l) by (rewrite Hj, lookup_app_r by (rewrite length_app; lia); by rewrite length_app, Hn, Nat.sub_diag).
  assert (Hpre : forall i x, mjoin (pre ++ [a]) !! i = Some x -> mjoin ess !! i = Some x).
  { intros i x. rewrite Hm. by intros [? _]%lookup_take_Some. }
  split.
  - pose proof (c_sizes _ _ _ _ Hc) as H. rewrite Hs, He in H. rewrite !fmap_app in H. apply app_inj_1 in H as [H _]; [|by rewrite !length_fmap].
    rewrite Hs', !fmap_app. by rewrite H.
  - rewrite Hs', Hfs, !fmap_app. cbn [fmap list_fmap base].
    pose proof (disk_remove _ _ _ (S (length pre)) false (c_disk _ _ _ _ Hc) (core_nodup _ _ _ _ Hc)) as Hr. cbv iota in Hr.
    rewrite Hs, He, !fmap_app in Hr. cbn [fmap list_fmap] in Hr.
    rewrite drop_S_app, !take_S_app in Hr by (by rewrite length_fmap).
    pose proof (core_nodup _ _ _ _ Hc) as Hnd. rewrite Hs, fmap_app in Hnd. cbn [fmap list_fmap] in Hnd.
    apply (disk_set _ _ _ (length pre) (base s) (frames a)) in Hr.
    + rewrite insert_app_at in Hr by (by rewrite length_fmap). done.
    + change (base s :: (base <$> ss2)) with ([base s] ++ (base <$> ss2)) in Hnd. rewrite app_assoc in Hnd. by apply NoDup_app in Hnd as [? _].
    + rewrite lookup_app_r by (rewrite length_fmap; lia). rewrite length_fmap, Hl, Nat.sub_diag. done.
  - pose proof (c_bases _ _ _ _ Hc) as H. rewrite Hs, fmap_app in H. rewrite Hs', fmap_app. cbn [fmap list_fmap base] in *.
    change (base s :: (base <$> ss2)) with ([base s] ++ (base <$> ss2)) in H. rewrite app_assoc in H.
    by apply StronglySorted_app_1_l in H.
  - intros i x Hx. rewrite Hs' in Hx.
    assert (Hi : (i <= length pre)%nat) by (apply lookup_lt_Some in Hx; rewrite length_app in Hx; cbn in Hx; lia).
    assert (Ht : take i (pre ++ [a]) = take i ess) by (rewrite He; rewrite !take_app_le by lia; done).
    rewrite Ht. assert (exists y, segs w !! i = Some y /\ base y = base x) as (y & Hy & <-); [|by apply (c_starts _ _ _ _ Hc)].
    rewrite Hs. apply lookup_app_Some in Hx as [Hx|[Hi' Hx]].
    + exists x. split; [by apply lookup_app_l_Some|done].
    + apply list_lookup_singleton_Some in Hx as [Hz <-]. exists s. split; [|done].
      rewrite lookup_app_r by lia. by rewrite Hz.
  - rewrite Ho, (c_offs _ _ _ _ Hc), take_drop_commute. replace (dead + (n - dead))%nat with n by lia. f_equal.
    rewrite He. rewrite !positions_app. cbn [positions]. rewrite seg_positions_app, app_nil_r, <- app_assoc, app_assoc.
    rewrite take_app_length'; [done|]. rewrite length_app, positions_len, seg_positions_len. lia.
  - rewrite Hm. by apply contiguous_take, (c_cont _ _ _ _ Hc).
  - rewrite Hm. apply Forall_take, (c_ok _ _ _ _ Hc).
  - lia.
  - intros Hlt. rewrite Hf. apply (c_first _ _ _ _ Hc). apply lookup_lt_Some in Hll. lia.
  - intros i x Hx. rewrite Hff. by apply (c_floor _ _ _ _ Hc), Hpre.
  - rewrite Hff. split; [apply (c_next _ _ _ _ Hc)|].
    pose proof (c_floor _ _ _ _ Hc _ _ Hll) as Hx. pose proof (c_cont _ _ _ _ Hc _ _ Hll). unfold blen. rewrite Hlen. lia.
Qed.

(** ** Dropping the front *)

Lemma drop_add_app {A} (a b : list A) n : (length a <= n)%nat -> drop n (a ++ b) = drop (n - length a) b.
Proof. intros. by rewrite drop_app, drop_ge by lia. Qed.

(** Entries die below a new floor [nf], and the segments that hold none of the
    others go. *)
Lemma core_front w w' ess g dead dead' k :
  core w ess dead g -> (dead <= dead')%nat -> (dead' < length (mjoin ess))%nat ->
  (length (mjoin (take k ess)) <= dead')%nat -> (k <= length ess)%nat ->
  segs w' = drop k (segs w) -> files w' = removeAll (base <$> take k (segs w)) (files w) ->
  first w' = g + Z.of_nat dead' -> floorOf (floorFile w') = first w' ->
  offsets w' = rebase (Z.of_nat k) <$> drop (dead' - dead) (offsets w) ->
  core w' (drop k ess) (dead' - length (mjoin (take k ess))) (g + blen (mjoin (take k ess))) /\
  drop (dead' - length (mjoin (take k ess))) (mjoin (drop k ess)) = drop dead' (mjoin ess).
Proof.
  intros Hc Hdd Hlt Hk Hkl Hs Hfs Hf Hfl Ho. set (m := length (mjoin (take k ess))) in *.
  assert (Hj : mjoin ess = mjoin (take k ess) ++ mjoin (drop k ess)) by (by rewrite <- join_app, take_drop).
  assert (Hl : length (mjoin ess) = (m + length (mjoin (drop k ess)))%nat) by (by rewrite Hj, length_app).
  assert (Hb : blen (mjoin (take k ess)) = Z.of_nat m) by done.
  assert (Hlk : forall i x, mjoin (drop k ess) !! i = Some x -> mjoin ess !! (m + i)%nat = Some x).
  { intros i x Hx. rewrite Hj, lookup_app_r by lia. by replace (m + i - _)%nat with i by (unfold m; lia). }
  split; [|rewrite Hj; symmetry; by apply drop_add_app].
  split.
  - by rewrite Hs, !fmap_drop, (c_sizes _ _ _ _ Hc).
  - rewrite Hs, Hfs, !fmap_drop, fmap_take.
    exact (disk_remove _ _ _ k true (c_disk _ _ _ _ Hc) (core_nodup _ _ _ _ Hc)).
  - rewrite Hs, fmap_drop. pose proof (c_bases _ _ _ _ Hc) as H. rewrite <- (take_drop k (base <$> segs w)) in H.
    by apply StronglySorted_app_1_r in H.
  - intros i x. rewrite Hs, lookup_drop. intros Hx. pose proof (c_starts _ _ _ _ Hc _ _ Hx) as H.
    assert (Ht : mjoin (take (k + i) ess) = mjoin (take k ess) ++ mjoin (take i (drop k ess))).
    { rewrite <- join_app. f_equal. symmetry. apply take_take_drop. }
    rewrite Ht, blen_app in H. lia.
  - rewrite Ho, (c_offs _ _ _ _ Hc), drop_drop, fmap_drop. replace (dead + (dead' - dead))%nat with dead' by lia.
    rewrite positions_rebase. rewrite <- (take_drop k ess) at 1. rewrite positions_app.
    rewrite drop_add_app by (rewrite positions_len; fold m; lia). rewrite positions_len. fold m. do 2 f_equal.
    unfold blen. rewrite length_take. lia.
  - intros i x Hx%Hlk. apply (c_cont _ _ _ _ Hc) in Hx. lia.
  - pose proof (c_ok _ _ _ _ Hc) as H. rewrite Hj in H. by apply Forall_app in H as [_ H].
  - lia.
  - intros _. rewrite Hf. lia.
  - intros i x Hx%Hlk. rewrite Hfl, Hf. apply (c_cont _ _ _ _ Hc) in Hx. lia.
  - split; [pose proof (proj1 (c_next _ _ _ _ Hc)); lia|]. rewrite Hfl, Hf. unfold blen in *. lia.
Qed.

(** ** Extending the log *)

(** A new, empty segment. *)
Lemma core_rotate w w' ess dead g b n :
  core w ess dead g -> b = g + blen (mjoin ess) -> (forall s, last (segs w) = Some s -> base s < b) ->
  segs w' = segs w ++ [MkSeg b 0 n] -> files w' = <[b := []]> (files w) ->
  first w' = first w -> offsets w' = offsets w -> floorFile w' = floorFile w ->
  core w' (ess ++ [[]]) dead g.
Proof.
  intros Hc Hb Hlast Hs Hfs Hf Ho Hff.
  assert (Hj : mjoin (ess ++ [[]]) = mjoin ess) by (rewrite join_app; cbn; by rewrite !app_nil_r).
  assert (Hall : forall x, x ∈ base <$> segs w -> x < b).
  { intros x Hx. pose proof (c_bases _ _ _ _ Hc) as H. destruct (last (segs w)) as [s|] eqn:E1.
    - specialize (Hlast s eq_refl). apply last_Some in E1 as [l' Hl']. rewrite Hl', fmap_app in Hx, H.
      apply elem_of_app in Hx as [Hx|Hx%list_elem_of_singleton].
      + pose proof (StronglySorted_app_1_elem_of _ _ _ _ _ H Hx (list_elem_of_here _ _)). lia.
      + by subst x.
    - apply last_None in E1. rewrite E1 in Hx. by apply elem_of_nil in Hx. }
  split; rewrite ?Hs, ?Hff, ?Hj, ?Ho; try by apply Hc.
  - rewrite !fmap_app. by rewrite (c_sizes _ _ _ _ Hc).
  - rewrite Hfs, !fmap_app. cbn [fmap list_fmap base]. apply disk_snoc; [apply Hc|]. intros Hx%Hall. lia.
  - rewrite fmap_app. apply StronglySorted_app_2; [|apply Hc|repeat constructor].
    intros x y Hx Hy%list_elem_of_singleton. subst y. by apply Hall.
  - intros i s Hi. apply lookup_app_Some in Hi as [Hi|[Hi Hi']].
    + pose proof (lookup_lt_Some _ _ _ Hi) as Hlt. rewrite (core_segs_len _ _ _ _ Hc) in Hlt.
      rewrite take_app_le by lia. by apply (c_starts _ _ _ _ Hc).
    + apply list_lookup_singleton_Some in Hi' as [Hz <-]. cbn [base]. rewrite (core_segs_len _ _ _ _ Hc) in *.
      rewrite take_app_le, take_ge by lia. lia.
  - rewrite positions_app. cbn. by rewrite app_nil_r, (c_offs _ _ _ _ Hc).
  - rewrite Hf. apply Hc.
Qed.

(** The next entry, at the end of the last segment. *)
Lemma core_append w w' pre es dead g l ss s :
  core w (pre ++ [es]) dead g -> Index l = g + blen (mjoin (pre ++ [es])) -> entry_ok l ->
  segs w = ss ++ [s] ->
  segs w' = ss ++ [MkSeg (base s) (blen (frames es) + blen (frame l)) (sid s)] ->
  files w' = <[base s := frames es ++ frame l]> (files w) -> floorFile w' = floorFile w ->
  first w' = (if blen (offsets w) =? 0 then Index l else first w) ->
  offsets w' = offsets w ++ [MkPos (blen (segs w) - 1) (blen (frames es)) (blen (frame l))] ->
  core w' (pre ++ [es ++ [l]]) dead g /\ mjoin (pre ++ [es ++ [l]]) = mjoin (pre ++ [es]) ++ [l].
Proof.
  intros Hc Hi Hok Hs Hs' Hfs Hff Hf Ho.
  assert (Hj : mjoin (pre ++ [es ++ [l]]) = mjoin (pre ++ [es]) ++ [l]) by (rewrite !join_app; cbn; by rewrite !app_nil_r, app_assoc).
  pose proof (core_segs_len _ _ _ _ Hc) as Hl. rewrite Hs, !length_app in Hl. cbn in Hl.
  pose proof (c_dead _ _ _ _ Hc) as Hd. split; [|done].
  split; rewrite ?Hs', ?Hff, ?Hj, ?Ho.
  - pose proof (c_sizes _ _ _ _ Hc) as H. rewrite Hs, !fmap_app in H. apply app_inj_1 in H as [H _]; [|rewrite !length_fmap; lia].
    rewrite !fmap_app, H. cbn. by rewrite frames_snoc, blen_app.
  - rewrite Hfs, !fmap_app. cbn [fmap list_fmap base]. rewrite frames_snoc.
    pose proof (c_disk _ _ _ _ Hc) as H. rewrite Hs, !fmap_app in H. cbn [fmap list_fmap] in H.
    apply (disk_set _ _ _ (length pre) (base s) (frames es ++ frame l)) in H.
    + by rewrite insert_app_at in H by (by rewrite length_fmap).
    + pose proof (core_nodup _ _ _ _ Hc) as Hn. by rewrite Hs, fmap_app in Hn.
    + rewrite lookup_app_r by (rewrite length_fmap; lia). rewrite length_fmap. by replace (length pre - length ss)%nat with 0%nat by lia.
  - pose proof (c_bases _ _ _ _ Hc) as H. rewrite Hs, fmap_app in H. by rewrite fmap_app.
  - intros i x Hx. assert (Hlt : (i <= length pre)%nat) by (apply lookup_lt_Some in Hx; rewrite length_app in Hx; cbn in Hx; lia).
    rewrite take_app_le by lia. assert (exists y, segs w !! i = Some y /\ base y = base x) as (y & Hy & <-).
    { rewrite Hs. apply lookup_app_Some in Hx as [Hx|[Hi' Hx]]; [exists x; split; [by apply lookup_app_l_Some|done]|].
      apply list_lookup_singleton_Some in Hx as [Hz <-]. exists s. split; [|done]. rewrite lookup_app_r by lia. by rewrite Hz. }
    pose proof (c_starts _ _ _ _ Hc _ _ Hy) as H. by rewrite take_app_le in H by lia.
  - rewrite positions_snoc, (c_offs _ _ _ _ Hc). rewrite drop_app_le by (rewrite positions_len; lia). do 3 f_equal.
    rewrite Hs, blen_app. unfold blen. cbn. lia.
  - apply contiguous_app; [apply Hc|done].
  - apply Forall_app. split; [apply Hc|by constructor].
  - rewrite length_app. lia.
  - intros _. rewrite Hf, (core_offs_len _ _ _ _ Hc). destruct (Z.eqb_spec (blen (mjoin (pre ++ [es])) - Z.of_nat dead) 0).
    + unfold blen in *. lia.
    + apply (c_first _ _ _ _ Hc). unfold blen in *. lia.
  - intros i x Hx. apply lookup_app_Some in Hx as [Hx|[Hx Hx']]; [by apply (c_floor _ _ _ _ Hc)|].
    apply list_lookup_singleton_Some in Hx' as [Hz <-]. pose proof (proj2 (c_next _ _ _ _ Hc)). lia.
  - split; [apply Hc|]. rewrite blen_app. pose proof (proj2 (c_next _ _ _ _ Hc)). pose proof (blen_nonneg [l]). lia.
Qed.
