(* ===== verification/WalOps.v ===== *)
(** * The operations of the durable log keep its invariant. *)
From stdpp Require Import sorting.
From S2P Require Import Prelude Crc32 LogCodec MemLog Wal WalInv.
Import Crc32 LogCodec Wal.

(** Cutting and extending a file at its end. *)
Lemma writeAt_end (c src : bytes) o : o = blen c -> writeAt c o src = c ++ src.
Proof.
  intros ->. unfold writeAt, pad. rewrite blen_to_nat, Nat.sub_diag. cbn [replicate]. rewrite app_nil_r.
  rewrite take_ge by lia. rewrite drop_ge by lia. by rewrite app_nil_r.
Qed.

Lemma truncate_at (a b : bytes) o : o = blen a -> take (Z.to_nat o) (pad (a ++ b) (Z.to_nat o)) = a.
Proof.
  intros ->. unfold pad. rewrite blen_to_nat. rewrite length_app.
  replace (length a - _)%nat with 0%nat by lia. cbn [replicate]. rewrite app_nil_r. by apply take_app_length'.
Qed.

Lemma posAt_ok w i p : 0 <= i -> offsets w !! Z.to_nat i = Some p -> posAt i w = (w, Ok p).
Proof. intros Hi Hp. unfold posAt. rewrite bind_gets. rewrite (proj2 (Z.leb_le _ _)) by lia. by rewrite Hp. Qed.

Lemma segAt_ok w i s : 0 <= i -> segs w !! Z.to_nat i = Some s -> segAt i w = (w, Ok s).
Proof. intros Hi Hs. unfold segAt. rewrite bind_gets. rewrite (proj2 (Z.leb_le _ _)) by lia. by rewrite Hs. Qed.

(** ** Appending, whatever the I/O does *)

(** What the log operations leave alone. *)
Definition others (w w' : WAL) : Prop :=
  poisoned w' = poisoned w /\ kv w' = kv w /\ stableFile w' = stableFile w.

(** The second half of [appendLocked]: rotation and the write. *)
Definition appendTail (e : env) (l : Log) : M unit :=
  k ← gets (fun w => blen (segs w));
  (if k =? 0 then addSegmentLocked e (Index l)
   else
     act ← activeSeg;
     if maxSeg e <=? size act then addSegmentLocked e (Index l) else mret tt);;
  act ← activeSeg;
  encBuf ← lift (appendRecord [] l);
  let o := size act in
  fileWriteAt e (base act) o encBuf;;
  k ← gets (fun w => blen (segs w));
  setSize (k - 1) (o + blen encBuf);;
  modify (fun w => if blen (offsets w) =? 0 then setFirst (Index l) w else w);;
  modify (fun w => setOffsets (offsets w ++ [MkPos (k - 1) o (blen encBuf)]) w).

(** The disk after a failed append of [l]: the log before it, with perhaps part of
    the record at the end of the last segment. *)
Definition crashed (w' : WAL) (all : list Log) (dead : nat) (g : Z) (l : Log) : Prop :=
  exists w0 ess, core w0 ess dead g /\ mjoin ess = all /\ floorFile w' = floorFile w0 /\
    (files w' = files w0 \/
     exists ss s pre es k, segs w0 = ss ++ [s] /\ ess = pre ++ [es] /\
       files w' = <[base s := frames es ++ take k (frame l)]> (files w0)).

Section AnyIO.
Context (e : env) (Hmax : 0 < maxSeg e).

Lemma sys_cases w : (io e (calls w) = None /\ sys e w = (setCalls (S (calls w)) w, Ok tt)) \/
  ((exists k, io e (calls w) = Some k) /\ sys e w = (setCalls (S (calls w)) w, Err errIO)).
Proof.
  unfold sys. rewrite bind_gets, bind_modify. destruct (io e (calls w)) as [k|]; [right; eauto|by left].
Qed.

Lemma activeSeg_ok w ss s : segs w = ss ++ [s] -> activeSeg w = (w, Ok s).
Proof.
  intros Hs. unfold activeSeg. rewrite bind_gets. rewrite Hs, blen_app, blen_cons, blen_nil.
  apply segAt_ok; [pose proof (blen_nonneg ss); lia|]. rewrite Hs.
  replace (Z.to_nat _) with (length ss) by (unfold blen; lia). by rewrite lookup_app_r, Nat.sub_diag.
Qed.

Lemma core_last w ess dead g : core w ess dead g -> segs w <> [] ->
  exists ss s pre es, segs w = ss ++ [s] /\ ess = pre ++ [es] /\ length ss = length pre /\
    size s = blen (frames es) /\ base s <= g + blen (mjoin pre) /\ files w !! base s = Some (frames es).
Proof.
  intros Hc Hne. destruct (exists_last Hne) as (ss & s & Hs). pose proof (core_segs_len _ _ _ _ Hc) as Hl.
  destruct (decide (ess = [])) as [->|Hne']; [rewrite Hs, length_app in Hl; cbn in Hl; lia|].
  destruct (exists_last Hne') as (pre & es & ->). exists ss, s, pre, es. rewrite Hs, !length_app in Hl. cbn in Hl.
  split; [done|]. split; [done|]. split; [lia|]. split; [|split].
  - pose proof (c_sizes _ _ _ _ Hc) as H. rewrite Hs, !fmap_app in H. by apply app_inj_2 in H as [_ [= ?]].
  - pose proof (c_starts _ _ _ _ Hc (length ss) s) as H. rewrite Hs, lookup_app_r, Nat.sub_diag in H by lia.
    specialize (H eq_refl). replace (length ss) with (length pre) in H by lia. by rewrite take_app_length in H.
  - eapply (disk_lookup _ _ _ (length ss) _ _ (c_disk _ _ _ _ Hc)).
    + by rewrite Hs, fmap_app, lookup_app_r, length_fmap, Nat.sub_diag by (rewrite length_fmap; lia).
    + rewrite fmap_app, lookup_app_r by (rewrite length_fmap; lia). rewrite length_fmap. by replace (length ss - length pre)%nat with 0%nat by lia.
Qed.

(** Adding a segment, or not. *)
Lemma rotate_ok w ess dead g b : core w ess dead g -> b = g + blen (mjoin ess) ->
  wp (if blen (segs w) =? 0 then addSegmentLocked e b
      else act ← activeSeg; if maxSeg e <=? size act then addSegmentLocked e b else mret tt)
    (post (fun w' _ => (exists ess', core w' ess' dead g /\ mjoin ess' = mjoin ess) /\ segs w' <> [] /\ first w' = first w /\
                        offsets w' = offsets w /\ others w w')
          (fun w' er => er = errIO /\ (exists n k, io e n = Some k) /\ core w' ess dead g /\ others w w')) w.
Proof.
  intros Hc Hb.
  assert (Hadd : (forall s, last (segs w) = Some s -> base s < b) ->
    wp (addSegmentLocked e b)
    (post (fun w' _ => (exists ess', core w' ess' dead g /\ mjoin ess' = mjoin ess) /\ segs w' <> [] /\ first w' = first w /\
                        offsets w' = offsets w /\ others w w')
          (fun w' er => er = errIO /\ (exists n k, io e n = Some k) /\ core w' ess dead g /\ others w w')) w).
  { intros Hlast. unfold wp, addSegmentLocked. rewrite bind_gets.
    destruct (sys_cases w) as [[_ H1]|[[k Hk] H1]].
    - rewrite (bind_ok _ _ _ _ _ H1), bind_modify. unfold modify, post. split; [|split; [|by split_and!]].
      + exists (ess ++ [[]]). split; [|rewrite join_app; cbn; by rewrite !app_nil_r].
        by eapply (core_rotate w _ ess dead g b (calls w) Hc Hb Hlast).
      + cbn. by destruct (segs w).
    - rewrite (bind_err _ _ _ _ _ H1). unfold post. split; [done|]. split; [by eexists _, _|]. split; [|done].
      by eapply (core_same w). }
  destruct (Z.eqb_spec (blen (segs w)) 0) as [H0|H0].
  - apply Hadd. intros s Hs. destruct (segs w); [done|]. rewrite blen_cons in H0. pose proof (blen_nonneg l). lia.
  - assert (Hne : segs w <> []) by (intros Hn; rewrite Hn in H0; done).
    destruct (core_last _ _ _ _ Hc Hne) as (ss & s & pre & es & Hs & Hess & Hl & Hsz & Hbase & Hfile).
    unfold wp. rewrite (bind_ok _ _ _ _ _ (activeSeg_ok _ _ _ Hs)). destruct (Z.leb_spec (maxSeg e) (size s)).
    + apply Hadd. intros s'. rewrite Hs, last_snoc. intros [= <-]. rewrite Hb, Hess, join_app. cbn. rewrite app_nil_r, blen_app.
      destruct (decide (es = [])) as [->|Hes]; [change (frames []) with (@nil byte) in Hsz; rewrite blen_nil in Hsz; lia|].
      pose proof (blen_pos _ Hes). lia.
    + unfold mret, st_ret, post. split; [by exists ess|]. by split_and!.
Qed.

Lemma fileWriteAt_cases w b c o src : files w !! b = Some c -> o = blen c ->
  fileWriteAt e b o src w = (setFiles (<[b := c ++ src]> (files w)) (setCalls (S (calls w)) w), Ok tt) \/
  exists k, io e (calls w) = Some k /\
    fileWriteAt e b o src w = (setFiles (<[b := c ++ take k src]> (files w)) (setCalls (S (calls w)) w), Err errIO).
Proof.
  intros Hf Ho. unfold fileWriteAt, contents. rewrite bind_gets, bind_modify, bind_gets. cbn [files setCalls]. rewrite Hf.
  unfold default, from_option, id. destruct (io e (calls w)) as [k|]; rewrite writeAt_end by done; [right; by exists k|by left].
Qed.

Lemma setSize_last w ss s n : segs w = ss ++ [s] ->
  setSize (blen (segs w) - 1) n w = (setSegs (ss ++ [MkSeg (base s) n (sid s)]) w, Ok tt).
Proof.
  intros Hs. unfold setSize.
  assert (Hb : blen (segs w) = blen ss + 1) by (rewrite Hs; len). pose proof (blen_nonneg ss).
  assert (Hn : Z.to_nat (blen (segs w) - 1) = length ss) by (unfold blen in *; lia).
  rewrite (bind_ok _ _ w w s) by (apply segAt_ok; [lia|rewrite Hn, Hs; by apply list_lookup_middle]).
  unfold modify. do 3 f_equal. rewrite Hn, Hs. by apply insert_app_at.
Qed.

Lemma appendTail_ok w ess dead g l : core w ess dead g -> Index l = g + blen (mjoin ess) -> entry_ok l ->
  wp (appendTail e l)
    (post (fun w' _ => exists ess', core w' ess' dead g /\ mjoin ess' = mjoin ess ++ [l] /\ others w w' /\ segs w' <> [])
          (fun w' er => er = errIO /\ (exists n k, io e n = Some k) /\ crashed w' (mjoin ess) dead g l /\ others w w')) w.
Proof.
  intros Hc Hi Hl. unfold appendTail. apply wp_gets. eapply wp_seq; [by apply rotate_ok| |].
  2:{ intros w' er (-> & Hio & Hc' & Ho). split; [done|]. split; [done|]. split; [|done]. exists w', ess. split_and!; try done. by left. }
  intros w1 [] ((ess1 & Hc1 & Hj1) & Hne & Hf1 & Ho1 & Hx1).
  destruct (core_last _ _ _ _ Hc1 Hne) as (ss & s & pre & es & Hs & Hess & Hlen & Hsz & Hbase & Hfile).
  unfold wp. rewrite (bind_ok _ _ _ _ _ (activeSeg_ok _ _ _ Hs)).
  rewrite (bind_lift _ (frame l)) by (rewrite appendRecord_frame by apply Hl; done). cbv zeta.
  destruct (fileWriteAt_cases w1 (base s) (frames es) (size s) (frame l) Hfile Hsz) as [H1|(k & Hk & H1)].
  - rewrite (bind_ok _ _ _ _ _ H1), bind_gets. cbn [segs setFiles setCalls].
    set (w2 := setFiles _ _) in *. rewrite (bind_ok _ _ _ _ _ (setSize_last w2 ss s _ Hs)). rewrite bind_modify. unfold modify.
    rewrite Hess in Hc1. assert (Hi1 : Index l = g + blen (mjoin (pre ++ [es]))) by (by rewrite <- Hess, Hj1).
    set (w3 := setSegs _ w2). set (w4 := if _ =? 0 then _ else _).
    assert (Hw4 : segs w4 = segs w3 /\ files w4 = files w3 /\ floorFile w4 = floorFile w3 /\ offsets w4 = offsets w3 /\
      poisoned w4 = poisoned w3 /\ kv w4 = kv w3 /\ stableFile w4 = stableFile w3 /\
      first w4 = if blen (offsets w1) =? 0 then Index l else first w1) by (unfold w4; cbn [offsets w3 w2 setSegs setFiles setCalls]; by destruct (_ =? 0)).
    destruct Hw4 as (E1 & E2 & E3 & E4 & E5 & E6 & E7 & E8).
    destruct (core_append w1 (setOffsets (offsets w4 ++ [MkPos (blen (segs w1) - 1) (size s) (blen (frame l))]) w4)
      pre es dead g l ss s Hc1 Hi1 Hl Hs) as [Hc2 Hj2]; try (cbn; rewrite ?E1, ?E2, ?E3, ?E4, ?E8; unfold w3, w2; cbn; by rewrite ?Hsz).
    unfold post. exists (pre ++ [es ++ [l]]). split; [done|]. split; [by rewrite Hj2, <- Hess, Hj1|].
    split; [|cbn; rewrite E1; cbn; by destruct ss].
    destruct Hx1 as (? & ? & ?). unfold others. cbn. rewrite E5, E6, E7. by split_and!.
  - rewrite (bind_err _ _ _ _ _ H1). unfold post. split; [done|]. split; [by eexists _, _|]. split; [|done].
    exists w1, ess1. split; [done|]. split; [done|]. split; [done|]. right. by exists ss, s, pre, es, k.
Qed.

End AnyIO.

(** ** Without I/O failures *)

Section Healthy.
Context (e : env) (He : forall n, io e n = None).

Lemma sys_ok w : sys e w = (setCalls (S (calls w)) w, Ok tt).
Proof. unfold sys. rewrite bind_gets, bind_modify. by rewrite He. Qed.

Lemma wp_sys {B} (k : unit -> M B) Q w : wp (k tt) Q (setCalls (S (calls w)) w) -> wp (sys e ≫= k) Q w.
Proof. intros H. unfold wp. by rewrite (bind_ok _ _ _ _ _ (sys_ok w)). Qed.

Lemma fsync_ok w : orPoison (sys e) w = (setCalls (S (calls w)) w, Ok tt).
Proof. unfold orPoison, mbind, st_bind, try. by rewrite sys_ok. Qed.

Lemma wp_orPoison_sys {B} (k : unit -> M B) Q w :
  wp (k tt) Q (setCalls (S (calls w)) w) -> wp (orPoison (sys e) ≫= k) Q w.
Proof. intros H. unfold wp, orPoison, mbind, st_bind, try. by rewrite sys_ok. Qed.

Lemma wp_fsync {B} (k : unit -> M B) Q w : wp (k tt) Q (setCalls (S (calls w)) w) -> wp (fsync e ≫= k) Q w.
Proof. apply wp_orPoison_sys. Qed.

Lemma syncDir_ok w : exists n, syncDir e w = (setCalls n w, Ok tt).
Proof.
  exists (S (S (S (calls w)))). unfold syncDir. rewrite (bind_ok _ _ _ _ _ (fsync_ok w)), (bind_ok _ _ _ _ _ (fsync_ok _)). exact (sys_ok _).
Qed.

Lemma fileReadAt_ok w b c o n d : files w !! b = Some c -> slice (E:=lerr) c o (o + n) = Ok d ->
  fileReadAt e b o n w = (setCalls (S (calls w)) w, Ok d).
Proof.
  intros Hf Hs. unfold fileReadAt. rewrite (bind_ok _ _ _ _ _ (sys_ok w)). unfold contents. rewrite bind_gets.
  cbn [files setCalls]. rewrite Hf. unfold default, from_option, id. by rewrite Hs.
Qed.

Lemma frame_payload l : log_ok l ->
  slice_from (E:=lerr) (frame l) frameHdr = Ok (payloadOf l) /\
  slice (E:=lerr) (frame l) 0 recLenSize = Ok (le_put 4 (crcSize + blen (payloadOf l))) /\
  slice (E:=lerr) (frame l) recLenSize frameHdr = Ok (le_put 4 (ChecksumIEEE (payloadOf l))) /\
  slice_from (E:=lerr) (frame l) recLenSize = Ok (le_put 4 (ChecksumIEEE (payloadOf l)) ++ payloadOf l).
Proof.
  intros Hl. unfold frame, frameHdr, recLenSize, crcSize. split_and!.
  - rewrite app_assoc. apply slice_from_app. len.
  - apply slice_here; len.
  - apply slice_mid; len.
  - apply slice_from_app. len.
Qed.

Lemma GetLog_ok w ess dead g i out : core w ess dead g ->
  exists n, GetLog e i out w =
    (setCalls n w, match getEntry (drop dead (mjoin ess)) i with Some l => Ok l | None => Err ErrLogNotFound end).
Proof.
  intros Hc. unfold GetLog. rewrite bind_gets, bind_gets. unfold lastLocked. rewrite bind_gets.
  rewrite (core_offs_empty _ _ _ _ Hc). destruct (decide (drop dead (mjoin ess) = [])) as [Hn|Hne].
  { rewrite bool_decide_eq_true_2 by done. cbn [orb]. exists (calls w). rewrite Hn. by destruct w. }
  rewrite bool_decide_eq_false_2 by done. cbn [orb]. destruct (core_live_first _ _ _ _ Hc Hne) as [Hf Hg].
  pose proof (core_live_wf _ _ _ _ Hc) as Hw. pose proof (log_wf_last _ Hw Hne) as Hl. pose proof Hw as (Hcc & H0 & Hb).
  destruct (Z.ltb_spec i (first w)).
  { cbn [orb]. exists (calls w). rewrite (getEntry_below _ _ _ Hcc) by lia. by destruct w. }
  cbn [orb]. destruct (Z.ltb_spec (lastIdx w) i).
  { exists (calls w). rewrite (core_lastIdx _ _ _ _ Hc) in *. rewrite (getEntry_lookup _ _ _ Hcc) by lia.
    rewrite lookup_ge_None_2; [by destruct w|]. unfold blen in Hl. lia. }
  destruct (core_pos _ _ _ _ Hc i Hne) as (pre & a & l & b & post & s & Hess & Hd & Hi & Hg' & Hil & Hok & Hp & Hs & Hfile); [lia|].
  rewrite Hg'. rewrite (core_lastIdx _ _ _ _ Hc) in *. rewrite wrap_fits by (unfold fits; lia).
  eexists. rewrite (bind_ok _ _ _ _ _ (posAt_ok w (i - first w) _ ltac:(lia) Hp)). cbn [segIdx off rsize].
  rewrite (bind_ok _ _ _ _ _ (segAt_ok w (blen pre) s (blen_nonneg _) ltac:(by rewrite blen_to_nat))).
  assert (Hsl : slice (E:=lerr) (frames (a ++ l :: b)) (blen (frames a)) (blen (frames a) + blen (frame l)) = Ok (frame l))
    by (rewrite frames_app, frames_cons; apply slice_mid; lia).
  rewrite (bind_ok _ _ _ _ _ (fileReadAt_ok _ _ _ _ _ _ Hfile Hsl)).
  destruct Hok as [Hok _]. destruct (frame_payload l Hok) as (P1 & _ & _ & P2).
  rewrite (bind_lift _ _ _ _ P1), (bind_lift _ _ _ _ P2).
  rewrite (bind_lift _ (ChecksumIEEE (payloadOf l))) by (rewrite le_get_app; rewrite wrap_fits by apply crc_fits; done).
  rewrite Z.eqb_refl. cbn [negb]. rewrite (decodeInto_payload l out Hok). reflexivity.
Qed.

Lemma removeSegs_ok ss w :
  exists n, removeSegs e ss w = (setCalls n (setFiles (removeAll (base <$> ss) (files w)) w), Ok tt).
Proof.
  revert w. induction ss as [|s ss IH]; intros w; [exists (calls w); by destruct w|]. cbn [removeSegs].
  assert (H1 : removeSegFile e (base s) w = (setFiles (delete (base s) (files w)) (setCalls (S (calls w)) w), Ok tt)).
  { unfold removeSegFile, mbind, st_bind, try. by rewrite sys_ok. }
  rewrite (bind_ok _ _ _ _ _ H1). destruct (IH (setFiles (delete (base s) (files w)) (setCalls (S (calls w)) w))) as [n ->].
  by exists n.
Qed.

Lemma resetLocked_ok w ess dead g : core w ess dead g ->
  exists w', resetLocked e w = (w', Ok tt) /\ segs w' = [] /\ first w' = 0 /\ offsets w' = [] /\ files w' = ∅ /\
    floorFile w' = None /\ others w w'.
Proof.
  intros Hc. unfold resetLocked. rewrite bind_gets. destruct (removeSegs_ok (segs w) w) as [n1 H1].
  rewrite (bind_ok _ _ _ _ _ H1). rewrite !bind_modify, bind_gets. cbn [floorFile setFirst setOffsets setSegs setCalls setFiles].
  assert (Hfs : removeAll (base <$> segs w) (files w) = ∅).
  { apply map_empty. intros b. rewrite removeAll_lookup. destruct (decide _) as [|Hn]; [done|].
    destruct (files w !! b) eqn:E1; [|done]. exfalso. apply (c_disk _ _ _ _ Hc) in E1 as (i & Hi & _).
    apply Hn. by eapply list_elem_of_lookup_2. }
  set (w1 := setFirst 0 (setOffsets [] (setSegs [] (setCalls n1 (setFiles (removeAll (base <$> segs w) (files w)) w))))).
  set (fm := match floorFile w with Some _ => _ | None => _ end).
  assert (Hfm : exists n fl, fm w1 = (setCalls n (setFloorFile None w1), Ok fl)).
  { unfold fm. destruct (floorFile w) eqn:E1.
    - unfold mbind, st_bind, try. rewrite sys_ok. by eexists _, _.
    - exists n1, false. unfold mret, st_ret. f_equal. unfold w1, setCalls, setFloorFile, setFirst, setOffsets, setSegs, setFiles. cbn. by rewrite E1. }
  destruct Hfm as (n2 & fl & Hfm). rewrite (bind_ok _ _ _ _ _ Hfm).
  destruct (_ && sync e).
  - destruct (syncDir_ok (setCalls n2 (setFloorFile None w1))) as [n3 ->]. eexists. split; [done|]. by split_and!.
  - eexists. split; [done|]. by split_and!.
Qed.

Lemma core_empty w g : segs w = [] -> offsets w = [] -> files w = ∅ -> floorOf (floorFile w) = 0 -> 0 <= g -> core w [] 0 g.
Proof.
  intros H1 H2 H3 H4 Hg. split; rewrite ?H1, ?H2, ?H3, ?H4; try done; try constructor.
  - done.
  - intros b c. rewrite lookup_empty. split; [done|]. by intros (i & Hi & _).
  - cbn. lia.
  - done.
  - cbn. rewrite Z.add_0_r. exact Hg.
Qed.

Lemma fileTruncate_ok w b c d o : files w !! b = Some (c ++ d) -> o = blen c ->
  fileTruncate e b o w = (setFiles (<[b := c]> (files w)) (setCalls (S (calls w)) w), Ok tt).
Proof.
  intros Hf Ho. unfold fileTruncate, contents. rewrite (bind_ok _ _ _ _ _ (sys_ok w)), bind_gets. cbn [files setCalls].
  rewrite Hf. unfold default, from_option, id, modify. by rewrite truncate_at.
Qed.

(** An optional directory sync changes nothing. *)
Lemma sync_end (b : bool) w : exists n, (if b then syncDir e else mret tt) w = (setCalls n w, Ok tt).
Proof. destruct b; [apply syncDir_ok|]. exists (calls w). by destruct w. Qed.

Lemma truncateTailLocked_ok w ess dead g i : core w ess dead g -> drop dead (mjoin ess) <> [] -> first w <= i <= lastIdx w ->
  exists w' ess', truncateTailLocked e i w = (w', Ok tt) /\ core w' ess' dead g /\ segs w' <> [] /\ first w' = first w /\
    mjoin ess' = take (dead + Z.to_nat (i - first w)) (mjoin ess) /\ others w w'.
Proof.
  intros Hc Hne Hi. pose proof (core_live_wf _ _ _ _ Hc) as (_ & H0 & Hb).
  destruct (core_live_first _ _ _ _ Hc Hne) as [Hf _]. pose proof (log_wf_last _ (core_live_wf _ _ _ _ Hc) Hne) as Hlast.
  destruct (core_pos _ _ _ _ Hc i Hne Hi) as (pre & a & l & b & post & s & Hess & Hd & Hin & _ & Hil & _ & Hp & Hs & Hfile).
  rewrite (core_lastIdx _ _ _ _ Hc) in Hi. unfold truncateTailLocked. rewrite bind_gets. rewrite wrap_fits by (unfold fits; lia).
  rewrite (bind_ok _ _ _ _ _ (posAt_ok w (i - first w) _ ltac:(lia) Hp)). rewrite bind_modify. cbn [segIdx off].
  set (w1 := setOffsets _ w). rewrite (bind_ok _ _ _ _ _ (segAt_ok w1 (blen pre) s (blen_nonneg _) ltac:(by rewrite blen_to_nat))).
  rewrite bind_gets. cbv zeta. destruct (core_segs_at _ _ _ _ _ _ _ Hc Hess) as (ss1 & s' & ss2 & Hss & Hl1 & _).
  assert (s' = s) as ->. { rewrite Hss, <- Hl1, list_lookup_middle in Hs by done. by injection Hs. }
  assert (Hto : Z.to_nat (blen pre + 1) = S (length pre)) by (unfold blen; lia). rewrite Hto.
  change (segs w1) with (segs w). rewrite Hss. rewrite drop_S_app, take_S_app by done.
  destruct (removeSegs_ok ss2 w1) as [n1 H1]. rewrite (bind_ok _ _ _ _ _ H1), bind_modify.
  set (w2 := setSegs _ _). assert (Hf2 : files w2 !! base s = Some (frames a ++ frames (l :: b))).
  { cbn. rewrite removeAll_lookup, decide_False; [by rewrite <- frames_app|].
    pose proof (core_nodup _ _ _ _ Hc) as Hnd. rewrite Hss, fmap_app in Hnd. cbn in Hnd.
    apply NoDup_app in Hnd as (_ & _ & Hnd). by apply NoDup_cons in Hnd as [Hnd _]. }
  rewrite (bind_ok _ _ _ _ _ (fileTruncate_ok w2 _ _ _ _ Hf2 eq_refl)). set (w3 := setFiles _ (setCalls _ w2)).
  assert (Hk : blen pre = blen (segs w3) - 1) by (cbn; rewrite blen_app, blen_cons, blen_nil; unfold blen; lia).
  pose proof (setSize_last w3 ss1 s (blen (frames a)) eq_refl) as Hset. rewrite <- Hk in Hset.
  rewrite (bind_ok _ _ _ _ _ Hset). set (w4 := setSegs _ w3).
  set (n := (length (mjoin pre) + length a)%nat).
  assert (Hn : (n - dead)%nat = Z.to_nat (i - first w)) by lia.
  destruct (core_cut w w4 ess dead g pre a l b post ss1 s ss2 n Hc Hess eq_refl Hd Hss Hl1) as [Hc4 Hj4];
    [done|done|cbn; by rewrite Hn|done|done|].
  assert (Hfin : exists m, (if sync e then fsync e;; (if blen pre + 1 <? blen (ss1 ++ s :: ss2) then syncDir e else mret tt) else mret tt) w4
    = (setCalls m w4, Ok tt)).
  { destruct (sync e); [|exists (calls w4); by destruct w4].
    unfold fsync. rewrite (bind_ok _ _ _ _ _ (fsync_ok w4)). destruct (sync_end (blen pre + 1 <? blen (ss1 ++ s :: ss2)) (setCalls (S (calls w4)) w4)) as [m Hm].
    rewrite Hm. by exists m. }
  destruct Hfin as [m Hfin]. exists (setCalls m w4), (pre ++ [a]). split; [exact Hfin|].
  split; [by eapply (core_same w4)|]. split; [cbn; by destruct ss1|]. split; [done|]. split; [|done].
  rewrite Hj4. f_equal. lia.
Qed.

Lemma writeFileDurable_ok publish w : (forall n w, publish (setCalls n w) = setCalls n (publish w)) ->
  exists n, writeFileDurable e publish w = (setCalls n (publish w), Ok tt).
Proof.
  intros Hp. unfold writeFileDurable, orPoison.
  assert (H : exists n, (sys e;; sys e;; sys e;; sys e;; sys e;; modify publish;; syncDir e) w = (setCalls n (publish w), Ok tt)).
  { rewrite (bind_ok _ _ _ _ _ (sys_ok _)), (bind_ok _ _ _ _ _ (sys_ok _)), (bind_ok _ _ _ _ _ (sys_ok _)),
      (bind_ok _ _ _ _ _ (sys_ok _)), (bind_ok _ _ _ _ _ (sys_ok _)), bind_modify. rewrite !Hp.
    match goal with |- context [syncDir e ?x] => destruct (syncDir_ok x) as [n ->] end. by exists n. }
  destruct H as [n H]. exists n. unfold try, mbind at 1, st_bind at 1. by rewrite H.
Qed.

Lemma truncateFrontLocked_ok w ess dead g nf : core w ess dead g -> drop dead (mjoin ess) <> [] -> first w < nf <= lastIdx w ->
  exists w' ess' dead' g', truncateFrontLocked e nf w = (w', Ok tt) /\ core w' ess' dead' g' /\
    drop dead' (mjoin ess') = drop (Z.to_nat (nf - first w)) (drop dead (mjoin ess)) /\ others w w'.
Proof.
  intros Hc Hne Hi. pose proof (core_live_wf _ _ _ _ Hc) as (_ & H0 & Hb).
  destruct (core_live_first _ _ _ _ Hc Hne) as [Hf Hg]. pose proof (log_wf_last _ (core_live_wf _ _ _ _ Hc) Hne) as Hlast.
  assert (Hi' : first w <= nf <= lastIdx w) by lia.
  destruct (core_pos _ _ _ _ Hc nf Hne Hi') as (pre & a & l & b & post & s & Hess & Hd & Hin & _ & Hil & _ & Hp & Hs & Hfile).
  rewrite (core_lastIdx _ _ _ _ Hc) in Hi. rewrite blen_drop in *. pose proof (core_offs_len _ _ _ _ Hc) as Ho.
  pose proof (c_dead _ _ _ _ Hc) as Hdd.
  unfold truncateFrontLocked. rewrite !bind_gets. rewrite wrap_fits by (unfold fits; lia). cbv zeta.
  rewrite (proj2 (Z.leb_gt _ _)) by (unfold blen in *; lia). rewrite !bind_modify.
  set (w1 := setFirst nf _).
  assert (Hwf : exists n, writeFloorLocked e w1 = (setCalls n (setFloorFile (Some (le_put 8 nf)) w1), Ok tt)).
  { unfold writeFloorLocked. rewrite bind_gets. by apply writeFileDurable_ok. }
  destruct Hwf as [n1 Hwf]. rewrite (bind_ok _ _ _ _ _ Hwf). set (w2 := setCalls n1 _).
  set (d := Z.to_nat (nf - first w)) in *. set (dead' := (dead + d)%nat).
  assert (Hp0 : posAt 0 w2 = (w2, Ok (MkPos (blen pre) (blen (frames a)) (blen (frame l))))).
  { apply posAt_ok; [done|]. change (offsets w2) with (drop d (offsets w)). rewrite lookup_drop. by rewrite Nat.add_0_r. }
  rewrite (bind_ok _ _ _ _ _ Hp0). cbn [segIdx].
  assert (Hfl : floorOf (Some (le_put 8 nf)) = nf).
  { unfold floorOf. rewrite blen_le_put. cbn [Z.of_nat Z.ltb Z.compare]. change (8 <? 8) with false. cbn iota.
    rewrite take_ge by (unfold le_put; rewrite length_le_split; lia). apply le_combine_put. unfold fits. lia. }
  assert (Htk : take (length pre) ess = pre) by (by rewrite Hess, take_app_length).
  assert (Hm : (length (mjoin (take (length pre) ess)) <= dead')%nat) by (rewrite Htk; unfold dead'; lia).
  assert (Hkl : (length pre <= length ess)%nat) by (rewrite Hess, length_app; lia).
  assert (Hdl : (dead' < length (mjoin ess))%nat) by (unfold blen in *; lia).
  destruct (Z.eqb_spec (blen pre) 0) as [Hz|Hz].
  - assert (Hk0 : length pre = 0%nat) by (unfold blen in Hz; lia). rewrite Hk0 in *.
    destruct (core_front w w2 ess g dead dead' 0 Hc) as [Hc2 Hj2]; try done; try (unfold dead'; lia).
    + cbn. unfold dead'. lia.
    + rewrite <- (list_fmap_id (offsets w2)). change (offsets w2) with (drop d (offsets w)). unfold dead'.
      replace (dead + d - dead)%nat with d by lia. apply list_fmap_ext. intros ? [? ? ?] _. unfold rebase. cbn. f_equal. lia.
    + eexists w2, _, _, _. split; [done|]. split; [exact Hc2|]. split; [|done]. by rewrite Hj2, drop_drop.
  - rewrite bind_gets. rewrite blen_to_nat. destruct (removeSegs_ok (take (length pre) (segs w2)) w2) as [n3 H3].
    rewrite (bind_ok _ _ _ _ _ H3), !bind_modify. set (w4 := setOffsets _ _).
    destruct (core_front w w4 ess g dead dead' (length pre) Hc) as [Hc4 Hj4]; try done; try (unfold dead'; lia).
    + cbn. unfold dead'. lia.
    + cbn. unfold dead'. by replace (dead + d - dead)%nat with d by lia.
    + destruct (sync_end (sync e) w4) as [m Hm4]. eexists (setCalls m w4), _, _, _. split; [exact Hm4|].
      split; [by eapply (core_same w4)|]. split; [|done]. by rewrite Hj4, drop_drop.
Qed.

Context (Hmax : 0 < maxSeg e).

Lemma holds_empty w : wal_holds w [] -> segs w = [] /\ offsets w = [] /\ files w = ∅ /\ floorOf (floorFile w) = 0 /\ first w = 0.
Proof.
  intros (_ & ess & dead & g & Hc & Hd & Hx). destruct (Hx eq_refl) as (Hs & Hf & Hfl).
  assert (He0 : ess = []) by (apply length_zero_iff_nil; rewrite <- (core_segs_len _ _ _ _ Hc), Hs; done). subst ess.
  split; [done|]. split; [rewrite (c_offs _ _ _ _ Hc); apply drop_nil|]. split; [|done].
  apply map_empty. intros b. destruct (files w !! b) eqn:E1; [|done]. apply (c_disk _ _ _ _ Hc) in E1 as (i & Hi & _).
  by rewrite Hs in Hi.
Qed.

(** An append that follows the entries [all], the first [dead] of them dead. *)
Lemma appendTail_healthy w ess dead g l : core w ess dead g -> Index l = g + blen (mjoin ess) -> entry_ok l -> poisoned w = false ->
  exists w', appendTail e l w = (w', Ok tt) /\ wal_holds w' (drop dead (mjoin ess) ++ [l]) /\ others w w'.
Proof.
  intros Hc Hi Hl Hp. pose proof (appendTail_ok e Hmax w ess dead g l Hc Hi Hl) as H. unfold wp in H.
  destruct (appendTail e l w) as [w' [[]|er|]]; cbn [post] in H; [| |done].
  - destruct H as (ess' & Hc' & Hj & Ho & Hne). exists w'. split; [done|]. split; [|done].
    split; [by destruct Ho as [-> _]|]. exists ess', dead, g. split; [done|].
    split; [rewrite Hj, drop_app_le; [done|apply Hc]|]. intros Hn. by destruct (drop dead (mjoin ess)).
  - destruct H as (_ & (n & k & Hio) & _). by rewrite He in Hio.
Qed.

Lemma appendLocked_split l w :
  appendLocked e l w =
  ((if (blen (offsets w) =? 0) || (Index l =? u64 (lastIdx w + 1)) then mret tt
    else if (first w <=? Index l) && (Index l <=? lastIdx w) then truncateTailLocked e (Index l)
    else resetLocked e);; appendTail e l) w.
Proof. done. Qed.

Lemma appendLocked_ok w es l : wal_holds w es -> entry_ok l ->
  exists w', appendLocked e l w = (w', Ok tt) /\ wal_holds w' (putEntry es l) /\ others w w'.
Proof.
  intros Hh Hl. pose proof Hl as [Hlo Hlb]. pose proof (lo_index _ Hlo) as [Hi0 _]. rewrite appendLocked_split.
  assert (Hrestart : forall w1, segs w1 = [] -> offsets w1 = [] -> files w1 = ∅ -> floorOf (floorFile w1) = 0 ->
    poisoned w1 = false -> exists w', appendTail e l w1 = (w', Ok tt) /\ wal_holds w' [l] /\ others w1 w').
  { intros w1 H1 H2 H3 H4 H5. apply (appendTail_healthy w1 [] 0 (Index l)); [by apply core_empty|symmetry; apply Z.add_0_r|done|done]. }
  destruct (decide (es = [])) as [->|Hne].
  { destruct (holds_empty w Hh) as (H1 & H2 & H3 & H4 & _). rewrite H2. cbn [blen length Z.of_nat Z.eqb orb].
    rewrite (bind_ok _ _ w w tt) by done. apply Hrestart; try done. by destruct Hh. }
  pose proof Hh as (Hp & ess & dead & g & Hc & Hes & _). rewrite Hes in Hne.
  pose proof (core_live_wf _ _ _ _ Hc) as Hw. pose proof Hw as (_ & Hf0 & Hb).
  destruct (core_live_first _ _ _ _ Hc Hne) as [Hf Hg]. pose proof (log_wf_last _ Hw Hne) as Hlast. pose proof (blen_pos _ Hne).
  rewrite (core_offs_empty _ _ _ _ Hc), (bool_decide_eq_false_2 _ Hne), (core_lastIdx _ _ _ _ Hc). cbn [orb].
  rewrite wrap_fits by (unfold fits; lia). pose proof (c_dead _ _ _ _ Hc) as Hd. rewrite blen_drop in Hlast.
  destruct (Z.eqb_spec (Index l) (lastOf (drop dead (mjoin ess)) + 1)) as [Hnx|Hnx].
  { rewrite (bind_ok _ _ w w tt) by done. rewrite Hes, putEntry_next by done. apply (appendTail_healthy w ess dead g); try done.
    unfold blen in *. lia. }
  destruct ((first w <=? Index l) && (Index l <=? lastOf (drop dead (mjoin ess)))) eqn:Er.
  - apply andb_true_iff in Er as [Er1%Z.leb_le Er2%Z.leb_le].
    destruct (truncateTailLocked_ok w ess dead g (Index l) Hc Hne) as (w1 & ess1 & H1 & Hc1 & _ & _ & Hj1 & Ho1).
    { rewrite (core_lastIdx _ _ _ _ Hc). lia. }
    rewrite (bind_ok _ _ _ _ _ H1).
    destruct (appendTail_healthy w1 ess1 dead g l Hc1) as (w' & H2 & Hh2 & Ho2); [|done|by destruct Ho1 as [-> _]|].
    { rewrite Hj1. rewrite blen_take. unfold blen in *. lia. }
    exists w'. split; [done|]. split; [|destruct Ho1 as (E1 & E2 & E3), Ho2 as (E4 & E5 & E6); split_and!; congruence].
    rewrite Hes, putEntry_cut by (first [done|lia]). rewrite Hj1 in Hh2. rewrite Hf. rewrite take_drop_commute.
    exact Hh2.
  - destruct (resetLocked_ok w ess dead g Hc) as (w1 & H1 & S1 & S2 & S3 & S4 & S5 & Ho1). rewrite (bind_ok _ _ _ _ _ H1).
    destruct (Hrestart w1) as (w' & H2 & Hh2 & Ho2); try done; [by rewrite S5|by destruct Ho1 as [-> _]|].
    exists w'. split; [done|]. split; [|destruct Ho1 as (E1 & E2 & E3), Ho2 as (E4 & E5 & E6); split_and!; congruence].
    rewrite Hes, putEntry_gap; [done|done|]. intros [? ?]. apply andb_false_iff in Er as [Er|Er]; apply Z.leb_gt in Er; lia.
Qed.

Lemma appendAll_ok ls : forall w es, wal_holds w es -> Forall entry_ok ls ->
  exists w', appendAll e ls w = (w', Ok tt) /\ wal_holds w' (foldl putEntry es ls) /\ others w w'.
Proof.
  induction ls as [|l ls IH]; intros w es Hh Hl; [by exists w|]. inversion Hl; subst. cbn [appendAll foldl].
  destruct (appendLocked_ok w es l Hh ltac:(done)) as (w1 & Hr1 & Hh1 & Ho1). rewrite (bind_ok _ _ _ _ _ Hr1).
  destruct (IH w1 _ Hh1 ltac:(done)) as (w2 & Hr2 & Hh2 & Ho2). exists w2. split; [done|]. split; [done|].
  destruct Ho1 as (E1 & E2 & E3), Ho2 as (E4 & E5 & E6); split_and!; congruence.
Qed.

Lemma holds_calls w n es : wal_holds w es -> wal_holds (setCalls n w) es.
Proof.
  intros (Hp & ess & dead & g & Hc & Hes & Hx). split; [done|]. exists ess, dead, g. split; [|done]. by eapply (core_same w).
Qed.

Lemma fsyncAll_ok ss w : exists n, fsyncAll e ss w = (setCalls n w, Ok tt).
Proof.
  revert w. induction ss as [|s ss IH]; intros w; [exists (calls w); by destruct w|]. cbn [fsyncAll].
  unfold fsync. rewrite (bind_ok _ _ _ _ _ (fsync_ok w)). destruct (IH (setCalls (S (calls w)) w)) as [n ->]. by exists n.
Qed.

Lemma StoreLogs_ok w es ls : wal_holds w es -> Forall entry_ok ls ->
  exists w', StoreLogs e ls w = (w', Ok tt) /\ wal_holds w' (foldl putEntry es ls) /\ kv w' = kv w /\ stableFile w' = stableFile w.
Proof.
  intros Hh Hl. unfold StoreLogs. destruct (Z.eqb_spec (blen ls) 0) as [H0|H0].
  { destruct ls as [|l ls]; [by exists w|]. rewrite blen_cons in H0. pose proof (blen_nonneg ls). lia. }
  rewrite bind_gets. destruct Hh as [Hp Hh]. rewrite Hp, bind_gets.
  destruct (appendAll_ok ls w es (conj Hp Hh) Hl) as (w1 & H1 & Hh1 & Ho1 & Ho2 & Ho3). rewrite (bind_ok _ _ _ _ _ H1).
  destruct (sync e); cbn [negb]; [|by exists w1]. rewrite bind_gets.
  destruct (fsyncAll_ok (segs w1) w1) as [n H2]. rewrite (bind_ok _ _ _ _ _ H2).
  assert (Hne : segs w1 <> []).
  { destruct Hh1 as (_ & ess & dead & g & Hc & Hes & _). intros Hn. pose proof (core_segs_len _ _ _ _ Hc) as Hlen.
    rewrite Hn in Hlen. symmetry in Hlen. apply length_zero_iff_nil in Hlen. subst ess.
    change (mjoin []) with (@nil Log) in Hes. rewrite drop_nil in Hes. apply foldl_put_nonempty in Hes; [done|].
    intros ->. done. }
  destruct (exists_last Hne) as (ss & s & Hs).
  rewrite (bind_ok _ _ _ _ _ (activeSeg_ok (setCalls n w1) ss s Hs)).
  match goal with |- context [(if ?b then syncDir e else mret tt) ?x] => destruct (sync_end b x) as [m ->] end.
  exists (setCalls m w1). split; [done|]. split; [by apply holds_calls|done].
Qed.

Lemma DeleteRange_ok w es lo hi : wal_holds w es -> end_range es lo hi ->
  exists w', DeleteRange e lo hi w = (w', Ok tt) /\ wal_holds w' (deleteEntries es lo hi) /\ others w w'.
Proof.
  intros Hh Hr. pose proof Hh as (Hp & ess & dead & g & Hc & Hes & Hx). unfold DeleteRange. rewrite bind_gets, Hp, bind_gets.
  rewrite (core_offs_empty _ _ _ _ Hc), <- Hes. destruct (decide (es = [])) as [Hn|Hne].
  { rewrite bool_decide_eq_true_2 by done. exists w. split; [done|]. split; [|done].
    rewrite Hn in Hh |- *. exact Hh. }
  rewrite bool_decide_eq_false_2 by done. unfold lastLocked. rewrite !bind_gets. rewrite (core_lastIdx _ _ _ _ Hc), <- Hes.
  rewrite Hes in Hne. destruct (core_live_first _ _ _ _ Hc Hne) as [Hf Hg]. pose proof (core_live_wf _ _ _ _ Hc) as Hw.
  rewrite <- Hes in Hf, Hw, Hne. rewrite <- Hf. pose proof (log_wf_last _ Hw Hne) as Hlast. pose proof Hw as (_ & Hf0 & Hb).
  pose proof (blen_pos _ Hne). cbv zeta.
  set (lo' := if lo <? firstOf es then firstOf es else lo). set (hi' := if lastOf es <? hi then lastOf es else hi).
  assert (Hlo : lo' = Z.max lo (firstOf es)) by (unfold lo'; destruct (Z.ltb_spec lo (firstOf es)); lia).
  assert (Hhi : hi' = Z.min hi (lastOf es)) by (unfold hi'; destruct (Z.ltb_spec (lastOf es) hi); lia).
  clearbody lo' hi'. unfold end_range in Hr.
  destruct (Z.ltb_spec hi' lo'). { exists w. rewrite delete_miss by (first [done|lia]). done. }
  destruct (Z.eqb_spec lo' (firstOf es)); destruct (Z.eqb_spec hi' (lastOf es)); cbn [andb].
  - destruct (resetLocked_ok w ess dead g Hc) as (w1 & H1 & S1 & S2 & S3 & S4 & S5 & Ho1). exists w1. split; [done|]. split; [|done].
    rewrite delete_all by (first [done|lia]). split; [by destruct Ho1 as [-> _]|]. exists [], 0%nat, 0.
    split; [apply core_empty; try done; by rewrite S5|]. split; [done|]. by rewrite S5.
  - rewrite wrap_fits by (unfold fits; lia).
    destruct (truncateFrontLocked_ok w ess dead g (hi' + 1) Hc) as (w1 & ess1 & dead1 & g1 & H1 & Hc1 & Hj1 & Ho1).
    { by rewrite <- Hes. } { rewrite (core_lastIdx _ _ _ _ Hc), <- Hes, <- Hf. lia. }
    exists w1. split; [done|]. split; [|done]. split; [by destruct Ho1 as [-> _]|]. exists ess1, dead1, g1. split; [done|].
    rewrite (delete_front _ hi) by (first [done|lia]). rewrite Hj1, <- Hes, <- Hf. split; [f_equal; lia|].
    intros Hn. exfalso. apply (f_equal length) in Hn. rewrite length_drop in Hn. unfold blen in *. cbn in Hn. lia.
  - destruct (truncateTailLocked_ok w ess dead g lo' Hc) as (w1 & ess1 & H1 & Hc1 & _ & _ & Hj1 & Ho1).
    { by rewrite <- Hes. } { rewrite (core_lastIdx _ _ _ _ Hc), <- Hes, <- Hf. lia. }
    exists w1. split; [done|]. split; [|done]. split; [by destruct Ho1 as [-> _]|]. exists ess1, dead, g. split; [done|].
    rewrite (delete_tail _ lo) by (first [done|lia]). rewrite Hj1. rewrite <- Hf. split.
    + rewrite <- take_drop_commute, <- Hes. f_equal. lia.
    + intros Hn. exfalso. apply (f_equal length) in Hn. rewrite length_take in Hn. unfold blen in *. cbn in Hn. lia.
  - exfalso. lia.
Qed.

End Healthy.
