(* ===== verification/WalRecover.v ===== *)
(** * Recovery of the durable log from its files. *)
From stdpp Require Import sorting.
From S2P Require Import Prelude Crc32 LogCodec MemLog Wal WalInv WalOps.
Import Crc32 LogCodec Wal.

(** What recovery does not touch. *)
Definition same_disk (w w' : WAL) : Prop :=
  files w' = files w /\ floorFile w' = floorFile w /\ stableFile w' = stableFile w /\ kv w' = kv w /\ poisoned w' = poisoned w.

Lemma same_disk_refl w : same_disk w w.
Proof. done. Qed.
Lemma same_disk_trans w1 w2 w3 : same_disk w1 w2 -> same_disk w2 w3 -> same_disk w1 w3.
Proof. intros (?&?&?&?&?) (?&?&?&?&?). split_and!; congruence. Qed.

(** The last live term, 0 when there is none. *)
Definition lastTerm (es : list Log) : Z := default 0 (Term <$> last es).

(** The index after the entries [ess] were scanned. *)
Record scanned (w : WAL) (ess : list (list Log)) (dead : nat) (g exp lt : Z) : Prop := {
  si_offs : offsets w = drop dead (positions 0 ess);
  si_first : first w = if decide (dead < length (mjoin ess))%nat then g + Z.of_nat dead else 0;
  si_exp : exp = if decide (dead < length (mjoin ess))%nat then g + blen (mjoin ess) else 0;
  si_lt : lt = lastTerm (drop dead (mjoin ess));
  si_segs : length (segs w) = length ess;
}.

Section Scan.
Context (e : env) (He : forall n, io e n = None).

Lemma mjoin_snoc_snoc {A} (pre : list (list A)) es l : mjoin (pre ++ [es ++ [l]]) = mjoin (pre ++ [es]) ++ [l].
Proof. rewrite !join_app. cbn. by rewrite !app_nil_r, app_assoc. Qed.

(** One record of a segment. *)
Lemma scan_step w pre es dead g exp lt floor l rest b fuel :
  scanned w (pre ++ [es]) dead g exp lt ->
  files w !! b = Some (frames es ++ frame l ++ rest) -> entry_ok l ->
  Index l = g + blen (mjoin (pre ++ [es])) -> 0 <= g -> (length (mjoin (pre ++ [es])) < dead)%nat <-> Index l < floor ->
  ((dead <= length (mjoin (pre ++ [es])))%nat -> lt <= Term l) ->
  exists w' exp' lt',
    scan_loop e (S fuel) b (blen (frames es ++ frame l ++ rest)) (blen (frames es)) exp lt floor w =
    scan_loop e fuel b (blen (frames es ++ frame l ++ rest)) (blen (frames (es ++ [l]))) exp' lt' floor w' /\
    scanned w' (pre ++ [es ++ [l]]) dead g exp' lt' /\ same_disk w w' /\ segs w' = segs w.
Proof.
  intros Hsc Hfile [Hl Hb] Hi Hg Hdead Hterm. cbn [scan_loop].
  pose proof (frame_pos l). pose proof (blen_nonneg rest). pose proof (frame_len l) as Hfl. pose proof (payload_len l) as Hpl.
  pose proof (blen_nonneg (Data l)). pose proof (blen_nonneg (Extensions l)). pose proof (lo_size _ Hl) as Hsize.
  unfold crcSize, payloadHdr, maxRecBytes in Hsize. destruct (frame_payload l Hl) as (P1 & P2 & P3 & P4).
  set (fs := blen (frames es ++ frame l ++ rest)). assert (Hfs : fs = blen (frames es) + blen (frame l) + blen rest) by (unfold fs; len).
  unfold frameHdr, recLenSize, crcSize in *.
  rewrite (proj2 (Z.ltb_lt _ _)) by lia. cbv zeta. rewrite (proj2 (Z.ltb_ge _ _)) by lia.
  assert (Hh : slice (E:=lerr) (frames es ++ frame l ++ rest) (blen (frames es)) (blen (frames es) + (4 + 4)) =
    Ok (le_put 4 (4 + blen (payloadOf l)) ++ le_put 4 (ChecksumIEEE (payloadOf l)))).
  { rewrite slice_app_r by lia. rewrite Z.sub_diag. unfold frame, crcSize. rewrite <- !app_assoc.
    rewrite (app_assoc (le_put 4 _)). apply slice_here; len. }
  rewrite (bind_ok _ _ _ _ _ (fileReadAt_ok e He _ _ _ _ _ _ Hfile Hh)).
  rewrite (bind_lift _ (le_put 4 (4 + blen (payloadOf l)))) by (apply slice_here; len).
  rewrite (bind_lift _ (4 + blen (payloadOf l))) by (rewrite le_get_put; f_equal; apply wrap_fits; unfold fits; lia).
  rewrite (proj2 (Z.ltb_ge _ 4)), (proj2 (Z.ltb_ge maxRecBytes _)) by (unfold maxRecBytes; lia). cbn [orb].
  rewrite (proj2 (Z.ltb_ge fs _)) by lia.
  assert (Hr : slice (E:=lerr) (frames es ++ frame l ++ rest) (blen (frames es)) (blen (frames es) + (4 + (4 + blen (payloadOf l)))) =
    Ok (frame l)) by (apply slice_mid; lia).
  rewrite (bind_ok _ _ _ _ _ (fileReadAt_ok e He (setCalls (S (calls w)) w) _ _ _ _ _ Hfile Hr)).
  rewrite (bind_lift _ _ _ _ P1), (bind_lift _ _ _ _ P3).
  rewrite (bind_lift _ (ChecksumIEEE (payloadOf l))) by (rewrite le_get_put; f_equal; apply wrap_fits, crc_fits).
  rewrite Z.eqb_refl. cbn [negb].
  rewrite (bind_lift _ (Index l)) by (unfold payloadOf; rewrite le_get_app; f_equal; apply wrap_fits; apply Hl).
  erewrite (bind_lift (slice_from _ 8)) by (unfold payloadOf; apply slice_from_app; len).
  rewrite (bind_lift _ (Term l)) by (rewrite le_get_app; f_equal; apply wrap_fits; apply Hl).
  replace (blen (frames es) + (4 + (4 + blen (payloadOf l)))) with (blen (frames (es ++ [l]))) by (rewrite frames_snoc, blen_app; lia).
  destruct Hsc as [S1 S2 S3 S4 S5]. set (all := mjoin (pre ++ [es])) in *.
  assert (Hpl2 : length (positions 0 (pre ++ [es])) = length all) by (by rewrite positions_len).
  destruct (Z.ltb_spec (Index l) floor) as [Hlt|Hge].
  - apply Hdead in Hlt. eexists _, _, _. split; [done|]. split; [|by split].
    split; rewrite ?positions_snoc, ?mjoin_snoc_snoc; fold all.
    + cbn. rewrite S1, drop_ge by lia. rewrite drop_ge; [done|]. rewrite length_app, Hpl2. cbn. lia.
    + cbn. rewrite S2. rewrite !decide_False by (rewrite ?length_app; cbn; lia). done.
    + rewrite S3. rewrite !decide_False by (rewrite ?length_app; cbn; lia). done.
    + rewrite S4. rewrite !drop_ge by (rewrite ?length_app; cbn; lia). done.
    + cbn. rewrite S5. by rewrite !length_app.
  - assert (Hd : (dead <= length all)%nat) by lia. specialize (Hterm Hd).
    assert (Hexp : negb (exp =? 0) && negb (Index l =? exp) = false).
    { rewrite S3. destruct (decide _); [|done]. rewrite Hi, Z.eqb_refl. by rewrite andb_false_r. }
    rewrite Hexp. rewrite (proj2 (Z.ltb_ge _ _)) by done. rewrite bind_modify, bind_gets, bind_modify.
    rewrite wrap_fits by (unfold fits; destruct (lo_index _ Hl); lia). eexists _, _, _. split; [done|].
    set (w1 := if _ =? 0 then _ else _).
    assert (Hw1 : segs w1 = segs w /\ files w1 = files w /\ floorFile w1 = floorFile w /\ stableFile w1 = stableFile w /\
      kv w1 = kv w /\ poisoned w1 = poisoned w /\ offsets w1 = offsets w /\
      first w1 = if blen (offsets w) =? 0 then Index l else first w) by (unfold w1; cbn [offsets setCalls]; by destruct (blen (offsets w) =? 0)).
    destruct Hw1 as (E1 & E2 & E3 & E4 & E5 & E6 & E7 & E8).
    split; [|split; [split_and!; cbn; congruence|cbn; congruence]].
    assert (Hlast : blen (segs w) - 1 = blen pre) by (unfold blen; rewrite S5, length_app; cbn; lia).
    split; rewrite ?positions_snoc, ?mjoin_snoc_snoc; fold all.
    + cbn. rewrite E7, E1, S1, Hlast. rewrite drop_app_le by (rewrite Hpl2; lia). repeat f_equal. lia.
    + rewrite decide_True by (rewrite length_app; cbn; lia). cbn. rewrite E8, S1, blen_drop. unfold blen at 1. rewrite Hpl2.
      destruct (Z.eqb_spec (Z.max 0 (Z.of_nat (length all) - Z.of_nat dead)) 0).
      * unfold blen in Hi. lia.
      * rewrite S2. rewrite decide_True by lia. done.
    + rewrite decide_True by (rewrite length_app; cbn; lia). rewrite Hi, blen_app. unfold blen at 3. cbn. lia.
    + unfold lastTerm. rewrite drop_app_le by lia. by rewrite last_snoc.
    + cbn. rewrite E1, S5. by rewrite !length_app.
Qed.

(** What is left of a record whose write was cut short. *)
Definition torn (junk : bytes) : Prop := junk <> [] /\ exists l rest, log_ok l /\ rest <> [] /\ frame l = junk ++ rest.

Lemma scan_end w ss s es b exp lt floor fuel : segs w = ss ++ [s] ->
  scan_loop e (S fuel) b (blen (frames es)) (blen (frames es)) exp lt floor w =
  (setSegs (ss ++ [MkSeg (base s) (blen (frames es)) (sid s)]) w, Ok (false, exp, lt)).
Proof.
  intros Hs. cbn [scan_loop]. rewrite (proj2 (Z.ltb_ge _ _)) by lia. rewrite bind_gets.
  by rewrite (bind_ok _ _ _ _ _ (setSize_last w ss s _ Hs)).
Qed.

Lemma stopScan_ok w ss s b c d : segs w = ss ++ [s] -> files w !! b = Some (c ++ d) ->
  exists n, stopScan e b (blen c) w =
    (setSegs (ss ++ [MkSeg (base s) (blen c) (sid s)]) (setFiles (<[b := c]> (files w)) (setCalls n w)), Ok tt).
Proof.
  intros Hs Hf. eexists. unfold stopScan. rewrite (bind_ok _ _ _ _ _ (fileTruncate_ok e He w b c d _ Hf eq_refl)), bind_gets.
  exact (setSize_last (setFiles (<[b := c]> (files w)) (setCalls (S (calls w)) w)) ss s (blen c) Hs).
Qed.

Lemma scan_torn w ss s es junk b exp lt floor fuel :
  segs w = ss ++ [s] -> torn junk -> files w !! b = Some (frames es ++ junk) ->
  exists n, scan_loop e (S fuel) b (blen (frames es ++ junk)) (blen (frames es)) exp lt floor w =
    (setSegs (ss ++ [MkSeg (base s) (blen (frames es)) (sid s)]) (setFiles (<[b := frames es]> (files w)) (setCalls n w)), Ok (true, exp, lt)).
Proof.
  intros Hs [Hj (l & rest & Hl & Hr & Hfr)] Hf. cbn [scan_loop]. cbv zeta.
  pose proof (blen_pos _ Hj). pose proof (blen_pos _ Hr). rewrite (proj2 (Z.ltb_lt _ _)) by len.
  assert (Hstop : forall w', segs w' = segs w -> files w' = files w -> (exists k, w' = setCalls k w) ->
    exists n, (stopScan e b (blen (frames es));; mret (true, exp, lt)) w' =
    (setSegs (ss ++ [MkSeg (base s) (blen (frames es)) (sid s)]) (setFiles (<[b := frames es]> (files w)) (setCalls n w)), Ok (true, exp, lt))).
  { intros w' H1 H2 [k ->]. destruct (stopScan_ok (setCalls k w) ss s b (frames es) junk) as [n Hn]; [done|done|].
    exists n. by rewrite (bind_ok _ _ _ _ _ Hn). }
  assert (Hw : w = setCalls (calls w) w) by (by destruct w).
  unfold frameHdr, recLenSize, crcSize. destruct (Z.ltb_spec (blen (frames es ++ junk)) (blen (frames es) + (4 + 4))) as [Hlt|Hge].
  { apply Hstop; [done|done|by eexists]. }
  rewrite blen_app in Hge. pose proof (payload_len l) as Hpl. pose proof (frame_len l) as Hfl. pose proof (lo_size _ Hl) as Hsize.
  unfold crcSize, payloadHdr, maxRecBytes in Hsize. pose proof (blen_nonneg (Data l)). pose proof (blen_nonneg (Extensions l)).
  destruct (cut 8 junk) as (h & junk' & -> & Hh); [lia|].
  assert (Hhh : h = le_put 4 (4 + blen (payloadOf l)) ++ le_put 4 (ChecksumIEEE (payloadOf l))).
  { unfold frame, crcSize in Hfr. rewrite <- app_assoc, (app_assoc (le_put 4 _)) in Hfr. apply app_inj_1 in Hfr as [<- _]; [done|].
    rewrite length_app. unfold le_put. rewrite !length_le_split. unfold blen in Hh. lia. }
  assert (Hsl : slice (E:=lerr) (frames es ++ h ++ junk') (blen (frames es)) (blen (frames es) + (4 + 4)) = Ok h) by (apply slice_mid; lia).
  rewrite (bind_ok _ _ _ _ _ (fileReadAt_ok e He _ _ _ _ _ _ Hf Hsl)).
  rewrite (bind_lift _ (le_put 4 (4 + blen (payloadOf l)))) by (rewrite Hhh; apply slice_here; len).
  rewrite (bind_lift _ (4 + blen (payloadOf l))) by (rewrite le_get_put; f_equal; apply wrap_fits; unfold fits; lia).
  rewrite (proj2 (Z.ltb_ge _ 4)), (proj2 (Z.ltb_ge maxRecBytes _)) by (unfold maxRecBytes; lia). cbn [orb].
  apply (f_equal blen) in Hfr. rewrite !blen_app in Hfr. rewrite (proj2 (Z.ltb_lt (blen (frames es ++ h ++ junk')) _)) by (rewrite !blen_app; lia).
  apply Hstop; [done|done|by eexists].
Qed.

(** ** A whole segment *)

Definition terms_mono (es : list Log) : Prop :=
  forall i j x y, (i <= j)%nat -> es !! i = Some x -> es !! j = Some y -> Term x <= Term y.

Section Log.
Context (all : list Log) (dead : nat) (g floor : Z).
Context (Hok : Forall entry_ok all) (Hcont : contiguous g all) (Hg : 0 <= g) (Hterms : terms_mono (drop dead all)).
Context (Hfloor : forall i x, all !! i = Some x -> (i < dead)%nat <-> Index x < floor).

Lemma term_next pre l : pre ++ [l] `prefix_of` all -> (dead <= length pre)%nat -> lastTerm (drop dead pre) <= Term l.
Proof.
  intros [r Hr] Hd. unfold lastTerm. assert (Hl : all !! length pre = Some l) by (rewrite Hr, <- app_assoc; by apply list_lookup_middle).
  destruct (last (drop dead pre)) as [x|] eqn:E1; cbn.
  - rewrite last_lookup, lookup_drop, length_drop in E1. pose proof (lookup_lt_Some _ _ _ E1).
    apply (Hterms (length pre - dead - 1)%nat (length pre - dead)%nat); [lia| |rewrite lookup_drop, <- Hl; f_equal; lia].
    rewrite lookup_drop. replace (dead + (length pre - dead - 1))%nat with (dead + pred (length pre - dead))%nat.
    + rewrite Hr, <- app_assoc. by apply lookup_app_l_Some.
    + destruct (decide (length pre = dead)); [|lia]. exfalso. apply lookup_lt_Some in E1. lia.
  - pose proof (Forall_lookup_1 _ _ _ _ Hok Hl) as [Hlo _]. apply (lo_term _ Hlo).
Qed.

Lemma scan_entries pre b junk es2 : forall es1 w exp lt fuel,
  scanned w (pre ++ [es1]) dead g exp lt -> files w !! b = Some (frames es1 ++ frames es2 ++ junk) ->
  mjoin (pre ++ [es1 ++ es2]) `prefix_of` all ->
  exists w' exp' lt',
    scan_loop e (length es2 + fuel) b (blen (frames es1 ++ frames es2 ++ junk)) (blen (frames es1)) exp lt floor w =
    scan_loop e fuel b (blen (frames es1 ++ frames es2 ++ junk)) (blen (frames (es1 ++ es2))) exp' lt' floor w' /\
    scanned w' (pre ++ [es1 ++ es2]) dead g exp' lt' /\ same_disk w w' /\ segs w' = segs w.
Proof.
  induction es2 as [|l es2 IH]; intros es1 w exp lt fuel Hsc Hf Hpf.
  { rewrite !app_nil_r. eexists w, exp, lt. split; [done|]. by split_and!. }
  cbn [length Nat.add]. rewrite frames_cons, <- app_assoc in *.
  assert (Hpf1 : mjoin (pre ++ [es1]) ++ [l] `prefix_of` all).
  { etrans; [|exact Hpf]. rewrite !join_app. cbn. rewrite !app_nil_r. exists es2. by rewrite <- !app_assoc. }
  assert (Hl : all !! length (mjoin (pre ++ [es1])) = Some l).
  { destruct Hpf1 as [r ->]. rewrite <- app_assoc. by apply list_lookup_middle. }
  destruct (scan_step w pre es1 dead g exp lt floor l (frames es2 ++ junk) b (length es2 + fuel) Hsc Hf) as (w1 & exp1 & lt1 & H1 & Hsc1 & Hd1 & Hs1).
  - by apply (Forall_lookup_1 _ _ _ _ Hok Hl).
  - by apply Hcont.
  - done.
  - by apply Hfloor.
  - intros Hd. rewrite (si_lt _ _ _ _ _ _ Hsc). by apply term_next.
  - destruct (IH (es1 ++ [l]) w1 exp1 lt1 fuel Hsc1) as (w2 & exp2 & lt2 & H2 & Hsc2 & Hd2 & Hs2).
    + destruct Hd1 as [-> _]. by rewrite frames_snoc, <- app_assoc.
    + by rewrite <- app_assoc.
    + rewrite frames_snoc, <- !app_assoc in H2. rewrite <- app_assoc in Hsc2. rewrite H1, frames_snoc, H2.
      eexists w2, exp2, lt2. split; [done|]. split; [done|]. split; [by eapply same_disk_trans|congruence].
Qed.

Lemma scanSegment_ok pre b es junk w ss n exp lt :
  segs w = ss ++ [MkSeg b 0 n] -> scanned w (pre ++ [[]]) dead g exp lt -> files w !! b = Some (frames es ++ junk) ->
  mjoin (pre ++ [es]) `prefix_of` all -> junk = [] \/ torn junk ->
  exists w' exp' lt',
    scanSegment e b exp lt floor w = (w', Ok (negb (bool_decide (junk = [])), exp', lt')) /\
    scanned w' (pre ++ [es]) dead g exp' lt' /\ segs w' = ss ++ [MkSeg b (blen (frames es)) n] /\
    files w' = <[b := frames es]> (files w) /\ floorFile w' = floorFile w /\ stableFile w' = stableFile w /\
    kv w' = kv w /\ poisoned w' = poisoned w.
Proof.
  intros Hs Hsc Hf Hpf Hj. unfold scanSegment, contents. rewrite (bind_ok _ _ _ _ _ (sys_ok e He w)), bind_gets.
  set (w1 := setCalls (S (calls w)) w). change (files w1) with (files w). rewrite Hf. unfold default, from_option, id.
  assert (Hlen : (length es <= length (frames es ++ junk))%nat).
  { rewrite length_app. clear. induction es as [|l es IH]; [cbn; lia|]. rewrite frames_cons, length_app.
    pose proof (frame_pos l). unfold blen in *. cbn. lia. }
  destruct (scan_entries pre b junk es [] w1 exp lt (S (length (frames es ++ junk) - length es))) as (w2 & exp2 & lt2 & H2 & Hsc2 & Hd2 & Hs2).
  { destruct Hsc as [? ? ? ? ?]. by split. } { done. } { done. }
  change (frames []) with (@nil byte) in H2. cbn [app] in H2. rewrite blen_nil in H2.
  replace (length es + S (length (frames es ++ junk) - length es))%nat with (S (length (frames es ++ junk))) in H2 by lia.
  destruct Hd2 as (D1 & D2 & D3 & D4 & D5). assert (Hs2' : segs w2 = ss ++ [MkSeg b 0 n]) by (by rewrite Hs2).
  cbn [app] in Hsc2.
  assert (Hre : forall n0 fs, scanned (setSegs (ss ++ [MkSeg b (blen (frames es)) n]) (setFiles fs (setCalls n0 w2))) (pre ++ [es]) dead g exp2 lt2).
  { intros n0 fs. destruct Hsc2 as [? ? ? ? S5]. split; try done. cbn. rewrite <- S5, Hs2'. by rewrite !length_app. }
  destruct Hj as [->|Hj].
  - rewrite bool_decide_eq_true_2 by done. rewrite app_nil_r in *. pose proof (scan_end w2 ss (MkSeg b 0 n) es b exp2 lt2 floor (length (frames es) - length es) Hs2') as Hend.
    rewrite Hend in H2. rewrite H2. cbn [base sid negb]. eexists _, _, _. split; [done|]. split; [|split; [done|]].
    { specialize (Hre (calls w2) (files w2)). by destruct w2. }
    cbn. rewrite D1, D2, D3, D4, D5. split_and!; try done. change (files w1) with (files w). symmetry. by apply insert_id.
  - rewrite bool_decide_eq_false_2 by apply Hj. cbn [negb].
    destruct (scan_torn w2 ss (MkSeg b 0 n) es junk b exp2 lt2 floor (length (frames es ++ junk) - length es) Hs2' Hj) as [m Hm]; [by rewrite D1|].
    rewrite Hm in H2. rewrite H2. eexists _, _, _. split; [done|]. split; [apply Hre|]. cbn. rewrite D1, D2, D3, D4, D5. by split_and!.
Qed.

(** The files [bs] hold the entries [ess], the last one followed by [junk]. *)
Definition on_disk (fs : gmap Z bytes) (bs : list Z) (ess : list (list Log)) (junk : bytes) : Prop :=
  length bs = length ess /\
  forall i b es, bs !! i = Some b -> ess !! i = Some es ->
    fs !! b = Some (frames es ++ if decide (S i = length ess) then junk else []).

(** The files once the junk is cut off. *)
Definition cleaned (fs : gmap Z bytes) (bs : list Z) (ess : list (list Log)) : gmap Z bytes :=
  match last bs, last ess with Some b, Some es => <[b := frames es]> fs | _, _ => fs end.

Lemma recover_loop_ok junk bs : forall ess pre w exp lt,
  junk = [] \/ torn junk -> scanned w pre dead g exp lt -> on_disk (files w) bs ess junk -> mjoin (pre ++ ess) `prefix_of` all ->
  exists w' exp' lt', recover_loop e bs exp lt floor w = (w', Ok tt) /\ scanned w' (pre ++ ess) dead g exp' lt' /\
    base <$> segs w' = (base <$> segs w) ++ bs /\ size <$> segs w' = (size <$> segs w) ++ ((fun es => blen (frames es)) <$> ess) /\
    files w' = cleaned (files w) bs ess /\ floorFile w' = floorFile w /\ stableFile w' = stableFile w /\
    kv w' = kv w /\ poisoned w' = poisoned w.
Proof.
  induction bs as [|b bs IH]; intros ess pre w exp lt Hj Hsc [Hl Hd] Hpf.
  { destruct ess; [|done]. rewrite !app_nil_r in *. exists w, exp, lt. split; [done|]. split; [done|]. by cbn; rewrite ?app_nil_r. }
  destruct ess as [|es ess]; [done|]. cbn [recover_loop]. rewrite bind_gets, (bind_ok _ _ _ _ _ (sys_ok e He w)), bind_modify.
  set (w1 := setSegs _ _). assert (Hsc1 : scanned w1 (pre ++ [[]]) dead g exp lt).
  { destruct Hsc as [S1 S2 S3 S4 S5]. assert (Hj0 : mjoin (pre ++ [[]]) = mjoin pre) by (rewrite join_app; cbn; by rewrite !app_nil_r).
    split; rewrite ?Hj0; try done; [|cbn; rewrite !length_app; cbn; lia]. cbn. rewrite S1, positions_app. cbn. by rewrite app_nil_r. }
  set (jk := if decide (1%nat = length (es :: ess)) then junk else []) in *.
  assert (Hpf1 : mjoin (pre ++ [es]) `prefix_of` all).
  { etrans; [|exact Hpf]. rewrite !join_app. cbn. rewrite app_nil_r. by exists (mjoin ess); rewrite <- app_assoc. }
  destruct (scanSegment_ok pre b es jk w1 (segs w) (calls w) exp lt) as (w2 & exp2 & lt2 & H2 & Hsc2 & Hs2 & F1 & F2 & F3 & F4 & F5).
  { done. } { done. } { by apply (Hd 0%nat b es). } { done. } { unfold jk. destruct (decide _); [done|by left]. }
  unfold try, mbind at 1, st_bind at 1. rewrite H2.
  destruct (decide (ess = [])) as [->|Hne].
  - destruct bs; [|done]. assert (Hrest : (if negb (bool_decide (jk = [])) then mret tt else recover_loop e [] exp2 lt2 floor) w2 = (w2, Ok tt))
      by (by destruct (negb _)).
    exists w2, exp2, lt2. split; [exact Hrest|]. split; [done|]. rewrite Hs2, !fmap_app. by split_and!.
  - assert (Hjk : jk = []). { unfold jk. rewrite decide_False; [done|]. cbn. destruct ess; [done|]. cbn. lia. }
    rewrite Hjk. rewrite (bool_decide_eq_true_2 (@nil byte = [])) by done. cbn [negb].
    assert (Hfw : files w2 = files w).
    { rewrite F1. apply insert_id. specialize (Hd 0%nat b es eq_refl eq_refl). fold jk in Hd. by rewrite Hjk, app_nil_r in Hd. }
    destruct (IH ess (pre ++ [es]) w2 exp2 lt2 Hj Hsc2) as (w3 & exp3 & lt3 & H3 & Hsc3 & B3 & Z3 & G1 & G2 & G3 & G4 & G5).
    + split; [by injection Hl|]. intros i b' es' Hb He'. rewrite Hfw. rewrite (Hd (S i) b' es' Hb He'). do 2 f_equal.
      destruct (decide (S i = length ess)); [rewrite decide_True by (cbn; lia)|rewrite decide_False by (cbn; lia)]; done.
    + by rewrite <- app_assoc.
    + exists w3, exp3, lt3. split; [exact H3|]. split; [by rewrite <- app_assoc in Hsc3|].
      split; [rewrite B3, Hs2, fmap_app, <- app_assoc; done|].
      split; [rewrite Z3, Hs2, fmap_app, <- app_assoc; done|]. split; [|rewrite G2, G3, G4, G5, F2, F3, F4, F5; done].
      rewrite G1, Hfw. unfold cleaned. destruct bs as [|b2 bs]; [by destruct ess|]. destruct ess as [|es2 ess]; [done|]. by rewrite !last_cons_cons.
Qed.

End Log.

(** ** The whole store *)

Lemma sorted_bases fs bs cs : disk fs bs cs -> StronglySorted Z.lt bs -> merge_sort Z.le (fst <$> map_to_list fs) = bs.
Proof.
  intros [Hl Hd] Hs. assert (Hle : StronglySorted Z.le bs).
  { clear -Hs. induction Hs as [|x l Hs IH Hf]; constructor; [done|]. eapply Forall_impl; [exact Hf|]. intros; cbn in *; lia. }
  assert (Hnd : NoDup bs).
  { clear -Hs. induction Hs as [|x l Hs IH Hf]; constructor; [|done]. intros Hx. rewrite Forall_forall in Hf. specialize (Hf _ Hx). lia. }
  apply (StronglySorted_unique Z.le); [apply StronglySorted_merge_sort; apply _|done|].
  rewrite merge_sort_Permutation. apply NoDup_Permutation; [apply NoDup_fst_map_to_list|done|].
  intros b. rewrite list_elem_of_fmap. split.
  - intros ([b' c] & -> & (i & Hi & _)%elem_of_map_to_list%Hd). by eapply list_elem_of_lookup_2.
  - intros [i Hi]%list_elem_of_lookup. destruct (lookup_lt_is_Some_2 cs i) as [c Hc]; [rewrite <- Hl; by eapply lookup_lt_Some|].
    exists (b, c). split; [done|]. apply elem_of_map_to_list, Hd. eauto.
Qed.

Lemma readFloor_ok w : readFloor e w = (setCalls (S (calls w)) w, Ok (floorOf (floorFile w))).
Proof.
  unfold readFloor, mbind, st_bind, try, gets. rewrite (sys_ok e He). cbn [floorFile setCalls].
  destruct (floorFile w) as [b|]; [|done]. cbn [floorOf]. destruct (Z.ltb_spec (blen b) 8); [done|].
  unfold lift. rewrite le_get_in by lia. done.
Qed.

(** What the files of a store say: the entries [ess], with [junk] after the last
    record. *)
Definition files_hold (fs : gmap Z bytes) (bs : list Z) (ess : list (list Log)) (junk : bytes) : Prop :=
  (ess = [] /\ disk fs bs []) \/ exists pre es, ess = pre ++ [es] /\ disk fs bs ((frames <$> pre) ++ [frames es ++ junk]).

Lemma files_hold_on_disk fs bs ess junk : files_hold fs bs ess junk -> on_disk fs bs ess junk.
Proof.
  intros [[-> [Hl Hd]]|(pre & es & -> & Hd)].
  - by split.
  - split; [destruct Hd as [Hl _]; rewrite length_app, length_fmap in Hl; rewrite length_app; done|].
    intros i b x Hb Hx. apply (disk_lookup _ _ _ i _ _ Hd Hb). rewrite length_app. cbn.
    apply lookup_app_Some in Hx as [Hx|[Hi Hx]].
    + rewrite decide_False by (apply lookup_lt_Some in Hx; lia). rewrite app_nil_r. rewrite lookup_app_l by (rewrite length_fmap; by eapply lookup_lt_Some).
      by rewrite list_lookup_fmap, Hx.
    + apply list_lookup_singleton_Some in Hx as [Hz <-]. rewrite decide_True by lia.
      rewrite lookup_app_r by (rewrite length_fmap; lia). by rewrite length_fmap, Hz.
Qed.

Lemma files_hold_cleaned fs bs ess junk : files_hold fs bs ess junk -> NoDup bs -> disk (cleaned fs bs ess) bs (frames <$> ess).
Proof.
  intros [[-> Hd]|(pre & es & -> & Hd)] Hn.
  - unfold cleaned. destruct Hd as [Hl Hd]. destruct bs; [|done]. by split.
  - pose proof Hd as [Hl _]. rewrite length_app, length_fmap in Hl. cbn in Hl.
    unfold cleaned. rewrite last_snoc. destruct (last bs) as [b|] eqn:E1.
    + rewrite last_lookup in E1. replace (pred (length bs)) with (length pre) in E1 by lia.
      apply (disk_set _ _ _ (length pre) b (frames es) Hd Hn) in E1. rewrite insert_app_at in E1 by (by rewrite length_fmap).
      by rewrite fmap_app.
    + apply last_None in E1. subst bs. cbn in Hl. lia.
Qed.

Lemma recover_ok w w0 ess dead g junk :
  core w0 ess dead g -> terms_mono (drop dead (mjoin ess)) -> junk = [] \/ torn junk ->
  files_hold (files w) (base <$> segs w0) ess junk -> floorFile w = floorFile w0 ->
  segs w = [] -> first w = 0 -> offsets w = [] ->
  exists w', recover e w = (w', Ok tt) /\ core w' ess dead g /\ (drop dead (mjoin ess) = [] -> first w' = 0) /\
    floorFile w' = floorFile w /\ others w w'.
Proof.
  intros Hc Ht Hj Hf Hfl Hs Hfi Ho. unfold recover. rewrite (bind_ok _ _ _ _ _ (sys_ok e He w)), bind_gets.
  assert (Hb : merge_sort Z.le (fst <$> map_to_list (files w)) = base <$> segs w0).
  { destruct Hf as [[_ Hd]|(pre & es & _ & Hd)]; (eapply sorted_bases; [exact Hd|apply Hc]). }
  cbn [files setCalls]. rewrite Hb, (bind_ok _ _ _ _ _ (readFloor_ok _)). cbn [floorFile setCalls]. rewrite Hfl.
  set (w1 := setCalls _ (setCalls _ w)).
  destruct (recover_loop_ok (mjoin ess) dead g (floorOf (floorFile w0)) (c_ok _ _ _ _ Hc) (c_cont _ _ _ _ Hc)
    (proj1 (c_next _ _ _ _ Hc)) Ht (c_floor _ _ _ _ Hc) junk (base <$> segs w0) ess [] w1 0 0) as
    (w' & exp & lt & H & Hsc & B & Z & F1 & F2 & F3 & F4 & F5).
  - done.
  - split.
    + change (offsets w = drop dead []). by rewrite Ho, drop_nil.
    + rewrite decide_False by (cbn; lia). exact Hfi.
    + by rewrite decide_False by (cbn; lia).
    + change (0 = lastTerm (drop dead [])). by rewrite drop_nil.
    + change (length (segs w) = 0%nat). by rewrite Hs.
  - by apply files_hold_on_disk.
  - cbn. done.
  - exists w'. split; [exact H|]. change (segs w1) with (segs w) in B, Z. rewrite Hs in B, Z. cbn in B, Z. cbn [app] in Hsc.
    change (files w1) with (files w) in F1. change (floorFile w1) with (floorFile w) in F2. rewrite Hfl in F2.
    destruct Hsc as [S1 S2 S3 S4 S5]. pose proof (c_dead _ _ _ _ Hc) as Hd.
    split; [|split; [|split; [done|by split_and!]]].
    + split; rewrite ?B, ?F2; try by apply Hc.
      * exact Z.
      * rewrite F1. apply files_hold_cleaned with junk; [done|]. by apply (core_nodup _ _ _ _ Hc).
      * intros i s Hi. assert (Hi' : (base <$> segs w') !! i = Some (base s)) by (by rewrite list_lookup_fmap, Hi).
        rewrite B, list_lookup_fmap in Hi'. destruct (segs w0 !! i) as [s0|] eqn:E1; [|done]. injection Hi' as <-.
        by apply (c_starts _ _ _ _ Hc).
      * exact S1.
      * intros Hlt. rewrite S2. by rewrite decide_True.
    + intros Hn. rewrite S2. rewrite decide_False; [done|]. apply (f_equal length) in Hn. rewrite length_drop in Hn. cbn in Hn. lia.
Qed.

End Scan.
