(* ===== verification/WalProps.v ===== *)
(** * Properties of the durable log. *)
From stdpp Require Import sorting.
From S2P Require Import Prelude Crc32 LogCodec MemLog Wal WalInv WalOps WalRecover.
Import Crc32 LogCodec Wal.

(** ** A log store *)

Definition zeroLog : Log := MkLog 0 0 0 0 [] [].

Lemma holds_core w es : wal_holds w es -> exists ess dead g, core w ess dead g /\ es = drop dead (mjoin ess).
Proof. intros (_ & ess & dead & g & Hc & He & _). by exists ess, dead, g. Qed.

Lemma holds_log_wf w es : wal_holds w es -> log_wf es.
Proof. intros (ess & dead & g & Hc & ->)%holds_core. by eapply core_live_wf. Qed.

Lemma holds_first w es : wal_holds w es -> first w = firstOf es.
Proof.
  intros Hh. destruct (decide (es = [])) as [->|Hne]; [by destruct (holds_empty w Hh) as (_&_&_&_&->)|].
  apply holds_core in Hh as (ess & dead & g & Hc & ->). by destruct (core_live_first _ _ _ _ Hc Hne) as [-> _].
Qed.

Lemma holds_get e w es i : (forall n, io e n = None) -> wal_holds w es ->
  exists n, GetLog e i zeroLog w = (setCalls n w, match getEntry es i with Some l => Ok l | None => Err ErrLogNotFound end).
Proof. intros He (ess & dead & g & Hc & ->)%holds_core. by eapply GetLog_ok. Qed.

(** A directory with no files. *)
Definition emptyDir : WAL := MkWAL [] 0 [] false ∅ ∅ None None 0.

Lemma emptyDir_holds : wal_holds emptyDir [].
Proof. split; [done|]. exists [], 0%nat, 0. split; [by apply core_empty|]. split; [done|]. intros _. by split_and!. Qed.

(** ** The stable map *)

(** The stable file holds the map. *)
Definition stable_ok (w : WAL) : Prop :=
  match stableFile w with
  | None => kv w = ∅
  | Some b => exists l, l ≡ₚ map_to_list (kv w) /\ blen (mjoin (stableRecord <$> l)) < 2 ^ 32 /\
      b = mjoin (stableRecord <$> l) ++ le_put 4 (ChecksumIEEE (mjoin (stableRecord <$> l)))
  end.

Definition putAll (m : gmap bytes bytes) (l : list (bytes * bytes)) : gmap bytes bytes :=
  foldl (fun m x => <[x.1 := x.2]> m) m l.

Lemma putAll_map l m : l ≡ₚ map_to_list m -> putAll ∅ l = m.
Proof.
  intros Hp. assert (H : forall l m0, putAll m0 l = list_to_map (reverse l) ∪ m0).
  { clear. induction l as [|x l IH]; intros m0; [symmetry; apply (left_id_L ∅ (∪))|].
    change (putAll m0 (x :: l)) with (putAll (<[x.1 := x.2]> m0) l). rewrite IH. rewrite reverse_cons, list_to_map_app. cbn.
    rewrite <- (assoc_L (∪)). f_equal. rewrite insert_empty. by rewrite insert_union_singleton_l. }
  rewrite H, (right_id_L ∅ (∪)). rewrite <- (list_to_map_to_list m). apply list_to_map_proper.
  - rewrite reverse_Permutation, Hp. apply NoDup_fst_map_to_list.
  - by rewrite reverse_Permutation.
Qed.

Lemma loadStable_loop_ok l : forall fuel w, (length l < fuel)%nat -> blen (mjoin (stableRecord <$> l)) < 2 ^ 32 ->
  loadStable_loop fuel (mjoin (stableRecord <$> l)) w = (setKv (putAll (kv w) l) w, Ok tt).
Proof.
  induction l as [|[k v] l IH]; intros fuel w Hf Hb; (destruct fuel as [|fuel]; [cbn in Hf; lia|]).
  { cbn. by destruct w. }
  cbn [fmap list_fmap mjoin list_join] in *. set (rest := mjoin (stableRecord <$> l)) in *.
  unfold stableRecord in *. cbn [fst snd] in *. rewrite !blen_app, !blen_le_put in Hb.
  pose proof (blen_nonneg k). pose proof (blen_nonneg v). pose proof (blen_nonneg rest).
  cbn [loadStable_loop]. rewrite (proj2 (Z.ltb_ge _ _)) by len. rewrite <- !app_assoc.
  rewrite !(wrap_fits 32 (blen _)) by (unfold fits; lia).
  rewrite (bind_lift _ (blen k)) by (rewrite le_get_app; f_equal; apply wrap_fits; unfold fits; lia).
  rewrite (bind_lift _ (k ++ le_put 4 (blen v) ++ v ++ rest)) by (apply slice_from_app; len).
  rewrite !wrap_fits by (unfold fits; len). rewrite (proj2 (Z.ltb_ge _ _)) by len.
  rewrite (bind_lift _ k) by (apply slice_here; lia).
  rewrite (bind_lift _ (le_put 4 (blen v) ++ v ++ rest)) by (apply slice_from_app; lia).
  rewrite (bind_lift _ (blen v)) by (rewrite le_get_app; f_equal; apply wrap_fits; unfold fits; lia).
  rewrite (bind_lift _ (v ++ rest)) by (apply slice_from_app; len).
  rewrite !wrap_fits by (unfold fits; len). rewrite (proj2 (Z.ltb_ge _ _)) by len.
  rewrite (bind_lift _ v) by (apply slice_here; lia). rewrite bind_modify.
  rewrite (bind_lift _ rest) by (apply slice_from_app; lia).
  rewrite IH; [by destruct w|cbn in Hf; lia|lia].
Qed.

Lemma records_len l : (length l <= length (mjoin (stableRecord <$> l)))%nat.
Proof.
  induction l as [|x l IH]; [done|].
  change (mjoin (stableRecord <$> x :: l)) with (stableRecord x ++ mjoin (stableRecord <$> l)). unfold stableRecord at 1.
  rewrite !length_app. unfold le_put. rewrite !length_le_split. cbn [length]. lia.
Qed.

Lemma loadStable_ok e w m : (forall n, io e n = None) ->
  stable_ok (setKv m w) -> kv w = ∅ -> exists n, loadStable e w = (setCalls n (setKv m w), Ok tt).
Proof.
  intros He Hs Hk. unfold stable_ok in Hs. cbn [stableFile kv setKv] in Hs. unfold loadStable. rewrite bind_gets.
  destruct (stableFile w) as [b|] eqn:E1.
  2:{ exists (calls w). subst m. rewrite <- Hk. by destruct w. }
  destruct Hs as (l & Hp & Hb & ->). set (buf := mjoin (stableRecord <$> l)) in *. exists (S (calls w)).
  rewrite (bind_ok _ _ _ _ _ (sys_ok e He w)). assert (Hlen : blen (buf ++ le_put 4 (ChecksumIEEE buf)) = blen buf + 4) by len.
  pose proof (blen_nonneg buf). rewrite Hlen. rewrite (proj2 (Z.ltb_ge _ _)) by lia.
  rewrite (bind_lift _ buf) by (apply slice_here; lia).
  rewrite (bind_lift _ (le_put 4 (ChecksumIEEE buf))) by (apply slice_from_app; lia).
  rewrite (bind_lift _ (ChecksumIEEE buf)) by (rewrite le_get_put; f_equal; apply wrap_fits, crc_fits).
  rewrite Z.eqb_refl. cbn [negb]. unfold buf. rewrite loadStable_loop_ok; [|pose proof (records_len l); lia|done].
  cbn [kv setCalls]. rewrite Hk, (putAll_map l m Hp). done.
Qed.

#[export] Program Instance wal_LogStore (e : env) (He : forall n, io e n = None) (Hmax : 0 < maxSeg e) : LogStore WAL := {|
  holds := fun w es => wal_holds w es /\ stable_ok w; lsFirst := FirstIndex; lsLast := LastIndex; lsGet := fun i => GetLog e i zeroLog;
  lsStore := StoreLogs e; lsDelete := DeleteRange e;
|}.
Next Obligation. intros e He Hmax s es [Hh _]. by eapply holds_log_wf. Qed.
Next Obligation. intros e He Hmax s es [Hh Hs]. exists s. split; [|done]. unfold FirstIndex, gets. by rewrite (holds_first s es). Qed.
Next Obligation.
  intros e He Hmax s es [Hh Hs]. exists s. split; [|done]. pose proof Hh as (ess & dead & g & Hc & ->)%holds_core.
  unfold LastIndex, lastLocked, gets. by rewrite (core_lastIdx _ _ _ _ Hc).
Qed.
Next Obligation.
  intros e He Hmax s es i [Hh Hs]. destruct (holds_get e s es i He Hh) as [n ->]. eexists. split; [done|]. split; [by apply holds_calls|done].
Qed.
Next Obligation.
  intros e He Hmax s es ls [Hh Hs] Hl. destruct (StoreLogs_ok e He Hmax s es ls Hh Hl) as (w' & H1 & H2 & H3 & H4). exists w'.
  split; [done|]. split; [done|]. unfold stable_ok in *. by rewrite H3, H4.
Qed.
Next Obligation.
  intros e He Hmax s es lo hi [Hh Hs] Hr. destruct (DeleteRange_ok e He s es lo hi Hh Hr) as (w' & H1 & H2 & _ & H3 & H4). exists w'.
  split; [done|]. split; [done|]. unfold stable_ok in *. by rewrite H3, H4.
Qed.

(** ** Reopening *)

(** The store reads as the log [es]. *)
Definition reads_as (e : env) (w : WAL) (es : list Log) : Prop :=
  FirstIndex w = (w, Ok (firstOf es)) /\ LastIndex w = (w, Ok (lastOf es)) /\
  forall i, exists n, GetLog e i zeroLog w = (setCalls n w, match getEntry es i with Some l => Ok l | None => Err ErrLogNotFound end).

(** The files of [w] hold the entries [all] (the first [dead] dead), and perhaps
    part of a record after them. *)
Definition durable (w : WAL) (all : list Log) (dead : nat) (g : Z) : Prop :=
  exists w0 ess junk, core w0 ess dead g /\ mjoin ess = all /\ (junk = [] \/ torn junk) /\
    files_hold (files w) (base <$> segs w0) ess junk /\ floorFile w = floorFile w0.

Lemma core_files_hold w ess dead g : core w ess dead g -> files_hold (files w) (base <$> segs w) ess [].
Proof.
  intros Hc. pose proof (c_disk _ _ _ _ Hc) as Hd. destruct (decide (ess = [])) as [->|Hne]; [by left|].
  destruct (exists_last Hne) as (pre & es & ->). right. exists pre, es. split; [done|]. rewrite app_nil_r.
  by rewrite fmap_app in Hd.
Qed.

Lemma core_durable w ess dead g : core w ess dead g -> durable w (mjoin ess) dead g.
Proof. intros Hc. exists w, ess, []. split; [done|]. split; [done|]. split; [by left|]. split; [by eapply core_files_hold|done]. Qed.

Lemma open_ok e w w0 ess junk dead g m : (forall n, io e n = None) -> core w0 ess dead g -> junk = [] \/ torn junk ->
  files_hold (files w) (base <$> segs w0) ess junk -> floorFile w = floorFile w0 -> terms_mono (drop dead (mjoin ess)) ->
  stable_ok (setKv m w) ->
  exists w', OpenWAL e w = (w', Ok tt) /\ core w' ess dead g /\ kv w' = m /\ stableFile w' = stableFile w /\ poisoned w' = false /\
    (drop dead (mjoin ess) = [] -> first w' = 0) /\ floorFile w' = floorFile w.
Proof.
  intros He Hc Hj Hf Hfl Ht Hs. unfold OpenWAL. rewrite bind_modify.
  rewrite (bind_ok _ _ _ _ _ (sys_ok e He (boot w))). set (w1 := setCalls _ (boot w)).
  destruct (recover_ok e He w1 w0 ess dead g junk Hc Ht Hj Hf Hfl) as (w2 & H2 & Hc2 & Hfi & Hfl2 & P1 & P2 & P3); try done.
  rewrite (bind_ok _ _ _ _ _ H2). destruct (loadStable_ok e w2 m He) as [n ->]; [|by rewrite P2|].
  { unfold stable_ok in *. cbn [stableFile kv setKv] in *. by rewrite P3. }
  exists (setCalls n (setKv m w2)). split; [done|]. split; [by eapply (core_same w2)|]. split_and!; try done.
Qed.

Lemma core_reads e w ess dead g : (forall n, io e n = None) -> core w ess dead g -> (drop dead (mjoin ess) = [] -> first w = 0) ->
  reads_as e w (drop dead (mjoin ess)).
Proof.
  intros He Hc Hf. split; [|split].
  - unfold FirstIndex, gets. do 2 f_equal. destruct (decide (drop dead (mjoin ess) = [])) as [Hn|Hne]; [by rewrite Hf, Hn|].
    by destruct (core_live_first _ _ _ _ Hc Hne) as [-> _].
  - unfold LastIndex, lastLocked, gets. by rewrite (core_lastIdx _ _ _ _ Hc).
  - intros i. by eapply GetLog_ok.
Qed.

(** ** A batch whose I/O fails *)

Section Crash.
Context (e : env) (Hmax : 0 < maxSeg e).

Lemma take_torn l k : entry_ok l -> (0 < k < length (frame l))%nat -> torn (take k (frame l)).
Proof.
  intros [Hl _] Hk. split.
  - intros Hn. apply (f_equal length) in Hn. rewrite length_take in Hn. cbn in Hn. lia.
  - exists l, (drop k (frame l)). split; [done|]. split; [|by rewrite take_drop].
    intros Hn. apply (f_equal length) in Hn. rewrite length_drop in Hn. cbn in Hn. lia.
Qed.

(** The disk after a failed append: the entry is there or not. *)
Lemma crashed_durable w all dead g l : crashed w all dead g l -> entry_ok l -> Index l = g + blen all ->
  durable w all dead g \/ durable w (all ++ [l]) dead g.
Proof.
  intros (w0 & ess & Hc & <- & Hfl & [Hf|(ss & s & pre & es & k & Hs & He & Hf)]) Hl Hi.
  { left. exists w0, ess, []. split; [done|]. split; [done|]. split; [by left|]. rewrite Hf. split; [by eapply core_files_hold|done]. }
  subst ess. pose proof (core_segs_len _ _ _ _ Hc) as Hlen. rewrite Hs, !length_app in Hlen. cbn in Hlen.
  pose proof (core_nodup _ _ _ _ Hc) as Hnd. rewrite Hs, fmap_app in Hnd. cbn in Hnd.
  assert (Hset : forall c, disk (<[base s := c]> (files w0)) (base <$> segs w0) ((frames <$> pre) ++ [c])).
  { intros c. pose proof (c_disk _ _ _ _ Hc) as Hd. rewrite Hs, !fmap_app in Hd. cbn in Hd.
    apply (disk_set _ _ _ (length pre) (base s) c) in Hd; [|done|].
    - rewrite insert_app_at in Hd by (by rewrite length_fmap). rewrite Hs, fmap_app. done.
    - rewrite lookup_app_r by (rewrite length_fmap; lia). rewrite length_fmap. by replace (length pre - length ss)%nat with 0%nat by lia. }
  destruct (decide (length (frame l) <= k)%nat) as [Hk|Hk].
  - right. rewrite take_ge in Hf by lia.
    set (w1 := setOffsets (offsets w0 ++ [MkPos (blen (segs w0) - 1) (blen (frames es)) (blen (frame l))])
      (setFirst (if blen (offsets w0) =? 0 then Index l else first w0)
      (setFiles (<[base s := frames es ++ frame l]> (files w0)) (setSegs (ss ++ [MkSeg (base s) (blen (frames es) + blen (frame l)) (sid s)]) w0)))).
    destruct (core_append w0 w1 pre es dead g l ss s Hc Hi Hl Hs) as [Hc1 Hj1]; try done.
    exists w1, (pre ++ [es ++ [l]]), []. split; [done|]. split; [done|]. split; [by left|]. split; [|done].
    right. exists pre, (es ++ [l]). split; [done|]. rewrite Hf, app_nil_r, frames_snoc. specialize (Hset (frames es ++ frame l)).
    rewrite Hs, fmap_app in Hset. cbn [segs w1 setOffsets setFirst setFiles setSegs]. rewrite fmap_app. exact Hset.
  - left. exists w0, (pre ++ [es]), (take k (frame l)). split; [done|]. split; [done|]. split.
    + destruct k; [by left|]. right. apply take_torn; [done|lia].
    + split; [|done]. right. exists pre, es. split; [done|]. rewrite Hf. apply Hset.
Qed.

Lemma append_next w ess dead g l : core w ess dead g -> Index l = g + blen (mjoin ess) -> entry_ok l ->
  appendLocked e l w = appendTail e l w.
Proof.
  intros Hc Hi [Hl Hb]. rewrite appendLocked_split.
  replace ((blen (offsets w) =? 0) || (Index l =? u64 (lastIdx w + 1))) with true; [done|].
  rewrite (core_offs_empty _ _ _ _ Hc). destruct (decide (drop dead (mjoin ess) = [])) as [Hn|Hne]; [by rewrite bool_decide_eq_true_2|].
  rewrite bool_decide_eq_false_2 by done. cbn [orb]. symmetry. apply Z.eqb_eq.
  rewrite (core_lastIdx _ _ _ _ Hc), (log_wf_last _ (core_live_wf _ _ _ _ Hc) Hne).
  destruct (core_live_first _ _ _ _ Hc Hne) as [-> ->]. rewrite blen_drop. pose proof (c_dead _ _ _ _ Hc).
  destruct (lo_index _ Hl). rewrite wrap_fits; unfold fits, blen in *; lia.
Qed.

Lemma appendAll_any ls : forall w ess dead g, core w ess dead g -> contiguous (g + blen (mjoin ess)) ls -> Forall entry_ok ls ->
  wp (appendAll e ls)
    (post (fun w' _ => exists ess', core w' ess' dead g /\ mjoin ess' = mjoin ess ++ ls /\ others w w')
          (fun w' _ => (exists j, durable w' (mjoin ess ++ take j ls) dead g) /\ others w w')) w.
Proof.
  induction ls as [|l ls IH]; intros w ess dead g Hc Hcl Hl.
  { exists ess. rewrite app_nil_r. by split_and!. }
  inversion Hl as [|? ? Hl1 Hl2]. subst. cbn [appendAll]. pose proof (contiguous_first _ _ _ Hcl) as Hi.
  apply wp_bind. unfold wp. rewrite (append_next w ess dead g l Hc Hi Hl1).
  pose proof (appendTail_ok e Hmax w ess dead g l Hc Hi Hl1) as H. unfold wp in H.
  destruct (appendTail e l w) as [w1 [[]|er|]]; cbn [post] in H; [| |done].
  - destruct H as (ess1 & Hc1 & Hj1 & Ho1 & _). cbn. eapply wp_post_mono; [apply (IH w1 ess1 dead g Hc1)| |].
    + intros i x Hx. rewrite Hj1, blen_app, blen_cons, blen_nil. specialize (Hcl (S i) x Hx). lia.
    + done.
    + intros w2 [] (ess2 & Hc2 & Hj2 & Ho2). exists ess2. split; [done|]. split; [by rewrite Hj2, Hj1, <- app_assoc|].
      destruct Ho1 as (E1 & E2 & E3), Ho2 as (E4 & E5 & E6); split_and!; congruence.
    + intros w2 er ((j & Hj) & Ho2). rewrite Hj1, <- app_assoc in Hj. split; [by exists (S j)|].
      destruct Ho1 as (E1 & E2 & E3), Ho2 as (E4 & E5 & E6); split_and!; congruence.
  - destruct H as (-> & _ & Hcr & Ho). cbn. split; [|done].
    apply crashed_durable in Hcr as [Hd|Hd]; [|exists 1%nat; by cbn|done|done]. exists 0%nat. by rewrite app_nil_r.
Qed.

(** Syncs change nothing but the latch and the call count. *)
Definition upto (w w' : WAL) : Prop :=
  exists p n, w' = MkWAL (segs w) (first w) (offsets w) p (kv w) (files w) (floorFile w) (stableFile w) n.

Lemma upto_trans w1 w2 w3 : upto w1 w2 -> upto w2 w3 -> upto w1 w3.
Proof. intros (p & n & ->) (q & m & ->). by exists q, m. Qed.

Definition still (w w' : WAL) : Prop := upto w w' /\ poisoned w' = poisoned w.

Lemma still_refl w : still w w.
Proof. split; [|done]. exists (poisoned w), (calls w). by destruct w. Qed.

Lemma still_trans w1 w2 w3 : still w1 w2 -> still w2 w3 -> still w1 w3.
Proof. intros [H1 E1] [H2 E2]. split; [by eapply upto_trans|congruence]. Qed.

Lemma still_then {B} m (k : unit -> M B) w Q R :
  wp m (post (fun w' _ => still w w') (fun w' _ => upto w w')) w ->
  (forall w', still w w' -> wp (k tt) (post Q R) w') -> (forall w' er, upto w w' -> R w' er) -> wp (m ≫= k) (post Q R) w.
Proof. intros Hm Hk HR. eapply wp_seq; [exact Hm| |done]. intros w' []. apply Hk. Qed.

Lemma sys_any w : wp (sys e) (post (fun w' _ => still w w') (fun w' _ => upto w w')) w.
Proof.
  assert (Hu : upto w (setCalls (S (calls w)) w)) by (by exists (poisoned w), (S (calls w))).
  unfold wp. destruct (sys_cases e w) as [[_ ->]|[_ ->]]; by cbn.
Qed.

Lemma orPoison_any m Q R w : wp m (post Q R) w ->
  wp (orPoison m) (post Q (fun w' er => poisoned w' = true /\ exists w0, w' = setPoisoned w0 /\ R w0 er)) w.
Proof.
  intros Hm. unfold orPoison. apply wp_bind. eapply wp_mono; [by eapply (wp_try m (fun s r => match r with inl a => Q s a | inr er => R s er end) (fun _ _ => False))|].
  intros w' [[[]|er]|er|]; cbn; try done. intros HR. split; [done|]. by exists w'.
Qed.

Lemma fsync_any w : wp (fsync e) (post (fun w' _ => still w w') (fun w' _ => upto w w')) w.
Proof.
  eapply wp_post_mono; [apply orPoison_any, sys_any|done|]. intros w' er (_ & w0 & -> & Hu). eapply upto_trans; [exact Hu|].
  by exists true, (calls w0).
Qed.

Lemma fsyncAll_any ss : forall w, wp (fsyncAll e ss) (post (fun w' _ => still w w') (fun w' _ => upto w w')) w.
Proof.
  induction ss as [|s ss IH]; intros w; [apply still_refl|]. cbn [fsyncAll]. apply still_then; [apply fsync_any| |done].
  intros w1 H1. eapply wp_post_mono; [apply IH| |].
  - intros w2 ? H2. by eapply still_trans.
  - intros w2 ? H2. eapply upto_trans; [apply H1|done].
Qed.

Lemma syncDir_any w : wp (syncDir e) (post (fun w' _ => still w w') (fun w' _ => upto w w')) w.
Proof.
  unfold syncDir. apply still_then; [apply fsync_any| |done]. intros w1 H1.
  eapply still_then; [apply fsync_any| |].
  - intros w2 H2. eapply wp_post_mono; [apply sys_any| |].
    + intros w3 ? H3. eapply still_trans; [exact H1|]. by eapply still_trans.
    + intros w3 ? H3. eapply upto_trans; [apply H1|]. eapply upto_trans; [apply H2|done].
  - intros w2 er H2. eapply upto_trans; [apply H1|done].
Qed.

Lemma StoreLogs_any w es ls n : wal_holds w es -> contiguous n ls -> Forall entry_ok ls -> es = [] /\ 0 <= n \/ n = lastOf es + 1 /\ es <> [] ->
  wp (StoreLogs e ls)
    (post (fun w' _ => exists ess dead g, core w' ess dead g /\ drop dead (mjoin ess) = es ++ ls /\ stableFile w' = stableFile w)
          (fun w' _ => exists j all dead g, durable w' all dead g /\ drop dead all = es ++ take j ls /\ stableFile w' = stableFile w)) w.
Proof.
  intros Hh Hn Hl Hfol. assert (Hc : exists ess dead g, core w ess dead g /\ es = drop dead (mjoin ess) /\
    (dead <= length (mjoin ess))%nat /\ n = g + blen (mjoin ess)).
  { destruct Hfol as [[-> Hn0]|[-> Hne]].
    - destruct (holds_empty w Hh) as (S1 & S2 & S3 & S4 & _). exists [], 0%nat, n. split; [by apply core_empty|]. change (mjoin []) with (@nil Log). rewrite blen_nil. split_and!; [done|cbn; lia|lia].
    - apply holds_core in Hh as (ess & dead & g & Hc & ->). exists ess, dead, g. pose proof (c_dead _ _ _ _ Hc). split_and!; try done.
      rewrite (log_wf_last _ (core_live_wf _ _ _ _ Hc) Hne). destruct (core_live_first _ _ _ _ Hc Hne) as [-> ->].
      rewrite blen_drop. unfold blen. lia. }
  destruct Hc as (ess & dead & g & Hc & Hes & Hd & ->). unfold StoreLogs. destruct (Z.eqb_spec (blen ls) 0) as [H0|H0].
  { destruct ls; [|rewrite blen_cons in H0; pose proof (blen_nonneg ls); lia]. exists ess, dead, g. rewrite app_nil_r. by split_and!. }
  apply wp_gets. destruct Hh as [Hp _]. rewrite Hp. apply wp_gets.
  eapply wp_seq; [apply (appendAll_any ls w ess dead g Hc Hn Hl)| |].
  2:{ intros w' ? ((j & Hj) & _ & _ & Hst). exists j, (mjoin ess ++ take j ls), dead, g. split_and!; try done. by rewrite drop_app_le, <- Hes. }
  intros w1 _ (ess1 & Hc1 & Hj1 & _ & _ & Hst).
  assert (Hfin : forall w2, upto w1 w2 -> core w2 ess1 dead g /\ drop dead (mjoin ess1) = es ++ ls /\ stableFile w2 = stableFile w).
  { intros w2 (p & k & ->). split; [by eapply (core_same w1)|]. split; [|done]. by rewrite Hj1, drop_app_le, <- Hes. }
  assert (Herr : forall w2 (er : lerr), upto w1 w2 -> exists j all dead g, durable w2 all dead g /\ drop dead all = es ++ take j ls /\ stableFile w2 = stableFile w).
  { intros w2 er (Hc2 & Hd2 & Hs2)%Hfin. exists (length ls), (mjoin ess1), dead, g. rewrite take_ge by lia. split_and!; try done. by apply core_durable. }
  assert (Hok : forall w2 (u : unit), still w1 w2 -> exists ess dead g, core w2 ess dead g /\ drop dead (mjoin ess) = es ++ ls /\ stableFile w2 = stableFile w).
  { intros w2 _ [Hu _]. destruct (Hfin _ Hu) as (? & ? & ?). by exists ess1, dead, g. }
  destruct (sync e); cbn [negb]; [|by apply (Hok w1 tt), still_refl].
  apply wp_gets. eapply still_then; [apply fsyncAll_any| |exact Herr]. intros w2 H2.
  assert (Hne : segs w2 <> []).
  { destruct H2 as [(p & k & ->) _]. cbn. intros Hnil. pose proof (core_segs_len _ _ _ _ Hc1) as Hlen. rewrite Hnil in Hlen.
    destruct ess1; [|done]. apply (f_equal length) in Hj1. rewrite length_app in Hj1. unfold blen in H0. cbn in Hj1. lia. }
  destruct (exists_last Hne) as (ss & s & Hs). unfold wp. rewrite (bind_ok _ _ _ _ _ (activeSeg_ok w2 ss s Hs)).
  match goal with |- context [(if ?b then _ else _)] => destruct b end; [|by apply (Hok w2 tt)].
  eapply wp_post_mono; [apply syncDir_any| |].
  - intros w3 [] H3. apply (Hok w3 tt). by eapply still_trans.
  - intros w3 er H3. apply (Herr w3 er). eapply upto_trans; [apply H2|done].
Qed.

End Crash.

(** ** Sessions *)

Section Sessions.
Context (e : env) (He : forall n, io e n = None) (Hmax : 0 < maxSeg e).

(** The files are those of a store that holds [es] and the stable map [m]. *)
Definition closed (w : WAL) (es : list Log) (m : gmap bytes bytes) : Prop :=
  exists w0, wal_holds w0 es /\ files w = files w0 /\ floorFile w = floorFile w0 /\ stable_ok (setKv m w).

Lemma reopen w es m : closed w es m -> terms_mono es ->
  exists w', OpenWAL e w = (w', Ok tt) /\ wal_holds w' es /\ kv w' = m /\ stable_ok w'.
Proof.
  intros (w0 & (Hp & ess & dead & g & Hc & Hes & Hx) & Hf & Hfl & Hs) Ht. rewrite Hes in Ht.
  destruct (open_ok e w w0 ess [] dead g m) as (w' & H1 & H2 & H3 & H4 & H5 & H6 & H7); try done; [by left| |].
  { rewrite Hf. by eapply core_files_hold. }
  exists w'. split; [done|]. split; [|split; [done|unfold stable_ok in *; cbn in Hs; by rewrite H4, H3]].
  split; [done|]. exists ess, dead, g. split; [done|]. split; [done|]. intros Hn. destruct (Hx Hn) as (Hx1 & _ & Hx3).
  split; [|split; [|by rewrite H7, Hfl]].
  - apply length_zero_iff_nil. rewrite (core_segs_len _ _ _ _ H2), <- (core_segs_len _ _ _ _ Hc). by rewrite Hx1.
  - apply H6. by rewrite <- Hes.
Qed.

Lemma closeSync_ok ss : forall w, exists n, closeSync e ss None w = (setCalls n w, Ok None).
Proof.
  induction ss as [|s ss IH]; intros w; [exists (calls w); by destruct w|]. cbn [closeSync].
  unfold try, mbind at 1, st_bind at 1. rewrite (sys_ok e He). destruct (IH (setCalls (S (calls w)) w)) as [n ->]. by exists n.
Qed.

Lemma closeFiles_ok ss : forall w, exists n, closeFiles e ss None w = (setCalls n w, Ok None).
Proof.
  induction ss as [|s ss IH]; intros w; [exists (calls w); by destruct w|]. cbn [closeFiles].
  unfold try, mbind at 1, st_bind at 1. rewrite (sys_ok e He). destruct (IH (setCalls (S (calls w)) w)) as [n ->]. by exists n.
Qed.

Lemma Close_ok w : exists n, Close e w = (setSegs [] (setCalls n w), Ok tt).
Proof.
  unfold Close. rewrite bind_gets. destruct (closeSync_ok (segs w) w) as [n H1]. rewrite (bind_ok _ _ _ _ _ H1).
  assert (H2 : exists m, (if 0 <? blen (segs w) then r ← try (syncDir e); mret (match r, @None lerr with inr x, None => Some x | _, _ => None end)
    else mret None) (setCalls n w) = (setCalls m w, Ok None)).
  { destruct (0 <? _); [|by exists n]. unfold try, mbind at 1, st_bind at 1. destruct (syncDir_ok e He (setCalls n w)) as [m ->]. by exists m. }
  destruct H2 as [m H2]. rewrite (bind_ok _ _ _ _ _ H2). destruct (closeFiles_ok (segs w) (setCalls m w)) as [k H3].
  rewrite (bind_ok _ _ _ _ _ H3), bind_modify. by exists k.
Qed.

(** Open, operate, close. *)
Definition session (os : list lop) (w : WAL) : WAL * list (option lres) :=
  match OpenWAL e w with
  | (w1, Ok _) =>
      let (w2, rs) := runOps (H := wal_LogStore e He Hmax) os w1 in
      match Close e w2 with (w3, Ok _) => (w3, rs) | (w3, _) => (w3, [None]) end
  | (w1, _) => (w1, [None])
  end.

Fixpoint sessions (ss : list (list lop)) (w : WAL) : WAL * list (option lres) :=
  match ss with
  | [] => (w, [])
  | os :: ss => let (w1, r1) := session os w in let (w2, r2) := sessions ss w1 in (w2, r1 ++ r2)
  end.

(** Terms never decrease in a log that is reopened. *)
Fixpoint terms_ok (ss : list (list lop)) (es : list Log) : Prop :=
  match ss with [] => True | os :: ss => terms_mono es /\ terms_ok ss (specRun os es).1 end.

Lemma holds_closed w es : wal_holds w es -> stable_ok w -> forall n, closed (setSegs [] (setCalls n w)) es (kv w).
Proof. intros Hh Hs n. exists w. by split_and!. Qed.

Lemma session_ok os w es m : closed w es m -> terms_mono es -> lops_ok os es ->
  exists w' m', session os w = (w', Some <$> (specRun os es).2) /\ closed w' (specRun os es).1 m'.
Proof.
  intros Hcl Ht Ho. unfold session. destruct (reopen w es m Hcl Ht) as (w1 & -> & Hh1 & _ & Hs1).
  destruct (runOps_spec (LS := wal_LogStore e He Hmax) os w1 es (conj Hh1 Hs1) Ho) as (w2 & -> & Hh2 & Hs2).
  destruct (Close_ok w2) as [n ->]. do 2 eexists. split; [done|]. by apply holds_closed.
Qed.

Lemma specRun_app a b es : specRun (a ++ b) es =
  let (es1, r1) := specRun a es in let (es2, r2) := specRun b es1 in (es2, r1 ++ r2).
Proof.
  revert es. induction a as [|o a IH]; intros es; [cbn; by destruct (specRun b es)|]. cbn [app specRun].
  destruct (specOp o es) as [es1 r]. rewrite IH. destruct (specRun a es1) as [es2 r1]. by destruct (specRun b es2).
Qed.

Lemma lops_ok_app a b es : lops_ok (a ++ b) es -> lops_ok a es /\ lops_ok b (specRun a es).1.
Proof.
  revert es. induction a as [|o a IH]; intros es; [done|]. cbn [app lops_ok specRun]. intros [Ho Hos]. apply IH in Hos as [Ha Hb].
  destruct (specOp o es) as [es1 r]. cbn [fst] in *. destruct (specRun a es1) as [es2 r1] eqn:E1. by rewrite ?E1.
Qed.

Lemma sessions_ok ss : forall w es m, closed w es m -> terms_ok ss es -> lops_ok (mjoin ss) es ->
  (sessions ss w).2 = Some <$> (specRun (mjoin ss) es).2.
Proof.
  induction ss as [|os ss IH]; intros w es m Hcl Ht Ho; [done|]. destruct Ht as [Ht Hts].
  change (mjoin (os :: ss)) with (os ++ mjoin ss) in *. apply lops_ok_app in Ho as [Ho1 Ho2]. rewrite specRun_app. cbn [sessions].
  destruct (session_ok os w es m Hcl Ht Ho1) as (w1 & m1 & -> & Hcl1). destruct (specRun os es) as [es1 r1]. cbn [fst snd] in *.
  specialize (IH w1 es1 m1 Hcl1 Hts Ho2). destruct (sessions ss w1) as [w2 r2]. destruct (specRun (mjoin ss) es1) as [es2 r3].
  cbn [snd] in *. by rewrite IH, fmap_app.
Qed.

Lemma emptyDir_closed : closed emptyDir [] ∅.
Proof. exists emptyDir. split; [apply emptyDir_holds|done]. Qed.

(** C16. Restarts are invisible: however the operations on the durable store are cut
    into sessions (open, operate, close), starting from an empty directory, they
    give the results the in-memory store gives without any restart, and those are
    the results of the abstract log. I/O succeeds and terms do not decrease in a
    log that is reopened. *)
Theorem wal_refines_mem ss : lops_ok (mjoin ss) [] -> terms_ok ss [] ->
  (sessions ss emptyDir).2 = (runOps (H := MemLog.mem_LogStore) (mjoin ss) MemLog.NewMem).2 /\
  (sessions ss emptyDir).2 = Some <$> (specRun (mjoin ss) []).2.
Proof.
  intros Ho Ht. rewrite (sessions_ok ss _ _ _ emptyDir_closed Ht Ho). split; [|done].
  destruct (runOps_spec (LS := MemLog.mem_LogStore) (mjoin ss) MemLog.NewMem []) as (s' & -> & _); [by split|done|done].
Qed.

End Sessions.

Definition orderOf (m : gmap bytes bytes) : list (bytes * bytes) := map_to_list m.
(** A disk that works, with a segment per entry. *)
Definition goodEnv : env := MkEnv (fun _ => None) 1 true orderOf.

Definition entry (i t : Z) : Log := MkLog i t 0 0 [Byte.x61] [].

Lemma entry_is_ok i t : 0 <= i < 2 ^ 63 -> 0 <= t < 2 ^ 63 -> entry_ok (entry i t).
Proof. intros Hi Ht. split; [|cbn; lia]. split; unfold fits; cbn; first [lia|by vm_compute]. Qed.

Lemma terms_sorted es : StronglySorted Z.le (Term <$> es) -> terms_mono es.
Proof.
  induction es as [|z es IH]; intros Hs i j x y Hij Hx Hy; [done|]. apply StronglySorted_inv in Hs as [Hs Hz].
  destruct j as [|j]; [assert (i = 0%nat) as -> by lia; cbn in *; replace y with x by congruence; lia|].
  destruct i as [|i]; [|by eapply (IH Hs i j); [lia| |]]. injection Hx as <-. rewrite Forall_forall in Hz. apply Hz.
  apply list_elem_of_fmap. exists y. split; [done|]. by eapply list_elem_of_lookup_2.
Qed.

Definition sampleSessions : list (list lop) :=
  [[LStore [entry 1 1; entry 2 1; entry 3 2]; LGet 2]; [LDelete 1 1; LFirst]; [LGet 1; LStore [entry 3 3]; LLast]; [LFirst; LGet 3]].

Lemma wal_refines_mem_witness :
  (sessions goodEnv (fun _ => eq_refl) eq_refl sampleSessions emptyDir).2 =
  Some <$> [RUnit; REntry (entry 2 1); RUnit; RIndex 2; RFail ErrLogNotFound; RUnit; RIndex 3; RIndex 2; REntry (entry 3 3)].
Proof.
  destruct (wal_refines_mem goodEnv (fun _ => eq_refl) eq_refl sampleSessions) as [_ ->]; [| |reflexivity].
  - split_and!; try done; try (left; by vm_compute); repeat constructor; by vm_compute.
  - cbn [terms_ok sampleSessions]. split_and!; try done; apply terms_sorted; vm_compute; repeat constructor; discriminate.
Defined.

(** ** Crash safety *)

(** C14. A batch is crash safe. On a store that holds [es], storing entries that
    follow it, whatever the outcome of each system call (a write may stop after
    any number of bytes, a sync or a create may fail): the call does not panic,
    and reopening the directory succeeds and reads as [es] followed by a prefix of
    the batch, all of it when the call returned without error. The stable map is
    what it was. When the log is not empty the store is again one that holds it. *)
Theorem wal_crash_safe e e' w es n ls :
  0 < maxSeg e -> (forall n, io e' n = None) -> wal_holds w es -> stable_ok w ->
  contiguous n ls -> Forall entry_ok ls -> es = [] /\ 0 <= n \/ n = lastOf es + 1 /\ es <> [] -> terms_mono (es ++ ls) ->
  let '(w1, r) := StoreLogs e ls w in
  r <> Panic /\
  exists w2 j, OpenWAL e' w1 = (w2, Ok tt) /\ reads_as e' w2 (es ++ take j ls) /\ kv w2 = kv w /\ stable_ok w2 /\
    (r = Ok tt -> take j ls = ls) /\ (es ++ take j ls <> [] -> wal_holds w2 (es ++ take j ls)).
Proof.
  intros Hmax He' Hh Hst Hn Hl Hfol Ht. pose proof (StoreLogs_any e Hmax w es ls n Hh Hn Hl Hfol) as H. unfold wp in H.
  destruct (StoreLogs e ls w) as [w1 r]. split; [by destruct r|].
  assert (Hd : exists j all dead g, durable w1 all dead g /\ drop dead all = es ++ take j ls /\ stableFile w1 = stableFile w /\ (r = Ok tt -> take j ls = ls)).
  { destruct r as [[]|er|]; cbn [post] in H; [| |done].
    - destruct H as (ess & dead & g & Hc & Hd & Hs). exists (length ls), (mjoin ess), dead, g. rewrite take_ge by lia. split_and!; try done. by apply core_durable.
    - destruct H as (j & all & dead & g & Hd & Hda & Hs). by exists j, all, dead, g. }
  destruct Hd as (j & all & dead & g & (w0 & ess & junk & Hc & <- & Hj & Hf & Hfl) & Hda & Hs & Hr).
  destruct (open_ok e' w1 w0 ess junk dead g (kv w)) as (w2 & H1 & H2 & H3 & H4 & H5 & H6 & H7); try done.
  { rewrite Hda. intros a b x y Hab Hx Hy. eapply (Ht a b); [done| |]; (eapply prefix_lookup_Some; [done|]; apply prefix_app, prefix_take). }
  { unfold stable_ok in *. cbn. by rewrite Hs. }
  exists w2, j. split; [done|]. split; [rewrite <- Hda; by eapply core_reads|]. split; [done|].
  split; [unfold stable_ok in *; by rewrite H4, H3, Hs|]. split; [done|].
  intros Hne. split; [done|]. exists ess, dead, g. split; [done|]. by split.
Qed.

(** A disk whose second segment write stops after seven bytes. *)
Definition badEnv : env := MkEnv (fun n => if decide (n = 3%nat) then Some 7%nat else None) 1 true orderOf.

Lemma wal_crash_safe_witness :
  (StoreLogs badEnv [entry 1 1; entry 2 1; entry 3 2] emptyDir).2 = Err errIO /\
  exists w2 j, OpenWAL goodEnv (StoreLogs badEnv [entry 1 1; entry 2 1; entry 3 2] emptyDir).1 = (w2, Ok tt) /\
    reads_as goodEnv w2 (take j [entry 1 1; entry 2 1; entry 3 2]).
Proof.
  split; [vm_compute; reflexivity|].
  pose proof (wal_crash_safe badEnv goodEnv emptyDir [] 1 [entry 1 1; entry 2 1; entry 3 2]) as H.
  destruct (StoreLogs badEnv [entry 1 1; entry 2 1; entry 3 2] emptyDir) as [w1 r]. destruct H as (_ & w2 & j & H1 & H2 & _).
  - reflexivity.
  - reflexivity.
  - apply emptyDir_holds.
  - reflexivity.
  - intros [|[|[|i]]] x; intros [= <-]; reflexivity.
  - repeat constructor; by vm_compute.
  - left. by split.
  - apply terms_sorted. vm_compute. repeat constructor; discriminate.
  - by exists w2, j.
Defined.

Section Stable.
Context (e : env) (Hord : forall m, order e m ≡ₚ map_to_list m).

Lemma writeFileDurable_any publish w :
  (forall w w', still w w' -> still (publish w) (publish w')) ->
  wp (writeFileDurable e publish)
    (post (fun w' _ => still (publish w) w') (fun w' _ => poisoned w' = true /\ (upto w w' \/ upto (publish w) w'))) w.
Proof.
  intros Hq. assert (Hpo : forall w0, upto w0 (setPoisoned w0)) by (intros w0; by exists true, (calls w0)).
  unfold writeFileDurable. eapply wp_post_mono;
    [apply (orPoison_any _ (fun w' _ => still (publish w) w') (fun w' _ => upto w w' \/ upto (publish w) w'))|done|].
  2:{ intros w' er (Ht & w0 & -> & [Hu|Hu]); (split; [done|]); [left|right]; by eapply upto_trans. }
  assert (Hsys : forall (k : unit -> M unit) w0, still w w0 -> (forall w1, still w w1 -> wp (k tt) (post (fun w' _ => still (publish w) w')
    (fun w' _ => upto w w' \/ upto (publish w) w')) w1) -> wp (sys e ≫= k) (post (fun w' _ => still (publish w) w')
    (fun w' _ => upto w w' \/ upto (publish w) w')) w0).
  { intros k w0 H0 Hk. eapply (still_then); [apply sys_any| |].
    - intros w1 H1. apply Hk. by eapply still_trans.
    - intros w1 ? H1. left. eapply upto_trans; [apply H0|done]. }
  apply Hsys; [apply still_refl|]. intros w1 H1. apply Hsys; [done|]. intros w2 H2. apply Hsys; [done|]. intros w3 H3.
  apply Hsys; [done|]. intros w4 H4. apply Hsys; [done|]. intros w5 H5. apply wp_modify.
  eapply wp_post_mono; [apply syncDir_any| |].
  - intros w6 ? H6. eapply still_trans; [by apply Hq|done].
  - intros w6 ? H6. right. eapply upto_trans; [by apply Hq|done].
Qed.

(** What the stable file is after a write of [m]. *)
Definition stableFileOf (m : gmap bytes bytes) : bytes := stableBytes e m ++ le_put 4 (ChecksumIEEE (stableBytes e m)).

Lemma stable_file_ok w m : blen (stableBytes e m) < 2 ^ 32 -> stableFile w = Some (stableFileOf m) -> stable_ok (setKv m w).
Proof. intros Hb Hs. unfold stable_ok. cbn [stableFile kv setKv]. rewrite Hs. by exists (order e m). Qed.

Lemma Set_any k v w : poisoned w = false ->
  wp (Set_ e k v)
    (post (fun w' _ => upto (setStableFile (Some (stableFileOf (<[k := v]> (kv w)))) (setKv (<[k := v]> (kv w)) w)) w' /\ poisoned w' = false)
          (fun w' _ => poisoned w' = true /\ files w' = files w /\ floorFile w' = floorFile w /\
             (stableFile w' = stableFile w \/ stableFile w' = Some (stableFileOf (<[k := v]> (kv w)))))) w.
Proof.
  intros Hp. unfold Set_. apply wp_gets. rewrite Hp. apply wp_modify. unfold writeStableLocked. apply wp_gets. cbn [kv setKv].
  eapply wp_post_mono; [apply writeFileDurable_any| |].
  - intros w1 w2 [(p & n & ->) ?]. split; [by exists p, n|done].
  - intros w' _ [Hu Hpo]. split; [exact Hu|by rewrite Hpo].
  - intros w' er [Ht [(p & n & ->)|(p & n & ->)]]; (split; [done|]); (split; [done|]); (split; [done|]); [by left|by right].
Qed.

End Stable.

Lemma poisoned_refuses e w : poisoned w = true ->
  (forall ls, ls <> [] -> StoreLogs e ls w = (w, Err ErrWALPoisoned)) /\ (forall lo hi, DeleteRange e lo hi w = (w, Err ErrWALPoisoned)) /\
  (forall k v, Set_ e k v w = (w, Err ErrWALPoisoned)) /\ (forall k, Get k w = (w, Err ErrWALPoisoned)).
Proof.
  intros Hp. split_and!; intros; unfold StoreLogs, DeleteRange, Set_, Get.
  - destruct (Z.eqb_spec (blen ls) 0) as [H0|_]; [destruct ls; [done|rewrite blen_cons in H0; pose proof (blen_nonneg ls); lia]|].
    by rewrite bind_gets, Hp.
  - by rewrite bind_gets, Hp.
  - by rewrite bind_gets, Hp.
  - by rewrite bind_gets, Hp.
Qed.

(** C17. The stable map (the vote and the term of raft) is updated atomically and fails
    closed. Setting a key on a store that holds [es], whatever the outcome of each
    system call: the call does not panic; reopening gives the same log, and the new
    map or, if the call failed, possibly the old one. After success the key reads
    back its value; after failure every operation that writes, and every read of
    the map, is refused until the store is reopened. The size of the map fits
    32 bits, and [order] lists the map in any order. *)
Theorem wal_stable_atomic e e' w es k v :
  (forall m, order e m ≡ₚ map_to_list m) -> (forall n, io e' n = None) -> wal_holds w es -> stable_ok w -> terms_mono es ->
  blen (stableBytes e (<[k := v]> (kv w))) < 2 ^ 32 ->
  let '(w1, r) := Set_ e k v w in
  r <> Panic /\
  (exists w2, OpenWAL e' w1 = (w2, Ok tt) /\ wal_holds w2 es /\ stable_ok w2 /\
    (kv w2 = <[k := v]> (kv w) \/ kv w2 = kv w /\ r <> Ok tt)) /\
  (r = Ok tt -> wal_holds w1 es /\ stable_ok w1 /\ kv w1 = <[k := v]> (kv w) /\ Get k w1 = (w1, Ok v)) /\
  (r <> Ok tt ->
    (forall ls, ls <> [] -> StoreLogs e ls w1 = (w1, Err ErrWALPoisoned)) /\ (forall lo hi, DeleteRange e lo hi w1 = (w1, Err ErrWALPoisoned)) /\
    (forall k v, Set_ e k v w1 = (w1, Err ErrWALPoisoned)) /\ (forall k, Get k w1 = (w1, Err ErrWALPoisoned))).
Proof.
  intros Hord He' Hh Hst Ht Hb. pose proof (Set_any e k v w (proj1 Hh)) as H. unfold wp in H.
  destruct (Set_ e k v w) as [w1 r]. split; [by destruct r|].
  assert (Hopen : forall m, files w1 = files w -> floorFile w1 = floorFile w -> stable_ok (setKv m w1) ->
    exists w2, OpenWAL e' w1 = (w2, Ok tt) /\ wal_holds w2 es /\ stable_ok w2 /\ kv w2 = m).
  { intros m Hf Hfl Hs. destruct (reopen e' He' w1 es m) as (w2 & H1 & H2 & H3 & H4); [by exists w|done|by exists w2]. }
  destruct r as [[]|er|]; cbn [post] in H; [| |done].
  - destruct H as [(p & n & Hw1) Hp]. assert (Hk1 : kv w1 = <[k := v]> (kv w)) by (by subst w1).
    assert (Hs1 : stable_ok w1).
    { replace w1 with (setKv (<[k := v]> (kv w)) w1) by (rewrite <- Hk1; by destruct w1). apply (stable_file_ok e Hord); [done|by subst w1]. }
    split; [|split; [intros _|done]].
    + destruct (Hopen (<[k := v]> (kv w))) as (w2 & H1 & H2 & H3 & H4); [by subst w1..| |].
      * rewrite <- Hk1. by destruct w1.
      * exists w2. by split_and!; [..|left].
    + split; [|split; [done|split; [done|]]].
      * destruct Hh as (_ & ess & dead & g & Hc & Hx). split; [done|]. exists ess, dead, g. split; [|by subst w1].
        eapply (core_same w); [|done]. by subst w1.
      * unfold Get. rewrite bind_gets, Hp. unfold gets. by rewrite Hk1, lookup_insert_eq.
  - destruct H as (Hp & Hf & Hfl & [Hs|Hs]); (split; [|split; [done|intros _; by apply poisoned_refuses]]).
    + destruct (Hopen (kv w)) as (w2 & H1 & H2 & H3 & H4); try done. { unfold stable_ok in *. cbn. by rewrite Hs. }
      exists w2. split_and!; try done. by right.
    + destruct (Hopen (<[k := v]> (kv w))) as (w2 & H1 & H2 & H3 & H4); try done. { by eapply stable_file_ok. }
      exists w2. split_and!; try done. by left.
Qed.

Lemma wal_stable_atomic_witness :
  (Set_ badEnv [Byte.x6b] [Byte.x76] emptyDir).2 = Err errIO /\
  exists w2, OpenWAL goodEnv (Set_ badEnv [Byte.x6b] [Byte.x76] emptyDir).1 = (w2, Ok tt) /\ wal_holds w2 [].
Proof.
  split; [vm_compute; reflexivity|].
  pose proof (wal_stable_atomic badEnv goodEnv emptyDir [] [Byte.x6b] [Byte.x76]) as H.
  destruct (Set_ badEnv [Byte.x6b] [Byte.x76] emptyDir) as [w1 r]. destruct H as (_ & (w2 & H1 & H2 & _) & _).
  - intros m. reflexivity.
  - reflexivity.
  - apply emptyDir_holds.
  - reflexivity.
  - intros i j x y _ Hx. by rewrite lookup_nil in Hx.
  - vm_compute. reflexivity.
  - by exists w2.
Defined.

(** ** Limits *)

Definition bigEntry (i t : Z) : Log := MkLog i t 0 0 (replicate 40 Byte.x61) [].

(** A disk on which one removal of a segment file fails. *)
Definition stuckEnv : env := MkEnv (fun n => if decide (n = 16%nat) then Some 0%nat else None) 60 true orderOf.

(** A segment file that could not be removed costs acknowledged entries. Six
    entries are stored in three segments; entry 2 is then rewritten with a newer
    term, which removes the later segments, and the removal of one file fails (the
    error is ignored); entries 2 to 6 are stored, and both calls succeed. After a
    restart the recovery meets the stale segment among the live ones, cuts it, and
    stops: the synced entry 6, in the next segment, is gone. *)
Lemma stale_segment_loses_entries :
  let '(w1, r1) := StoreLogs stuckEnv ((fun i => entry i 1) <$> [1; 2; 3; 4; 5; 6]) emptyDir in
  let '(w2, r2) := StoreLogs stuckEnv [bigEntry 2 2; bigEntry 3 2; entry 4 2; entry 5 2; entry 6 2] w1 in
  let '(w3, r3) := OpenWAL goodEnv w2 in
  r1 = Ok tt /\ r2 = Ok tt /\ r3 = Ok tt /\ (LastIndex w2).2 = Ok 6 /\ (LastIndex w3).2 = Ok 5 /\
  (GetLog goodEnv 6 zeroLog w2).2 = Ok (entry 6 2) /\ (GetLog goodEnv 6 zeroLog w3).2 = Err ErrLogNotFound.
Proof. vm_compute. by split_and!. Qed.

(** A record whose length is between that of a checksum and that of a checksum and
    the two integers the recovery reads, with a correct checksum, makes the open
    panic: the bounds check of the scan is on the checksum alone. *)
Theorem short_record_panics :
  (OpenWAL goodEnv (setFiles {[ 1 := le_put 4 4 ++ le_put 4 (ChecksumIEEE []) ]} emptyDir)).2 = Panic.
Proof. by vm_compute. Qed.
