(* ===== verification/Ring.v ===== *)
(** * Circular buffers, and the catch-up backlog of a replication engine
    (type ring of src/shard/pbisr/engine.go).

    [live] is the content of a circular buffer as a list; the first part is the
    theory the backlog and the in-flight window share. *)
From S2P Require Import Prelude.

(** ** Circular buffers *)

(** Go's [int(x)] of a [uint64]. *)
Definition i64 (x : Z) : Z := let x := u64 x in if x <? 2 ^ 63 then x else x - 2 ^ 64.

(** [buf[i % len(buf)]] and the store to it: division by zero and a negative index
    panic. *)
Definition cell (n i : Z) : option nat := if (n =? 0) || (Z.rem i n <? 0) then None else Some (Z.to_nat (Z.rem i n)).
Definition cget {E A} (buf : list A) (i : Z) : outcome E A :=
  match cell (blen buf) i ≫= fun k => buf !! k with Some a => Ok a | None => Panic end.
Definition cset {E A} (buf : list A) (i : Z) (a : A) : outcome E (list A) :=
  match cell (blen buf) i with Some k => Ok (<[k := a]> buf) | None => Panic end.

(** The [c] elements from [h] on. *)
Definition live {A} (buf : list A) (h c : Z) : list A :=
  take (Z.to_nat c) (drop (Z.to_nat h) buf ++ take (Z.to_nat h) buf).

(** Where element [i] of the content is. *)
Definition at_slot (n h i : Z) : nat := Z.to_nat (if h + i <? n then h + i else h + i - n).

Ltac wraps := repeat match goal with |- context [?a <? ?b] => destruct (Z.ltb_spec a b) | _ : context [?a <? ?b] |- _ => destruct (Z.ltb_spec a b) end.

Section Live.
Context {A : Type} (buf : list A) (h c : Z) (Hh : 0 <= h < blen buf) (Hc : 0 <= c <= blen buf).

Lemma live_len : blen (live buf h c) = c.
Proof. unfold live. len. Qed.

Lemma live_lookup i : 0 <= i < c -> live buf h c !! Z.to_nat i = buf !! at_slot (blen buf) h i.
Proof.
  intros Hi. unfold live, at_slot. rewrite lookup_take_lt by lia. destruct (Z.ltb_spec (h + i) (blen buf)).
  - rewrite lookup_app_l by (rewrite length_drop; unfold blen in *; lia). rewrite lookup_drop. f_equal. lia.
  - rewrite lookup_app_r by (rewrite length_drop; unfold blen in *; lia). rewrite length_drop, lookup_take_lt by (unfold blen in *; lia).
    f_equal. unfold blen in *. lia.
Qed.

Lemma cell_at i : 0 <= i <= blen buf -> cell (blen buf) (h + i) = Some (at_slot (blen buf) h i).
Proof.
  intros Hi. unfold cell, at_slot. rewrite (proj2 (Z.eqb_neq _ _)) by lia. cbn [orb].
  assert (Hr : Z.rem (h + i) (blen buf) = if h + i <? blen buf then h + i else h + i - blen buf).
  { destruct (Z.ltb_spec (h + i) (blen buf)); [apply Z.rem_small; lia|]. rewrite Z.rem_mod_nonneg by lia. symmetry. apply (Z.mod_unique_pos _ _ 1); lia. }
  rewrite Hr. by rewrite (proj2 (Z.ltb_ge _ _)) by (destruct (Z.ltb_spec (h + i) (blen buf)); lia).
Qed.

Lemma at_lt i : 0 <= i <= blen buf -> (at_slot (blen buf) h i < length buf)%nat.
Proof. intros Hi. unfold at_slot. unfold blen in *. destruct (Z.ltb_spec (h + i) (Z.of_nat (length buf))); lia. Qed.

Lemma at_inj i j : 0 <= i < blen buf -> 0 <= j < blen buf -> at_slot (blen buf) h i = at_slot (blen buf) h j -> i = j.
Proof. intros Hi Hj. unfold at_slot. destruct (Z.ltb_spec (h + i) (blen buf)), (Z.ltb_spec (h + j) (blen buf)); lia. Qed.

Lemma cget_live {E} i a : 0 <= i < c -> live buf h c !! Z.to_nat i = Some a -> cget (E:=E) buf (h + i) = Ok a.
Proof. intros Hi Ha. unfold cget. rewrite cell_at by lia. cbn. by rewrite <- live_lookup, Ha. Qed.

Lemma cset_at {E} i a : 0 <= i <= blen buf -> cset (E:=E) buf (h + i) a = Ok (<[at_slot (blen buf) h i := a]> buf).
Proof. intros Hi. unfold cset. by rewrite cell_at. Qed.

End Live.

(** Two contents are equal when they are slot by slot. *)
Lemma live_eq {A} (buf' : list A) h' c' (l : list A) : 0 <= h' < blen buf' -> 0 <= c' <= blen buf' -> blen l = c' ->
  (forall i, 0 <= i < c' -> buf' !! at_slot (blen buf') h' i = l !! Z.to_nat i) -> live buf' h' c' = l.
Proof.
  intros Hh' Hc' Hl Hi. apply list_eq. intros i. destruct (decide (Z.of_nat i < c')) as [Hlt|Hge].
  - specialize (Hi (Z.of_nat i) ltac:(lia)). rewrite Nat2Z.id in Hi. rewrite <- Hi. unfold live, at_slot. rewrite lookup_take_lt by lia.
    destruct (Z.ltb_spec (h' + Z.of_nat i) (blen buf')).
    + rewrite lookup_app_l by (rewrite length_drop; unfold blen in *; lia). rewrite lookup_drop. f_equal. lia.
    + rewrite lookup_app_r by (rewrite length_drop; unfold blen in *; lia).
      rewrite length_drop, lookup_take_lt by (unfold blen in *; lia). f_equal. unfold blen in *. lia.
  - rewrite !lookup_ge_None_2; [done|unfold blen in *; lia|]. unfold live. rewrite length_take. lia.
Qed.

Lemma live_push {A} (buf : list A) h c x : 0 <= h < blen buf -> 0 <= c < blen buf ->
  live (<[at_slot (blen buf) h c := x]> buf) h (c + 1) = live buf h c ++ [x].
Proof.
  intros Hh Hc. apply live_eq; rewrite ?blen_insert, ?blen_app; try lia.
  { rewrite live_len by lia. rewrite blen_cons, blen_nil. lia. }
  intros i Hi. destruct (decide (i = c)) as [->|Hne].
  - rewrite list_lookup_insert_eq by (apply at_lt; lia). rewrite lookup_app_r by (pose proof (live_len buf h c Hh ltac:(lia)); unfold blen in *; lia).
    pose proof (live_len buf h c Hh ltac:(lia)). replace (_ - _)%nat with 0%nat by (unfold blen in *; lia). done.
  - rewrite list_lookup_insert_ne by (intros Heq%at_inj; lia). rewrite lookup_app_l by (pose proof (live_len buf h c Hh ltac:(lia)); unfold blen in *; lia).
    by rewrite live_lookup by lia.
Qed.

(** The head slot may be overwritten when it is popped. *)
Lemma live_pop {A} (buf buf' : list A) h c : 0 <= h < blen buf -> 0 < c <= blen buf -> blen buf' = blen buf ->
  (forall i, i <> Z.to_nat h -> buf' !! i = buf !! i) ->
  live buf' (if h + 1 <? blen buf then h + 1 else 0) (c - 1) = tail (live buf h c).
Proof.
  intros Hh Hc Hl Hs. assert (Hb : 0 <= (if h + 1 <? blen buf then h + 1 else 0) < blen buf') by (destruct (Z.ltb_spec (h + 1) (blen buf)); lia).
  apply live_eq; try lia.
  { pose proof (live_len buf h c Hh ltac:(lia)) as H. destruct (live buf h c); [rewrite blen_nil in H; lia|]. rewrite blen_cons in H. cbn [tail]. lia. }
  intros i Hi. rewrite lookup_tail, <- Z2Nat.inj_succ, live_lookup by lia. rewrite Hl.
  assert (Ha : at_slot (blen buf) (if h + 1 <? blen buf then h + 1 else 0) i = at_slot (blen buf) h (Z.succ i)).
  { unfold at_slot. wraps; lia. }
  rewrite Ha. apply Hs. unfold at_slot. destruct (Z.ltb_spec (h + Z.succ i) (blen buf)); lia.
Qed.

(** Full: the head slot is overwritten and becomes the last. *)
Lemma live_roll {A} (buf : list A) h x : 0 <= h < blen buf ->
  live (<[Z.to_nat h := x]> buf) (if h + 1 <? blen buf then h + 1 else 0) (blen buf) = tail (live buf h (blen buf)) ++ [x].
Proof.
  intros Hh. rewrite <- (live_pop buf (<[Z.to_nat h := x]> buf)); [|lia|lia|apply blen_insert|intros; by apply list_lookup_insert_ne].
  set (h' := if h + 1 <? blen buf then h + 1 else 0). assert (0 <= h' < blen buf) by (unfold h'; destruct (Z.ltb_spec (h + 1) (blen buf)); lia).
  rewrite <- (live_push _ h' (blen buf - 1)); rewrite ?blen_insert; try lia.
  assert (Ha : at_slot (blen buf) h' (blen buf - 1) = Z.to_nat h).
  { unfold at_slot, h'. wraps; lia. }
  rewrite Ha, list_insert_insert_eq. f_equal. lia.
Qed.

Lemma rem_next n h : 0 <= h < n -> Z.rem (h + 1) n = if h + 1 <? n then h + 1 else 0.
Proof.
  intros Hh. destruct (Z.ltb_spec (h + 1) n); [by apply Z.rem_small; lia|]. replace (h + 1) with n by lia. by apply Z.rem_same; lia.
Qed.

(** ** The backlog *)

Module Ring.

Record ringEntry := MkEntry { reEpoch : Z; reSeq : Z; rePrevEpoch : Z; reData : bytes }.
Record ring := MkRing { buf : list ringEntry; head : Z; count : Z }.

Definition zeroEntry : ringEntry := MkEntry 0 0 0 [].

Definition newRing (capacity : Z) : ring :=
  let capacity := if capacity <? 1 then 1 else capacity in
  MkRing (replicate (Z.to_nat capacity) zeroEntry) 0 0.

Section Ops.
Context {E : Type}.

(** The ring and the data of the entry it evicted. *)
Definition append (e : ringEntry) (r : ring) : outcome E (ring * option bytes) :=
  if count r <? blen (buf r) then
    b ← cset (buf r) (head r + count r) e;
    Ok (MkRing b (head r) (count r + 1), None)
  else
    old ← cget (buf r) (head r);
    b ← cset (buf r) (head r) e;
    Ok (MkRing b (Z.rem (head r + 1) (blen b)) (count r), Some (reData old)).

Fixpoint reset_loop (n : nat) (i : Z) (r : ring) : outcome E ring :=
  match n with
  | O => Ok r
  | S n =>
      b ← cset (buf r) (head r + i) zeroEntry;
      reset_loop n (i + 1) (MkRing b (head r) (count r))
  end.
Definition reset (r : ring) : outcome E ring :=
  r ← reset_loop (Z.to_nat (count r)) 0 r;
  Ok (MkRing (buf r) 0 0).

(** The oldest and the newest sequence number. *)
Definition span (r : ring) : outcome E (option (Z * Z)) :=
  if count r =? 0 then Ok None else
  o ← cget (buf r) (head r);
  n ← cget (buf r) (head r + count r - 1);
  Ok (Some (reSeq o, reSeq n)).

Definition at_ (seq : Z) (r : ring) : outcome E (option ringEntry) :=
  s ← span r;
  match s with
  | None => Ok None
  | Some (oldest, newest) =>
      if (seq <? oldest) || (newest <? seq) then Ok None else
      ent ← cget (buf r) (head r + i64 (seq - oldest));
      Ok (if negb (reSeq ent =? seq) then None else Some ent)
  end.

End Ops.

(** The entries, oldest first. *)
Definition entries (r : ring) : list ringEntry := live (buf r) (head r) (count r).

(** A slot that holds no entry is zero; sequence numbers are positive, and below
    2^62 so that the index arithmetic of [at_] does not overflow an [int]. *)
Record ring_ok (r : ring) : Prop := {
  r_head : 0 <= head r < blen (buf r);
  r_count : 0 <= count r <= blen (buf r);
  r_size : blen (buf r) < 2 ^ 62;
  r_free : forall i, count r <= i < blen (buf r) -> buf r !! at_slot (blen (buf r)) (head r) i = Some zeroEntry;
  r_seqs : Forall (fun e => 0 < reSeq e < 2 ^ 62) (entries r);
}.

Lemma newRing_ok c : 0 < c < 2 ^ 62 -> ring_ok (newRing c) /\ entries (newRing c) = [] /\ blen (buf (newRing c)) = c.
Proof.
  intros Hc. unfold newRing. rewrite (proj2 (Z.ltb_ge _ _)) by lia. assert (Hb : blen (replicate (Z.to_nat c) zeroEntry) = c) by len.
  split; [|split; [done|exact Hb]]. split; cbn [buf head count]; rewrite ?Hb; try lia; [|constructor].
  intros i Hi. apply lookup_replicate_2. unfold at_slot. wraps; lia.
Qed.

Section Ring.
Context {E : Type} (r : ring) (Hr : ring_ok r).

Lemma entries_len : blen (entries r) = count r.
Proof. apply live_len; apply Hr. Qed.

Lemma append_room e : count r < blen (buf r) -> 0 < reSeq e < 2 ^ 62 ->
  exists r', append (E:=E) e r = Ok (r', None) /\ ring_ok r' /\ entries r' = entries r ++ [e] /\ blen (buf r') = blen (buf r).
Proof.
  intros Hlt He. destruct Hr as [H1 H2 H3 H4 H5]. unfold append. rewrite (proj2 (Z.ltb_lt _ _)) by done.
  rewrite cset_at by lia. cbn. eexists. split; [done|]. unfold entries in *. cbn [buf head count].
  rewrite live_push, blen_insert by lia. split; [|done]. split; cbn [buf head count]; rewrite ?blen_insert; try lia.
  - intros i Hi. rewrite list_lookup_insert_ne by (intros Heq%at_inj; lia). apply H4. lia.
  - unfold entries. cbn [buf head count]. rewrite live_push by lia. apply Forall_app. split; [done|]. by constructor.
Qed.

Lemma append_full e : count r = blen (buf r) -> 0 < reSeq e < 2 ^ 62 ->
  exists r' x, append (E:=E) e r = Ok (r', Some (reData x)) /\ ring_ok r' /\ entries r = x :: tail (entries r) /\
    entries r' = tail (entries r) ++ [e] /\ blen (buf r') = blen (buf r).
Proof.
  intros Hf He. pose proof entries_len as Hl. destruct Hr as [H1 H2 H3 H4 H5]. unfold append. rewrite (proj2 (Z.ltb_ge _ _)) by lia.
  destruct (entries r) as [|x q] eqn:E1; [rewrite blen_nil in Hl; lia|]. unfold entries in *. rewrite Hf in E1.
  pose proof (cget_live (E:=E) (buf r) (head r) (blen (buf r)) H1 ltac:(lia) 0 x ltac:(lia)) as Hg.
  pose proof (cset_at (E:=E) (buf r) (head r) H1 0 e ltac:(lia)) as Hs. rewrite Z.add_0_r in Hg, Hs.
  rewrite Hg, Hs by (by rewrite E1). cbn [mbind outcome_bind].
  assert (Ha : at_slot (blen (buf r)) (head r) 0 = Z.to_nat (head r)) by (unfold at_slot; wraps; lia). rewrite Ha, blen_insert, rem_next by lia.
  pose proof (live_roll (buf r) (head r) e H1) as Hroll. rewrite E1 in Hroll. cbn [tail] in Hroll.
  eexists _, x. split; [done|]. cbn [buf head count]. rewrite Hf, blen_insert. split; [|by split].
  split; cbn [buf head count]; rewrite ?blen_insert; try lia; [wraps; lia|]. unfold entries. cbn [buf head count]. rewrite ?Hf, Hroll.
  inversion H5; subst. apply Forall_app. split; [done|]. by constructor.
Qed.

Lemma reset_loop_ok n : forall i r0, 0 <= i -> i + Z.of_nat n <= blen (buf r0) -> 0 <= head r0 < blen (buf r0) ->
  exists r', reset_loop (E:=E) n i r0 = Ok r' /\ head r' = head r0 /\ blen (buf r') = blen (buf r0) /\
    forall j, 0 <= j < blen (buf r0) -> buf r' !! at_slot (blen (buf r0)) (head r0) j =
      if decide (i <= j < i + Z.of_nat n) then Some zeroEntry else buf r0 !! at_slot (blen (buf r0)) (head r0) j.
Proof.
  induction n as [|n IH]; intros i r0 Hi Hn Hh.
  { exists r0. split; [done|]. split; [done|]. split; [done|]. intros j Hj. by rewrite decide_False by lia. }
  cbn [reset_loop]. rewrite cset_at by lia. cbn [mbind outcome_bind].
  destruct (IH (i + 1) (MkRing (<[at_slot (blen (buf r0)) (head r0) i:=zeroEntry]> (buf r0)) (head r0) (count r0))) as (r' & Hr' & H2 & H3 & H4);
    cbn [buf head count] in *; rewrite ?blen_insert in *; try lia.
  exists r'. split; [done|]. split; [done|]. split; [done|]. intros j Hj. rewrite H4 by done.
  destruct (decide (i = j)) as [<-|Hne].
  - rewrite decide_False, decide_True by lia. by rewrite list_lookup_insert_eq by (apply at_lt; lia).
  - rewrite list_lookup_insert_ne by (intros Heq%at_inj; lia). repeat case_decide; done || lia.
Qed.

(** Every slot is the slot of some position. *)
Lemma slot_of k n h : 0 <= h < n -> 0 <= k < n -> exists j, 0 <= j < n /\ at_slot n h j = Z.to_nat k.
Proof.
  intros Hh Hk. exists (if h <=? k then k - h else k - h + n). unfold at_slot. destruct (Z.leb_spec h k); wraps; lia.
Qed.

Lemma reset_ok : exists r', reset (E:=E) r = Ok r' /\ ring_ok r' /\ entries r' = [] /\ blen (buf r') = blen (buf r).
Proof.
  destruct Hr as [H1 H2 H3 H4 H5]. unfold reset.
  destruct (reset_loop_ok (Z.to_nat (count r)) 0 r) as (r' & -> & Hh & Hb & Hs); try lia. cbn. eexists. split; [done|].
  split; [|by split]. split; cbn [buf head count]; rewrite ?Hb; try lia; [|constructor].
  intros i Hi. replace (at_slot (blen (buf r)) 0 i) with (Z.to_nat i) by (unfold at_slot; wraps; lia).
  destruct (slot_of i (blen (buf r)) (head r)) as (j & Hj & <-); try lia. rewrite Hs by done. case_decide; [done|]. apply H4. lia.
Qed.

Lemma span_ok : span (E:=E) r = Ok (match list.head (entries r), last (entries r) with Some o, Some n => Some (reSeq o, reSeq n) | _, _ => None end).
Proof.
  pose proof entries_len as Hl. destruct Hr as [H1 H2 H3 H4 H5]. unfold span. destruct (Z.eqb_spec (count r) 0) as [H0|H0].
  { destruct (entries r); [done|]. rewrite blen_cons in Hl. pose proof (blen_nonneg l). lia. }
  destruct (entries r) as [|o q] eqn:E1; [rewrite blen_nil in Hl; lia|].
  destruct (last (o :: q)) as [n|] eqn:E2; [|by apply last_None in E2].
  pose proof (cget_live (E:=E) (buf r) (head r) (count r) H1 H2 0 o ltac:(lia)) as Hg. rewrite Z.add_0_r in Hg.
  rewrite Hg by (by unfold entries in E1; rewrite E1). cbn [mbind outcome_bind].
  replace (head r + count r - 1) with (head r + (count r - 1)) by lia.
  rewrite (cget_live (buf r) (head r) (count r) H1 H2 (count r - 1) n); [done|lia|]. unfold entries in E1. rewrite E1.
  rewrite last_lookup in E2. rewrite <- E2. f_equal. unfold blen in Hl. lia.
Qed.

Lemma i64_small x : 0 <= x < 2 ^ 63 -> i64 x = x.
Proof. intros Hx. unfold i64. rewrite wrap_fits by (unfold fits; lia). by rewrite (proj2 (Z.ltb_lt _ _)) by lia. Qed.

(** Any slot holds an entry or zero. *)
Lemma ring_slot_cases i : 0 <= i -> exists ent, cget (E:=E) (buf r) (head r + i) = Ok ent /\ (ent ∈ entries r \/ ent = zeroEntry).
Proof.
  intros Hi. destruct Hr as [H1 H2 H3 H4 H5]. set (k := Z.rem (head r + i) (blen (buf r))).
  assert (Hk : 0 <= k < blen (buf r)) by (unfold k; rewrite Z.rem_mod_nonneg by lia; apply Z.mod_pos_bound; lia).
  destruct (slot_of k (blen (buf r)) (head r) H1 Hk) as (j & Hj & Hjk).
  destruct (lookup_lt_is_Some_2 (buf r) (Z.to_nat k)) as [ent Hent]; [unfold blen in Hk; lia|]. exists ent. split.
  - unfold cget, cell. fold k. rewrite (proj2 (Z.eqb_neq _ _)), (proj2 (Z.ltb_ge _ _)) by lia. cbn. by rewrite Hent.
  - destruct (decide (j < count r)) as [Hlt|Hge].
    + left. apply (list_elem_of_lookup_2 _ (Z.to_nat j)). unfold entries. rewrite live_lookup by lia. by rewrite Hjk.
    + right. specialize (H4 j ltac:(lia)). rewrite Hjk in H4. congruence.
Qed.

Lemma at_bounds o n : list.head (entries r) = Some o -> last (entries r) = Some n -> 0 < reSeq o < 2 ^ 62 /\ 0 < reSeq n < 2 ^ 62.
Proof.
  pose proof (r_seqs _ Hr) as Hs. rewrite Forall_forall in Hs. intros Ho Hn. rewrite last_lookup in Hn.
  destruct (entries r) as [|x q]; [done|]. injection Ho as ->. split; apply Hs; [constructor|by eapply list_elem_of_lookup_2].
Qed.

Lemma at_sound seq : exists o, at_ (E:=E) seq r = Ok o /\ forall ent, o = Some ent -> ent ∈ entries r /\ reSeq ent = seq.
Proof.
  unfold at_. rewrite span_ok. cbn [mbind outcome_bind]. destruct (list.head (entries r)) as [o|] eqn:E1; [|by eexists].
  destruct (last (entries r)) as [n|] eqn:E2; [|by eexists]. destruct (at_bounds o n E1 E2) as [Ho Hn].
  destruct (Z.ltb_spec seq (reSeq o)); cbn [orb]; [by eexists|]. destruct (Z.ltb_spec (reSeq n) seq); [by eexists|].
  rewrite i64_small by lia. destruct (ring_slot_cases (seq - reSeq o)) as (ent & -> & Hent); [lia|]. cbn.
  eexists. split; [done|]. intros ent'. destruct (Z.eqb_spec (reSeq ent) seq) as [Hs|]; cbn; [|done]. intros [= <-].
  split; [|done]. destruct Hent as [Hent|Hent]; [done|]. subst ent. cbn in Hs. lia.
Qed.

(** No hole. *)
Definition dense : Prop := forall i ent, entries r !! i = Some ent -> exists o, list.head (entries r) = Some o /\ reSeq ent = reSeq o + Z.of_nat i.

Lemma at_dense seq : dense -> at_ (E:=E) seq r =
  Ok (match list.head (entries r) with Some o => if decide (reSeq o <= seq) then entries r !! Z.to_nat (seq - reSeq o) else None | None => None end).
Proof.
  intros Hd. unfold at_. rewrite span_ok. cbn [mbind outcome_bind]. destruct (list.head (entries r)) as [o|] eqn:E1; [|done].
  destruct (last (entries r)) as [n|] eqn:E2; [|apply last_None in E2; by rewrite E2 in E1]. destruct (at_bounds o n E1 E2) as [Ho Hn].
  pose proof entries_len as Hl. pose proof (last_lookup (entries r)) as E3. rewrite E2 in E3. symmetry in E3.
  destruct (Hd _ _ E3) as (o' & Ho' & Hon). rewrite E1 in Ho'. injection Ho' as <-. pose proof (lookup_lt_Some _ _ _ E3) as Hlt.
  destruct (Z.ltb_spec seq (reSeq o)); cbn [orb]; [by rewrite decide_False by lia|]. rewrite decide_True by done.
  destruct (Z.ltb_spec (reSeq n) seq). { rewrite lookup_ge_None_2; [done|]. lia. }
  rewrite i64_small by lia. destruct (lookup_lt_is_Some_2 (entries r) (Z.to_nat (seq - reSeq o))) as [ent Hent]; [lia|].
  unfold blen in Hl. rewrite (cget_live (buf r) (head r) (count r) (r_head _ Hr) (r_count _ Hr) (seq - reSeq o) ent); [|lia|done]. cbn.
  destruct (Hd _ _ Hent) as (o' & Ho' & ->). rewrite E1 in Ho'. injection Ho' as <-.
  rewrite Hent. by rewrite (proj2 (Z.eqb_eq _ _)) by lia.
Qed.

End Ring.

(** The backlog is a bounded queue of writes. A new one is empty. Appending to one
    with room adds at the end and evicts nothing; to a full one it drops the oldest
    and hands back its data; the capacity does not change. A reset empties it. The
    span is the sequence numbers of its oldest and newest entry. A lookup never
    makes an entry up: what it returns is retained and has the sequence number
    asked for, also when the retained numbers have a hole; and when they have none
    it finds every retained entry. Sequence numbers are positive and below 2^62. *)
Theorem ring_is_bounded_queue r e seq :
  ring_ok r -> 0 < reSeq e < 2 ^ 62 ->
  (exists r' ev, append (E:=unit) e r = Ok (r', ev) /\ ring_ok r' /\ blen (buf r') = blen (buf r) /\
    if decide (blen (entries r) < blen (buf r)) then entries r' = entries r ++ [e] /\ ev = None
    else entries r' = tail (entries r) ++ [e] /\ ev = reData <$> list.head (entries r)) /\
  (exists r', reset (E:=unit) r = Ok r' /\ ring_ok r' /\ entries r' = []) /\
  span (E:=unit) r = Ok (match list.head (entries r), last (entries r) with Some o, Some n => Some (reSeq o, reSeq n) | _, _ => None end) /\
  (exists o, at_ (E:=unit) seq r = Ok o /\ forall ent, o = Some ent -> ent ∈ entries r /\ reSeq ent = seq) /\
  (dense r -> forall i ent, entries r !! i = Some ent -> at_ (E:=unit) (reSeq ent) r = Ok (Some ent)).
Proof.
  intros Hr He. split_and!; [| |by apply span_ok|by apply at_sound|].
  - rewrite entries_len by done. case_decide as Hd.
    + destruct (append_room (E:=unit) r Hr e Hd He) as (r' & H1 & H2 & H3 & H4). by exists r', None.
    + pose proof (r_count _ Hr). destruct (append_full (E:=unit) r Hr e ltac:(lia) He) as (r' & x & H1 & H2 & H3 & H4 & H5).
      exists r', (Some (reData x)). split_and!; try done. by rewrite H3.
  - destruct (reset_ok (E:=unit) r Hr) as (r' & H1 & H2 & H3 & _). by exists r'.
  - intros Hd i ent Hi. destruct (Hd i ent Hi) as (o & Ho & Hs). rewrite at_dense by done. rewrite Ho, decide_True by lia.
    replace (Z.to_nat _) with i by lia. by rewrite Hi.
Qed.


End Ring.
