(* ===== verification/Engine.v ===== *)
(** * The primary-backup replication engine of a shard (src/shard/pbisr).

    One node's engine: its watermarks, lease, pipeline of writes that wait for
    their replicas, backlog, learners and snapshot staging. Every operation runs
    under the engine's mutex and is one function here, except those that release
    it: a proposal is a check, an application to the state machine, a registration
    and a shipment; the installation of a snapshot is separate from the receipt of
    its last chunk. What the clock, the control plane, the transport and the
    snapshot store answer are arguments. *)
From stdpp Require Import strings gmap sets.
From S2P Require Import Prelude Ring.

Module Engine.

(** ** Data *)

(** [ErrApply] stands for an error of the applier, [ErrStore] for one of the
    snapshot store. *)
Inductive perr :=
| ErrNotPrimary | ErrLeaseExpired | ErrBelowMinISR | ErrReplicationTimeout | ErrPipelineStalled | ErrSnapshotPending
| ErrGrowEpochChanged | ErrGrowRingEvicted | ErrGrowPeerAhead | ErrCatchupDiverged | ErrGrowNoSnapshotStore | ErrApply | ErrStore.

#[export] Instance perr_eq_dec : EqDecision perr.
Proof. solve_decision. Defined.

Record ReplicateMsg := MkMsg { Epoch : Z; Seq : Z; PrevSeq : Z; PrevEpoch : Z; Data : bytes }.
Record AckMsg := MkAck { AckEpoch : Z; AckSeq : Z; OK : bool }.
Record CatchupInfoMsg := MkInfo { InfoEpoch : Z; AppliedSeq : Z; FrontierSeq : Z; FrontierEpoch : Z; InfoOK : bool }.
Record SnapshotChunk := MkChunk {
  cEpoch : Z; cFrontierSeq : Z; cFrontierEpoch : Z; cOffset : Z; cTotal : Z; cFinal : bool; cData : bytes;
}.
Record snapshotStage := MkStage { sEpoch : Z; sFrontierSeq : Z; sFrontierEpoch : Z; sTotal : Z; sBuf : bytes }.

Inductive CommitLevel := CommitFullISR | CommitPrimary.

#[export] Instance CommitLevel_eq_dec : EqDecision CommitLevel.
Proof. solve_decision. Defined.

Definition defaultRingCapacity : Z := 4096.
Definition pbGroupBatchMax : Z := 64.
Definition pbGroupBytesMax : Z := 2 ^ 20.
Definition pipelineWindow : Z := 256.
Definition maxInlinePeers : Z := 4.
Definition growBackfillBatch : Z := 256.
Definition pbSnapshotChunkBytes : Z := 4 * 2 ^ 20.
Definition pbSnapshotMaxBytes : Z := 4 * 2 ^ 30.

(** [doneCh] is what the buffered channel holds. *)
Record inflight := MkRec {
  rEpoch : Z; rSeq : Z; npending : Z; peers : list string; overflow : option (list string);
  resolved : bool; rErr : option perr; doneCh : list (option perr);
}.

(** What is handed to the transport. *)
Inductive request := Single (m : ReplicateMsg) | Group (ms : list ReplicateMsg) | Chunk (c : SnapshotChunk).

Section State.
Context {F : Type}.

(** The pointers of [inflightRing] are positions in [recs], the records allocated
    so far. [sunk] is what the frontier sink was told, [outbox] what the transport
    was given, [fsm] the state the applier works on. *)
Record Engine := MkEngine {
  epoch : Z;
  leaseEpoch : Z;
  leaseExpiry : Z;
  lastSeq : Z;
  committed : Z;
  lastApplied : Z;
  lastSeqEpoch : Z;
  lastAppliedEpoch : Z;
  peerAcked : gmap string Z;
  backlog : Ring.ring;
  effISR : list string;
  effISREpoch : Z;
  learners : gset string;
  abandonedLearners : gmap string Z;
  learnerTeardown : gset string;
  peerFailures : gmap string Z;
  inflightRing : list (option nat);
  inflightHead : Z;
  inflightN : Z;
  baseSeq : Z;
  recs : list inflight;
  snapStage : option snapshotStage;
  poisoned : bool;
  peerQ : gmap string (list ReplicateMsg);
  closed : bool;
  fsm : F;
  sunk : list (Z * Z);
  outbox : list (string * request);
}.

Definition set_epoch (x : Z) (e : Engine) : Engine :=
  MkEngine x (leaseEpoch e) (leaseExpiry e) (lastSeq e) (committed e) (lastApplied e) (lastSeqEpoch e) (lastAppliedEpoch e) (peerAcked e) (backlog e) (effISR e) (effISREpoch e) (learners e) (abandonedLearners e) (learnerTeardown e) (peerFailures e) (inflightRing e) (inflightHead e) (inflightN e) (baseSeq e) (recs e) (snapStage e) (poisoned e) (peerQ e) (closed e) (fsm e) (sunk e) (outbox e).
Definition set_leaseEpoch (x : Z) (e : Engine) : Engine :=
  MkEngine (epoch e) x (leaseExpiry e) (lastSeq e) (committed e) (lastApplied e) (lastSeqEpoch e) (lastAppliedEpoch e) (peerAcked e) (backlog e) (effISR e) (effISREpoch e) (learners e) (abandonedLearners e) (learnerTeardown e) (peerFailures e) (inflightRing e) (inflightHead e) (inflightN e) (baseSeq e) (recs e) (snapStage e) (poisoned e) (peerQ e) (closed e) (fsm e) (sunk e) (outbox e).
Definition set_leaseExpiry (x : Z) (e : Engine) : Engine :=
  MkEngine (epoch e) (leaseEpoch e) x (lastSeq e) (committed e) (lastApplied e) (lastSeqEpoch e) (lastAppliedEpoch e) (peerAcked e) (backlog e) (effISR e) (effISREpoch e) (learners e) (abandonedLearners e) (learnerTeardown e) (peerFailures e) (inflightRing e) (inflightHead e) (inflightN e) (baseSeq e) (recs e) (snapStage e) (poisoned e) (peerQ e) (closed e) (fsm e) (sunk e) (outbox e).
Definition set_lastSeq (x : Z) (e : Engine) : Engine :=
  MkEngine (epoch e) (leaseEpoch e) (leaseExpiry e) x (committed e) (lastApplied e) (lastSeqEpoch e) (lastAppliedEpoch e) (peerAcked e) (backlog e) (effISR e) (effISREpoch e) (learners e) (abandonedLearners e) (learnerTeardown e) (peerFailures e) (inflightRing e) (inflightHead e) (inflightN e) (baseSeq e) (recs e) (snapStage e) (poisoned e) (peerQ e) (closed e) (fsm e) (sunk e) (outbox e).
Definition set_committed (x : Z) (e : Engine) : Engine :=
  MkEngine (epoch e) (leaseEpoch e) (leaseExpiry e) (lastSeq e) x (lastApplied e) (lastSeqEpoch e) (lastAppliedEpoch e) (peerAcked e) (backlog e) (effISR e) (effISREpoch e) (learners e) (abandonedLearners e) (learnerTeardown e) (peerFailures e) (inflightRing e) (inflightHead e) (inflightN e) (baseSeq e) (recs e) (snapStage e) (poisoned e) (peerQ e) (closed e) (fsm e) (sunk e) (outbox e).
Definition set_lastApplied (x : Z) (e : Engine) : Engine :=
  MkEngine (epoch e) (leaseEpoch e) (leaseExpiry e) (lastSeq e) (committed e) x (lastSeqEpoch e) (lastAppliedEpoch e) (peerAcked e) (backlog e) (effISR e) (effISREpoch e) (learners e) (abandonedLearners e) (learnerTeardown e) (peerFailures e) (inflightRing e) (inflightHead e) (inflightN e) (baseSeq e) (recs e) (snapStage e) (poisoned e) (peerQ e) (closed e) (fsm e) (sunk e) (outbox e).
Definition set_lastSeqEpoch (x : Z) (e : Engine) : Engine :=
  MkEngine (epoch e) (leaseEpoch e) (leaseExpiry e) (lastSeq e) (committed e) (lastApplied e) x (lastAppliedEpoch e) (peerAcked e) (backlog e) (effISR e) (effISREpoch e) (learners e) (abandonedLearners e) (learnerTeardown e) (peerFailures e) (inflightRing e) (inflightHead e) (inflightN e) (baseSeq e) (recs e) (snapStage e) (poisoned e) (peerQ e) (closed e) (fsm e) (sunk e) (outbox e).
Definition set_lastAppliedEpoch (x : Z) (e : Engine) : Engine :=
  MkEngine (epoch e) (leaseEpoch e) (leaseExpiry e) (lastSeq e) (committed e) (lastApplied e) (lastSeqEpoch e) x (peerAcked e) (backlog e) (effISR e) (effISREpoch e) (learners e) (abandonedLearners e) (learnerTeardown e) (peerFailures e) (inflightRing e) (inflightHead e) (inflightN e) (baseSeq e) (recs e) (snapStage e) (poisoned e) (peerQ e) (closed e) (fsm e) (sunk e) (outbox e).
Definition set_peerAcked (x : gmap string Z) (e : Engine) : Engine :=
  MkEngine (epoch e) (leaseEpoch e) (leaseExpiry e) (lastSeq e) (committed e) (lastApplied e) (lastSeqEpoch e) (lastAppliedEpoch e) x (backlog e) (effISR e) (effISREpoch e) (learners e) (abandonedLearners e) (learnerTeardown e) (peerFailures e) (inflightRing e) (inflightHead e) (inflightN e) (baseSeq e) (recs e) (snapStage e) (poisoned e) (peerQ e) (closed e) (fsm e) (sunk e) (outbox e).
Definition set_backlog (x : Ring.ring) (e : Engine) : Engine :=
  MkEngine (epoch e) (leaseEpoch e) (leaseExpiry e) (lastSeq e) (committed e) (lastApplied e) (lastSeqEpoch e) (lastAppliedEpoch e) (peerAcked e) x (effISR e) (effISREpoch e) (learners e) (abandonedLearners e) (learnerTeardown e) (peerFailures e) (inflightRing e) (inflightHead e) (inflightN e) (baseSeq e) (recs e) (snapStage e) (poisoned e) (peerQ e) (closed e) (fsm e) (sunk e) (outbox e).
Definition set_effISR (x : list string) (e : Engine) : Engine :=
  MkEngine (epoch e) (leaseEpoch e) (leaseExpiry e) (lastSeq e) (committed e) (lastApplied e) (lastSeqEpoch e) (lastAppliedEpoch e) (peerAcked e) (backlog e) x (effISREpoch e) (learners e) (abandonedLearners e) (learnerTeardown e) (peerFailures e) (inflightRing e) (inflightHead e) (inflightN e) (baseSeq e) (recs e) (snapStage e) (poisoned e) (peerQ e) (closed e) (fsm e) (sunk e) (outbox e).
Definition set_effISREpoch (x : Z) (e : Engine) : Engine :=
  MkEngine (epoch e) (leaseEpoch e) (leaseExpiry e) (lastSeq e) (committed e) (lastApplied e) (lastSeqEpoch e) (lastAppliedEpoch e) (peerAcked e) (backlog e) (effISR e) x (learners e) (abandonedLearners e) (learnerTeardown e) (peerFailures e) (inflightRing e) (inflightHead e) (inflightN e) (baseSeq e) (recs e) (snapStage e) (poisoned e) (peerQ e) (closed e) (fsm e) (sunk e) (outbox e).
Definition set_learners (x : gset string) (e : Engine) : Engine :=
  MkEngine (epoch e) (leaseEpoch e) (leaseExpiry e) (lastSeq e) (committed e) (lastApplied e) (lastSeqEpoch e) (lastAppliedEpoch e) (peerAcked e) (backlog e) (effISR e) (effISREpoch e) x (abandonedLearners e) (learnerTeardown e) (peerFailures e) (inflightRing e) (inflightHead e) (inflightN e) (baseSeq e) (recs e) (snapStage e) (poisoned e) (peerQ e) (closed e) (fsm e) (sunk e) (outbox e).
Definition set_abandonedLearners (x : gmap string Z) (e : Engine) : Engine :=
  MkEngine (epoch e) (leaseEpoch e) (leaseExpiry e) (lastSeq e) (committed e) (lastApplied e) (lastSeqEpoch e) (lastAppliedEpoch e) (peerAcked e) (backlog e) (effISR e) (effISREpoch e) (learners e) x (learnerTeardown e) (peerFailures e) (inflightRing e) (inflightHead e) (inflightN e) (baseSeq e) (recs e) (snapStage e) (poisoned e) (peerQ e) (closed e) (fsm e) (sunk e) (outbox e).
Definition set_learnerTeardown (x : gset string) (e : Engine) : Engine :=
  MkEngine (epoch e) (leaseEpoch e) (leaseExpiry e) (lastSeq e) (committed e) (lastApplied e) (lastSeqEpoch e) (lastAppliedEpoch e) (peerAcked e) (backlog e) (effISR e) (effISREpoch e) (learners e) (abandonedLearners e) x (peerFailures e) (inflightRing e) (inflightHead e) (inflightN e) (baseSeq e) (recs e) (snapStage e) (poisoned e) (peerQ e) (closed e) (fsm e) (sunk e) (outbox e).
Definition set_peerFailures (x : gmap string Z) (e : Engine) : Engine :=
  MkEngine (epoch e) (leaseEpoch e) (leaseExpiry e) (lastSeq e) (committed e) (lastApplied e) (lastSeqEpoch e) (lastAppliedEpoch e) (peerAcked e) (backlog e) (effISR e) (effISREpoch e) (learners e) (abandonedLearners e) (learnerTeardown e) x (inflightRing e) (inflightHead e) (inflightN e) (baseSeq e) (recs e) (snapStage e) (poisoned e) (peerQ e) (closed e) (fsm e) (sunk e) (outbox e).
Definition set_inflightRing (x : list (option nat)) (e : Engine) : Engine :=
  MkEngine (epoch e) (leaseEpoch e) (leaseExpiry e) (lastSeq e) (committed e) (lastApplied e) (lastSeqEpoch e) (lastAppliedEpoch e) (peerAcked e) (backlog e) (effISR e) (effISREpoch e) (learners e) (abandonedLearners e) (learnerTeardown e) (peerFailures e) x (inflightHead e) (inflightN e) (baseSeq e) (recs e) (snapStage e) (poisoned e) (peerQ e) (closed e) (fsm e) (sunk e) (outbox e).
Definition set_inflightHead (x : Z) (e : Engine) : Engine :=
  MkEngine (epoch e) (leaseEpoch e) (leaseExpiry e) (lastSeq e) (committed e) (lastApplied e) (lastSeqEpoch e) (lastAppliedEpoch e) (peerAcked e) (backlog e) (effISR e) (effISREpoch e) (learners e) (abandonedLearners e) (learnerTeardown e) (peerFailures e) (inflightRing e) x (inflightN e) (baseSeq e) (recs e) (snapStage e) (poisoned e) (peerQ e) (closed e) (fsm e) (sunk e) (outbox e).
Definition set_inflightN (x : Z) (e : Engine) : Engine :=
  MkEngine (epoch e) (leaseEpoch e) (leaseExpiry e) (lastSeq e) (committed e) (lastApplied e) (lastSeqEpoch e) (lastAppliedEpoch e) (peerAcked e) (backlog e) (effISR e) (effISREpoch e) (learners e) (abandonedLearners e) (learnerTeardown e) (peerFailures e) (inflightRing e) (inflightHead e) x (baseSeq e) (recs e) (snapStage e) (poisoned e) (peerQ e) (closed e) (fsm e) (sunk e) (outbox e).
Definition set_baseSeq (x : Z) (e : Engine) : Engine :=
  MkEngine (epoch e) (leaseEpoch e) (leaseExpiry e) (lastSeq e) (committed e) (lastApplied e) (lastSeqEpoch e) (lastAppliedEpoch e) (peerAcked e) (backlog e) (effISR e) (effISREpoch e) (learners e) (abandonedLearners e) (learnerTeardown e) (peerFailures e) (inflightRing e) (inflightHead e) (inflightN e) x (recs e) (snapStage e) (poisoned e) (peerQ e) (closed e) (fsm e) (sunk e) (outbox e).
Definition set_recs (x : list inflight) (e : Engine) : Engine :=
  MkEngine (epoch e) (leaseEpoch e) (leaseExpiry e) (lastSeq e) (committed e) (lastApplied e) (lastSeqEpoch e) (lastAppliedEpoch e) (peerAcked e) (backlog e) (effISR e) (effISREpoch e) (learners e) (abandonedLearners e) (learnerTeardown e) (peerFailures e) (inflightRing e) (inflightHead e) (inflightN e) (baseSeq e) x (snapStage e) (poisoned e) (peerQ e) (closed e) (fsm e) (sunk e) (outbox e).
Definition set_snapStage (x : option snapshotStage) (e : Engine) : Engine :=
  MkEngine (epoch e) (leaseEpoch e) (leaseExpiry e) (lastSeq e) (committed e) (lastApplied e) (lastSeqEpoch e) (lastAppliedEpoch e) (peerAcked e) (backlog e) (effISR e) (effISREpoch e) (learners e) (abandonedLearners e) (learnerTeardown e) (peerFailures e) (inflightRing e) (inflightHead e) (inflightN e) (baseSeq e) (recs e) x (poisoned e) (peerQ e) (closed e) (fsm e) (sunk e) (outbox e).
Definition set_poisoned (x : bool) (e : Engine) : Engine :=
  MkEngine (epoch e) (leaseEpoch e) (leaseExpiry e) (lastSeq e) (committed e) (lastApplied e) (lastSeqEpoch e) (lastAppliedEpoch e) (peerAcked e) (backlog e) (effISR e) (effISREpoch e) (learners e) (abandonedLearners e) (learnerTeardown e) (peerFailures e) (inflightRing e) (inflightHead e) (inflightN e) (baseSeq e) (recs e) (snapStage e) x (peerQ e) (closed e) (fsm e) (sunk e) (outbox e).
Definition set_peerQ (x : gmap string (list ReplicateMsg)) (e : Engine) : Engine :=
  MkEngine (epoch e) (leaseEpoch e) (leaseExpiry e) (lastSeq e) (committed e) (lastApplied e) (lastSeqEpoch e) (lastAppliedEpoch e) (peerAcked e) (backlog e) (effISR e) (effISREpoch e) (learners e) (abandonedLearners e) (learnerTeardown e) (peerFailures e) (inflightRing e) (inflightHead e) (inflightN e) (baseSeq e) (recs e) (snapStage e) (poisoned e) x (closed e) (fsm e) (sunk e) (outbox e).
Definition set_closed (x : bool) (e : Engine) : Engine :=
  MkEngine (epoch e) (leaseEpoch e) (leaseExpiry e) (lastSeq e) (committed e) (lastApplied e) (lastSeqEpoch e) (lastAppliedEpoch e) (peerAcked e) (backlog e) (effISR e) (effISREpoch e) (learners e) (abandonedLearners e) (learnerTeardown e) (peerFailures e) (inflightRing e) (inflightHead e) (inflightN e) (baseSeq e) (recs e) (snapStage e) (poisoned e) (peerQ e) x (fsm e) (sunk e) (outbox e).
Definition set_fsm (x : F) (e : Engine) : Engine :=
  MkEngine (epoch e) (leaseEpoch e) (leaseExpiry e) (lastSeq e) (committed e) (lastApplied e) (lastSeqEpoch e) (lastAppliedEpoch e) (peerAcked e) (backlog e) (effISR e) (effISREpoch e) (learners e) (abandonedLearners e) (learnerTeardown e) (peerFailures e) (inflightRing e) (inflightHead e) (inflightN e) (baseSeq e) (recs e) (snapStage e) (poisoned e) (peerQ e) (closed e) x (sunk e) (outbox e).
Definition set_sunk (x : list (Z * Z)) (e : Engine) : Engine :=
  MkEngine (epoch e) (leaseEpoch e) (leaseExpiry e) (lastSeq e) (committed e) (lastApplied e) (lastSeqEpoch e) (lastAppliedEpoch e) (peerAcked e) (backlog e) (effISR e) (effISREpoch e) (learners e) (abandonedLearners e) (learnerTeardown e) (peerFailures e) (inflightRing e) (inflightHead e) (inflightN e) (baseSeq e) (recs e) (snapStage e) (poisoned e) (peerQ e) (closed e) (fsm e) x (outbox e).
Definition set_outbox (x : list (string * request)) (e : Engine) : Engine :=
  MkEngine (epoch e) (leaseEpoch e) (leaseExpiry e) (lastSeq e) (committed e) (lastApplied e) (lastSeqEpoch e) (lastAppliedEpoch e) (peerAcked e) (backlog e) (effISR e) (effISREpoch e) (learners e) (abandonedLearners e) (learnerTeardown e) (peerFailures e) (inflightRing e) (inflightHead e) (inflightN e) (baseSeq e) (recs e) (snapStage e) (poisoned e) (peerQ e) (closed e) (fsm e) (sunk e) x.

End State.
Arguments Engine F : clear implicits.

(** ** Records *)

Definition pendingCount (r : inflight) : Z := match overflow r with Some l => blen l | None => npending r end.
Definition pendingPeers (r : inflight) : list string := match overflow r with Some l => l | None => take (Z.to_nat (npending r)) (peers r) end.

(** The empty string, what an unused place of the inline array holds. *)
Definition noPeer : string := EmptyString.

(** The last element takes the place of the removed one. *)
Definition swapOut (i : nat) (l : list string) : list string :=
  take (length l - 1) (<[i := default noPeer (last l)]> l).

Definition removePending (peer : string) (r : inflight) : inflight :=
  match overflow r with
  | Some l =>
      match list_find (fun p => p = peer) l with
      | Some (i, _) => MkRec (rEpoch r) (rSeq r) (npending r) (peers r) (Some (swapOut i l)) (resolved r) (rErr r) (doneCh r)
      | None => r
      end
  | None =>
      match list_find (fun p => p = peer) (take (Z.to_nat (npending r)) (peers r)) with
      | Some (i, _) =>
          let n := npending r - 1 in
          let ps := <[i := default noPeer (peers r !! Z.to_nat n)]> (peers r) in
          MkRec (rEpoch r) (rSeq r) n (<[Z.to_nat n := noPeer]> ps) None (resolved r) (rErr r) (doneCh r)
      | None => r
      end
  end.

Definition newRec (epoch seq : Z) (ps : list string) : inflight :=
  if blen ps <=? maxInlinePeers
  then MkRec epoch seq (blen ps) (ps ++ replicate (Z.to_nat (maxInlinePeers - blen ps)) noPeer) None false None []
  else MkRec epoch seq 0 (replicate (Z.to_nat maxInlinePeers) noPeer) (Some ps) false None [].

(** ** Peers *)

Fixpoint distinct (seen : gset string) (isr : list string) : list string :=
  match isr with
  | [] => []
  | m :: isr => if decide (m ∈ seen) then distinct seen isr else m :: distinct ({[m]} ∪ seen) isr
  end.
Definition distinctPeers (self : string) (isr : list string) : list string := distinct {[self]} isr.

Definition intersectPeers (ps keep : list string) : list string := filter (fun p => p ∈ keep) ps.

(** ** Operations *)

Section Ops.
Context {F : Type} (nodeID : string) (commitLevel : CommitLevel).
(** The applier and the snapshot store: the state after the call, and the answer. *)
Context (Apply : F -> bytes -> F * option bytes).
Context (SnapshotFSM : F -> option bytes) (InstallFSM : F -> bytes -> F * bool).

Abbreviation M := (st (Engine F) perr).

Definition NewWithRingCapacity (ringCapacity : Z) (restored : Z * Z) (installPending : bool) (f : F) : outcome perr (Engine F) :=
  if ringCapacity <? pipelineWindow then Panic else
  let '(rs, re) := if restored.1 =? 0 then (0, 0) else restored in
  Ok (MkEngine 0 0 0 0 0 rs 0 re ∅ (Ring.newRing ringCapacity) [] 0 ∅ ∅ ∅ ∅ [] 0 0 0 [] None installPending ∅ false f [] []).

Definition getRec (id : nat) : M inflight := rs ← gets recs; oget (rs !! id).
Definition setRec (id : nat) (r : inflight) : M unit := modify (fun e => set_recs (<[id := r]> (recs e)) e).

(** The record at a place of the ring; a nil pointer panics. *)
Definition recAt (i : Z) : M nat :=
  b ← gets inflightRing;
  p ← lift (cget b i);
  oget p.

Fixpoint for_inflight (n : nat) (i : Z) (f : nat -> M unit) : M unit :=
  match n with
  | O => mret tt
  | S n =>
      h ← gets inflightHead;
      id ← recAt (h + i);
      f id;;
      for_inflight n (i + 1) f
  end.
(** [for i := 0; i < e.inflightN; i++] *)
Definition eachInflight (f : nat -> M unit) : M unit :=
  n ← gets inflightN; for_inflight (Z.to_nat n) 0 f.

Definition clearEffISRLocked : M unit := modify (set_effISR []);; modify (set_effISREpoch 0).

Definition clearLearnersLocked : M unit :=
  l ← gets learners;
  if decide (l = ∅) then mret tt else
  modify (fun e => set_learnerTeardown (learnerTeardown e ∪ l) e);;
  modify (set_learners ∅).

Definition popInflightHeadLocked : M unit :=
  h ← gets inflightHead;
  b ← gets inflightRing;
  if negb ((0 <=? h) && (h <? blen b)) then panic else
  modify (set_inflightRing (<[Z.to_nat h := None]> b));;
  modify (set_inflightHead (Z.rem (h + 1) (blen b)));;
  modify (fun e => set_inflightN (inflightN e - 1) e);;
  modify (fun e => set_baseSeq (u64 (baseSeq e + 1)) e).

(** The send on the buffered channel would block for ever on a full one. *)
Definition resolveLocked (id : nat) (err : option perr) : M unit :=
  r ← getRec id;
  if resolved r then mret tt
  else if negb (blen (doneCh r) =? 0) then panic
  else setRec id (MkRec (rEpoch r) (rSeq r) (npending r) (peers r) (overflow r) true err (doneCh r ++ [err])).

Definition markCommittedLocked (seq : Z) : M unit :=
  c ← gets committed;
  if c <? seq then modify (set_committed seq) else mret tt.

Fixpoint sweep_loop (fuel : nat) (now : Z) : M unit :=
  match fuel with
  | O => panic
  | S fuel =>
      n ← gets inflightN;
      if n <=? 0 then mret tt else
      h ← gets inflightHead;
      id ← recAt h;
      r ← getRec id;
      if resolved r then popInflightHeadLocked;; sweep_loop fuel now
      else if (pendingCount r =? 0) || bool_decide (commitLevel = CommitPrimary) then
        le ← gets leaseEpoch;
        ep ← gets epoch;
        ex ← gets leaseExpiry;
        (if (le =? rEpoch r) && (ep =? rEpoch r) && (now <? ex)
         then markCommittedLocked (rSeq r);; resolveLocked id None
         else resolveLocked id (Some ErrLeaseExpired));;
        popInflightHeadLocked;;
        sweep_loop fuel now
      else mret tt
  end.
Definition sweepLocked (now : Z) : M unit := n ← gets inflightN; sweep_loop (S (Z.to_nat n)) now.

Definition flushEpochLocked (minEpoch now : Z) : M unit :=
  eachInflight (fun id => r ← getRec id; if rEpoch r <? minEpoch then resolveLocked id (Some ErrLeaseExpired) else mret tt);;
  sweepLocked now.

Definition windowFullLocked (e : Engine F) : bool := pipelineWindow <=? u64 (lastSeq e - committed e).

Definition appliedFrontierLocked (e : Engine F) : Z * Z :=
  if lastSeq e <? lastApplied e then (lastApplied e, lastAppliedEpoch e) else (lastSeq e, lastSeqEpoch e).

Definition noteFrontierLocked : M unit := modify (fun e => set_sunk (sunk e ++ [appliedFrontierLocked e]) e).

Definition LeaseValid (now : Z) (e : Engine F) : bool :=
  if poisoned e then false else (leaseEpoch e =? epoch e) && (now <? leaseExpiry e).

(** A new epoch: the overrides of older ones are void, their writes fail. *)
Definition enterEpoch (ep now : Z) : M unit :=
  modify (set_epoch ep);;
  clearEffISRLocked;;
  clearLearnersLocked;;
  flushEpochLocked ep now.

Definition AdoptEpoch (ep now : Z) : M unit :=
  cur ← gets epoch;
  if cur <? ep then enterEpoch ep now else mret tt.

Definition GrantLease (ep expiry now : Z) : M unit :=
  le ← gets leaseEpoch;
  if ep <? le then mret tt else
  modify (set_leaseEpoch ep);;
  modify (set_leaseExpiry expiry);;
  cur ← gets epoch;
  if cur <? ep then enterEpoch ep now else mret tt.

Definition Promote (newEpoch expiry now : Z) : M unit :=
  cur ← gets epoch;
  if newEpoch <=? cur then mret tt else
  p ← gets poisoned;
  if p : bool then mret tt else
  modify (fun e => set_lastSeq (lastApplied e) e);;
  modify (fun e => set_lastSeqEpoch (lastAppliedEpoch e) e);;
  modify (fun e => set_committed (if committed e <? lastApplied e then lastApplied e else committed e) e);;
  modify (set_epoch newEpoch);;
  modify (set_leaseEpoch newEpoch);;
  modify (set_leaseExpiry expiry);;
  b ← gets backlog;
  b ← lift (Ring.reset b);
  modify (set_backlog b);;
  clearEffISRLocked;;
  clearLearnersLocked;;
  flushEpochLocked newEpoch now.

(** *** Proposals *)

Fixpoint copyRing (b : list (option nat)) (n : nat) (h : Z) : outcome perr (list (option nat)) :=
  match n with
  | O => Ok []
  | S n => p ← cget b h; l ← copyRing b n (h + 1); Ok (p :: l)
  end.

Definition growInflightRingLocked : M unit :=
  b ← gets inflightRing;
  n ← gets inflightN;
  h ← gets inflightHead;
  l ← lift (copyRing b (Z.to_nat n) h);
  modify (set_inflightRing (l ++ replicate (2 * length b - length l) None));;
  modify (set_inflightHead 0).

(** The ring is allocated by the first registration. *)
Definition allocRing : M unit :=
  b ← gets inflightRing;
  if bool_decide (b = []) then
    modify (set_inflightRing (replicate (Z.to_nat pipelineWindow) None));;
    modify (set_inflightHead 0)
  else mret tt.

(** The window starts at [seq], or [seq] must be the next of it. *)
Definition makeRoom (seq : Z) : M unit :=
  n ← gets inflightN;
  if n =? 0 then modify (set_baseSeq seq) else
  base ← gets baseSeq;
  if negb (seq =? u64 (base + n)) then panic else
  b ← gets inflightRing;
  if n =? blen b then growInflightRingLocked else mret tt.

Definition registerInflightLocked (ep seq : Z) (ps : list string) : M nat :=
  id ← gets (fun e => length (recs e));
  modify (fun e => set_recs (recs e ++ [newRec ep seq ps]) e);;
  allocRing;;
  makeRoom seq;;
  n ← gets inflightN;
  h ← gets inflightHead;
  b ← gets inflightRing;
  b ← lift (cset b (h + n) (Some id));
  modify (set_inflightRing b);;
  modify (set_inflightN (n + 1));;
  l ← gets lastSeq;
  (if l <? seq then modify (set_lastSeq seq);; modify (set_lastSeqEpoch ep) else mret tt);;
  mret id.

(** Under both locks: the epoch the write is made in, or [None] when the window is
    full. *)
Definition proposeCheck (primary : string) (isr : list string) (minISR now : Z) : M (option Z) :=
  p ← gets poisoned;
  if p : bool then throw ErrSnapshotPending else
  if negb (bool_decide (primary = nodeID)) then throw ErrNotPrimary else
  le ← gets leaseEpoch;
  ep ← gets epoch;
  ex ← gets leaseExpiry;
  if negb (le =? ep) || (ex <=? now) then throw ErrLeaseExpired else
  if blen isr <? minISR then throw ErrBelowMinISR else
  full ← gets windowFullLocked;
  if full : bool then mret None else mret (Some ep).

(** [ap.Apply(data)], under the write lock only. *)
Definition applyData (data : bytes) : M bytes :=
  f ← gets fsm;
  modify (set_fsm (Apply f data).1);;
  match (Apply f data).2 with Some r => mret r | None => throw ErrApply end.

(** The learners that are not required peers. *)
Definition learnerShipSetLocked (ps : list string) (e : Engine F) : list string :=
  filter (fun l => l ∉ ps) (elements (learners e)).

Record proposal := MkProposal {
  pRec : nat; pSeq : Z; pPeers : list string; pLearners : list string; pMsg : ReplicateMsg;
}.

(** Under both locks again. *)
Definition proposeRegister (ep : Z) (isr : list string) (data : bytes) (now : Z) : M proposal :=
  eff ← gets effISR;
  effEp ← gets effISREpoch;
  let ps := if effEp =? ep then intersectPeers (distinctPeers nodeID isr) eff else distinctPeers nodeID isr in
  '(prevSeq, prevEpoch) ← gets appliedFrontierLocked;
  let seq := u64 (prevSeq + 1) in
  b ← gets backlog;
  '(b, _) ← lift (Ring.append (Ring.MkEntry ep seq prevEpoch data) b);
  modify (set_backlog b);;
  id ← registerInflightLocked ep seq ps;
  noteFrontierLocked;;
  (if blen ps =? 0 then sweepLocked now else mret tt);;
  ls ← gets (learnerShipSetLocked ps);
  mret (MkProposal id seq ps ls (MkMsg ep seq prevSeq prevEpoch data)).

Definition dropPeerLocked (peer : string) : M unit := modify (fun e => set_peerQ (delete peer (peerQ e)) e).

Definition send (peer : string) (r : request) : M unit := modify (fun e => set_outbox (outbox e ++ [(peer, r)]) e).
Definition enqueue (peer : string) (m : ReplicateMsg) : M unit :=
  modify (fun e => set_peerQ (<[peer := default [] (peerQ e !! peer) ++ [m]]> (peerQ e)) e).

(** [inline]: the transport took the message at once. A full channel makes the
    write wait for the sender, which changes nothing else. *)
Definition submitPeerLocked (inline : bool) (peer : string) (m : ReplicateMsg) : M unit :=
  c ← gets closed;
  if c : bool then mret tt else
  modify (fun e => match peerQ e !! peer with None => set_peerQ (<[peer := []]> (peerQ e)) e | Some _ => e end);;
  q ← gets (fun e => default [] (peerQ e !! peer));
  if (blen q =? 0) && inline then send peer (Single m) else enqueue peer m.

Definition markLearnerAbandonedLocked (peer : string) (seq : Z) : M unit :=
  modify (fun e => set_abandonedLearners (<[peer := seq]> (abandonedLearners e)) e).

Definition submitLearnerLocked (peer : string) (m : ReplicateMsg) : M unit :=
  c ← gets closed;
  if c : bool then mret tt else
  q ← gets (fun e => peerQ e !! peer);
  match q with
  | None => mret tt
  | Some q =>
      if blen q <? pipelineWindow then enqueue peer m
      else
        dropPeerLocked peer;;
        modify (fun e => set_learners (learners e ∖ {[peer]}) e);;
        markLearnerAbandonedLocked peer (Seq m)
  end.

Fixpoint seqM {A} (f : A -> M unit) (l : list A) : M unit :=
  match l with [] => mret tt | a :: l => f a;; seqM f l end.

Definition proposeShip (inline : string -> bool) (p : proposal) (now : Z) : M unit :=
  if (0 <? blen (pPeers p)) || (0 <? blen (pLearners p)) then
    seqM (fun peer => submitPeerLocked (inline peer) peer (pMsg p)) (pPeers p);;
    seqM (fun l => submitLearnerLocked l (pMsg p)) (pLearners p);;
    if (0 <? blen (pPeers p)) && bool_decide (commitLevel = CommitPrimary) then sweepLocked now else mret tt
  else mret tt.

(** The parts in a row, when nothing comes between: [None] asks for a retry. *)
Definition proposeSequenced (primary : string) (isr : list string) (minISR now : Z) (inline : string -> bool) (data : bytes) :
  M (option (proposal * bytes)) :=
  o ← proposeCheck primary isr minISR now;
  match o with
  | None => mret None
  | Some ep =>
      res ← applyData data;
      p ← proposeRegister ep isr data now;
      proposeShip inline p now;;
      mret (Some (p, res))
  end.

(** The wait for the outcome: what the channel holds, or the deadline. *)
Definition awaitDone (id : nat) (deadline : bool) : M (option (option perr)) :=
  r ← getRec id;
  match doneCh r with
  | v :: ch =>
      setRec id (MkRec (rEpoch r) (rSeq r) (npending r) (peers r) (overflow r) (resolved r) (rErr r) ch);;
      mret (Some v)
  | [] =>
      if deadline then resolveLocked id (Some ErrReplicationTimeout);; r ← getRec id; mret (Some (rErr r))
      else mret None
  end.

(** *** Senders *)

(** The messages of the next group, of those the sender finds in its channel. *)
Fixpoint drain (batch : list ReplicateMsg) (ep last size : Z) (q : list ReplicateMsg) : list ReplicateMsg :=
  match q with
  | [] => batch
  | m :: q =>
      if negb (blen batch <? pbGroupBatchMax) then batch
      else if negb (Epoch m =? ep) || negb (Seq m =? u64 (last + 1)) || (pbGroupBytesMax <? size + blen (Data m)) then batch
      else drain (batch ++ [m]) ep (Seq m) (size + blen (Data m)) q
  end.

(** One round of the sender of a peer, when [avail] messages are in its channel. *)
Definition runSender (hasGroup : bool) (avail : nat) (peer : string) : M unit :=
  q ← gets (fun e => peerQ e !! peer);
  match take avail (default [] q) with
  | [] => mret tt
  | first :: rest =>
      let batch := if hasGroup then drain [first] (Epoch first) (Seq first) (blen (Data first)) rest else [first] in
      modify (fun e => set_peerQ (<[peer := drop (length batch) (default [] q)]> (peerQ e)) e);;
      send peer (match batch with [m] => Single m | _ => Group batch end)
  end.

(** *** Acknowledgements *)

Definition inflightAtLocked (seq : Z) : M (option nat) :=
  n ← gets inflightN;
  base ← gets baseSeq;
  if (n =? 0) || (seq <? base) then mret None else
  let offset := u64 (seq - base) in
  if n <=? offset then mret None else
  h ← gets inflightHead;
  b ← gets inflightRing;
  lift (cget b (h + i64 offset)).

Definition ackInflightLocked (peer : string) (ack : AckMsg) (now : Z) : M unit :=
  o ← inflightAtLocked (AckSeq ack);
  match o with
  | Some id =>
      r ← getRec id;
      if OK ack && (AckEpoch ack =? rEpoch r) && (AckSeq ack =? rSeq r) then setRec id (removePending peer r) else mret tt
  | None => mret tt
  end;;
  sweepLocked now.

Definition creditPeerAckedLocked (peer : string) (seq : Z) : M unit :=
  a ← gets peerAcked;
  if default 0 (a !! peer) <? seq then modify (set_peerAcked (<[peer := seq]> a)) else mret tt.

Definition notePeerFailureLocked (peer : string) : M unit :=
  modify (fun e => set_peerFailures (<[peer := default 0 (peerFailures e !! peer) + 1]> (peerFailures e)) e).
Definition notePeerSuccessLocked (peer : string) : M unit :=
  f ← gets peerFailures;
  if default 0 (f !! peer) =? 0 then mret tt else modify (set_peerFailures (<[peer := 0]> f)).

Definition failSend (peer : string) (m : ReplicateMsg) (now : Z) : M unit :=
  notePeerFailureLocked peer;;
  o ← inflightAtLocked (Seq m);
  match o with
  | Some id =>
      r ← getRec id;
      if rEpoch r =? Epoch m then resolveLocked id (Some ErrReplicationTimeout);; sweepLocked now else mret tt
  | None => mret tt
  end.

(** [ack] is [None] when the call failed. *)
Definition completeSend (peer : string) (m : ReplicateMsg) (ack : option AckMsg) (now : Z) : M unit :=
  match ack with
  | Some a =>
      if OK a && (AckEpoch a =? Epoch m) && (AckSeq a =? Seq m)
      then notePeerSuccessLocked peer;; creditPeerAckedLocked peer (AckSeq a);; ackInflightLocked peer a now
      else failSend peer m now
  | None => failSend peer m now
  end.

(** The sequence number through which a group was applied. *)
Definition creditThrough (ep firstSeq lastSeq : Z) (ack : option AckMsg) : Z :=
  match ack with
  | Some a =>
      if OK a && (AckEpoch a =? ep) && (AckSeq a =? lastSeq) then lastSeq
      else if negb (OK a) && (AckEpoch a =? ep) && (u64 (firstSeq - 1) <=? AckSeq a) && (AckSeq a <? lastSeq) then AckSeq a
      else u64 (firstSeq - 1)
  | None => u64 (firstSeq - 1)
  end.

Fixpoint creditGroup (n : nat) (s : Z) (peer : string) (ep through : Z) : M unit :=
  match n with
  | O => mret tt
  | S n =>
      o ← inflightAtLocked s;
      match o with
      | Some id =>
          r ← getRec id;
          if negb (rEpoch r =? ep) then mret tt
          else if s <=? through then setRec id (removePending peer r)
          else resolveLocked id (Some ErrReplicationTimeout)
      | None => mret tt
      end;;
      creditGroup n (s + 1) peer ep through
  end.

Definition completeGroupSend (peer : string) (ep firstSeq lastSeq : Z) (ack : option AckMsg) (now : Z) : M unit :=
  let through := creditThrough ep firstSeq lastSeq ack in
  (if through =? lastSeq then notePeerSuccessLocked peer else notePeerFailureLocked peer);;
  (if firstSeq <=? through then creditPeerAckedLocked peer through else mret tt);;
  creditGroup (Z.to_nat (lastSeq - firstSeq + 1)) firstSeq peer ep through;;
  sweepLocked now.

(** *** The backup *)

Definition receiveLocked (m : ReplicateMsg) (now : Z) : M AckMsg :=
  p ← gets poisoned;
  cur ← gets epoch;
  if p : bool then mret (MkAck cur (Seq m) false) else
  if Epoch m <? cur then mret (MkAck cur (Seq m) false) else
  (if cur <? Epoch m then enterEpoch (Epoch m) now else mret tt);;
  let nack := MkAck (Epoch m) (Seq m) false in
  if negb (Seq m =? u64 (PrevSeq m + 1)) then mret nack else
  '(fs, fe) ← gets appliedFrontierLocked;
  if negb (PrevSeq m =? fs) || negb (PrevEpoch m =? fe) then mret nack else
  r ← try (applyData (Data m));
  match r with
  | inr _ => mret nack
  | inl _ =>
      modify (set_lastApplied (Seq m));;
      modify (set_lastAppliedEpoch (Epoch m));;
      noteFrontierLocked;;
      mret (MkAck (Epoch m) (Seq m) true)
  end.
Definition Receive := receiveLocked.

Fixpoint receive_loop (ms : list ReplicateMsg) (ep lastOK now : Z) : M AckMsg :=
  match ms with
  | [] => mret (MkAck ep lastOK true)
  | m :: ms =>
      a ← receiveLocked m now;
      if OK a then receive_loop ms ep (Seq m) now else mret (MkAck ep lastOK false)
  end.
Definition ReceiveGroup (ms : list ReplicateMsg) (now : Z) : M AckMsg :=
  match ms with
  | [] => mret (MkAck 0 0 false)
  | m :: _ => if Seq m =? 0 then mret (MkAck (Epoch m) 0 false) else receive_loop ms (Epoch m) (u64 (Seq m - 1)) now
  end.

(** *** The in-sync set *)

Definition narrow (newISR : list string) (ep : Z) (id : nat) : M unit :=
  r ← getRec id;
  if negb (rEpoch r =? ep) then mret tt
  else setRec id (foldl (fun r p => removePending p r) r (filter (fun p => p ∉ newISR) (pendingPeers r))).

Definition ShrinkISR (ep : Z) (newISR : list string) (now : Z) : M unit :=
  cur ← gets epoch;
  le ← gets leaseEpoch;
  if negb (ep =? cur) || negb (le =? ep) then mret tt else
  modify (set_effISR newISR);;
  modify (set_effISREpoch ep);;
  eachInflight (narrow newISR ep);;
  modify (fun e => set_peerQ (filter (fun x => x.1 ∈ newISR) (peerQ e)) e);;
  sweepLocked now.

Definition GrowISR (ep : Z) (newISR : list string) : M unit :=
  cur ← gets epoch;
  le ← gets leaseEpoch;
  if negb (ep =? cur) || negb (le =? ep) then mret tt else
  modify (set_effISR newISR);;
  modify (set_effISREpoch ep).

(** *** Catching a learner up *)

Definition CatchupInfo (e : Engine F) : CatchupInfoMsg :=
  if poisoned e then MkInfo (epoch e) 0 0 0 false
  else MkInfo (epoch e) (lastApplied e) (appliedFrontierLocked e).1 (appliedFrontierLocked e).2 true.

Definition checkCatchupDivergenceLocked (k kEpoch : Z) : M unit :=
  '(fs, fe) ← gets appliedFrontierLocked;
  if fs <? k then throw ErrCatchupDiverged
  else if k =? fs then (if negb (kEpoch =? fe) then throw ErrCatchupDiverged else mret tt)
  else
    b ← gets backlog;
    o ← lift (Ring.at_ (u64 (k + 1)) b);
    match o with
    | Some ent => if negb (Ring.rePrevEpoch ent =? kEpoch) then throw ErrCatchupDiverged else mret tt
    | None => mret tt
    end.

(** The retained writes from [s] on, of one epoch; [None] at a hole. *)
Fixpoint delta_loop (n : nat) (s : Z) (run : option Z) (b : Ring.ring) : outcome perr (option (list ReplicateMsg)) :=
  match n with
  | O => Ok (Some [])
  | S n =>
      o ← Ring.at_ s b;
      match o with
      | None => Ok None
      | Some ent =>
          if bool_decide (run = None) || bool_decide (run = Some (Ring.reEpoch ent)) then
            rest ← delta_loop n (s + 1) (Some (Ring.reEpoch ent)) b;
            Ok (match rest with None => None | Some ms =>
              Some (MkMsg (Ring.reEpoch ent) (Ring.reSeq ent) (u64 (Ring.reSeq ent - 1)) (Ring.rePrevEpoch ent) (Ring.reData ent) :: ms) end)
          else Ok (Some [])
      end
  end.

Definition ringDeltaLocked (from to : Z) : M (option (list ReplicateMsg)) :=
  if to <? from then mret (Some []) else
  b ← gets backlog;
  sp ← lift (Ring.span b);
  match sp with
  | None => mret None
  | Some (oldest, newest) =>
      if from <? oldest then mret None else
      let to := if newest <? to then newest else to in
      lift (delta_loop (Z.to_nat (to - from + 1)) from None b)
  end.

(** One round of the backfill: [inl tt] when the learner is within [gap] of the
    tail, else the messages to ship. *)
Definition backfillRound (E k gap : Z) : M (unit + list ReplicateMsg) :=
  cur ← gets epoch;
  le ← gets leaseEpoch;
  if negb (cur =? E) || negb (le =? E) then throw ErrGrowEpochChanged else
  tail ← gets lastSeq;
  if u64 (tail - k) <=? gap then mret (inl tt) else
  let upTo := u64 (k + growBackfillBatch) in
  let upTo := if tail <? upTo then tail else upTo in
  d ← ringDeltaLocked (u64 (k + 1)) upTo;
  match d with None => throw ErrGrowRingEvicted | Some ms => mret (inr ms) end.

(** The learner's position after the acknowledgement of a round. *)
Definition backfillAck (E k : Z) (ms : list ReplicateMsg) (ack : AckMsg) : outcome perr Z :=
  if E <? AckEpoch ack then Err ErrGrowPeerAhead
  else if AckSeq ack <=? k then Err ErrCatchupDiverged
  else match last ms with
       | None => Panic
       | Some m => if Seq m <? AckSeq ack then Err ErrCatchupDiverged else Ok (AckSeq ack)
       end.

Definition createLearnerSenderLocked (peer : string) (delta : list ReplicateMsg) : M unit :=
  dropPeerLocked peer;;
  modify (fun e => set_peerQ (<[peer := delta]> (peerQ e)) e).

(** One round of the flip: [Some gap] asks for a backfill first. *)
Definition flipRound (peer : string) (E k now : Z) : M (option Z) :=
  c ← gets closed;
  cur ← gets epoch;
  le ← gets leaseEpoch;
  ex ← gets leaseExpiry;
  if (c : bool) || negb (cur =? E) || negb (le =? E) || (ex <=? now) then throw ErrGrowEpochChanged else
  tail ← gets lastSeq;
  if pipelineWindow <? u64 (tail - k) then mret (Some pipelineWindow) else
  d ← ringDeltaLocked (u64 (k + 1)) tail;
  match d with
  | None => throw ErrGrowRingEvicted
  | Some delta =>
      if negb (blen delta =? u64 (tail - k)) then mret (Some 0) else
      createLearnerSenderLocked peer delta;;
      modify (fun e => set_abandonedLearners (delete peer (abandonedLearners e)) e);;
      modify (fun e => set_learnerTeardown (learnerTeardown e ∖ {[peer]}) e);;
      modify (fun e => set_learners (learners e ∪ {[peer]}) e);;
      mret None
  end.

Definition AbortLearnerCatchup (peer : string) : M unit :=
  modify (fun e => set_learners (learners e ∖ {[peer]}) e);;
  modify (fun e => set_learnerTeardown (learnerTeardown e ∖ {[peer]}) e);;
  dropPeerLocked peer.

Definition TeardownLearners : M unit :=
  modify (fun e => set_peerQ (filter (fun x => x.1 ∉ learners e ∪ learnerTeardown e) (peerQ e)) e);;
  modify (set_learners ∅);;
  modify (set_learnerTeardown ∅).

Definition ReclaimOrphanLearners : M unit :=
  modify (fun e => set_peerQ (filter (fun x => x.1 ∉ learnerTeardown e) (peerQ e)) e);;
  modify (set_learnerTeardown ∅).

(** *** Snapshots *)

Definition takeSnapshot (E now : Z) : M (bytes * Z * Z) :=
  c ← gets closed;
  cur ← gets epoch;
  le ← gets leaseEpoch;
  ex ← gets leaseExpiry;
  if (c : bool) || negb (cur =? E) || negb (le =? E) || (ex <=? now) then throw ErrGrowEpochChanged else
  '(fs, fe) ← gets appliedFrontierLocked;
  f ← gets fsm;
  match SnapshotFSM f with None => throw ErrStore | Some blob => mret (blob, fs, fe) end.

(** The chunk of a blob from [off] on. *)
Definition chunkAt (E fs fe : Z) (blob : bytes) (off : Z) : outcome perr SnapshotChunk :=
  let total := blen blob in
  let end_ := off + pbSnapshotChunkBytes in
  let end_ := if total <? end_ then total else end_ in
  d ← slice blob off end_;
  Ok (MkChunk E fs fe off total (end_ =? total) d).

Definition sameTransfer (c : SnapshotChunk) (st : snapshotStage) : bool :=
  (sEpoch st =? cEpoch c) && (sFrontierSeq st =? cFrontierSeq c) && (sFrontierEpoch st =? cFrontierEpoch c) && (sTotal st =? cTotal c).

(** The acknowledgement, or the whole blob to install. *)
Definition ReceiveSnapshotChunk (c : SnapshotChunk) (now : Z) : M (AckMsg + bytes) :=
  let nack := MkAck (cEpoch c) (cFrontierSeq c) false in
  cur ← gets epoch;
  if cEpoch c <? cur then modify (set_snapStage None);; mret (inl (MkAck cur (cFrontierSeq c) false)) else
  (if cur <? cEpoch c then enterEpoch (cEpoch c) now;; modify (set_snapStage None) else mret tt);;
  if (pbSnapshotMaxBytes <? cTotal c) || (cTotal c <? cOffset c) || (u64 (cTotal c - cOffset c) <? blen (cData c))
  then modify (set_snapStage None);; mret (inl nack) else
  st ← gets snapStage;
  st ← match st with
       | Some st => if sameTransfer c st then mret (Some st) else
           (if negb (cOffset c =? 0) then mret None else mret (Some (MkStage (cEpoch c) (cFrontierSeq c) (cFrontierEpoch c) (cTotal c) [])))
       | None =>
           if negb (cOffset c =? 0) then mret None else mret (Some (MkStage (cEpoch c) (cFrontierSeq c) (cFrontierEpoch c) (cTotal c) []))
       end;
  match st with
  | None => modify (set_snapStage None);; mret (inl nack)
  | Some st =>
      if negb (cOffset c =? blen (sBuf st)) then modify (set_snapStage None);; mret (inl nack) else
      let buf := sBuf st ++ cData c in
      if negb (cFinal c) then
        modify (set_snapStage (Some (MkStage (sEpoch st) (sFrontierSeq st) (sFrontierEpoch st) (sTotal st) buf)));;
        mret (inl (MkAck (cEpoch c) (cFrontierSeq c) true))
      else
        modify (set_snapStage None);;
        if negb (blen buf =? cTotal c) then mret (inl nack) else mret (inr buf)
  end.

Fixpoint popAll (n : nat) : M unit := match n with O => mret tt | S n => popInflightHeadLocked;; popAll n end.

(** Once the durable fence is up. [commitOK]: whether the store committed. *)
Definition installSnapshot (shipEpoch fs fe : Z) (blob : bytes) (commitOK : bool) : M unit :=
  c ← gets closed;
  cur ← gets epoch;
  if (c : bool) || (shipEpoch <? cur) then throw ErrGrowEpochChanged else
  modify (set_poisoned true);;
  f ← gets fsm;
  modify (set_fsm (InstallFSM f blob).1);;
  if negb (InstallFSM f blob).2 then throw ErrStore else
  modify (set_lastApplied fs);; modify (set_lastAppliedEpoch fe);;
  modify (set_lastSeq fs);; modify (set_lastSeqEpoch fe);;
  modify (set_committed fs);;
  eachInflight (fun id => resolveLocked id (Some ErrReplicationTimeout));;
  n ← gets inflightN;
  popAll (Z.to_nat n);;
  modify (fun e => set_backlog (Ring.newRing (blen (Ring.buf (backlog e)))) e);;
  clearEffISRLocked;;
  clearLearnersLocked;;
  if negb commitOK then throw ErrStore else
  modify (set_poisoned false).

(** *** Observation *)

Definition StalledPeers (minFailures : Z) (e : Engine F) : gset string :=
  let minFailures := if minFailures <? 1 then 1 else minFailures in
  dom (filter (fun x => minFailures <= x.2) (peerFailures e)).

Definition peerLag (e : Engine F) (acked : Z) : Z := if acked <? lastSeq e then u64 (lastSeq e - acked) else 0.

End Ops.
End Engine.
