(* ===== verification/EngineInv.v ===== *)
(** * The pipeline of writes of an engine: its invariant, and the operations on
    it. *)
From stdpp Require Import strings gmap sets.
From S2P Require Import Prelude Ring Engine.
Import Engine.

(** ** Records *)

Record rec_ok (r : inflight) : Prop := {
  ro_inline : overflow r = None -> 0 <= npending r <= maxInlinePeers /\ blen (peers r) = maxInlinePeers;
  ro_nodup : NoDup (pendingPeers r);
  ro_open : resolved r = false -> doneCh r = [];
  ro_done : resolved r = true -> doneCh r = [] \/ doneCh r = [rErr r];
}.

Lemma pendingCount_len r : rec_ok r -> pendingCount r = blen (pendingPeers r).
Proof.
  intros [H1 _ _ _]. unfold pendingCount, pendingPeers. destruct (overflow r); [done|]. destruct (H1 eq_refl) as [H2 H3].
  rewrite blen_take by lia. rewrite H3. unfold maxInlinePeers in *. lia.
Qed.

(** Removing an element by moving the last one into its place. *)
Lemma swapOut_perm l i p : l !! i = Some p -> p :: swapOut i l ≡ₚ l.
Proof.
  intros Hi. unfold swapOut. destruct (exists_last (l := l)) as (l' & z & ->); [by destruct l|].
  rewrite last_snoc. cbn [default]. rewrite length_app. cbn [length]. replace (length l' + 1 - 1)%nat with (length l') by lia.
  destruct (decide (i = length l')) as [->|Hne].
  - rewrite lookup_app_r, Nat.sub_diag in Hi by lia. injection Hi as ->.
    rewrite insert_app_r_alt, take_app_le, take_ge by lia. by rewrite <- Permutation_cons_append.
  - assert (i < length l')%nat by (apply lookup_lt_Some in Hi; rewrite length_app in Hi; cbn in Hi; lia).
    rewrite insert_app_l by done. rewrite take_app_le by (rewrite length_insert; lia). rewrite take_ge by (rewrite length_insert; lia).
    rewrite lookup_app_l in Hi by done. rewrite insert_take_drop by done. rewrite <- (take_drop_middle l' i p Hi) at 3.
    rewrite <- app_assoc. cbn [app]. rewrite <- Permutation_cons_append. solve_Permutation.
Qed.

Definition without (p : string) (l l' : list string) : Prop := l' = l /\ p ∉ l \/ p :: l' ≡ₚ l.

Lemma removePending_spec p r : rec_ok r ->
  rec_ok (removePending p r) /\ without p (pendingPeers r) (pendingPeers (removePending p r)) /\
  rEpoch (removePending p r) = rEpoch r /\ rSeq (removePending p r) = rSeq r /\ resolved (removePending p r) = resolved r /\
  rErr (removePending p r) = rErr r /\ doneCh (removePending p r) = doneCh r.
Proof.
  intros Hr. pose proof Hr as [H1 H2 H3 H4]. unfold removePending, pendingPeers in *. destruct (overflow r) as [l|] eqn:E1.
  - destruct (list_find _ l) as [[i q]|] eqn:E2.
    + apply list_find_Some in E2 as (Hi & -> & _). pose proof (swapOut_perm l i p Hi) as Hp. cbn. split; [|split; [by right|done]].
      split; cbn; try done. rewrite <- Hp in H2. unfold pendingPeers. cbn. by apply NoDup_cons in H2 as [_ ?].
    + apply list_find_None in E2. rewrite E1. split; [done|]. split; [|done]. left. split; [done|].
      intros Hin. rewrite Forall_forall in E2. by apply (E2 p Hin).
  - destruct (H1 eq_refl) as [Hn Hb]. destruct (list_find _ _) as [[i q]|] eqn:E2.
    + apply list_find_Some in E2 as (Hi & -> & _). cbn. set (n := npending r) in *.
      assert (Hin : (i < Z.to_nat n)%nat) by (apply lookup_lt_Some in Hi; rewrite length_take in Hi; lia).
      assert (Heq : take (Z.to_nat (n - 1)) (<[Z.to_nat (n - 1) := noPeer]> (<[i := default noPeer (peers r !! Z.to_nat (n - 1))]> (peers r))) =
        swapOut i (take (Z.to_nat n) (peers r))).
      { unfold swapOut. rewrite take_insert_ge by lia. rewrite last_lookup, length_take, lookup_take_lt by (unfold blen, maxInlinePeers in *; lia).
        replace (Init.Nat.pred _) with (Z.to_nat (n - 1)) by (unfold blen, maxInlinePeers in *; lia).
        destruct (decide (i < Z.to_nat (n - 1))%nat).
        - rewrite <- take_insert_lt by lia. rewrite take_take. f_equal. unfold blen, maxInlinePeers in *. lia.
        - rewrite take_insert_ge by lia. rewrite take_insert_ge by (rewrite ?length_take; unfold blen, maxInlinePeers in *; lia).
          rewrite take_take. f_equal. unfold blen, maxInlinePeers in *. lia. }
      pose proof (swapOut_perm _ i p Hi) as Hp. rewrite Heq. split; [|split; [by right|done]].
      split; cbn; try done.
      * intros _. rewrite !blen_insert. split; [lia|done].
      * unfold pendingPeers. cbn. rewrite Heq. rewrite <- Hp in H2. by apply NoDup_cons in H2 as [_ ?].
    + apply list_find_None in E2. rewrite E1. split; [done|]. split; [|done]. left. split; [done|].
      intros Hin. rewrite Forall_forall in E2. by apply (E2 p Hin).
Qed.

Lemma without_elem p l l' q : NoDup l -> without p l l' -> q ∈ l' <-> q ∈ l /\ q <> p.
Proof.
  intros Hn [[-> Hp]|Hp].
  - split; [|tauto]. intros Hq. split; [done|]. by intros ->.
  - rewrite <- Hp in Hn |- *. apply NoDup_cons in Hn as [Hn _]. rewrite elem_of_cons. split; [|tauto].
    intros Hq. split; [by right|]. by intros ->.
Qed.

(** ** The pipeline *)

(** The outcome of a record is written once. *)
Definition settle (r : inflight) (err : option perr) : inflight :=
  MkRec (rEpoch r) (rSeq r) (npending r) (peers r) (overflow r) true err (doneCh r ++ [err]).

Definition rstep (Q : inflight -> option perr -> Prop) (r r' : inflight) : Prop :=
  r' = r \/ resolved r = false /\ exists err, r' = settle r err /\ Q r err.

Lemma rsteps_refl Q rs : Forall2 (rstep Q) rs rs.
Proof. induction rs; constructor; [by left|done]. Qed.

Lemma rsteps_insert (Q : inflight -> option perr -> Prop) rs id r err : rs !! id = Some r -> resolved r = false -> Q r err ->
  Forall2 (rstep Q) rs (<[id := settle r err]> rs).
Proof.
  intros Hi Hr HQ. rewrite <- (list_insert_id _ _ _ Hi) at 1. apply Forall2_insert; [apply rsteps_refl|].
  right. split; [done|]. by exists err.
Qed.

Lemma rsteps_trans (Q1 Q2 Q : inflight -> option perr -> Prop) a b c :
  (forall r err, Q1 r err -> Q r err) -> (forall r err, Q2 r err -> Q r err) ->
  Forall2 (rstep Q1) a b -> Forall2 (rstep Q2) b c -> Forall2 (rstep Q) a c.
Proof.
  intros H1 H2 Hab Hbc. eapply (Forall2_trans (rstep Q1) (rstep Q2) (rstep Q)); [|done|done]. intros x y z [->|(Hx & err & -> & HQ)] [->|(Hy & err' & -> & HQ')].
  - by left.
  - right. split; [done|]. exists err'. by auto.
  - right. split; [done|]. exists err. by auto.
  - done.
Qed.

Lemma rstep_ok Q r r' : rstep Q r r' -> rec_ok r -> rec_ok r'.
Proof.
  intros [->|(Hr & err & -> & _)] [H1 H2 H3 H4]; [done|]. split; cbn; try done. intros _. rewrite H3 by done. by right.
Qed.

Lemma rstep_same Q r r' : rstep Q r r' -> rEpoch r' = rEpoch r /\ rSeq r' = rSeq r /\ pendingPeers r' = pendingPeers r /\ (resolved r = true -> resolved r' = true).
Proof. by intros [->|(Hr & err & -> & _)]. Qed.

Section Pipe.
Context {F : Type} (commitLevel : CommitLevel).

Definition window (e : Engine F) : list (option nat) := live (inflightRing e) (inflightHead e) (inflightN e).

(** [ids] are the records in flight, oldest first: their sequence numbers are
    consecutive, end at [lastSeq] and are above [committed]; every other record
    has its outcome. *)
Record pipe (e : Engine F) (ids : list nat) : Prop := {
  p_ring : ids = [] /\ inflightN e = 0 /\ inflightRing e = [] \/
    0 <= inflightHead e < blen (inflightRing e) /\ 0 <= inflightN e <= blen (inflightRing e) /\ window e = Some <$> ids;
  p_nodup : NoDup ids;
  p_rec : forall i id, ids !! i = Some id -> exists r, recs e !! id = Some r /\ rSeq r = baseSeq e + Z.of_nat i /\ rEpoch r <= epoch e;
  p_wf : Forall rec_ok (recs e);
  p_out : forall id r, recs e !! id = Some r -> id ∉ ids -> resolved r = true;
  p_base : ids <> [] -> baseSeq e + blen ids = lastSeq e + 1 /\ committed e < baseSeq e;
  p_marks : 0 <= committed e <= lastSeq e /\ lastSeq e < 2 ^ 62;
}.

(** The pipeline part of an engine. *)
Definition repipe (rg : list (option nat)) (h n b : Z) (rs : list inflight) (c : Z) (e : Engine F) : Engine F :=
  set_committed c (set_recs rs (set_baseSeq b (set_inflightN n (set_inflightHead h (set_inflightRing rg e))))).

(** When an outcome may be success: no peer is waited for (or the level does not
    wait), the lease of the write's epoch is held, and the watermark moves to the
    write. *)
Definition may_settle (now c : Z) (e : Engine F) (r : inflight) (err : option perr) : Prop :=
  err = None -> (pendingPeers r = [] \/ commitLevel = CommitPrimary) /\
    leaseEpoch e = rEpoch r /\ epoch e = rEpoch r /\ now < leaseExpiry e /\ committed e < rSeq r <= c.

Definition swept (now : Z) (e e' : Engine F) : Prop :=
  exists rg h n b rs c, e' = repipe rg h n b rs c e /\ Forall2 (rstep (may_settle now c e)) (recs e) rs /\ committed e <= c.

Lemma swept_refl now e : swept now e e.
Proof.
  exists (inflightRing e), (inflightHead e), (inflightN e), (baseSeq e), (recs e), (committed e).
  split; [by destruct e|]. split; [apply rsteps_refl|lia].
Qed.

Lemma swept_trans now e1 e2 e3 : swept now e1 e2 -> swept now e2 e3 -> swept now e1 e3.
Proof.
  intros (rg & h & n & b & rs & c & -> & H1 & Hc1) (rg' & h' & n' & b' & rs' & c' & -> & H2 & Hc2). cbn in H2, Hc2.
  exists rg', h', n', b', rs', c'. split; [done|]. split; [|lia].
  eapply rsteps_trans; [| |exact H1|exact H2].
  - intros r err HQ Herr. specialize (HQ Herr). intuition lia.
  - intros r err HQ Herr. specialize (HQ Herr). cbn in HQ. intuition lia.
Qed.

(** The ring part of it. *)
Record win (e : Engine F) (ids : list nat) : Prop := {
  w_ring : ids = [] /\ inflightN e = 0 /\ inflightRing e = [] \/
    0 <= inflightHead e < blen (inflightRing e) /\ 0 <= inflightN e <= blen (inflightRing e) /\ window e = Some <$> ids;
  w_nodup : NoDup ids;
  w_rec : forall i id, ids !! i = Some id -> exists r, recs e !! id = Some r;
  w_wf : Forall rec_ok (recs e);
  w_out : forall id r, recs e !! id = Some r -> id ∉ ids -> resolved r = true;
}.

Lemma pipe_win e ids : pipe e ids -> win e ids.
Proof. intros [H1 H2 H3 H4 H5 _ _]. split; try done. intros i id Hi. destruct (H3 i id Hi) as (r & Hr & _). by exists r. Qed.

Section Of.
Context (e : Engine F) (ids : list nat).

Lemma win_N : win e ids -> inflightN e = blen ids.
Proof.
  intros Hp. destruct (w_ring _ _ Hp) as [(-> & -> & _)|(H1 & H2 & H3)]; [done|]. pose proof (live_len _ _ _ H1 H2) as Hl.
  change (live _ _ _) with (window e) in Hl. rewrite H3 in Hl. unfold blen in *. by rewrite length_fmap in Hl.
Qed.

Lemma win_recAt i id : win e ids -> ids !! i = Some id -> recAt (inflightHead e + Z.of_nat i) e = (e, Ok id).
Proof.
  intros Hp Hi. destruct (w_ring _ _ Hp) as [(-> & _)|(H1 & H2 & H3)]; [done|]. pose proof (lookup_lt_Some _ _ _ Hi). pose proof (win_N Hp) as HN.
  unfold recAt. rewrite bind_gets.
  rewrite (bind_lift _ (Some id)); [done|]. apply (cget_live _ _ (inflightN e)); try done; [unfold blen in HN; lia|].
  change (live _ _ _) with (window e). by rewrite H3, list_lookup_fmap, Nat2Z.id, Hi.
Qed.

Context (Hp : pipe e ids).

Lemma pipe_N : inflightN e = blen ids.
Proof. by apply win_N, pipe_win. Qed.

Lemma pipe_recAt i id : ids !! i = Some id -> recAt (inflightHead e + Z.of_nat i) e = (e, Ok id).
Proof. by apply win_recAt, pipe_win. Qed.

End Of.

(** Popping the head, once it has its outcome. *)
Lemma pop_ok e id ids rs c Q : pipe e (id :: ids) -> Forall2 (rstep Q) (recs e) rs ->
  (exists r, rs !! id = Some r /\ resolved r = true) -> committed e <= c <= baseSeq e ->
  exists rg h, popInflightHeadLocked (repipe (inflightRing e) (inflightHead e) (inflightN e) (baseSeq e) rs c e) =
    (repipe rg h (inflightN e - 1) (baseSeq e + 1) rs c e, Ok tt) /\
    pipe (repipe rg h (inflightN e - 1) (baseSeq e + 1) rs c e) ids.
Proof.
  intros Hp Hrs (r & Hr & Hres) Hc. pose proof (pipe_N e _ Hp) as HN. rewrite blen_cons in HN. pose proof (blen_nonneg ids).
  pose proof Hp as [H1 H2 H3 H4 H5 H6 H7]. destruct H1 as [(? & _)|(R1 & R2 & R3)]; [done|].
  destruct (H6 ltac:(done)) as [B1 B2]. rewrite blen_cons in B1.
  unfold popInflightHeadLocked. rewrite !bind_gets. cbn [inflightHead inflightRing repipe set_committed set_recs set_baseSeq set_inflightN set_inflightHead set_inflightRing].
  rewrite (proj2 (Z.leb_le _ _)), (proj2 (Z.ltb_lt _ _)) by lia. cbn [andb negb]. rewrite !bind_modify. unfold modify.
  rewrite rem_next by done. rewrite wrap_fits by (unfold fits; cbn; lia).
  exists (<[Z.to_nat (inflightHead e) := None]> (inflightRing e)), (if inflightHead e + 1 <? blen (inflightRing e) then inflightHead e + 1 else 0).
  split; [done|]. assert (Hlen : length rs = length (recs e)) by (symmetry; by eapply Forall2_length). split; cbn.
  - right. rewrite blen_insert. split; [wraps; lia|]. split; [lia|]. unfold window. cbn.
    rewrite (live_pop (inflightRing e)); [|done|lia|apply blen_insert|intros; by apply list_lookup_insert_ne].
    change (live _ _ _) with (window e). by rewrite R3.
  - by apply NoDup_cons in H2 as [_ ?].
  - intros i id' Hi. destruct (H3 (S i) id' Hi) as (r0 & Hr0 & Hs0 & He0).
    destruct (Forall2_lookup_l _ _ _ _ _ Hrs Hr0) as (r1 & Hr1 & Hst). destruct (rstep_same _ _ _ Hst) as (Hep & Hseq & _).
    exists r1. split; [done|]. split; [lia|]. by rewrite Hep.
  - apply Forall_lookup. intros i x Hx. destruct (Forall2_lookup_r _ _ _ _ _ Hrs Hx) as (y & Hy & Hst).
    eapply rstep_ok; [exact Hst|]. rewrite Forall_lookup in H4. by eapply H4.
  - intros id' r' Hr' Hn. destruct (decide (id' = id)) as [->|Hne]; [congruence|].
    destruct (Forall2_lookup_r _ _ _ _ _ Hrs Hr') as (y & Hy & Hst). destruct (rstep_same _ _ _ Hst) as (_ & _ & _ & Hm). apply Hm.
    apply (H5 id' y Hy). by apply not_elem_of_cons.
  - intros _. lia.
  - lia.
Qed.

(** The oldest write still waits for a peer. *)
Definition waiting (e : Engine F) (ids : list nat) : Prop :=
  match ids with
  | [] => True
  | id :: _ => exists r, recs e !! id = Some r /\ resolved r = false /\ pendingPeers r <> [] /\ commitLevel = CommitFullISR
  end.

Lemma getRec_ok (e : Engine F) id r : recs e !! id = Some r -> getRec id e = (e, Ok r).
Proof. intros Hr. unfold getRec. rewrite bind_gets, Hr. done. Qed.

Lemma resolveLocked_ok (e : Engine F) id r err : recs e !! id = Some r -> rec_ok r ->
  resolveLocked id err e = (if resolved r then e else set_recs (<[id := settle r err]> (recs e)) e, Ok tt).
Proof.
  intros Hr Hok. unfold resolveLocked. rewrite (bind_ok _ _ _ _ _ (getRec_ok e id r Hr)). destruct (resolved r) eqn:E1; [done|].
  unfold settle. by rewrite (ro_open _ Hok E1).
Qed.

Lemma sweep_loop_ok fuel now : forall e ids, pipe e ids -> (length ids < fuel)%nat ->
  exists e' ids', sweep_loop commitLevel fuel now e = (e', Ok tt) /\ pipe e' ids' /\ swept now e e' /\ ids' `suffix_of` ids /\ waiting e' ids'.
Proof.
  induction fuel as [|fuel IH]; intros e ids Hp Hf; [lia|]. pose proof (pipe_N e ids Hp) as HN. cbn [sweep_loop]. rewrite bind_gets.
  destruct ids as [|id ids].
  { rewrite HN. cbn [blen]. exists e, []. split; [done|]. split; [done|]. split; [apply swept_refl|done]. }
  rewrite blen_cons in HN. pose proof (blen_nonneg ids). rewrite (proj2 (Z.leb_gt _ _)) by lia. rewrite bind_gets.
  pose proof (pipe_recAt e _ Hp 0 id eq_refl) as Hat. cbn in Hat. rewrite Z.add_0_r in Hat. rewrite (bind_ok _ _ _ _ _ Hat).
  destruct (p_rec _ _ Hp 0 id eq_refl) as (r & Hr & Hseq & Hep). rewrite Z.add_0_r in Hseq. rewrite (bind_ok _ _ _ _ _ (getRec_ok e id r Hr)).
  pose proof (p_wf _ _ Hp) as Hwf. rewrite Forall_lookup in Hwf. pose proof (Hwf _ _ Hr) as Hrok.
  destruct (p_base _ _ Hp ltac:(done)) as [HB1 HB2].
  assert (Hnext : forall rs c, committed e <= c <= baseSeq e -> Forall2 (rstep (may_settle now c e)) (recs e) rs ->
    (exists r, rs !! id = Some r /\ resolved r = true) ->
    exists e' ids', (popInflightHeadLocked;; sweep_loop commitLevel fuel now)
      (repipe (inflightRing e) (inflightHead e) (inflightN e) (baseSeq e) rs c e) = (e', Ok tt) /\
      pipe e' ids' /\ swept now e e' /\ ids' `suffix_of` (id :: ids) /\ waiting e' ids').
  { intros rs c Hc Hrs Hex. destruct (pop_ok e id ids rs c _ Hp Hrs Hex Hc) as (rg & h & Hpop & Hp').
    rewrite (bind_ok _ _ _ _ _ Hpop). destruct (IH _ _ Hp' ltac:(cbn in Hf; lia)) as (e' & ids' & -> & Hp2 & Hsw & Hsuf & Hw).
    exists e', ids'. split; [done|]. split; [done|]. split; [|split; [by apply suffix_cons_r|done]].
    eapply swept_trans; [|exact Hsw]. do 6 eexists. split; [done|]. split; [exact Hrs|lia]. }
  destruct (resolved r) eqn:E1.
  { destruct (Hnext (recs e) (committed e)) as (e' & ids' & H1 & H2); [lia|apply rsteps_refl|by exists r|].
    exists e', ids'. split; [|exact H2]. rewrite <- H1. f_equal. by destruct e. }
  rewrite (pendingCount_len r Hrok). destruct ((blen (pendingPeers r) =? 0) || bool_decide (commitLevel = CommitPrimary)) eqn:E2.
  - rewrite !bind_gets. assert (Hpend : pendingPeers r = [] \/ commitLevel = CommitPrimary).
    { apply orb_true_iff in E2 as [E2|E2]; [left|right; by apply bool_decide_eq_true in E2].
      apply Z.eqb_eq in E2. destruct (pendingPeers r); [done|]. rewrite blen_cons in E2. pose proof (blen_nonneg l). lia. }
    destruct ((leaseEpoch e =? rEpoch r) && (epoch e =? rEpoch r) && (now <? leaseExpiry e)) eqn:E3.
    + apply andb_true_iff in E3 as [[E3 E4]%andb_true_iff E5]. apply Z.eqb_eq in E3, E4. apply Z.ltb_lt in E5.
      destruct (Hnext (<[id := settle r None]> (recs e)) (baseSeq e)) as (e' & ids' & H1 & H2); [lia| | |].
      * apply rsteps_insert; [done|done|]. intros _. split_and!; try done; lia.
      * eexists. split; [by apply list_lookup_insert_eq; eapply lookup_lt_Some|done].
      * exists e', ids'. split; [|exact H2]. rewrite <- H1. rewrite Hseq.
        assert (Hm : markCommittedLocked (baseSeq e) e = (set_committed (baseSeq e) e, Ok tt)).
        { unfold markCommittedLocked. rewrite bind_gets. by rewrite (proj2 (Z.ltb_lt _ _)) by lia. }
        unfold mbind at 1, st_bind at 1. unfold mbind at 1, st_bind at 1. rewrite Hm.
        by rewrite (resolveLocked_ok (set_committed (baseSeq e) e) id r None Hr Hrok), E1.
    + destruct (Hnext (<[id := settle r (Some ErrLeaseExpired)]> (recs e)) (committed e)) as (e' & ids' & H1 & H2); [lia| | |].
      * by apply rsteps_insert.
      * eexists. split; [by apply list_lookup_insert_eq; eapply lookup_lt_Some|done].
      * exists e', ids'. split; [|exact H2]. rewrite <- H1.
        unfold mbind at 1, st_bind at 1. by rewrite (resolveLocked_ok e id r _ Hr Hrok), E1.
  - exists e, (id :: ids). split; [done|]. split; [done|]. split; [apply swept_refl|]. split; [done|].
    exists r. split; [done|]. split; [done|]. apply orb_false_iff in E2 as [E2 E3]. split.
    + intros Hn. rewrite Hn in E2. done.
    + apply bool_decide_eq_false in E3. by destruct commitLevel.
Qed.

Lemma sweep_ok now e ids : pipe e ids ->
  exists e' ids', sweepLocked commitLevel now e = (e', Ok tt) /\ pipe e' ids' /\ swept now e e' /\ ids' `suffix_of` ids /\ waiting e' ids'.
Proof.
  intros Hp. unfold sweepLocked. rewrite bind_gets. apply sweep_loop_ok; [done|]. rewrite (pipe_N e ids Hp). unfold blen. lia.
Qed.

(** What the pipeline does not depend on may change. *)
Lemma pipe_frame (e e' : Engine F) ids : pipe e ids ->
  inflightRing e' = inflightRing e -> inflightHead e' = inflightHead e -> inflightN e' = inflightN e -> baseSeq e' = baseSeq e ->
  recs e' = recs e -> lastSeq e' = lastSeq e -> committed e' = committed e -> epoch e <= epoch e' -> pipe e' ids.
Proof.
  intros [H1 H2 H3 H4 H5 H6 H7] E1 E2 E3 E4 E5 E6 E7 E8. split; unfold window in *; rewrite ?E1, ?E2, ?E3, ?E4, ?E5, ?E6, ?E7; try done.
  intros i id Hi. destruct (H3 i id Hi) as (r & Hr & Hs & Hle). exists r. split_and!; try done. lia.
Qed.

(** A record may lose pending peers and gain an outcome. *)
Definition evolves (r r' : inflight) : Prop :=
  rEpoch r' = rEpoch r /\ rSeq r' = rSeq r /\ (resolved r = true -> resolved r' = true) /\ (rec_ok r -> rec_ok r').

Lemma evolves_refl r : evolves r r.
Proof. done. Qed.

Lemma pipe_evolves (e : Engine F) ids rs : pipe e ids -> Forall2 evolves (recs e) rs -> pipe (set_recs rs e) ids.
Proof.
  intros [H1 H2 H3 H4 H5 H6 H7] Hrs. split; unfold window in *; cbn; try done.
  - intros i id Hi. destruct (H3 i id Hi) as (r & Hr & Hs & Hle). destruct (Forall2_lookup_l _ _ _ _ _ Hrs Hr) as (r' & Hr' & E1 & E2 & _).
    exists r'. split; [done|]. by rewrite E1, E2.
  - apply Forall_lookup. intros i r' Hr'. destruct (Forall2_lookup_r _ _ _ _ _ Hrs Hr') as (r & Hr & _ & _ & _ & Hok). apply Hok.
    rewrite Forall_lookup in H4. by eapply H4.
  - intros id r' Hr' Hn. destruct (Forall2_lookup_r _ _ _ _ _ Hrs Hr') as (r & Hr & _ & _ & Hres & _). by eapply Hres, H5.
Qed.

(** [g] on the records [ids]. *)
Definition upd (g : inflight -> inflight) (ids : list nat) (rs : list inflight) : list inflight := foldl (fun rs id => alter g id rs) rs ids.

Lemma upd_len g ids : forall rs, length (upd g ids rs) = length rs.
Proof.
  induction ids as [|id ids IH]; intros rs; [done|]. change (upd g (id :: ids) rs) with (upd g ids (alter g id rs)).
  by rewrite IH, length_alter.
Qed.

Lemma upd_lookup g ids : NoDup ids -> forall rs j, upd g ids rs !! j = if decide (j ∈ ids) then g <$> rs !! j else rs !! j.
Proof.
  induction ids as [|id ids IH]; intros Hn rs j; [by rewrite decide_False by set_solver|]. apply NoDup_cons in Hn as [Hn Hnd].
  change (upd g (id :: ids) rs) with (upd g ids (alter g id rs)). rewrite IH by done. destruct (decide (j = id)) as [->|Hne].
  - rewrite decide_False by done. rewrite decide_True by set_solver. apply list_lookup_alter_eq.
  - rewrite list_lookup_alter_ne by done. destruct (decide (j ∈ ids)); [by rewrite decide_True by (by constructor)|]. rewrite decide_False; [done|]. by apply not_elem_of_cons.
Qed.

Lemma upd_rel (R : inflight -> inflight -> Prop) g ids rs : NoDup ids -> (forall r, R r r) ->
  (forall id r, id ∈ ids -> rs !! id = Some r -> R r (g r)) -> Forall2 R rs (upd g ids rs).
Proof.
  intros Hn Hrefl Hg. apply Forall2_same_length_lookup_2.
  - by rewrite upd_len.
  - intros j x y Hx Hy. rewrite upd_lookup in Hy by done. rewrite Hx in Hy. case_decide; injection Hy as <-; [by eapply Hg|done].
Qed.

Lemma recAt_frame i (e e' : Engine F) id : recAt i e = (e, Ok id) -> inflightRing e' = inflightRing e -> recAt i e' = (e', Ok id).
Proof.
  unfold recAt, mbind, st_bind, gets, lift. intros H ->. destruct (cget (E:=perr) (inflightRing e) i) as [[p|]| |]; cbn in *; try done. by injection H as ->.
Qed.

Lemma for_inflight_ok g f (e : Engine F) ids : win e ids ->
  (forall id r rs, id ∈ ids -> rs !! id = Some r -> rec_ok r -> f id (set_recs rs e) = (set_recs (<[id := g r]> rs) e, Ok tt)) ->
  (forall r, rec_ok r -> rec_ok (g r)) ->
  forall todo done_ rs, ids = done_ ++ todo -> Forall rec_ok rs -> length rs = length (recs e) ->
  for_inflight (length todo) (blen done_) f (set_recs rs e) = (set_recs (upd g todo rs) e, Ok tt).
Proof.
  intros Hp Hf Hg. induction todo as [|id todo IH]; intros dn rs Hids Hrs Hlen; [done|]. cbn [length for_inflight]. rewrite bind_gets.
  assert (Hi : ids !! length dn = Some id) by (rewrite Hids; by apply list_lookup_middle).
  pose proof (recAt_frame _ _ (set_recs rs e) _ (win_recAt e ids _ _ Hp Hi) eq_refl) as Hat.
  cbn [inflightHead set_recs]. fold (blen dn) in Hat. rewrite (bind_ok _ _ _ _ _ Hat).
  destruct (w_rec _ _ Hp _ _ Hi) as (r0 & Hr0). destruct (lookup_lt_is_Some_2 rs id) as [r Hr]; [rewrite Hlen; by eapply lookup_lt_Some|].
  pose proof Hrs as Hrs'. rewrite Forall_lookup in Hrs'. pose proof (Hrs' _ _ Hr) as Hrok.
  rewrite (bind_ok _ _ _ _ _ (Hf id r rs ltac:(by eapply list_elem_of_lookup_2) Hr Hrok)).
  assert (Ha : <[id := g r]> rs = alter g id rs) by (rewrite list_insert_alter; apply list_alter_ext; [|done]; intros ? Hx; congruence).
  rewrite Ha. change (upd g (id :: todo) rs) with (upd g todo (alter g id rs)).
  replace (blen dn + 1) with (blen (dn ++ [id])) by len. apply IH.
  - by rewrite <- app_assoc.
  - rewrite <- Ha. apply Forall_insert; [done|by apply Hg].
  - by rewrite length_alter.
Qed.

Lemma eachInflight_ok g f (e : Engine F) ids : win e ids ->
  (forall id r rs, id ∈ ids -> rs !! id = Some r -> rec_ok r -> f id (set_recs rs e) = (set_recs (<[id := g r]> rs) e, Ok tt)) ->
  (forall r, rec_ok r -> rec_ok (g r)) ->
  eachInflight f e = (set_recs (upd g ids (recs e)) e, Ok tt).
Proof.
  intros Hp Hf Hg. unfold eachInflight. rewrite bind_gets, (win_N e ids Hp). unfold blen. rewrite Nat2Z.id.
  pose proof (for_inflight_ok g f e ids Hp Hf Hg ids [] (recs e) eq_refl (w_wf _ _ Hp) eq_refl) as H.
  rewrite <- H. f_equal. by destruct e.
Qed.

(** Failing the writes that [P] selects. *)
Definition fail (P : inflight -> bool) (err : perr) (r : inflight) : inflight :=
  if P r && negb (resolved r) then settle r (Some err) else r.

Lemma fail_ok P err r : rec_ok r -> rec_ok (fail P err r).
Proof.
  intros Hr. unfold fail. destruct (P r && negb (resolved r)) eqn:E1; [|done]. apply andb_true_iff in E1 as [_ E1].
  apply negb_true_iff in E1. eapply (rstep_ok (fun _ _ => True)); [|exact Hr]. right. split; [done|]. by exists (Some err).
Qed.

Lemma failEach_ok P err (e : Engine F) ids : win e ids ->
  eachInflight (fun id => r ← getRec id; if P r : bool then resolveLocked id (Some err) else mret tt) e = (set_recs (upd (fail P err) ids (recs e)) e, Ok tt).
Proof.
  intros Hw. apply eachInflight_ok; [done| |intros; by apply fail_ok]. intros id r rs _ Hr Hok.
  rewrite (bind_ok _ _ _ _ _ (getRec_ok (set_recs rs e) id r Hr)). unfold fail. destruct (P r); cbn [andb].
  - rewrite (resolveLocked_ok (set_recs rs e) id r _ Hr Hok). destruct (resolved r); cbn [negb]; [|done]. by rewrite list_insert_id.
  - by rewrite list_insert_id.
Qed.

Lemma fail_rstep (Q : inflight -> option perr -> Prop) P err r : (forall r, Q r (Some err)) -> rstep Q r (fail P err r).
Proof.
  intros HQ. unfold fail. destruct (P r && negb (resolved r)) eqn:E1; [|by left]. apply andb_true_iff in E1 as [_ E1].
  apply negb_true_iff in E1. right. split; [done|]. by exists (Some err).
Qed.

Lemma rstep_evolves Q r r' : rstep Q r r' -> evolves r r'.
Proof. intros H. destruct (rstep_same _ _ _ H) as (E1 & E2 & _ & E3). split_and!; try done. by eapply rstep_ok. Qed.

Lemma swept_recs now e rs : Forall2 (rstep (may_settle now (committed e) e)) (recs e) rs -> swept now e (set_recs rs e).
Proof.
  intros H. exists (inflightRing e), (inflightHead e), (inflightN e), (baseSeq e), rs, (committed e).
  split; [by destruct e|]. split; [done|lia].
Qed.

(** Once every record in flight has its outcome, a sweep empties the pipeline. *)
Lemma waiting_resolved e ids : waiting e ids -> (forall id r, id ∈ ids -> recs e !! id = Some r -> resolved r = true) -> ids = [].
Proof.
  intros Hw Hr. destruct ids as [|id ids]; [done|]. destruct Hw as (r & Hx & Hf & _). exfalso.
  rewrite (Hr id r ltac:(constructor) Hx) in Hf. done.
Qed.

Lemma swept_resolved now e e' id r r' : swept now e e' -> recs e !! id = Some r -> recs e' !! id = Some r' -> resolved r = true -> r' = r.
Proof.
  intros (rg & h & n & b & rs & c & -> & Hrs & _) Hr Hr' Hres. cbn in Hr'. destruct (Forall2_lookup_l _ _ _ _ _ Hrs Hr) as (r1 & Hr1 & Hst).
  rewrite Hr1 in Hr'. injection Hr' as <-. destruct Hst as [->|(Hf & _)]; [done|congruence].
Qed.

Lemma flush_ok minEpoch now e ids : pipe e ids ->
  exists e' ids', flushEpochLocked commitLevel minEpoch now e = (e', Ok tt) /\ pipe e' ids' /\ swept now e e' /\ ids' `suffix_of` ids /\
    (epoch e < minEpoch \/ (forall id r, id ∈ ids -> recs e !! id = Some r -> rEpoch r < minEpoch) -> ids' = []).
Proof.
  intros Hp. unfold flushEpochLocked. set (g := fail (fun r => rEpoch r <? minEpoch) ErrLeaseExpired).
  rewrite (bind_ok _ _ _ _ _ (failEach_ok _ ErrLeaseExpired e ids (pipe_win _ _ Hp))). set (e1 := set_recs _ e).
  assert (Hst : Forall2 (rstep (may_settle now (committed e) e)) (recs e) (upd g ids (recs e))).
  { apply upd_rel; [apply Hp|by left|]. intros id r _ _. by apply fail_rstep. }
  assert (Hp1 : pipe e1 ids) by (apply pipe_evolves; [done|]; eapply Forall2_impl; [exact Hst|intros ??; apply rstep_evolves]).
  destruct (sweep_ok now e1 ids Hp1) as (e2 & ids2 & -> & Hp2 & Hsw & Hsuf & Hw). exists e2, ids2. split; [done|]. split; [done|].
  split; [eapply swept_trans; [by apply swept_recs|exact Hsw]|]. split; [done|]. intros Hold. eapply waiting_resolved; [exact Hw|].
  intros id r Hin Hr. assert (Hids : id ∈ ids) by (destruct Hsuf as [k ->]; apply elem_of_app; by right).
  apply list_elem_of_lookup in Hids as [i Hi]. destruct (p_rec _ _ Hp _ _ Hi) as (r0 & Hr0 & _ & Hep).
  assert (Hlt : rEpoch r0 < minEpoch) by (destruct Hold as [?|Hold]; [lia|by eapply Hold; [eapply list_elem_of_lookup_2|]]).
  assert (Hr1 : recs e1 !! id = Some (g r0)).
  { cbn. rewrite upd_lookup by apply Hp. rewrite decide_True by (by eapply list_elem_of_lookup_2). by rewrite Hr0. }
  assert (Hg : resolved (g r0) = true).
  { unfold g, fail. rewrite (proj2 (Z.ltb_lt _ _)) by done. cbn [andb]. by destruct (resolved r0) eqn:E1; cbn. }
  by rewrite (swept_resolved now e1 e2 id (g r0) r Hsw Hr1 Hr Hg).
Qed.

(** When everything in flight has its outcome, whatever the watermarks are, a sweep
    only pops. *)
Lemma win_frame (e e' : Engine F) ids : win e ids -> inflightRing e' = inflightRing e -> inflightHead e' = inflightHead e -> inflightN e' = inflightN e ->
  recs e' = recs e -> win e' ids.
Proof. intros [H1 H2 H3 H4 H5] E1 E2 E3 E4. split; unfold window in *; rewrite ?E1, ?E2, ?E3, ?E4; try done. Qed.

Lemma win_pop (e : Engine F) id ids : win e (id :: ids) -> (forall r, recs e !! id = Some r -> resolved r = true) ->
  exists rg h b, popInflightHeadLocked e = (repipe rg h (inflightN e - 1) b (recs e) (committed e) e, Ok tt) /\
    win (repipe rg h (inflightN e - 1) b (recs e) (committed e) e) ids.
Proof.
  intros Hw Hres. pose proof (win_N e _ Hw) as HN. rewrite blen_cons in HN. pose proof (blen_nonneg ids).
  destruct Hw as [H1 H2 H3 H4 H5]. destruct H1 as [(? & _)|(R1 & R2 & R3)]; [done|].
  unfold popInflightHeadLocked. rewrite !bind_gets. rewrite (proj2 (Z.leb_le _ _)), (proj2 (Z.ltb_lt _ _)) by lia. cbn [andb negb].
  rewrite !bind_modify. unfold modify. rewrite rem_next by done.
  exists (<[Z.to_nat (inflightHead e) := None]> (inflightRing e)), (if inflightHead e + 1 <? blen (inflightRing e) then inflightHead e + 1 else 0), (u64 (baseSeq e + 1)).
  split; [by destruct e|]. split; cbn; try done.
  - right. rewrite blen_insert. split; [wraps; lia|]. split; [lia|]. unfold window. cbn.
    rewrite (live_pop (inflightRing e)); [|done|lia|apply blen_insert|intros; by apply list_lookup_insert_ne].
    change (live _ _ _) with (window e). by rewrite R3.
  - by apply NoDup_cons in H2 as [_ ?].
  - intros i x Hx. by apply (H3 (S i)).
  - intros x r Hr Hn. destruct (decide (x = id)) as [->|Hne]; [by apply Hres|]. apply (H5 x r Hr). by apply not_elem_of_cons.
Qed.

Lemma win_sweep now fuel : forall (e : Engine F) ids, win e ids -> (length ids < fuel)%nat ->
  (forall id r, id ∈ ids -> recs e !! id = Some r -> resolved r = true) ->
  exists rg h b, sweep_loop commitLevel fuel now e = (repipe rg h 0 b (recs e) (committed e) e, Ok tt) /\ win (repipe rg h 0 b (recs e) (committed e) e) [].
Proof.
  induction fuel as [|fuel IH]; intros e ids Hw Hf Hres; [lia|]. pose proof (win_N e ids Hw) as HN. cbn [sweep_loop]. rewrite bind_gets.
  destruct ids as [|id ids].
  { change (blen []) with 0 in HN. rewrite HN. exists (inflightRing e), (inflightHead e), (baseSeq e). cbn [Z.leb Z.compare].
    assert (He : repipe (inflightRing e) (inflightHead e) 0 (baseSeq e) (recs e) (committed e) e = e) by (rewrite <- HN; by destruct e). by rewrite He. }
  rewrite blen_cons in HN. pose proof (blen_nonneg ids). rewrite (proj2 (Z.leb_gt _ _)) by lia. rewrite bind_gets.
  pose proof (win_recAt e _ 0 id Hw eq_refl) as Hat. cbn in Hat. rewrite Z.add_0_r in Hat. rewrite (bind_ok _ _ _ _ _ Hat).
  destruct (w_rec _ _ Hw 0 id eq_refl) as (r & Hr). rewrite (bind_ok _ _ _ _ _ (getRec_ok e id r Hr)).
  rewrite (Hres id r) by (first [constructor|done]).
  destruct (win_pop e id ids Hw) as (rg & h & b & Hpop & Hw'). { intros r' Hr'. apply (Hres id); [constructor|done]. }
  rewrite (bind_ok _ _ _ _ _ Hpop). destruct (IH _ _ Hw') as (rg2 & h2 & b2 & -> & Hw2).
  - cbn in Hf. lia.
  - intros x r' Hx Hr'. apply (Hres x); [by constructor|done].
  - by exists rg2, h2, b2.
Qed.

(** A flush of every epoch below one above all: it fails the rest and empties the pipeline. *)
Lemma win_fail P err (e : Engine F) ids : win e ids -> win (set_recs (upd (fail P err) ids (recs e)) e) ids.
Proof.
  intros [W1 W2 W3 W4 W5]. split; unfold window in *; cbn; try done.
  - intros i id Hi. destruct (W3 i id Hi) as (r & Hr). rewrite upd_lookup by done. rewrite Hr. by case_decide; eexists.
  - apply Forall_lookup. intros i r Hr. rewrite upd_lookup in Hr by done. rewrite Forall_lookup in W4. case_decide; [|by eapply W4].
    destruct (recs e !! i) as [r0|] eqn:E1; [|done]. injection Hr as <-. by apply fail_ok, (W4 i).
  - intros id r Hr Hn. rewrite upd_lookup in Hr by done. rewrite decide_False in Hr by done. by eapply W5.
Qed.

Lemma win_flush minEpoch now (e : Engine F) ids : win e ids -> (forall id r, id ∈ ids -> recs e !! id = Some r -> rEpoch r < minEpoch) ->
  exists rg h b, flushEpochLocked commitLevel minEpoch now e =
    (repipe rg h 0 b (upd (fail (fun r => rEpoch r <? minEpoch) ErrLeaseExpired) ids (recs e)) (committed e) e, Ok tt) /\
    win (repipe rg h 0 b (upd (fail (fun r => rEpoch r <? minEpoch) ErrLeaseExpired) ids (recs e)) (committed e) e) [].
Proof.
  intros Hw Hlt. unfold flushEpochLocked. set (g := fail (fun r => rEpoch r <? minEpoch) ErrLeaseExpired). pose proof (w_nodup _ _ Hw) as Hnd.
  rewrite (bind_ok _ _ _ _ _ (failEach_ok _ ErrLeaseExpired e ids Hw)). set (e1 := set_recs _ e).
  assert (Hw1 : win e1 ids) by (by apply win_fail).
  unfold sweepLocked. rewrite bind_gets.
  destruct (win_sweep now (S (Z.to_nat (inflightN e1))) e1 ids Hw1) as (rg & h & b & Hs & Hw2).
  - rewrite (win_N e1 ids Hw1). unfold blen. lia.
  - intros id r Hin Hr. cbn in Hr. rewrite upd_lookup in Hr by done. rewrite decide_True in Hr by done. destruct (recs e !! id) as [r0|] eqn:E1; [|done].
    injection Hr as <-. unfold g, fail. rewrite (proj2 (Z.ltb_lt _ _)) by (by eapply Hlt). cbn [andb]. by destruct (resolved r0) eqn:E2; cbn.
  - exists rg, h, b. rewrite Hs. split; [by destruct e|]. exact Hw2.
Qed.

Lemma win_pipe (e : Engine F) : win e [] -> 0 <= committed e <= lastSeq e /\ lastSeq e < 2 ^ 62 -> pipe e [].
Proof. intros [H1 H2 H3 H4 H5] Hm. by split. Qed.

(** ** Record histories *)

(** A record loses pending peers only for the reason [J], keeps its outcome, and
    gets a success only when none is left. *)
Record rec_to (J : Z -> Z -> string -> Prop) (r r' : inflight) : Prop := {
  rt_epoch : rEpoch r' = rEpoch r;
  rt_seq : rSeq r' = rSeq r;
  rt_ok : rec_ok r -> rec_ok r';
  rt_lost : rec_ok r -> forall p, p ∈ pendingPeers r -> p ∈ pendingPeers r' \/ J (rEpoch r) (rSeq r) p;
  rt_less : rec_ok r -> pendingPeers r' ⊆ pendingPeers r;
  rt_keep : resolved r = true -> resolved r' = true /\ rErr r' = rErr r;
  rt_new : rec_ok r -> resolved r' = true -> rErr r' = None -> resolved r = true /\ rErr r = None \/ pendingPeers r' = [] \/ commitLevel = CommitPrimary;
}.

Lemma rec_to_refl J r : rec_to J r r.
Proof. split; try done; tauto. Qed.

Lemma rec_to_trans (J J1 J2 : Z -> Z -> string -> Prop) r1 r2 r3 :
  (forall a b c, J1 a b c -> J a b c) -> (forall a b c, J2 a b c -> J a b c) ->
  rec_to J1 r1 r2 -> rec_to J2 r2 r3 -> rec_to J r1 r3.
Proof.
  intros HJ1 HJ2 [A1 A2 A3 A4 A5 A6 A7] [B1 B2 B3 B4 B5 B6 B7]. split; try congruence.
  - tauto.
  - intros Hok p Hp. destruct (A4 Hok p Hp) as [H|H]; [|right; auto]. destruct (B4 (A3 Hok) p H) as [H'|H']; [by left|].
    right. rewrite A1, A2 in H'. auto.
  - intros Hok. etransitivity; [by apply B5, A3|by apply A5].
  - intros H. destruct (A6 H) as [H1 H2]. destruct (B6 H1) as [H3 H4]. split; congruence.
  - intros Hok H1 H2. destruct (B7 (A3 Hok) H1 H2) as [[H3 H4]|H]; [|by right]. destruct (A7 Hok H3 H4) as [?|[Hn|?]]; [by left| |by right; right].
    right. left. specialize (B5 (A3 Hok)). rewrite Hn in B5. by apply list_nil_subseteq.
Qed.

Lemma rstep_to now c (e : Engine F) J r r' : rstep (may_settle now c e) r r' -> rec_to J r r'.
Proof.
  intros [->|(Hr & err & -> & HQ)]; [apply rec_to_refl|]. split; cbn; try done.
  - intros [H1 H2 H3 H4]. split; cbn; try done. intros _. rewrite H3 by done. by right.
  - intros _ p Hp. by left.
  - congruence.
  - intros _ _ ->. right. destruct (HQ eq_refl) as [[?|?] _]; [by left|by right].
Qed.

Definition recs_to (J : Z -> Z -> string -> Prop) (rs rs' : list inflight) : Prop := Forall2 (rec_to J) rs rs'.

Lemma recs_to_refl J rs : recs_to J rs rs.
Proof. induction rs; constructor; [apply rec_to_refl|done]. Qed.

Lemma recs_to_trans (J J1 J2 : Z -> Z -> string -> Prop) a b c :
  (forall a b c, J1 a b c -> J a b c) -> (forall a b c, J2 a b c -> J a b c) -> recs_to J1 a b -> recs_to J2 b c -> recs_to J a c.
Proof. intros H1 H2 Ha Hb. eapply (Forall2_trans (rec_to J1) (rec_to J2)); [|done|done]. intros x y z. by apply rec_to_trans. Qed.

Lemma swept_to now e e' J : swept now e e' -> recs_to J (recs e) (recs e').
Proof. intros (rg & h & n & b & rs & c & -> & Hrs & _). eapply Forall2_impl; [exact Hrs|]. intros x y. apply rstep_to. Qed.

Lemma rec_to_evolves J r r' : rec_to J r r' -> evolves r r'.
Proof. intros [A1 A2 A3 A4 A5 A6 A7]. split_and!; try done. intros H. by apply A6. Qed.

Lemma removePending_to J peer r : J (rEpoch r) (rSeq r) peer -> rec_to J r (removePending peer r).
Proof.
  intros HJ. assert (H : rec_ok r -> _) by apply (removePending_spec peer r). split.
  - unfold removePending. repeat case_match; done.
  - unfold removePending. repeat case_match; done.
  - intros Hok. by destruct (H Hok).
  - intros Hok p Hp. destruct (H Hok) as (_ & Hw & _). destruct (decide (p = peer)) as [->|Hne]; [by right|]. left.
    apply (without_elem peer _ _ p (ro_nodup _ Hok) Hw). done.
  - intros Hok p Hp. destruct (H Hok) as (_ & Hw & _). by apply (without_elem peer _ _ p (ro_nodup _ Hok) Hw) in Hp as [? _].
  - unfold removePending. repeat case_match; done.
  - intros Hok. destruct (H Hok) as (_ & _ & _ & _ & -> & -> & _). intros. by left.
Qed.

(** ** Frames *)

(** The same log, state machine and messages. *)
Record kept (e e' : Engine F) : Prop := {
  k_lastSeq : lastSeq e' = lastSeq e; k_lastSeqEpoch : lastSeqEpoch e' = lastSeqEpoch e;
  k_lastApplied : lastApplied e' = lastApplied e; k_lastAppliedEpoch : lastAppliedEpoch e' = lastAppliedEpoch e;
  k_backlog : backlog e' = backlog e; k_fsm : fsm e' = fsm e; k_outbox : outbox e' = outbox e;
  k_poisoned : poisoned e' = poisoned e; k_closed : closed e' = closed e; k_stage : snapStage e' = snapStage e;
}.

Lemma kept_refl e : kept e e.
Proof. done. Qed.
Lemma kept_trans e1 e2 e3 : kept e1 e2 -> kept e2 e3 -> kept e1 e3.
Proof. intros [] []. split; congruence. Qed.

Lemma kept_frontier e e' : kept e e' -> appliedFrontierLocked e' = appliedFrontierLocked e.
Proof. intros [E1 E2 E3 E4 _ _ _ _ _ _]. unfold appliedFrontierLocked. by rewrite E1, E2, E3, E4. Qed.

Lemma swept_kept now e e' : swept now e e' -> kept e e' /\ epoch e' = epoch e /\ leaseEpoch e' = leaseEpoch e /\ leaseExpiry e' = leaseExpiry e /\
  peerQ e' = peerQ e /\ effISR e' = effISR e /\ effISREpoch e' = effISREpoch e /\ learners e' = learners e /\ committed e <= committed e'.
Proof. intros (rg & h & n & b & rs & c & -> & Hrs & Hc). by split. Qed.

Lemma clearLearners_ok (e : Engine F) : exists l t, clearLearnersLocked e = (set_learners l (set_learnerTeardown t e), Ok tt).
Proof.
  unfold clearLearnersLocked. rewrite bind_gets. case_decide; [|by rewrite bind_modify; do 2 eexists].
  exists (learners e), (learnerTeardown e). by destruct e.
Qed.

(** Entering an epoch fails everything in flight. *)
Lemma enterEpoch_ok ep now e ids : pipe e ids -> epoch e < ep ->
  exists e', enterEpoch commitLevel ep now e = (e', Ok tt) /\ pipe e' [] /\ kept e e' /\ epoch e' = ep /\
    leaseEpoch e' = leaseEpoch e /\ leaseExpiry e' = leaseExpiry e /\ peerQ e' = peerQ e /\
    (forall J, recs_to J (recs e) (recs e')) /\ committed e <= committed e'.
Proof.
  intros Hp Hlt. unfold enterEpoch, clearEffISRLocked. rewrite bind_modify.
  match goal with |- context [((modify ?a ;; modify ?b) ;; ?k)] => change ((modify a ;; modify b) ;; k) with (modify a ;; (modify b ;; k)) end.
  rewrite !bind_modify. set (e1 := set_effISREpoch 0 (set_effISR [] (set_epoch ep e))).
  destruct (clearLearners_ok e1) as (l & t & H1). rewrite (bind_ok _ _ _ _ _ H1). set (e2 := set_learners l (set_learnerTeardown t e1)).
  assert (Hp2 : pipe e2 ids) by (apply (pipe_frame e); try done; cbn; lia).
  destruct (flush_ok ep now e2 ids Hp2) as (e3 & ids3 & -> & Hp3 & Hsw & Hsuf & Hnil).
  rewrite Hnil in Hp3. 2:{ right. intros id r Hin Hr. apply list_elem_of_lookup in Hin as [i Hi]. destruct (p_rec _ _ Hp _ _ Hi) as (r0 & Hr0 & _ & Hle).
    change (recs e2) with (recs e) in Hr. replace r with r0 by congruence. lia. }
  destruct (swept_kept _ _ _ Hsw) as (Hk & E1 & E2 & E3 & E4 & _ & _ & _ & E5). exists e3. split; [done|]. split; [done|].
  split; [eapply kept_trans; [|exact Hk]; by split|]. split_and!; try done. intros J. by apply (swept_to now e2).
Qed.

(** ** Registration *)

Lemma newRec_ok ep seq ps : NoDup ps -> rec_ok (newRec ep seq ps) /\ pendingPeers (newRec ep seq ps) = ps.
Proof.
  intros Hn. unfold newRec. pose proof (blen_nonneg ps). destruct (Z.leb_spec (blen ps) maxInlinePeers).
  - assert (Hps : pendingPeers (MkRec ep seq (blen ps) (ps ++ replicate (Z.to_nat (maxInlinePeers - blen ps)) noPeer) None false None []) = ps).
    { unfold pendingPeers. cbn. unfold blen. rewrite Nat2Z.id. apply take_app_length. }
    split; [|done]. split; try done; rewrite ?Hps; try done. intros _. cbn [npending peers]. split; [lia|]. rewrite blen_app, blen_replicate. lia.
  - split; [|done]. by split.
Qed.

Lemma copyRing_ok (b : list (option nat)) h n : forall k, 0 <= h < blen b -> 0 <= k -> k + Z.of_nat n <= blen b ->
  copyRing b n (h + k) = Ok (drop (Z.to_nat k) (live b h (k + Z.of_nat n))).
Proof.
  induction n as [|n IH]; intros k Hh Hk Hn.
  { cbn [copyRing]. f_equal. symmetry. apply drop_ge. pose proof (live_len b h (k + Z.of_nat 0) Hh ltac:(lia)) as Hl. unfold blen in Hl. lia. }
  cbn [copyRing]. set (c := k + Z.of_nat (S n)). pose proof (live_len b h c Hh ltac:(lia)) as Hl.
  destruct (lookup_lt_is_Some_2 (live b h c) (Z.to_nat k)) as [p Hp]; [unfold blen in Hl; lia|].
  rewrite (cget_live b h c Hh ltac:(lia) k p) by (first [done|lia]). cbn [mbind outcome_bind].
  replace (h + k + 1) with (h + (k + 1)) by lia. rewrite IH by lia. cbn [mbind outcome_bind]. f_equal.
  rewrite (drop_S _ _ _ Hp). f_equal. replace (k + 1 + Z.of_nat n) with c by lia. f_equal. lia.
Qed.

(** The ring holds [ids]; an allocated one has room, or is full. *)
Definition ringed (b : list (option nat)) (h n : Z) (ids : list nat) : Prop :=
  0 <= h < blen b /\ 0 <= n <= blen b /\ live b h n = Some <$> ids.

Lemma allocRing_ok (e : Engine F) ids :
  ids = [] /\ inflightN e = 0 /\ inflightRing e = [] \/ ringed (inflightRing e) (inflightHead e) (inflightN e) ids ->
  exists b h, allocRing e = (set_inflightHead h (set_inflightRing b e), Ok tt) /\ ringed b h (inflightN e) ids.
Proof.
  intros Hp. unfold allocRing. rewrite bind_gets. destruct Hp as [(-> & Hn0 & Hr)|(R1 & R2 & R3)].
  - rewrite bool_decide_eq_true_2 by done. rewrite bind_modify. exists (replicate (Z.to_nat pipelineWindow) None), 0. rewrite Hn0. by split.
  - rewrite bool_decide_eq_false_2 by (intros Hr; apply (f_equal blen) in Hr; change (blen []) with 0 in Hr; lia).
    exists (inflightRing e), (inflightHead e). split; [by destruct e|done].
Qed.

Lemma grow_ok (e : Engine F) ids : ringed (inflightRing e) (inflightHead e) (inflightN e) ids -> inflightN e = blen (inflightRing e) ->
  exists b, growInflightRingLocked e = (set_inflightHead 0 (set_inflightRing b e), Ok tt) /\ ringed b 0 (inflightN e) ids /\ inflightN e < blen b.
Proof.
  intros (R1 & R2 & R3) Hf. unfold growInflightRingLocked. rewrite !bind_gets.
  pose proof (copyRing_ok (inflightRing e) (inflightHead e) (Z.to_nat (inflightN e)) 0 R1 ltac:(lia) ltac:(lia)) as Hcp.
  rewrite Z.add_0_r in Hcp. rewrite (bind_lift _ _ _ _ Hcp), !bind_modify. replace (0 + Z.of_nat (Z.to_nat (inflightN e))) with (inflightN e) by lia.
  rewrite R3. change (drop (Z.to_nat 0) (Some <$> ids)) with (Some <$> ids). eexists. split; [done|].
  pose proof (live_len _ _ _ R1 R2) as Hl. rewrite R3 in Hl. set (l := Some <$> ids) in *. unfold blen in Hl, Hf.
  assert (Hb : blen (l ++ replicate (2 * length (inflightRing e) - length l) None) = 2 * inflightN e) by (rewrite blen_app, blen_replicate; unfold blen; lia).
  split; [|unfold blen in *; lia]. unfold ringed. rewrite Hb. split; [unfold blen in *; lia|]. split; [lia|].
  unfold live. change (Z.to_nat 0) with 0%nat. rewrite drop_0, take_0, app_nil_r. rewrite take_app_le, take_ge by lia. done.
Qed.

Lemma makeRoom_ok (e : Engine F) ids seq : ringed (inflightRing e) (inflightHead e) (inflightN e) ids ->
  inflightN e = blen ids -> (ids <> [] -> baseSeq e + blen ids = seq) -> 0 <= seq < 2 ^ 62 ->
  exists b h base, makeRoom seq e = (set_baseSeq base (set_inflightHead h (set_inflightRing b e)), Ok tt) /\
    ringed b h (inflightN e) ids /\ inflightN e < blen b /\ base + blen ids = seq /\ (ids <> [] -> base = baseSeq e).
Proof.
  intros Hr HN Hseq Hb. unfold makeRoom. rewrite bind_gets. pose proof Hr as (R1 & R2 & R3).
  destruct (Z.eqb_spec (inflightN e) 0) as [H0|H0].
  - exists (inflightRing e), (inflightHead e), seq. split; [by destruct e|]. split; [done|]. split; [lia|]. split; [lia|].
    intros Hne. destruct ids; [done|]. rewrite blen_cons in HN. pose proof (blen_nonneg ids). lia.
  - assert (Hne : ids <> []) by (intros ->; rewrite blen_nil in HN; lia). specialize (Hseq Hne).
    rewrite bind_gets, wrap_fits by (unfold fits; lia). rewrite (proj2 (Z.eqb_eq _ _)) by lia. cbn [negb]. rewrite bind_gets.
    destruct (Z.eqb_spec (inflightN e) (blen (inflightRing e))) as [Hf|Hf].
    + destruct (grow_ok e ids Hr Hf) as (b & -> & Hrg & Hlt). exists b, 0, (baseSeq e). split; [by destruct e|]. by split_and!.
    + exists (inflightRing e), (inflightHead e), (baseSeq e). split; [by destruct e|]. split_and!; try done; lia.
Qed.

(** The state after a registration. *)
Definition registered (rg : list (option nat)) (h b ep seq : Z) (ps : list string) (e : Engine F) : Engine F :=
  set_lastSeqEpoch ep (set_lastSeq seq (repipe rg h (inflightN e + 1) b (recs e ++ [newRec ep seq ps]) (committed e) e)).

Lemma register_pipe rg h b ep seq ps e ids : pipe e ids -> NoDup ps -> ep <= epoch e -> lastSeq e < seq < 2 ^ 62 ->
  ringed rg h (inflightN e) ids -> inflightN e < blen rg -> b + blen ids = seq -> (ids <> [] -> b = baseSeq e) ->
  pipe (registered (<[at_slot (blen rg) h (inflightN e) := Some (length (recs e))]> rg) h b ep seq ps e) (ids ++ [length (recs e)]).
Proof.
  intros Hp Hn Hep Hseq (G1 & G2 & G3) Hlt G4 G5. pose proof Hp as [P1 P2 P3 P4 P5 P6 P7]. set (id := length (recs e)).
  destruct (newRec_ok ep seq ps Hn) as [Hrok Hpend].
  assert (Hfresh : id ∉ ids).
  { intros [i Hi]%list_elem_of_lookup. destruct (P3 i id Hi) as (r & Hr & _). apply lookup_lt_Some in Hr. unfold id in Hr. lia. }
  split; cbn.
  - right. rewrite blen_insert. split; [done|]. split; [lia|]. unfold window. cbn. rewrite live_push by lia. by rewrite G3, fmap_app.
  - apply NoDup_app. split; [done|]. split; [|apply NoDup_singleton]. intros x Hx ->%list_elem_of_singleton. done.
  - intros i x Hx. apply lookup_app_Some in Hx as [Hx|[Hi Hx]].
    + destruct (P3 i x Hx) as (r & Hr & Hs & Hle). exists r. rewrite lookup_app_l by (by eapply lookup_lt_Some). split; [done|].
      rewrite G5 by (by destruct ids). done.
    + apply list_lookup_singleton_Some in Hx as [Hi0 <-]. exists (newRec ep seq ps). unfold id. rewrite lookup_app_r, Nat.sub_diag by lia. split; [done|].
      unfold newRec. split; [destruct (_ <=? _); cbn; unfold blen in G4; lia|]. by destruct (_ <=? _).
  - apply Forall_app. split; [done|]. by constructor.
  - intros x r Hr Hx. apply not_elem_of_app in Hx as [Hx1 Hx2]. apply lookup_app_Some in Hr as [Hr|[Hi Hr]]; [by eapply P5|].
    apply list_lookup_singleton_Some in Hr as [Hi0 _]. exfalso. apply Hx2, list_elem_of_singleton. unfold id. lia.
  - intros _. rewrite blen_app, blen_cons, blen_nil. split; [lia|]. destruct ids as [|i0 ids0].
    + rewrite blen_nil in G4. lia.
    + rewrite G5 by done. by apply P6.
  - lia.
Qed.

Lemma register_ok ep seq ps e ids : pipe e ids -> NoDup ps -> ep <= epoch e -> lastSeq e < seq < 2 ^ 62 -> (ids <> [] -> seq = lastSeq e + 1) ->
  exists rg h b, registerInflightLocked ep seq ps e = (registered rg h b ep seq ps e, Ok (length (recs e))) /\
    pipe (registered rg h b ep seq ps e) (ids ++ [length (recs e)]).
Proof.
  intros Hp Hn Hep Hseq Hids. unfold registerInflightLocked. rewrite bind_gets, bind_modify.
  set (e1 := set_recs _ e).
  destruct (allocRing_ok e1 ids) as (rg & h & Ha & Hr); [exact (p_ring _ _ Hp)|]. rewrite (bind_ok _ _ _ _ _ Ha).
  set (e2 := set_inflightHead h (set_inflightRing rg e1)). pose proof (p_marks _ _ Hp) as Hm.
  destruct (makeRoom_ok e2 ids seq) as (rg' & h' & b & Hmk & Hr' & Hlt & Hb & Hb'); [exact Hr|exact (pipe_N e ids Hp)| |lia|].
  { intros Hne. specialize (Hids Hne). destruct (p_base _ _ Hp Hne). change (baseSeq e2) with (baseSeq e). lia. }
  change (inflightN e2) with (inflightN e) in *. rewrite (bind_ok _ _ _ _ _ Hmk), !bind_gets.
  cbn [inflightHead inflightRing inflightN set_baseSeq set_inflightHead set_inflightRing].
  change (inflightN e2) with (inflightN e).
  rewrite (bind_lift _ (<[at_slot (blen rg') h' (inflightN e) := Some (length (recs e))]> rg')) by (destruct Hr' as (? & ? & _); apply cset_at; lia).
  rewrite !bind_modify, bind_gets. change (lastSeq _) with (lastSeq e). rewrite (proj2 (Z.ltb_lt _ _)) by lia.
  exists (<[at_slot (blen rg') h' (inflightN e) := Some (length (recs e))]> rg'), h', b. split; [by destruct e|].
  apply register_pipe; done.
Qed.

(** The same, by what the registration leaves. *)
Lemma register_facts ep seq ps e ids : pipe e ids -> NoDup ps -> ep <= epoch e -> lastSeq e < seq < 2 ^ 62 -> (ids <> [] -> seq = lastSeq e + 1) ->
  exists e', registerInflightLocked ep seq ps e = (e', Ok (length (recs e))) /\ pipe e' (ids ++ [length (recs e)]) /\
    recs e' = recs e ++ [newRec ep seq ps] /\ lastSeq e' = seq /\ lastSeqEpoch e' = ep /\ lastApplied e' = lastApplied e /\ lastAppliedEpoch e' = lastAppliedEpoch e /\
    backlog e' = backlog e /\ fsm e' = fsm e /\ outbox e' = outbox e /\ peerQ e' = peerQ e /\ poisoned e' = poisoned e /\ closed e' = closed e /\
    snapStage e' = snapStage e /\ epoch e' = epoch e /\ leaseEpoch e' = leaseEpoch e /\ leaseExpiry e' = leaseExpiry e /\ learners e' = learners e.
Proof.
  intros Hp Hn Hep Hseq Hids. destruct (register_ok ep seq ps e ids Hp Hn Hep Hseq Hids) as (rg & h & b & H1 & H2).
  eexists. split; [exact H1|]. split; [exact H2|]. split_and!; reflexivity.
Qed.

(** ** Acknowledgements *)

(** Only the pipeline and the bookkeeping about peers changed. *)
Record steady (J : Z -> Z -> string -> Prop) (e e' : Engine F) : Prop := {
  s_kept : kept e e';
  s_epoch : epoch e' = epoch e; s_lease : leaseEpoch e' = leaseEpoch e; s_expiry : leaseExpiry e' = leaseExpiry e;
  s_queue : peerQ e' ⊆ peerQ e;
  s_recs : recs_to J (recs e) (recs e');
}.

Lemma steady_refl J e : steady J e e.
Proof. split; try done. apply recs_to_refl. Qed.

Lemma steady_trans (J J1 J2 : Z -> Z -> string -> Prop) e1 e2 e3 :
  (forall a b c, J1 a b c -> J a b c) -> (forall a b c, J2 a b c -> J a b c) -> steady J1 e1 e2 -> steady J2 e2 e3 -> steady J e1 e3.
Proof.
  intros H1 H2 [A1 A2 A3 A4 A5 A6] [B1 B2 B3 B4 B5 B6]. split; try congruence; [by eapply kept_trans|by etransitivity|eapply recs_to_trans; [exact H1|exact H2|done|done]].
Qed.

Lemma swept_steady now e e' J : swept now e e' -> steady J e e'.
Proof. intros H. destruct (swept_kept _ _ _ H) as (Hk & E1 & E2 & E3 & E4 & _). split; try done; [by rewrite E4|by eapply swept_to]. Qed.

Lemma inflightAt_ok e ids seq : pipe e ids -> fits 64 seq ->
  inflightAtLocked seq e = (e, Ok (if decide (baseSeq e <= seq) then ids !! Z.to_nat (seq - baseSeq e) else None)).
Proof.
  intros Hp Hs. pose proof (pipe_N e ids Hp) as HN. unfold inflightAtLocked. rewrite !bind_gets. destruct (decide (ids = [])) as [->|Hne].
  { rewrite HN. cbn. by case_decide. }
  destruct (p_base _ _ Hp Hne) as [B1 B2]. pose proof (p_marks _ _ Hp) as Hm. pose proof (blen_nonneg ids).
  assert (0 < blen ids) by (destruct ids; [done|]; rewrite blen_cons; pose proof (blen_nonneg ids); lia).
  rewrite (proj2 (Z.eqb_neq _ _)) by lia. cbn [orb]. destruct (Z.ltb_spec seq (baseSeq e)).
  { by rewrite decide_False by lia. }
  rewrite decide_True by lia. unfold fits in Hs. rewrite wrap_fits by (unfold fits; lia). destruct (Z.leb_spec (inflightN e) (seq - baseSeq e)).
  { rewrite lookup_ge_None_2; [done|]. unfold blen in HN. lia. }
  rewrite !bind_gets. rewrite Ring.i64_small by lia.
  destruct (lookup_lt_is_Some_2 ids (Z.to_nat (seq - baseSeq e))) as [id Hid]; [unfold blen in HN; lia|].
  destruct (p_ring _ _ Hp) as [(? & _)|(R1 & R2 & R3)]; [done|].
  unfold lift. rewrite (cget_live _ _ (inflightN e) R1 R2 _ (Some id)); [by rewrite Hid|lia|].
  change (live _ _ _) with (window e). by rewrite R3, list_lookup_fmap, Hid.
Qed.

Lemma recs_to_insert J rs id r r' : rs !! id = Some r -> rec_to J r r' -> recs_to J rs (<[id := r']> rs).
Proof.
  intros Hi Hr. unfold recs_to. rewrite <- (list_insert_id _ _ _ Hi) at 1. apply Forall2_insert; [apply recs_to_refl|done].
Qed.

Lemma recs_step J e ids rs : pipe e ids -> recs_to J (recs e) rs -> pipe (set_recs rs e) ids /\ steady J e (set_recs rs e).
Proof.
  intros Hp Hrs. split; [|by split]. apply pipe_evolves; [done|]. eapply Forall2_impl; [exact Hrs|]. intros x y. apply rec_to_evolves.
Qed.

Lemma fail_to J P err r : rec_to J r (fail P err r).
Proof.
  unfold fail. destruct (P r && negb (resolved r)) eqn:E1; [|apply rec_to_refl]. apply andb_true_iff in E1 as [_ E1]. apply negb_true_iff in E1.
  split; cbn; try done; [|intros _ p Hp; by left|congruence]. intros [H1 H2 H3 H4]. split; cbn; try done. intros _. rewrite H3 by done. by right.
Qed.

Lemma settle_to J r err : resolved r = false -> rec_ok r -> rec_to J r (settle r (Some err)).
Proof.
  intros Hr _. split; cbn; try done; [|intros _ p Hp; by left|congruence].
  intros [H1 H2 H3 H4]. split; cbn; try done. intros _. rewrite H3 by done. by right.
Qed.

(** Failing one record. *)
Lemma resolve_step e ids id r err J : pipe e ids -> recs e !! id = Some r ->
  exists e', resolveLocked id (Some err) e = (e', Ok tt) /\ pipe e' ids /\ steady J e e' /\ baseSeq e' = baseSeq e /\ exists r', recs e' !! id = Some r' /\ resolved r' = true.
Proof.
  intros Hp Hr. pose proof (p_wf _ _ Hp) as Hwf. rewrite Forall_lookup in Hwf. pose proof (Hwf _ _ Hr) as Hok.
  rewrite (resolveLocked_ok e id r _ Hr Hok). destruct (resolved r) eqn:E1.
  - exists e. split; [done|]. split; [done|]. split; [apply steady_refl|]. split; [done|by exists r].
  - eexists. split; [done|]. destruct (recs_step J e ids (<[id := settle r (Some err)]> (recs e)) Hp) as [H1 H2].
    + eapply recs_to_insert; [done|by apply settle_to].
    + split_and!; try done. exists (settle r (Some err)). split; [|done]. apply list_lookup_insert_eq. by eapply lookup_lt_Some.
Qed.

(** Crediting one record. *)
Lemma credit_step e ids id r peer (J : Z -> Z -> string -> Prop) : pipe e ids -> recs e !! id = Some r -> J (rEpoch r) (rSeq r) peer ->
  setRec id (removePending peer r) e = (set_recs (<[id := removePending peer r]> (recs e)) e, Ok tt) /\
  pipe (set_recs (<[id := removePending peer r]> (recs e)) e) ids /\ steady J e (set_recs (<[id := removePending peer r]> (recs e)) e).
Proof.
  intros Hp Hr HJ. split; [done|]. apply recs_step; [done|]. eapply recs_to_insert; [done|by apply removePending_to].
Qed.

Lemma sweep_step now e ids J : pipe e ids -> exists e' ids', sweepLocked commitLevel now e = (e', Ok tt) /\ pipe e' ids' /\ steady J e e' /\ ids' `suffix_of` ids.
Proof.
  intros Hp. destruct (sweep_ok now e ids Hp) as (e' & ids' & H1 & H2 & H3 & H4 & _). exists e', ids'. split_and!; try done. by eapply swept_steady.
Qed.

(** Bookkeeping. *)
Lemma notes_ok J e ids peer : pipe e ids ->
  (exists e', notePeerFailureLocked peer e = (e', Ok tt) /\ pipe e' ids /\ steady J e e' /\ recs e' = recs e /\ baseSeq e' = baseSeq e) /\
  (exists e', notePeerSuccessLocked peer e = (e', Ok tt) /\ pipe e' ids /\ steady J e e' /\ recs e' = recs e /\ baseSeq e' = baseSeq e) /\
  forall seq, exists e', creditPeerAckedLocked peer seq e = (e', Ok tt) /\ pipe e' ids /\ steady J e e' /\ recs e' = recs e /\ baseSeq e' = baseSeq e.
Proof.
  intros Hp. assert (Hs : forall e', recs e' = recs e -> kept e e' -> epoch e' = epoch e -> leaseEpoch e' = leaseEpoch e ->
    leaseExpiry e' = leaseExpiry e -> peerQ e' = peerQ e -> steady J e e').
  { intros e' E1 E2 E3 E4 E5 E6. split; try done; [by rewrite E6|]. rewrite E1. apply recs_to_refl. }
  split_and!.
  - eexists. split; [done|]. split; [by eapply (pipe_frame e)|]. split; [by apply Hs|done].
  - unfold notePeerSuccessLocked. rewrite bind_gets. destruct (_ =? 0); eexists; (split; [done|]); (split; [by eapply (pipe_frame e)|]); (split; [by apply Hs|done]).
  - intros seq. unfold creditPeerAckedLocked. rewrite bind_gets. destruct (_ <? seq); eexists; (split; [done|]); (split; [by eapply (pipe_frame e)|]); (split; [by apply Hs|done]).
Qed.

End Pipe.
