(* ===== verification/EngineOps.v ===== *)
(** * What each operation of an engine does to its pipeline and its log. *)
From stdpp Require Import strings gmap sets.
From S2P Require Import Prelude Ring Engine EngineInv.
Import Engine.

Section Ops.
Context {F : Type} (cl : CommitLevel).

(** ** Acknowledgements *)

(** Why an acknowledgement of [m] by [peer] removes it from a record. *)
Definition acks (peer : string) (m : ReplicateMsg) (ack : option AckMsg) (ep seq : Z) (p : string) : Prop :=
  p = peer /\ ep = Epoch m /\ seq = Seq m /\ exists a, ack = Some a /\ OK a = true /\ AckEpoch a = ep /\ AckSeq a = seq.

Lemma failSend_ok J peer m now (e : Engine F) ids : pipe e ids -> fits 64 (Seq m) ->
  exists e' ids', failSend cl peer m now e = (e', Ok tt) /\ pipe e' ids' /\ steady cl J e e' /\ ids' `suffix_of` ids.
Proof.
  intros Hp Hm. unfold failSend.
  destruct (notes_ok cl J e ids peer Hp) as ((e1 & H1 & Hp1 & Hs1 & _) & _). rewrite (bind_ok _ _ _ _ _ H1).
  rewrite (bind_ok _ _ _ _ _ (inflightAt_ok e1 ids (Seq m) Hp1 Hm)).
  assert (Hend : exists e' ids', (e1, @Ok perr unit tt) = (e', Ok tt) /\ pipe e' ids' /\ steady cl J e e' /\ ids' `suffix_of` ids) by (by exists e1, ids).
  case_decide as Hd; [|done]. destruct (ids !! _) as [id|] eqn:E1; [|done].
  destruct (p_rec _ _ Hp1 _ _ E1) as (r & Hr & _). rewrite (bind_ok _ _ _ _ _ (getRec_ok e1 id r Hr)).
  destruct (rEpoch r =? Epoch m); [|done]. destruct (resolve_step cl e1 ids id r ErrReplicationTimeout J Hp1 Hr) as (e2 & H2 & Hp2 & Hs2 & _).
  rewrite (bind_ok _ _ _ _ _ H2). destruct (sweep_step cl now e2 ids J Hp2) as (e3 & ids3 & -> & Hp3 & Hs3 & Hsuf).
  exists e3, ids3. split_and!; try done. eapply (steady_trans cl J J J); try done. by eapply (steady_trans cl J J J).
Qed.

Lemma completeSend_ok peer m ack now (e : Engine F) ids : pipe e ids -> fits 64 (Seq m) ->
  exists e' ids', completeSend cl peer m ack now e = (e', Ok tt) /\ pipe e' ids' /\ steady cl (acks peer m ack) e e' /\ ids' `suffix_of` ids.
Proof.
  intros Hp Hm. unfold completeSend. destruct ack as [a|]; [|by apply failSend_ok].
  destruct (OK a && (AckEpoch a =? Epoch m) && (AckSeq a =? Seq m)) eqn:E1; [|by apply failSend_ok].
  apply andb_true_iff in E1 as [[E1 E2%Z.eqb_eq]%andb_true_iff E3%Z.eqb_eq]. set (J := acks peer m (Some a)).
  destruct (notes_ok cl J e ids peer Hp) as (_ & (e1 & H1 & Hp1 & Hs1 & _) & _). rewrite (bind_ok _ _ _ _ _ H1).
  destruct (notes_ok cl J e1 ids peer Hp1) as (_ & _ & Hc). destruct (Hc (AckSeq a)) as (e2 & H2 & Hp2 & Hs2 & _). rewrite (bind_ok _ _ _ _ _ H2).
  assert (Hs : steady cl J e e2) by (by eapply (steady_trans cl J J J)).
  unfold ackInflightLocked. rewrite <- E3 in Hm. rewrite (bind_ok _ _ _ _ _ (inflightAt_ok e2 ids (AckSeq a) Hp2 Hm)).
  assert (Hcr : exists e3, match (if decide (baseSeq e2 <= AckSeq a) then ids !! Z.to_nat (AckSeq a - baseSeq e2) else None) with
    | Some id => r ← getRec id; if OK a && (AckEpoch a =? rEpoch r) && (AckSeq a =? rSeq r) then setRec id (removePending peer r) else mret tt
    | None => mret tt end e2 = (e3, Ok tt) /\ pipe e3 ids /\ steady cl J e2 e3).
  { assert (Hsame : exists e3, (e2, @Ok perr unit tt) = (e3, Ok tt) /\ pipe e3 ids /\ steady cl J e2 e3) by (exists e2; split_and!; try done; apply steady_refl).
    case_decide as Hd; [|done]. destruct (ids !! _) as [id|] eqn:E4; [|done]. destruct (p_rec _ _ Hp2 _ _ E4) as (r & Hr & _).
    rewrite (bind_ok _ _ _ _ _ (getRec_ok e2 id r Hr)). destruct (OK a && (AckEpoch a =? rEpoch r) && (AckSeq a =? rSeq r)) eqn:E5; [|done].
    apply andb_true_iff in E5 as [[_ E5%Z.eqb_eq]%andb_true_iff E6%Z.eqb_eq].
    destruct (credit_step cl e2 ids id r peer J Hp2 Hr) as (-> & H3 & H4); [|by eexists].
    split; [done|]. split; [congruence|]. split; [congruence|]. by exists a. }
  destruct Hcr as (e3 & H3 & Hp3 & Hs3). rewrite (bind_ok _ _ _ _ _ H3).
  destruct (sweep_step cl now e3 ids J Hp3) as (e4 & ids4 & -> & Hp4 & Hs4 & Hsuf). exists e4, ids4. split_and!; try done.
  eapply (steady_trans cl J J J); try done. by eapply (steady_trans cl J J J).
Qed.

(** Why an acknowledgement of a group removes a peer. *)
Definition acksGroup (peer : string) (ep first last through : Z) (ep' seq : Z) (p : string) : Prop :=
  p = peer /\ ep' = ep /\ first <= seq <= last /\ seq <= through.

Lemma creditGroup_ok peer ep first last through n : forall s (e : Engine F) ids, pipe e ids -> first <= s -> 0 <= s -> s + Z.of_nat n <= last + 1 -> last < 2 ^ 64 ->
  exists e', creditGroup n s peer ep through e = (e', Ok tt) /\ pipe e' ids /\ steady cl (acksGroup peer ep first last through) e e'.
Proof.
  set (J := acksGroup peer ep first last through).
  induction n as [|n IH]; intros s e ids Hp Hs Hs0 Hn Hl. { exists e. split_and!; try done. apply steady_refl. }
  cbn [creditGroup]. rewrite (bind_ok _ _ _ _ _ (inflightAt_ok e ids s Hp ltac:(unfold fits; lia))).
  assert (Hcr : exists e1, match (if decide (baseSeq e <= s) then ids !! Z.to_nat (s - baseSeq e) else None) with
    | Some id => r ← getRec id; if negb (rEpoch r =? ep) then mret tt else if s <=? through then setRec id (removePending peer r)
        else resolveLocked id (Some ErrReplicationTimeout)
    | None => mret tt end e = (e1, Ok tt) /\ pipe e1 ids /\ steady cl J e e1).
  { assert (Hsame : exists e3, (e, @Ok perr unit tt) = (e3, Ok tt) /\ pipe e3 ids /\ steady cl J e e3) by (exists e; split_and!; try done; apply steady_refl).
    case_decide as Hd; [|done]. destruct (ids !! _) as [id|] eqn:E4; [|done]. destruct (p_rec _ _ Hp _ _ E4) as (r & Hr & Hseq & _).
    rewrite (bind_ok _ _ _ _ _ (getRec_ok e id r Hr)). destruct (Z.eqb_spec (rEpoch r) ep) as [Hep|]; cbn [negb]; [|done].
    destruct (Z.leb_spec s through).
    - destruct (credit_step cl e ids id r peer J Hp Hr) as (-> & H3 & H4); [|by eexists]. split; [done|]. split; [done|]. lia.
    - destruct (resolve_step cl e ids id r ErrReplicationTimeout J Hp Hr) as (e2 & H2 & Hp2 & Hs2 & _). by exists e2. }
  destruct Hcr as (e1 & H1 & Hp1 & Hs1). rewrite (bind_ok _ _ _ _ _ H1).
  destruct (IH (s + 1) e1 ids Hp1) as (e2 & -> & Hp2 & Hs2); try lia. exists e2. split_and!; try done. by eapply (steady_trans cl J J J).
Qed.

Lemma completeGroup_ok peer ep first last ack now (e : Engine F) ids : pipe e ids -> 0 <= first -> last < 2 ^ 64 ->
  exists e' ids', completeGroupSend cl peer ep first last ack now e = (e', Ok tt) /\ pipe e' ids' /\
    steady cl (acksGroup peer ep first last (creditThrough ep first last ack)) e e' /\ ids' `suffix_of` ids.
Proof.
  intros Hp Hf Hl. unfold completeGroupSend. set (through := creditThrough ep first last ack). set (J := acksGroup peer ep first last through).
  assert (H1 : exists e1, (if through =? last then notePeerSuccessLocked peer else notePeerFailureLocked peer) e = (e1, Ok tt) /\ pipe e1 ids /\ steady cl J e e1).
  { destruct (notes_ok cl J e ids peer Hp) as ((e1 & H1 & Hp1 & Hs1 & _) & (e2 & H2 & Hp2 & Hs2 & _) & _). destruct (_ =? _); [by exists e2|by exists e1]. }
  destruct H1 as (e1 & H1 & Hp1 & Hs1). rewrite (bind_ok _ _ _ _ _ H1).
  assert (H2 : exists e2, (if first <=? through then creditPeerAckedLocked peer through else mret tt) e1 = (e2, Ok tt) /\ pipe e2 ids /\ steady cl J e1 e2).
  { destruct (notes_ok cl J e1 ids peer Hp1) as (_ & _ & Hc). destruct (Hc through) as (e2 & H2 & Hp2 & Hs2 & _).
    destruct (_ <=? _); [by exists e2|]. exists e1. split_and!; try done. apply steady_refl. }
  destruct H2 as (e2 & H2 & Hp2 & Hs2). rewrite (bind_ok _ _ _ _ _ H2).
  assert (H3 : exists e3, creditGroup (Z.to_nat (last - first + 1)) first peer ep through e2 = (e3, Ok tt) /\ pipe e3 ids /\ steady cl J e2 e3).
  { destruct (decide (first <= last + 1)) as [Hle|Hgt].
    - destruct (creditGroup_ok peer ep first last through (Z.to_nat (last - first + 1)) first e2 ids Hp2) as (e3 & H3 & H3'); try lia. by exists e3.
    - replace (Z.to_nat (last - first + 1)) with 0%nat by lia. exists e2. split_and!; try done. apply steady_refl. }
  destruct H3 as (e3 & H3 & Hp3 & Hs3). rewrite (bind_ok _ _ _ _ _ H3).
  destruct (sweep_step cl now e3 ids J Hp3) as (e4 & ids4 & -> & Hp4 & Hs4 & Hsuf). exists e4, ids4. split_and!; try done.
  do 3 (eapply (steady_trans cl J J J); [done|done| |try done]; try done).
Qed.

(** ** The outcome of a write *)

Lemma awaitDone_ok id deadline (e : Engine F) ids J r : pipe e ids -> recs e !! id = Some r ->
  exists e' o, awaitDone id deadline e = (e', Ok o) /\ pipe e' ids /\ steady cl J e e' /\
    (o = Some None -> exists r', recs e' !! id = Some r' /\ rEpoch r' = rEpoch r /\ rSeq r' = rSeq r /\ resolved r' = true /\ rErr r' = None).
Proof.
  intros Hp Hr. pose proof (p_wf _ _ Hp) as Hwf. rewrite Forall_lookup in Hwf.
  pose proof (Hwf _ _ Hr) as Hok. unfold awaitDone. rewrite (bind_ok _ _ _ _ _ (getRec_ok e id r Hr)). destruct (doneCh r) as [|v ch] eqn:E1.
  - destruct deadline; [|by exists e, None; split_and!; try done; apply steady_refl].
    destruct (resolve_step cl e ids id r ErrReplicationTimeout J Hp Hr) as (e1 & H1 & Hp1 & Hs1 & _ & r1 & Hr1 & Hres). rewrite (bind_ok _ _ _ _ _ H1).
    rewrite (bind_ok _ _ _ _ _ (getRec_ok e1 id r1 Hr1)). exists e1, (Some (rErr r1)). split_and!; try done. intros [= Her].
    exists r1. destruct (Forall2_lookup_lr _ _ _ _ _ _ (s_recs _ _ _ _ Hs1) Hr Hr1). done.
  - set (r' := MkRec _ _ _ _ _ _ _ ch). eexists _, (Some v). split; [done|].
    destruct (recs_step cl J e ids (<[id := r']> (recs e)) Hp) as [H1 H2].
    { eapply recs_to_insert; [done|]. split; try done; [|intros _ p Hpe; by left|intros; by left]. intros [H1 H2 H3 H4]. split; try done.
      + intros Hf. cbn in Hf. by rewrite H3 in E1.
      + intros Ht. cbn in Ht. destruct (H4 Ht) as [H|H]; rewrite H in E1; [done|]. injection E1 as _ <-. by left. }
    split_and!; try done. intros [= ->]. exists r'. split; [apply list_lookup_insert_eq; by eapply lookup_lt_Some|]. split_and!; try done; cbn.
    + destruct (resolved r) eqn:E2; [done|]. by rewrite (ro_open _ Hok E2) in E1.
    + destruct (resolved r) eqn:E2; [|by rewrite (ro_open _ Hok E2) in E1]. destruct (ro_done _ Hok E2) as [H|H]; rewrite H in E1; congruence.
Qed.

(** ** Epochs and leases *)

(** As [steady], but the epoch may rise, which empties the pipeline. *)
Record shifted (e e' : Engine F) (ids ids' : list nat) : Prop := {
  f_kept : kept e e';
  f_epoch : epoch e <= epoch e';
  f_empty : epoch e < epoch e' -> ids' = [];
  f_ids : ids' `suffix_of` ids;
  f_queue : peerQ e' ⊆ peerQ e;
  f_recs : forall J, recs_to cl J (recs e) (recs e');
}.

Lemma shifted_refl e ids : shifted e e ids ids.
Proof. split; try done. - lia. - intros J. apply recs_to_refl. Qed.

Lemma enter_shifted ep now (e : Engine F) ids : pipe e ids -> epoch e < ep ->
  exists e', enterEpoch cl ep now e = (e', Ok tt) /\ pipe e' [] /\ shifted e e' ids [] /\ epoch e' = ep /\ leaseEpoch e' = leaseEpoch e /\ leaseExpiry e' = leaseExpiry e.
Proof.
  intros Hp Hlt. destruct (enterEpoch_ok cl ep now e ids Hp Hlt) as (e' & H1 & H2 & H3 & H4 & H5 & H6 & H7 & H8 & _).
  exists e'. split_and!; try done. split; try done; [lia|apply suffix_nil|by rewrite H7].
Qed.

Lemma AdoptEpoch_ok ep now (e : Engine F) ids : pipe e ids ->
  exists e' ids', AdoptEpoch cl ep now e = (e', Ok tt) /\ pipe e' ids' /\ shifted e e' ids ids' /\ epoch e' = Z.max (epoch e) ep /\
    leaseEpoch e' = leaseEpoch e /\ leaseExpiry e' = leaseExpiry e.
Proof.
  intros Hp. unfold AdoptEpoch. rewrite bind_gets. destruct (Z.ltb_spec (epoch e) ep).
  - destruct (enter_shifted ep now e ids Hp) as (e' & H1 & H2 & H3 & H4 & H5); [done|]. exists e', []. split_and!; try done; try apply H5. lia.
  - exists e, ids. split_and!; try done; [apply shifted_refl|lia].
Qed.

Lemma GrantLease_ok ep expiry now (e : Engine F) ids : pipe e ids -> leaseEpoch e <= epoch e ->
  exists e' ids', GrantLease cl ep expiry now e = (e', Ok tt) /\ pipe e' ids' /\ shifted e e' ids ids' /\ leaseEpoch e' <= epoch e' /\ epoch e' = Z.max (epoch e) ep /\
    (leaseEpoch e' = leaseEpoch e /\ leaseExpiry e' = leaseExpiry e \/ leaseEpoch e' = ep).
Proof.
  intros Hp Hle. unfold GrantLease. rewrite bind_gets. destruct (Z.ltb_spec ep (leaseEpoch e)).
  { exists e, ids. split_and!; try done; [apply shifted_refl|lia|by left]. }
  rewrite !bind_modify, bind_gets. set (e1 := set_leaseExpiry expiry (set_leaseEpoch ep e)). change (epoch e1) with (epoch e).
  assert (Hp1 : pipe e1 ids) by (by eapply (pipe_frame e)).
  destruct (Z.ltb_spec (epoch e) ep).
  - destruct (enter_shifted ep now e1 ids Hp1) as (e' & H1 & H2 & [K1 K2 K3 K4 K5 K6] & H4 & H5 & H6); [done|]. exists e', []. split_and!; try done.
    + split; try done. eapply kept_trans; [|exact K1]. by split.
    + rewrite H5, H4. cbn. lia.
    + lia.
    + right. by rewrite H5.
  - exists e1, ids. split_and!; try done; [|cbn; lia|by right]. split; try done; [cbn; lia|intros J; apply recs_to_refl].
Qed.

(** What a promotion that is not refused does. *)
Lemma Promote_runs ep expiry now (e : Engine F) ids : pipe e ids -> Ring.ring_ok (backlog e) -> epoch e < ep -> poisoned e = false ->
  exists e', Promote cl ep expiry now e = (e', Ok tt) /\ win e' [] /\ leaseExpiry e' = expiry /\ committed e' = Z.max (committed e) (lastApplied e) /\
    epoch e' = ep /\ leaseEpoch e' = ep /\ lastSeq e' = lastApplied e /\ lastSeqEpoch e' = lastAppliedEpoch e /\
    lastApplied e' = lastApplied e /\ lastAppliedEpoch e' = lastAppliedEpoch e /\ Ring.ring_ok (backlog e') /\ Ring.entries (backlog e') = [] /\
    fsm e' = fsm e /\ outbox e' = outbox e /\ poisoned e' = poisoned e /\ closed e' = closed e /\ snapStage e' = snapStage e /\ peerQ e' = peerQ e /\
    forall J, recs_to cl J (recs e) (recs e').
Proof.
  intros Hp Hr Hlt Epo. unfold Promote. rewrite bind_gets, (proj2 (Z.leb_gt _ _)) by done. rewrite bind_gets, Epo.
  rewrite !bind_modify, bind_gets. set (c := if committed _ <? _ then _ else _).
  assert (Hc : c = Z.max (committed e) (lastApplied e)) by (unfold c; cbn; destruct (Z.ltb_spec (committed e) (lastApplied e)); lia). clearbody c. subst c.
  destruct (Ring.reset_ok (E:=perr) (backlog e) Hr) as (b & Hb & Hb1 & Hb2 & _).
  rewrite (bind_lift _ b) by exact Hb. rewrite bind_modify. unfold clearEffISRLocked.
  match goal with |- context [((modify ?a ;; modify ?b) ;; ?k)] => change ((modify a ;; modify b) ;; k) with (modify a ;; (modify b ;; k)) end.
  rewrite !bind_modify. match goal with |- context [(clearLearnersLocked ;; _) ?x] => destruct (clearLearners_ok x) as (l & t & Hcl) end.
  rewrite (bind_ok _ _ _ _ _ Hcl). match goal with |- context [flushEpochLocked _ _ _ ?x] => set (e1 := x) end.
  destruct (win_flush cl ep now e1 ids) as (rg & h & bs & -> & Hw).
  { eapply (win_frame e); [by apply pipe_win|done..]. }
  { intros id r Hin Hr'. apply list_elem_of_lookup in Hin as [i Hi]. destruct (p_rec _ _ Hp _ _ Hi) as (r0 & Hr0 & _ & Hle').
    change (recs e1) with (recs e) in Hr'. replace r with r0 by congruence. lia. }
  eexists. split; [done|]. split; [done|]. split_and!; try done.
  intros J. cbn. apply upd_rel; [apply Hp|apply rec_to_refl|]. intros id r _ _. apply fail_to.
Qed.

Lemma Promote_ok ep expiry now (e : Engine F) ids : pipe e ids -> Ring.ring_ok (backlog e) -> leaseEpoch e <= epoch e ->
  lastSeq e <= lastApplied e < 2 ^ 62 ->
  exists e' ids', Promote cl ep expiry now e = (e', Ok tt) /\ pipe e' ids' /\
    (e' = e \/ epoch e < ep /\ poisoned e = false /\ ids' = [] /\ epoch e' = ep /\ leaseEpoch e' = ep /\ lastSeq e' = lastApplied e /\ lastSeqEpoch e' = lastAppliedEpoch e /\
       lastApplied e' = lastApplied e /\ lastAppliedEpoch e' = lastAppliedEpoch e /\ Ring.ring_ok (backlog e') /\ Ring.entries (backlog e') = [] /\
       fsm e' = fsm e /\ outbox e' = outbox e /\ poisoned e' = poisoned e /\ closed e' = closed e /\ snapStage e' = snapStage e /\ peerQ e' = peerQ e /\
       forall J, recs_to cl J (recs e) (recs e')).
Proof.
  intros Hp Hr Hle Hs. pose proof (p_marks _ _ Hp) as Hm. destruct (Z.le_gt_cases ep (epoch e)) as [Hge|Hlt].
  { exists e, ids. split_and!; [|done|by left]. unfold Promote. by rewrite bind_gets, (proj2 (Z.leb_le _ _)). }
  destruct (poisoned e) eqn:Epo.
  { exists e, ids. split_and!; [|done|by left]. unfold Promote. rewrite bind_gets, (proj2 (Z.leb_gt _ _)) by done. by rewrite bind_gets, Epo. }
  destruct (Promote_runs ep expiry now e ids Hp Hr Hlt Epo) as (e' & H & Hw & _ & Hc & H1 & H2 & H3 & Hrest). exists e', []. split_and!; try done.
  - apply win_pipe; [done|]. rewrite Hc, H3. lia.
  - right. rewrite <- Epo. split_and!; done || apply Hrest.
Qed.

(** ** Proposals *)

Context (nodeID : string) (Apply : F -> bytes -> F * option bytes).

Lemma proposeCheck_ok primary isr minISR now (e : Engine F) :
  exists o, proposeCheck nodeID primary isr minISR now e = (e, o) /\ o <> Panic /\
    forall ep, o = Ok (Some ep) -> ep = epoch e /\ leaseEpoch e = epoch e /\ now < leaseExpiry e /\ poisoned e = false /\ u64 (lastSeq e - committed e) < pipelineWindow.
Proof.
  unfold proposeCheck. rewrite bind_gets. destruct (poisoned e) eqn:E0; [by eexists|]. destruct (negb (bool_decide _)); [by eexists|].
  rewrite !bind_gets. destruct (Z.eqb_spec (leaseEpoch e) (epoch e)) as [E1|E1]; cbn [negb orb]; [|by eexists].
  destruct (Z.leb_spec (leaseExpiry e) now); [by eexists|]. destruct (blen isr <? minISR); [by eexists|]. rewrite bind_gets.
  destruct (windowFullLocked e) eqn:E2; [by eexists|]. eexists. split; [done|]. split; [done|]. intros ep [= <-].
  unfold windowFullLocked in E2. apply Z.leb_gt in E2. done.
Qed.

Lemma distinct_spec isr : forall seen p, p ∈ distinct seen isr -> (p ∉ seen) /\ p ∈ isr.
Proof.
  induction isr as [|m isr IH]; intros seen p Hp; cbn in Hp; [by apply not_elem_of_nil in Hp|]. case_decide as Hd.
  - destruct (IH seen p Hp) as [H1 H2]. split; [done|by constructor].
  - apply elem_of_cons in Hp as [->|Hp]; [split; [done|by constructor]|]. destruct (IH _ p Hp) as [H1 H2]. apply not_elem_of_union in H1 as [_ H1].
    split; [done|by constructor].
Qed.

Lemma distinct_nodup isr : forall seen, NoDup (distinct seen isr).
Proof.
  induction isr as [|m isr IH]; intros seen; cbn; [constructor|]. case_decide; [done|]. constructor; [|done].
  intros Hin. apply distinct_spec in Hin as [Hin _]. apply Hin, elem_of_union_l. by apply elem_of_singleton.
Qed.

Lemma peers_ok isr eff (b : bool) :
  let ps := if b then intersectPeers (distinctPeers nodeID isr) eff else distinctPeers nodeID isr in NoDup ps /\ nodeID ∉ ps.
Proof.
  cbn. assert (Hn : nodeID ∉ distinctPeers nodeID isr) by (intros Hin; apply distinct_spec in Hin as [Hin _]; by apply Hin, elem_of_singleton).
  destruct b; [|split; [apply distinct_nodup|done]]. split; [apply NoDup_filter, distinct_nodup|]. intros Hin%list_elem_of_filter. tauto.
Qed.

(** What a registration produces. *)
Record registers (ep : Z) (data : bytes) (e e' : Engine F) (p : proposal) : Prop := {
  g_seq : pSeq p = (appliedFrontierLocked e).1 + 1;
  g_msg : pMsg p = MkMsg ep (pSeq p) (appliedFrontierLocked e).1 (appliedFrontierLocked e).2 data;
  g_peers : NoDup (pPeers p) /\ nodeID ∉ pPeers p;
  g_learners : forall l, l ∈ pLearners p -> l ∈ learners e;
  g_rec : pRec p = length (recs e);
  g_recs : forall J, recs_to cl J (recs e ++ [newRec ep (pSeq p) (pPeers p)]) (recs e');
  g_ring : Ring.ring_ok (backlog e');
  g_backlog : forall x, x ∈ Ring.entries (backlog e') -> x ∈ Ring.entries (backlog e) \/ x = Ring.MkEntry ep (pSeq p) (appliedFrontierLocked e).2 data;
  g_last : lastSeq e' = pSeq p /\ lastSeqEpoch e' = ep /\ lastApplied e' = lastApplied e /\ lastAppliedEpoch e' = lastAppliedEpoch e;
  g_same : fsm e' = fsm e /\ outbox e' = outbox e /\ peerQ e' = peerQ e /\ poisoned e' = poisoned e /\ closed e' = closed e /\ snapStage e' = snapStage e /\
    epoch e' = epoch e /\ leaseEpoch e' = leaseEpoch e /\ leaseExpiry e' = leaseExpiry e /\ learners e' = learners e;
}.

Lemma ring_append_ok x (r : Ring.ring) : Ring.ring_ok r -> 0 < Ring.reSeq x < 2 ^ 62 ->
  exists r' ev, Ring.append (E:=perr) x r = Ok (r', ev) /\ Ring.ring_ok r' /\ forall y, y ∈ Ring.entries r' -> y ∈ Ring.entries r \/ y = x.
Proof.
  intros Hr Hx. pose proof (Ring.r_count _ Hr). destruct (decide (Ring.count r < blen (Ring.buf r))) as [Hlt|Hge].
  - destruct (Ring.append_room (E:=perr) r Hr x Hlt Hx) as (r' & H1 & H2 & H3 & _). exists r', None. split_and!; try done.
    intros y. rewrite H3, elem_of_app, list_elem_of_singleton. done.
  - destruct (Ring.append_full (E:=perr) r Hr x ltac:(lia) Hx) as (r' & z & H1 & H2 & H3 & H4 & _). exists r', (Some (Ring.reData z)). split_and!; try done.
    intros y. rewrite H4, elem_of_app, list_elem_of_singleton. intros [Hy|Hy]; [|by right]. left. rewrite H3. by constructor.
Qed.

Lemma proposeRegister_ok ep isr data now (e : Engine F) ids : pipe e ids -> Ring.ring_ok (backlog e) -> ep <= epoch e ->
  0 <= lastApplied e -> (appliedFrontierLocked e).1 + 1 < 2 ^ 62 -> (ids <> [] -> lastApplied e <= lastSeq e) ->
  exists e' ids' p, proposeRegister nodeID cl ep isr data now e = (e', Ok p) /\ pipe e' ids' /\ ids' `suffix_of` (ids ++ [length (recs e)]) /\ registers ep data e e' p.
Proof.
  intros Hp Hr Hep Hla Hb Hid. unfold proposeRegister. rewrite !bind_gets. set (ps := if _ =? ep then _ else _).
  destruct (peers_ok isr (effISR e) (effISREpoch e =? ep)) as [Hnd Hself]. change (NoDup ps) in Hnd. change (nodeID ∉ ps) in Hself.
  pose proof (p_marks _ _ Hp) as Hm. destruct (appliedFrontierLocked e) as [fs fe] eqn:Ef. cbn [fst] in Hb.
  assert (Hfs : lastSeq e <= fs /\ (lastApplied e <= lastSeq e -> fs = lastSeq e)).
  { unfold appliedFrontierLocked in Ef. destruct (Z.ltb_spec (lastSeq e) (lastApplied e)); injection Ef as <- <-; lia. }
  rewrite wrap_fits by (unfold fits; lia). set (x := Ring.MkEntry ep (fs + 1) fe data). rewrite bind_gets.
  destruct (ring_append_ok x (backlog e) Hr) as (r' & ev & Hap & Hr' & Hent); [cbn; lia|]. rewrite (bind_lift _ _ _ _ Hap), bind_modify.
  assert (Hp1 : pipe (set_backlog r' e) ids) by (by eapply (pipe_frame e)).
  destruct (register_facts ep (fs + 1) ps (set_backlog r' e) ids Hp1 Hnd Hep) as
    (e2 & Hreg & Hp2 & R1 & R2 & R3 & R4 & R5 & R6 & R7 & R8 & R9 & R10 & R11 & R12 & R13 & R14 & R15 & R16);
    [cbn; lia|intros Hne; cbn; specialize (Hid Hne); lia|]. rewrite (bind_ok _ _ _ _ _ Hreg). cbn [backlog set_backlog] in R6.
  change (recs (set_backlog r' e)) with (recs e) in *. unfold noteFrontierLocked. rewrite bind_modify.
  set (e3 := set_sunk _ e2). assert (Hp3 : pipe e3 (ids ++ [length (recs e)])) by (by eapply (pipe_frame e2)).
  assert (Hsw : exists e4 ids4, (if blen ps =? 0 then sweepLocked cl now else mret tt) e3 = (e4, Ok tt) /\ pipe e4 ids4 /\ ids4 `suffix_of` (ids ++ [length (recs e)]) /\ swept cl now e3 e4).
  { destruct (_ =? 0); [|exists e3, (ids ++ [length (recs e)]); split_and!; try done; apply swept_refl].
    destruct (sweep_ok cl now e3 _ Hp3) as (e4 & ids4 & H1 & H2 & H3 & H4 & _). by exists e4, ids4. }
  destruct Hsw as (e4 & ids4 & H4 & Hp4 & Hsuf & Hsw). rewrite (bind_ok _ _ _ _ _ H4), bind_gets.
  pose proof (fun J => swept_to cl now e3 e4 J Hsw) as Hto. unfold e3 in Hsw, Hto. cbn [recs set_sunk] in Hto.
  destruct (swept_kept _ _ _ _ Hsw) as ([K1 K2 K3 K4 K5 K6 K7 K8 K9 K10] & E1 & E2 & E3 & E4 & _ & _ & E5 & _).
  cbn in K1, K2, K3, K4, K5, K6, K7, K8, K9, K10, E1, E2, E3, E4, E5.
  eexists e4, ids4, _. split; [done|]. split; [done|]. split; [done|]. split; cbn [pSeq pMsg pPeers pLearners pRec]; rewrite ?Ef; try done.
  - intros l Hl. unfold learnerShipSetLocked in Hl. rewrite E5, R16 in Hl. apply list_elem_of_filter in Hl as [_ Hl]. by apply elem_of_elements in Hl.
  - intros J. rewrite <- R1. apply Hto.
  - by rewrite K5, R6.
  - intros y. rewrite K5, R6. apply Hent.
  - by rewrite K1, K2, K3, K4.
  - rewrite K6, K7, K8, K9, K10, E1, E2, E3, E4, E5. by split_and!.
Qed.

(** ** Operations that leave the log alone *)

Definition queued (e : Engine F) (p : string) (m : ReplicateMsg) : Prop := exists q, peerQ e !! p = Some q /\ m ∈ q.

(** The log, the state machine, the poison fence and the staged snapshot are the same;
    peers are removed from records for [J], messages queued for [P], requests sent
    for [R], leases taken for [L]. *)
Record tame (J : Z -> Z -> string -> Prop) (P : string -> ReplicateMsg -> Prop) (R : string -> request -> Prop) (L U : Z -> Prop)
    (e e' : Engine F) (ids ids' : list nat) : Prop := {
  t_pipe : pipe e' ids';
  t_log : lastSeq e' = lastSeq e /\ lastSeqEpoch e' = lastSeqEpoch e /\ lastApplied e' = lastApplied e /\ lastAppliedEpoch e' = lastAppliedEpoch e;
  t_state : backlog e' = backlog e /\ fsm e' = fsm e /\ poisoned e' = poisoned e /\ closed e' = closed e /\ snapStage e' = snapStage e;
  t_epoch : epoch e <= epoch e';
  t_rise : epoch e' = epoch e \/ U (epoch e');
  t_empty : epoch e < epoch e' -> ids' = [];
  t_ids : ids' <> [] -> ids <> [];
  t_lease : leaseEpoch e' = leaseEpoch e /\ leaseExpiry e' = leaseExpiry e \/ L (leaseEpoch e') /\ leaseEpoch e' <= epoch e';
  t_recs : recs_to cl J (recs e) (recs e');
  t_out : forall p x, (p, x) ∈ outbox e' -> (p, x) ∈ outbox e \/ R p x;
  t_queue : forall p m, queued e' p m -> queued e p m \/ P p m;
}.

Lemma suffix_nonempty {A} (a b : list A) : a `suffix_of` b -> a <> [] -> b <> [].
Proof. intros [k ->] Ha Hb. apply app_eq_nil in Hb. tauto. Qed.

Lemma queued_sub (e e' : Engine F) p m : peerQ e' ⊆ peerQ e -> queued e' p m -> queued e p m.
Proof. intros Hs (q & Hq & Hm). exists q. split; [|done]. by eapply lookup_weaken. Qed.

Lemma steady_tame J P R L U e e' ids ids' : steady cl J e e' -> pipe e' ids' -> ids' `suffix_of` ids -> tame J P R L U e e' ids ids'.
Proof.
  intros [[K1 K2 K3 K4 K5 K6 K7 K8 K9 K10] E1 E2 E3 E4 E5] Hp Hs. split; try done; try lia.
  - by apply suffix_nonempty.
  - intros p x Hx. left. by rewrite <- K7.
  - intros p m Hm. left. by eapply queued_sub.
Qed.

Lemma shifted_tame J P R (L U : Z -> Prop) e e' ids ids' : shifted e e' ids ids' -> pipe e' ids' -> (epoch e < epoch e' -> U (epoch e')) ->
  leaseEpoch e' = leaseEpoch e /\ leaseExpiry e' = leaseExpiry e \/ L (leaseEpoch e') /\ leaseEpoch e' <= epoch e' -> tame J P R L U e e' ids ids'.
Proof.
  intros [[K1 K2 K3 K4 K5 K6 K7 K8 K9 K10] E1 E2 E3 E4 E5] Hp Hu Hl. split; try done; try lia.
  - destruct (decide (epoch e < epoch e')); [right; by apply Hu|left; lia].
  - by apply suffix_nonempty.
  - intros p x Hx. left. by rewrite <- K7.
  - intros p m Hm. left. by eapply queued_sub.
Qed.

Lemma tame_trans J P R L U e1 e2 e3 ids1 ids2 ids3 : tame J P R L U e1 e2 ids1 ids2 -> tame J P R L U e2 e3 ids2 ids3 -> leaseEpoch e1 <= epoch e1 -> tame J P R L U e1 e3 ids1 ids3.
Proof.
  intros [A1 A2 A3 A4 A0 A5 A6 A7 A8 A9 A10] [B1 B2 B3 B4 B0 B5 B6 B7 B8 B9 B10] Hl. split; try done.
  - destruct A2 as (? & ? & ? & ?), B2 as (? & ? & ? & ?). split_and!; congruence.
  - destruct A3 as (? & ? & ? & ? & ?), B3 as (? & ? & ? & ? & ?). split_and!; congruence.
  - lia.
  - destruct B0 as [->|B0]; [done|by right].
  - intros Hlt. destruct (decide (epoch e2 < epoch e3)) as [H|H]; [by apply B5|]. assert (Hn : ids2 = []) by (apply A5; lia).
    destruct (decide (ids3 = [])) as [|Hne]; [done|]. by apply B6 in Hne.
  - intros H. apply A6, B6, H.
  - destruct A7 as [[A7 A7']|[A7 A7']], B7 as [[B7 B7']|[B7 B7']]; [left; split; congruence|by right| |by right]. right. rewrite B7. split; [done|lia].
  - eapply (recs_to_trans cl J J J); done.
  - intros p x Hx. destruct (B9 p x Hx) as [H|H]; [by apply A9|by right].
  - intros p m Hm. destruct (B10 p m Hm) as [H|H]; [by apply A10|by right].
Qed.

Lemma tame_refl J P R L U e ids : pipe e ids -> tame J P R L U e e ids ids.
Proof. intros Hp. split; try done; try lia; [apply recs_to_refl|by left|by left]. Qed.

Lemma tame_frame J P R L U e e' ids : pipe e ids -> pipe e' ids ->
  lastSeq e' = lastSeq e /\ lastSeqEpoch e' = lastSeqEpoch e /\ lastApplied e' = lastApplied e /\ lastAppliedEpoch e' = lastAppliedEpoch e ->
  backlog e' = backlog e /\ fsm e' = fsm e /\ poisoned e' = poisoned e /\ closed e' = closed e /\ snapStage e' = snapStage e ->
  epoch e' = epoch e -> leaseEpoch e' = leaseEpoch e /\ leaseExpiry e' = leaseExpiry e -> recs e' = recs e -> outbox e' = outbox e -> peerQ e' = peerQ e ->
  tame J P R L U e e' ids ids.
Proof.
  intros Hp Hp' H1 H2 H3 H4 H5 H6 H7. split; try done; try lia.
  - rewrite H5. apply recs_to_refl.
  - intros p x. rewrite H6. by left.
  - intros p m. unfold queued. rewrite H7. by left.
Qed.

Lemma tame_impl (J J' : Z -> Z -> string -> Prop) (P P' : string -> ReplicateMsg -> Prop) (R R' : string -> request -> Prop) (L L' U U' : Z -> Prop) e e' ids ids' :
  (forall a b c, J a b c -> J' a b c) -> (forall p m, P p m -> P' p m) -> (forall p x, R p x -> R' p x) -> (forall z, L z -> L' z) -> (forall z, U z -> U' z) ->
  tame J P R L U e e' ids ids' -> tame J' P' R' L' U' e e' ids ids'.
Proof.
  intros HJ HP HR HL HU [A1 A2 A3 A4 A0 A5 A6 A7 A8 A9 A10]. split; try done.
  - destruct A0 as [A0|A0]; [by left|right; by apply HU].
  - destruct A7 as [A7|[A7 A7']]; [by left|right; split; [by apply HL|done]].
  - eapply (recs_to_trans cl J' J J); [done|done|done|apply recs_to_refl].
  - intros p x Hx. destruct (A9 p x Hx); [by left|right; by apply HR].
  - intros p m Hm. destruct (A10 p m Hm); [by left|right; by apply HP].
Qed.

(** Changes of the mailboxes and the learners alone. *)
Definition mailed (P : string -> ReplicateMsg -> Prop) (R : string -> request -> Prop) (e e' : Engine F) : Prop :=
  (exists q o l a t, e' = set_peerQ q (set_outbox o (set_learners l (set_abandonedLearners a (set_learnerTeardown t e))))) /\
  (forall p x, (p, x) ∈ outbox e' -> (p, x) ∈ outbox e \/ R p x) /\
  (forall p m, queued e' p m -> queued e p m \/ P p m).

Lemma mailed_refl P R e : mailed P R e e.
Proof. split_and!; [|by left|by left]. exists (peerQ e), (outbox e), (learners e), (abandonedLearners e), (learnerTeardown e). by destruct e. Qed.

Lemma mailed_trans P R e1 e2 e3 : mailed P R e1 e2 -> mailed P R e2 e3 -> mailed P R e1 e3.
Proof.
  intros ((q & o & l & a & t & ->) & A2 & A3) ((q' & o' & l' & a' & t' & ->) & B2 & B3). split_and!.
  - by exists q', o', l', a', t'.
  - intros p x Hx. destruct (B2 p x Hx) as [H|H]; [by apply A2|by right].
  - intros p m Hm. destruct (B3 p m Hm) as [H|H]; [by apply A3|by right].
Qed.

Lemma mailed_tame J P R L U e e' ids : mailed P R e e' -> pipe e ids -> tame J P R L U e e' ids ids.
Proof.
  intros ((q & o & l & a & t & ->) & A2 & A3) Hp. split; first [done|by left|by eapply (pipe_frame e)|apply recs_to_refl|cbn; lia].
Qed.

Lemma mailed_closed P R e e' : mailed P R e e' -> closed e' = closed e.
Proof. by intros ((q & o & l & a & t & ->) & _). Qed.

Lemma set_peerQ_mailed P R q e : (forall p ms m, q !! p = Some ms -> m ∈ ms -> queued e p m \/ P p m) -> mailed P R e (set_peerQ q e).
Proof.
  intros Hq. split_and!; [|by left|intros p m (ms & H1 & H2); by eapply Hq].
  by exists q, (outbox e), (learners e), (abandonedLearners e), (learnerTeardown e).
Qed.

Lemma send_mailed P (R : string -> request -> Prop) peer x e : R peer x -> mailed P R e (set_outbox (outbox e ++ [(peer, x)]) e).
Proof.
  intros HR. split_and!; [|intros p y [Hy|Hy%list_elem_of_singleton]%elem_of_app; [by left|simplify_eq; by right]|by left].
  by exists (peerQ e), (outbox e ++ [(peer, x)]), (learners e), (abandonedLearners e), (learnerTeardown e).
Qed.

Lemma learners_mailed P R l a t e : mailed P R e (set_learners l (set_abandonedLearners a (set_learnerTeardown t e))).
Proof. split_and!; [|by left|by left]. by exists (peerQ e), (outbox e), l, a, t. Qed.

Lemma enqueue_mailed (P : string -> ReplicateMsg -> Prop) R peer m e : P peer m -> exists e', enqueue peer m e = (e', Ok tt) /\ mailed P R e e'.
Proof.
  intros HP. eexists. split; [done|]. apply set_peerQ_mailed. intros p ms m' [[<- <-]|[_ Hl]]%lookup_insert_Some Hm; [|left; by exists ms].
  apply elem_of_app in Hm as [Hm|Hm%list_elem_of_singleton]; [|subst; by right]. left. destruct (peerQ e !! peer) as [q|] eqn:Eq; [by exists q|].
  by apply not_elem_of_nil in Hm.
Qed.

Lemma submitPeer_mailed (P : string -> ReplicateMsg -> Prop) (R : string -> request -> Prop) inline peer m e : P peer m -> R peer (Single m) ->
  exists e', submitPeerLocked inline peer m e = (e', Ok tt) /\ mailed P R e e'.
Proof.
  intros HP HR. unfold submitPeerLocked. rewrite bind_gets. destruct (closed e); [exists e; split; [done|apply mailed_refl]|].
  rewrite bind_modify, bind_gets. set (e1 := match peerQ e !! peer with Some _ => e | None => _ end).
  assert (H1 : mailed P R e e1).
  { unfold e1. destruct (peerQ e !! peer) eqn:Eq; [apply mailed_refl|]. apply set_peerQ_mailed. intros p ms m' [[<- <-]|[_ Hl]]%lookup_insert_Some Hm.
    - by apply not_elem_of_nil in Hm.
    - left. by exists ms. }
  clearbody e1. destruct (_ && inline).
  - eexists. split; [done|]. eapply mailed_trans; [done|]. by apply send_mailed.
  - destruct (enqueue_mailed P R peer m e1 HP) as (e2 & H2 & H3). exists e2. split; [done|]. by eapply mailed_trans.
Qed.

Lemma drop_mailed P R peer e : mailed P R e (set_peerQ (delete peer (peerQ e)) e).
Proof. apply set_peerQ_mailed. intros p ms m [_ Hl]%lookup_delete_Some Hm. left. by exists ms. Qed.

Lemma submitLearner_mailed (P : string -> ReplicateMsg -> Prop) R peer m e : P peer m ->
  exists e', submitLearnerLocked peer m e = (e', Ok tt) /\ mailed P R e e'.
Proof.
  intros HP. assert (Hsame : exists e', (e, @Ok perr unit tt) = (e', Ok tt) /\ mailed P R e e') by (exists e; split; [done|apply mailed_refl]).
  unfold submitLearnerLocked. rewrite bind_gets. destruct (closed e); [done|]. rewrite bind_gets. destruct (peerQ e !! peer) as [q|]; [|done].
  destruct (_ <? _); [by apply enqueue_mailed|]. unfold dropPeerLocked. rewrite !bind_modify. eexists. split; [done|].
  eapply mailed_trans; [apply (drop_mailed P R peer)|]. apply (learners_mailed P R _ _ (learnerTeardown e)).
Qed.

Lemma seqM_mailed {A} P R (f : A -> st (Engine F) perr unit) l : (forall x e, x ∈ l -> exists e', f x e = (e', Ok tt) /\ mailed P R e e') ->
  forall e, exists e', seqM f l e = (e', Ok tt) /\ mailed P R e e'.
Proof.
  induction l as [|x l IH]; intros Hf e; cbn [seqM]; [exists e; split; [done|apply mailed_refl]|].
  destruct (Hf x e) as (e1 & H1 & M1); [by constructor|]. rewrite (bind_ok _ _ _ _ _ H1).
  destruct (IH (fun y e Hy => Hf y e ltac:(by constructor)) e1) as (e2 & H2 & M2). exists e2. split; [done|]. by eapply mailed_trans.
Qed.

(** The shipment of a proposal. *)
Lemma proposeShip_ok J P R L U inline p now (e : Engine F) ids : pipe e ids -> leaseEpoch e <= epoch e ->
  (forall q, q ∈ pPeers p \/ q ∈ pLearners p -> P q (pMsg p)) -> (forall q, q ∈ pPeers p -> R q (Single (pMsg p))) ->
  exists e' ids', proposeShip cl inline p now e = (e', Ok tt) /\ tame J P R L U e e' ids ids'.
Proof.
  intros Hp Hl HP HR. unfold proposeShip. destruct (_ || _); [|exists e, ids; split; [done|by apply tame_refl]].
  destruct (seqM_mailed P R (fun q => submitPeerLocked (inline q) q (pMsg p)) (pPeers p)) with (e := e) as (e1 & H1 & M1).
  { intros q e0 Hq. apply submitPeer_mailed; [|by apply HR]. apply HP. by left. }
  rewrite (bind_ok _ _ _ _ _ H1). destruct (seqM_mailed P R (fun q => submitLearnerLocked q (pMsg p)) (pLearners p)) with (e := e1) as (e2 & H2 & M2).
  { intros q e0 Hq. apply submitLearner_mailed. apply HP. by right. }
  rewrite (bind_ok _ _ _ _ _ H2). assert (Ht : tame J P R L U e e2 ids ids) by (eapply mailed_tame; [by eapply mailed_trans|done]).
  destruct (_ && _); [|by exists e2, ids]. destruct (sweep_step cl now e2 ids J (t_pipe _ _ _ _ _ _ _ _ _ Ht)) as (e3 & ids3 & -> & Hp3 & Hs3 & Hsuf).
  exists e3, ids3. split; [done|]. eapply tame_trans; [done| |done]. by apply steady_tame.
Qed.

(** ** Senders *)

(** Messages of one epoch with consecutive sequence numbers from [s] on. *)
Definition run (ep s : Z) (ms : list ReplicateMsg) : Prop := forall i m, ms !! i = Some m -> Epoch m = ep /\ Seq m = s + Z.of_nat i.

Lemma run_cons ep s m ms : Epoch m = ep -> Seq m = s -> run ep (s + 1) ms -> run ep s (m :: ms).
Proof. intros H1 H2 H3 [|i] m' Hm; cbn in Hm; [simplify_eq; split; [done|lia]|]. destruct (H3 i m' Hm). split; [done|lia]. Qed.

Lemma run_tail ep s m ms : run ep s (m :: ms) -> run ep (s + 1) ms.
Proof. intros H i m' Hm. destruct (H (S i) m' Hm). split; [done|lia]. Qed.

Lemma drain_run ep q : forall batch last size, 0 <= last < 2 ^ 62 -> Forall (fun m => 0 <= Seq m < 2 ^ 62) q ->
  exists l, drain batch ep last size q = batch ++ l /\ l `prefix_of` q /\ run ep (last + 1) l.
Proof.
  induction q as [|m q IH]; intros batch last size Hl Hq; cbn [drain].
  { exists []. rewrite app_nil_r. split_and!; [done|done|by intros i m0]. }
  assert (Hend : exists l, batch = batch ++ l /\ l `prefix_of` m :: q /\ run ep (last + 1) l) by (exists []; rewrite app_nil_r; split_and!; [done|apply prefix_nil|by intros i m0]).

  apply Forall_cons in Hq as [Hm Hq].
  destruct (negb (blen batch <? _)); [done|]. rewrite wrap_fits by (unfold fits; lia). destruct (Z.eqb_spec (Epoch m) ep) as [He|]; cbn [negb orb]; [|done].
  destruct (Z.eqb_spec (Seq m) (last + 1)) as [Hs|]; cbn [negb orb]; [|done]. destruct (_ <? _); [done|].
  destruct (IH (batch ++ [m]) (Seq m) (size + blen (Data m)) ltac:(lia) Hq) as (l & -> & Hpre & Hrun).
  exists (m :: l). rewrite <- app_assoc. split_and!; [done|by apply prefix_cons|]. apply run_cons; [done|done|]. by rewrite <- Hs.
Qed.

(** What a request carries: [Q] holds of the messages, [C] of the chunk. *)
Definition carries (Q : ReplicateMsg -> Prop) (C : SnapshotChunk -> Prop) (x : request) : Prop :=
  match x with
  | Single m => Q m
  | Group ms => Forall Q ms /\ exists m rest, ms = m :: rest /\ run (Epoch m) (Seq m) ms
  | Chunk c => C c
  end.

Lemma runSender_ok J P R L U hasGroup avail peer (e : Engine F) ids : pipe e ids ->
  (forall m, queued e peer m -> 0 <= Seq m < 2 ^ 62) ->
  (forall x, carries (queued e peer) (fun _ => False) x -> R peer x) ->
  exists e', runSender hasGroup avail peer e = (e', Ok tt) /\ tame J P R L U e e' ids ids.
Proof.
  intros Hp Hb HR. unfold runSender. rewrite bind_gets. destruct (peerQ e !! peer) as [q|] eqn:Eq.
  2:{ change (default [] None) with (@nil ReplicateMsg). rewrite take_nil. exists e. split; [done|by apply tame_refl]. }
  change (default [] (Some q)) with q. assert (Hq : forall m, m ∈ q -> queued e peer m) by (intros m Hm; by exists q).
  destruct (take avail q) as [|m rest] eqn:Et; [exists e; split; [done|by apply tame_refl]|].
  assert (Hin : forall m', m' ∈ m :: rest -> m' ∈ q) by (intros m'; rewrite <- Et; apply subseteq_take).
  assert (Hs : 0 <= Seq m < 2 ^ 62) by (apply Hb, Hq, Hin; by constructor).
  assert (Hbatch : exists l, (if hasGroup then drain [m] (Epoch m) (Seq m) (blen (Data m)) rest else [m]) = m :: l /\ l `prefix_of` rest /\ run (Epoch m) (Seq m) (m :: l)).
  { destruct hasGroup.
    - destruct (drain_run (Epoch m) rest [m] (Seq m) (blen (Data m)) Hs) as (l & -> & H1 & H2).
      { apply Forall_forall. intros m' Hm'. apply Hb, Hq, Hin. by constructor. }
      exists l. split_and!; [done|done|by apply run_cons].
    - exists []. split_and!; [done|apply prefix_nil|]. apply run_cons; [done|done|by intros i m0]. }
  destruct Hbatch as (l & -> & Hpre & Hrun). rewrite bind_modify.
  assert (Hx : R peer (match m :: l with [m'] => Single m' | _ => Group (m :: l) end)).
  { assert (Hall : Forall (queued e peer) (m :: l)).
    { apply Forall_forall. intros m' Hm'. apply Hq, Hin. destruct Hpre as [k ->]. apply elem_of_cons in Hm' as [->|Hm']; [by constructor|].
      constructor. apply elem_of_app. by left. }
    apply HR. destruct l as [|m2 l]; cbn [carries]; [by inversion Hall|]. split; [done|]. by exists m, (m2 :: l). }
  eexists. split; [done|]. apply mailed_tame; [|done]. eapply mailed_trans; [|by apply send_mailed].
  apply set_peerQ_mailed. intros p ms m' [[<- <-]|[_ Hl]]%lookup_insert_Some Hm'; left; [|by exists ms].
  apply Hq. apply list_elem_of_lookup in Hm' as [i Hi]. rewrite lookup_drop in Hi. by eapply list_elem_of_lookup_2.
Qed.

(** ** The backup *)

(** [m] was appended. *)
Record accepts (m : ReplicateMsg) (e e' : Engine F) (ids ids' : list nat) : Prop := {
  a_pipe : pipe e' ids';
  a_next : Seq m = (appliedFrontierLocked e).1 + 1 /\ PrevSeq m = (appliedFrontierLocked e).1 /\ PrevEpoch m = (appliedFrontierLocked e).2;
  a_epoch : epoch e <= Epoch m /\ epoch e' = Epoch m;
  a_empty : epoch e < epoch e' -> ids' = [];
  a_ids : ids' <> [] -> ids <> [];
  a_log : lastSeq e' = lastSeq e /\ lastSeqEpoch e' = lastSeqEpoch e /\ lastApplied e' = Seq m /\ lastAppliedEpoch e' = Epoch m;
  a_state : backlog e' = backlog e /\ fsm e' = (Apply (fsm e) (Data m)).1 /\ poisoned e = false /\ poisoned e' = false /\ closed e' = closed e /\ snapStage e' = snapStage e /\
    outbox e' = outbox e /\ leaseEpoch e' = leaseEpoch e /\ leaseExpiry e' = leaseExpiry e;
  a_recs : forall J, recs_to cl J (recs e) (recs e');
  a_queue : forall p m, queued e' p m -> queued e p m;
  a_applied : (Apply (fsm e) (Data m)).2 <> None;
}.

(** When a backup takes a message: it is not fenced, the message is not of an older
    epoch, it extends exactly the write the backup ends with, and it applies. *)
Definition extends (m : ReplicateMsg) (e : Engine F) : Prop :=
  poisoned e = false /\ epoch e <= Epoch m /\ Seq m = u64 (PrevSeq m + 1) /\ (PrevSeq m, PrevEpoch m) = appliedFrontierLocked e /\ (Apply (fsm e) (Data m)).2 <> None.

(** The applier's contract: what it refuses, it has not done. *)
Definition apply_clean : Prop := forall f d, (Apply f d).2 = None -> (Apply f d).1 = f.

Lemma applyData_ok d (e : Engine F) : apply_clean -> exists e' o, try (applyData Apply d) e = (e', Ok o) /\
  (o = inr ErrApply /\ e' = set_fsm (fsm e) e /\ (Apply (fsm e) d).2 = None \/ (exists r, o = inl r) /\ e' = set_fsm (Apply (fsm e) d).1 e /\ (Apply (fsm e) d).2 <> None).
Proof.
  intros Hc. unfold try, applyData. rewrite bind_gets, bind_modify. specialize (Hc (fsm e) d). destruct (Apply (fsm e) d) as [f [r|]]; cbn in *.
  - eexists _, _. split; [done|]. right. split_and!; [by exists r|done|done].
  - rewrite Hc by done. eexists _, _. split; [done|]. by left.
Qed.

Lemma appliedFrontier_kept (e e' : Engine F) : lastSeq e' = lastSeq e -> lastSeqEpoch e' = lastSeqEpoch e -> lastApplied e' = lastApplied e ->
  lastAppliedEpoch e' = lastAppliedEpoch e -> appliedFrontierLocked e' = appliedFrontierLocked e.
Proof. unfold appliedFrontierLocked. by intros -> -> -> ->. Qed.

Lemma set_fsm_pipe f (e : Engine F) ids : pipe e ids -> pipe (set_fsm f e) ids.
Proof. intros Hp. by eapply (pipe_frame e). Qed.

Lemma receiveLocked_ok J P R L U m now (e : Engine F) ids : apply_clean -> pipe e ids -> (poisoned e = false -> U (Epoch m)) ->
  0 <= (appliedFrontierLocked e).1 < 2 ^ 62 ->
  exists e' ids' a, receiveLocked cl Apply m now e = (e', Ok a) /\
    (OK a = false /\ ~ extends m e /\ tame J P R L U e e' ids ids' \/ a = MkAck (Epoch m) (Seq m) true /\ accepts m e e' ids ids').
Proof.
  intros Hc Hp HU Hf. unfold receiveLocked. rewrite !bind_gets.
  assert (Hsame : forall a, OK a = false -> ~ extends m e -> exists e' ids' a', (e, @Ok perr AckMsg a) = (e', Ok a') /\
    (OK a' = false /\ ~ extends m e /\ tame J P R L U e e' ids ids' \/ a' = MkAck (Epoch m) (Seq m) true /\ accepts m e e' ids ids')).
  { intros a Ha Hx. exists e, ids, a. split; [done|]. left. split_and!; [done|done|by apply tame_refl]. }
  destruct (poisoned e) eqn:Epo; [apply Hsame; [done|]; intros (? & _); congruence|].
  destruct (Z.ltb_spec (Epoch m) (epoch e)); [apply Hsame; [done|]; intros (_ & ? & _); lia|]. clear Hsame.
  assert (Hent : exists e1 ids1, (if epoch e <? Epoch m then enterEpoch cl (Epoch m) now else mret tt) e = (e1, Ok tt) /\ pipe e1 ids1 /\ shifted e e1 ids ids1 /\
    epoch e1 = Epoch m /\ leaseEpoch e1 = leaseEpoch e /\ leaseExpiry e1 = leaseExpiry e).
  { destruct (Z.ltb_spec (epoch e) (Epoch m)).
    - destruct (enter_shifted (Epoch m) now e ids Hp) as (e1 & H1 & H2); [done|]. by exists e1, [].
    - exists e, ids. split_and!; try done; [apply shifted_refl|lia]. }
  destruct Hent as (e1 & ids1 & H1 & Hp1 & Hs1 & Hep & Hl1 & Hl2). rewrite (bind_ok _ _ _ _ _ H1).
  assert (Ht : forall f, f = fsm e1 -> tame J P R L U e (set_fsm f e1) ids ids1).
  { intros f ->. pose proof (shifted_tame J P R L U e e1 ids ids1 Hs1 Hp1 (fun _ => eq_ind_r U (HU eq_refl) Hep) (or_introl (conj Hl1 Hl2))) as [T1 T2 T3 T4 T5 T6 T7 T8 T9 T10 T11].
    split; try done. by apply set_fsm_pipe. }
  assert (Hrej : forall f a, f = fsm e1 -> OK a = false -> ~ extends m e -> exists e' ids' a', (set_fsm f e1, @Ok perr AckMsg a) = (e', Ok a') /\
    (OK a' = false /\ ~ extends m e /\ tame J P R L U e e' ids ids' \/ a' = MkAck (Epoch m) (Seq m) true /\ accepts m e e' ids ids')).
  { intros f a Hf' Ha Hx. exists (set_fsm f e1), ids1, a. split; [done|]. left. split_and!; [done|done|by apply Ht]. }
  assert (Hself : e1 = set_fsm (fsm e1) e1) by (by destruct e1).
  destruct (Z.eqb_spec (Seq m) (u64 (PrevSeq m + 1))) as [Hseq|]; cbn [negb]; [|rewrite Hself; apply Hrej; [done|done|]; by intros (_ & _ & ? & _)].
  destruct Hs1 as [K1 F1 F2 F3 F4 F5]. pose proof (kept_frontier _ _ K1) as Kf. rewrite bind_gets, Kf.
  destruct (appliedFrontierLocked e) as [fs fe] eqn:Ef. cbn [fst] in Hf.
  destruct (Z.eqb_spec (PrevSeq m) fs) as [Hps|]; cbn [negb orb]; [|rewrite Hself; apply Hrej; [done|done|]; intros (_ & _ & _ & Hx & _); congruence].
  destruct (Z.eqb_spec (PrevEpoch m) fe) as [Hpe|]; cbn [negb orb]; [|rewrite Hself; apply Hrej; [done|done|]; intros (_ & _ & _ & Hx & _); congruence].
  destruct (applyData_ok (Data m) e1 Hc) as (e2 & o & H2 & Ho). rewrite (bind_ok _ _ _ _ _ H2).
  rewrite (k_fsm _ _ K1) in Ho.
  destruct Ho as [(-> & -> & Hno)|([r ->] & -> & Hyes)]; [rewrite <- (k_fsm _ _ K1); apply Hrej; [done|done|]; by intros (_ & _ & _ & _ & Hx)|]. rewrite !bind_modify. unfold noteFrontierLocked. rewrite bind_modify.
  eexists _, ids1, _. split; [done|]. right. split; [done|].
  rewrite wrap_fits in Hseq by (unfold fits; lia). destruct K1 as [K1 K2 K3 K4 K5 K6 K7 K8 K9 K10].
  split; cbn; try done.
  - by eapply (pipe_frame e1).
  - rewrite Ef. cbn. split_and!; [lia|done|done].
  - by apply suffix_nonempty.
  - split_and!; try done. congruence.
  - intros p m'. by apply queued_sub.
Qed.

Lemma frontier_max (e : Engine F) : (appliedFrontierLocked e).1 = Z.max (lastSeq e) (lastApplied e).
Proof. unfold appliedFrontierLocked. destruct (Z.ltb_spec (lastSeq e) (lastApplied e)); cbn; lia. Qed.

Lemma accepts_frontier m e e' ids ids' : accepts m e e' ids ids' -> appliedFrontierLocked e' = (Seq m, Epoch m).
Proof.
  intros [_ (A1 & _) _ _ _ (A2 & _ & A3 & A4) _ _ _ _]. rewrite frontier_max in A1. unfold appliedFrontierLocked. rewrite A2, A3, A4.
  by rewrite (proj2 (Z.ltb_lt _ _)) by lia.
Qed.

Inductive accepted_run : list ReplicateMsg -> Engine F -> Engine F -> list nat -> list nat -> Prop :=
| run_none e ids : pipe e ids -> accepted_run [] e e ids ids
| run_more m ms e1 e2 e3 ids1 ids2 ids3 : accepts m e1 e2 ids1 ids2 -> accepted_run ms e2 e3 ids2 ids3 -> accepted_run (m :: ms) e1 e3 ids1 ids3.

Lemma receive_loop_ok J P R L U ep now : apply_clean -> forall ms s (e : Engine F) ids, run ep s ms -> 1 <= s -> s + blen ms <= 2 ^ 62 ->
  pipe e ids -> (poisoned e = false -> U ep) -> 0 <= (appliedFrontierLocked e).1 < 2 ^ 62 ->
  exists e1 ids1 e' ids' a k, receive_loop cl Apply ms ep (s - 1) now e = (e', Ok a) /\ accepted_run (take k ms) e e1 ids ids1 /\
    tame J P R L U e1 e' ids1 ids' /\ (k <= length ms)%nat /\ AckEpoch a = ep /\ AckSeq a = s - 1 + Z.of_nat k /\ (OK a = true -> k = length ms).
Proof.
  intros Hc. induction ms as [|m ms IH]; intros s e ids Hr Hs Hb Hp HU Hf; cbn [receive_loop].
  { exists e, ids, e, ids. eexists _, 0%nat. split; [done|]. split; [by constructor|]. split; [by apply tame_refl|]. cbn. split_and!; try done; lia. }
  destruct (Hr 0%nat m eq_refl) as [He Hsm]. rewrite blen_cons in Hb. pose proof (blen_nonneg ms).
  destruct (receiveLocked_ok J P R L U m now e ids Hc Hp ltac:(by rewrite He) Hf) as (e1 & ids1 & a & H1 & [(Ha & _ & Ht)|[-> Hacc]]); rewrite (bind_ok _ _ _ _ _ H1).
  - rewrite Ha. exists e, ids, e1, ids1. eexists _, 0%nat. split; [done|]. split; [by constructor|]. cbn. split_and!; try done; lia.
  - cbn [OK]. destruct (IH (s + 1) e1 ids1) as (e2 & ids2 & e3 & ids3 & a & k & H2 & Hrun & Ht & Hk & Hae & Has & Hok); try lia.
    + by eapply run_tail.
    + apply Hacc.
    + intros _. apply HU, Hacc.
    + rewrite (accepts_frontier _ _ _ _ _ Hacc). cbn. lia.
    + replace (s + 1 - 1) with (Seq m) in H2 by lia. rewrite H2. exists e2, ids2, e3, ids3, a, (S k). split; [done|]. cbn [take].
      split; [by econstructor|]. split; [done|]. cbn [length]. split_and!; [lia|done|lia|]. intros Ho. by rewrite (Hok Ho).
Qed.

Lemma ReceiveGroup_ok J P R L U m rest now (e : Engine F) ids : apply_clean -> run (Epoch m) (Seq m) (m :: rest) -> 1 <= Seq m -> Seq m + blen rest < 2 ^ 62 ->
  pipe e ids -> (poisoned e = false -> U (Epoch m)) -> 0 <= (appliedFrontierLocked e).1 < 2 ^ 62 ->
  exists e1 ids1 e' ids' a k, ReceiveGroup cl Apply (m :: rest) now e = (e', Ok a) /\ accepted_run (take k (m :: rest)) e e1 ids ids1 /\
    tame J P R L U e1 e' ids1 ids' /\ (k <= S (length rest))%nat /\ AckEpoch a = Epoch m /\ AckSeq a = Seq m - 1 + Z.of_nat k /\ (OK a = true -> k = S (length rest)).
Proof.
  intros Hc Hr Hs Hb Hp HU Hf. unfold ReceiveGroup. rewrite (proj2 (Z.eqb_neq _ _)) by lia. pose proof (blen_nonneg rest). rewrite wrap_fits by (unfold fits; lia).
  apply (receive_loop_ok J P R L U (Epoch m) now Hc (m :: rest) (Seq m) e ids Hr Hs); [rewrite blen_cons; lia|done..].
Qed.

(** ** The in-sync set *)

Lemma foldl_removePending_to J ps : forall r, (forall p, p ∈ ps -> J (rEpoch r) (rSeq r) p) -> rec_to cl J r (foldl (fun r p => removePending p r) r ps).
Proof.
  induction ps as [|p ps IH]; intros r HJ; cbn [foldl]; [apply rec_to_refl|].
  assert (H1 : rec_to cl J r (removePending p r)) by (apply removePending_to, HJ; by constructor).
  eapply (rec_to_trans cl J J J); [done|done|done|]. apply IH. intros q Hq. destruct H1 as [E1 E2 _ _ _ _ _]. rewrite E1, E2. apply HJ. by constructor.
Qed.

(** The peers a narrowed in-sync set releases writes from. *)
Definition released (ep : Z) (newISR : list string) (ep' : Z) (seq : Z) (p : string) : Prop := ep' = ep /\ p ∉ newISR.

Lemma narrow_ok ep newISR (e : Engine F) ids : pipe e ids ->
  exists e', eachInflight (narrow newISR ep) e = (e', Ok tt) /\ pipe e' ids /\ steady cl (released ep newISR) e e'.
Proof.
  intros Hp. set (g := fun r => if negb (rEpoch r =? ep) then r else foldl (fun r p => removePending p r) r (filter (fun p => p ∉ newISR) (pendingPeers r))).
  assert (Hg : forall r, rec_to cl (released ep newISR) r (g r)).
  { intros r. unfold g. destruct (Z.eqb_spec (rEpoch r) ep) as [He|]; cbn [negb]; [|apply rec_to_refl]. apply foldl_removePending_to.
    intros p [Hp' _]%list_elem_of_filter. done. }
  rewrite (eachInflight_ok g _ e ids (pipe_win _ _ Hp)).
  - eexists. split; [done|]. apply recs_step; [done|]. apply upd_rel; [apply Hp|apply rec_to_refl|]. intros id r _ _. apply Hg.
  - intros id r rs _ Hr _. unfold narrow, g. rewrite (bind_ok _ _ _ _ _ (getRec_ok (set_recs rs e) id r Hr)). destruct (negb _); [|done].
    by rewrite list_insert_id.
  - intros r. by destruct (Hg r).
Qed.

Lemma ShrinkISR_ok P R L U ep newISR now (e : Engine F) ids : pipe e ids -> leaseEpoch e <= epoch e ->
  exists e' ids', ShrinkISR cl ep newISR now e = (e', Ok tt) /\ tame (released ep newISR) P R L U e e' ids ids'.
Proof.
  intros Hp Hl. unfold ShrinkISR. rewrite !bind_gets. destruct (_ || _); [exists e, ids; split; [done|by apply tame_refl]|]. rewrite !bind_modify.
  set (J := released ep newISR). set (e1 := set_effISREpoch ep (set_effISR newISR e)).
  assert (Hp1 : pipe e1 ids) by (by eapply (pipe_frame e)).
  assert (Ht1 : tame J P R L U e e1 ids ids) by (by apply tame_frame). clearbody e1.
  destruct (narrow_ok ep newISR e1 ids Hp1) as (e2 & H2 & Hp2 & Hs2). rewrite (bind_ok _ _ _ _ _ H2), bind_modify.
  set (e3 := set_peerQ _ e2).
  assert (Ht3 : tame J P R L U e2 e3 ids ids).
  { apply mailed_tame; [|done]. apply set_peerQ_mailed. intros p ms m [Hl' _]%map_lookup_filter_Some Hm. left. by exists ms. }
  destruct (sweep_step cl now e3 ids J (t_pipe _ _ _ _ _ _ _ _ _ Ht3)) as (e4 & ids4 & -> & Hp4 & Hs4 & Hsuf). exists e4, ids4. split; [done|].
  assert (Ht2 : tame J P R L U e e2 ids ids) by (eapply tame_trans; [done|by apply steady_tame|done]).
  assert (Ht : tame J P R L U e e3 ids ids) by (by eapply tame_trans).
  eapply tame_trans; [done| |done]. by apply steady_tame.
Qed.

Lemma GrowISR_ok J P R L U ep newISR (e : Engine F) ids : pipe e ids ->
  exists e', GrowISR ep newISR e = (e', Ok tt) /\ tame J P R L U e e' ids ids.
Proof.
  intros Hp. unfold GrowISR. rewrite !bind_gets. destruct (_ || _); [exists e; split; [done|by apply tame_refl]|]. rewrite bind_modify.
  eexists. split; [done|]. apply tame_frame; try done. by eapply (pipe_frame e).
Qed.

(** ** Catching a learner up *)

(** The message of a retained entry. *)
Definition entryMsg (x : Ring.ringEntry) : ReplicateMsg :=
  MkMsg (Ring.reEpoch x) (Ring.reSeq x) (Ring.reSeq x - 1) (Ring.rePrevEpoch x) (Ring.reData x).

Lemma delta_ok b : Ring.ring_ok b -> forall n s o, 1 <= s -> s + Z.of_nat n <= 2 ^ 62 ->
  exists d, delta_loop n s o b = Ok d /\
    forall ms, d = Some ms -> exists ep, (forall ep', o = Some ep' -> ms <> [] -> ep = ep') /\ run ep s ms /\ (length ms <= n)%nat /\
      forall m, m ∈ ms -> exists x, x ∈ Ring.entries b /\ m = entryMsg x.
Proof.
  intros Hb. induction n as [|n IH]; intros s o Hs Hn; cbn [delta_loop].
  { eexists. split; [done|]. intros ms [= <-]. exists 0. split_and!; [done|by intros i m|cbn; lia|by intros m ?%not_elem_of_nil]. }
  destruct (Ring.at_sound (E:=perr) b Hb s) as (ox & Hat & Hx). rewrite Hat. cbn [mbind outcome_bind]. destruct ox as [x|]; [|by eexists].
  destruct (Hx x eq_refl) as [Hin Hseq]. destruct (bool_decide (o = None) || bool_decide (o = Some (Ring.reEpoch x))) eqn:Eo.
  2:{ eexists. split; [done|]. intros ms [= <-]. exists 0. split_and!; [done|by intros i m|cbn; lia|by intros m ?%not_elem_of_nil]. }
  destruct (IH (s + 1) (Some (Ring.reEpoch x)) ltac:(lia) ltac:(lia)) as (d & Hd & Hms). rewrite Hd. cbn [mbind outcome_bind]. eexists. split; [done|].
  intros ms Hm. destruct d as [ms'|]; [|done]. injection Hm as <-. destruct (Hms ms' eq_refl) as (ep & He & Hrun & Hlen & Hall). exists (Ring.reEpoch x).
  split_and!.
  - intros ep' -> _. by apply orb_true_iff in Eo as [Eo%bool_decide_eq_true|[= Eo]%bool_decide_eq_true].
  - apply run_cons; [done|done|]. destruct ms' as [|m' ms']; [by intros i m|]. by rewrite <- (He _ eq_refl).
  - cbn. lia.
  - intros m [->|Hm]%elem_of_cons; [|by apply Hall]. exists x. split; [done|]. unfold entryMsg. by rewrite wrap_fits by (unfold fits; lia).
Qed.

(** What the ring can hand over: a run of retained writes of one epoch. *)
Definition retained (b : Ring.ring) (s : Z) (ms : list ReplicateMsg) : Prop :=
  exists ep, run ep s ms /\ forall m, m ∈ ms -> exists x, x ∈ Ring.entries b /\ m = entryMsg x.

Lemma ringDelta_ok from to (e : Engine F) : Ring.ring_ok (backlog e) -> 1 <= from ->
  exists d, ringDeltaLocked from to e = (e, Ok d) /\ forall ms, d = Some ms -> retained (backlog e) from ms.
Proof.
  intros Hb Hf. unfold ringDeltaLocked. destruct (Z.ltb_spec to from).
  { eexists. split; [done|]. intros ms [= <-]. exists 0. split; [by intros i m|]. by intros m ?%not_elem_of_nil. }
  rewrite bind_gets. rewrite (bind_lift _ _ _ _ (Ring.span_ok (E:=perr) (backlog e) Hb)).
  destruct (list.head (Ring.entries (backlog e))) as [o|] eqn:E1; [|by eexists]. destruct (last (Ring.entries (backlog e))) as [n|] eqn:E2; [|by eexists].
  destruct (from <? Ring.reSeq o); [by eexists|]. set (to' := if Ring.reSeq n <? to then _ else _).
  assert (Hto : to' <= Ring.reSeq n) by (unfold to'; destruct (Z.ltb_spec (Ring.reSeq n) to); lia).
  pose proof (Ring.r_seqs _ Hb) as Hs. rewrite Forall_lookup in Hs. rewrite last_lookup in E2. pose proof (Hs _ _ E2).
  destruct (decide (to' < from)) as [Hlt|Hge].
  { replace (Z.to_nat (to' - from + 1)) with 0%nat by lia. eexists. split; [done|]. intros ms [= <-]. exists 0. split; [by intros i m|]. by intros m ?%not_elem_of_nil. }
  destruct (delta_ok (backlog e) Hb (Z.to_nat (to' - from + 1)) from None Hf) as (d & Hd & Hms); [lia|].
  exists d. unfold lift. rewrite Hd. split; [done|]. intros ms Hm. destruct (Hms ms Hm) as (ep & _ & Hr & _ & Hall). by exists ep.
Qed.

Lemma backfillRound_ok E k gap (e : Engine F) : Ring.ring_ok (backlog e) -> 0 <= k < 2 ^ 62 ->
  exists o, backfillRound E k gap e = (e, o) /\ o <> Panic /\ forall ms, o = Ok (inr ms) -> retained (backlog e) (k + 1) ms /\ epoch e = E /\ leaseEpoch e = E.
Proof.
  intros Hb Hk. unfold backfillRound. rewrite !bind_gets. destruct (Z.eqb_spec (epoch e) E); cbn [negb orb]; [|by eexists].
  destruct (Z.eqb_spec (leaseEpoch e) E); cbn [negb]; [|by eexists]. rewrite bind_gets. destruct (_ <=? _); [by eexists|].
  rewrite (wrap_fits _ (k + 1)) by (unfold fits; lia). set (to := if _ <? _ then _ else _).
  destruct (ringDelta_ok (k + 1) to e Hb ltac:(lia)) as (d & Hd & Hms). rewrite (bind_ok _ _ _ _ _ Hd). destruct d as [ms|]; [|by eexists].
  eexists. split; [done|]. split; [done|]. intros ms' [= <-]. by split; [apply Hms|].
Qed.

Lemma flipRound_ok J P R L U peer E k now (e : Engine F) ids : pipe e ids -> Ring.ring_ok (backlog e) -> 0 <= k < 2 ^ 62 ->
  (forall x, x ∈ Ring.entries (backlog e) -> P peer (entryMsg x)) ->
  exists e' o, flipRound peer E k now e = (e', o) /\ o <> Panic /\ tame J P R L U e e' ids ids.
Proof.
  intros Hp Hb Hk HP. unfold flipRound. rewrite !bind_gets.
  assert (Hs : forall o : outcome perr (option Z), o <> Panic -> exists e' o', (e, o) = (e', o') /\ o' <> Panic /\ tame J P R L U e e' ids ids).
  { intros o Ho. exists e, o. split; [done|]. split; [done|by apply tame_refl]. }
  destruct (_ || _); [by apply Hs|]. rewrite bind_gets. destruct (_ <? _); [by apply Hs|]. rewrite (wrap_fits _ (k + 1)) by (unfold fits; lia).
  destruct (ringDelta_ok (k + 1) (lastSeq e) e Hb ltac:(lia)) as (d & Hd & Hms). rewrite (bind_ok _ _ _ _ _ Hd). destruct d as [ms|]; [|by apply Hs].
  destruct (negb _); [by apply Hs|]. unfold createLearnerSenderLocked, dropPeerLocked.
  match goal with |- context [((modify ?a ;; modify ?b) ;; ?k)] => change ((modify a ;; modify b) ;; k) with (modify a ;; (modify b ;; k)) end.
  rewrite !bind_modify. eexists _, _. split; [done|]. split; [done|]. apply mailed_tame; [|done].
  eapply mailed_trans; [apply (drop_mailed P R peer)|]. eapply mailed_trans; [apply (set_peerQ_mailed P R (<[peer := ms]> (delete peer (peerQ e))))|].
  - intros p q m [[<- <-]|[_ Hl]]%lookup_insert_Some Hm; [|left; by exists q]. right. destruct (Hms ms eq_refl) as (ep & _ & Hall).
    destruct (Hall m Hm) as (x & Hx & ->). by apply HP.
  - apply learners_mailed.
Qed.

(** The three ways learners are dropped. *)
Lemma drops_ok J P R L U (e : Engine F) ids : pipe e ids ->
  (forall peer, exists e', AbortLearnerCatchup peer e = (e', Ok tt) /\ tame J P R L U e e' ids ids) /\
  (exists e', TeardownLearners e = (e', Ok tt) /\ tame J P R L U e e' ids ids) /\
  (exists e', ReclaimOrphanLearners e = (e', Ok tt) /\ tame J P R L U e e' ids ids).
Proof.
  intros Hp. split_and!.
  - intros peer. eexists. split; [done|]. apply mailed_tame; [|done]. eapply mailed_trans; [apply (learners_mailed P R (learners e ∖ {[peer]}) (abandonedLearners e) (learnerTeardown e ∖ {[peer]}))|]. apply drop_mailed.
  - eexists. split; [done|]. apply mailed_tame; [|done]. eapply (mailed_trans P R e (set_peerQ (filter _ (peerQ e)) e)); [|apply (learners_mailed P R ∅ (abandonedLearners e) ∅)].
    apply set_peerQ_mailed. intros p ms m [Hl' _]%map_lookup_filter_Some Hm. left. by exists ms.
  - eexists. split; [done|]. apply mailed_tame; [|done]. eapply (mailed_trans P R e (set_peerQ (filter (fun x => x.1 ∉ learnerTeardown e) (peerQ e)) e)); [|exact (learners_mailed P R (learners e) (abandonedLearners e) ∅ _)].
    apply set_peerQ_mailed. intros p ms m [Hl' _]%map_lookup_filter_Some Hm. left. by exists ms.
Qed.
End Ops.
