(* ===== verification/EngineSnap.v ===== *)
(** * Snapshots: taking, receiving and installing one. *)
From stdpp Require Import strings gmap sets.
From S2P Require Import Prelude Ring Engine EngineInv EngineOps.
Import Engine.

Section Snap.
Context {F : Type} (cl : CommitLevel) (SnapshotFSM : F -> option bytes) (InstallFSM : F -> bytes -> F * bool).

Lemma takeSnapshot_ok E now (e : Engine F) :
  exists o, takeSnapshot SnapshotFSM E now e = (e, o) /\ o <> Panic /\
    forall blob fs fe, o = Ok (blob, fs, fe) -> epoch e = E /\ leaseEpoch e = E /\ now < leaseExpiry e /\ appliedFrontierLocked e = (fs, fe) /\ SnapshotFSM (fsm e) = Some blob.
Proof.
  unfold takeSnapshot. rewrite !bind_gets. destruct (closed e); cbn [orb]; [by eexists|].
  destruct (Z.eqb_spec (epoch e) E); cbn [negb orb]; [|by eexists]. destruct (Z.eqb_spec (leaseEpoch e) E); cbn [negb orb]; [|by eexists].
  destruct (Z.leb_spec (leaseExpiry e) now); [by eexists|]. rewrite bind_gets. destruct (appliedFrontierLocked e) as [fs fe]. rewrite bind_gets.
  destruct (SnapshotFSM (fsm e)) as [blob|]; [|by eexists]. eexists. split; [done|]. split; [done|]. by intros blob' fs' fe' [= <- <- <-].
Qed.

(** The bytes a stage holds once [c] is added. *)
Definition assembled (e : Engine F) (c : SnapshotChunk) (b : bytes) : Prop :=
  exists b0, b = b0 ++ cData c /\ cOffset c = blen b0 /\
    (b0 = [] \/ epoch e = cEpoch c /\ exists s0, snapStage e = Some s0 /\ sBuf s0 = b0 /\ sameTransfer c s0 = true).

Definition stageOf (c : SnapshotChunk) (b : bytes) : snapshotStage := MkStage (cEpoch c) (cFrontierSeq c) (cFrontierEpoch c) (cTotal c) b.

Lemma sameTransfer_stage c st b : sameTransfer c st = true -> MkStage (sEpoch st) (sFrontierSeq st) (sFrontierEpoch st) (sTotal st) b = stageOf c b.
Proof.
  unfold sameTransfer, stageOf. intros [[[->%Z.eqb_eq ->%Z.eqb_eq]%andb_true_iff ->%Z.eqb_eq]%andb_true_iff ->%Z.eqb_eq]%andb_true_iff. done.
Qed.

(** What the receipt of a chunk does besides the stage. *)
Record staged (c : SnapshotChunk) (e e' : Engine F) (ids ids' : list nat) (r : AckMsg + bytes) : Prop := {
  sg_frame : exists e0, e' = set_snapStage (snapStage e') e0 /\ forall J P R L (U : Z -> Prop), U (cEpoch c) -> tame cl J P R L U e e0 ids ids';
  sg_epoch : epoch e' = Z.max (epoch e) (cEpoch c);
  sg_stage : forall s, snapStage e' = Some s -> cEpoch c = epoch e' /\ exists b, s = stageOf c b /\ assembled e c b;
  sg_whole : forall b, r = inr b -> cEpoch c = epoch e' /\ assembled e c b /\ cFinal c = true /\ blen b = cTotal c;
}.

Lemma ReceiveSnapshotChunk_ok c now (e : Engine F) ids : pipe e ids ->
  exists e' ids' r, ReceiveSnapshotChunk cl c now e = (e', Ok r) /\ pipe e' ids' /\ staged c e e' ids ids' r.
Proof.
  intros Hp. unfold ReceiveSnapshotChunk. rewrite bind_gets.
  assert (Hst : forall st (e0 : Engine F) ids0, pipe e0 ids0 -> pipe (set_snapStage st e0) ids0) by (intros st e0 ids0 H0; by eapply (pipe_frame e0)).
  destruct (Z.ltb_spec (cEpoch c) (epoch e)).
  { rewrite bind_modify. eexists _, ids, _. split; [done|]. split; [by apply Hst|]. split; try done; [|cbn; lia].
    exists e. split; [done|]. intros. by apply tame_refl. }
  assert (Hent : exists e1 ids1, (if epoch e <? cEpoch c then enterEpoch cl (cEpoch c) now;; modify (set_snapStage None) else mret tt) e = (e1, Ok tt) /\ pipe e1 ids1 /\
    (exists e0, (forall J P R L (U : Z -> Prop), U (cEpoch c) -> tame cl J P R L U e e0 ids ids1) /\ forall st, set_snapStage st e1 = set_snapStage st e0) /\ epoch e1 = cEpoch c /\
    forall s0, snapStage e1 = Some s0 -> epoch e = cEpoch c /\ snapStage e = Some s0).
  { destruct (Z.ltb_spec (epoch e) (cEpoch c)).
    - destruct (enter_shifted cl (cEpoch c) now e ids Hp) as (e1 & H1 & Hp1 & Hs1 & Hep & Hl); [done|]. rewrite (bind_ok _ _ _ _ _ H1).
      eexists _, []. split; [done|]. split; [by apply Hst|]. split; [|done]. exists e1. split; [|done]. intros J P R L U HU. apply shifted_tame; try done; [by rewrite Hep|by left].
    - exists e, ids. split_and!; try done; [|lia|intros s0 Hs0; split; [lia|done]]. exists e. split; [|done]. intros. by apply tame_refl. }
  destruct Hent as (e1 & ids1 & H1 & Hp1 & (e0 & Ht & Heq) & Hep & Hs0). rewrite (bind_ok _ _ _ _ _ H1). clear H1.
  assert (Hfin : forall st r, (forall s, st = Some s -> exists b, s = stageOf c b /\ assembled e c b) ->
    (forall b, r = inr b -> assembled e c b /\ cFinal c = true /\ blen b = cTotal c) ->
    exists e' ids' r', (set_snapStage st e1, @Ok perr (AckMsg + bytes) r) = (e', Ok r') /\ pipe e' ids' /\ staged c e e' ids ids' r').
  { intros st r Hst' Hr. eexists _, ids1, r. split; [done|]. split; [by apply Hst|]. split.
    - exists e0. split; [|done]. cbn [snapStage set_snapStage]. apply Heq.
    - change (epoch (set_snapStage st e1)) with (epoch e1). lia.
    - intros s Hs. change (epoch (set_snapStage st e1)) with (epoch e1). split; [done|]. by apply Hst'.
    - intros b Hb. change (epoch (set_snapStage st e1)) with (epoch e1). split; [done|]. by apply Hr. }
  destruct (_ || _ || _); [rewrite bind_modify; by apply Hfin|]. rewrite bind_gets.
  set (fresh := MkStage (cEpoch c) (cFrontierSeq c) (cFrontierEpoch c) (cTotal c) []).
  set (choice := match snapStage e1 with Some st => if sameTransfer c st then mret (Some st) else _ | None => _ end).
  assert (Hch : exists o, choice e1 = (e1, Ok o) /\ forall st, o = Some st -> exists b, st = stageOf c b /\
    (b = [] \/ epoch e = cEpoch c /\ exists s0, snapStage e = Some s0 /\ sBuf s0 = b /\ sameTransfer c s0 = true)).
  { assert (Hfr : exists o, (if negb (cOffset c =? 0) then mret None else mret (Some fresh) : st (Engine F) perr (option snapshotStage)) e1 = (e1, Ok o) /\ forall st, o = Some st -> exists b, st = stageOf c b /\
      (b = [] \/ epoch e = cEpoch c /\ exists s0, snapStage e = Some s0 /\ sBuf s0 = b /\ sameTransfer c s0 = true)).
    { destruct (negb _); eexists; (split; [done|]); [done|]. intros st [= <-]. exists []. split; [done|by left]. }
    unfold choice. destruct (snapStage e1) as [s0|] eqn:Es; [|done]. destruct (sameTransfer c s0) eqn:Et; [|done]. eexists. split; [done|].
    intros st [= <-]. destruct (Hs0 s0 eq_refl) as [He Hs]. exists (sBuf s0). split; [|right; split; [done|by exists s0]].
    rewrite <- (sameTransfer_stage c s0 _ Et). by destruct s0. }
  destruct Hch as (o & Ho & Hst0). rewrite (bind_ok _ _ _ _ _ Ho). destruct o as [st|]; [|rewrite bind_modify; by apply Hfin].
  destruct (Hst0 st eq_refl) as (b0 & -> & Hb0). cbn [sBuf stageOf sEpoch sFrontierSeq sFrontierEpoch sTotal].
  destruct (Z.eqb_spec (cOffset c) (blen b0)) as [Hoff|]; cbn [negb]; [|rewrite bind_modify; by apply Hfin].
  assert (Has : assembled e c (b0 ++ cData c)) by (by exists b0).
  destruct (cFinal c) eqn:Ec; cbn [negb].
  - rewrite bind_modify. destruct (Z.eqb_spec (blen (b0 ++ cData c)) (cTotal c)) as [Htot|]; cbn [negb]; [|by apply Hfin].
    apply Hfin; [done|]. by intros b [= <-].
  - rewrite bind_modify. apply Hfin; [|done]. intros s [= <-]. by exists (b0 ++ cData c).
Qed.

Lemma popAll_ok ids : forall (e : Engine F), win e ids -> (forall id r, id ∈ ids -> recs e !! id = Some r -> resolved r = true) ->
  exists rg h b, popAll (length ids) e = (repipe rg h 0 b (recs e) (committed e) e, Ok tt) /\ win (repipe rg h 0 b (recs e) (committed e) e) [].
Proof.
  induction ids as [|id ids IH]; intros e Hw Hres; cbn [length popAll].
  { pose proof (win_N e [] Hw) as HN. change (blen []) with 0 in HN. exists (inflightRing e), (inflightHead e), (baseSeq e).
    assert (He : repipe (inflightRing e) (inflightHead e) 0 (baseSeq e) (recs e) (committed e) e = e) by (rewrite <- HN; by destruct e). by rewrite He. }
  destruct (win_pop e id ids Hw) as (rg & h & b & Hpop & Hw'). { intros r' Hr'. apply (Hres id); [constructor|done]. }
  rewrite (bind_ok _ _ _ _ _ Hpop). destruct (IH _ Hw') as (rg2 & h2 & b2 & -> & Hw2).
  - intros x r' Hx Hr'. apply (Hres x); [by constructor|done].
  - by exists rg2, h2, b2.
Qed.

Lemma voidAll_ok (e : Engine F) ids : win e ids ->
  exists rg h b, (eachInflight (fun id => resolveLocked id (Some ErrReplicationTimeout));; n ← gets inflightN; popAll (Z.to_nat n)) e =
    (repipe rg h 0 b (upd (fail (fun _ => true) ErrReplicationTimeout) ids (recs e)) (committed e) e, Ok tt) /\
    win (repipe rg h 0 b (upd (fail (fun _ => true) ErrReplicationTimeout) ids (recs e)) (committed e) e) [].
Proof.
  intros Hw. set (g := fail (fun _ => true) ErrReplicationTimeout). pose proof (w_nodup _ _ Hw) as Hnd.
  assert (H1 : eachInflight (fun id => resolveLocked id (Some ErrReplicationTimeout)) e = (set_recs (upd g ids (recs e)) e, Ok tt)).
  { apply eachInflight_ok; [done| |intros; by apply fail_ok]. intros id r rs _ Hr Hok.
    rewrite (resolveLocked_ok (set_recs rs e) id r _ Hr Hok). unfold g, fail. cbn [andb]. destruct (resolved r); cbn [negb]; [|done]. by rewrite list_insert_id. }
  rewrite (bind_ok _ _ _ _ _ H1), bind_gets. pose proof (win_fail (fun _ => true) ErrReplicationTimeout e ids Hw) as Hw1. fold g in Hw1. set (e1 := set_recs _ e) in *.
  rewrite (win_N e1 ids Hw1). unfold blen. rewrite Nat2Z.id. destruct (popAll_ok ids e1 Hw1) as (rg & h & b & -> & Hw2).
  - intros id r Hin Hr. cbn in Hr. rewrite upd_lookup in Hr by done. rewrite decide_True in Hr by done. destruct (recs e !! id) as [r0|] eqn:E1; [|done].
    cbn in Hr. injection Hr as <-. unfold g, fail. cbn [andb]. by destruct (resolved r0) eqn:E2.
  - by exists rg, h, b.
Qed.

(** The log is that of the snapshot. *)
Record installed (fs fe : Z) (f : F) (po : bool) (e e' : Engine F) : Prop := {
  i_pipe : pipe e' [];
  i_log : lastSeq e' = fs /\ lastSeqEpoch e' = fe /\ lastApplied e' = fs /\ lastAppliedEpoch e' = fe;
  i_ring : Ring.ring_ok (backlog e') /\ Ring.entries (backlog e') = [];
  i_state : fsm e' = f /\ poisoned e' = po /\ closed e' = closed e /\ snapStage e' = snapStage e /\ outbox e' = outbox e /\ peerQ e' = peerQ e /\
    epoch e' = epoch e /\ leaseEpoch e' = leaseEpoch e /\ leaseExpiry e' = leaseExpiry e;
  i_recs : forall J, recs_to cl J (recs e) (recs e');
}.

Lemma installSnapshot_ok shipEpoch fs fe blob commitOK (e : Engine F) ids : pipe e ids -> Ring.ring_ok (backlog e) -> 0 <= fs < 2 ^ 62 ->
  exists e' o, installSnapshot InstallFSM shipEpoch fs fe blob commitOK e = (e', o) /\ o <> Panic /\
    (e' = e \/ epoch e <= shipEpoch /\
      (e' = set_fsm (InstallFSM (fsm e) blob).1 (set_poisoned true e) \/
       (InstallFSM (fsm e) blob).2 = true /\ installed fs fe (InstallFSM (fsm e) blob).1 (negb commitOK) e e')).
Proof.
  intros Hp Hb Hf. unfold installSnapshot. rewrite !bind_gets. destruct (closed e); cbn [orb]; [eexists _, _; split_and!; try done; by left|].
  destruct (Z.ltb_spec shipEpoch (epoch e)); [eexists _, _; split_and!; try done; by left|]. rewrite bind_modify, bind_gets, bind_modify.
  change (fsm (set_poisoned true e)) with (fsm e). destruct (InstallFSM (fsm e) blob) as [f ok] eqn:Ei. cbn [fst snd].
  destruct ok; cbn [negb]; [|eexists _, _; split_and!; try done; right; split; [lia|by left]]. rewrite !bind_modify. set (e1 := set_committed fs _).
  destruct (voidAll_ok e1 ids) as (rg & h & b & Hv & Hw). { eapply (win_frame e); [by apply pipe_win|done..]. }
  destruct (Ring.newRing_ok (blen (Ring.buf (backlog e)))) as (Hr1 & Hr2 & _). { destruct Hb as [B1 B2 B3 _ _]. lia. }
  match goal with |- context [(eachInflight ?f ;; (n ← gets inflightN; popAll (Z.to_nat n) ;; ?k)) e1] =>
    assert (Hb1 : (eachInflight f ;; (n ← gets inflightN; popAll (Z.to_nat n) ;; k)) e1 = ((eachInflight f ;; (n ← gets inflightN; popAll (Z.to_nat n))) ;; k) e1) end.
  { rewrite bind_assoc. unfold mbind, st_bind. by destruct (eachInflight _ e1) as [? [[]| |]]. }
  rewrite Hb1, (bind_ok _ _ _ _ _ Hv), bind_modify. unfold clearEffISRLocked. rewrite bind_assoc, !bind_modify.
  match goal with |- context [(clearLearnersLocked ;; _) ?x] => destruct (clearLearners_ok x) as (l & t & Hcl) end.
  rewrite (bind_ok _ _ _ _ _ Hcl).
  assert (Hto : forall J, recs_to cl J (recs e) (upd (fail (fun _ => true) ErrReplicationTimeout) ids (recs e))).
  { intros J. apply upd_rel; [apply Hp|apply rec_to_refl|]. intros id r _ _. apply fail_to. }
  destruct commitOK; cbn [negb]; eexists _, _; (split; [done|]); (split; [done|]); right; (split; [lia|]); right; (split; [done|]); (split; try done);
    (eapply win_pipe; [eapply win_frame; [exact Hw|done..]|cbn; lia]).
Qed.
End Snap.
