(* ===== verification/EngineProps.v ===== *)
(** * Properties of one engine: the backup appends only the next write of its
    history, the commit sweep terminates, what a promotion forgets, and what a write does
    that is received while the node's own is applied. *)
From stdpp Require Import strings gmap sets.
From S2P Require Import Prelude Ring Engine EngineInv EngineOps.
Import Engine.

Section Props.
Context {F : Type} (cl : CommitLevel) (Apply : F -> bytes -> F * option bytes).


(** C25. The commit sweep terminates. Whatever the pipeline holds, the sweep returns
    after at most one iteration per record in flight plus one; it takes records off
    the front only, each one resolved; the commit watermark does not move back; and
    it stops at a record that still waits for a peer, or with an empty pipeline. *)
Theorem sweep_terminates now (e : Engine F) ids : pipe e ids ->
  exists e' gone ids', sweepLocked cl now e = (e', Ok tt) /\ pipe e' ids' /\ ids = gone ++ ids' /\ committed e <= committed e' /\
    (forall id, id ∈ gone -> exists r, recs e' !! id = Some r /\ resolved r = true) /\
    match ids' with [] => True | id :: _ => exists r, recs e' !! id = Some r /\ resolved r = false /\ pendingPeers r <> [] end.
Proof.
  intros Hp. destruct (sweep_ok cl now e ids Hp) as (e' & ids' & H1 & H2 & H3 & [gone ->] & H5). exists e', gone, ids'.
  destruct (swept_kept _ _ _ _ H3) as (_ & _ & _ & _ & _ & _ & _ & _ & Hc). split_and!; try done.
  - intros id Hid. apply list_elem_of_lookup in Hid as [i Hi]. destruct (p_rec _ _ Hp i id) as (r & Hr & _); [by apply lookup_app_l_Some|].
    pose proof (swept_to cl now e e' (fun _ _ _ => False) H3) as Hto. destruct (Forall2_lookup_l _ _ _ _ _ Hto Hr) as (r' & Hr' & _). exists r'. split; [done|].
    apply (p_out _ _ H2 id r' Hr'). pose proof (p_nodup _ _ Hp) as Hnd. apply NoDup_app in Hnd as (_ & Hnd & _). apply Hnd. by eapply list_elem_of_lookup_2.
  - destruct ids' as [|id ids']; [done|]. destruct H5 as (r & Q1 & Q2 & Q3 & _). by exists r.
Qed.

(** C38. A promotion forgets the node's own writes. When a node has committed more than
    it received from others, which its own writes make so, and the control plane
    makes it the primary of a newer epoch, its frontier goes back to the last write it
    received while its state machine keeps all of them; it holds the lease of the new
    epoch, and no proposal is admitted any more: the window of writes in flight, the
    difference of the last number and the commit watermark, underflows. *)
Theorem promotion_forgets_own_writes ep expiry now (e : Engine F) ids : pipe e ids -> Ring.ring_ok (backlog e) -> epoch e < ep -> poisoned e = false ->
  0 <= lastApplied e < committed e -> now < expiry ->
  exists e', Promote cl ep expiry now e = (e', Ok tt) /\ epoch e' = ep /\ LeaseValid now e' = true /\ fsm e' = fsm e /\
    appliedFrontierLocked e' = (lastApplied e, lastAppliedEpoch e) /\ (appliedFrontierLocked e').1 < (appliedFrontierLocked e).1 /\
    forall nodeID primary isr minISR now' inline d, exists o, proposeSequenced nodeID cl Apply primary isr minISR now' inline d e' = (e', o) /\ forall x, o <> Ok (Some x).
Proof.
  intros Hp Hr Hlt Hpo Hla Hex. pose proof (p_marks _ _ Hp) as Hm.
  destruct (Promote_runs cl ep expiry now e ids Hp Hr Hlt Hpo) as (e' & H & _ & H1 & H2 & H3 & H4 & H5 & H6 & H7 & H8 & _ & _ & H9 & _ & H10 & _).
  assert (Hf : appliedFrontierLocked e' = (lastApplied e, lastAppliedEpoch e)) by (unfold appliedFrontierLocked; by rewrite H5, H6, H7, H8, Z.ltb_irrefl).
  exists e'. split_and!; try done.
  - unfold LeaseValid. rewrite H10, Hpo, H3, H4, H1, Z.eqb_refl. by apply Z.ltb_lt.
  - rewrite Hf, frontier_max. cbn. lia.
  - intros nodeID primary isr minISR now' inline d. destruct (proposeCheck_ok nodeID primary isr minISR now' e') as (o & Ho & Hnp & Hadm).
    assert (Hfull : forall x, o <> Ok (Some x)).
    { intros x Hx. destruct (Hadm x Hx) as (_ & _ & _ & _ & Hw). rewrite H5, H2 in Hw. unfold wrap, pipelineWindow in Hw.
      rewrite <- (Z.mod_add _ 1), Z.mod_small in Hw by lia. lia. }
    unfold proposeSequenced. destruct o as [[x|]|err|]; [by destruct (Hfull x)|..].
    + rewrite (bind_ok _ _ _ _ _ Ho). by exists (Ok None).
    + rewrite (bind_err _ _ _ _ _ Ho). by exists (Err err).
    + done.
Qed.

(** C39. A write that is received between the application and the registration of the
    node's own write splits the node's state from its history. The node has admitted
    [d] in the epoch [ep] and applied it; a write [m] of another epoch arrives that
    extends the node's history, is applied and acknowledged; then [d] is given
    the number after [m], with [m] as its predecessor. So the state is that of [d], then
    [m], while the history that the node's frontier names, and that every replica
    replays, is [m], then [d]. *)
Theorem race_splits_state_from_log nodeID ep isr d m now now' (e : Engine F) ids : apply_clean Apply -> pipe e ids -> Ring.ring_ok (backlog e) ->
  0 <= lastApplied e -> (appliedFrontierLocked e).1 + 2 < 2 ^ 62 -> ep <= epoch e -> (ids <> [] -> epoch e = ep) -> Epoch m <> ep ->
  (Apply (fsm e) d).2 <> None -> extends Apply m (set_fsm (Apply (fsm e) d).1 e) ->
  exists e0 r e1 e2 p, applyData Apply d e = (e0, Ok r) /\ receiveLocked cl Apply m now e0 = (e1, Ok (MkAck (Epoch m) (Seq m) true)) /\
    proposeRegister nodeID cl ep isr d now' e1 = (e2, Ok p) /\ fsm e2 = (Apply (Apply (fsm e) d).1 (Data m)).1 /\
    pMsg p = MkMsg ep (Seq m + 1) (Seq m) (Epoch m) d /\ appliedFrontierLocked e2 = (Seq m + 1, ep).
Proof.
  intros Hc Hp Hr Hla Hf Hep Hids Hne Hd Hx. destruct ((Apply (fsm e) d).2) as [r|] eqn:Ed; [|done]. set (e0 := set_fsm (Apply (fsm e) d).1 e) in *.
  assert (Hp0 : pipe e0 ids) by (by apply set_fsm_pipe). pose proof (p_marks _ _ Hp) as Hm. pose proof (frontier_max e) as Hfm.
  assert (Hfr : appliedFrontierLocked e0 = appliedFrontierLocked e) by done.
  destruct (receiveLocked_ok cl Apply (fun _ _ _ => False) (fun _ _ => False) (fun _ _ => False) (fun _ => False) (fun _ => True) m now e0 ids Hc Hp0 ltac:(done))
    as (e1 & ids1 & a & H1 & [(_ & Hn & _)|[-> Hacc]]); [rewrite Hfr; lia|done|]. pose proof (accepts_frontier _ _ _ _ _ _ _ Hacc) as Hf1.
  destruct Hacc as [A1 (N1 & N2 & N3) [E1 E2] A4 A5 (L1 & L2 & L3 & L4) (S1 & S2 & _) _ _ _]. rewrite Hfr in *.
  assert (Hnone : ids1 = []).
  { destruct (decide (ids1 = [])) as [|Hi]; [done|]. apply A4. change (epoch e0) with (epoch e) in *. rewrite (Hids (A5 Hi)) in *. lia. }
  change (epoch e0) with (epoch e) in *.
  destruct (proposeRegister_ok cl nodeID ep isr d now' e1 ids1 A1) as (e2 & ids2 & p & H2 & _ & _ & Hreg); [by rewrite S1|lia|lia|rewrite Hf1; cbn; lia|by rewrite Hnone|].
  destruct Hreg as [G1 G2 _ _ _ _ _ _ (G3 & G4 & G5 & G6) (G7 & _)]. rewrite Hf1 in G1, G2. cbn in G1, G2.
  exists e0, r, e1, e2, p. split_and!; try done.
  - unfold applyData. rewrite bind_gets, bind_modify, Ed. done.
  - by rewrite G7, S2.
  - by rewrite G2, G1.
  - unfold appliedFrontierLocked. rewrite G3, G4, G5, L3, G1. by rewrite (proj2 (Z.ltb_ge _ _)) by lia.
Qed.

End Props.

Module EngineRuns.

Definition apply (f d : bytes) : bytes * option bytes := (f ++ d, Some []).
Definition na : string := "a".
Definition engine0 : Engine bytes :=
  match NewWithRingCapacity pipelineWindow (0, 0) false [] with Ok e => e | _ => MkEngine 0 0 0 0 0 0 0 0 ∅ (Ring.newRing 1) [] 0 ∅ ∅ ∅ ∅ [] 0 0 0 [] None false ∅ false [] [] [] end.

Definition propose (isr : list string) (d : bytes) (e : Engine bytes) : Engine bytes :=
  (proposeSequenced na CommitFullISR apply na isr 1 1 (fun _ => true) d e).1.

(** A primary whose write waits for a peer. *)
Definition waiting1 : Engine bytes := propose [na; "b"%string] [Byte.x61] (Promote CommitFullISR 1 1000 0 engine0).1.

Lemma waiting1_pipe : pipe waiting1 [0%nat].
Proof.
  split.
  - right. split_and!; vm_compute; congruence.
  - apply NoDup_singleton.
  - intros [|i] id Hi; [|done]. cbn in Hi. injection Hi as <-. eexists. split; [vm_compute; reflexivity|]. split; vm_compute; [reflexivity|congruence].
  - vm_compute. constructor; [|constructor]. split; try (vm_compute; done).
    + vm_compute. repeat constructor; set_solver.
  - intros [|id] r Hr Hn; [set_solver|]. by vm_compute in Hr.
  - intros _. vm_compute. done.
  - vm_compute. done.
Qed.


Lemma sweep_terminates_witness : exists e' gone ids', sweepLocked CommitFullISR 2 waiting1 = (e', Ok tt) /\ pipe e' ids' /\ [0%nat] = gone ++ ids' /\ committed waiting1 <= committed e' /\
    (forall id, id ∈ gone -> exists r, recs e' !! id = Some r /\ resolved r = true) /\
    match ids' with [] => True | id :: _ => exists r, recs e' !! id = Some r /\ resolved r = false /\ pendingPeers r <> [] end.
Proof. exact (sweep_terminates CommitFullISR 2 waiting1 [0%nat] waiting1_pipe). Defined.

(** A primary of epoch 1 that made and committed two writes. *)
Definition twoWrites : Engine bytes := propose [na] [Byte.x62] (propose [na] [Byte.x61] (Promote CommitFullISR 1 1000 0 engine0).1).

Lemma twoWrites_pipe : pipe twoWrites [].
Proof.
  split; cbn.
  - right. split_and!; vm_compute; congruence.
  - constructor.
  - done.
  - vm_compute. constructor; [|constructor; [|constructor]]; (split; vm_compute; try done; intros; by auto using NoDup_nil_2, or_intror).
  - intros id r Hr _. vm_compute in Hr. destruct id as [|[|id]]; [injection Hr as <-; done..|done].
  - done.
  - vm_compute. done.
Qed.

Lemma twoWrites_ring : Ring.ring_ok (backlog twoWrites).
Proof.
  assert (Hb : Ring.buf (backlog twoWrites) = [Ring.MkEntry 1 1 0 [Byte.x61]; Ring.MkEntry 1 2 1 [Byte.x62]] ++
    replicate (Z.to_nat (pipelineWindow - 2)) Ring.zeroEntry) by (vm_compute; reflexivity).
  assert (Hh : Ring.head (backlog twoWrites) = 0) by (vm_compute; reflexivity).
  assert (Hc : Ring.count (backlog twoWrites) = 2) by (vm_compute; reflexivity).
  assert (Hl : blen (Ring.buf (backlog twoWrites)) = pipelineWindow) by (vm_compute; reflexivity).
  assert (He : Ring.entries (backlog twoWrites) = [Ring.MkEntry 1 1 0 [Byte.x61]; Ring.MkEntry 1 2 1 [Byte.x62]]) by (vm_compute; reflexivity).
  split; rewrite ?Hl, ?Hh, ?Hc, ?He; [vm_compute; by split..|done| |by repeat constructor].
  intros i Hi. unfold Ring.at_slot. rewrite Z.add_0_l, (proj2 (Z.ltb_lt _ _)) by lia. rewrite Hb, lookup_app_r by (cbn; lia). apply lookup_replicate_2. unfold pipelineWindow in *. cbn. lia.
Qed.

Lemma promotion_forgets_own_writes_witness : appliedFrontierLocked twoWrites = (2, 1) /\
  exists e', Promote CommitFullISR 3 1000 1 twoWrites = (e', Ok tt) /\ epoch e' = 3 /\ LeaseValid 1 e' = true /\ fsm e' = fsm twoWrites /\
    appliedFrontierLocked e' = (lastApplied twoWrites, lastAppliedEpoch twoWrites) /\ (appliedFrontierLocked e').1 < (appliedFrontierLocked twoWrites).1 /\
    forall nodeID primary isr minISR now' inline d, exists o,
      proposeSequenced nodeID CommitFullISR apply primary isr minISR now' inline d e' = (e', o) /\ forall x, o <> Ok (Some x).
Proof.
  split; [vm_compute; reflexivity|].
  apply (promotion_forgets_own_writes CommitFullISR apply 3 1000 1 twoWrites [] twoWrites_pipe); [|vm_compute; done..].
  apply twoWrites_ring.
Defined.

(** The same primary applies "c"; the first write "d" of epoch 2 arrives. *)
Definition raceMsg : ReplicateMsg := MkMsg 2 3 2 1 [Byte.x64].

Lemma race_splits_state_from_log_witness : exists e0 r e1 e2 p, applyData apply [Byte.x63] twoWrites = (e0, Ok r) /\
  receiveLocked CommitFullISR apply raceMsg 1 e0 = (e1, Ok (MkAck 2 3 true)) /\ proposeRegister na CommitFullISR 1 [na] [Byte.x63] 1 e1 = (e2, Ok p) /\
  fsm e2 = [Byte.x61; Byte.x62; Byte.x63; Byte.x64] /\ pMsg p = MkMsg 1 4 3 2 [Byte.x63] /\ appliedFrontierLocked e2 = (4, 1).
Proof.
  apply (race_splits_state_from_log CommitFullISR apply na 1 [na] [Byte.x63] raceMsg 1 1 twoWrites [] (fun _ _ H => ltac:(discriminate H)) twoWrites_pipe twoWrites_ring); try (vm_compute; done).
Defined.

End EngineRuns.
