(* ===== verification/Replication.v ===== *)
(** * A replicated shard: the engines of its nodes, the transport between them and
    the control plane (src/shard/pbisr, src/cluster/pb_wiring.go).

    A system is executed event by event. Each critical section of an engine is one
    event, so a write is four of them; requests are delivered, repeated, reordered
    or lost at will. Beside the engines a system has ghost state: the writes that
    were assigned a sequence number, the peers each one required, what each node
    accepted and what it lost to a snapshot, and two marks of what happened: [raced],
    a node accepted a write between the application and the registration of its own,
    and [rewound], a node was promoted while its own writes were past the ones it
    had received, so that its numbering went back. *)
From stdpp Require Import strings gmap sets.
From S2P Require Import Prelude Ring Engine.
Import Engine.

Module Replication.

(** Where the holder of the write lock is. *)
Inductive phase :=
| Idle
| Checked (ep : Z) (isr : list string) (data : bytes)
| Applied (ep : Z) (isr : list string) (data : bytes)
| Shipping (p : proposal).

Section System.
Context {F : Type} (f0 : F) (cl : CommitLevel).
Context (Apply : F -> bytes -> F * option bytes) (SnapshotFSM : F -> option bytes) (InstallFSM : F -> bytes -> F * bool).
(** The node the control plane makes the primary of an epoch, and a fresh engine. *)
Context (primaryOf : Z -> string) (fresh : Engine F).

Record Node := MkNode {
  eng : Engine F;
  writer : phase;
  taken : list (Z * (Z * Z) * bytes);
  installing : option (SnapshotChunk * bytes);
  accepted : gset (Z * Z);
  lost : gset (Z * Z);
}.

Record Sys := MkSys {
  nodes : gmap string Node;
  assigned : gmap (Z * Z) (Z * bytes);
  required : gmap (Z * Z) (list string);
  catchup : list (string * string * request);
  replies : list (string * string * request * AckMsg);
  shrinks : list (Z * list string);
  acked : list (Z * Z);
  raced : bool;
  rewound : bool;
  panicked : bool;
}.

Definition newNode : Node := MkNode fresh Idle [] None ∅ ∅.
Definition init : Sys := MkSys ∅ ∅ ∅ [] [] [] [] false false false.

Definition node (s : Sys) (n : string) : Node := default newNode (nodes s !! n).
Definition setNode (n : string) (nd : Node) (s : Sys) : Sys :=
  MkSys (<[n := nd]> (nodes s)) (assigned s) (required s) (catchup s) (replies s) (shrinks s) (acked s) (raced s) (rewound s) (panicked s).
Definition crash (s : Sys) : Sys := MkSys (nodes s) (assigned s) (required s) (catchup s) (replies s) (shrinks s) (acked s) (raced s) (rewound s) true.

Definition with_eng (e : Engine F) (nd : Node) : Node := MkNode e (writer nd) (taken nd) (installing nd) (accepted nd) (lost nd).
Definition with_writer (w : phase) (nd : Node) : Node := MkNode (eng nd) w (taken nd) (installing nd) (accepted nd) (lost nd).

(** An operation of the engine of [n], then [k] on what it answers. *)
Definition on {A} (n : string) (m : st (Engine F) perr A) (k : A -> Sys -> Sys) (s : Sys) : Sys :=
  match m (eng (node s n)) with
  | (e, Ok a) => k a (setNode n (with_eng e (node s n)) s)
  | (e, Err _) => setNode n (with_eng e (node s n)) s
  | (e, Panic) => crash s
  end.

(** ** The history *)

(** The writes up to number [k] of the history whose last write is of epoch [ep]. *)
Fixpoint logTo (G : gmap (Z * Z) (Z * bytes)) (k : nat) (ep : Z) : option (list (Z * Z * bytes)) :=
  match k with
  | O => if ep =? 0 then Some [] else None
  | S k' => '(pe, d) ← G !! (ep, Z.of_nat k); l ← logTo G k' pe; Some (l ++ [(ep, Z.of_nat k, d)])
  end.
Definition logOf (G : gmap (Z * Z) (Z * bytes)) (f : Z * Z) : option (list (Z * Z * bytes)) := logTo G (Z.to_nat f.1) f.2.
Definition nodeLog (s : Sys) (n : string) : option (list (Z * Z * bytes)) := logOf (assigned s) (appliedFrontierLocked (eng (node s n))).

(** The state after a history. *)
Definition replay (l : list (Z * Z * bytes)) : F := foldl (fun f x => (Apply f x.2).1) f0 l.

(** ** Events *)

Inductive event :=
| EKeep (n : string) (ep expiry now : Z)
| ECheck (n primary : string) (isr : list string) (minISR now : Z) (data : bytes)
| EApply (n : string)
| ERegister (n : string) (now : Z)
| EShip (n : string) (inline : string -> bool) (now : Z)
| ESender (n peer : string) (hasGroup : bool) (avail : nat)
| EDeliver (n : string) (i : nat) (now : Z)
| EReply (i : nat) (now : Z)
| EFail (n : string) (i : nat) (now : Z)
| EAwait (n : string) (id : nat) (deadline : bool)
| EShrink (n : string) (ep : Z) (isr : list string) (now : Z)
| EGrow (n : string) (ep : Z) (isr : list string)
| EBackfill (n peer : string) (E k gap : Z)
| EFlip (n peer : string) (E k now : Z)
| EAbort (n peer : string)
| ETeardown (n : string)
| EReclaim (n : string)
| ETake (n : string) (E now : Z)
| EChunk (n peer : string) (i : nat) (off : Z)
| ECatchup (i : nat) (now : Z)
| EInstall (n : string) (commitOK : bool).

(** A promotion that takes the numbering back below the node's own writes. *)
Definition rewinds (ep : Z) (e : Engine F) : bool := (epoch e <? ep) && negb (poisoned e) && (lastApplied e <? lastSeq e).

(** One shard of a tick of the lease keeper, when the control plane shows [n] as
    the primary of [ep]. *)
Definition keep (n : string) (ep expiry now : Z) (s : Sys) : Sys :=
  let s := MkSys (nodes s) (assigned s) (required s) (catchup s) (replies s) (shrinks s) (acked s) (raced s)
    (rewound s || rewinds ep (eng (node s n))) (panicked s) in
  on n (cur ← gets epoch; if cur <? ep then Promote cl ep expiry now else GrantLease cl ep expiry now) (fun _ s => s) s.

Definition check (n primary : string) (isr : list string) (minISR now : Z) (data : bytes) : Sys -> Sys :=
  on n (proposeCheck n primary isr minISR now) (fun o s =>
    match o with Some ep => setNode n (with_writer (Checked ep isr data) (node s n)) s | None => s end).

Definition apply_ (n : string) (ep : Z) (isr : list string) (data : bytes) : Sys -> Sys :=
  on n (try (applyData Apply data)) (fun r s =>
    setNode n (with_writer (match r with inl _ => Applied ep isr data | inr _ => Idle end) (node s n)) s).

Definition register (n : string) (ep : Z) (isr : list string) (data : bytes) (now : Z) : Sys -> Sys :=
  on n (proposeRegister n cl ep isr data now) (fun p s =>
    let s := setNode n (with_writer (Shipping p) (node s n)) s in
    MkSys (nodes s) (<[(ep, pSeq p) := (PrevEpoch (pMsg p), data)]> (assigned s)) (<[(ep, pSeq p) := pPeers p]> (required s))
      (catchup s) (replies s) (shrinks s) (acked s) (raced s) (rewound s) (panicked s)).

Definition ship (n : string) (p : proposal) (inline : string -> bool) (now : Z) : Sys -> Sys :=
  on n (proposeShip cl inline p now) (fun _ s => setNode n (with_writer Idle (node s n)) s).

(** What an acknowledgement says was accepted. *)
Definition acceptedBy (x : request) (a : AckMsg) : list (Z * Z) :=
  match x with
  | Single m => if OK a then [(Epoch m, Seq m)] else []
  | Group ms => (fun m => (Epoch m, Seq m)) <$> filter (fun m => Seq m <= AckSeq a) ms
  | Chunk _ => []
  end.

(** A write was accepted while one of the node's own is applied but not registered. *)
Definition races (w : phase) (l : list (Z * Z)) : bool := match w, l with Applied _ _ _, _ :: _ => true | _, _ => false end.

Definition accept (p : string) (l : list (Z * Z)) (s : Sys) : Sys :=
  let nd := node s p in
  let s := setNode p (MkNode (eng nd) (writer nd) (taken nd) (installing nd) (list_to_set l ∪ accepted nd) (lost nd)) s in
  MkSys (nodes s) (assigned s) (required s) (catchup s) (replies s) (shrinks s) (acked s) (raced s || races (writer nd) l) (rewound s) (panicked s).

Definition reply (n p : string) (x : request) (a : AckMsg) (s : Sys) : Sys :=
  MkSys (nodes s) (assigned s) (required s) (catchup s) (replies s ++ [(n, p, x, a)]) (shrinks s) (acked s) (raced s) (rewound s) (panicked s).

(** The handlers of the peer. *)
Definition handle (p : string) (x : request) (now : Z) (k : AckMsg -> Sys -> Sys) : Sys -> Sys :=
  match x with
  | Single m => on p (Receive cl Apply m now) (fun a s => k a (accept p (acceptedBy x a) s))
  | Group ms => on p (ReceiveGroup cl Apply ms now) (fun a s => k a (accept p (acceptedBy x a) s))
  | Chunk c => on p (ReceiveSnapshotChunk cl c now) (fun r s =>
      match r with
      | inl a => k a s
      | inr blob =>
          let nd := node s p in setNode p (MkNode (eng nd) (writer nd) (taken nd) (Some (c, blob)) (accepted nd) (lost nd)) s
      end)
  end.

Definition deliver (n : string) (i : nat) (now : Z) (s : Sys) : Sys :=
  match outbox (eng (node s n)) !! i with
  | Some (p, x) => if decide (p = n) then s else handle p x now (reply n p x) s
  | None => s
  end.

(** The completion the transport calls back. *)
Definition complete (n p : string) (x : request) (a : option AckMsg) (now : Z) (s : Sys) : Sys :=
  match x with
  | Single m => on n (completeSend cl p m a now) (fun _ s => s) s
  | Group (m :: ms) => on n (completeGroupSend cl p (Epoch m) (Seq m) (Seq (default m (last ms))) a now) (fun _ s => s) s
  | _ => s
  end.

Definition await (n : string) (id : nat) (deadline : bool) (s : Sys) : Sys :=
  match recs (eng (node s n)) !! id with
  | Some r => on n (awaitDone id deadline) (fun o s =>
      match o with
      | Some None => MkSys (nodes s) (assigned s) (required s) (catchup s) (replies s) (shrinks s) (acked s ++ [(rEpoch r, rSeq r)]) (raced s) (rewound s) (panicked s)
      | _ => s
      end) s
  | None => s
  end.

Definition shrink (n : string) (ep : Z) (isr : list string) (now : Z) : Sys -> Sys :=
  on n (ShrinkISR cl ep isr now) (fun _ s =>
    MkSys (nodes s) (assigned s) (required s) (catchup s) (replies s) (shrinks s ++ [(ep, isr)]) (acked s) (raced s) (rewound s) (panicked s)).

Definition post (n p : string) (x : request) (s : Sys) : Sys :=
  MkSys (nodes s) (assigned s) (required s) (catchup s ++ [(n, p, x)]) (replies s) (shrinks s) (acked s) (raced s) (rewound s) (panicked s).

Definition backfill (n p : string) (E k gap : Z) : Sys -> Sys :=
  on n (backfillRound E k gap) (fun r s => match r with inr (m :: ms) => post n p (Group (m :: ms)) s | _ => s end).

Definition take_ (n : string) (E now : Z) : Sys -> Sys :=
  on n (takeSnapshot SnapshotFSM E now) (fun '(blob, fs, fe) s =>
    let nd := node s n in setNode n (MkNode (eng nd) (writer nd) (taken nd ++ [(E, (fs, fe), blob)]) (installing nd) (accepted nd) (lost nd)) s).

Definition chunk (n p : string) (i : nat) (off : Z) (s : Sys) : Sys :=
  match taken (node s n) !! i with
  | Some (E, (fs, fe), blob) => match chunkAt E fs fe blob off with Ok c => post n p (Chunk c) s | _ => s end
  | None => s
  end.

Definition deliverCatchup (i : nat) (now : Z) (s : Sys) : Sys :=
  match catchup s !! i with
  | Some (n, p, x) => if decide (p = n) then s else handle p x now (fun _ s => s) s
  | None => s
  end.

(** The accepted writes that are not in the node's history. *)
Definition forget (n : string) (s : Sys) : Sys :=
  let nd := node s n in
  let l := default [] (nodeLog s n) in
  setNode n (MkNode (eng nd) (writer nd) (taken nd) (installing nd) (accepted nd) (lost nd ∪ filter (fun x => x ∉ l.*1) (accepted nd))) s.

Definition install (n : string) (commitOK : bool) (s : Sys) : Sys :=
  match installing (node s n) with
  | Some (c, blob) =>
      let nd := node s n in
      let s := setNode n (MkNode (eng nd) (writer nd) (taken nd) None (accepted nd) (lost nd)) s in
      forget n (on n (installSnapshot InstallFSM (cEpoch c) (cFrontierSeq c) (cFrontierEpoch c) blob commitOK) (fun _ s => s) s)
  | None => s
  end.

Definition idle (s : Sys) (n : string) : bool := match writer (node s n) with Idle => true | _ => false end.
Definition position (k : Z) : bool := (0 <=? k) && (k <? 2 ^ 62).

(** What is left to the environment: an epoch has one primary, the clock does not
    run below zero, sequence numbers do not run out. *)
Definition exec (ev : event) (s : Sys) : Sys :=
  match ev with
  | EKeep n ep expiry now => if bool_decide (primaryOf ep = n) then keep n ep expiry now s else s
  | ECheck n primary isr minISR now data => if idle s n && (0 <=? now) then check n primary isr minISR now data s else s
  | EApply n => match writer (node s n) with Checked ep isr data => apply_ n ep isr data s | _ => s end
  | ERegister n now =>
      match writer (node s n) with
      | Applied ep isr data => if (appliedFrontierLocked (eng (node s n))).1 + 1 <? 2 ^ 62 then register n ep isr data now s else s
      | _ => s
      end
  | EShip n inline now => match writer (node s n) with Shipping p => ship n p inline now s | _ => s end
  | ESender n peer hasGroup avail => on n (runSender hasGroup avail peer) (fun _ s => s) s
  | EDeliver n i now => deliver n i now s
  | EReply i now => match replies s !! i with Some (n, p, x, a) => complete n p x (Some a) now s | None => s end
  | EFail n i now => match outbox (eng (node s n)) !! i with Some (p, x) => complete n p x None now s | None => s end
  | EAwait n id deadline => await n id deadline s
  | EShrink n ep isr now => shrink n ep isr now s
  | EGrow n ep isr => on n (GrowISR ep isr) (fun _ s => s) s
  | EBackfill n peer E k gap => if position k then backfill n peer E k gap s else s
  | EFlip n peer E k now => if idle s n && position k then on n (flipRound peer E k now) (fun _ s => s) s else s
  | EAbort n peer => on n (AbortLearnerCatchup peer) (fun _ s => s) s
  | ETeardown n => on n TeardownLearners (fun _ s => s) s
  | EReclaim n => on n ReclaimOrphanLearners (fun _ s => s) s
  | ETake n E now => if idle s n && (0 <=? now) then take_ n E now s else s
  | EChunk n peer i off => chunk n peer i off s
  | ECatchup i now => deliverCatchup i now s
  | EInstall n commitOK => if idle s n then install n commitOK s else s
  end.

Definition execs (evs : list event) (s : Sys) : Sys := foldl (fun s ev => exec ev s) s evs.

End System.
End Replication.
