(* ===== verification/ReplInv.v ===== *)
(** * The invariant of a replicated shard. *)
From stdpp Require Import strings gmap sets.
From S2P Require Import Prelude Ring Engine EngineInv EngineOps EngineSnap Replication.
Import Engine Replication.

(** ** Histories *)

Lemma logTo_mono G G' k : G ⊆ G' -> forall ep l, logTo G k ep = Some l -> logTo G' k ep = Some l.
Proof.
  intros HG. induction k as [|k IH]; intros ep l; cbn [logTo]; [done|].
  destruct (G !! (ep, Z.of_nat (S k))) as [[pe d]|] eqn:E1; [|done]. rewrite (lookup_weaken _ _ _ _ E1 HG). cbn.
  destruct (logTo G k pe) as [l'|] eqn:E2; [|done]. by rewrite (IH _ _ E2).
Qed.

Lemma logOf_mono G G' f l : G ⊆ G' -> logOf G f = Some l -> logOf G' f = Some l.
Proof. intros H. by apply logTo_mono. Qed.

(** One more write. *)
Lemma logOf_next G fs fe ep d l : 0 <= fs -> logOf G (fs, fe) = Some l -> G !! (ep, fs + 1) = Some (fe, d) -> logOf G (fs + 1, ep) = Some (l ++ [(ep, fs + 1, d)]).
Proof.
  intros Hf Hl HG. unfold logOf in *. cbn [fst snd] in *. replace (Z.to_nat (fs + 1)) with (S (Z.to_nat fs)) by lia. cbn [logTo].
  replace (Z.of_nat (S (Z.to_nat fs))) with (fs + 1) by lia. rewrite HG. cbn. by rewrite Hl.
Qed.

Section Inv.
Context {F : Type} (f0 : F) (cl : CommitLevel).
Context (Apply : F -> bytes -> F * option bytes) (SnapshotFSM : F -> option bytes) (InstallFSM : F -> bytes -> F * bool).
Context (primaryOf : Z -> string) (fresh : Engine F).

Abbreviation Sys := (@Sys F).
Abbreviation Node := (@Node F).
Abbreviation node := (node fresh).
Abbreviation replay := (replay f0 Apply).

(** Why a peer need not be waited for: it accepted the write, or was removed from
    the in-sync set of its epoch. *)
Definition excused (s : Sys) (ep seq : Z) (p : string) : Prop :=
  (ep, seq) ∈ accepted (node s p) \/ exists isr, (ep, isr) ∈ shrinks s /\ p ∉ isr.

Definition msgOk (s : Sys) (n : string) (m : ReplicateMsg) : Prop :=
  assigned s !! (Epoch m, Seq m) = Some (PrevEpoch m, Data m) /\ PrevSeq m = Seq m - 1 /\ 1 <= Seq m < 2 ^ 62 /\ primaryOf (Epoch m) = n.

(** What is staged of a snapshot at a position. *)
Definition bufOk (s : Sys) (fs fe total : Z) (P : bytes -> Prop) : Prop :=
  0 <= fs < 2 ^ 62 /\ exists l, logOf (assigned s) (fs, fe) = Some l /\
    (raced s = false -> exists blob, SnapshotFSM (replay l) = Some blob /\ total = blen blob /\ P blob).

Definition chunkOk (s : Sys) (n : string) (c : SnapshotChunk) : Prop :=
  primaryOf (cEpoch c) = n /\ bufOk s (cFrontierSeq c) (cFrontierEpoch c) (cTotal c) (fun blob => exists a b, blob = a ++ cData c ++ b /\ blen a = cOffset c).

(** The epoch a write in progress was admitted in. *)
Definition captured (w : phase) : option Z := match w with Checked ep _ _ | Applied ep _ _ => Some ep | _ => None end.

Definition stateOf (w : phase) (l : list (Z * Z * bytes)) : F := match w with Applied _ _ d => (Apply (replay l) d).1 | _ => replay l end.

Definition recOk (s : Sys) (r : inflight) : Prop :=
  (exists ps, required s !! (rEpoch r, rSeq r) = Some ps /\ forall p, p ∈ ps -> p ∈ pendingPeers r \/ excused s (rEpoch r) (rSeq r) p) /\
  (resolved r = true -> rErr r = None -> cl = CommitFullISR -> pendingPeers r = []).

Record nodeInv (s : Sys) (n : string) (nd : Node) : Prop := {
  n_pipe : exists ids, pipe (eng nd) ids /\ (ids <> [] -> forall ep, captured (writer nd) = Some ep -> epoch (eng nd) = ep) /\
    (ids <> [] -> primaryOf (epoch (eng nd)) = n -> lastApplied (eng nd) <= lastSeq (eng nd));
  n_ring : Ring.ring_ok (backlog (eng nd)) /\ forall x, x ∈ Ring.entries (backlog (eng nd)) -> msgOk s n (entryMsg x);
  n_marks : 0 <= lastApplied (eng nd) < 2 ^ 62 /\ (lastApplied (eng nd) = lastSeq (eng nd) -> lastAppliedEpoch (eng nd) = lastSeqEpoch (eng nd));
  n_lease : leaseEpoch (eng nd) <= epoch (eng nd) /\ (primaryOf (leaseEpoch (eng nd)) = n \/ leaseExpiry (eng nd) <= 0);
  n_own : forall ep, captured (writer nd) = Some ep -> ep <= epoch (eng nd) /\ primaryOf ep = n;
  n_seqs : forall ep seq, is_Some (assigned s !! (ep, seq)) -> primaryOf ep = n ->
    ep <= epoch (eng nd) /\ (ep = epoch (eng nd) \/ captured (writer nd) = Some ep -> seq <= (appliedFrontierLocked (eng nd)).1);
  n_log : exists l, logOf (assigned s) (appliedFrontierLocked (eng nd)) = Some l /\
    (raced s = false -> poisoned (eng nd) = false -> fsm (eng nd) = stateOf (writer nd) l) /\
    forall x, x ∈ accepted nd -> x ∈ l.*1 \/ x ∈ lost nd;
  n_poison : poisoned (eng nd) = true -> primaryOf (epoch (eng nd)) <> n;
  n_queue : forall p m, queued (eng nd) p m -> msgOk s n m;
  n_out : forall p x, (p, x) ∈ outbox (eng nd) -> carries (msgOk s n) (fun _ => False) x;
  n_recs : forall id r, recs (eng nd) !! id = Some r -> recOk s r;
  n_stage : forall st, snapStage (eng nd) = Some st -> sEpoch st <= epoch (eng nd) /\ primaryOf (sEpoch st) <> n /\
    bufOk s (sFrontierSeq st) (sFrontierEpoch st) (sTotal st) (fun blob => sBuf st `prefix_of` blob);
  n_inst : forall c b, installing nd = Some (c, b) -> cEpoch c <= epoch (eng nd) /\ primaryOf (cEpoch c) <> n /\
    bufOk s (cFrontierSeq c) (cFrontierEpoch c) (cTotal c) (fun blob => b = blob);
  n_taken : forall E fs fe blob, (E, (fs, fe), blob) ∈ taken nd -> primaryOf E = n /\ bufOk s fs fe (blen blob) (fun b => b = blob);
  n_ship : forall p, writer nd = Shipping p -> msgOk s n (pMsg p);
}.

Definition replyOk (s : Sys) (p : string) (x : request) (a : AckMsg) : Prop :=
  match x with
  | Single m => OK a = true -> AckEpoch a = Epoch m -> AckSeq a = Seq m -> (Epoch m, Seq m) ∈ accepted (node s p)
  | Group ms => forall m, m ∈ ms -> AckEpoch a = Epoch m -> Seq m <= AckSeq a -> (Epoch m, Seq m) ∈ accepted (node s p)
  | Chunk _ => True
  end.

Record inv (s : Sys) : Prop := {
  v_node : forall n, nodeInv s n (node s n);
  v_replies : forall n p x a, (n, p, x, a) ∈ replies s -> carries (msgOk s n) (fun _ => True) x /\ replyOk s p x a;
  v_catchup : forall n p x, (n, p, x) ∈ catchup s -> carries (msgOk s n) (chunkOk s n) x;
  v_acked : forall ep seq, (ep, seq) ∈ acked s -> exists ps, required s !! (ep, seq) = Some ps /\ (cl = CommitFullISR -> forall p, p ∈ ps -> excused s ep seq p);
  v_dom : forall k, is_Some (required s !! k) -> is_Some (assigned s !! k);
  v_panic : panicked s = false;
}.

(** ** Later systems *)

Record later (s s' : Sys) : Prop := {
  l_assigned : assigned s ⊆ assigned s';
  l_required : required s ⊆ required s';
  l_raced : raced s' = false -> raced s = false;
  l_accepted : forall n, accepted (node s n) ⊆ accepted (node s' n);
  l_shrinks : forall x, x ∈ shrinks s -> x ∈ shrinks s';
}.

Lemma later_refl s : later s s.
Proof. by split. Qed.

Section Later.
Context (s s' : Sys) (Hl : later s s').

Lemma excused_later ep seq p : excused s ep seq p -> excused s' ep seq p.
Proof. intros [H|(isr & H1 & H2)]; [left; by apply (l_accepted _ _ Hl)|right]. exists isr. split; [by apply (l_shrinks _ _ Hl)|done]. Qed.

Lemma msgOk_later n m : msgOk s n m -> msgOk s' n m.
Proof. intros (H1 & H2). split; [|done]. by eapply lookup_weaken, (l_assigned _ _ Hl). Qed.

Lemma bufOk_later fs fe total P Q : (forall b, P b -> Q b) -> bufOk s fs fe total P -> bufOk s' fs fe total Q.
Proof.
  intros HPQ (H1 & l & H2 & H3). split; [done|]. exists l. split; [by eapply logOf_mono, H2; apply Hl|]. intros Hr.
  destruct (H3 (l_raced _ _ Hl Hr)) as (blob & H4 & H5 & H6). exists blob. split_and!; try done. by apply HPQ.
Qed.

Lemma recOk_later r : recOk s r -> recOk s' r.
Proof.
  intros [(ps & H1 & H2) H3]. split; [|done]. exists ps. split; [by eapply lookup_weaken, (l_required _ _ Hl)|].
  intros p Hp. destruct (H2 p Hp); [by left|right; by apply excused_later].
Qed.

Lemma carries_later (C C' : SnapshotChunk -> Prop) n x : (forall c, C c -> C' c) -> carries (msgOk s n) C x -> carries (msgOk s' n) C' x.
Proof.
  intros HC. destruct x as [m|ms|c]; cbn; [apply msgOk_later| |apply HC]. intros [H1 H2]. split; [|done].
  eapply Forall_impl; [exact H1|]. intros m. apply msgOk_later.
Qed.

Lemma nodeInv_later n nd : (forall ep seq, is_Some (assigned s' !! (ep, seq)) -> primaryOf ep = n -> is_Some (assigned s !! (ep, seq))) ->
  nodeInv s n nd -> nodeInv s' n nd.
Proof.
  intros Hnew [I1 I2 I3 I4 I5 I6 I7 I8 I9 I10 I11 I12 I13 I14 I15]. split; try done.
  - split; [apply I2|]. intros x Hx. by apply msgOk_later, I2.
  - intros ep seq Hs Hp. apply I6; [by apply Hnew|done].
  - destruct I7 as (l & H1 & H2 & H3). exists l. split; [by eapply logOf_mono, H1; apply Hl|]. split; [|done]. intros Hr. apply H2. by apply (l_raced _ _ Hl).
  - intros p m Hm. by eapply msgOk_later, I9.
  - intros p x Hx. eapply (carries_later (fun _ => False)); [by intros c|]. by eapply I10.
  - intros id r Hr. by eapply recOk_later, I11.
  - intros st Hst. destruct (I12 st Hst) as (H1 & H2 & H3). split_and!; try done. eapply bufOk_later, H3; naive_solver.
  - intros c b Hc. destruct (I13 c b Hc) as (H1 & H2 & H3). split_and!; try done. eapply bufOk_later, H3; naive_solver.
  - intros E fs fe blob Ht. destruct (I14 _ _ _ _ Ht) as (H1 & H2). split; [done|]. eapply bufOk_later, H2; naive_solver.
  - intros p Hp. by apply msgOk_later, I15.
Qed.

Lemma replyOk_later p x a : replyOk s p x a -> replyOk s' p x a.
Proof.
  pose proof (l_accepted _ _ Hl p) as Hs. destruct x; cbn; [|by intros H m Hm He Hq; apply Hs, H|done]. intros H He1 He2 He3. by apply Hs, H.
Qed.

Lemma chunkOk_later n c : chunkOk s n c -> chunkOk s' n c.
Proof. intros [H1 H2]. split; [done|]. eapply bufOk_later, H2; naive_solver. Qed.

End Later.

(** ** Changes of one node *)

Lemma node_set n nd (s : Sys) : node (setNode n nd s) n = nd.
Proof. unfold Replication.node. cbn. by rewrite lookup_insert_eq. Qed.

Lemma node_set_ne n n' nd (s : Sys) : n' <> n -> node (setNode n nd s) n' = node s n'.
Proof. intros H. unfold Replication.node. cbn. by rewrite lookup_insert_ne. Qed.

Lemma later_set n nd (s : Sys) : accepted (node s n) ⊆ accepted nd -> later s (setNode n nd s).
Proof.
  intros Ha. split; try done. intros n'. destruct (decide (n' = n)) as [->|Hne]; [by rewrite node_set|by rewrite node_set_ne].
Qed.

(** The systems that differ from [s] in node [n] and in what was added to the rest. *)
Lemma inv_step s s' n : inv s -> later s s' -> (forall n', n' <> n -> node s' n' = node s n') ->
  (forall ep seq, is_Some (assigned s' !! (ep, seq)) -> is_Some (assigned s !! (ep, seq)) \/ primaryOf ep = n) ->
  nodeInv s' n (node s' n) ->
  (forall n' p x a, (n', p, x, a) ∈ replies s' -> (n', p, x, a) ∈ replies s \/ carries (msgOk s' n') (fun _ => True) x /\ replyOk s' p x a) ->
  (forall n' p x, (n', p, x) ∈ catchup s' -> (n', p, x) ∈ catchup s \/ carries (msgOk s' n') (chunkOk s' n') x) ->
  (forall ep seq, (ep, seq) ∈ acked s' -> (ep, seq) ∈ acked s \/
     exists ps, required s' !! (ep, seq) = Some ps /\ (cl = CommitFullISR -> forall p, p ∈ ps -> excused s' ep seq p)) ->
  (forall k, is_Some (required s' !! k) -> is_Some (assigned s' !! k)) -> panicked s' = false -> inv s'.
Proof.
  intros [I1 I2 I3 I4 I5 I6] Hl Hne Hnew Hn Hrep Hcat Hack Hdom Hpan. split; try done.
  - intros n'. destruct (decide (n' = n)) as [->|Hd]; [done|]. rewrite Hne by done. apply (nodeInv_later s s' Hl); [|apply I1].
    intros ep seq Hs Hp. destruct (Hnew ep seq Hs) as [?|?]; [done|congruence].
  - intros n' p x a Hx. destruct (Hrep _ _ _ _ Hx) as [H|H]; [|done]. destruct (I2 _ _ _ _ H) as [H1 H2].
    split; [|by eapply replyOk_later]. by eapply (carries_later s s' Hl (fun _ => True)).
  - intros n' p x Hx. destruct (Hcat _ _ _ Hx) as [H|H]; [|done]. eapply (carries_later s s' Hl (chunkOk s n')); [|by eapply I3].
    intros c. by apply chunkOk_later.
  - intros ep seq Ha. destruct (Hack _ _ Ha) as [H|H]; [|done]. destruct (I4 _ _ H) as (ps & H1 & H2). exists ps.
    split; [by eapply lookup_weaken, (l_required _ _ Hl)|]. intros Hc p Hp. eapply excused_later; [done|]. by apply H2.
Qed.

(** Only node [n] changes. *)
Lemma inv_set s n nd : inv s -> accepted (node s n) ⊆ accepted nd -> nodeInv (setNode n nd s) n nd -> inv (setNode n nd s).
Proof.
  intros Hi Ha Hn. eapply (inv_step s _ n Hi); try (by left); [by apply later_set|intros; by apply node_set_ne|by rewrite node_set|apply Hi|apply Hi].
Qed.

(** Records that evolve for good reasons. *)
Lemma recOk_to s rs rs' : Forall rec_ok rs -> recs_to cl (excused s) rs rs' -> (forall id r, rs !! id = Some r -> recOk s r) ->
  forall id r, rs' !! id = Some r -> recOk s r.
Proof.
  intros Hwf Hto Hok id r' Hr'. destruct (Forall2_lookup_r _ _ _ _ _ Hto Hr') as (r & Hr & [T1 T2 T3 T4 T5 T6 T7]).
  rewrite Forall_lookup in Hwf. pose proof (Hwf _ _ Hr) as Hro. destruct (Hok _ _ Hr) as [(ps & H1 & H2) H3]. split.
  - exists ps. rewrite T1, T2. split; [done|]. intros p Hp. destruct (H2 p Hp) as [H|H]; [|by right]. by apply T4.
  - intros Hre Her Hcl. destruct (T7 Hro Hre Her) as [[H4 H5]|[H|H]]; [|done|congruence]. specialize (T5 Hro). rewrite H3 in T5 by done.
    by apply list_nil_subseteq.
Qed.

Definition tameAt (s : Sys) (n : string) (e e' : Engine F) (ids ids' : list nat) : Prop :=
  tame cl (excused s) (fun _ m => msgOk s n m) (fun _ x => carries (msgOk s n) (fun _ => False) x) (fun ep => primaryOf ep = n)
    (fun ep => poisoned e = true -> primaryOf ep <> n) e e' ids ids'.

Lemma tame_frontier J P R L U (e e' : Engine F) ids ids' : tame cl J P R L U e e' ids ids' -> appliedFrontierLocked e' = appliedFrontierLocked e.
Proof. intros [_ (H1 & H2 & H3 & H4) _ _ _ _ _ _ _ _ _]. by apply appliedFrontier_kept. Qed.

(** What the pipeline of a node satisfies. *)
Definition pipeInv (n : string) (nd : Node) (ids : list nat) : Prop :=
  pipe (eng nd) ids /\ (ids <> [] -> forall ep, captured (writer nd) = Some ep -> epoch (eng nd) = ep) /\
  (ids <> [] -> primaryOf (epoch (eng nd)) = n -> lastApplied (eng nd) <= lastSeq (eng nd)).

Lemma nodeInv_tame s n nd ids e' ids' : nodeInv s n nd -> pipeInv n nd ids -> tameAt s n (eng nd) e' ids ids' -> nodeInv s n (with_eng e' nd).
Proof.
  intros [_ I2 I3 I4 I5 I6 I7 I8 I9 I10 I11 I12 I13 I14 I15] (P1 & P2 & P3) Ht. pose proof (tame_frontier _ _ _ _ _ _ _ _ _ Ht) as Hf.
  destruct Ht as [T1 (L1 & L2 & L3 & L4) (S1 & S2 & S3 & S4 & S5) T4 T0 T5 T6 T7 T8 T9 T10].
  assert (Hep : ids' <> [] -> epoch e' = epoch (eng nd)).
  { intros Hne. destruct (decide (epoch (eng nd) < epoch e')) as [Hlt|]; [by apply T5 in Hlt|lia]. }
  split; cbn [eng writer taken installing accepted lost with_eng]; rewrite ?L1, ?L2, ?L3, ?L4, ?S1, ?S2, ?S3, ?S4, ?S5, ?Hf; try done.
  - exists ids'. split; [done|]. split; intros Hne; rewrite (Hep Hne); [by apply P2, T6|by apply P3, T6].
  - destruct T7 as [[-> ->]|[H1 H2]]; [|by split; [|left]]. split; [lia|apply I4].
  - intros ep Hc. destruct (I5 ep Hc). split; [lia|done].
  - intros ep seq Hs Hp. destruct (I6 ep seq Hs Hp) as [H1 H2]. split; [lia|]. intros [->|H]; [|by apply H2; right]. apply H2. left. lia.
  - intros Hp. destruct T0 as [->|H]; [by apply I8|by apply H].
  - intros p m Hm. destruct (T10 p m Hm); [by eapply I9|done].
  - intros p x Hx. destruct (T9 p x Hx); [by eapply I10|done].
  - eapply recOk_to; [apply P1|done|done].
  - intros st Hst. destruct (I12 st Hst) as (H1 & H2). split; [lia|done].
  - intros c b Hc. destruct (I13 c b Hc) as (H1 & H2). split; [lia|done].
Qed.

Lemma later_eng n e (s : Sys) : later s (setNode n (with_eng e (node s n)) s).
Proof. by apply later_set. Qed.

Lemma same_assigned (s : Sys) n nd ep seq : is_Some (assigned (setNode n nd s) !! (ep, seq)) -> is_Some (assigned s !! (ep, seq)).
Proof. done. Qed.

(** An operation that leaves the log alone. *)
Lemma on_tame {A} s n (m : st (Engine F) perr A) : inv s ->
  (forall ids, pipeInv n (node s n) ids -> exists e' ids' o, m (eng (node s n)) = (e', o) /\ o <> Panic /\ tameAt s n (eng (node s n)) e' ids ids') ->
  inv (on fresh n m (fun _ s => s) s).
Proof.
  intros Hi Hm. pose proof (v_node _ Hi n) as Hn. destruct (n_pipe _ _ _ Hn) as (ids & Hp). destruct (Hm ids Hp) as (e' & ids' & o & Ho & Hnp & Ht).
  assert (H : inv (setNode n (with_eng e' (node s n)) s)).
  { apply inv_set; [done|done|]. eapply (nodeInv_later s); [by apply later_eng|done|]. by eapply nodeInv_tame. }
  unfold on. rewrite Ho. by destruct o.
Qed.
End Inv.
