(* ===== verification/ReplSteps.v ===== *)
(** * Every event keeps the invariant of a replicated shard. *)
From stdpp Require Import strings gmap sets.
From S2P Require Import Prelude Ring Engine EngineInv EngineOps EngineSnap Replication ReplInv.
Import Engine Replication.

Section Steps.
Context {F : Type} (f0 : F) (cl : CommitLevel).
Context (Apply : F -> bytes -> F * option bytes) (SnapshotFSM : F -> option bytes) (InstallFSM : F -> bytes -> F * bool).
Context (primaryOf : Z -> string) (fresh : Engine F).

Abbreviation Sys := (@Sys F).
Abbreviation Node := (@Node F).
Abbreviation node := (node fresh).
Abbreviation inv := (inv f0 cl Apply SnapshotFSM primaryOf fresh).
Abbreviation nodeInv := (nodeInv f0 cl Apply SnapshotFSM primaryOf fresh).
Abbreviation msgOk := (@msgOk F primaryOf).
Abbreviation excused := (@excused F fresh).
Abbreviation tameAt := (tameAt cl primaryOf fresh).
Abbreviation pipeInv := (@pipeInv F primaryOf).
Abbreviation on_tame := (on_tame f0 cl Apply SnapshotFSM primaryOf fresh).

Abbreviation queues s n := (fun (_ : string) m => msgOk s n m).
Abbreviation sends s n := (fun (_ : string) x => carries (msgOk s n) (fun _ => False) x).
Abbreviation leases n := (fun ep => primaryOf ep = n).
Abbreviation rises n e := (fun ep => poisoned e = true -> primaryOf ep <> n).

(** ** Events that leave the log alone *)

Lemma queued_bounds s n nd p m : nodeInv s n nd -> queued (eng nd) p m -> 0 <= Seq m < 2 ^ 62.
Proof. intros Hn Hm. destruct (n_queue _ _ _ _ _ _ _ _ _ Hn p m Hm) as (_ & _ & H & _). lia. Qed.

Lemma inv_sender s n peer hasGroup avail : inv s -> inv (on fresh n (runSender hasGroup avail peer) (fun _ s => s) s).
Proof.
  intros Hi. pose proof (v_node _ _ _ _ _ _ _ Hi n) as Hn. apply on_tame; [done|]. intros ids (Hp & _).
  destruct (runSender_ok cl (excused s) (queues s n) (sends s n) (leases n) (rises n (eng (node s n))) hasGroup avail peer (eng (node s n)) ids Hp) as (e' & H1 & H2).
  - intros m Hm. by eapply queued_bounds.
  - intros x Hx. destruct x as [m|ms|c]; cbn in *; [by eapply n_queue| |done]. destruct Hx as [Hx1 Hx2]. split; [|done].
    eapply Forall_impl; [exact Hx1|]. intros m Hm. by eapply n_queue.
  - by exists e', ids, (Ok tt).
Qed.

Lemma steady_excused s (J : Z -> Z -> string -> Prop) (e e' : Engine F) : (forall a b c, J a b c -> excused s a b c) -> steady cl J e e' -> steady cl (excused s) e e'.
Proof. intros HJ H. eapply (steady_trans cl _ J J); [done|done|done|apply steady_refl]. Qed.

Lemma steady_at s n (J : Z -> Z -> string -> Prop) (e e' : Engine F) ids ids' : (forall a b c, J a b c -> excused s a b c) -> steady cl J e e' -> pipe e' ids' ->
  ids' `suffix_of` ids -> tameAt s n e e' ids ids'.
Proof. intros HJ Hs Hp Hsuf. apply steady_tame; [|done|done]. by eapply steady_excused. Qed.

Lemma run_last ep s m ms : run ep s (m :: ms) -> Seq (default m (last ms)) = s + blen ms.
Proof.
  intros Hr. destruct (last ms) as [m'|] eqn:E1.
  - rewrite last_lookup in E1. destruct ms as [|m2 ms]; [done|]. cbn [length Nat.pred] in E1. destruct (Hr (S (length ms)) m' E1) as [_ H]. cbn. rewrite H. len.
  - apply last_None in E1 as ->. destruct (Hr 0%nat m eq_refl) as [_ H]. cbn. rewrite H. len.
Qed.

Lemma run_at ep s ms q : run ep s ms -> s <= q < s + blen ms -> exists m, m ∈ ms /\ Epoch m = ep /\ Seq m = q.
Proof.
  intros Hr Hq. unfold blen in Hq. destruct (lookup_lt_is_Some_2 ms (Z.to_nat (q - s))) as [m Hm]; [lia|]. destruct (Hr _ _ Hm) as [H1 H2].
  exists m. split_and!; [by eapply list_elem_of_lookup_2|done|lia].
Qed.

Lemma through_le ep first last a : 1 <= first < 2 ^ 62 -> forall seq, first <= seq -> seq <= creditThrough ep first last a -> exists a', a = Some a' /\ AckEpoch a' = ep /\ seq <= AckSeq a'.
Proof.
  intros Hf seq Hs Hle. unfold creditThrough in Hle. rewrite wrap_fits in Hle by (unfold fits; lia). destruct a as [a|]; [|lia].
  destruct (OK a && (AckEpoch a =? ep) && (AckSeq a =? last)) eqn:E1.
  - apply andb_true_iff in E1 as [[_ E1%Z.eqb_eq]%andb_true_iff E2%Z.eqb_eq]. exists a. split_and!; [done|done|lia].
  - destruct (negb (OK a) && (AckEpoch a =? ep) && (first - 1 <=? AckSeq a) && (AckSeq a <? last)) eqn:E2; [|lia].
    apply andb_true_iff in E2 as [[[_ E2%Z.eqb_eq]%andb_true_iff _]%andb_true_iff _]. exists a. by split_and!.
Qed.

Lemma inv_complete s n p x a now : inv s -> carries (msgOk s n) (fun _ => True) x -> (forall a', a = Some a' -> replyOk fresh s p x a') ->
  inv (complete cl fresh n p x a now s).
Proof.
  intros Hi Hc Ha. destruct x as [m|[|m ms]|c]; cbn [complete]; try done.
  - apply on_tame; [done|]. intros ids (Hp & _). destruct Hc as (_ & _ & Hb & _).
    destruct (completeSend_ok cl p m a now _ ids Hp) as (e' & ids' & H1 & H2 & H3 & H4); [unfold fits; lia|].
    exists e', ids', (Ok tt). split_and!; try done. apply (steady_at s n (acks p m a)); [|done..].
    intros ep seq q (-> & -> & -> & a' & -> & A1 & A2 & A3). left. by apply (Ha a' eq_refl).
  - destruct Hc as [Hall (m0 & rest & [= <- <-] & Hrun)]. rewrite (run_last _ _ _ _ Hrun). rewrite Forall_lookup in Hall.
    assert (Hb : 1 <= Seq m < 2 ^ 62) by (apply (Hall 0%nat m eq_refl)).
    assert (Hb2 : Seq m + blen ms < 2 ^ 62).
    { rewrite <- (run_last _ _ _ _ Hrun). destruct (last ms) as [m'|] eqn:E1; cbn; [|lia]. rewrite last_lookup in E1.
      destruct ms as [|m2 ms]; [done|]. apply (Hall (S (length ms)) m' E1). }
    apply on_tame; [done|]. intros ids (Hp & _).
    destruct (completeGroup_ok cl p (Epoch m) (Seq m) (Seq m + blen ms) a now _ ids Hp) as (e' & ids' & H1 & H2 & H3 & H4); [lia|lia|].
    exists e', ids', (Ok tt). split_and!; try done. eapply steady_at; [|done..]. intros ep seq q (-> & -> & Hs1 & Hs2).
    destruct (through_le _ _ _ _ Hb seq ltac:(lia) Hs2) as (a' & -> & A1 & A2).
    destruct (run_at _ _ _ seq Hrun) as (m' & Hm' & E1 & E2); [rewrite blen_cons; lia|]. left. rewrite <- E1, <- E2.
    apply (Ha a' eq_refl m' Hm'); [congruence|lia].
Qed.

Lemma inv_grow s n ep isr : inv s -> inv (on fresh n (GrowISR ep isr) (fun _ s => s) s).
Proof.
  intros Hi. apply on_tame; [done|]. intros ids (Hp & _).
  destruct (GrowISR_ok cl (excused s) (queues s n) (sends s n) (leases n) (rises n (eng (node s n))) ep isr _ ids Hp) as (e' & H1 & H2). by exists e', ids, (Ok tt).
Qed.

Lemma inv_drops s n : inv s -> (forall peer, inv (on fresh n (AbortLearnerCatchup peer) (fun _ s => s) s)) /\
  inv (on fresh n TeardownLearners (fun _ s => s) s) /\ inv (on fresh n ReclaimOrphanLearners (fun _ s => s) s).
Proof.
  intros Hi. pose proof (fun ids Hp => drops_ok cl (excused s) (queues s n) (sends s n) (leases n) (rises n (eng (node s n))) (eng (node s n)) ids Hp) as H.
  split_and!; [intros peer| |]; (apply on_tame; [done|]); intros ids (Hp & _); destruct (H ids Hp) as (H1 & H2 & H3).
  - destruct (H1 peer) as (e' & A1 & A2). by exists e', ids, (Ok tt).
  - destruct H2 as (e' & A1 & A2). by exists e', ids, (Ok tt).
  - destruct H3 as (e' & A1 & A2). by exists e', ids, (Ok tt).
Qed.

Lemma inv_flip s n peer E k now : inv s -> position k = true -> inv (on fresh n (flipRound peer E k now) (fun _ s => s) s).
Proof.
  intros Hi [H1%Z.leb_le H2%Z.ltb_lt]%andb_true_iff. pose proof (v_node _ _ _ _ _ _ _ Hi n) as Hn. destruct (n_ring _ _ _ _ _ _ _ _ _ Hn) as [Hr He].
  apply on_tame; [done|]. intros ids (Hp & _).
  destruct (flipRound_ok cl (excused s) (queues s n) (sends s n) (leases n) (rises n (eng (node s n))) peer E k now _ ids Hp Hr) as (e' & o & A1 & A2 & A3);
    [lia|done|]. by exists e', ids, o.
Qed.

Lemma later_globals (s s' : Sys) : nodes s' = nodes s -> assigned s' = assigned s -> required s' = required s -> raced s' = raced s ->
  (forall x, x ∈ shrinks s -> x ∈ shrinks s') -> later fresh s s'.
Proof. intros H1 H2 H3 H4 H5. split; rewrite ?H2, ?H3, ?H4; try done. intros n. unfold Replication.node. by rewrite H1. Qed.

(** Only the lists change. *)
Lemma inv_globals (s s' : Sys) : inv s -> nodes s' = nodes s -> assigned s' = assigned s -> required s' = required s -> raced s' = raced s ->
  (forall x, x ∈ shrinks s -> x ∈ shrinks s') -> panicked s' = panicked s ->
  (forall n' p x a, (n', p, x, a) ∈ replies s' -> (n', p, x, a) ∈ replies s \/ carries (msgOk s' n') (fun _ => True) x /\ replyOk fresh s' p x a) ->
  (forall n' p x, (n', p, x) ∈ catchup s' -> (n', p, x) ∈ catchup s \/ carries (msgOk s' n') (chunkOk f0 Apply SnapshotFSM primaryOf s' n') x) ->
  (forall ep seq, (ep, seq) ∈ acked s' -> (ep, seq) ∈ acked s \/
     exists ps, required s' !! (ep, seq) = Some ps /\ (cl = CommitFullISR -> forall p, p ∈ ps -> excused s' ep seq p)) -> inv s'.
Proof.
  intros Hi H1 H2 H3 H4 H5 H6 H7 H8 H9. assert (Hl : later fresh s s') by (by apply later_globals).
  assert (Hnode : forall n, node s' n = node s n) by (intros n; unfold Replication.node; by rewrite H1).
  apply (inv_step _ _ _ _ _ _ s s' (primaryOf 0) Hi Hl); rewrite ?H2, ?H6; try done; rewrite ?H3; try apply Hi; [by left|].
  rewrite Hnode. eapply (nodeInv_later _ _ _ _ _ _ s); [done|by rewrite H2|apply Hi].
Qed.

Lemma on_rewound {A} s n (m : st (Engine F) perr A) k : (forall a s', rewound s' = rewound s -> rewound (k a s') = rewound s) -> rewound (on fresh n m k s) = rewound s.
Proof. intros Hk. unfold on. destruct (m (eng (node s n))) as [e [a| |]]; try done. by apply Hk. Qed.

(** ** The lease keeper *)

Abbreviation Promoted ep e e' := (poisoned e = false /\ epoch e' = ep /\ leaseEpoch e' = ep /\ lastSeq e' = lastApplied e /\ lastSeqEpoch e' = lastAppliedEpoch e /\
  lastApplied e' = lastApplied e /\ lastAppliedEpoch e' = lastAppliedEpoch e /\ Ring.ring_ok (backlog e') /\ Ring.entries (backlog e') = [] /\
  fsm e' = fsm e /\ outbox e' = outbox e /\ poisoned e' = poisoned e /\ closed e' = closed e /\ snapStage e' = snapStage e /\ peerQ e' = peerQ e /\
  forall J, recs_to cl J (recs e) (recs e')).

Lemma nodeInv_promote s n nd ep e' : nodeInv s n nd -> primaryOf ep = n -> epoch (eng nd) < ep -> lastSeq (eng nd) <= lastApplied (eng nd) -> pipe e' [] ->
  Promoted ep (eng nd) e' -> nodeInv s n (with_eng e' nd).
Proof.
  intros [I1 I2 I3 I4 I5 I6 I7 I8 I9 I10 I11 I12 I13 I14 I15] Hprim Hlt Hls Hp (E0 & E1 & E2 & E3 & E4 & E5 & E6 & E7 & E8 & E9 & E10 & E11 & E12 & E13 & E14 & E15).
  assert (Hf : appliedFrontierLocked e' = appliedFrontierLocked (eng nd)).
  { unfold appliedFrontierLocked. rewrite E3, E4, E5, E6, Z.ltb_irrefl. destruct (Z.ltb_spec (lastSeq (eng nd)) (lastApplied (eng nd))); [done|].
    destruct I3 as [_ I3]. rewrite I3 by lia. f_equal. lia. }
  split; cbn [eng writer taken installing accepted lost with_eng]; rewrite ?E1, ?E2, ?E3, ?E4, ?E5, ?E6, ?E9, ?E10, ?E11, ?E13, ?Hf; try done.
  - by exists [].
  - split; [done|]. rewrite E8. by intros x ?%not_elem_of_nil.
  - split; [apply I3|done].
  - split; [lia|by left].
  - intros ep' Hc. destruct (I5 ep' Hc). split; [lia|done].
  - intros ep' seq Hs Hn. destruct (I6 ep' seq Hs Hn) as [H1 H2]. split; [lia|]. intros [->|H]; [lia|]. apply H2. by right.
  - by rewrite E0.
  - intros p m (q & Hq & Hm). apply (I9 p m). exists q. by rewrite <- E14.
  - destruct I1 as (ids & Hp0 & _). eapply recOk_to; [apply Hp0|apply E15|done].
  - intros st Hst. destruct (I12 st Hst) as (H1 & H2). split; [lia|done].
  - intros c b Hc. destruct (I13 c b Hc) as (H1 & H2). split; [lia|done].
Qed.

Lemma inv_keep_same s n ep expiry now : inv s -> primaryOf ep = n -> rewinds ep (eng (node s n)) = false ->
  inv (on fresh n (cur ← gets epoch; if cur <? ep then Promote cl ep expiry now else GrantLease cl ep expiry now) (fun _ s => s) s).
Proof.
  intros Hi Hprim Hg. pose proof (v_node _ _ _ _ _ _ _ Hi n) as Hn. destruct (n_lease _ _ _ _ _ _ _ _ _ Hn) as [Hle _].
  destruct (Z.ltb_spec (epoch (eng (node s n))) ep) as [Hlt|Hge].
  - destruct (poisoned (eng (node s n))) eqn:Epo.
    { apply on_tame; [done|]. intros ids (Hp & _). rewrite bind_gets, (proj2 (Z.ltb_lt _ _)) by done. exists (eng (node s n)), ids, (Ok tt).
      split_and!; [|done|by apply tame_refl]. unfold Promote. rewrite bind_gets, (proj2 (Z.leb_gt _ _)) by done. by rewrite bind_gets, Epo. }
    unfold rewinds in Hg. rewrite Epo, (proj2 (Z.ltb_lt _ _) Hlt) in Hg. cbn in Hg. apply Z.ltb_ge in Hg as Hls. destruct (n_pipe _ _ _ _ _ _ _ _ _ Hn) as (ids & Hp & _).
    destruct (Promote_ok cl ep expiry now _ ids Hp) as (e' & ids' & H1 & H2 & Hcase);
      [by apply (n_ring _ _ _ _ _ _ _ _ _ Hn)|done|pose proof (n_marks _ _ _ _ _ _ _ _ _ Hn); lia|].
    unfold on. rewrite bind_gets, (proj2 (Z.ltb_lt _ _)) by done. rewrite H1. apply inv_set; [done|done|].
    eapply (nodeInv_later _ _ _ _ _ _ s); [by apply later_eng|done|]. destruct Hcase as [->|(_ & C1 & -> & C2)]; [by destruct (node s n)|].
    eapply nodeInv_promote; try done.
  - apply on_tame; [done|]. intros ids (Hp & _). rewrite bind_gets, (proj2 (Z.ltb_ge _ _)) by done.
    destruct (GrantLease_ok cl ep expiry now _ ids Hp Hle) as (e' & ids' & H1 & H2 & H3 & H4 & H5 & H6). exists e', ids', (Ok tt). split_and!; try done.
    apply shifted_tame; [done|done|lia|]. destruct H6 as [H6|H6]; [by left|right]. split; [by rewrite H6|done].
Qed.

Lemma inv_keep s n ep expiry now : inv s -> primaryOf ep = n -> rewound (keep cl fresh n ep expiry now s) = false -> inv (keep cl fresh n ep expiry now s).
Proof.
  intros Hi Hprim. unfold keep. set (s1 := MkSys _ _ _ _ _ _ _ _ _ _). rewrite on_rewound by done. cbn. intros [_ Hr]%orb_false_iff.
  apply inv_keep_same; [|done|done]. eapply (inv_globals s); try done; by left.
Qed.

(** ** A write *)

Abbreviation captured := (@ReplInv.captured).
Abbreviation stateOf := (@ReplInv.stateOf F f0 Apply).

Lemma set_set n a b (s : Sys) : setNode n a (setNode n b s) = setNode n a s.
Proof. unfold setNode. cbn. by rewrite insert_insert_eq. Qed.

Lemma set_writer n w e (s : Sys) :
  setNode n (with_writer w (node (setNode n (with_eng e (node s n)) s) n)) (setNode n (with_eng e (node s n)) s) = setNode n (with_writer w (with_eng e (node s n))) s.
Proof. by rewrite node_set, set_set. Qed.

Lemma eng_same (nd : Node) : with_eng (eng nd) nd = nd.
Proof. by destruct nd. Qed.

Lemma nodeInv_writer s n nd w : nodeInv s n nd ->
  (forall ep, captured w = Some ep -> captured (writer nd) = Some ep \/ ep = epoch (eng nd) /\ primaryOf ep = n) ->
  (forall l, stateOf w l = stateOf (writer nd) l) -> (forall p, w = Shipping p -> msgOk s n (pMsg p)) -> nodeInv s n (with_writer w nd).
Proof.
  intros [(ids & P1 & P2 & P3) I2 I3 I4 I5 I6 I7 I8 I9 I10 I11 I12 I13 I14 I15] Hc Hst Hsh.
  split; cbn [eng writer taken installing accepted lost with_writer]; try done.
  - exists ids. split_and!; try done. intros Hne ep Hep. destruct (Hc ep Hep) as [H|[-> _]]; [by apply P2|done].
  - intros ep Hep. destruct (Hc ep Hep) as [H|[-> H]]; [by apply I5|]. split; [lia|done].
  - intros ep seq Hs Hn. destruct (I6 ep seq Hs Hn) as [H1 H2]. split; [done|]. intros [H|Hep]; [by apply H2; left|].
    apply H2. destruct (Hc ep Hep) as [H|[-> _]]; [by right|by left].
  - destruct I7 as (l & H1 & H2 & H3). exists l. split_and!; try done. by rewrite Hst.
Qed.

Lemma inv_set_same s n nd : inv s -> accepted (node s n) ⊆ accepted nd -> nodeInv s n nd -> inv (setNode n nd s).
Proof. intros Hi Ha Hn. apply inv_set; [done|done|]. eapply (nodeInv_later _ _ _ _ _ _ s); [by apply later_set|done|done]. Qed.

Lemma inv_check s n primary isr minISR now data : inv s -> idle fresh s n = true -> 0 <= now -> inv (check fresh n primary isr minISR now data s).
Proof.
  intros Hi Hid Hnow. pose proof (v_node _ _ _ _ _ _ _ Hi n) as Hn. unfold idle in Hid. destruct (writer (node s n)) eqn:Ew; try done.
  unfold check, on. destruct (proposeCheck_ok n primary isr minISR now (eng (node s n))) as (o & -> & Hnp & Ho).
  assert (Hsame : inv (setNode n (with_eng (eng (node s n)) (node s n)) s)) by (rewrite eng_same; by apply inv_set_same).
  destruct o as [[ep|]| |]; try done. rewrite set_writer, eng_same. apply inv_set_same; [done|done|].
  destruct (Ho ep eq_refl) as (-> & H1 & H2 & _). destruct (n_lease _ _ _ _ _ _ _ _ _ Hn) as [_ [Hl|Hl]]; [|lia].
  apply nodeInv_writer; [done| |by rewrite Ew|done]. intros ep' [= <-]. right. split; [done|congruence].
Qed.

Lemma inv_apply s n ep isr data : apply_clean Apply -> inv s -> writer (node s n) = Checked ep isr data -> inv (apply_ Apply fresh n ep isr data s).
Proof.
  intros Hcl Hi Hw. pose proof (v_node _ _ _ _ _ _ _ Hi n) as Hn. unfold apply_, on.
  destruct (applyData_ok Apply data (eng (node s n)) Hcl) as (e' & o & -> & Ho). rewrite set_writer. apply inv_set_same; [done|done|].
  destruct Ho as [(-> & -> & _)|([r ->] & -> & _)].
  - replace (set_fsm (fsm (eng (node s n))) (eng (node s n))) with (eng (node s n)) by (by destruct (eng (node s n))). rewrite eng_same.
    apply nodeInv_writer; [done|done|by rewrite Hw|done].
  - destruct Hn as [(ids & P1 & P2 & P3) I2 I3 I4 I5 I6 I7 I8 I9 I10 I11 I12 I13 I14 I15]. rewrite Hw in *.
    split; cbn [eng writer taken installing accepted lost with_writer with_eng]; try done.
    + exists ids. split_and!; try done. by apply set_fsm_pipe.
    + destruct I7 as (l & H1 & H2 & H3). exists l. split_and!; try done. intros Hr Hp. cbn. by rewrite (H2 Hr Hp).
Qed.

Lemma frontier_last (e : Engine F) : lastApplied e < lastSeq e -> appliedFrontierLocked e = (lastSeq e, lastSeqEpoch e).
Proof. intros H. unfold appliedFrontierLocked. by rewrite (proj2 (Z.ltb_ge _ _)) by lia. Qed.

Lemma nodeInv_register (s s' : Sys) n nd ids' ep isr data e' p : later fresh s s' -> nodeInv s n nd -> writer nd = Applied ep isr data -> pipe e' ids' ->
  registers cl n ep data (eng nd) e' p -> pSeq p < 2 ^ 62 ->
  (forall k, is_Some (assigned s' !! k) -> is_Some (assigned s !! k) \/ k = (ep, pSeq p)) ->
  assigned s' !! (ep, pSeq p) = Some ((appliedFrontierLocked (eng nd)).2, data) -> required s' !! (ep, pSeq p) = Some (pPeers p) ->
  nodeInv s' n (with_writer (Shipping p) (with_eng e' nd)).
Proof.
  intros Hl [(ids & P1 & P2 & P3) I2 I3 I4 I5 I6 I7 I8 I9 I10 I11 I12 I13 I14 I15] Hw Hp
    [G1 G2 [G3 _] _ _ G6 G7 G8 (L1 & L2 & L3 & L4) (S1 & S2 & S3 & S4 & S5 & S6 & S7 & S8 & S9 & _)] Hb Hnew HG Hreq.
  destruct (I5 ep) as [Hep Hown]; [by rewrite Hw|]. pose proof (frontier_max (eng nd)) as Hfm.
  assert (Hf : appliedFrontierLocked e' = (pSeq p, ep)) by (rewrite frontier_last, L1, L2; [done|rewrite L1, L3; lia]).
  assert (Hm : msgOk s' n (pMsg p)) by (rewrite G2; split_and!; cbn; [done|lia|lia|lia|done]).
  split; cbn [eng writer taken installing accepted lost with_writer with_eng]; rewrite ?L1, ?L2, ?L3, ?L4, ?S2, ?S4, ?S6, ?S7, ?S8, ?S9, ?Hf; try done.
  - exists ids'. split_and!; try done. lia.
  - split; [done|]. intros x Hx. destruct (G8 x Hx) as [H|H]; [eapply msgOk_later; [done|by apply I2]|]. subst x. rewrite G2 in Hm.
    unfold entryMsg. cbn. replace (pSeq p - 1) with ((appliedFrontierLocked (eng nd)).1) by lia. done.
  - split; [lia|]. lia.
  - intros ep' seq Hs Hn. destruct (Hnew _ Hs) as [H|H].
    + destruct (I6 ep' seq H Hn) as [H1 H2]. split; [done|]. cbn. intros [H3|H3]; [|done]. specialize (H2 (or_introl H3)). lia.
    + injection H as -> ->. split; [done|]. cbn. lia.
  - destruct I7 as (l & H1 & H2 & H3). exists (l ++ [(ep, pSeq p, data)]). split_and!.
    + rewrite G1 in *. apply (logOf_next _ _ (appliedFrontierLocked (eng nd)).2); [lia| |done].
      eapply logOf_mono; [apply Hl|]. by destruct (appliedFrontierLocked (eng nd)).
    + intros Hr Hpo. rewrite S1, (H2 (l_raced _ _ _ Hl Hr) Hpo), Hw. cbn. unfold replay. by rewrite foldl_app.
    + intros x Hx. destruct (H3 x Hx) as [H|H]; [|by right]. left. rewrite fmap_app. apply elem_of_app. by left.
  - intros q m (ms & Hq & Hm'). eapply msgOk_later; [done|]. apply (I9 q). exists ms. by rewrite <- S3.
  - intros q x Hx. eapply (carries_later _ _ _ _ Hl (fun _ => False)); [done|]. by eapply I10.
  - destruct (newRec_ok ep (pSeq p) (pPeers p) G3) as [N1 N2]. eapply recOk_to; [|apply G6|].
    + apply Forall_app. split; [apply P1|by constructor].
    + intros id r [Hr|[_ Hr]]%lookup_app_Some; [eapply recOk_later; [done|by eapply I11]|].
      apply list_lookup_singleton_Some in Hr as [_ <-]. split; [|by unfold newRec; destruct (_ <=? _)].
      exists (pPeers p). split; [by unfold newRec; destruct (_ <=? _)|]. intros q Hq. left. by rewrite N2.
  - intros st Hst. destruct (I12 st Hst) as (H1 & H2 & H3). split_and!; try done. by eapply bufOk_later, H3.
  - intros c b Hc. destruct (I13 c b Hc) as (H1 & H2 & H3). split_and!; try done. by eapply bufOk_later, H3.
  - intros E fs fe blob Ht. destruct (I14 _ _ _ _ Ht) as (H1 & H2). split; [done|]. by eapply bufOk_later, H2.
  - by intros q [= ->].
Qed.

Lemma inv_register s n ep isr data now : inv s -> writer (node s n) = Applied ep isr data -> (appliedFrontierLocked (eng (node s n))).1 + 1 < 2 ^ 62 ->
  inv (register cl fresh n ep isr data now s).
Proof.
  intros Hi Hw Hb. pose proof (v_node _ _ _ _ _ _ _ Hi n) as Hn. destruct (n_pipe _ _ _ _ _ _ _ _ _ Hn) as (ids & P1 & P2 & P3).
  destruct (n_own _ _ _ _ _ _ _ _ _ Hn ep) as [Hep Hown]; [by rewrite Hw|].
  destruct (proposeRegister_ok cl n ep isr data now (eng (node s n)) ids P1) as (e' & ids' & p & H1 & Hp & _ & Hreg);
    [apply (n_ring _ _ _ _ _ _ _ _ _ Hn)|done|apply (n_marks _ _ _ _ _ _ _ _ _ Hn)|done| |].
  { intros Hne. apply P3; [done|]. rewrite (P2 Hne ep); [done|by rewrite Hw]. }
  pose proof (g_seq _ _ _ _ _ _ _ Hreg) as Hseq. pose proof (g_msg _ _ _ _ _ _ _ Hreg) as Hmsg.
  assert (Hnone : assigned s !! (ep, pSeq p) = None).
  { apply eq_None_not_Some. intros Hs. destruct (n_seqs _ _ _ _ _ _ _ _ _ Hn ep (pSeq p) Hs Hown) as [_ H]. rewrite Hw in H. specialize (H (or_intror eq_refl)). lia. }
  unfold register, on. rewrite H1, set_writer. cbn [nodes assigned required catchup replies shrinks acked raced rewound panicked setNode]. rewrite Hmsg. cbn [PrevEpoch].
  match goal with |- ReplInv.inv _ _ _ _ _ _ ?x => set (s' := x) end.
  assert (Hnode : node s' n = with_writer (Shipping p) (with_eng e' (node s n))) by (unfold Replication.node at 1; cbn; by rewrite lookup_insert_eq).
  assert (Hne : forall n', n' <> n -> node s' n' = node s n') by (intros n' Hn'; unfold Replication.node; cbn; by rewrite lookup_insert_ne).
  assert (Hl : later fresh s s').
  { split; cbn; try done.
    - by apply insert_subseteq.
    - apply insert_subseteq, eq_None_not_Some. intros Hs. apply (v_dom _ _ _ _ _ _ _ Hi) in Hs. rewrite Hnone in Hs. by destruct Hs.
    - intros n'. destruct (decide (n' = n)) as [->|Hd]; [by rewrite Hnode|by rewrite Hne]. }
  assert (Hnew : forall k, is_Some (assigned s' !! k) -> is_Some (assigned s !! k) \/ k = (ep, pSeq p)).
  { intros k. cbn. destruct (decide (k = (ep, pSeq p))) as [->|Hd]; [by right|]. rewrite lookup_insert_ne by done. by left. }
  eapply (inv_step _ _ _ _ _ _ s s' n Hi Hl Hne); try (by left); try apply Hi.
  - intros ep' seq Hs. destruct (Hnew _ Hs) as [?|[= -> ->]]; [by left|by right].
  - rewrite Hnode. eapply (nodeInv_register s s' n _ ids'); try done; [lia|cbn; by rewrite lookup_insert_eq..].
  - intros k. cbn. destruct (decide (k = (ep, pSeq p))) as [->|Hd]; [rewrite !lookup_insert_eq; by eexists|]. rewrite !lookup_insert_ne by done. apply Hi.
Qed.

Lemma inv_ship s n p inline now : inv s -> writer (node s n) = Shipping p -> inv (ship cl fresh n p inline now s).
Proof.
  intros Hi Hw. pose proof (v_node _ _ _ _ _ _ _ Hi n) as Hn. destruct (n_pipe _ _ _ _ _ _ _ _ _ Hn) as (ids & Hp).
  pose proof (n_ship _ _ _ _ _ _ _ _ _ Hn p Hw) as Hm. unfold ship, on.
  destruct (proposeShip_ok cl (excused s) (queues s n) (sends s n) (leases n) (rises n (eng (node s n))) inline p now _ ids (proj1 Hp)) as (e' & ids' & -> & Ht);
    [apply (n_lease _ _ _ _ _ _ _ _ _ Hn)|done|done|].
  rewrite set_writer. apply inv_set_same; [done|done|]. apply nodeInv_writer; [by eapply nodeInv_tame|done|cbn [writer with_eng]; by rewrite Hw|done].
Qed.

(** ** The outcome of a write *)

Lemma recOk_acked s r : recOk cl fresh s r -> resolved r = true -> rErr r = None ->
  exists ps, required s !! (rEpoch r, rSeq r) = Some ps /\ (cl = CommitFullISR -> forall p, p ∈ ps -> excused s (rEpoch r) (rSeq r) p).
Proof.
  intros [(ps & H1 & H2) H3] Hr He. exists ps. split; [done|]. intros Hc p Hp. destruct (H2 p Hp) as [H|]; [|done].
  rewrite H3 in H by done. by apply not_elem_of_nil in H.
Qed.

Lemma inv_await s n id deadline : inv s -> inv (await fresh n id deadline s).
Proof.
  intros Hi. pose proof (v_node _ _ _ _ _ _ _ Hi n) as Hn. destruct (n_pipe _ _ _ _ _ _ _ _ _ Hn) as (ids & Hp). unfold await.
  destruct (recs (eng (node s n)) !! id) as [r|] eqn:Er; [|done]. unfold on.
  destruct (awaitDone_ok cl id deadline (eng (node s n)) ids (excused s) r (proj1 Hp) Er) as (e' & o & -> & Hp' & Hs & Ho).
  assert (Hi' : inv (setNode n (with_eng e' (node s n)) s)).
  { apply inv_set_same; [done|done|]. eapply nodeInv_tame; [done|done|]. by eapply steady_at. }
  destruct o as [[err|]|]; try done. destruct (Ho eq_refl) as (r' & Hr' & E1 & E2 & E3 & E4).
  eapply (inv_globals (setNode n (with_eng e' (node s n)) s)); try done; [by left|by left|]. cbn.
  intros ep seq [H|H%list_elem_of_singleton]%elem_of_app; [by left|]. right. injection H as -> ->.
  pose proof (v_node _ _ _ _ _ _ _ Hi' n) as Hn'. rewrite node_set in Hn'. rewrite <- E1, <- E2.
  exact (recOk_acked _ _ (n_recs _ _ _ _ _ _ _ _ _ Hn' id r' Hr') E3 E4).
Qed.

Lemma inv_shrink s n ep isr now : inv s -> inv (shrink cl fresh n ep isr now s).
Proof.
  intros Hi. set (s1 := MkSys (nodes s) (assigned s) (required s) (catchup s) (replies s) (shrinks s ++ [(ep, isr)]) (acked s) (raced s) (rewound s) (panicked s)).
  assert (Hi1 : inv s1). { eapply (inv_globals s); try done; [|by left..]. intros x Hx. cbn. apply elem_of_app. by left. }
  pose proof (v_node _ _ _ _ _ _ _ Hi1 n) as Hn. change (node s1 n) with (node s n) in Hn. destruct (n_pipe _ _ _ _ _ _ _ _ _ Hn) as (ids & Hp). unfold shrink, on.
  destruct (ShrinkISR_ok cl (queues s1 n) (sends s1 n) (leases n) (rises n (eng (node s n))) ep isr now _ ids (proj1 Hp)) as (e' & ids' & -> & Ht);
    [apply (n_lease _ _ _ _ _ _ _ _ _ Hn)|].
  change (inv (setNode n (with_eng e' (node s1 n)) s1)). apply inv_set_same; [done|done|]. eapply nodeInv_tame; [done|done|].
  assert (HJ : forall a b c, released ep isr a b c -> excused s1 a b c).
  { intros a b c [-> Hc]. right. exists isr. split; [|done]. cbn. apply elem_of_app. right. by apply list_elem_of_singleton. }
  destruct Ht as [T1 T2 T3 T4 T0 T5 T6 T7 T8 T9 T10]. split; try done. by eapply (recs_to_trans cl _ _ _ _ _ _ HJ HJ), recs_to_refl.
Qed.

(** ** Catching a learner up *)

Lemma inv_post s n p x : inv s -> carries (msgOk s n) (chunkOk f0 Apply SnapshotFSM primaryOf s n) x -> inv (post n p x s).
Proof.
  intros Hi Hx. eapply (inv_globals s); try done; [by left| |by left]. cbn. intros n' p' x' [H|H%list_elem_of_singleton]%elem_of_app; [by left|].
  right. injection H as -> -> ->. exact Hx.
Qed.

Lemma inv_backfill s n p E k gap : inv s -> position k = true -> inv (backfill fresh n p E k gap s).
Proof.
  intros Hi [H1%Z.leb_le H2%Z.ltb_lt]%andb_true_iff. pose proof (v_node _ _ _ _ _ _ _ Hi n) as Hn. destruct (n_ring _ _ _ _ _ _ _ _ _ Hn) as [Hr He].
  unfold backfill, on. destruct (backfillRound_ok E k gap (eng (node s n)) Hr) as (o & -> & Hnp & Ho); [lia|]. rewrite eng_same.
  assert (Hi' : inv (setNode n (node s n) s)) by (by apply inv_set_same).
  destruct o as [[[]|[|m ms]]| |]; try done. apply inv_post; [done|]. destruct (Ho _ eq_refl) as [(ep & Hrun & Hall) _]. cbn. split.
  - apply Forall_forall. intros m' Hm'. destruct (Hall m' Hm') as (x & Hx & ->). by apply He.
  - exists m, ms. split; [done|]. destruct (Hrun 0%nat m eq_refl) as [-> ->]. replace (k + 1 + Z.of_nat 0) with (k + 1) by lia. done.
Qed.

(** ** Snapshots *)

Lemma inv_take s n E now : inv s -> idle fresh s n = true -> 0 <= now -> inv (take_ SnapshotFSM fresh n E now s).
Proof.
  intros Hi Hid Hnow. pose proof (v_node _ _ _ _ _ _ _ Hi n) as Hn. unfold take_, on.
  destruct (takeSnapshot_ok SnapshotFSM E now (eng (node s n))) as (o & -> & Hnp & Ho). rewrite eng_same.
  assert (Hi' : inv (setNode n (node s n) s)) by (by apply inv_set_same).
  destruct o as [[[blob fs] fe]| |]; try done. rewrite node_set, set_set. apply inv_set_same; [done|done|].
  destruct (Ho _ _ _ eq_refl) as (H1 & H2 & H3 & H4 & H5). unfold idle in Hid. destruct (writer (node s n)) eqn:Ew; try done.
  assert (Hown : primaryOf E = n) by (destruct (n_lease _ _ _ _ _ _ _ _ _ Hn) as [_ [Hl|Hl]]; [congruence|lia]).
  destruct Hn as [I1 I2 I3 I4 I5 I6 I7 I8 I9 I10 I11 I12 I13 I14 I15]. rewrite Ew in *.
  split; cbn [eng writer taken installing accepted lost]; rewrite ?Ew; try done.
  intros E' fs' fe' blob' [H|H%list_elem_of_singleton]%elem_of_app; [by apply I14|]. injection H as -> -> -> ->. split; [done|].
  destruct I7 as (l & L1 & L2 & _). destruct I1 as (ids & Hp & _). pose proof (frontier_max (eng (node s n))) as Hfm. rewrite H4 in L1, Hfm. cbn in Hfm.
  pose proof (p_marks _ _ Hp). split; [lia|]. exists l. split; [done|]. intros Hr. exists blob. split_and!; try done.
  cbn in L2. rewrite <- L2; try done. destruct (poisoned (eng (node s n))) eqn:Epo; [|done]. exfalso. apply (I8 eq_refl). congruence.
Qed.

Lemma chunkAt_ok E fs fe blob off c : chunkAt E fs fe blob off = Ok c ->
  exists a b, blob = a ++ cData c ++ b /\ blen a = cOffset c /\ cEpoch c = E /\ cFrontierSeq c = fs /\ cFrontierEpoch c = fe /\ cTotal c = blen blob.
Proof.
  unfold chunkAt. set (end_ := if _ <? _ then _ else _). intros H. apply bind_Ok in H as (d & Hd & H). injection H as <-. cbn.
  pose proof (slice_Ok_inv _ _ _ _ Hd) as (_ & H1 & H2). rewrite slice_in in Hd by lia. injection Hd as <-.
  exists (take (Z.to_nat off) blob), (drop (Z.to_nat end_) blob). split_and!; try done; [|len].
  replace (drop (Z.to_nat end_) blob) with (drop (Z.to_nat (end_ - off)) (drop (Z.to_nat off) blob)) by (rewrite drop_drop; f_equal; lia).
  by rewrite !take_drop.
Qed.

Lemma inv_chunk s n p i off : inv s -> inv (chunk fresh n p i off s).
Proof.
  intros Hi. unfold chunk. destruct (taken (node s n) !! i) as [[[E [fs fe]] blob]|] eqn:Et; [|done]. destruct (chunkAt E fs fe blob off) as [c| |] eqn:Ec; try done.
  apply inv_post; [done|]. destruct (chunkAt_ok _ _ _ _ _ _ Ec) as (a & b & E1 & E2 & E3 & E4 & E5 & E6).
  destruct (n_taken _ _ _ _ _ _ _ _ _ (v_node _ _ _ _ _ _ _ Hi n) E fs fe blob) as (H1 & H2); [by eapply list_elem_of_lookup_2|].
  cbn. split; [congruence|]. rewrite E4, E5, E6. apply (bufOk_later f0 Apply SnapshotFSM fresh s s (later_refl _ _) _ _ _ (fun b => b = blob)); [|exact H2]. cbn. intros b' ->. by exists a, b.
Qed.

(** ** Receiving *)

(** In a run the numbers up to a bound are those of a prefix. *)
Lemma run_filter ep b : forall ms s, run ep s ms -> filter (fun m => Seq m <= b) ms = take (Z.to_nat (b - s + 1)) ms.
Proof.
  induction ms as [|m ms IH]; intros s Hr; [by rewrite take_nil|]. destruct (Hr 0%nat m eq_refl) as [_ Hs]. pose proof (run_tail _ _ _ _ Hr) as Ht.
  destruct (decide (s <= b)) as [Hle|Hgt].
  - rewrite filter_cons_True by lia. replace (Z.to_nat (b - s + 1)) with (S (Z.to_nat (b - (s + 1) + 1))) by lia. cbn [take]. f_equal. by apply IH.
  - rewrite filter_cons_False by lia. rewrite (IH (s + 1) Ht). replace (Z.to_nat (b - s + 1)) with 0%nat by lia.
    by replace (Z.to_nat (b - (s + 1) + 1)) with 0%nat by lia.
Qed.

Definition got (l : list (Z * Z)) (e : Engine F) (nd : Node) : Node := MkNode e (writer nd) (taken nd) (installing nd) (list_to_set l ∪ accepted nd) (lost nd).

Definition applying (w : phase) : Prop := match w with Applied _ _ _ => True | _ => False end.

Lemma nodeInv_accepts s n nd ids src m e' ids' : nodeInv s n nd -> pipeInv n nd ids -> msgOk s src m -> src <> n ->
  accepts cl Apply m (eng nd) e' ids ids' -> (applying (writer nd) -> raced s = true) ->
  nodeInv s n (got [(Epoch m, Seq m)] e' nd) /\ pipeInv n (got [(Epoch m, Seq m)] e' nd) ids'.
Proof.
  intros [_ I2 I3 I4 I5 I6 I7 I8 I9 I10 I11 I12 I13 I14 I15] (P1 & P2 & P3) (M1 & M2 & M3 & M4) Hsrc Hacc Hrace.
  pose proof (accepts_frontier _ _ _ _ _ _ _ Hacc) as Hf. pose proof (frontier_max (eng nd)) as Hfm.
  destruct Hacc as [A1 (N1 & N2 & N3) [E1 E2] A4 A5 (L1 & L2 & L3 & L4) (S1 & S2 & S3 & S4 & S5 & S6 & S7 & S8 & S9) A8 A9 _].
  assert (Hpi : pipeInv n (got [(Epoch m, Seq m)] e' nd) ids').
  { split; [done|]. cbn [eng writer got]. split; intros Hne.
    - assert (He : epoch e' = epoch (eng nd)) by (destruct (decide (epoch (eng nd) < epoch e')) as [Hlt|]; [by apply A4 in Hlt|lia]). rewrite He. by apply P2, A5.
    - rewrite E2, M4. by intros ->. }
  split; [|done]. split; cbn [eng writer taken installing accepted lost got]; rewrite ?L1, ?L2, ?L3, ?L4, ?S1, ?S4, ?S6, ?S7, ?S8, ?S9, ?Hf; try done.
  - exists ids'. destruct Hpi as (Q1 & Q2 & Q3). cbn [eng got] in Q3. rewrite L1, L3 in Q3. done.
  - split; lia.
  - split; [lia|apply I4].
  - intros ep Hc. destruct (I5 ep Hc). split; [lia|done].
  - intros ep seq Hs Hn. destruct (I6 ep seq Hs Hn) as [H1 H2]. split; [lia|]. cbn. intros [H|H]; [exfalso; rewrite H, E2 in Hn; congruence|].
    specialize (H2 (or_intror H)). lia.
  - destruct I7 as (l & H1 & H2 & H3). exists (l ++ [(Epoch m, Seq m, Data m)]). split_and!.
    + rewrite N1 in *. eapply logOf_next; [lia| |rewrite M1, N3; done]. by destruct (appliedFrontierLocked (eng nd)).
    + intros Hr _. rewrite S2, (H2 Hr S3). destruct (writer nd); try (unfold ReplInv.stateOf, replay; by rewrite foldl_app). by rewrite Hrace in Hr.
    + intros x Hx. rewrite fmap_app, elem_of_app. apply elem_of_union in Hx as [Hx|Hx]; [|by destruct (H3 x Hx); auto].
      left. right. apply elem_of_list_to_set, list_elem_of_singleton in Hx as ->. by apply list_elem_of_singleton.
  - intros q m' Hm. by eapply I9, A9.
  - eapply recOk_to; [apply P1|apply A8|done].
  - intros st Hst. destruct (I12 st Hst) as (H1 & H2). split; [lia|done].
  - intros c b Hc. destruct (I13 c b Hc) as (H1 & H2). split; [lia|done].
Qed.

Lemma got_more x l e e1 nd : got l e (got [x] e1 nd) = got (x :: l) e nd.
Proof. unfold got. cbn. f_equal. apply set_eq. intros y. rewrite !elem_of_union, !elem_of_empty. tauto. Qed.

Lemma got_none nd : got [] (eng nd) nd = nd.
Proof. unfold got. destruct nd. cbn. f_equal. apply set_eq. intros y. rewrite elem_of_union, elem_of_empty. tauto. Qed.

Lemma nodeInv_run s n src ms : Forall (msgOk s src) ms -> src <> n -> forall nd ids e' ids', nodeInv s n nd -> pipeInv n nd ids ->
  accepted_run cl Apply ms (eng nd) e' ids ids' -> (ms <> [] -> applying (writer nd) -> raced s = true) ->
  nodeInv s n (got ((fun m => (Epoch m, Seq m)) <$> ms) e' nd) /\ pipeInv n (got ((fun m => (Epoch m, Seq m)) <$> ms) e' nd) ids'.
Proof.
  intros Hms Hsrc. induction Hms as [|m ms Hm Hms IH]; intros nd ids e' ids' Hn Hp Hrun Hrace; inversion Hrun as [|m0 ms0 e1 e2 e3 i1 i2 i3 Ha Hr]; subst.
  - cbn [fmap list_fmap]. by rewrite got_none.
  - destruct (nodeInv_accepts s n nd ids src m e2 i2 Hn Hp Hm Hsrc) as [Q1 Q2]; [done|by apply Hrace|].
    destruct (IH _ _ _ _ Q1 Q2 Hr) as [Q3 Q4]; [intros _; by apply Hrace|]. by rewrite got_more in Q3, Q4.
Qed.

(** As [tame], adding nothing; the epoch may rise to one of the node [src]. *)
Definition tameFrom (src : string) (e e' : Engine F) (ids ids' : list nat) : Prop :=
  tame cl (fun _ _ _ => False) (fun _ _ => False) (fun _ _ => False) (fun _ => False) (fun ep => primaryOf ep = src) e e' ids ids'.

Lemma tameFrom_at s n src e e' ids ids' : src <> n -> tameFrom src e e' ids ids' -> tameAt s n e e' ids ids'.
Proof. intros Hne. apply tame_impl; try done. intros ep Hep _. congruence. Qed.

Lemma inv_received s n src ms ids e1 ids1 e' ids' : inv s -> src <> n -> Forall (msgOk s src) ms -> pipeInv n (node s n) ids ->
  accepted_run cl Apply ms (eng (node s n)) e1 ids ids1 -> tameFrom src e1 e' ids1 ids' ->
  let s' := accept fresh n ((fun m => (Epoch m, Seq m)) <$> ms) (setNode n (with_eng e' (node s n)) s) in
  inv s' /\ later fresh s s' /\ forall m, m ∈ ms -> (Epoch m, Seq m) ∈ accepted (node s' n).
Proof.
  intros Hi Hsrc Hms Hp Hrun Ht. set (l := (fun m => (Epoch m, Seq m)) <$> ms). set (s1 := accept _ _ _ _). cbn zeta.
  assert (Hnode : node s1 n = got l e' (node s n)).
  { unfold s1, accept. rewrite node_set, set_set. unfold Replication.node at 1. cbn. by rewrite lookup_insert_eq. }
  assert (Hne : forall n', n' <> n -> node s1 n' = node s n').
  { intros n' Hn'. unfold s1, accept. rewrite node_set, set_set. unfold Replication.node. cbn. by rewrite lookup_insert_ne. }
  assert (Hrace : raced s1 = raced s || races (writer (node s n)) l) by (unfold s1, accept; by rewrite node_set).
  assert (Hl : later fresh s s1).
  { split; try done.
    - rewrite Hrace. by intros [? _]%orb_false_iff.
    - intros n'. destruct (decide (n' = n)) as [->|Hd]; [|by rewrite Hne]. rewrite Hnode. cbn. apply union_subseteq_r. }
  assert (Hn1 : nodeInv s1 n (node s n)) by (eapply (nodeInv_later _ _ _ _ _ _ s); [done|done|apply Hi]).
  destruct (nodeInv_run s1 n src ms) with (nd := node s n) (ids := ids) (e' := e1) (ids' := ids1) as [H1 H2]; try done.
  { intros Hne' Hap. rewrite Hrace. apply orb_true_iff. right. unfold l. destruct (writer (node s n)); try done. by destruct ms. }
  split_and!; [|done|].
  2:{ intros m Hm. rewrite Hnode. cbn. apply elem_of_union_l, elem_of_list_to_set, list_elem_of_fmap. by exists m. }
  apply (inv_step _ _ _ _ _ _ s s1 n Hi Hl Hne); try (by left); try apply Hi.
  rewrite Hnode. change (got l e' (node s n)) with (with_eng e' (got l e1 (node s n))). eapply nodeInv_tame; [done|done|]. by eapply tameFrom_at.
Qed.

Lemma frontier_range s n : inv s -> 0 <= (appliedFrontierLocked (eng (node s n))).1 < 2 ^ 62.
Proof.
  intros Hi. pose proof (v_node _ _ _ _ _ _ _ Hi n) as Hn. destruct (n_pipe _ _ _ _ _ _ _ _ _ Hn) as (ids & Hp & _). pose proof (p_marks _ _ Hp).
  pose proof (n_marks _ _ _ _ _ _ _ _ _ Hn). rewrite frontier_max. lia.
Qed.

Lemma receive_inv s n src m now : apply_clean Apply -> inv s -> src <> n -> msgOk s src m ->
  exists e' a, Receive cl Apply m now (eng (node s n)) = (e', Ok a) /\
    let s' := accept fresh n (acceptedBy (Single m) a) (setNode n (with_eng e' (node s n)) s) in inv s' /\ later fresh s s' /\ replyOk fresh s' n (Single m) a.
Proof.
  intros Hcl Hi Hsrc Hm. pose proof (v_node _ _ _ _ _ _ _ Hi n) as Hn. destruct (n_pipe _ _ _ _ _ _ _ _ _ Hn) as (ids & Hp).
  destruct (receiveLocked_ok cl Apply (fun _ _ _ => False) (fun _ _ => False) (fun _ _ => False) (fun _ => False) (fun ep => primaryOf ep = src)
    m now (eng (node s n)) ids Hcl (proj1 Hp) (fun _ => proj2 (proj2 (proj2 Hm))) (frontier_range s n Hi)) as (e' & ids' & a & H1 & Hcase).
  exists e', a. split; [exact H1|]. destruct Hcase as [(Ha & _ & Ht)|[-> Hacc]].
  - destruct (inv_received s n src [] ids _ ids e' ids' Hi Hsrc (List.Forall_nil _) Hp (run_none _ _ _ _ (proj1 Hp)) Ht) as (Q1 & Q2 & _).
    cbn [acceptedBy fmap list_fmap replyOk] in *. rewrite Ha. cbn zeta. by split_and!.
  - destruct (inv_received s n src [m] ids e' ids' e' ids' Hi Hsrc ltac:(by constructor) Hp) as (Q1 & Q2 & Q3).
    { econstructor; [done|]. constructor. apply Hacc. }
    { apply tame_refl, Hacc. }
    cbn [acceptedBy OK fmap list_fmap replyOk] in *. cbn zeta. split_and!; try done. intros _ _ _. apply Q3. by constructor.
Qed.

Lemma receiveGroup_inv s n src m rest now : apply_clean Apply -> inv s -> src <> n -> carries (msgOk s src) (fun _ => False) (Group (m :: rest)) ->
  exists e' a, ReceiveGroup cl Apply (m :: rest) now (eng (node s n)) = (e', Ok a) /\
    let s' := accept fresh n (acceptedBy (Group (m :: rest)) a) (setNode n (with_eng e' (node s n)) s) in inv s' /\ later fresh s s' /\ replyOk fresh s' n (Group (m :: rest)) a.
Proof.
  intros Hcl Hi Hsrc [Hall (m0 & rest0 & [= <- <-] & Hrun)]. pose proof (v_node _ _ _ _ _ _ _ Hi n) as Hn. destruct (n_pipe _ _ _ _ _ _ _ _ _ Hn) as (ids & Hp).
  pose proof Hall as Hall'. rewrite Forall_lookup in Hall'. destruct (Hall' 0%nat m eq_refl) as (_ & _ & Hb & Hsr).
  assert (Hb2 : Seq m + blen rest < 2 ^ 62).
  { rewrite <- (run_last _ _ _ _ Hrun). destruct (last rest) as [m'|] eqn:E1; cbn; [|lia]. rewrite last_lookup in E1.
    destruct rest as [|m2 ms]; [done|]. apply (Hall' (S (length ms)) m' E1). }
  destruct (ReceiveGroup_ok cl Apply (fun _ _ _ => False) (fun _ _ => False) (fun _ _ => False) (fun _ => False) (fun ep => primaryOf ep = src)
    m rest now (eng (node s n)) ids Hcl Hrun ltac:(lia) Hb2 (proj1 Hp) (fun _ => Hsr) (frontier_range s n Hi))
    as (e1 & ids1 & e' & ids' & a & k & H1 & Hacc & Ht & Hk & Hae & Has & Hok).
  exists e', a. split; [exact H1|].
  destruct (inv_received s n src (take k (m :: rest)) ids e1 ids1 e' ids' Hi Hsrc) as (Q1 & Q2 & Q3); try done.
  { by apply Forall_take. }
  assert (Hf : filter (fun m' => Seq m' <= AckSeq a) (m :: rest) = take k (m :: rest)) by (rewrite (run_filter _ _ _ _ Hrun); f_equal; lia).
  cbn [acceptedBy]. rewrite Hf. cbn zeta. split_and!; try done. cbn [replyOk]. intros m' Hm' _ Hle. apply Q3. rewrite <- Hf. by apply list_elem_of_filter.
Qed.

(** ** Receiving a snapshot *)

Abbreviation bufOk := (@ReplInv.bufOk F f0 Apply SnapshotFSM).
Abbreviation chunkOk := (@ReplInv.chunkOk F f0 Apply SnapshotFSM primaryOf).

Lemma nodeInv_stage s n nd st : nodeInv s n nd ->
  (forall x, st = Some x -> sEpoch x <= epoch (eng nd) /\ primaryOf (sEpoch x) <> n /\ bufOk s (sFrontierSeq x) (sFrontierEpoch x) (sTotal x) (fun blob => sBuf x `prefix_of` blob)) ->
  nodeInv s n (with_eng (set_snapStage st (eng nd)) nd).
Proof.
  intros [(ids & P1 & P2 & P3) I2 I3 I4 I5 I6 I7 I8 I9 I10 I11 I12 I13 I14 I15] Hst. split; cbn [eng writer taken installing accepted lost with_eng]; try done.
  exists ids. split_and!; try done. by eapply (pipe_frame (eng nd)).
Qed.

Lemma prefix_same (a b c : bytes) : a `prefix_of` b ++ c -> blen a = blen b -> a = b.
Proof.
  intros [k Hk] Hl. apply (f_equal (take (length a))) in Hk. rewrite take_app_length in Hk. rewrite <- Hk. unfold blen in Hl.
  replace (length a) with (length b) by lia. by rewrite take_app_length.
Qed.

Lemma assembled_ok s n nd src c b : nodeInv s n nd -> chunkOk s src c -> assembled (eng nd) c b ->
  bufOk s (cFrontierSeq c) (cFrontierEpoch c) (cTotal c) (fun blob => b `prefix_of` blob).
Proof.
  intros Hn (_ & Hb & l & Hl & Hc) (b0 & -> & Hoff & Hcase). split; [done|]. exists l. split; [done|]. intros Hr.
  destruct (Hc Hr) as (blob & Hs & Ht & a & d & -> & Ha). exists (a ++ cData c ++ d). split_and!; try done.
  assert (Heq : b0 = a). 2:{ subst b0. rewrite app_assoc. by apply prefix_app_r. }
  destruct Hcase as [->|(_ & s0 & Hs0 & <- & Hsame)]. { destruct a; [done|]. rewrite blen_cons in Ha. change (blen []) with 0 in Hoff. pose proof (blen_nonneg a). lia. }
  destruct (n_stage _ _ _ _ _ _ _ _ _ Hn s0 Hs0) as (_ & _ & _ & l0 & Hl0 & Hc0). unfold sameTransfer in Hsame.
  apply andb_true_iff in Hsame as [[[_ E1%Z.eqb_eq]%andb_true_iff E2%Z.eqb_eq]%andb_true_iff _]. rewrite E1, E2 in Hl0.
  destruct (Hc0 Hr) as (blob0 & Hs1 & _ & Hp). replace l0 with l in Hs1 by congruence. rewrite Hs in Hs1. injection Hs1 as <-.
  apply (prefix_same _ _ _ Hp). lia.
Qed.

Definition with_installing (o : option (SnapshotChunk * bytes)) (nd : Node) : Node := MkNode (eng nd) (writer nd) (taken nd) o (accepted nd) (lost nd).

Lemma chunk_inv s n src c now : inv s -> src <> n -> chunkOk s src c ->
  exists e' r, ReceiveSnapshotChunk cl c now (eng (node s n)) = (e', Ok r) /\ nodeInv s n (with_eng e' (node s n)) /\
    forall b, r = inr b -> nodeInv s n (with_installing (Some (c, b)) (with_eng e' (node s n))).
Proof.
  intros Hi Hsrc Hc. pose proof (v_node _ _ _ _ _ _ _ Hi n) as Hn. destruct (n_pipe _ _ _ _ _ _ _ _ _ Hn) as (ids & Hp).
  destruct (ReceiveSnapshotChunk_ok cl c now (eng (node s n)) ids (proj1 Hp)) as (e' & ids' & r & H1 & Hp' & [(e0 & Heq & Ht) Hep Hst Hw]).
  assert (Hep0 : epoch e' = epoch e0) by (by rewrite Heq). destruct Hc as [Hprim Hbuf].
  assert (H0 : nodeInv s n (with_eng e0 (node s n))).
  { eapply nodeInv_tame; [done|done|]. eapply (tameFrom_at s n src); [done|]. by apply Ht. }
  assert (H2 : nodeInv s n (with_eng e' (node s n))).
  { rewrite Heq. apply (nodeInv_stage s n (with_eng e0 (node s n)) (snapStage e') H0). cbn [eng with_eng]. rewrite <- Hep0. intros x Hx.
    destruct (Hst x Hx) as (E1 & b & -> & Has). cbn. split_and!; [lia|congruence|]. exact (assembled_ok s n _ src c b Hn (conj Hprim Hbuf) Has). }
  exists e', r. split_and!; try done. intros b Hb. destruct (Hw b Hb) as (E1 & Has & _ & Htot).
  destruct H2 as [I1 I2 I3 I4 I5 I6 I7 I8 I9 I10 I11 I12 I13 I14 I15]. split; try done. cbn. intros c' b' [= <- <-]. split_and!; [lia|congruence|].
  destruct (assembled_ok s n _ src c b Hn (conj Hprim Hbuf) Has) as (B1 & l & B2 & B3). split; [done|]. exists l. split; [done|]. intros Hr.
  destruct (B3 Hr) as (blob & B4 & B5 & B6). exists blob. split_and!; try done. rewrite <- (app_nil_r blob) in B6. apply (prefix_same _ _ _ B6). lia.
Qed.

(** ** Delivery *)

Lemma inv_handle s p src x now (k : AckMsg -> Sys -> Sys) : apply_clean Apply -> inv s -> src <> p -> carries (msgOk s src) (chunkOk s src) x ->
  (forall a s', inv s' -> later fresh s s' -> replyOk fresh s' p x a -> inv (k a s')) -> inv (handle cl Apply fresh p x now k s).
Proof.
  intros Hcl Hi Hsrc Hx Hk. destruct x as [m|[|m rest]|c]; cbn [handle]; unfold on.
  - destruct (receive_inv s p src m now Hcl Hi Hsrc Hx) as (e' & a & -> & Q1 & Q2 & Q3). by apply Hk.
  - destruct Hx as [_ (m & rest & ? & _)]. done.
  - destruct (receiveGroup_inv s p src m rest now Hcl Hi Hsrc Hx) as (e' & a & -> & Q1 & Q2 & Q3). by apply Hk.
  - destruct (chunk_inv s p src c now Hi Hsrc Hx) as (e' & r & -> & H1 & H2).
    assert (Hi' : inv (setNode p (with_eng e' (node s p)) s)) by (by apply inv_set_same).
    destruct r as [a|b]; [apply Hk; [done|by apply later_eng|done]|]. rewrite node_set, set_set. apply inv_set_same; [done|done|]. by apply H2.
Qed.

Lemma inv_deliver s n i now : apply_clean Apply -> inv s -> inv (deliver cl Apply fresh n i now s).
Proof.
  intros Hcl Hi. unfold deliver. destruct (outbox (eng (node s n)) !! i) as [[p x]|] eqn:Eo; [|done]. case_decide as Hd; [done|].
  pose proof (n_out _ _ _ _ _ _ _ _ _ (v_node _ _ _ _ _ _ _ Hi n) p x (list_elem_of_lookup_2 _ _ _ Eo)) as Hx.
  apply (inv_handle s p n); try done.
  - by destruct x.
  - intros a s' Hi' Hl Hr. eapply (inv_globals s'); try done; [|by left|by left]. cbn. intros n' p' x' a' [H|H%list_elem_of_singleton]%elem_of_app; [by left|].
    right. injection H as -> -> -> ->. split; [|done]. eapply (carries_later _ _ s s' Hl (fun _ => False)); [done|exact Hx].
Qed.

Lemma inv_catchup s i now : apply_clean Apply -> inv s -> inv (deliverCatchup cl Apply fresh i now s).
Proof.
  intros Hcl Hi. unfold deliverCatchup. destruct (catchup s !! i) as [[[n p] x]|] eqn:Eo; [|done]. case_decide as Hd; [done|].
  apply (inv_handle s p n); try done. eapply (v_catchup _ _ _ _ _ _ _ Hi n p x). by eapply list_elem_of_lookup_2.
Qed.

(** ** Installing a snapshot *)

(** The snapshot store's contract: what was saved comes back. *)
Definition restores : Prop := forall f g blob, SnapshotFSM f = Some blob -> (InstallFSM g blob).2 = true -> (InstallFSM g blob).1 = f.

(** The node once [forget] has run on the engine [e]. *)
Definition reset (s : Sys) (e : Engine F) (nd : Node) : Node :=
  MkNode e (writer nd) (taken nd) None (accepted nd)
    (lost nd ∪ filter (fun x => x ∉ (default [] (logOf (assigned s) (appliedFrontierLocked e))).*1) (accepted nd)).

Lemma reset_log s e nd l : logOf (assigned s) (appliedFrontierLocked e) = Some l -> forall x, x ∈ accepted nd -> x ∈ l.*1 \/ x ∈ lost (reset s e nd).
Proof.
  intros Hl x Hx. destruct (decide (x ∈ l.*1)) as [|Hn]; [by left|]. right. cbn. rewrite Hl. apply elem_of_union_r, elem_of_filter. done.
Qed.

Lemma nodeInv_reset s n nd : nodeInv s n nd -> nodeInv s n (reset s (eng nd) nd).
Proof.
  intros [I1 I2 I3 I4 I5 I6 I7 I8 I9 I10 I11 I12 I13 I14 I15]. split; try done.
  destruct I7 as (l & H1 & H2 & H3). exists l. split_and!; try done. exact (reset_log s _ nd l H1).
Qed.

Lemma nodeInv_broken s n nd f : nodeInv s n nd -> primaryOf (epoch (eng nd)) <> n -> nodeInv s n (reset s (set_fsm f (set_poisoned true (eng nd))) nd).
Proof.
  intros [(ids & P1 & P2 & P3) I2 I3 I4 I5 I6 I7 I8 I9 I10 I11 I12 I13 I14 I15] Hpo. split; try done.
  - exists ids. split_and!; try done. by eapply (pipe_frame (eng nd)).
  - destruct I7 as (l & H1 & H2 & H3). exists l. split_and!; try done. exact (reset_log s _ nd l H1).
Qed.

Lemma nodeInv_installed s n nd e' fs fe f po total : nodeInv s n nd -> writer nd = Idle -> primaryOf (epoch (eng nd)) <> n -> installed cl fs fe f po (eng nd) e' ->
  bufOk s fs fe total (fun blob => (InstallFSM (fsm (eng nd)) blob).1 = f /\ (InstallFSM (fsm (eng nd)) blob).2 = true) -> restores ->
  nodeInv s n (reset s e' nd).
Proof.
  intros [(ids & P1 & P2 & P3) I2 I3 I4 I5 I6 I7 I8 I9 I10 I11 I12 I13 I14 I15] Hw Hpo [A1 (L1 & L2 & L3 & L4) [R1 R2] (S1 & S2 & S3 & S4 & S5 & S6 & S7 & S8 & S9) A5] (Hb & l & Hl & Hc) Hres.
  assert (Hf : appliedFrontierLocked e' = (fs, fe)) by (unfold appliedFrontierLocked; by rewrite L1, L2, L3, L4, Z.ltb_irrefl).
  split; cbn [eng writer taken installing accepted lost reset]; rewrite ?L1, ?L2, ?L3, ?L4, ?S1, ?S4, ?S5, ?S7, ?S8, ?S9, ?Hf; try done.
  - by exists [].
  - split; [done|]. rewrite R2. by intros x ?%not_elem_of_nil.
  - intros ep seq Hs Hn. destruct (I6 ep seq Hs Hn) as [H1 _]. split; [done|]. rewrite Hw. intros [->|H]; done.
  - exists l. split_and!; [done| |pose proof (reset_log s e' nd l ltac:(by rewrite Hf)) as H; cbn [lost reset] in H; by rewrite Hf in H]. intros Hr _. rewrite Hw. cbn. destruct (Hc Hr) as (blob & C1 & _ & <- & C2). by apply Hres.
  - intros p m (q & Hq & Hm). apply (I9 p m). exists q. by rewrite <- S6.
  - eapply recOk_to; [apply P1|apply A5|done].
Qed.

Lemma inv_install s n commitOK : restores -> inv s -> idle fresh s n = true -> inv (install InstallFSM fresh n commitOK s).
Proof.
  intros Hres Hi Hid. pose proof (v_node _ _ _ _ _ _ _ Hi n) as Hn. unfold idle in Hid. unfold install. destruct (writer (node s n)) eqn:Ew; try done.
  destruct (installing (node s n)) as [[c blob]|] eqn:Ei; [|done]. destruct (n_inst _ _ _ _ _ _ _ _ _ Hn c blob Ei) as (Hep & Hpo & Hb & l & Hl & Hc).
  unfold on. rewrite node_set. cbn [eng]. destruct (n_pipe _ _ _ _ _ _ _ _ _ Hn) as (ids & Hp).
  destruct (installSnapshot_ok cl InstallFSM (cEpoch c) (cFrontierSeq c) (cFrontierEpoch c) blob commitOK (eng (node s n)) ids (proj1 Hp)) as (e' & o & -> & Hnp & Hcase);
    [apply (n_ring _ _ _ _ _ _ _ _ _ Hn)|done|].
  set (s1 := setNode n _ (setNode n _ s)). assert (Hfin : inv (forget fresh n s1)).
  { unfold forget, nodeLog. unfold s1. rewrite set_set, node_set, set_set. apply inv_set_same; [done|done|]. cbn [eng writer taken installing accepted lost with_eng assigned setNode].
    rewrite <- Ew. change (nodeInv s n (reset s e' (node s n))). destruct Hcase as [->|[Hge [->|[Hok Hin]]]]; [by apply nodeInv_reset|..].
    - apply nodeInv_broken; [done|]. by replace (epoch (eng (node s n))) with (cEpoch c) by lia.
    - eapply (nodeInv_installed s n (node s n) e' _ _ _ _ (cTotal c)); try done; [by replace (epoch (eng (node s n))) with (cEpoch c) by lia|].
      split; [done|]. exists l. split; [done|]. intros Hr. destruct (Hc Hr) as (b & C1 & C2 & ->). by exists b. }
  by destruct o.
Qed.

(** ** Every event *)

Theorem exec_inv ev s : apply_clean Apply -> restores -> inv s -> rewound (exec cl Apply SnapshotFSM InstallFSM primaryOf fresh ev s) = false ->
  inv (exec cl Apply SnapshotFSM InstallFSM primaryOf fresh ev s).
Proof.
  intros Hcl Hres Hi. destruct ev; cbn [exec].
  { case_bool_decide; [by apply inv_keep|done]. }
  all: intros _.
  - destruct (_ && _) eqn:E1; [|done]. apply andb_true_iff in E1 as [E1 E2%Z.leb_le]. by apply inv_check.
  - destruct (writer (node s n)) eqn:E1; try done. by apply inv_apply.
  - destruct (writer (node s n)) eqn:E1; try done. destruct (_ <? _) eqn:E2; [|done]. apply Z.ltb_lt in E2. by apply inv_register.
  - destruct (writer (node s n)) eqn:E1; try done. by apply inv_ship.
  - by apply inv_sender.
  - by apply inv_deliver.
  - destruct (replies s !! i) as [[[[n p] x] a]|] eqn:E1; [|done]. destruct (v_replies _ _ _ _ _ _ _ Hi n p x a) as [H1 H2]; [by eapply list_elem_of_lookup_2|].
    apply inv_complete; [done|done|]. by intros a' [= <-].
  - destruct (outbox (eng (node s n)) !! i) as [[p x]|] eqn:E1; [|done]. apply inv_complete; [done| |done].
    pose proof (n_out _ _ _ _ _ _ _ _ _ (v_node _ _ _ _ _ _ _ Hi n) p x (list_elem_of_lookup_2 _ _ _ E1)) as Hx. by destruct x.
  - by apply inv_await.
  - by apply inv_shrink.
  - by apply inv_grow.
  - destruct (position k) eqn:E1; [|done]. by apply inv_backfill.
  - destruct (_ && _) eqn:E1; [|done]. apply andb_true_iff in E1 as [_ E1]. by apply inv_flip.
  - by apply inv_drops.
  - by apply inv_drops.
  - by apply inv_drops.
  - destruct (_ && _) eqn:E1; [|done]. apply andb_true_iff in E1 as [E1 E2%Z.leb_le]. by apply inv_take.
  - by apply inv_chunk.
  - by apply inv_catchup.
  - destruct (idle fresh s n) eqn:E1; [|done]. by apply inv_install.
Qed.

Lemma fresh_pipe cap : NewWithRingCapacity cap (0, 0) false f0 = Ok fresh -> pipe fresh [].
Proof.
  unfold NewWithRingCapacity. destruct (_ <? _); [done|]. cbn. intros [= <-]. split; cbn; try done; [by left|apply NoDup_nil_2].
Qed.

Lemma init_inv cap : cap < 2 ^ 62 -> NewWithRingCapacity cap (0, 0) false f0 = Ok fresh -> inv (@init F).
Proof.
  intros Hcap Hnew. pose proof (fresh_pipe cap Hnew) as Hp. unfold NewWithRingCapacity in Hnew. destruct (Z.ltb_spec cap pipelineWindow) as [|Hge]; [done|].
  cbn in Hnew. injection Hnew as Hnew. destruct (Ring.newRing_ok cap) as (Hr1 & Hr2 & _); [unfold pipelineWindow in Hge; lia|].
  split; try done; try (intros *; by intros ?%not_elem_of_nil).
  2:{ by intros k [x Hx]. }
  intros n. change (node (@init F) n) with (newNode fresh). rewrite <- Hnew in *. split; cbn; try done.
  - by exists [].
  - split; [done|]. rewrite Hr2. by intros x ?%not_elem_of_nil.
  - split; [lia|by right].
  - by intros ep seq [x Hx].
  - exists []. split_and!; try done.
  - by intros p m (q & Hq & _).
  - intros. by apply not_elem_of_nil in H.
  - intros. by apply not_elem_of_nil in H.
Qed.
End Steps.
