(* ===== verification/ReplProps.v ===== *)
(** * What replication guarantees: replicas that end with the same write hold the
    same state, an acknowledged write is on every replica it required, and no
    event brings an engine down, in runs without the mark [rewound] (and, for the first,
    [raced]). *)
From stdpp Require Import strings gmap sets.
From S2P Require Import Prelude Ring Engine EngineInv EngineOps EngineSnap Replication ReplInv ReplSteps.
Import Engine Replication.

(** ** Histories *)

Lemma logTo_len G k : forall ep l, logTo G k ep = Some l -> length l = k.
Proof.
  induction k as [|k IH]; intros ep l; cbn [logTo]; [by destruct (ep =? 0); intros [= <-]|].
  destruct (G !! (ep, Z.of_nat (S k))) as [[pe d]|]; [|done]. cbn. destruct (logTo G k pe) as [l'|] eqn:E1; [|done]. cbn. intros [= <-].
  rewrite length_app, (IH _ _ E1). cbn. lia.
Qed.

(** The history up to a write is determined by that write. *)
Lemma logTo_take G k : forall e l i ep seq d, logTo G k e = Some l -> l !! i = Some (ep, seq, d) ->
  seq = Z.of_nat (S i) /\ logTo G (S i) ep = Some (take (S i) l) /\ exists pe, G !! (ep, seq) = Some (pe, d).
Proof.
  induction k as [|k IH]; intros e l i ep seq d; cbn [logTo]; [by destruct (e =? 0); intros [= <-]|].
  destruct (G !! (e, Z.of_nat (S k))) as [[pe d']|] eqn:E0; [|done]. cbn [mbind option_bind]. destruct (logTo G k pe) as [l'|] eqn:E1; [|done]. cbn [mbind option_bind].
  intros [= <-] Hi. pose proof (logTo_len _ _ _ _ E1) as Hlen. apply lookup_app_Some in Hi as [Hi|[Hge Hi]].
  - destruct (IH _ _ _ _ _ _ E1 Hi) as (H1 & H2 & H3). split_and!; try done. rewrite take_app_le; [done|]. apply lookup_lt_Some in Hi. lia.
  - apply list_lookup_singleton_Some in Hi as [Hz Hi]. injection Hi as <- <- <-. assert (i = k) as -> by lia. split_and!; [done| |by exists pe].
    rewrite take_ge by (rewrite length_app; cbn; lia). cbn [logTo]. rewrite E0. cbn. by rewrite E1.
Qed.

Section Props.
Context {F : Type} (f0 : F) (cl : CommitLevel).
Context (Apply : F -> bytes -> F * option bytes) (SnapshotFSM : F -> option bytes) (InstallFSM : F -> bytes -> F * bool).
Context (primaryOf : Z -> string) (cap : Z) (fresh : Engine F).

Abbreviation run evs := (execs cl Apply SnapshotFSM InstallFSM primaryOf fresh evs init).
Abbreviation node := (node fresh).
Abbreviation nodeLog := (nodeLog fresh).

(** What is assumed: the applier and the snapshot store keep their contracts, the
    engines are fresh. *)
Record setting : Prop := {
  st_apply : apply_clean Apply;
  st_restores : restores SnapshotFSM InstallFSM;
  st_cap : cap < 2 ^ 62;
  st_fresh : NewWithRingCapacity cap (0, 0) false f0 = Ok fresh;
}.

(** The mark of a promotion that took the numbering back stays. *)
Lemma handle_rewound s p x now k : (forall a s', rewound s' = rewound s -> rewound (k a s') = rewound s) -> rewound (handle cl Apply fresh p x now k s) = rewound s.
Proof. intros Hk. destruct x as [m|ms|c]; cbn [handle]; apply on_rewound; intros a s' Hs; [by apply Hk|by apply Hk|]. destruct a; [by apply Hk|done]. Qed.

Lemma complete_rewound s n p x a now : rewound (complete cl fresh n p x a now s) = rewound s.
Proof. destruct x as [m|[|m ms]|c]; try done; by apply on_rewound. Qed.

Lemma exec_rewound ev s : rewound (exec cl Apply SnapshotFSM InstallFSM primaryOf fresh ev s) = false -> rewound s = false.
Proof.
  destruct ev; cbn [exec].
  { case_bool_decide; [|done]. unfold keep. rewrite on_rewound by done. cbn. by intros [? _]%orb_false_iff. }
  all: intros <-; symmetry; repeat case_match; try done; try (by apply on_rewound); try apply complete_rewound.
  - apply on_rewound. by intros [] s'.
  - unfold deliver. repeat case_match; try done. by apply handle_rewound.
  - unfold await. destruct (recs _ !! id); [|done]. apply on_rewound. by intros [[]|] s'.
  - apply on_rewound. by intros [|[]] s'.
  - apply on_rewound. by intros [[b fs] fe] s'.
  - unfold chunk. by repeat case_match.
  - unfold deliverCatchup. repeat case_match; try done. by apply handle_rewound.
  - unfold install. destruct (installing _) as [[c b]|]; [|done]. unfold forget. cbn. by rewrite on_rewound.
Qed.

Lemma run_inv evs : setting -> rewound (run evs) = false -> inv f0 cl Apply SnapshotFSM primaryOf fresh (run evs).
Proof.
  intros [H1 H2 H3 H4]. unfold execs. induction evs as [|ev evs IH] using rev_ind; [intros _; by eapply init_inv|].
  rewrite foldl_app. cbn [foldl]. intros Hr. apply exec_inv; [done|done| |done]. by eapply IH, exec_rewound.
Qed.

Lemma run_rewound evs evs' : rewound (run (evs ++ evs')) = false -> rewound (run evs) = false.
Proof.
  induction evs' as [|ev evs' IH] using rev_ind; [by rewrite app_nil_r|]. rewrite app_assoc. unfold execs. rewrite (foldl_app _ _ [ev]). cbn [foldl].
  intros Hr. by eapply IH, exec_rewound.
Qed.

(** A node whose state machine stands for its log. *)
Definition settledNode (s : @Sys F) (n : string) : Prop := poisoned (eng (node s n)) = false /\ ~ applying (writer (node s n)).

Lemma settled_state evs n : setting -> rewound (run evs) = false -> raced (run evs) = false -> settledNode (run evs) n ->
  exists l, nodeLog (run evs) n = Some l /\ fsm (eng (node (run evs) n)) = replay f0 Apply l.
Proof.
  intros Hs Hre Hr [Hp Hw]. destruct (n_log _ _ _ _ _ _ _ _ _ (v_node _ _ _ _ _ _ _ (run_inv evs Hs Hre) n)) as (l & H1 & H2 & _).
  exists l. split; [done|]. rewrite (H2 Hr Hp). by destruct (writer (node (run evs) n)).
Qed.

(** The history is only added to. *)
Definition grows (s s' : @Sys F) : Prop := assigned s ⊆ assigned s' /\ (raced s' = false -> raced s = false).

Lemma grows_trans s1 s2 s3 : grows s1 s2 -> grows s2 s3 -> grows s1 s3.
Proof. intros [A1 A2] [B1 B2]. split; [by etransitivity|]. intros H. by apply A2, B2. Qed.

Lemma on_grows {A} s n (m : st (Engine F) perr A) k :
  (forall a e, m (eng (node s n)) = (e, Ok a) -> grows s (k a (setNode n (with_eng e (node s n)) s))) -> grows s (on fresh n m k s).
Proof. intros Hk. unfold on. destruct (m (eng (node s n))) as [e [a|err|]] eqn:E1; [by apply Hk|done..]. Qed.

Lemma register_grows s n ep isr data now : inv f0 cl Apply SnapshotFSM primaryOf fresh s ->
  writer (node s n) = Applied ep isr data -> (appliedFrontierLocked (eng (node s n))).1 + 1 < 2 ^ 62 -> grows s (register cl fresh n ep isr data now s).
Proof.
  intros Hi Hw Hb. apply on_grows. intros p e He. split; [|done]. cbn. apply insert_subseteq, eq_None_not_Some. intros Hs.
  pose proof (v_node _ _ _ _ _ _ _ Hi n) as Hn. destruct (n_own _ _ _ _ _ _ _ _ _ Hn ep) as [_ Hown]; [by rewrite Hw|].
  destruct (n_seqs _ _ _ _ _ _ _ _ _ Hn ep (pSeq p) Hs Hown) as [_ H]. rewrite Hw in H. specialize (H (or_intror eq_refl)).
  destruct (n_pipe _ _ _ _ _ _ _ _ _ Hn) as (ids & P1 & P2 & P3). pose proof (n_own _ _ _ _ _ _ _ _ _ Hn ep) as Ho. rewrite Hw in Ho. destruct (Ho eq_refl) as [Hep _].
  destruct (proposeRegister_ok cl n ep isr data now (eng (node s n)) ids P1) as (e' & ids' & p' & H1 & _ & _ & Hreg);
    [apply (n_ring _ _ _ _ _ _ _ _ _ Hn)|done|apply (n_marks _ _ _ _ _ _ _ _ _ Hn)|done| |].
  { intros Hne. apply P3; [done|]. rewrite (P2 Hne ep); [done|by rewrite Hw]. }
  rewrite He in H1. injection H1 as <- <-. pose proof (g_seq _ _ _ _ _ _ _ Hreg). lia.
Qed.

Lemma handle_grows s p x now k : (forall a s', grows s s' -> grows s (k a s')) -> grows s (handle cl Apply fresh p x now k s).
Proof.
  intros Hk. assert (Hacc : forall n l e, grows s (accept fresh n l (setNode n (with_eng e (node s n)) s))).
  { intros n l e. split; [done|]. cbn. by intros [? _]%orb_false_iff. }
  destruct x as [m|ms|c]; cbn [handle]; apply on_grows; intros a e _; [by apply Hk|by apply Hk|]. destruct a as [a|b]; [by apply Hk|done].
Qed.

Lemma exec_grows ev s : inv f0 cl Apply SnapshotFSM primaryOf fresh s -> grows s (exec cl Apply SnapshotFSM InstallFSM primaryOf fresh ev s).
Proof.
  intros Hi. assert (Hid : forall A n (m : st (Engine F) perr A), grows s (on fresh n m (fun _ s => s) s)) by (intros; by apply on_grows).
  destruct ev; cbn [exec]; try apply Hid.
  - case_bool_decide; [|done]. unfold keep. set (s1 := MkSys _ _ _ _ _ _ _ _ _ _). apply (grows_trans s s1); [done|]. by apply on_grows.
  - destruct (_ && _); [|done]. apply on_grows. by intros [ep|] e _.
  - destruct (writer (node s n)); try done. by apply on_grows.
  - destruct (writer (node s n)) eqn:E1; try done. destruct (_ <? _) eqn:E2; [|done]. apply Z.ltb_lt in E2. by eapply register_grows.
  - destruct (writer (node s n)); try done. by apply on_grows.
  - unfold deliver. destruct (outbox _ !! i) as [[p x]|]; [|done]. case_decide; [done|]. apply handle_grows. intros a s' [H1 H2]. by split.
  - destruct (replies s !! i) as [[[[n p] x] a]|]; [|done]. unfold complete. by destruct x as [|[]|]; try apply Hid.
  - destruct (outbox _ !! i) as [[p x]|]; [|done]. unfold complete. by destruct x as [|[]|]; try apply Hid.
  - unfold await. destruct (recs _ !! id); [|done]. apply on_grows. by intros [[|]|] e _.
  - by apply on_grows.
  - destruct (position k); [|done]. apply on_grows. by intros [|[]] e _.
  - destruct (_ && _); [apply Hid|done].
  - destruct (_ && _); [|done]. apply on_grows. by intros [[b fs] fe] e _.
  - unfold chunk. destruct (taken _ !! i) as [[[E [fs fe]] blob]|]; [|done]. by destruct (chunkAt _ _ _ _ _).
  - unfold deliverCatchup. destruct (catchup s !! i) as [[[n p] x]|]; [|done]. case_decide; [done|]. by apply handle_grows.
  - destruct (idle fresh s n); [|done]. unfold install. destruct (installing (node s n)) as [[c b]|]; [|done]. unfold forget, on.
    by destruct (installSnapshot _ _ _ _ _ _ _) as [e [[]| |]].
Qed.

Lemma runs_grow evs evs' : setting -> rewound (run (evs ++ evs')) = false -> grows (run evs) (run (evs ++ evs')).
Proof.
  intros Hs. induction evs' as [|ev evs' IH] using rev_ind; [by rewrite app_nil_r|]. rewrite app_assoc. intros Hr. pose proof (run_rewound _ _ Hr) as Hr'.
  eapply grows_trans; [by apply IH|]. unfold execs. rewrite (foldl_app _ _ [ev]). cbn [foldl]. by apply exec_grows, run_inv.
Qed.

(** State agreement. However events are interleaved and messages delayed,
    repeated or lost, as long as no replicated write was let in between the
    application and the registration of one of the node's own and no node was
    promoted with writes of its own past the ones it received: the state machine of
    every unpoisoned node is the replay, from the initial state, of the history
    that its applied frontier (sequence number and epoch of its last write) names,
    and a frontier names one state for ever: two nodes that have the same frontier,
    be it at different times, hold the same state. *)
Lemma replicas_agree evs evs' : setting -> rewound (run (evs ++ evs')) = false -> raced (run (evs ++ evs')) = false ->
  (forall n, settledNode (run evs) n -> exists l, nodeLog (run evs) n = Some l /\ fsm (eng (node (run evs) n)) = replay f0 Apply l) /\
  (forall n1 n2, settledNode (run evs) n1 -> settledNode (run (evs ++ evs')) n2 ->
     appliedFrontierLocked (eng (node (run evs) n1)) = appliedFrontierLocked (eng (node (run (evs ++ evs')) n2)) ->
     fsm (eng (node (run evs) n1)) = fsm (eng (node (run (evs ++ evs')) n2))).
Proof.
  intros Hs Hre Hr. pose proof (run_rewound _ _ Hre) as Hre1. destruct (runs_grow evs evs' Hs Hre) as [Hg Hg'].
  split; [intros n; apply settled_state; [done|done|by apply Hg']|]. intros n1 n2 H1 H2 Hf.
  destruct (settled_state evs n1 Hs Hre1 (Hg' Hr) H1) as (l1 & L1 & ->). destruct (settled_state (evs ++ evs') n2 Hs Hre Hr H2) as (l2 & L2 & ->).
  unfold Replication.nodeLog in *. rewrite Hf in L1. apply (logOf_mono _ _ _ _ Hg) in L1. congruence.
Qed.

(** An acknowledged write is on every replica it required. When no numbering was
    taken back and a proposal of a full-in-sync-set shard returned success, its write was assigned once, and every
    peer that was required when its number was assigned has accepted it, unless the
    control plane removed the peer from the in-sync set of that epoch. What a node
    accepted is in its history, with the data that was proposed, unless the
    installation of a snapshot replaced the history by one without it. *)
Lemma acked_write_is_replicated evs ep seq : setting -> rewound (run evs) = false -> cl = CommitFullISR -> (ep, seq) ∈ acked (run evs) ->
  exists ps pe d, required (run evs) !! (ep, seq) = Some ps /\ assigned (run evs) !! (ep, seq) = Some (pe, d) /\
    forall p, p ∈ ps -> (exists isr, (ep, isr) ∈ shrinks (run evs) /\ p ∉ isr) \/
      (ep, seq) ∈ accepted (node (run evs) p) /\
      ((exists l, nodeLog (run evs) p = Some l /\ (ep, seq, d) ∈ l) \/ (ep, seq) ∈ lost (node (run evs) p)).
Proof.
  intros Hs Hre Hcl Ha. pose proof (run_inv evs Hs Hre) as Hi. destruct (v_acked _ _ _ _ _ _ _ Hi _ _ Ha) as (ps & H1 & H2).
  destruct (v_dom _ _ _ _ _ _ _ Hi (ep, seq)) as [[pe d] Hd]; [by eexists|]. exists ps, pe, d. split_and!; try done. intros p Hp.
  destruct (H2 Hcl p Hp) as [Hacc|Hsh]; [right|by left]. split; [done|].
  destruct (n_log _ _ _ _ _ _ _ _ _ (v_node _ _ _ _ _ _ _ Hi p)) as (l & L1 & _ & L3). destruct (L3 _ Hacc) as [Hin|Hin]; [left|by right].
  exists l. split; [done|]. apply list_elem_of_fmap in Hin as ([[ep' seq'] d'] & Heq & Hin). cbn in Heq. injection Heq as <- <-.
  pose proof Hin as Hin'. apply list_elem_of_lookup in Hin' as [i Hi']. destruct (logTo_take _ _ _ _ _ _ _ _ L1 Hi') as (_ & _ & pe' & Hd').
  replace d with d'; [done|]. congruence.
Qed.

(** Nothing panics, and every pipeline stays dense. After any sequence of events
    in which no numbering was taken back no engine has indexed outside a ring, dereferenced a nil record, registered a
    write out of order or blocked on an outcome channel; on every node the records
    in flight are those of consecutive sequence numbers that end with the last one
    assigned, above the commit watermark, the records no longer in flight are
    resolved, and every node has a complete history. *)
Lemma engine_never_panics evs n : setting -> rewound (run evs) = false -> panicked (run evs) = false /\
  (exists ids, pipe (eng (node (run evs) n)) ids) /\ exists l, nodeLog (run evs) n = Some l.
Proof.
  intros Hs Hre. pose proof (run_inv evs Hs Hre) as Hi. pose proof (v_node _ _ _ _ _ _ _ Hi n) as Hn. split_and!; [apply Hi| |].
  - destruct (n_pipe _ _ _ _ _ _ _ _ _ Hn) as (ids & Hp & _). by exists ids.
  - destruct (n_log _ _ _ _ _ _ _ _ _ Hn) as (l & Hl & _). by exists l.
Qed.

End Props.

(** ** Runs *)

Module ReplicationRuns.

(** A state machine that appends, and snapshots that are its state. *)
Definition apply (f d : bytes) : bytes * option bytes := (f ++ d, Some []).
Definition snap (f : bytes) : option bytes := Some f.
Definition restore (f blob : bytes) : bytes * bool := (blob, true).
Definition na : string := "a".
Definition nb : string := "b".
(** Odd epochs belong to [na], even ones to [nb]. *)
Definition primary (ep : Z) : string := if Z.odd ep then na else nb.
Definition engine0 : Engine bytes :=
  match NewWithRingCapacity defaultRingCapacity (0, 0) false [] with Ok e => e | _ => MkEngine 0 0 0 0 0 0 0 0 ∅ (Ring.newRing 1) [] 0 ∅ ∅ ∅ ∅ [] 0 0 0 [] None false ∅ false [] [] [] end.

Lemma runs_setting : setting [] apply snap restore defaultRingCapacity engine0.
Proof. split; [done| |done|vm_compute; reflexivity]. by intros f g blob [= ->]. Qed.

Abbreviation go evs := (execs CommitFullISR apply snap restore primary engine0 evs init).


(** [na], of epoch 1, has applied its write; the write of [nb], of epoch 2, arrives
    before that write is registered. *)
Definition raceWrites : list event :=
  [EKeep na 1 1000 0; ECheck na na [na; nb] 2 1 [Byte.x61]; EApply na;
   EKeep nb 2 1000 1; ECheck nb nb [nb; na] 2 1 [Byte.x62]; EApply nb; ERegister nb 1; EShip nb (fun _ => true) 1;
   EDeliver nb 0 2; EReply 0 2; EAwait nb 0 false; ERegister na 3].

(** A write that is received between the application and the registration of the
    node's own write makes the node's state differ from its history: [na] applies
    "a", then accepts and applies "b" (which [nb] acknowledges to its client), and
    only then gives "a" a number, the next one; its state is "ab" and its history
    says "b" then "a". *)
Lemma race_run :
  let s := go raceWrites in
  acked s = [(2, 1)] /\ fsm (eng (node engine0 s na)) = [Byte.x61; Byte.x62] /\
  nodeLog engine0 s na = Some [(2, 1, [Byte.x62]); (1, 2, [Byte.x61])] /\ replay [] apply [(2, 1, [Byte.x62]); (1, 2, [Byte.x61])] = [Byte.x62; Byte.x61].
Proof. vm_compute. split_and!; reflexivity. Qed.

End ReplicationRuns.
