(* ===== verification/Wire.v ===== *)
(** * Reading frames at an offset: what the decoders of src/sdk/wire and
    src/shard/pbisr/pb_frame.go share. *)
From S2P Require Import Prelude.

(** [CountFitsIn] of src/sdk/wire/vector.go: a declared count can be backed by the
    bytes that are left. *)
Definition CountFitsIn (n remaining minBytesPerElem : Z) : bool :=
  if (n <? 0) || (remaining <? 0) || (minBytesPerElem <? 1) then false else n <=? Z.quot remaining minBytesPerElem.

Lemma CountFitsIn_spec n remaining k : 1 <= k ->
  CountFitsIn n remaining k = true <-> 0 <= n /\ 0 <= remaining /\ n * k <= remaining.
Proof.
  intros Hk. unfold CountFitsIn. destruct (Z.ltb_spec n 0), (Z.ltb_spec remaining 0), (Z.ltb_spec k 1); cbn; try lia.
  rewrite Z.quot_div_nonneg, Z.leb_le by lia. split.
  - intros H2. pose proof (Z.mul_div_le remaining k). nia.
  - intros (_ & _ & H2). apply Z.div_le_lower_bound; lia.
Qed.

(** The conversion to a 64-bit signed integer. *)
Definition toInt (x : Z) : Z := let y := u64 x in if y <? 2 ^ 63 then y else y - 2 ^ 64.

Lemma toInt_id x : - 2 ^ 63 <= x < 2 ^ 63 -> toInt x = x.
Proof.
  intros Hx. unfold toInt, wrap. destruct (decide (0 <= x)).
  - rewrite Z.mod_small by lia. by rewrite (proj2 (Z.ltb_lt _ _)) by lia.
  - replace (x mod 2 ^ 64) with (x + 2 ^ 64) by (rewrite <- (Z.mod_add x 1) by lia; rewrite Z.mod_small; lia).
    rewrite (proj2 (Z.ltb_ge _ _)) by lia. lia.
Qed.

Lemma toInt_u64 x : toInt (u64 x) = toInt x.
Proof. unfold toInt, wrap. by rewrite Z.mod_mod. Qed.

Lemma u64_toInt x : u64 (toInt x) = u64 x.
Proof.
  unfold toInt. destruct (_ <? _); [by apply wrap_fits, fits_wrap|]. unfold wrap.
  rewrite <- (Z.mod_add (x mod 2 ^ 64 - 2 ^ 64) 1) by lia. rewrite Z.mul_1_l, Z.sub_add. by rewrite Z.mod_mod.
Qed.

Lemma toInt_range x : - 2 ^ 63 <= toInt x < 2 ^ 63.
Proof.
  unfold toInt. pose proof (fits_wrap 64 x ltac:(lia)) as H. unfold fits in H. destruct (Z.ltb_spec (u64 x) (2 ^ 63)); lia.
Qed.

(** A read that succeeds. *)
Lemma obind {E A B} (m : outcome E A) (k : A -> outcome E B) a : m = Ok a -> m ≫= k = k a.
Proof. by intros ->. Qed.

(** ** Pieces of a concatenation *)

Section Pieces.
Context {E : Type}.

Lemma byte_at_cons (a r : bytes) x off : off = blen a -> byte_at (E:=E) (a ++ x :: r) off = Ok (byte.unsigned x).
Proof.
  intros ->. unfold byte_at. pose proof (blen_nonneg a). pose proof (blen_nonneg r).
  rewrite (proj2 (Z.leb_le _ _)), (proj2 (Z.ltb_lt _ _)) by len. cbn. by rewrite blen_to_nat, list_lookup_middle.
Qed.

Lemma le_put_1 x : le_put 1 x = [byte.of_Z x].
Proof. done. Qed.

Lemma byte_at_put (a r : bytes) x off : off = blen a -> fits 8 x -> byte_at (E:=E) (a ++ le_put 1 x ++ r) off = Ok x.
Proof.
  intros Ha Hx. rewrite le_put_1. cbn [app]. rewrite byte_at_cons by done.
  rewrite byte.unsigned_of_Z. f_equal. by apply (wrap_fits 8).
Qed.

(** The same with the concatenation left to unify. *)
Lemma byte_at_cons_eq (b a r : bytes) x off : b = a ++ x :: r -> off = blen a -> byte_at (E:=E) b off = Ok (byte.unsigned x).
Proof. intros ->. apply byte_at_cons. Qed.

Lemma byte_at_put_eq (b a r : bytes) x off : b = a ++ le_put 1 x ++ r -> off = blen a -> fits 8 x -> byte_at (E:=E) b off = Ok x.
Proof. intros ->. apply byte_at_put. Qed.

Lemma byte_at_in (b : bytes) i : 0 <= i < blen b -> exists x, byte_at (E:=E) b i = Ok x /\ fits 8 x.
Proof.
  intros Hi. unfold byte_at. rewrite (proj2 (Z.leb_le _ _)), (proj2 (Z.ltb_lt _ _)) by lia. cbn.
  destruct (b !! Z.to_nat i) as [x|] eqn:Ex.
  - eexists. split; [done|]. apply byte.unsigned_range.
  - apply lookup_ge_None in Ex. unfold blen in Hi. lia.
Qed.

Lemma slice_at (a x r : bytes) lo hi : lo = blen a -> hi = blen a + blen x -> slice (E:=E) (a ++ x ++ r) lo hi = Ok x.
Proof. apply slice_mid. Qed.

Lemma slice_exists (b : bytes) lo hi : 0 <= lo <= hi -> hi <= blen b -> exists x, slice (E:=E) b lo hi = Ok x /\ blen x = hi - lo.
Proof. intros ? ?. rewrite slice_in by lia. eexists. split; [done|]. len. Qed.

Lemma byte_at_here (r : bytes) x off : off = 0 -> byte_at (E:=E) ([x] ++ r) off = Ok (byte.unsigned x).
Proof. intros ->. by apply (byte_at_cons []). Qed.

Lemma byte_at_step (a b : bytes) off x : blen a <= off -> byte_at (E:=E) b (off - blen a) = Ok x -> byte_at (E:=E) (a ++ b) off = Ok x.
Proof.
  intros Ho. unfold byte_at. pose proof (blen_nonneg a). destruct ((0 <=? off - blen a) && (off - blen a <? blen b)) eqn:Hb; [|done].
  apply andb_true_iff in Hb as [H1%Z.leb_le H2%Z.ltb_lt]. rewrite (proj2 (Z.leb_le 0 off)), (proj2 (Z.ltb_lt off _)) by len. cbn [andb].
  replace (Z.to_nat off) with (length a + Z.to_nat (off - blen a))%nat by (unfold blen in *; lia). by rewrite lookup_app_r, Nat.add_comm, Nat.add_sub by lia.
Qed.

(** [binary.BigEndian.UintN(b[off:off+n])] *)
Definition beAt (n : nat) (b : bytes) (off : Z) : outcome E Z := x ← slice b off (off + Z.of_nat n); be_get n x.

Lemma beAt_slice n (b y : bytes) off x : slice (E:=E) b off (off + Z.of_nat n) = Ok y -> y = be_put n x -> fits (8 * Z.of_nat n) x -> beAt n b off = Ok x.
Proof. intros Hs -> Hx. unfold beAt. rewrite Hs. cbn. rewrite be_get_put. f_equal. by apply wrap_fits. Qed.

Lemma beAt_in n (b : bytes) off : 0 <= off -> off + Z.of_nat n <= blen b -> exists x, beAt n b off = Ok x /\ fits (8 * Z.of_nat n) x.
Proof.
  intros Ho Hn. destruct (slice_exists b off (off + Z.of_nat n)) as (x & Hx & Hl); [lia|lia|]. unfold beAt. rewrite Hx. cbn. apply be_get_ok. lia.
Qed.

End Pieces.

(** Reads the next field of a frame that is a concatenation of pieces. *)
Ltac read_int :=
  match goal with
  | |- context [beAt ?n ?b ?off] =>
      let H := fresh in eassert (beAt n b off = Ok _) as H by (eapply beAt_slice; [solve_slice|reflexivity|first [done|unfold fits; len]]); rewrite H; clear H
  end; cbn [mbind outcome_bind].
Ltac solve_byte := first [apply byte_at_here; len | eapply byte_at_step; [len|solve_byte]].
Ltac read_byte :=
  match goal with
  | |- context [byte_at ?b ?off] =>
      let H := fresh in eassert (byte_at b off = Ok _) as H by solve_byte; rewrite H; clear H
  end; cbn [mbind outcome_bind].
(** A length check that passes. *)
Ltac room := match goal with |- context [if ?x <? ?y then _ else _] => rewrite (proj2 (Z.ltb_ge x y)) by len end.
Ltac nonneg := match goal with |- context [if (?x <? 0) || _ then _ else _] => rewrite (proj2 (Z.ltb_ge x 0)) by lia; cbn [orb] end.
Ltac read_frame := repeat first [nonneg | room | read_int | read_byte | step_slice].

(** Goes through a decoder on any bytes: a check fails, or the next read is inside. *)
Ltac read_any :=
  repeat (match goal with
  | |- context [if ?x <? ?y then _ else _] => destruct (Z.ltb_spec x y); [done|]
  | |- context [if (?x <? ?y) || ?c then _ else _] => destruct (Z.ltb_spec x y); [done|]; cbn [orb]
  | |- context [@beAt ?E ?n ?b ?off] => let x := fresh "x" in destruct (beAt_in (E:=E) n b off) as (x & -> & ?); [unfold fits in *; lia|unfold fits in *; lia|]
  | |- context [@slice ?E ?b ?lo ?hi] => let x := fresh "x" in destruct (slice_exists (E:=E) b lo hi) as (x & -> & ?); [unfold fits in *; lia|unfold fits in *; lia|]
  | |- context [@byte_at ?E ?b ?i] => let x := fresh "x" in destruct (byte_at_in (E:=E) b i) as (x & -> & ?); [unfold fits in *; lia|]
  end; cbn [mbind outcome_bind]).
