(* ===== verification/KVIndex.v ===== *)
(** * Key-value index definitions and their frames (src/sdk/wire/kvindex.go).

    A Go string is its bytes. The decoders read from an offset and are run on
    any bytes at all. *)
From S2P Require Import Prelude Wire.

Module KVIndex.

Inductive kerr := ErrKVIndexDef | ErrShortArgs.

#[export] Instance kerr_eq_dec : EqDecision kerr.
Proof. solve_decision. Defined.

Definition KVIndexKindScalar : Z := 0.
Definition KVIndexKindCount : Z := 1.
Definition KVIndexMaxNameLen : Z := 64.
Definition KVIndexMaxPrefixLen : Z := 255.
Definition KVIndexMaxPathLen : Z := 255.
Definition KVIndexMaxDefs : Z := 64.

(** "#count" *)
Definition kvIndexCountSuffix : bytes := [Byte.x23; Byte.x63; Byte.x6f; Byte.x75; Byte.x6e; Byte.x74].

Record KVIndexDef := MkKVIndexDef {
  Name : bytes;
  KeyPrefix : bytes;
  PayloadPath : bytes;
  Kind : Z;
  Enabled : bool;
}.

#[export] Instance KVIndexDef_eq_dec : EqDecision KVIndexDef.
Proof. solve_decision. Defined.

(** [[A-Za-z0-9_.:-]] *)
Definition kvNameByte (c : byte) : bool :=
  let c := byte.unsigned c in
  ((65 <=? c) && (c <=? 90)) || ((97 <=? c) && (c <=? 122)) || ((48 <=? c) && (c <=? 57)) ||
  ((c =? 95) || (c =? 46) || (c =? 58) || (c =? 45)).

Definition validKVName (s : bytes) : bool :=
  if (blen s =? 0) || (KVIndexMaxNameLen <? blen s) then false else forallb kvNameByte s.

(** [strings.HasSuffix] *)
Definition hasSuffix (s suffix : bytes) : bool :=
  (blen suffix <=? blen s) && bool_decide (drop (length s - length suffix) s = suffix).

(** [strings.ContainsRune(s, '/')]: the rune is one byte. *)
Definition containsSlash (s : bytes) : bool := existsb (fun c => bool_decide (c = Byte.x2f)) s.

Definition Validate (d : KVIndexDef) : outcome kerr unit :=
  if negb (validKVName (Name d)) then Err ErrKVIndexDef else
  if KVIndexMaxPrefixLen <? blen (KeyPrefix d) then Err ErrKVIndexDef else
  if blen (PayloadPath d) =? 0 then Err ErrKVIndexDef else
  if KVIndexMaxPathLen <? blen (PayloadPath d) then Err ErrKVIndexDef else
  if containsSlash (PayloadPath d) then Err ErrKVIndexDef else
  let isCount := hasSuffix (PayloadPath d) kvIndexCountSuffix in
  if Kind d =? KVIndexKindScalar then (if isCount then Err ErrKVIndexDef else Ok tt) else
  if Kind d =? KVIndexKindCount then (if negb isCount then Err ErrKVIndexDef else Ok tt) else
  Err ErrKVIndexDef.

(** ** Frames *)

(** [byte(len(x))], then [x]. *)
Definition appendStr8 (dst x : bytes) : bytes := (dst ++ le_put 1 (blen x)) ++ x.

Definition AppendKVIndexDef (dst : bytes) (d : KVIndexDef) : bytes :=
  let dst := appendStr8 dst (Name d) in
  let dst := appendStr8 dst (KeyPrefix d) in
  let dst := appendStr8 dst (PayloadPath d) in
  let dst := dst ++ le_put 1 (Kind d) in
  dst ++ [if Enabled d then Byte.x01 else Byte.x00].

(** A one-byte length at [off], what it measures, and the offset after it. *)
Definition takeStr8 (b : bytes) (off : Z) : outcome kerr (bytes * Z) :=
  if blen b - off <? 1 then Err ErrShortArgs else
  n ← byte_at b off;
  let off := off + 1 in
  if blen b - off <? n then Err ErrShortArgs else
  x ← slice b off (off + n);
  Ok (x, off + n).

Definition DecodeKVIndexDef (b : bytes) : outcome kerr (KVIndexDef * Z) :=
  '(name, off) ← takeStr8 b 0;
  '(prefix, off) ← takeStr8 b off;
  '(path, off) ← takeStr8 b off;
  if blen b - off <? 2 then Err ErrShortArgs else
  kind ← byte_at b off;
  en ← byte_at b (off + 1);
  Ok (MkKVIndexDef name prefix path kind (negb (en =? 0)), off + 2).

Definition EncodeKVIndexSetArgs (d : KVIndexDef) : bytes := AppendKVIndexDef [] d.

Definition DecodeKVIndexSetArgs (args : bytes) : outcome kerr KVIndexDef :=
  '(d, n) ← DecodeKVIndexDef args;
  if negb (n =? blen args) then Err ErrKVIndexDef else Ok d.

(** The entries of a list frame: [ready] may be shorter than [defs]. *)
Fixpoint appendDefs (buf : bytes) (defs : list KVIndexDef) (ready : list bool) : bytes :=
  match defs with
  | [] => buf
  | d :: defs =>
      let buf := AppendKVIndexDef buf d in
      appendDefs (buf ++ [if default false (head ready) then Byte.x01 else Byte.x00]) defs (tail ready)
  end.

Definition EncodeKVIndexList (defs : list KVIndexDef) (ready : list bool) : bytes :=
  appendDefs (be_put 2 (blen defs)) defs ready.

Definition kvIndexDefMinBytes : Z := 6.

Fixpoint decodeDefs (b : bytes) (off : Z) (n : nat) (defs : list KVIndexDef) (ready : list bool) :
    outcome kerr (list KVIndexDef * list bool * Z) :=
  match n with
  | O => Ok (defs, ready, off)
  | S n =>
      rest ← slice_from b off;
      '(d, dn) ← DecodeKVIndexDef rest;
      let off := off + dn in
      if blen b - off <? 1 then Err ErrShortArgs else
      r ← byte_at b off;
      decodeDefs b (off + 1) n (defs ++ [d]) (ready ++ [negb (r =? 0)])
  end.

Definition DecodeKVIndexList (b : bytes) : outcome kerr (list KVIndexDef * list bool) :=
  if blen b <? 2 then Err ErrShortArgs else
  n ← be_get 2 b;
  if negb (CountFitsIn n (blen b - 2) kvIndexDefMinBytes) then Err ErrShortArgs else
  if KVIndexMaxDefs <? n then Err ErrKVIndexDef else
  '(defs, ready, off) ← decodeDefs b 2 (Z.to_nat n) [] [];
  if negb (off =? blen b) then Err ErrKVIndexDef else Ok (defs, ready).

(** ** Lemmas *)

(** What a frame can hold. *)
Record def_ok (d : KVIndexDef) : Prop := {
  do_name : blen (Name d) <= 255;
  do_prefix : blen (KeyPrefix d) <= 255;
  do_path : blen (PayloadPath d) <= 255;
  do_kind : fits 8 (Kind d);
}.

Lemma Validate_def_ok d : Validate d = Ok tt -> def_ok d.
Proof.
  unfold Validate, validKVName, KVIndexMaxNameLen, KVIndexMaxPrefixLen, KVIndexMaxPathLen, KVIndexKindScalar, KVIndexKindCount.
  intros H. repeat case_match; try done; repeat match goal with H : negb _ = false |- _ => apply negb_false_iff in H end;
    try done; repeat match goal with H : (_ || _)%bool = false |- _ => apply orb_false_iff in H as [? ?] end;
    (split; [lia|lia|lia|unfold fits; lia]).
Qed.

Lemma takeStr8_at (a x r : bytes) off : off = blen a -> blen x <= 255 ->
  takeStr8 (a ++ le_put 1 (blen x) ++ x ++ r) off = Ok (x, off + 1 + blen x).
Proof.
  intros -> Hx. pose proof (blen_nonneg x). pose proof (blen_nonneg r). unfold takeStr8.
  rewrite (proj2 (Z.ltb_ge _ _)) by len. rewrite byte_at_put by (done || unfold fits; lia). cbn [mbind outcome_bind].
  rewrite (proj2 (Z.ltb_ge _ _)) by len. rewrite (app_assoc a), slice_at by len. done.
Qed.

Lemma takeStr8_total b off : 0 <= off <= blen b ->
  takeStr8 b off = Err ErrShortArgs \/ exists x off', takeStr8 b off = Ok (x, off') /\ off + 1 <= off' <= blen b.
Proof.
  intros Ho. unfold takeStr8. destruct (Z.ltb_spec (blen b - off) 1); [by left|].
  destruct (byte_at_in (E:=kerr) b off) as (n & -> & Hn); [lia|]. cbn [mbind outcome_bind].
  destruct (Z.ltb_spec (blen b - (off + 1)) n); [by left|]. unfold fits in Hn.
  destruct (slice_exists (E:=kerr) b (off + 1) (off + 1 + n)) as (x & -> & _); [lia|lia|].
  right. eexists _, _. split; [done|]. lia.
Qed.

Definition defFrame (d : KVIndexDef) : bytes :=
  le_put 1 (blen (Name d)) ++ Name d ++ le_put 1 (blen (KeyPrefix d)) ++ KeyPrefix d ++
  le_put 1 (blen (PayloadPath d)) ++ PayloadPath d ++ le_put 1 (Kind d) ++ [if Enabled d then Byte.x01 else Byte.x00].

Lemma AppendKVIndexDef_frame dst d : AppendKVIndexDef dst d = dst ++ defFrame d.
Proof. unfold AppendKVIndexDef, appendStr8, defFrame. by rewrite <- !app_assoc. Qed.

Lemma defFrame_len d : blen (defFrame d) = 5 + blen (Name d) + blen (KeyPrefix d) + blen (PayloadPath d).
Proof. unfold defFrame. len. Qed.

Lemma takeStr8_eq (b a x r : bytes) off : b = a ++ le_put 1 (blen x) ++ x ++ r -> off = blen a -> blen x <= 255 ->
  takeStr8 b off = Ok (x, off + 1 + blen x).
Proof. intros ->. apply takeStr8_at. Qed.

Lemma decode_defFrame d r : def_ok d -> DecodeKVIndexDef (defFrame d ++ r) = Ok (d, blen (defFrame d)).
Proof.
  intros [Hn Hp Hq Hk]. unfold DecodeKVIndexDef. rewrite defFrame_len.
  remember (le_put 1 (blen (Name d)) ++ Name d) as f1 eqn:E1. remember (le_put 1 (blen (KeyPrefix d)) ++ KeyPrefix d) as f2 eqn:E2.
  remember (le_put 1 (blen (PayloadPath d)) ++ PayloadPath d) as f3 eqn:E3.
  assert (exists en, en = (if Enabled d then Byte.x01 else Byte.x00) /\
    defFrame d ++ r = f1 ++ f2 ++ f3 ++ le_put 1 (Kind d) ++ en :: r) as (en & Hen & ->).
  { eexists. split; [done|]. unfold defFrame. by rewrite E1, E2, E3, <- !app_assoc. }
  assert (blen f1 = 1 + blen (Name d)) by (rewrite E1; len).
  assert (blen f2 = 1 + blen (KeyPrefix d)) by (rewrite E2; len). assert (blen f3 = 1 + blen (PayloadPath d)) by (rewrite E3; len).
  erewrite (takeStr8_eq _ [] (Name d)); [|rewrite E1; by rewrite <- app_assoc|done..]. cbn [mbind outcome_bind].
  erewrite (takeStr8_eq _ f1 (KeyPrefix d)); [|rewrite E2; by rewrite <- !app_assoc|lia|done]. cbn [mbind outcome_bind].
  erewrite (takeStr8_eq _ (f1 ++ f2) (PayloadPath d)); [|rewrite E3; by rewrite <- !app_assoc|len|done]. cbn [mbind outcome_bind].
  pose proof (blen_nonneg r). rewrite (proj2 (Z.ltb_ge _ _)) by len.
  erewrite obind; [|apply (byte_at_put_eq _ (f1 ++ f2 ++ f3) (en :: r)); [by rewrite <- !app_assoc|rewrite !blen_app; lia|done]].
  erewrite obind; [|apply (byte_at_cons_eq _ (f1 ++ f2 ++ f3 ++ le_put 1 (Kind d)) r); [by rewrite <- !app_assoc|rewrite !blen_app, blen_le_put; lia]].
  f_equal. f_equal; [|lia].
  rewrite Hen. destruct d as [? ? ? ? []]; done.
Qed.

Lemma DecodeKVIndexDef_total b :
  DecodeKVIndexDef b = Err ErrShortArgs \/ exists d n, DecodeKVIndexDef b = Ok (d, n) /\ 5 <= n <= blen b.
Proof.
  unfold DecodeKVIndexDef. pose proof (blen_nonneg b).
  destruct (takeStr8_total b 0) as [->|(x & o1 & -> & ?)]; [lia|by left|]. cbn [mbind outcome_bind].
  destruct (takeStr8_total b o1) as [->|(y & o2 & -> & ?)]; [lia|by left|]. cbn [mbind outcome_bind].
  destruct (takeStr8_total b o2) as [->|(z & o3 & -> & ?)]; [lia|by left|]. cbn [mbind outcome_bind].
  destruct (Z.ltb_spec (blen b - o3) 2); [by left|].
  destruct (byte_at_in (E:=kerr) b o3) as (k & -> & _); [lia|]. cbn [mbind outcome_bind].
  destruct (byte_at_in (E:=kerr) b (o3 + 1)) as (e & -> & _); [lia|]. cbn [mbind outcome_bind].
  right. eexists _, _. split; [done|]. lia.
Qed.

Definition listFrame (l : list (KVIndexDef * bool)) : bytes :=
  concat ((fun x : KVIndexDef * bool => defFrame x.1 ++ [if x.2 then Byte.x01 else Byte.x00]) <$> l).

Lemma appendDefs_frame l buf : appendDefs buf l.*1 l.*2 = buf ++ listFrame l.
Proof.
  revert buf. induction l as [|[d r] l IH]; intros buf; [by rewrite app_nil_r|].
  cbn. rewrite AppendKVIndexDef_frame, IH. unfold listFrame. cbn. by rewrite <- !app_assoc.
Qed.

Lemma decodeDefs_frame l a r defs ready off :
  Forall (fun x => def_ok x.1) l -> off = blen a ->
  decodeDefs (a ++ listFrame l ++ r) off (length l) defs ready = Ok (defs ++ l.*1, ready ++ l.*2, off + blen (listFrame l)).
Proof.
  intros Hl. revert a defs ready off. induction Hl as [|[d b] l Hd _ IH]; intros a defs ready off ->.
  { cbn. by rewrite !app_nil_r, Z.add_0_r. }
  cbn [length decodeDefs]. rewrite slice_from_app by done. cbn [mbind outcome_bind].
  unfold listFrame. cbn [fmap list_fmap concat]. fold (listFrame l). cbn [fst snd]. rewrite <- !app_assoc.
  rewrite decode_defFrame by done. cbn [mbind outcome_bind]. pose proof (blen_nonneg (listFrame l)). pose proof (blen_nonneg r).
  rewrite (proj2 (Z.ltb_ge _ _)) by len.
  erewrite obind; [|apply (byte_at_cons_eq _ (a ++ defFrame d) (listFrame l ++ r)); [by rewrite <- !app_assoc|by rewrite blen_app]].
  rewrite (app_assoc (defFrame d)), (app_assoc a). rewrite (IH (a ++ defFrame d ++ [_])) by len. f_equal. f_equal; [f_equal|len].
  - by rewrite <- app_assoc.
  - rewrite <- app_assoc. by destruct b.
Qed.

Lemma decodeDefs_total b n off defs ready : 0 <= off <= blen b ->
  decodeDefs b off n defs ready = Err ErrShortArgs \/ exists x, decodeDefs b off n defs ready = Ok x.
Proof.
  revert off defs ready. induction n as [|n IH]; intros off defs ready Ho; [right; by eexists|].
  cbn [decodeDefs]. unfold slice_from.
  destruct (slice_exists (E:=kerr) b off (blen b)) as (rest & -> & Hr); [lia|lia|]. cbn [mbind outcome_bind].
  destruct (DecodeKVIndexDef_total rest) as [->|(d & dn & -> & ?)]; [by left|]. cbn [mbind outcome_bind].
  destruct (Z.ltb_spec (blen b - (off + dn)) 1); [by left|].
  destruct (byte_at_in (E:=kerr) b (off + dn)) as (k & -> & _); [lia|]. cbn [mbind outcome_bind]. apply IH. lia.
Qed.

(** ** Properties *)

(** The definitions a list frame is made of come back with their readiness, for
    as many as a cluster may define and whatever each of them holds; and no bytes
    at all make the decoder read outside its argument. *)
Theorem kv_index_list_roundtrip :
  (forall l, Z.of_nat (length l) <= KVIndexMaxDefs -> Forall (fun x => Validate x.1 = Ok tt) l ->
     DecodeKVIndexList (EncodeKVIndexList l.*1 l.*2) = Ok (l.*1, l.*2)) /\
  (forall b, DecodeKVIndexList b <> Panic /\ DecodeKVIndexSetArgs b <> Panic).
Proof.
  split.
  - intros l Hl Hv. unfold DecodeKVIndexList, EncodeKVIndexList. rewrite appendDefs_frame.
    assert (Forall (fun x => def_ok x.1) l) as Hok by (eapply Forall_impl; [done|]; cbn; intros; by apply Validate_def_ok).
    assert (6 * blen l <= blen (listFrame l)) as Hlen.
    { clear. unfold listFrame. induction l as [|[d r] l IH]; [done|]. cbn. pose proof (defFrame_len d).
      pose proof (blen_nonneg (Name d)). pose proof (blen_nonneg (KeyPrefix d)). pose proof (blen_nonneg (PayloadPath d)). len. }
    unfold KVIndexMaxDefs, kvIndexDefMinBytes in *. replace (blen l.*1) with (blen l) by (unfold blen; by rewrite length_fmap).
    pose proof (blen_nonneg l).
    rewrite (proj2 (Z.ltb_ge _ _)) by len.
    erewrite obind; [|rewrite be_get_app; rewrite wrap_fits by (unfold fits, blen; lia); done].
    rewrite (proj2 (CountFitsIn_spec _ _ 6 ltac:(lia))) by (repeat split; len). cbn [negb].
    rewrite (proj2 (Z.ltb_ge _ _)) by (unfold blen; lia). rewrite blen_to_nat.
    pose proof (decodeDefs_frame l (be_put 2 (blen l)) [] [] [] 2 Hok eq_refl) as Hd. rewrite app_nil_r in Hd. rewrite Hd.
    cbn [mbind outcome_bind]. rewrite blen_app, blen_be_put, Z.eqb_refl. done.
  - intros b. split.
    + unfold DecodeKVIndexList. destruct (Z.ltb_spec (blen b) 2); [done|].
      destruct (be_get_ok (E:=kerr) 2 b) as (n & -> & _); [done|]. cbn [mbind outcome_bind]. repeat case_match; try done.
      destruct (decodeDefs_total b (Z.to_nat n) 2 [] []) as [->|([[? ?] ?] & ->)]; [lia|done|]. cbn. by case_match.
    + unfold DecodeKVIndexSetArgs. destruct (DecodeKVIndexDef_total b) as [->|(d & n & -> & _)]; [done|]. cbn. by case_match.
Qed.

End KVIndex.
