(* ===== verification/MetaState.v ===== *)
(** * The cluster's metadata: the state of the meta-Raft machine, its log entries and
    the placement of shards (src/cluster/meta_state.go, peer.go, placement.go,
    pb_control.go, and the entries proposed by meta.go).

    A Go map is a [gmap] and reads of an absent key give the zero value; a nil map
    and an empty one are not told apart, and neither are a nil slice and an empty
    one. An [int] is a 64-bit signed integer. *)
From stdpp Require Import strings.
From S2P Require Import Prelude Wire KVIndex.
Import KVIndex.

Module MetaState.

Definition noName : string := EmptyString.

(** ** Members *)

Record Peer := MkPeer {
  NodeID : string;
  RaftAddr : string;
  ServerAddr : string;
  PBAddr : string;
}.

#[export] Instance Peer_eq_dec : EqDecision Peer.
Proof. solve_decision. Defined.

(** [Peer.Validate] *)
Definition PeerValid (p : Peer) : bool :=
  negb (bool_decide (NodeID p = noName)) && negb (bool_decide (RaftAddr p = noName)) && negb (bool_decide (ServerAddr p = noName)).

(** Go's [sort.Slice] and [sort.Strings]: elements the order does not tell apart
    stay as they were, which is what the insertion sort Go runs on up to twelve
    elements does. *)
Section Sort.
Context {A : Type} (less : A -> A -> bool).
Fixpoint insertSorted (x : A) (l : list A) : list A :=
  match l with
  | [] => [x]
  | y :: l' => if less x y then x :: l else y :: insertSorted x l'
  end.
Definition insertionSort (l : list A) : list A := foldl (fun acc x => insertSorted x acc) [] l.

Lemma insertSorted_elem x y l : y ∈ insertSorted x l <-> y = x \/ y ∈ l.
Proof.
  induction l as [|z l IH]; cbn; [by rewrite elem_of_cons|]. destruct (less x z); rewrite !elem_of_cons, ?IH; tauto.
Qed.

Lemma insertionSort_elem x l : x ∈ insertionSort l <-> x ∈ l.
Proof.
  unfold insertionSort. enough (forall acc, x ∈ foldl (fun acc y => insertSorted y acc) acc l <-> x ∈ acc \/ x ∈ l) as H.
  { rewrite H, elem_of_nil. tauto. }
  induction l as [|y l IH]; intros acc; cbn; [rewrite elem_of_nil; tauto|]. rewrite IH, insertSorted_elem, elem_of_cons. tauto.
Qed.
End Sort.

Definition sortStrings : list string -> list string := insertionSort String.ltb.
Definition sortPeers : list Peer -> list Peer := insertionSort (fun a b => String.ltb (NodeID a) (NodeID b)).

Definition peerSlicesEqual (a b : list Peer) : bool := bool_decide (a = b).

(** ** Placement *)

Definition computePlacement {E} (members : list Peer) (numShards rf : Z) : outcome E (list (list string)) :=
  let ids := sortStrings (NodeID <$> members) in
  if numShards <? 0 then Panic else
  let n := blen ids in
  if n =? 0 then Ok (replicate (Z.to_nat numShards) []) else
  if (rf <=? 0) || (n <=? rf) then Ok (replicate (Z.to_nat numShards) ids) else
  Ok ((fun s : nat => (fun j : nat => ids !!! ((s + j) mod length ids)%nat) <$> seq 0 (Z.to_nat rf)) <$> seq 0 (Z.to_nat numShards)).

Definition placementContains (owners : list string) (nodeID : string) : bool := existsb (fun o => bool_decide (o = nodeID)) owners.
Definition peersForOwners (peers : list Peer) (owners : list string) : list Peer :=
  filter (fun p => placementContains owners (NodeID p) = true) peers.

(** A shard's initial control state. *)
Record pbShardSeed := MkSeed { seedShard : Z; seedPrimary : string; seedISR : list string }.

Definition pbShardControlSeeds (placement : list (list string)) : list pbShardSeed :=
  omap (fun '(i, owners) => match owners with [] => None | o :: _ => Some (MkSeed (Z.of_nat i) o owners) end)
    (imap (fun i owners => (i, owners)) placement).

(** ** State *)

Record KVIndexEntry := MkKVIndexEntry { Def : KVIndexDef; MetaIndex : Z }.
Record ReshardEntry := MkReshardEntry { Status : Z; TargetP : Z; TargetGen : Z; SourceP : Z; SourceGen : Z }.
Record AliasAction := MkAliasAction { Alias : string; Canonical : string; Delete : bool }.

#[export] Instance KVIndexEntry_eq_dec : EqDecision KVIndexEntry.
Proof. solve_decision. Defined.
#[export] Instance ReshardEntry_eq_dec : EqDecision ReshardEntry.
Proof. solve_decision. Defined.

Record State := MkState {
  NumShards : Z;
  Members : list Peer;
  Placement : list (list string);
  Catalog : gmap string Z;
  CatalogGen : gmap string Z;
  CatalogReshard : gmap string ReshardEntry;
  Aliases : gmap string string;
  ShardEpoch : gmap Z Z;
  ShardPrimary : gmap Z string;
  ShardFormer : gmap Z string;
  ShardISR : gmap Z (list string);
  KVIndexes : gmap bytes KVIndexEntry;
  MinISR : Z;
  ReplicationFactor : Z;
  ReplicationFactorSet : bool;
  LastIndex : Z;
  PopulatedFields : list string;
}.

#[export] Instance State_eq_dec : EqDecision State.
Proof. solve_decision. Defined.

Definition zeroState : State := MkState 0 [] [] ∅ ∅ ∅ ∅ ∅ ∅ ∅ ∅ ∅ 0 0 false 0 [].

(** Assignments to one field. *)
Definition set_NumShards x (s : State) := MkState x (Members s) (Placement s) (Catalog s) (CatalogGen s) (CatalogReshard s) (Aliases s) (ShardEpoch s) (ShardPrimary s) (ShardFormer s) (ShardISR s) (KVIndexes s) (MinISR s) (ReplicationFactor s) (ReplicationFactorSet s) (LastIndex s) (PopulatedFields s).
Definition set_Members x (s : State) := MkState (NumShards s) x (Placement s) (Catalog s) (CatalogGen s) (CatalogReshard s) (Aliases s) (ShardEpoch s) (ShardPrimary s) (ShardFormer s) (ShardISR s) (KVIndexes s) (MinISR s) (ReplicationFactor s) (ReplicationFactorSet s) (LastIndex s) (PopulatedFields s).
Definition set_Placement x (s : State) := MkState (NumShards s) (Members s) x (Catalog s) (CatalogGen s) (CatalogReshard s) (Aliases s) (ShardEpoch s) (ShardPrimary s) (ShardFormer s) (ShardISR s) (KVIndexes s) (MinISR s) (ReplicationFactor s) (ReplicationFactorSet s) (LastIndex s) (PopulatedFields s).
Definition set_Catalog x (s : State) := MkState (NumShards s) (Members s) (Placement s) x (CatalogGen s) (CatalogReshard s) (Aliases s) (ShardEpoch s) (ShardPrimary s) (ShardFormer s) (ShardISR s) (KVIndexes s) (MinISR s) (ReplicationFactor s) (ReplicationFactorSet s) (LastIndex s) (PopulatedFields s).
Definition set_CatalogGen x (s : State) := MkState (NumShards s) (Members s) (Placement s) (Catalog s) x (CatalogReshard s) (Aliases s) (ShardEpoch s) (ShardPrimary s) (ShardFormer s) (ShardISR s) (KVIndexes s) (MinISR s) (ReplicationFactor s) (ReplicationFactorSet s) (LastIndex s) (PopulatedFields s).
Definition set_CatalogReshard x (s : State) := MkState (NumShards s) (Members s) (Placement s) (Catalog s) (CatalogGen s) x (Aliases s) (ShardEpoch s) (ShardPrimary s) (ShardFormer s) (ShardISR s) (KVIndexes s) (MinISR s) (ReplicationFactor s) (ReplicationFactorSet s) (LastIndex s) (PopulatedFields s).
Definition set_Aliases x (s : State) := MkState (NumShards s) (Members s) (Placement s) (Catalog s) (CatalogGen s) (CatalogReshard s) x (ShardEpoch s) (ShardPrimary s) (ShardFormer s) (ShardISR s) (KVIndexes s) (MinISR s) (ReplicationFactor s) (ReplicationFactorSet s) (LastIndex s) (PopulatedFields s).
Definition set_ShardEpoch x (s : State) := MkState (NumShards s) (Members s) (Placement s) (Catalog s) (CatalogGen s) (CatalogReshard s) (Aliases s) x (ShardPrimary s) (ShardFormer s) (ShardISR s) (KVIndexes s) (MinISR s) (ReplicationFactor s) (ReplicationFactorSet s) (LastIndex s) (PopulatedFields s).
Definition set_ShardPrimary x (s : State) := MkState (NumShards s) (Members s) (Placement s) (Catalog s) (CatalogGen s) (CatalogReshard s) (Aliases s) (ShardEpoch s) x (ShardFormer s) (ShardISR s) (KVIndexes s) (MinISR s) (ReplicationFactor s) (ReplicationFactorSet s) (LastIndex s) (PopulatedFields s).
Definition set_ShardFormer x (s : State) := MkState (NumShards s) (Members s) (Placement s) (Catalog s) (CatalogGen s) (CatalogReshard s) (Aliases s) (ShardEpoch s) (ShardPrimary s) x (ShardISR s) (KVIndexes s) (MinISR s) (ReplicationFactor s) (ReplicationFactorSet s) (LastIndex s) (PopulatedFields s).
Definition set_ShardISR x (s : State) := MkState (NumShards s) (Members s) (Placement s) (Catalog s) (CatalogGen s) (CatalogReshard s) (Aliases s) (ShardEpoch s) (ShardPrimary s) (ShardFormer s) x (KVIndexes s) (MinISR s) (ReplicationFactor s) (ReplicationFactorSet s) (LastIndex s) (PopulatedFields s).
Definition set_KVIndexes x (s : State) := MkState (NumShards s) (Members s) (Placement s) (Catalog s) (CatalogGen s) (CatalogReshard s) (Aliases s) (ShardEpoch s) (ShardPrimary s) (ShardFormer s) (ShardISR s) x (MinISR s) (ReplicationFactor s) (ReplicationFactorSet s) (LastIndex s) (PopulatedFields s).
Definition set_MinISR x (s : State) := MkState (NumShards s) (Members s) (Placement s) (Catalog s) (CatalogGen s) (CatalogReshard s) (Aliases s) (ShardEpoch s) (ShardPrimary s) (ShardFormer s) (ShardISR s) (KVIndexes s) x (ReplicationFactor s) (ReplicationFactorSet s) (LastIndex s) (PopulatedFields s).
Definition set_ReplicationFactor x (s : State) := MkState (NumShards s) (Members s) (Placement s) (Catalog s) (CatalogGen s) (CatalogReshard s) (Aliases s) (ShardEpoch s) (ShardPrimary s) (ShardFormer s) (ShardISR s) (KVIndexes s) (MinISR s) x (ReplicationFactorSet s) (LastIndex s) (PopulatedFields s).
Definition set_ReplicationFactorSet x (s : State) := MkState (NumShards s) (Members s) (Placement s) (Catalog s) (CatalogGen s) (CatalogReshard s) (Aliases s) (ShardEpoch s) (ShardPrimary s) (ShardFormer s) (ShardISR s) (KVIndexes s) (MinISR s) (ReplicationFactor s) x (LastIndex s) (PopulatedFields s).
Definition set_LastIndex x (s : State) := MkState (NumShards s) (Members s) (Placement s) (Catalog s) (CatalogGen s) (CatalogReshard s) (Aliases s) (ShardEpoch s) (ShardPrimary s) (ShardFormer s) (ShardISR s) (KVIndexes s) (MinISR s) (ReplicationFactor s) (ReplicationFactorSet s) x (PopulatedFields s).
Definition set_PopulatedFields x (s : State) := MkState (NumShards s) (Members s) (Placement s) (Catalog s) (CatalogGen s) (CatalogReshard s) (Aliases s) (ShardEpoch s) (ShardPrimary s) (ShardFormer s) (ShardISR s) (KVIndexes s) (MinISR s) (ReplicationFactor s) (ReplicationFactorSet s) (LastIndex s) x.

(** ** Log entries *)

Definition OpSetMembers : Z := 1.
Definition OpSetPlacement : Z := 4.
Definition OpSetCatalogEntry : Z := 5.
Definition OpSetCatalogReshard : Z := 6.
Definition OpSetAliasBatch : Z := 7.
Definition OpSetShardEpoch : Z := 8.
Definition OpSetShardISR : Z := 9.
Definition OpShardLeaseRenew : Z := 10.
Definition OpSetShardFormer : Z := 11.
Definition OpSetKVIndex : Z := 12.

(** [logBody]: the fields of an entry after its op. *)
Record logBody := MkBody {
  eMembers : list Peer;
  eNumShards : Z;
  eReplicationFactor : Z;
  eShardID : Z;
  eOwners : list string;
  eCollection : string;
  ePartitions : Z;
  eGeneration : Z;
  eReshardStatus : Z;
  eReshardTargetP : Z;
  eReshardTargetGen : Z;
  eReshardSourceP : Z;
  eReshardSourceGen : Z;
  eAliasBatch : list AliasAction;
  eEpoch : Z;
  ePrimary : string;
  eISR : list string;
  eNode : string;
  eLeaseRenew : list (Z * Z);
  eMinISR : Z;
  eKVIndex : KVIndexDef;
}.

Record LogEntry := MkLogEntry { Op : Z; Body :> logBody }.

Definition noKVIndex : KVIndexDef := MkKVIndexDef [] [] [] 0 false.

Inductive merr :=
| errDecode | errNegativeShard | errEmptyNode | errKVIndex | errKVIndexCap | errMetaUnknownOp
| errNotLeader | errPartitions | errEmptyState | errUnknownFields.

#[export] Instance merr_eq_dec : EqDecision merr.
Proof. solve_decision. Defined.

(** An entry in the log is the byte of its op and the body, as package
    encoding/gob writes it. *)
Section Gob.
Context (gobEncode : logBody -> bytes) (gobDecode : bytes -> option logBody).

Definition encodeLogEntry (e : LogEntry) : bytes := le_put 1 (Op e) ++ gobEncode (Body e).

Definition decodeLogEntry (b : bytes) : outcome merr LogEntry :=
  if blen b <? 1 then Err errDecode else
  op ← byte_at b 0;
  rest ← slice_from b 1;
  match gobDecode rest with
  | Some body => Ok (MkLogEntry op body)
  | None => Err errDecode
  end.
End Gob.

(** ** Proposals

    The entry each proposer of meta.go hands to the log, when it does. *)
Definition setMembersEntry (peers : list Peer) (numShards rf minISR : Z) : LogEntry :=
  MkLogEntry OpSetMembers (MkBody peers numShards rf 0 [] noName 0 0 0 0 0 0 0 [] 0 noName [] noName [] minISR noKVIndex).

(** Nothing is proposed on a follower or when nothing would change. *)
Definition ApplySetMembersIfLeader (leader : bool) (st : State) (peers : list Peer) (numShards rf minISR : Z) : option LogEntry :=
  if negb leader then None else
  let sortedPeers := sortPeers peers in
  if (NumShards st =? numShards) && (MinISR st =? minISR) && (ReplicationFactorSet st && (ReplicationFactor st =? rf)) &&
     peerSlicesEqual (Members st) sortedPeers
  then None
  else Some (setMembersEntry sortedPeers numShards rf minISR).

Definition ifLeader (leader : bool) (e : LogEntry) : outcome merr LogEntry := if leader then Ok e else Err errNotLeader.

Definition ApplySetPlacement (leader : bool) (shardID numShards : Z) (owners : list string) : outcome merr LogEntry :=
  ifLeader leader (MkLogEntry OpSetPlacement (MkBody [] numShards 0 shardID owners noName 0 0 0 0 0 0 0 [] 0 noName [] noName [] 0 noKVIndex)).

Definition ApplySetShardSeed (leader : bool) (shardID epoch : Z) (primary : string) (isr : list string) : outcome merr LogEntry :=
  ifLeader leader (MkLogEntry OpSetShardEpoch (MkBody [] 0 0 shardID [] noName 0 0 0 0 0 0 0 [] epoch primary isr noName [] 0 noKVIndex)).

Definition ApplySetShardEpoch (leader : bool) (shardID epoch : Z) (primary : string) : outcome merr LogEntry :=
  ifLeader leader (MkLogEntry OpSetShardEpoch (MkBody [] 0 0 shardID [] noName 0 0 0 0 0 0 0 [] epoch primary [] noName [] 0 noKVIndex)).

Definition ApplySetShardISR (leader : bool) (shardID epoch : Z) (isr : list string) : outcome merr LogEntry :=
  ifLeader leader (MkLogEntry OpSetShardISR (MkBody [] 0 0 shardID [] noName 0 0 0 0 0 0 0 [] epoch noName isr noName [] 0 noKVIndex)).

Definition ApplyShardLeaseRenew (leader : bool) (node : string) (renews : list (Z * Z)) : outcome merr (option LogEntry) :=
  if negb leader then Err errNotLeader else
  if blen renews =? 0 then Ok None else
  Ok (Some (MkLogEntry OpShardLeaseRenew (MkBody [] 0 0 0 [] noName 0 0 0 0 0 0 0 [] 0 noName [] node renews 0 noKVIndex))).

Definition ApplySetShardFormer (leader : bool) (shardID : Z) (node : string) : outcome merr LogEntry :=
  ifLeader leader (MkLogEntry OpSetShardFormer (MkBody [] 0 0 shardID [] noName 0 0 0 0 0 0 0 [] 0 noName [] node [] 0 noKVIndex)).

Definition ApplySetCatalogEntry (leader : bool) (collection : string) (partitions generation : Z) : outcome merr LogEntry :=
  if partitions =? 0 then Err errPartitions else
  ifLeader leader (MkLogEntry OpSetCatalogEntry (MkBody [] 0 0 0 [] collection partitions generation 0 0 0 0 0 [] 0 noName [] noName [] 0 noKVIndex)).

Definition ApplySetCatalogReshard (leader : bool) (collection : string) (e : ReshardEntry) : outcome merr LogEntry :=
  ifLeader leader (MkLogEntry OpSetCatalogReshard
    (MkBody [] 0 0 0 [] collection 0 0 (Status e) (TargetP e) (TargetGen e) (SourceP e) (SourceGen e) [] 0 noName [] noName [] 0 noKVIndex)).

Definition ApplySetAliasBatch (leader : bool) (actions : list AliasAction) : outcome merr LogEntry :=
  ifLeader leader (MkLogEntry OpSetAliasBatch (MkBody [] 0 0 0 [] noName 0 0 0 0 0 0 0 actions 0 noName [] noName [] 0 noKVIndex)).

(** [bootstrapPBShardControl]: one entry per shard, up to the first proposal that is
    refused. [leader] says where the node still is the leader. *)
Fixpoint bootstrapPBShardControl (leader : Z -> bool) (seeds : list pbShardSeed) (epoch : Z) : list LogEntry * option merr :=
  match seeds with
  | [] => ([], None)
  | s :: seeds =>
      match ApplySetShardSeed (leader (seedShard s)) (seedShard s) epoch (seedPrimary s) (seedISR s) with
      | Ok e => let '(l, err) := bootstrapPBShardControl leader seeds epoch in (e :: l, err)
      | Err err => ([], Some err)
      | Panic => ([], None)
      end
  end.

End MetaState.
