(* ===== verification/MetaFSM.v ===== *)
(** * The meta-Raft state machine (src/cluster/meta_fsm.go).

    [Apply] runs one entry of the log. Every node applies the same entries in the
    same order, so a node's state is a function of how many it has applied. *)
From stdpp Require Import strings.
From S2P Require Import Prelude Wire KVIndex MetaState.
Import KVIndex MetaState.

Module MetaFSM.

(** [renewals] are the calls of [leaseRenewObserver], when one is installed;
    [halted] says the process has stopped on an entry it does not know. *)
Record MetaFSM := MkMetaFSM {
  state : State;
  appliedIndex : Z;
  observing : bool;
  renewals : list (Z * Z);
  halted : bool;
}.

(** What [Apply] returns: nil, a bool or an error. *)
Inductive resp := RNil | RBool (b : bool) | RErr (e : merr).

#[export] Instance resp_eq_dec : EqDecision resp.
Proof. solve_decision. Defined.

Definition NewMetaFSM : MetaFSM := MkMetaFSM zeroState 0 false [] false.

Definition upd (f : State -> State) (m : MetaFSM) : MetaFSM := MkMetaFSM (f (state m)) (appliedIndex m) (observing m) (renewals m) (halted m).
Definition SetLeaseRenewObserver (on : bool) (m : MetaFSM) : MetaFSM := MkMetaFSM (state m) (appliedIndex m) on (renewals m) (halted m).
Definition advanceApplied (idx : Z) (m : MetaFSM) : MetaFSM :=
  if idx <=? appliedIndex m then m else MkMetaFSM (state m) idx (observing m) (renewals m) (halted m).
Definition observe (shardID epoch : Z) (m : MetaFSM) : MetaFSM :=
  MkMetaFSM (state m) (appliedIndex m) (observing m) (renewals m ++ [(shardID, epoch)]) (halted m).
Definition fireFatalApply (m : MetaFSM) : MetaFSM := MkMetaFSM (state m) (appliedIndex m) (observing m) (renewals m) true.

(** ** Reads *)

Definition KVIndexLookup (m : MetaFSM) (name : bytes) : option KVIndexEntry := KVIndexes (state m) !! name.
Definition CatalogLookup (m : MetaFSM) (c : string) : option Z := Catalog (state m) !! c.
Definition CatalogLookupGen (m : MetaFSM) (c : string) : option Z * Z := (Catalog (state m) !! c, default 0 (CatalogGen (state m) !! c)).
Definition CatalogReshardLookup (m : MetaFSM) (c : string) : ReshardEntry * bool :=
  let e := default (MkReshardEntry 0 0 0 0 0) (CatalogReshard (state m) !! c) in (e, negb (Status e =? 0)).
Definition AliasLookup (m : MetaFSM) (a : string) : option string := Aliases (state m) !! a.
Definition ServerAddrForRaftAddr (m : MetaFSM) (raftAddr : string) : string :=
  match list_find (fun p => RaftAddr p = raftAddr) (Members (state m)) with Some (_, p) => ServerAddr p | None => noName end.

Definition epochOf (s : State) (shardID : Z) : Z := default 0 (ShardEpoch s !! shardID).
Definition primaryOf (s : State) (shardID : Z) : string := default noName (ShardPrimary s !! shardID).
Definition isrOf (s : State) (shardID : Z) : list string := default [] (ShardISR s !! shardID).
Definition formerOf (s : State) (shardID : Z) : string := default noName (ShardFormer s !! shardID).

(** ** Apply *)

(** [seedISRForEpoch] *)
Definition seedISRForEpoch (primary : string) (isr : list string) : list string :=
  if existsb (fun m => bool_decide (m = primary)) isr then isr else [primary].

Definition setMembers (e : LogEntry) : st MetaFSM merr resp :=
  let sorted := sortPeers (eMembers e) in
  s ← gets state;
  let backfill := negb (ReplicationFactorSet s) && (NumShards s =? eNumShards e) && peerSlicesEqual (Members s) sorted in
  modify (upd (set_Members sorted));;
  modify (upd (set_NumShards (eNumShards e)));;
  modify (upd (set_ReplicationFactor (eReplicationFactor e)));;
  modify (upd (set_ReplicationFactorSet true));;
  (if backfill then mret tt else
     p ← lift (computePlacement sorted (eNumShards e) (eReplicationFactor e));
     modify (upd (set_Placement p)));;
  (if 0 <? eMinISR e then modify (upd (set_MinISR (eMinISR e))) else mret tt);;
  mret RNil.

Definition setPlacement (e : LogEntry) : st MetaFSM merr resp :=
  if eShardID e <? 0 then mret (RErr errNegativeShard) else
  let want := if eNumShards e <? toInt (eShardID e + 1) then toInt (eShardID e + 1) else eNumShards e in
  s ← gets state;
  (if NumShards s <? want then modify (upd (set_NumShards want)) else mret tt);;
  let p := Placement s ++ replicate (Z.to_nat (want - blen (Placement s))) [] in
  modify (upd (set_Placement p));;
  if blen p <=? eShardID e then panic else
  modify (upd (set_Placement (<[Z.to_nat (eShardID e) := eOwners e]> p)));;
  mret RNil.

Definition setCatalogEntry (e : LogEntry) : st MetaFSM merr resp :=
  modify (upd (fun s => set_Catalog (<[eCollection e := ePartitions e]> (Catalog s)) s));;
  modify (upd (fun s => set_CatalogGen (<[eCollection e := eGeneration e]> (CatalogGen s)) s));;
  mret RNil.

Definition setCatalogReshard (e : LogEntry) : st MetaFSM merr resp :=
  (if eReshardStatus e =? 0
   then modify (upd (fun s => set_CatalogReshard (delete (eCollection e) (CatalogReshard s)) s))
   else
     let r := MkReshardEntry (eReshardStatus e) (eReshardTargetP e) (eReshardTargetGen e) (eReshardSourceP e) (eReshardSourceGen e) in
     modify (upd (fun s => set_CatalogReshard (<[eCollection e := r]> (CatalogReshard s)) s)));;
  mret RNil.

Definition aliasStep (m : gmap string string) (a : AliasAction) : gmap string string :=
  if Delete a then delete (Alias a) m else <[Alias a := Canonical a]> m.
Definition setAliasBatch (e : LogEntry) : st MetaFSM merr resp :=
  modify (upd (fun s => set_Aliases (foldl aliasStep (Aliases s) (eAliasBatch e)) s));;
  mret RNil.

Definition setShardEpoch (e : LogEntry) : st MetaFSM merr resp :=
  s ← gets state;
  if eEpoch e <=? epochOf s (eShardID e) then mret RNil else
  modify (upd (fun s => set_ShardEpoch (<[eShardID e := eEpoch e]> (ShardEpoch s)) s));;
  modify (upd (fun s => set_ShardPrimary (<[eShardID e := ePrimary e]> (ShardPrimary s)) s));;
  modify (upd (fun s => set_ShardISR (<[eShardID e := seedISRForEpoch (ePrimary e) (eISR e)]> (ShardISR s)) s));;
  mret RNil.

Definition setShardISR (e : LogEntry) : st MetaFSM merr resp :=
  s ← gets state;
  if negb (eEpoch e =? epochOf s (eShardID e)) then mret RNil else
  if (blen (eISR e) =? 0) || ((0 <? MinISR s) && (blen (eISR e) <? MinISR s)) then mret RNil else
  modify (upd (fun s => set_ShardISR (<[eShardID e := eISR e]> (ShardISR s)) s));;
  mret RNil.

Fixpoint renewLoop (node : string) (pairs : list (Z * Z)) : st MetaFSM merr unit :=
  match pairs with
  | [] => mret tt
  | (shardID, ep) :: pairs =>
      s ← gets state;
      (if negb (bool_decide (node = noName)) && bool_decide (node = primaryOf s shardID) && (ep =? epochOf s shardID)
       then modify (observe shardID ep) else mret tt);;
      renewLoop node pairs
  end.
Definition shardLeaseRenew (e : LogEntry) : st MetaFSM merr resp :=
  o ← gets observing;
  (if o : bool then renewLoop (eNode e) (eLeaseRenew e) else mret tt);;
  mret RNil.

Definition setKVIndex (idx : Z) (e : LogEntry) : st MetaFSM merr resp :=
  match Validate (eKVIndex e) with
  | Ok _ =>
      let name := Name (eKVIndex e) in
      if negb (Enabled (eKVIndex e)) then modify (upd (fun s => set_KVIndexes (delete name (KVIndexes s)) s));; mret RNil else
      s ← gets state;
      if negb (bool_decide (is_Some (KVIndexes s !! name))) && (KVIndexMaxDefs <=? Z.of_nat (size (KVIndexes s)))
      then mret (RErr errKVIndexCap)
      else modify (upd (fun s => set_KVIndexes (<[name := MkKVIndexEntry (eKVIndex e) idx]> (KVIndexes s)) s));; mret RNil
  | _ => mret (RErr errKVIndex)
  end.

Definition setShardFormer (e : LogEntry) : st MetaFSM merr resp :=
  if eShardID e <? 0 then mret (RErr errNegativeShard) else
  if bool_decide (eNode e = noName) then mret (RErr errEmptyNode) else
  s ← gets state;
  if bool_decide (is_Some (ShardFormer s !! eShardID e)) then mret (RBool false) else
  modify (upd (fun s => set_ShardFormer (<[eShardID e := eNode e]> (ShardFormer s)) s));;
  mret (RBool true).

(** The switch on the op; the flag is [skipAdvance]. *)
Definition applyEntry (idx : Z) (e : LogEntry) : st MetaFSM merr (resp * bool) :=
  let known m := (r ← m; mret (r, false)) in
  if Op e =? OpSetMembers then known (setMembers e) else
  if Op e =? OpSetPlacement then known (setPlacement e) else
  if Op e =? OpSetCatalogEntry then known (setCatalogEntry e) else
  if Op e =? OpSetCatalogReshard then known (setCatalogReshard e) else
  if Op e =? OpSetAliasBatch then known (setAliasBatch e) else
  if Op e =? OpSetShardEpoch then known (setShardEpoch e) else
  if Op e =? OpSetShardISR then known (setShardISR e) else
  if Op e =? OpShardLeaseRenew then known (shardLeaseRenew e) else
  if Op e =? OpSetKVIndex then known (setKVIndex idx e) else
  if Op e =? OpSetShardFormer then known (setShardFormer e) else
  modify fireFatalApply;; mret (RErr errMetaUnknownOp, true).

Section Apply.
Context (gobDecode : bytes -> option logBody).

(** The frontier advances when the entry is left, a panic included, except on an
    entry the binary does not know and on one it cannot decode. *)
Definition Apply (idx : Z) (data : bytes) : st MetaFSM merr resp := fun m =>
  match decodeLogEntry gobDecode data with
  | Ok e =>
      match applyEntry idx e m with
      | (m', Ok (r, skipAdvance)) => (if skipAdvance : bool then m' else advanceApplied idx m', Ok r)
      | (m', Err err) => (advanceApplied idx m', Err err)
      | (m', Panic) => (advanceApplied idx m', Panic)
      end
  | Err err => (m, Ok (RErr err))
  | Panic => (m, Panic)
  end.

(** Entries of the log, with their indices, applied in order until the process
    stops. *)
Definition applyOne (m : MetaFSM) (l : Z * bytes) : MetaFSM := if halted m then m else (Apply l.1 l.2 m).1.
Definition applyAll (m : MetaFSM) (log : list (Z * bytes)) : MetaFSM := foldl applyOne m log.
End Apply.

End MetaFSM.
