(* ===== verification/MetaProps.v ===== *)
(** * What the cluster's metadata guarantees, on every node and at every time. *)
From stdpp Require Import strings.
From S2P Require Import Prelude Wire KVIndex MetaState MetaFSM.
Import KVIndex MetaState MetaFSM.

(** ** The changes an entry can make *)

(** What replication and the index catalog are decided from. *)
Definition sameControl (s s' : State) : Prop :=
  ShardEpoch s' = ShardEpoch s /\ ShardPrimary s' = ShardPrimary s /\ ShardISR s' = ShardISR s /\
  ShardFormer s' = ShardFormer s /\ KVIndexes s' = KVIndexes s.

Inductive change (idx : Z) (e : LogEntry) (s : State) : State -> Prop :=
| ChOther s' : sameControl s s' -> MinISR s' = MinISR s \/ MinISR s' = eMinISR e -> change idx e s s'
| ChEpoch :
    Op e = OpSetShardEpoch -> epochOf s (eShardID e) < eEpoch e ->
    change idx e s (set_ShardISR (<[eShardID e := seedISRForEpoch (ePrimary e) (eISR e)]> (ShardISR s))
      (set_ShardPrimary (<[eShardID e := ePrimary e]> (ShardPrimary s)) (set_ShardEpoch (<[eShardID e := eEpoch e]> (ShardEpoch s)) s)))
| ChISR :
    Op e = OpSetShardISR -> eEpoch e = epochOf s (eShardID e) -> eISR e <> [] -> (0 < MinISR s -> MinISR s <= blen (eISR e)) ->
    change idx e s (set_ShardISR (<[eShardID e := eISR e]> (ShardISR s)) s)
| ChDrop : change idx e s (set_KVIndexes (delete (Name (eKVIndex e)) (KVIndexes s)) s)
| ChIndex :
    Op e = OpSetKVIndex -> Validate (eKVIndex e) = Ok tt -> Enabled (eKVIndex e) = true ->
    is_Some (KVIndexes s !! Name (eKVIndex e)) \/ Z.of_nat (size (KVIndexes s)) < KVIndexMaxDefs ->
    change idx e s (set_KVIndexes (<[Name (eKVIndex e) := MkKVIndexEntry (eKVIndex e) idx]> (KVIndexes s)) s)
| ChFormer :
    Op e = OpSetShardFormer -> 0 <= eShardID e -> eNode e <> noName -> ShardFormer s !! eShardID e = None ->
    change idx e s (set_ShardFormer (<[eShardID e := eNode e]> (ShardFormer s)) s).

Lemma change_refl idx e s : change idx e s s.
Proof. constructor; [done|by left]. Qed.

Lemma renewLoop_run node pairs m : exists l, renewLoop node pairs m = (MkMetaFSM (state m) (appliedIndex m) (observing m) (renewals m ++ l) (halted m), Ok tt).
Proof.
  revert m. induction pairs as [|[sh ep] pairs IH]; intros m; cbn.
  { exists []. rewrite app_nil_r. by destruct m. }
  unfold mbind, st_bind, gets. destruct (negb (bool_decide (node = noName)) && _ && _); cbn.
  - destruct (IH (observe sh ep m)) as [l Hl]. exists ((sh, ep) :: l). etransitivity; [exact Hl|]. cbn. by rewrite <- app_assoc.
  - destruct (IH m) as [l Hl]. by exists l.
Qed.

Ltac run_st := unfold mbind, st_bind, gets, modify, lift, mret, st_ret, panic; cbn -[Z.ltb Z.leb Z.eqb computePlacement Validate size seedISRForEpoch sortPeers toInt replicate Z.to_nat Z.sub Z.add blen].

Lemma setMembers_change idx e m : change idx e (state m) (state (setMembers e m).1).
Proof.
  unfold setMembers. destruct m as [s ? ? ? ?]. run_st.
  repeat (case_match; run_st; simplify_eq); (constructor; [done|by (left + right)]).
Qed.

Lemma setPlacement_change idx e m : change idx e (state m) (state (setPlacement e m).1).
Proof.
  unfold setPlacement. destruct m as [s ? ? ? ?]. destruct (eShardID e <? 0); [apply change_refl|]. run_st.
  destruct (NumShards s <? _); run_st; destruct (_ <=? eShardID e); run_st; (constructor; [done|by left]).
Qed.

Lemma setShardEpoch_change idx e m : Op e = OpSetShardEpoch -> change idx e (state m) (state (setShardEpoch e m).1).
Proof.
  intros Ho. unfold setShardEpoch. destruct m as [s ? ? ? ?]. run_st.
  destruct (Z.leb_spec (eEpoch e) (epochOf s (eShardID e))); [apply change_refl|]. run_st. by apply ChEpoch.
Qed.

Lemma setShardISR_change idx e m : Op e = OpSetShardISR -> change idx e (state m) (state (setShardISR e m).1).
Proof.
  intros Ho. unfold setShardISR. destruct m as [s ? ? ? ?]. run_st.
  destruct (Z.eqb_spec (eEpoch e) (epochOf s (eShardID e))) as [He|]; [|apply change_refl]. run_st.
  destruct (Z.eqb_spec (blen (eISR e)) 0) as [|Hn]; [apply change_refl|].
  destruct (Z.ltb_spec 0 (MinISR s)), (Z.ltb_spec (blen (eISR e)) (MinISR s)); run_st; try apply change_refl;
    (apply ChISR; [done|done|by intros Hl; rewrite Hl in Hn|lia]).
Qed.

Lemma setKVIndex_change idx e m : Op e = OpSetKVIndex -> change idx e (state m) (state (setKVIndex idx e m).1).
Proof.
  intros Ho. unfold setKVIndex. destruct m as [s ? ? ? ?]. destruct (Validate (eKVIndex e)) as [[]| |] eqn:Ev; [|apply change_refl..].
  destruct (Enabled (eKVIndex e)) eqn:En; run_st; [|apply ChDrop].
  destruct (bool_decide_reflect (is_Some (KVIndexes s !! Name (eKVIndex e)))),
    (Z.leb_spec KVIndexMaxDefs (Z.of_nat (size (KVIndexes s)))); run_st; try apply change_refl; (apply ChIndex; by auto).
Qed.

Lemma setShardFormer_change idx e m : Op e = OpSetShardFormer -> change idx e (state m) (state (setShardFormer e m).1).
Proof.
  intros Ho. unfold setShardFormer. destruct m as [s ? ? ? ?]. destruct (Z.ltb_spec (eShardID e) 0); [apply change_refl|].
  destruct (bool_decide_reflect (eNode e = noName)); [apply change_refl|]. run_st.
  destruct (bool_decide_reflect (is_Some (ShardFormer s !! eShardID e))); [apply change_refl|]. run_st.
  apply ChFormer; [done..|]. by apply eq_None_not_Some.
Qed.

Lemma known_fst (h : st MetaFSM merr resp) m : (r ← h; mret (r, false) : st MetaFSM merr (resp * bool)) m =
  ((h m).1, match (h m).2 with Ok r => Ok (r, false) | Err e => Err e | Panic => Panic end).
Proof. unfold mbind, st_bind. by destruct (h m) as [? []]. Qed.

Ltac eat := first [by apply change_refl | by apply setMembers_change | by apply setPlacement_change | by apply setShardEpoch_change |
  by apply setShardISR_change | by apply setKVIndex_change | by apply setShardFormer_change | constructor; [done|by left]].

Lemma applyEntry_change idx e m : change idx e (state m) (state (applyEntry idx e m).1).
Proof.
  unfold applyEntry.
  repeat match goal with |- context [if Op e =? ?o then _ else _] =>
    destruct (Z.eqb_spec (Op e) o) as [Ho|_]; [rewrite known_fst; cbn [fst]; try eat|] end; try eat.
  - unfold setCatalogReshard. destruct m. destruct (eReshardStatus e =? 0); eat.
  - unfold shardLeaseRenew. run_st. destruct (observing m); run_st; [|apply change_refl].
    destruct (renewLoop_run (eNode e) (eLeaseRenew e) m) as [l ->]. apply change_refl.
Qed.

(** ** Replicas *)

(** Within a shard an epoch never goes back, and while it stays its primary does. *)
Definition leads (sh : Z) (s s' : State) : Prop :=
  epochOf s sh <= epochOf s' sh /\ (epochOf s sh = epochOf s' sh -> primaryOf s sh = primaryOf s' sh).

#[export] Instance leads_preorder sh : PreOrder (leads sh).
Proof.
  split; [done|]. intros a b c [H1 H2] [H3 H4]. split; [lia|]. intros H. rewrite H2 by lia. apply H4. lia.
Qed.

Lemma change_leads sh idx e s s' : change idx e s s' -> leads sh s s'.
Proof.
  intros [s1 (He & Hp & _) _|_ Hlt| | | |]; [unfold leads, epochOf, primaryOf; by rewrite He, Hp| |done..].
  unfold leads, epochOf, primaryOf in *. cbn. destruct (decide (sh = eShardID e)) as [->|Hn].
  - rewrite !lookup_insert_eq. cbn. lia.
  - by rewrite !lookup_insert_ne.
Qed.

(** A designated former stays. *)
Definition keepsFormers (s s' : State) : Prop := ShardFormer s ⊆ ShardFormer s'.

Lemma change_formers idx e s s' : change idx e s s' -> keepsFormers s s'.
Proof.
  unfold keepsFormers. intros [s1 (_ & _ & _ & Hf & _) _| | | | |_ _ _ Hn]; [by rewrite Hf|done..|]. cbn. by apply insert_subseteq.
Qed.

(** The index catalog: at most [KVIndexMaxDefs] definitions, each enabled, valid and
    under its name. *)
Definition kvCatalog (m : gmap bytes KVIndexEntry) : Prop :=
  Z.of_nat (size m) <= KVIndexMaxDefs /\
  map_Forall (fun name e => name = Name (Def e) /\ Validate (Def e) = Ok tt /\ Enabled (Def e) = true) m.

Lemma change_kv idx e s s' : change idx e s s' -> kvCatalog (KVIndexes s) -> kvCatalog (KVIndexes s').
Proof.
  unfold kvCatalog. intros [s1 (_ & _ & _ & _ & Hk) _| | | |_ Hv Hen Hroom|] [Hs Hf]; [by rewrite Hk|done..| | |done]; cbn.
  - split; [|by apply map_Forall_delete]. rewrite map_size_delete. unfold id; case_match; lia.
  - split; [|by apply map_Forall_insert_2].
    rewrite map_size_insert. destruct (KVIndexes s !! Name (eKVIndex e)); cbn; destruct Hroom as [[? ?]|]; simplify_eq; lia.
Qed.

(** A shard that has an epoch has members in sync, and as many as the floor asks
    unless the set is the one its epoch started with. *)
Definition isrSound (s : State) : Prop :=
  forall sh, 0 < epochOf s sh -> isrOf s sh <> [].

Lemma seedISR_primary p isr : p ∈ seedISRForEpoch p isr.
Proof.
  unfold seedISRForEpoch. destruct (existsb _ isr) eqn:E; [|set_solver].
  apply existsb_exists in E as (x & Hx & Hp). apply bool_decide_eq_true in Hp as ->. by apply list_elem_of_In.
Qed.

Lemma change_isr idx e s s' : change idx e s s' -> isrSound s -> isrSound s'.
Proof.
  intros Hc Hs sh. destruct Hc as [s1 (He & _ & Hi & _) _|_ Hlt|_ He Hne _| | |]; try apply Hs.
  - unfold epochOf, isrOf. rewrite He, Hi. apply Hs.
  - unfold epochOf, isrOf in *. cbn. destruct (decide (sh = eShardID e)) as [->|Hn].
    + rewrite !lookup_insert_eq. cbn. intros _ Hnil. pose proof (seedISR_primary (ePrimary e) (eISR e)) as Hp. rewrite Hnil in Hp. set_solver.
    + rewrite !lookup_insert_ne by done. apply Hs.
  - unfold epochOf, isrOf in *. cbn. destruct (decide (sh = eShardID e)) as [->|Hn]; [by rewrite lookup_insert_eq|].
    rewrite lookup_insert_ne by done. apply Hs.
Qed.

Section Replicas.
Context (gobDecode : bytes -> option logBody).
Local Abbreviation applyAll := (applyAll gobDecode).

(** A relation every change respects holds along the log. *)
Lemma applyAll_rel (R : State -> State -> Prop) `{!PreOrder R} m log :
  (forall idx e s s', change idx e s s' -> R s s') -> R (state m) (state (applyAll m log)).
Proof.
  intros HR. revert m. induction log as [|l log IH]; intros m; [done|]. cbn. etransitivity; [|apply IH].
  unfold applyOne, Apply. destruct (halted m); [done|]. destruct (decodeLogEntry gobDecode l.2) as [e| |]; [|done..].
  pose proof (HR _ _ _ _ (applyEntry_change l.1 e m)) as H. destruct (applyEntry l.1 e m) as [m' o].
  assert (forall i, state (advanceApplied i m') = state m') as Ha by (intros i; unfold advanceApplied; by case_match).
  destruct o as [[r []]| |]; cbn in *; by rewrite ?Ha.
Qed.

(** A property of states every change keeps. *)
Lemma applyAll_inv (P : State -> Prop) m log :
  (forall idx e s s', change idx e s s' -> P s -> P s') -> P (state m) -> P (state (applyAll m log)).
Proof.
  intros HP. assert (PreOrder (fun s s' => P s -> P s')) by (split; red; auto). by apply (applyAll_rel (fun s s' => P s -> P s')).
Qed.

(** The metadata of a node that has applied the first [i] entries of the log. *)
Definition replica (log : list (Z * bytes)) (i : nat) : State := state (applyAll NewMetaFSM (take i log)).

Lemma replica_rel (R : State -> State -> Prop) `{!PreOrder R} log i j : (i <= j)%nat ->
  (forall idx e s s', change idx e s s' -> R s s') -> R (replica log i) (replica log j).
Proof.
  intros Hij HR. unfold replica. replace (take j log) with (take i log ++ drop i (take j log)).
  2:{ rewrite <- (take_drop i (take j log)) at 2. by rewrite take_take, Nat.min_l. }
  unfold MetaFSM.applyAll at 2. rewrite foldl_app. by apply (applyAll_rel R (applyAll NewMetaFSM (take i log))).
Qed.

Lemma replica_leads sh log i j : (i <= j)%nat -> leads sh (replica log i) (replica log j).
Proof. intros Hij. apply (replica_rel (leads sh)); [done|]. intros ????. apply change_leads. Qed.

(** C8. At whatever point of the log two nodes are, if they see the same epoch of a
    shard they see the same primary, and the one that is further has the later epoch;
    a shard that has an epoch has a set in sync. *)
Theorem one_primary_per_epoch log i j sh :
  (epochOf (replica log i) sh = epochOf (replica log j) sh -> primaryOf (replica log i) sh = primaryOf (replica log j) sh) /\
  ((i <= j)%nat -> epochOf (replica log i) sh <= epochOf (replica log j) sh) /\
  (0 < epochOf (replica log i) sh -> isrOf (replica log i) sh <> []).
Proof.
  repeat split.
  - intros He. destruct (Nat.le_ge_cases i j) as [Hij|Hij]; [by apply (replica_leads sh log i j Hij)|].
    symmetry. by apply (replica_leads sh log j i Hij).
  - intros Hij. apply (replica_leads sh log i j Hij).
  - apply (applyAll_inv isrSound); [apply change_isr|]. unfold isrSound, epochOf. by cbn.
Qed.

(** ** Formation *)

(** The machine after [i] entries, and what it answers to the next one. *)
Definition machine (log : list (Z * bytes)) (i : nat) : MetaFSM := applyAll NewMetaFSM (take i log).
Definition answer (log : list (Z * bytes)) (i : nat) : option (outcome merr resp) :=
  l ← log !! i; if halted (machine log i) then None else Some (Apply gobDecode l.1 l.2 (machine log i)).2.

Lemma machine_S log i l : log !! i = Some l -> machine log (S i) = applyOne gobDecode (machine log i) l.
Proof. intros Hl. unfold machine. erewrite take_S_r by done. unfold MetaFSM.applyAll. by rewrite foldl_app. Qed.

Lemma state_advance i m : state (advanceApplied i m) = state m.
Proof. unfold advanceApplied. by case_match. Qed.

Lemma setShardFormer_true e m : (setShardFormer e m).2 = Ok (RBool true) ->
  ShardFormer (state m) !! eShardID e = None /\ ShardFormer (state (setShardFormer e m).1) !! eShardID e = Some (eNode e).
Proof.
  unfold setShardFormer. destruct m as [s ? ? ? ?]. destruct (eShardID e <? 0); [done|]. destruct (bool_decide (eNode e = noName)); [done|].
  run_st. destruct (bool_decide_reflect (is_Some (ShardFormer s !! eShardID e))); run_st; [done|]. intros _.
  split; [by apply eq_None_not_Some|]. by rewrite lookup_insert_eq.
Qed.

(** An entry of the log that designates a former, and gets it. *)
Definition designates (log : list (Z * bytes)) (i : nat) (sh : Z) (n : string) : Prop :=
  exists idx d e, log !! i = Some (idx, d) /\ decodeLogEntry gobDecode d = Ok e /\ Op e = OpSetShardFormer /\
    eShardID e = sh /\ eNode e = n /\ answer log i = Some (Ok (RBool true)).

Lemma designates_effect log i sh n : designates log i sh n ->
  ShardFormer (replica log i) !! sh = None /\ ShardFormer (replica log (S i)) !! sh = Some n.
Proof.
  intros (idx & d & e & Hl & Hd & Ho & <- & <- & Ha). unfold answer in Ha. rewrite Hl in Ha. cbn in Ha.
  change (replica log (S i)) with (state (machine log (S i))). rewrite (machine_S _ _ _ Hl). unfold applyOne.
  destruct (halted (machine log i)); [done|]. injection Ha as Ha. cbn [fst snd]. unfold Apply in *. rewrite Hd in *.
  assert (applyEntry idx e = (r ← setShardFormer e; mret (r, false))) as Hap by (unfold applyEntry; by rewrite Ho).
  rewrite Hap, known_fst in *. pose proof (setShardFormer_true e (machine log i)) as Ht.
  destruct (setShardFormer e (machine log i)) as [m' [r| |]]; cbn in *; simplify_eq. rewrite state_advance. by apply Ht.
Qed.

Lemma replica_formers log i j : (i <= j)%nat -> keepsFormers (replica log i) (replica log j).
Proof.
  intros Hij. assert (PreOrder keepsFormers) by (split; red; unfold keepsFormers; [done|intros; by etransitivity]).
  apply (replica_rel keepsFormers); [done|]. apply change_formers.
Qed.

(** C32. A shard's Raft group is formed by one node: the proposal that is answered yes
    names the node every later view of the metadata shows, and no other proposal for
    the shard is ever answered yes. *)
Theorem former_is_designated_once log i sh n : designates log i sh n ->
  (forall j, (i < j)%nat -> formerOf (replica log j) sh = n) /\
  (forall j n', designates log j sh n' -> j = i /\ n' = n).
Proof.
  intros Hi. destruct (designates_effect _ _ _ _ Hi) as [Hn Hs].
  assert (forall a b x, (a <= b)%nat -> ShardFormer (replica log a) !! sh = Some x -> ShardFormer (replica log b) !! sh = Some x) as Hk.
  { intros a b x Hab Hx. eapply lookup_weaken; [done|]. by apply replica_formers. }
  split.
  - intros j Hj. unfold formerOf. by rewrite (Hk (S i) j n) by done.
  - intros j n' Hj. destruct (designates_effect _ _ _ _ Hj) as [Hn' Hs'].
    destruct (lt_eq_lt_dec i j) as [[Hij| ->]|Hij].
    + rewrite (Hk (S i) j n) in Hn' by done. done.
    + split; [done|]. congruence.
    + rewrite (Hk (S j) i n') in Hn by done. done.
Qed.

(** ** Entries of a newer binary *)

Definition knownOp (o : Z) : bool := bool_decide (o ∈ [OpSetMembers; OpSetPlacement; OpSetCatalogEntry; OpSetCatalogReshard;
  OpSetAliasBatch; OpSetShardEpoch; OpSetShardISR; OpShardLeaseRenew; OpSetKVIndex; OpSetShardFormer]).

Lemma applyEntry_unknown idx e m : knownOp (Op e) = false -> applyEntry idx e m = (fireFatalApply m, Ok (RErr errMetaUnknownOp, true)).
Proof.
  unfold knownOp. intros Hk%bool_decide_eq_false. unfold applyEntry.
  repeat match goal with |- context [if Op e =? ?o then _ else _] =>
    destruct (Z.eqb_spec (Op e) o) as [Ho|_]; [exfalso; apply Hk; rewrite Ho; set_solver|] end. done.
Qed.

Lemma applyAll_halted m log : halted m = true -> applyAll m log = m.
Proof. intros Hh. induction log as [|l log IH]; [done|]. cbn. unfold applyOne. by rewrite Hh. Qed.

(** A node that meets an entry of an op it does not know stops there: whatever
    follows in the log, its metadata and its applied frontier are those of the entries
    before it. *)
Theorem unknown_op_stops log i idx d e j :
  log !! i = Some (idx, d) -> decodeLogEntry gobDecode d = Ok e -> knownOp (Op e) = false -> (i < j)%nat ->
  halted (machine log j) = true /\ state (machine log j) = state (machine log i) /\ appliedIndex (machine log j) = appliedIndex (machine log i).
Proof.
  intros Hl Hd Hk Hij. assert (machine log j = machine log (S i)) as ->.
  - unfold machine. replace (take j log) with (take (S i) log ++ drop (S i) (take j log)).
    2:{ rewrite <- (take_drop (S i) (take j log)) at 2. by rewrite take_take, Nat.min_l by lia. }
    unfold MetaFSM.applyAll. rewrite foldl_app. apply applyAll_halted. change (halted (machine log (S i)) = true).
    rewrite (machine_S _ _ _ Hl). unfold applyOne, Apply. cbn [fst snd]. rewrite Hd, applyEntry_unknown by done.
    by destruct (halted (machine log i)) eqn:Hh.
  - rewrite (machine_S _ _ _ Hl). unfold applyOne, Apply. cbn [fst snd]. rewrite Hd, applyEntry_unknown by done.
    by destruct (halted (machine log i)) eqn:Hh.
Qed.

End Replicas.
