(* ===== verification/MetaSnapshot.v ===== *)
(** * Snapshots of the metadata (src/cluster/meta_fsm.go, from [SnapshotBytes] on).

    A snapshot names every field that carries data, found by reflection; a binary
    that lacks one of them refuses it. *)
From stdpp Require Import strings.
From S2P Require Import Prelude Wire KVIndex MetaState MetaFSM MetaProps.
Import KVIndex MetaState MetaFSM.

Module MetaSnapshot.

(** ** Reflection *)

(** The kinds of type and value the walks tell apart. A nil slice or map is an
    empty one. *)
#[warnings="-register-all"]
Inductive type :=
| TBasic
| TBytes
| TPtr (t : type)
| TSlice (t : type)
| TMap (k v : type)
| TStruct (fs : list (string * bool * type)).

#[warnings="-register-all"]
Inductive value :=
| VBasic (zero : bool)
| VBytes (b : bytes)
| VPtr (v : option value)
| VSlice (l : list value)
| VMap (l : list (value * value))
| VStruct (fs : list (string * bool * value)).

Definition fld {A} (name : string) (x : A) : string * bool * A := (name, true, x).

(** [IsZero], or an empty map or slice. *)
Fixpoint empty (v : value) : bool :=
  match v with
  | VBasic z => z
  | VBytes b => blen b =? 0
  | VPtr o => match o with None => true | Some _ => false end
  | VSlice l => blen l =? 0
  | VMap l => blen l =? 0
  | VStruct fs => (fix go (fs : list (string * bool * value)) := match fs with [] => true | (_, _, fv) :: fs => empty fv && go fs end) fs
  end.

Definition elems (path : string) : string := (path +:+ "[]")%string.
Definition joinFieldPath (parent name : string) : string :=
  if bool_decide (parent = noName) then name else (parent +:+ "." +:+ name)%string.

(** The paths of the fields that hold data, in the order of the walk. *)
Fixpoint walkPopulatedFields (v : value) (path : string) : list string :=
  match v with
  | VBasic _ | VBytes _ => []
  | VPtr o => match o with Some v => walkPopulatedFields v path | None => [] end
  | VStruct fs =>
      (fix go (fs : list (string * bool * value)) :=
         match fs with
         | [] => []
         | (name, exported, fv) :: fs =>
             if negb exported || empty fv then go fs
             else let p := joinFieldPath path name in p :: walkPopulatedFields fv p ++ go fs
         end) fs
  | VSlice l => (fix go l := match l with [] => [] | x :: l => walkPopulatedFields x (elems path) ++ go l end) l
  | VMap l =>
      (fix go (l : list (value * value)) :=
         match l with
         | [] => []
         | (k, x) :: l => walkPopulatedFields k (elems path) ++ walkPopulatedFields x (elems path) ++ go l
         end) l
  end.

(** The paths of a type. *)
Fixpoint walkType (t : type) (path : string) : list string :=
  match t with
  | TBasic | TBytes => []
  | TPtr t => walkType t path
  | TStruct fs =>
      (fix go (fs : list (string * bool * type)) :=
         match fs with
         | [] => []
         | (name, exported, ft) :: fs =>
             if exported : bool then let p := joinFieldPath path name in p :: walkType ft p ++ go fs else go fs
         end) fs
  | TSlice t => walkType t (elems path)
  | TMap k v => walkType k (elems path) ++ walkType v (elems path)
  end.

(** A value of a type. *)
Inductive typed : value -> type -> Prop :=
| TyBasic z : typed (VBasic z) TBasic
| TyBytes b : typed (VBytes b) TBytes
| TyNil t : typed (VPtr None) (TPtr t)
| TyPtr v t : typed v t -> typed (VPtr (Some v)) (TPtr t)
| TySlice l t : (forall x, x ∈ l -> typed x t) -> typed (VSlice l) (TSlice t)
| TyMap l k t : (forall x, x ∈ l -> typed x.1 k) -> (forall x, x ∈ l -> typed x.2 t) -> typed (VMap l) (TMap k t)
| TyStruct fs ts : fs.*1 = ts.*1 -> (forall i f t, fs !! i = Some f -> ts !! i = Some t -> typed f.2 t.2) -> typed (VStruct fs) (TStruct ts).

(** The paths found in a value are paths of its type. *)
Lemma walk_typed v t path p : typed v t -> p ∈ walkPopulatedFields v path -> p ∈ walkType t path.
Proof.
  intros Ht. revert path. induction Ht as [| | |v t _ IH|l t _ IH|l k t _ IHk _ IHt|fs ts Hn _ IH]; intros path Hp; cbn in *; try by apply elem_of_nil in Hp.
  - by apply IH.
  - induction l as [|x l IHl]; [by apply elem_of_nil in Hp|]. apply elem_of_app in Hp as [Hp|Hp]; [apply (IH x); [left|done]|].
    apply IHl; [|done]. intros y Hy. apply IH. by right.
  - induction l as [|[a b] l IHl]; [by apply elem_of_nil in Hp|]. rewrite !elem_of_app in Hp. apply elem_of_app. destruct Hp as [Hp|[Hp|Hp]].
    + left. apply (IHk (a, b)); [left|done].
    + right. apply (IHt (a, b)); [left|done].
    + apply elem_of_app, IHl; [| |done]; intros y Hy; [apply IHk|apply IHt]; by right.
  - revert ts Hn IH Hp. induction fs as [|[[n ex] fv] fs IHf]; intros [|[[n' ex'] ft] ts] Hn IH Hp; try done; try by apply elem_of_nil in Hp.
    injection Hn as Hn1 Hn2 Hn. subst n' ex'.
    assert (forall i f t, fs !! i = Some f -> ts !! i = Some t -> forall path, p ∈ walkPopulatedFields f.2 path -> p ∈ walkType t.2 path) as IH'.
    { intros i f t Hf Ht'. apply (IH (S i) f t Hf Ht'). }
    destruct ex; cbn in Hp; [|by apply IHf]. destruct (empty fv); [right; apply elem_of_app; right; by apply IHf|].
    apply elem_of_cons in Hp as [->|Hp]; [left|right]. apply elem_of_app in Hp as [Hp|Hp]; apply elem_of_app; [left|right; by apply IHf].
    by apply (IH 0%nat (n, true, fv) (n, true, ft)).
Qed.

(** ** The metadata, reflected *)

Definition vStr (s : string) : value := VBasic (bool_decide (s = noName)).
Definition vInt (x : Z) : value := VBasic (x =? 0).
Definition vBool (b : bool) : value := VBasic (negb b).
Definition vStrs (l : list string) : value := VSlice (vStr <$> l).
Definition vMap {K A} `{Countable K} (fk : K -> value) (f : A -> value) (m : gmap K A) : value := VMap (prod_map fk f <$> map_to_list m).

Definition vPeer (p : Peer) : value :=
  VStruct [fld "NodeID" (vStr (NodeID p)); fld "RaftAddr" (vStr (RaftAddr p));
           fld "ServerAddr" (vStr (ServerAddr p)); fld "PBAddr" (vStr (PBAddr p))].
Definition vReshard (r : ReshardEntry) : value :=
  VStruct [fld "Status" (vInt (Status r)); fld "TargetP" (vInt (TargetP r)); fld "TargetGen" (vInt (TargetGen r));
           fld "SourceP" (vInt (SourceP r)); fld "SourceGen" (vInt (SourceGen r))].
Definition vDef (d : KVIndexDef) : value :=
  VStruct [fld "Name" (VBasic (blen (Name d) =? 0)); fld "KeyPrefix" (VBytes (KeyPrefix d));
           fld "PayloadPath" (VBasic (blen (PayloadPath d) =? 0)); fld "Kind" (vInt (Kind d)); fld "Enabled" (vBool (Enabled d))].
Definition vKVIndexEntry (e : KVIndexEntry) : value :=
  VStruct [fld "Def" (vDef (Def e)); fld "MetaIndex" (vInt (MetaIndex e))].

Definition vState (s : State) : value :=
  VStruct [fld "NumShards" (vInt (NumShards s)); fld "Members" (VSlice (vPeer <$> Members s));
           fld "Placement" (VSlice (vStrs <$> Placement s)); fld "Catalog" (vMap vStr vInt (Catalog s));
           fld "CatalogGen" (vMap vStr vInt (CatalogGen s)); fld "CatalogReshard" (vMap vStr vReshard (CatalogReshard s));
           fld "Aliases" (vMap vStr vStr (Aliases s)); fld "ShardEpoch" (vMap vInt vInt (ShardEpoch s));
           fld "ShardPrimary" (vMap vInt vStr (ShardPrimary s)); fld "ShardFormer" (vMap vInt vStr (ShardFormer s));
           fld "ShardISR" (vMap vInt vStrs (ShardISR s)); fld "KVIndexes" (vMap (fun k : bytes => VBasic (blen k =? 0)) vKVIndexEntry (KVIndexes s));
           fld "MinISR" (vInt (MinISR s)); fld "ReplicationFactor" (vInt (ReplicationFactor s));
           fld "ReplicationFactorSet" (vBool (ReplicationFactorSet s)); fld "LastIndex" (vInt (LastIndex s));
           fld "PopulatedFields" (vStrs (PopulatedFields s))].

Definition tStrs : type := TSlice TBasic.
Definition tPeer : type :=
  TStruct [fld "NodeID" TBasic; fld "RaftAddr" TBasic; fld "ServerAddr" TBasic; fld "PBAddr" TBasic].
Definition tReshard : type :=
  TStruct [fld "Status" TBasic; fld "TargetP" TBasic; fld "TargetGen" TBasic;
           fld "SourceP" TBasic; fld "SourceGen" TBasic].
Definition tDef : type :=
  TStruct [fld "Name" TBasic; fld "KeyPrefix" TBytes; fld "PayloadPath" TBasic;
           fld "Kind" TBasic; fld "Enabled" TBasic].
Definition tKVIndexEntry : type := TStruct [fld "Def" tDef; fld "MetaIndex" TBasic].

(** [reflect.TypeOf(State{})] *)
Definition tState : type :=
  TStruct [fld "NumShards" TBasic; fld "Members" (TSlice tPeer); fld "Placement" (TSlice tStrs);
           fld "Catalog" (TMap TBasic TBasic); fld "CatalogGen" (TMap TBasic TBasic);
           fld "CatalogReshard" (TMap TBasic tReshard); fld "Aliases" (TMap TBasic TBasic);
           fld "ShardEpoch" (TMap TBasic TBasic); fld "ShardPrimary" (TMap TBasic TBasic);
           fld "ShardFormer" (TMap TBasic TBasic); fld "ShardISR" (TMap TBasic tStrs);
           fld "KVIndexes" (TMap TBasic tKVIndexEntry); fld "MinISR" TBasic; fld "ReplicationFactor" TBasic;
           fld "ReplicationFactorSet" TBasic; fld "LastIndex" TBasic; fld "PopulatedFields" tStrs].

Definition knownFieldPaths : list string := walkType tState noName.
Definition populatedFieldPaths (s : State) : list string := sortStrings (remove_dups (walkPopulatedFields (vState s) noName)).

Arguments knownFieldPaths : simpl never.
Arguments populatedFieldPaths : simpl never.

(** ** Snapshot and restore *)

Section Gob.
(** Package encoding/gob on the state. *)
Context (gobState : State -> bytes) (ungobState : bytes -> option State).

Definition encodeState (s : State) : bytes := gobState s.
Definition decodeState (b : bytes) : outcome merr State :=
  if blen b =? 0 then Err errEmptyState else
  match ungobState b with Some s => Ok s | None => Err errDecode end.

Definition SnapshotBytes (m : MetaFSM) : bytes :=
  let snap := set_LastIndex (appliedIndex m) (state m) in
  encodeState (set_PopulatedFields (populatedFieldPaths snap) snap).

Definition Restore (b : bytes) : st MetaFSM merr unit :=
  s ← lift (decodeState b);
  let unknown := filter (fun p => p ∉ knownFieldPaths) (PopulatedFields s) in
  if negb (blen unknown =? 0) then throw errUnknownFields else
  let s := set_PopulatedFields [] s in
  modify (upd (fun _ => s));;
  modify (advanceApplied (LastIndex s)).
End Gob.

(** ** Lemmas *)

Lemma TyFields fs ts : Forall2 (fun f t => f.1 = t.1 /\ typed f.2 t.2) fs ts -> typed (VStruct fs) (TStruct ts).
Proof.
  intros H. apply TyStruct.
  - induction H as [|f t fs ts [He _] _ IH]; [done|]. cbn. by rewrite He, IH.
  - intros i f t Hf Ht. by destruct (Forall2_lookup_lr _ _ _ _ _ _ H Hf Ht).
Qed.

Lemma typed_slice {A} (f : A -> value) t (l : list A) : (forall x, typed (f x) t) -> typed (VSlice (f <$> l)) (TSlice t).
Proof. intros Hf. apply TySlice. intros x (y & -> & _)%list_elem_of_fmap. apply Hf. Qed.

Lemma typed_vMap {K A} `{Countable K} (fk : K -> value) (f : A -> value) k t (m : gmap K A) :
  (forall x, typed (fk x) k) -> (forall x, typed (f x) t) -> typed (vMap fk f m) (TMap k t).
Proof. intros Hk Hf. apply TyMap; intros x ([a b] & -> & _)%list_elem_of_fmap; [apply Hk|apply Hf]. Qed.

Ltac typed :=
  cbn [fld fst snd];
  lazymatch goal with
  | |- typed (VStruct _) _ => apply TyFields; repeat (constructor; [split; [done|typed]|]); constructor
  | |- typed (VSlice _) _ => apply typed_slice; intros ?; typed
  | |- typed (vStrs _) _ => apply typed_slice; intros ?; typed
  | |- typed (vMap _ _ _) _ => apply typed_vMap; intros ?; typed
  | |- typed (vPeer _) _ => unfold vPeer, tPeer; typed
  | |- typed (vReshard _) _ => unfold vReshard, tReshard; typed
  | |- typed (vKVIndexEntry _) _ => unfold vKVIndexEntry, tKVIndexEntry; typed
  | |- typed (vDef _) _ => unfold vDef, tDef; typed
  | _ => constructor
  end.

Lemma vState_typed s : typed (vState s) tState.
Proof. unfold vState, tState. typed. Qed.

(** Every field that holds data is one the binary that wrote it has. *)
Lemma populated_known s p : p ∈ populatedFieldPaths s -> p ∈ knownFieldPaths.
Proof.
  unfold populatedFieldPaths. unfold sortStrings. rewrite insertionSort_elem, elem_of_remove_dups. apply walk_typed, vState_typed.
Qed.

(** ** Machines that differ in what only a snapshot carries *)

Definition live (s : State) : State := set_LastIndex 0 (set_PopulatedFields [] s).

Record agree (m1 m2 : MetaFSM) : Prop := {
  ag_state : live (state m1) = live (state m2);
  ag_index : appliedIndex m1 = appliedIndex m2;
  ag_halted : halted m1 = halted m2;
}.

Lemma agree_split m1 m2 : agree m1 m2 -> exists s i h o1 o2 r1 r2 l1 l2 p1 p2,
  m1 = MkMetaFSM (set_LastIndex l1 (set_PopulatedFields p1 s)) i o1 r1 h /\ m2 = MkMetaFSM (set_LastIndex l2 (set_PopulatedFields p2 s)) i o2 r2 h.
Proof.
  intros [Hs Hi Hh]. destruct m1 as [s1 i o1 r1 h], m2 as [s2 ? o2 r2 ?]. cbn in *. subst.
  exists s1. do 6 eexists. exists (LastIndex s1), (LastIndex s2), (PopulatedFields s1), (PopulatedFields s2).
  destruct s1, s2. unfold live in Hs. cbn in *. simplify_eq. done.
Qed.

(** One handler run on both. *)
Ltac both :=
  run_st;
  repeat (match goal with
          | |- context [if ?b then _ else _] => destruct b
          | |- context [match computePlacement ?a ?b ?c with _ => _ end] => destruct (computePlacement (E:=merr) a b c)
          | |- context [match Validate ?a with _ => _ end] => destruct (Validate a)
          end; run_st);
  (split; [by split|done]).

Lemma applyEntry_agree idx e m1 m2 : agree m1 m2 ->
  agree (applyEntry idx e m1).1 (applyEntry idx e m2).1 /\ (applyEntry idx e m1).2 = (applyEntry idx e m2).2.
Proof.
  intros (s & i & h & o1 & o2 & r1 & r2 & l1 & l2 & p1 & p2 & -> & ->)%agree_split. destruct s. cbn. unfold applyEntry.
  repeat match goal with |- context [if Op e =? ?o then _ else _] =>
    destruct (Z.eqb_spec (Op e) o) as [Ho|_]; [rewrite !known_fst; cbn [fst snd]|] end.
  - unfold setMembers. both.
  - unfold setPlacement. both.
  - unfold setCatalogEntry. both.
  - unfold setCatalogReshard. both.
  - unfold setAliasBatch. both.
  - unfold setShardEpoch, epochOf. both.
  - unfold setShardISR, epochOf. both.
  - assert (forall m, exists l, shardLeaseRenew e m = (MkMetaFSM (state m) (appliedIndex m) (observing m) (renewals m ++ l) (halted m), Ok RNil)) as Hr.
    { intros m. unfold shardLeaseRenew. run_st. destruct (observing m) eqn:Hob.
      - destruct (renewLoop_run (eNode e) (eLeaseRenew e) m) as [l ->]. exists l. by rewrite Hob.
      - exists []. rewrite app_nil_r, <- Hob. by destruct m. }
    edestruct Hr as [? ->]. edestruct Hr as [? ->]. split; [by split|done].
  - unfold setKVIndex. both.
  - unfold setShardFormer. both.
  - done.
Qed.

Section Agree.
Context (gobDecode : bytes -> option logBody).

Lemma advance_agree i m1 m2 : agree m1 m2 -> agree (advanceApplied i m1) (advanceApplied i m2).
Proof. intros [Hs Hi Hh]. unfold advanceApplied. rewrite Hi. case_match; by split. Qed.

Lemma applyAll_agree log m1 m2 : agree m1 m2 -> agree (applyAll gobDecode m1 log) (applyAll gobDecode m2 log).
Proof.
  revert m1 m2. induction log as [|l log IH]; intros m1 m2 Ha; [done|]. cbn. apply IH. unfold applyOne, Apply.
  rewrite (ag_halted _ _ Ha). destruct (halted m2); [done|]. destruct (decodeLogEntry gobDecode l.2) as [e| |]; [|done..].
  destruct (applyEntry_agree l.1 e m1 m2 Ha) as [Ha' Ho].
  destruct (applyEntry l.1 e m1) as [m1' [[r1 s1]| |]], (applyEntry l.1 e m2) as [m2' [[r2 s2]| |]]; cbn in *; simplify_eq;
    try case_match; try done; by apply advance_agree.
Qed.

(** C35. A node restores the snapshots of its own binary, and from there on it is as
    if it had applied every entry itself: whatever follows in the log, its metadata,
    its applied frontier and where it stops are those of the node that wrote the
    snapshot. One that carries data in a field the binary does not have is refused,
    and the node is as before. *)
Theorem restored_metadata_agrees gobState ungobState m m' log :
  SnapshotBytes gobState m <> [] ->
  ungobState (SnapshotBytes gobState m) = Some (set_PopulatedFields (populatedFieldPaths (set_LastIndex (appliedIndex m) (state m))) (set_LastIndex (appliedIndex m) (state m))) ->
  appliedIndex m' <= appliedIndex m -> halted m' = halted m ->
  (exists r, Restore ungobState (SnapshotBytes gobState m) m' = (r, Ok tt) /\ agree (applyAll gobDecode r log) (applyAll gobDecode m log)) /\
  (forall b s p, b <> [] -> ungobState b = Some s -> p ∈ PopulatedFields s -> p ∉ knownFieldPaths -> Restore ungobState b m' = (m', Err errUnknownFields)).
Proof.
  intros Hb Hg Hi Hh. split.
  - unfold Restore, decodeState. destruct (Z.eqb_spec (blen (SnapshotBytes gobState m)) 0) as [H0|_].
    { exfalso. apply Hb, length_zero_iff_nil. unfold blen in H0. lia. }
    rewrite Hg. rewrite (bind_lift _ _ _ _ eq_refl). cbn [PopulatedFields set_PopulatedFields].
    assert (filter (fun p => p ∉ knownFieldPaths) (populatedFieldPaths (set_LastIndex (appliedIndex m) (state m))) = []) as ->.
    { destruct (filter _ _) as [|x l] eqn:E; [done|]. assert (x ∈ x :: l) as Hx by left. rewrite <- E in Hx.
      apply list_elem_of_filter in Hx as [Hx Hp]. destruct (Hx (populated_known _ _ Hp)). }
    cbn [blen length]. eexists. split; [reflexivity|]. apply applyAll_agree. unfold advanceApplied. cbn.
    destruct (Z.leb_spec (appliedIndex m) (appliedIndex m')); (split; cbn; [by destruct (state m)|lia|done]).
  - intros b s p Hne Hs Hp Hn. unfold Restore, decodeState. destruct (Z.eqb_spec (blen b) 0) as [H0|_].
    { exfalso. apply Hne, length_zero_iff_nil. unfold blen in H0. lia. }
    rewrite Hs, (bind_lift _ _ _ _ eq_refl). destruct (filter _ (PopulatedFields s)) as [|x l] eqn:E; [|done].
    destruct (filter_nil_not_elem_of _ _ p E Hn Hp).
Qed.
End Agree.

End MetaSnapshot.
