(* ===== verification/Failover.v ===== *)
(** * Failover: beacons, the leader's memory of them, and whom it promotes
    (src/cluster/pb_failover.go, pb_beacon.go; the timings of config.go,
    [confirmMetaView] of meta_readindex.go).

    Instants are nanoseconds of one node's monotonic clock. *)
From stdpp Require Import strings.
From S2P Require Import Prelude Wire MetaState MetaFSM.
Import MetaState MetaFSM.

Module Failover.

(** ** The decision *)

Record pbShardLiveness := MkLiveness {
  shardID : Z;
  epoch : Z;
  primary : string;
  isr : list string;
  lastRenew : Z;
}.

Record pbPromotion := MkPromotion { pShard : Z; newEpoch : Z; newPrimary : string }.

(** What a candidate answers when asked for its high-water mark, if it does. *)
Abbreviation resolver := (Z -> string -> option Z).

Fixpoint bestCandidate (highWater : option resolver) (sh : Z) (prim : string) (l : list string) (best : string) (bestHW : Z) : string * Z :=
  match l with
  | [] => (best, bestHW)
  | m :: l =>
      if bool_decide (m = prim) then bestCandidate highWater sh prim l best bestHW else
      match (match highWater with Some f => f sh m | None => Some 0 end) with
      | None => bestCandidate highWater sh prim l best bestHW
      | Some hw =>
          if bool_decide (best = noName) || (bestHW <? hw) || ((hw =? bestHW) && String.ltb m best)
          then bestCandidate highWater sh prim l m hw
          else bestCandidate highWater sh prim l best bestHW
      end
  end.

Definition decideShard (nowNs failoverTimeout : Z) (highWater : option resolver) (s : pbShardLiveness) : option pbPromotion :=
  if bool_decide (primary s = noName) then None else
  if toInt (nowNs - lastRenew s) <=? failoverTimeout then None else
  let best := (bestCandidate highWater (shardID s) (primary s) (isr s) noName 0).1 in
  if bool_decide (best = noName) then None else
  Some (MkPromotion (shardID s) (u64 (epoch s + 1)) best).

Definition decidePBPromotions (shards : list pbShardLiveness) (nowNs failoverTimeout : Z) (highWater : option resolver) : list pbPromotion :=
  omap (decideShard nowNs failoverTimeout highWater) shards.

(** ** The leader's memory *)

Record pbFailoverTracker := MkTracker {
  lastRenewNs : gmap Z Z;
  lastRenewEp : gmap Z Z;
  leaderSinceNs : Z;
}.

Definition newPBFailoverTracker : pbFailoverTracker := MkTracker ∅ ∅ 0.
Definition observeRenew (now sh ep : Z) (t : pbFailoverTracker) : pbFailoverTracker :=
  MkTracker (<[sh := now]> (lastRenewNs t)) (<[sh := ep]> (lastRenewEp t)) (leaderSinceNs t).
Definition onBecomeLeader (now : Z) (t : pbFailoverTracker) : pbFailoverTracker := MkTracker (lastRenewNs t) (lastRenewEp t) now.

Definition effectiveLastRenew (now sh curEpoch : Z) (t : pbFailoverTracker) : Z :=
  if default 0 (lastRenewEp t !! sh) <? curEpoch then now else
  let last := default 0 (lastRenewNs t !! sh) in
  if last <? leaderSinceNs t then leaderSinceNs t else last.

Definition observed (sh : Z) (t : pbFailoverTracker) : Z * Z * bool :=
  (default 0 (lastRenewNs t !! sh), default 0 (lastRenewEp t !! sh), bool_decide (is_Some (lastRenewNs t !! sh))).

Definition sortInts : list Z -> list Z := insertionSort Z.ltb.

(** [clock] is what the tracker's clock shows while the shards are visited, after
    [nowNs] was read. *)
Definition pbFailoverDecisions (st : State) (t : pbFailoverTracker) (nowNs clock failoverTimeout : Z) (highWater : option resolver) : list pbPromotion :=
  let ids := sortInts (map_to_list (ShardPrimary st)).*1 in
  let shards := (fun sh => let ep := epochOf st sh in MkLiveness sh ep (primaryOf st sh) (isrOf st sh) (effectiveLastRenew clock sh ep t)) <$> ids in
  decidePBPromotions shards nowNs failoverTimeout highWater.

(** One tick of the failover goroutine: its memory, whether it was leader, and the
    entries it hands to the log. [edge], [nowNs] and [clock] are readings of the clock
    in that order; [leading] says where it is still the leader when the entry is
    proposed. *)
Definition tick (isLeader wasLeader : bool) (st : State) (t : pbFailoverTracker) (edge nowNs clock failoverTimeout : Z)
    (highWater : option resolver) (leading : pbPromotion -> bool) : pbFailoverTracker * bool * list LogEntry :=
  let t := if isLeader && negb wasLeader then onBecomeLeader edge t else t in
  if negb isLeader then (t, isLeader, []) else
  let promos := pbFailoverDecisions st t nowNs clock failoverTimeout highWater in
  (t, isLeader, omap (fun p => match ApplySetShardEpoch (leading p) (pShard p) (newEpoch p) (newPrimary p) with Ok e => Some e | _ => None end) promos).

(** ** Beacons *)

(** [pbBeacon.tick]: the shards the node is the primary of, with their epochs. *)
Definition beacon (nodeID : string) (st : State) : list (Z * Z) :=
  (fun '(sh, _) => (sh, epochOf st sh)) <$> filter (fun x => x.2 = nodeID) (map_to_list (ShardPrimary st)).

(** The observer of the state machine is the tracker: the renewals an entry made
    are observed at [now]. *)
Definition observeAll (now : Z) (l : list (Z * Z)) (t : pbFailoverTracker) : pbFailoverTracker :=
  foldl (fun t '(sh, ep) => observeRenew now sh ep t) t l.

(** ** Timings *)

Definition second : Z := 10 ^ 9.
Definition millisecond : Z := 10 ^ 6.
Definition pbLeaseTTL : Z := 5 * second.
Definition metaContactStaleness : Z := 2 * second.
Definition pbFailoverTimeout : Z := 10 * second.
Definition pbRenewInterval : Z := 1 * second.
Definition pbFailoverTickInterval : Z := 500 * millisecond.

Record pbTimings := MkTimings { PBLeaseTTLMs : Z; PBMetaContactStalenessMs : Z; PBFailoverTimeoutMs : Z; PBRenewIntervalMs : Z }.

Definition orDefault (ms dflt : Z) : Z := if 0 <? ms then toInt (ms * millisecond) else dflt.

(** (leaseTTL, metaStaleness, failoverTimeout, renewInterval) *)
Definition pbEffectiveTimings (c : pbTimings) : Z * Z * Z * Z :=
  (orDefault (PBLeaseTTLMs c) pbLeaseTTL, orDefault (PBMetaContactStalenessMs c) metaContactStaleness,
   orDefault (PBFailoverTimeoutMs c) pbFailoverTimeout, orDefault (PBRenewIntervalMs c) pbRenewInterval).

(** The check of [Config.Validate]. *)
Definition honorRule (c : pbTimings) : bool :=
  let '(leaseTTL, metaStaleness, failoverTimeout, renewInterval) := pbEffectiveTimings c in
  negb (failoverTimeout <=? toInt (leaseTTL + metaStaleness + renewInterval + pbFailoverTickInterval)).

(** [confirmMetaView] of a follower at [now]: [lastContact] is when it last heard from
    the leader, if ever. The keeper reads the clock it counts the lease from right after
    this check; the two are taken as one instant. *)
Definition confirmFollower (c : pbTimings) (lastContact : option Z) (now : Z) : bool :=
  let stale := (pbEffectiveTimings c).1.1.2 in
  match lastContact with
  | None => false
  | Some last => negb (stale <? now - last)
  end.

End Failover.
