(* ===== verification/FailoverProps.v ===== *)
(** * When the leader promotes, and whom. *)
From stdpp Require Import strings.
From S2P Require Import Prelude Wire MetaState MetaFSM Engine Failover.
Import MetaState MetaFSM Failover.

Section Best.
Context (highWater : resolver) (sh : Z) (prim : string).

(** A member that can be promoted, with what it answered. *)
Definition answers (m : string) (h : Z) : Prop := m <> prim /\ highWater sh m = Some h.

Lemma bestCandidate_spec l best bhw : noName ∉ l ->
  let r := bestCandidate (Some highWater) sh prim l best bhw in
  (r = (best, bhw) \/ r.1 ∈ l /\ answers r.1 r.2) /\
  (best <> noName -> r.1 <> noName /\ bhw <= r.2) /\
  (forall m h, m ∈ l -> answers m h -> r.1 <> noName /\ h <= r.2).
Proof.
  revert best bhw. induction l as [|x l IH]; intros best bhw Hn; cbn [bestCandidate].
  { split; [by left|]. split; [intros ?; split; [done|cbn; lia]|]. intros m h Hm. by apply elem_of_nil in Hm. }
  apply not_elem_of_cons in Hn as [Hx Hn].
  assert (forall b h, (b = best /\ h = bhw) \/ answers x h /\ b = x -> forall r, r = bestCandidate (Some highWater) sh prim l b h ->
    (best <> noName -> b <> noName /\ bhw <= h) -> (forall h', answers x h' -> b <> noName /\ h' <= h) ->
    (r = (best, bhw) \/ r.1 ∈ x :: l /\ answers r.1 r.2) /\ (best <> noName -> r.1 <> noName /\ bhw <= r.2) /\
    (forall m h, m ∈ x :: l -> answers m h -> r.1 <> noName /\ h <= r.2)) as Hgo.
  { intros b h Hb r -> Hb1 Hb2. destruct (IH b h Hn) as (H1 & H2 & H3). split_and!.
    - destruct H1 as [->|[H1 H1']]; [|right; split; [by right|done]]. cbn.
      destruct Hb as [[-> ->]|[Hb ->]]; [by left|right; split; [by left|done]].
    - intros Hne. destruct (Hb1 Hne) as [Hbn Hle]. destruct (H2 Hbn). split; [done|lia].
    - intros m h' [->|Hm]%elem_of_cons Ha; [|by apply (H3 m)]. destruct (Hb2 _ Ha) as [Hbn Hle]. destruct (H2 Hbn). split; [done|lia]. }
  case_bool_decide as Hp. { apply (Hgo best bhw); [by left|done|by intros|]. intros h' [Hne _]. done. }
  destruct (highWater sh x) as [hw|] eqn:Eh.
  2:{ apply (Hgo best bhw); [by left|done|by intros|]. intros h' [_ Ha]. congruence. }
  case_bool_decide as Hb; cbn [orb].
  { apply (Hgo x hw); [right; by split|done|done|]. intros h' [_ Ha]. split; [done|]. assert (h' = hw) by congruence. lia. }
  destruct (Z.ltb_spec bhw hw); cbn [orb].
  { apply (Hgo x hw); [right; by split|done|by intros; split; [done|lia]|]. intros h' [_ Ha]. split; [done|]. assert (h' = hw) by congruence. lia. }
  destruct (Z.eqb_spec hw bhw) as [->|]; cbn [andb]; [destruct (String.ltb x best)|].
  - apply (Hgo x bhw); [right; by split|done|by intros; split; [done|lia]|]. intros h' [_ Ha]. split; [done|]. assert (h' = bhw) by congruence. lia.
  - apply (Hgo best bhw); [by left|done|by intros|]. intros h' [_ Ha]. split; [done|]. assert (h' = bhw) by congruence. lia.
  - apply (Hgo best bhw); [by left|done|by intros|]. intros h' [_ Ha]. split; [done|]. assert (h' = hw) by congruence. lia.
Qed.

End Best.

(** ** Decisions *)

Lemma decideShard_shard nowNs timeout hw s p : decideShard nowNs timeout hw s = Some p -> pShard p = shardID s.
Proof. unfold decideShard. intros H. by repeat case_match; simplify_eq. Qed.

Lemma decisions_elem st t nowNs clock timeout hw p :
  p ∈ pbFailoverDecisions st t nowNs clock timeout hw <->
  exists sh, is_Some (ShardPrimary st !! sh) /\
    decideShard nowNs timeout hw (MkLiveness sh (epochOf st sh) (primaryOf st sh) (isrOf st sh) (effectiveLastRenew clock sh (epochOf st sh) t)) = Some p.
Proof.
  unfold pbFailoverDecisions, decidePBPromotions. rewrite list_elem_of_omap. split.
  - intros (s & Hs & Hd). apply list_elem_of_fmap in Hs as (sh & -> & Hsh). exists sh. split; [|done].
    unfold sortInts in Hsh. rewrite insertionSort_elem in Hsh. apply list_elem_of_fmap in Hsh as ([sh' x] & -> & Hx). apply elem_of_map_to_list in Hx. by eexists.
  - intros (sh & [x Hx] & Hd). eexists. split; [|done]. apply list_elem_of_fmap. exists sh. split; [done|].
    unfold sortInts. rewrite insertionSort_elem. apply list_elem_of_fmap. exists (sh, x). split; [done|]. by apply elem_of_map_to_list.
Qed.

(** The primary of the shard has been silent for longer than the timeout. *)
Definition silent (st : State) (t : pbFailoverTracker) (nowNs clock timeout sh : Z) : Prop :=
  primaryOf st sh <> noName /\ timeout < toInt (nowNs - effectiveLastRenew clock sh (epochOf st sh) t).

(** C28. Whom the leader promotes. A shard gets a promotion exactly when it has a
    primary that was silent for longer than the timeout and some other member of its
    set in sync answers; the promotion is to the next epoch, of a member in sync that
    is not the old primary, and that holds at least as much as every other member
    that answered. *)
Theorem promotion_has_the_most st t nowNs clock timeout hw sh : noName ∉ isrOf st sh ->
  let answers m h := m ∈ isrOf st sh /\ m <> primaryOf st sh /\ hw sh m = Some h in
  ((exists p, p ∈ pbFailoverDecisions st t nowNs clock timeout (Some hw) /\ pShard p = sh) <->
     silent st t nowNs clock timeout sh /\ exists m h, answers m h) /\
  (forall p, p ∈ pbFailoverDecisions st t nowNs clock timeout (Some hw) -> pShard p = sh ->
     newEpoch p = u64 (epochOf st sh + 1) /\ exists h, answers (newPrimary p) h /\ forall m h', answers m h' -> h' <= h).
Proof.
  intros Hn. cbn zeta. set (live := MkLiveness sh (epochOf st sh) (primaryOf st sh) (isrOf st sh) (effectiveLastRenew clock sh (epochOf st sh) t)).
  assert (forall p, decideShard nowNs timeout (Some hw) live = Some p -> silent st t nowNs clock timeout sh /\ pShard p = sh /\ newEpoch p = u64 (epochOf st sh + 1) /\
    exists h, (newPrimary p ∈ isrOf st sh /\ newPrimary p <> primaryOf st sh /\ hw sh (newPrimary p) = Some h) /\
      forall m h', m ∈ isrOf st sh /\ m <> primaryOf st sh /\ hw sh m = Some h' -> h' <= h) as Hone.
  { intros p. unfold decideShard. cbn. case_bool_decide as Hp; [done|]. destruct (Z.leb_spec (toInt (nowNs - effectiveLastRenew clock sh (epochOf st sh) t)) timeout); [done|].
    destruct (bestCandidate_spec hw sh (primaryOf st sh) (isrOf st sh) noName 0 Hn) as (H1 & _ & H3).
    destruct (bestCandidate (Some hw) sh (primaryOf st sh) (isrOf st sh) noName 0) as [b h]. cbn in *. case_bool_decide as Hb; [done|].
    intros [= <-]. cbn. destruct H1 as [H1|[H1 [H1' H1'']]]; [by injection H1|]. split_and!; [done..|]. exists h. split; [done|]. intros m h' (Hm & Hm' & Hm''). by apply (H3 m h'). }
  split; [split|].
  - intros (p & Hp & Hsh). apply decisions_elem in Hp as (sh' & _ & Hd).
    assert (sh' = sh) as -> by (rewrite <- Hsh; symmetry; by apply (decideShard_shard _ _ _ _ _ Hd)).
    destruct (Hone p Hd) as (Hs & _ & _ & h & Ha & _). split; [done|]. by exists (newPrimary p), h.
  - intros ([Hs1 Hs2] & m & h & Hm & Hm' & Ha). destruct (bestCandidate_spec hw sh (primaryOf st sh) (isrOf st sh) noName 0 Hn) as (_ & _ & H3).
    destruct (H3 m h Hm) as [Hb _]; [by split|]. eexists (MkPromotion sh _ _). split; [|done]. apply decisions_elem. exists sh. split.
    + unfold primaryOf in Hs1. destruct (ShardPrimary st !! sh); [by eexists|done].
    + unfold decideShard. cbn. rewrite bool_decide_false by done. rewrite (proj2 (Z.leb_gt _ _)) by done. by rewrite bool_decide_false.
  - intros p Hp Hsh. apply decisions_elem in Hp as (sh' & _ & Hd).
    assert (sh' = sh) as -> by (rewrite <- Hsh; symmetry; by apply (decideShard_shard _ _ _ _ _ Hd)).
    destruct (Hone p Hd) as (_ & _ & He & h & Ha & Hmax). split; [done|]. exists h. split; done.
Qed.

(** ** Resets and timing *)

(** An instant a clock can show. *)
Definition instant (x : Z) : Prop := 0 <= x < 2 ^ 62.

Lemma decisions_silent st t nowNs clock timeout hw p : p ∈ pbFailoverDecisions st t nowNs clock timeout hw ->
  silent st t nowNs clock timeout (pShard p).
Proof.
  intros (sh & _ & Hd)%decisions_elem. rewrite (decideShard_shard _ _ _ _ _ Hd). unfold decideShard in Hd. cbn in *.
  case_bool_decide as Hp; [done|]. destruct (Z.leb_spec (toInt (nowNs - effectiveLastRenew clock sh (epochOf st sh) t)) timeout); [done|]. by split.
Qed.

(** C30. The leader does not promote on what it could not have seen: not before a whole
    timeout has passed since it became leader, and not a shard whose epoch no beacon
    has reached yet, so that a promotion is not followed by another while the new
    primary has yet to show itself. *)
Theorem no_promotion_cascade isLeader wasLeader st t edge nowNs clock timeout hw leading (e : LogEntry) :
  instant (leaderSinceNs t) -> instant edge -> instant nowNs -> instant clock -> edge <= nowNs -> nowNs <= clock -> 0 <= timeout ->
  (forall sh x, lastRenewNs t !! sh = Some x -> instant x) ->
  e ∈ (tick isLeader wasLeader st t edge nowNs clock timeout hw leading).2 ->
  isLeader = true /\ (if wasLeader then leaderSinceNs t else edge) + timeout < nowNs /\
  epochOf st (eShardID e) <= default 0 (lastRenewEp t !! eShardID e).
Proof.
  intros Hls Hed Hnow Hck Hle1 Hle Ht Hi He. unfold tick in He. destruct isLeader; cbn in He; [|by apply elem_of_nil in He].
  split; [done|]. apply list_elem_of_omap in He as (p & Hp & He). unfold ApplySetShardEpoch, ifLeader in He. destruct (leading p); [|done].
  injection He as <-. apply decisions_silent in Hp as [_ Hs]. cbn. unfold instant in *.
  set (t' := if negb wasLeader then onBecomeLeader edge t else t) in *.
  assert (leaderSinceNs t' = (if wasLeader then leaderSinceNs t else edge)) as <- by (unfold t'; by destruct wasLeader).
  assert (lastRenewNs t' = lastRenewNs t /\ lastRenewEp t' = lastRenewEp t) as [E1 E2] by (unfold t'; by destruct wasLeader).
  assert (0 <= leaderSinceNs t' < 2 ^ 62) as Hl by (unfold t'; destruct wasLeader; cbn; lia). clearbody t'.
  unfold effectiveLastRenew in Hs. rewrite E1, E2 in Hs. destruct (Z.ltb_spec (default 0 (lastRenewEp t !! pShard p)) (epochOf st (pShard p))).
  { rewrite toInt_id in Hs by lia. lia. }
  assert (0 <= default 0 (lastRenewNs t !! pShard p) < 2 ^ 62) as Hx.
  { destruct (lastRenewNs t !! pShard p) as [x|] eqn:E; [|cbn; lia]. cbn. by apply (Hi _ _ E). }
  destruct (Z.ltb_spec (default 0 (lastRenewNs t !! pShard p)) (leaderSinceNs t')); rewrite toInt_id in Hs by lia; split; lia.
Qed.

(** C29. The old primary has stopped before a new one is named. Let it lose contact with
    the leader at [tau], having sent a beacon within the renewal interval before; its
    last lease was granted while [confirmMetaView] still held. Under the timings the
    configuration accepts, when the leader decides to promote, that lease has expired,
    by at least the interval of the ticker. *)
Theorem promoted_after_lease {F} c st t nowNs clock hw p tau contact grant (e : Engine.Engine F) :
  honorRule c = true ->
  let '(leaseTTL, metaStaleness, failoverTimeout, renewInterval) := pbEffectiveTimings c in
  0 <= leaseTTL < 2 ^ 60 -> 0 <= metaStaleness < 2 ^ 60 -> 0 <= renewInterval < 2 ^ 60 ->
  instant nowNs -> instant (effectiveLastRenew clock (pShard p) (epochOf st (pShard p)) t) ->
  contact <= tau -> confirmFollower c (Some contact) grant = true -> Engine.leaseExpiry e <= grant + leaseTTL ->
  tau - renewInterval <= effectiveLastRenew clock (pShard p) (epochOf st (pShard p)) t ->
  p ∈ pbFailoverDecisions st t nowNs clock failoverTimeout hw ->
  Engine.leaseExpiry e + pbFailoverTickInterval < nowNs /\ Engine.LeaseValid nowNs e = false.
Proof.
  intros Hh. unfold honorRule, confirmFollower in *. destruct (pbEffectiveTimings c) as [[[ttl stale] timeout] renew].
  intros H1 H2 H3 Hn Hl Hc Hcf He Ht Hp. cbn in Hcf. apply negb_true_iff, Z.ltb_ge in Hcf. apply negb_true_iff, Z.leb_gt in Hh.
  apply decisions_silent in Hp as [_ Hs]. unfold instant in *. rewrite toInt_id in Hs by lia.
  unfold pbFailoverTickInterval, millisecond in *. rewrite toInt_id in Hh by lia.
  assert (Engine.leaseExpiry e + 500 * 10 ^ 6 < nowNs) as Hlt by lia. split; [done|].
  unfold Engine.LeaseValid. destruct (Engine.poisoned e); [done|]. rewrite (proj2 (Z.ltb_ge _ _)) by lia. apply andb_false_r.
Qed.
