(* ===== verification/Drivers.v ===== *)
(** * The drivers of the set in sync: shrink and grow (src/cluster/pb_shrink.go,
    pb_grow.go).

    Both run on the primary, each in a goroutine of its own, and share the baseline of
    what was last handed to the engine. A tick is given the metadata it has read, its
    own state and the engine; it returns what it proposes to the log. *)
From stdpp Require Import strings pretty gmap.
From S2P Require Import Prelude MetaState MetaFSM Engine.
Import MetaState MetaFSM.

Module Drivers.

(** ** Decisions *)

Record pbShrinkRequest := MkShrink { reqShard : Z; reqEpoch : Z; newISR : list string }.

Definition decidePBShrink (sh ep : Z) (primary : string) (isr stalled : list string) (minISR : Z) : option pbShrinkRequest :=
  if (blen stalled =? 0) || (blen isr =? 0) then None else
  let drop := filter (fun s => s <> primary) stalled in
  let newISR := filter (fun m => m ∉ drop) isr in
  if blen newISR =? blen isr then None else
  if blen newISR <? minISR then None else
  Some (MkShrink sh ep newISR).

Definition isStrictSubset (sub super : list string) : bool :=
  if blen super <=? blen sub then false else forallb (fun s => existsb (fun p => bool_decide (s = p)) super) sub.

Definition decidePBGrow (placement isr : list string) : list string := filter (fun o => o ∉ isr) placement.

(** ** The shared baseline *)

Record pbAppliedISR := MkApplied { aEpoch : Z; aISR : list string }.
Abbreviation pbISRReconcile := (gmap Z pbAppliedISR).

Definition get (r : pbISRReconcile) (sh : Z) : option pbAppliedISR := r !! sh.
Definition set_ (r : pbISRReconcile) (sh ep : Z) (isr : list string) : pbISRReconcile := <[sh := MkApplied ep isr]> r.
Definition forget (r : pbISRReconcile) (sh : Z) : pbISRReconcile := delete sh r.

(** What the node's engine is told when the metadata changed, in one direction. *)
Inductive reconcile := First | Changed | Same.
Definition shrinkReconcile (b : pbISRReconcile) (sh ep : Z) (isr : list string) : reconcile :=
  match get b sh with
  | None => First
  | Some base => if negb (aEpoch base =? ep) then First else if isStrictSubset isr (aISR base) then Changed else Same
  end.
Definition growReconcile (b : pbISRReconcile) (sh ep : Z) (isr : list string) : reconcile :=
  match get b sh with
  | None => First
  | Some base => if negb (aEpoch base =? ep) then First else if isStrictSubset (aISR base) isr then Changed else Same
  end.

(** [fmt.Sprintf("%d:%v", epoch, sorted)] *)
Definition isrSig (ep : Z) (isr : list string) : string :=
  (pretty ep +:+ ":[" +:+ String.concat " " (sortStrings isr) +:+ "]")%string.

Definition growStableTicks : Z := 2.

Section Ticks.
Context {F : Type} (cl : Engine.CommitLevel).
Abbreviation M := (st (Engine.Engine F) Engine.perr).

(** ** Shrink *)

(** One shard of [pbShrinkDriver.tick]. *)
Definition shrinkShard (nodeID : string) (st : State) (sh minFailures minISR now : Z) (b : pbISRReconcile) : M (pbISRReconcile * option pbShrinkRequest) :=
  if negb (bool_decide (primaryOf st sh = nodeID)) then mret (forget b sh, None) else
  let ep := epochOf st sh in
  let isr := isrOf st sh in
  cur ← gets Engine.epoch;
  if negb (cur =? ep) then mret (b, None) else
  (match shrinkReconcile b sh ep isr with
   | Changed => Engine.ShrinkISR cl ep isr now
   | _ => mret tt
   end);;
  let b := match shrinkReconcile b sh ep isr with Same => b | _ => set_ b sh ep isr end in
  stalled ← gets (Engine.StalledPeers minFailures);
  mret (b, decidePBShrink sh ep nodeID isr (elements stalled) minISR).

(** ** Grow *)

(** What the grow driver remembers of a shard: the last signature and for how many
    ticks it has stood. *)
Record settling := MkSettling { lastSig : option string; stableFor : Z }.

Definition LearnerAbandoned (e : Engine.Engine F) (m : string) : bool := bool_decide (is_Some (Engine.abandonedLearners e !! m)).
Definition IsLearner (e : Engine.Engine F) (m : string) : bool := bool_decide (m ∈ Engine.learners e).

(** Is there anything to change in the set in sync? *)
Definition growWork (nodeID : string) (e : Engine.Engine F) (placement isr : list string) : bool :=
  existsb (fun m => negb (bool_decide (m = nodeID)) && LearnerAbandoned e m) isr || negb (blen (decidePBGrow placement isr) =? 0).

Definition placementOf (st : State) (sh : Z) : list string :=
  if (0 <=? sh) && (sh <? blen (Placement st)) then default [] (Placement st !! Z.to_nat sh) else [].

(** What the tick does next with a shard. *)
Inductive growStep := Wait (s : option settling) | Ready (ep : Z) (isr : list string) (s : settling).

(** One shard of [pbGrowDriver.tick], up to the read barrier. [None] in the memory:
    the shard is forgotten. *)
Definition growGate (nodeID : string) (st : State) (sh : Z) (s : option settling) (b : pbISRReconcile) : M (pbISRReconcile * growStep) :=
  if negb (bool_decide (primaryOf st sh = nodeID)) then Engine.TeardownLearners;; mret (b, Wait None) else
  Engine.ReclaimOrphanLearners;;
  let ep := epochOf st sh in
  let isr := isrOf st sh in
  cur ← gets Engine.epoch;
  if negb (cur =? ep) then mret (b, Wait s) else
  (match growReconcile b sh ep isr with
   | Changed => Engine.GrowISR ep isr
   | _ => mret tt
   end);;
  let b := match growReconcile b sh ep isr with Same => b | _ => set_ b sh ep isr end in
  let sig := isrSig ep isr in
  if negb (bool_decide (s ≫= lastSig = Some sig)) then mret (b, Wait (Some (MkSettling (Some sig) 0))) else
  let n := default 0 (stableFor <$> s) + 1 in
  let s := MkSettling (Some sig) n in
  if n <? growStableTicks then mret (b, Wait (Some s)) else
  e ← gets (fun e => e);
  if negb (growWork nodeID e (placementOf st sh) isr) then mret (b, Wait (Some s)) else
  mret (b, Ready ep isr s).

(** Proposals and the engine calls between them. *)
Inductive growAction := GAbort (m : string) | GSubmit (isr : list string).

(** Step (2): an abandoned voter is narrowed out. *)
Definition compensations (nodeID : string) (e : Engine.Engine F) (isr : list string) : list growAction :=
  (fun m => GSubmit (filter (fun x => x <> m) isr)) <$> filter (fun m => m <> nodeID /\ LearnerAbandoned e m = true) isr.

(** Step (3): the owners outside the set in sync are caught up in turn, until one is
    proposed. [catchup m] is the engine when [StartLearnerCatchup] has returned
    without an error, [submit m] whether the proposal was accepted. *)
Fixpoint growTargets (isr : list string) (catchup : string -> option (Engine.Engine F)) (submit : string -> bool) (targets : list string) : list growAction :=
  match targets with
  | [] => []
  | target :: targets =>
      match catchup target with
      | None => growTargets isr catchup submit targets
      | Some e =>
          if negb (IsLearner e target) || LearnerAbandoned e target
          then GAbort target :: growTargets isr catchup submit targets
          else GSubmit (isr ++ [target]) :: (if submit target then [] else GAbort target :: growTargets isr catchup submit targets)
      end
  end.

(** The rest of the shard's tick, on metadata read after the barrier. *)
Definition growAct (nodeID : string) (fresh : State) (sh : Z) (e : Engine.Engine F) (ep : Z) (isr : list string) (s : settling)
    (catchup : string -> option (Engine.Engine F)) (submit : string -> bool) : settling * list growAction :=
  if negb (bool_decide (primaryOf fresh sh = nodeID)) then (s, []) else
  let sig := isrSig ep isr in
  let ep := epochOf fresh sh in
  let isr := isrOf fresh sh in
  if negb (Engine.epoch e =? ep) || negb (bool_decide (isrSig ep isr = sig)) then (MkSettling (Some (isrSig ep isr)) 0, []) else
  let comp := compensations nodeID e isr in
  if negb (blen comp =? 0) then (s, comp) else
  (s, growTargets isr catchup submit (decidePBGrow (placementOf fresh sh) isr)).

(** What a candidate for promotion is ranked by. [request] is the catch-up handshake,
    where the transport has it; it answers unless the candidate cannot be reached. *)
Definition pbCandidateHighWater (nodeID : string) (pbEngines : Z -> option (Engine.Engine F))
    (request : option (Z -> string -> option Engine.CatchupInfoMsg)) (shardID : Z) (candidate : string) : option Z :=
  if bool_decide (candidate = nodeID) then
    e ← pbEngines shardID;
    if Engine.poisoned e then None else Some (Engine.lastApplied e)
  else
    ct ← request;
    info ← ct shardID candidate;
    if Engine.InfoOK info then Some (Engine.AppliedSeq info) else None.

End Ticks.
End Drivers.
