(* ===== verification/DriversProps.v ===== *)
(** * What the drivers of the set in sync propose, and what the metadata keeps of it. *)
From stdpp Require Import strings gmap.
From S2P Require Import Prelude MetaState MetaFSM MetaProps Engine Drivers.
Import MetaState MetaFSM Drivers.

Lemma decidePBShrink_spec sh ep primary isr stalled minISR r : decidePBShrink sh ep primary isr stalled minISR = Some r ->
  reqShard r = sh /\ reqEpoch r = ep /\ newISR r `sublist_of` isr /\ length (newISR r) <> length isr /\ minISR <= blen (newISR r) /\
  forall p, p ∈ isr -> p ∈ newISR r <-> p = primary \/ p ∉ stalled.
Proof.
  unfold decidePBShrink. destruct (_ || _); [done|]. destruct (Z.eqb_spec (blen (filter (fun m => m ∉ filter (fun s => s <> primary) stalled) isr)) (blen isr)) as [|Hne]; [done|].
  destruct (Z.ltb_spec (blen (filter (fun m => m ∉ filter (fun s => s <> primary) stalled) isr)) minISR); [done|]. intros [= <-]. cbn. split_and!; [done..| | | |].
  - apply sublist_filter.
  - intros E. apply Hne. unfold blen. by rewrite E.
  - done.
  - intros p Hp. rewrite !list_elem_of_filter. destruct (decide (p = primary)), (decide (p ∈ stalled)); tauto.
Qed.

Lemma growTargets_spec {F} isr catchup submit l isr' : GSubmit isr' ∈ growTargets (F := F) isr catchup submit l -> exists m, m ∈ l /\ isr' = isr ++ [m].
Proof.
  induction l as [|m l IH]; cbn; [by intros ?%elem_of_nil|]. assert (GSubmit isr' ∈ growTargets isr catchup submit l -> exists m', m' ∈ m :: l /\ isr' = isr ++ [m']) as Hl.
  { intros (m' & Hm & ->)%IH. exists m'. split; [by right|done]. }
  destruct (catchup m) as [e|]; [|done]. destruct (_ || _); rewrite elem_of_cons; intros [[=]|H]; [by apply Hl| |].
  - exists m. split; [by left|done].
  - destruct (submit m); [by apply elem_of_nil in H|]. apply elem_of_cons in H as [[=]|H]. by apply Hl.
Qed.

(** What the grow driver proposes for a set. *)
Lemma growAct_spec {F} nodeID st sh (e : Engine.Engine F) ep isr s catchup submit isr' :
  GSubmit isr' ∈ (growAct nodeID st sh e ep isr s catchup submit).2 ->
  primaryOf st sh = nodeID /\
  ((exists m, m <> nodeID /\ m ∈ isrOf st sh /\ isr' = filter (fun x => x <> m) (isrOf st sh)) \/
   (exists m, m ∈ placementOf st sh /\ (m ∉ isrOf st sh) /\ isr' = isrOf st sh ++ [m])).
Proof.
  unfold growAct. case_bool_decide as Hp; cbn [negb]; [|by intros ?%elem_of_nil]. destruct (_ || _); [by intros ?%elem_of_nil|].
  destruct (negb _) eqn:Ec; cbn [snd]; intros H; (split; [done|]).
  - left. unfold compensations in H. apply list_elem_of_fmap in H as (m & [= ->] & Hm). apply list_elem_of_filter in Hm as [[Hm _] Hin]. by exists m.
  - right. apply growTargets_spec in H as (m & Hm & ->). unfold decidePBGrow in Hm. apply list_elem_of_filter in Hm as [Hm Hin]. by exists m.
Qed.

(** The entries the drivers hand to the log, on the metadata they have read. *)
Inductive driverProposal {F} (st : State) (e : LogEntry) : Prop :=
| ByShrink sh stalled minISR r :
    decidePBShrink sh (epochOf st sh) (primaryOf st sh) (isrOf st sh) stalled minISR = Some r ->
    ApplySetShardISR true (reqShard r) (reqEpoch r) (newISR r) = Ok e -> driverProposal st e
| ByGrow nodeID sh (eng : Engine.Engine F) ep isr s catchup submit isr' :
    GSubmit isr' ∈ (growAct nodeID st sh eng ep isr s catchup submit).2 ->
    ApplySetShardISR true sh (epochOf st sh) isr' = Ok e -> driverProposal st e.

Lemma driverProposal_primary {F} st e : driverProposal (F := F) st e -> eEpoch e = epochOf st (eShardID e) /\
  (primaryOf st (eShardID e) ∈ isrOf st (eShardID e) -> primaryOf st (eShardID e) ∈ eISR e).
Proof.
  intros [sh stalled minISR r Hr He|nodeID sh eng ep isr s catchup submit isr' Hg He]; injection He as <-; cbn.
  - apply decidePBShrink_spec in Hr as (-> & -> & _ & _ & _ & Hr). split; [done|]. intros Hp. apply Hr; [done|by left].
  - split; [done|]. intros Hp. apply growAct_spec in Hg as [Hn [(m & Hm & _ & ->)|(m & _ & _ & ->)]].
    + apply list_elem_of_filter. split; [congruence|done].
    + apply elem_of_app. by left.
Qed.

Section Log.
Context {F : Type} (gobDecode : bytes -> option logBody).
Local Abbreviation replica := (replica gobDecode).

(** Every change of a set in sync was proposed by a driver, on a view the log had. *)
Definition drivenLog (l : list (Z * bytes)) : Prop := forall k idx d e, l !! k = Some (idx, d) -> decodeLogEntry gobDecode d = Ok e ->
  Op e = OpSetShardISR -> exists i, (i <= k)%nat /\ driverProposal (F := F) (replica l i) e.

Lemma replica_step l i : replica l (S i) = replica l i \/
  exists idx d e, l !! i = Some (idx, d) /\ decodeLogEntry gobDecode d = Ok e /\ change idx e (replica l i) (replica l (S i)).
Proof.
  destruct (l !! i) as [[idx d]|] eqn:Hl.
  2:{ left. apply lookup_ge_None in Hl. unfold MetaProps.replica. by rewrite !take_ge by lia. }
  change (replica l (S i)) with (state (machine gobDecode l (S i))). rewrite (machine_S _ _ _ _ Hl).
  change (replica l i) with (state (machine gobDecode l i)). set (m := machine gobDecode l i). unfold applyOne, Apply. cbn [fst snd].
  destruct (halted m); [by left|]. destruct (decodeLogEntry gobDecode d) as [e| |] eqn:Hd; [right|by left..]. exists idx, d, e. split_and!; [done..|].
  pose proof (applyEntry_change idx e m) as H. destruct (applyEntry idx e m) as [m' [[r []]| |]]; cbn in *; by rewrite ?state_advance.
Qed.

(** C26. The primary is in sync. When every change of a set in sync in the metadata log
    was proposed by the shrink or the grow driver on some view the log had at the
    time, stale as it may be, then every view shows the primary of a shard with an
    epoch in the shard's set. *)
Theorem primary_in_sync l i sh : drivenLog l -> 0 < epochOf (replica l i) sh -> primaryOf (replica l i) sh ∈ isrOf (replica l i) sh.
Proof.
  intros Hl. revert i sh. induction i as [i IH] using lt_wf_ind. intros sh. destruct i as [|i]; [by cbn|].
  destruct (replica_step l i) as [->|(idx & d & e & Hk & Hd & Hc)]; [apply IH; lia|]. specialize (IH i ltac:(lia) sh) as IHi.
  destruct Hc as [s1 (He & Hp & Hi & _) _|_ Hlt|Ho He Hne _| | |]; try apply IHi.
  - unfold epochOf, isrOf, primaryOf in *. by rewrite He, Hi, Hp.
  - unfold epochOf, isrOf, primaryOf in *. cbn. destruct (decide (sh = eShardID e)) as [->|Hn].
    + rewrite !lookup_insert_eq. cbn. intros _. apply seedISR_primary.
    + rewrite !lookup_insert_ne by done. apply IHi.
  - destruct (decide (sh = eShardID e)) as [->|Hn]; [|unfold epochOf, isrOf, primaryOf in *; cbn; by rewrite lookup_insert_ne by done].
    destruct (Hl _ _ _ _ Hk Hd Ho) as (j & Hj & Hdp). apply driverProposal_primary in Hdp as [Hep Hin].
    destruct (replica_leads gobDecode (eShardID e) l j i Hj) as [_ Hlead].
    assert (primaryOf (replica l j) (eShardID e) = primaryOf (replica l i) (eShardID e)) as Hpr by (apply Hlead; congruence).
    intros Hpos. change (0 < epochOf (replica l i) (eShardID e)) in Hpos.
    change (primaryOf (replica l i) (eShardID e) ∈ default [] (<[eShardID e := eISR e]> (ShardISR (replica l i)) !! eShardID e)). rewrite lookup_insert_eq. cbn.
    rewrite <- Hpr. apply Hin, IH; [lia|]. rewrite <- Hep, He. exact Hpos.
Qed.

End Log.
