(* ===== verification/MetaRuns.v ===== *)
(** * Runs of the metadata: an encoding of entries, logs, and what they show. *)
From stdpp Require Import strings gmap.
From S2P Require Import Prelude Wire MetaState MetaFSM MetaProps MetaSnapshot Engine EngineProps Failover FailoverProps Drivers DriversProps.
Import MetaState MetaFSM MetaSnapshot Failover.

Module MetaRuns.

(** Bodies are written as their place in a table. *)
Definition tableGob (bodies : list logBody) (b : bytes) : option logBody :=
  match b with [x] => bodies !! Z.to_nat (byte.unsigned x) | _ => None end.
Definition entry (op i : Z) : bytes := le_put 1 op ++ le_put 1 i.
Definition body (o : outcome merr LogEntry) : logBody :=
  match o with Ok e => Body e | _ => Body (setMembersEntry [] 0 0 0) end.

Definition na : string := "a".
Definition nb : string := "b".
Definition nc : string := "c".

Definition bodies : list logBody :=
  [Body (setMembersEntry [MkPeer na na na na; MkPeer nb nb nb nb; MkPeer nc nc nc nc] 1 3 2);
   body (ApplySetShardFormer true 0 nb); body (ApplySetShardFormer true 0 nc);
   body (ApplySetShardSeed true 0 1 na [na; nb; nc]);
   body (ApplySetShardISR true 0 1 [na; nb])].
Definition gob : bytes -> option logBody := tableGob bodies.

(** Members, two proposals for the former of shard 0, its seed, a shrink. *)
Definition log : list (Z * bytes) :=
  [(1, entry OpSetMembers 0); (2, entry OpSetShardFormer 1); (3, entry OpSetShardFormer 2); (4, entry OpSetShardEpoch 3); (5, entry OpSetShardISR 4)].


Lemma former_is_designated_once_witness : designates gob log 1 0 nb /\ formerOf (replica gob log 5) 0 = nb.
Proof.
  assert (designates gob log 1 0 nb) as H by (eexists _, _, _; split_and!; vm_compute; reflexivity).
  split; [exact H|]. apply (former_is_designated_once gob log 1 0 nb H). lia.
Defined.

Lemma primary_in_sync_witness : 0 < epochOf (replica gob log 5) 0 /\ primaryOf (replica gob log 5) 0 ∈ isrOf (replica gob log 5) 0.
Proof.
  split; [vm_compute; reflexivity|]. apply (primary_in_sync (F := unit) gob log 5 0); [|vm_compute; reflexivity].
  intros k idx d e Hk Hd Ho. do 5 (destruct k as [|k]; [vm_compute in Hk; injection Hk as <- <-; vm_compute in Hd; injection Hd as <-; try (vm_compute in Ho; discriminate Ho)|]).
  - exists 4%nat. split; [lia|]. apply (ByShrink _ _ 0 [nc] 2 (Drivers.MkShrink 0 1 [na; nb])); vm_compute; reflexivity.
  - done.
Defined.

(** A machine that has applied the log, and its snapshot. *)
Definition m0 : MetaFSM := applyAll gob NewMetaFSM log.
Definition snap : State := set_PopulatedFields (populatedFieldPaths (set_LastIndex (appliedIndex m0) (state m0))) (set_LastIndex (appliedIndex m0) (state m0)).
Definition gobState (s : State) : bytes := [Byte.x01].
Definition ungobState (b : bytes) : option State := match b with [Byte.x01] => Some snap | _ => None end.

Lemma restored_metadata_agrees_witness : exists r, Restore ungobState (SnapshotBytes gobState m0) NewMetaFSM = (r, Ok tt) /\
  agree (applyAll gob r [(6, entry OpSetShardISR 4)]) (applyAll gob m0 [(6, entry OpSetShardISR 4)]).
Proof.
  apply (restored_metadata_agrees gob gobState ungobState m0 NewMetaFSM [(6, entry OpSetShardISR 4)]).
  - discriminate.
  - reflexivity.
  - vm_compute. discriminate.
  - vm_compute. reflexivity.
Defined.

(** The leader has seen the beacon of epoch 1 at time 5; the primary is silent. *)
Definition st : State := replica gob log 4.
Definition tracker : pbFailoverTracker := observeRenew 5 0 1 newPBFailoverTracker.
Definition marks (sh : Z) (m : string) : option Z := if bool_decide (m = nb) then Some 3 else if bool_decide (m = nc) then Some 4 else None.

Lemma promotion_has_the_most_witness : exists h, marks 0 nc = Some h /\ forall m h', m ∈ isrOf st 0 /\ m <> primaryOf st 0 /\ marks 0 m = Some h' -> h' <= h.
Proof.
  destruct (promotion_has_the_most st tracker 100 100 10 marks 0) as [_ H].
  - apply (bool_decide_unpack _). vm_compute. exact I.
  - destruct (H (MkPromotion 0 2 nc)) as (_ & h & (_ & _ & Hh) & Hm); [apply list_elem_of_lookup; exists 0%nat; vm_compute; reflexivity|reflexivity|]. by exists h.
Defined.

Lemma no_promotion_cascade_witness : 0 + 10 < 100 /\ epochOf st 0 <= default 0 (lastRenewEp tracker !! 0).
Proof.
  destruct (no_promotion_cascade true true st tracker 0 100 100 10 (Some marks) (fun _ => true) (MkLogEntry OpSetShardEpoch (body (ApplySetShardEpoch true 0 2 nc))))
    as (_ & H1 & H2); [unfold instant; cbn; lia..| | |].
  - intros sh x Hx. cbn in Hx. destruct (decide (sh = 0)) as [->|Hn]; [rewrite lookup_insert_eq in Hx; injection Hx as <-; unfold instant; lia|].
    rewrite lookup_insert_ne, lookup_empty in Hx by done. done.
  - apply list_elem_of_lookup. exists 0%nat. vm_compute. reflexivity.
  - split; [exact H1|exact H2].
Defined.

(** The default timings: a beacon and a lease at time 0, the leader's decision after
    the timeout. *)
Definition config : pbTimings := MkTimings 0 0 0 0.
Definition late : Z := 11 * 1000000000.
Definition leaseholder : Engine.Engine bytes := (Engine.Promote Engine.CommitFullISR 1 pbLeaseTTL 0 EngineProps.EngineRuns.engine0).1.

Lemma promoted_after_lease_witness : Engine.leaseExpiry leaseholder = pbLeaseTTL /\ Engine.LeaseValid late leaseholder = false.
Proof.
  split; [vm_compute; reflexivity|].
  pose proof (promoted_after_lease config st (observeRenew 0 0 1 newPBFailoverTracker) late late (Some marks) (MkPromotion 0 2 nc) 0 0 0 leaseholder eq_refl) as H.
  rewrite (eq_refl : pbEffectiveTimings config = (pbLeaseTTL, metaContactStaleness, pbFailoverTimeout, pbRenewInterval)) in H.
  apply H; try (vm_compute; split; congruence); try (vm_compute; congruence). apply list_elem_of_lookup. exists 0%nat. vm_compute. reflexivity.
Defined.

End MetaRuns.
