(* ===== verification/EngineEff.v ===== *)
(** * The override of the set in sync and the lease: only a shrink or a grow sets the
    override and only the keeper the lease; everything else leaves them or, with a new
    epoch, clears the override. *)
From stdpp Require Import strings gmap sets.
From S2P Require Import Prelude Ring Engine.
Import Engine.

Section Eff.
Context {F : Type} (nodeID : string) (cl : CommitLevel).
Context (Apply : F -> bytes -> F * option bytes) (SnapshotFSM : F -> option bytes) (InstallFSM : F -> bytes -> F * bool).
Local Abbreviation M := (st (Engine F) perr).

(** The override is kept or cleared. *)
Definition effStays (e e' : Engine F) : Prop :=
  effISREpoch e' = effISREpoch e /\ effISR e' = effISR e \/ effISREpoch e' = 0.
Definition leaseStays (e e' : Engine F) : Prop := leaseEpoch e' = leaseEpoch e /\ leaseExpiry e' = leaseExpiry e.
Definition effKept (e e' : Engine F) : Prop := effStays e e' /\ leaseStays e e'.

#[export] Instance effStays_preorder : PreOrder effStays.
Proof. split; [by left|]. intros a b c [[H1 H2]|H1] [[H3 H4]|H3]; unfold effStays; [left|right..]; [split|..]; congruence. Qed.
#[export] Instance effKept_preorder : PreOrder effKept.
Proof.
  split; [by split|]. intros a b c [H1 [H2 H2']] [H3 [H4 H4']]. split; [by etransitivity|]. split; congruence.
Qed.

Definition keepsEff {A} (m : M A) : Prop := forall e, effKept e (m e).1.

Lemma keeps_ret {A} (a : A) : keepsEff (mret a).
Proof. by intros e. Qed.
Lemma keeps_gets {A} (f : Engine F -> A) : keepsEff (gets f).
Proof. by intros e. Qed.
Lemma keeps_throw {A} err : keepsEff (throw (A:=A) err).
Proof. by intros e. Qed.
Lemma keeps_panic {A} : keepsEff (panic (A:=A)).
Proof. by intros e. Qed.
Lemma keeps_lift {A} (o : outcome perr A) : keepsEff (lift o).
Proof. by intros e. Qed.
Lemma keeps_oget {A} (o : option A) : keepsEff (oget o).
Proof. by intros e; destruct o. Qed.
Lemma keeps_modify f : (forall e, effKept e (f e)) -> keepsEff (modify f).
Proof. intros H e. apply H. Qed.
Lemma keeps_bind {A B} (m : M A) (k : A -> M B) : keepsEff m -> (forall a, keepsEff (k a)) -> keepsEff (m ≫= k).
Proof.
  intros Hm Hk e. specialize (Hm e). unfold mbind, st_bind. destruct (m e) as [e' [a|err|]]; [|done..]. cbn in Hm. etransitivity; [done|]. apply Hk.
Qed.
Lemma keeps_try {A} (m : M A) : keepsEff m -> keepsEff (try m).
Proof. intros Hm e. specialize (Hm e). unfold try. by destruct (m e) as [e' []]. Qed.

Create HintDb eff.

(** Runs through the steps of an operation. *)
Ltac eff :=
  repeat first
    [ solve [auto 2 with eff]
    | lazymatch goal with
      | |- keepsEff (_ ≫= _) => apply keeps_bind; [|intros ?]
      | |- keepsEff (mret _) => apply keeps_ret
      | |- keepsEff (gets _) => apply keeps_gets
      | |- keepsEff (throw _) => apply keeps_throw
      | |- keepsEff panic => apply keeps_panic
      | |- keepsEff (lift _) => apply keeps_lift
      | |- keepsEff (oget _) => apply keeps_oget
      | |- keepsEff (modify _) => apply keeps_modify; intros ?; split; [by left|done]
      | |- keepsEff (try _) => apply keeps_try
      | |- keepsEff (match ?x with _ => _ end) => destruct x
      end ].

Lemma getRec_eff id : keepsEff (getRec (F:=F) id).
Proof. unfold getRec. eff. Qed.
Lemma setRec_eff id r : keepsEff (setRec (F:=F) id r).
Proof. unfold setRec. eff. Qed.
Lemma recAt_eff i : keepsEff (recAt (F:=F) i).
Proof. unfold recAt. eff. Qed.
Local Hint Resolve getRec_eff setRec_eff recAt_eff : eff.

Lemma eachInflight_eff f : (forall id, keepsEff (f id)) -> keepsEff (eachInflight (F:=F) f).
Proof.
  intros Hf. unfold eachInflight. eff. generalize (Z.to_nat a) 0. intros n. induction n as [|n IH]; intros i; cbn [for_inflight]; eff.
Qed.

Lemma clearEff_eff : keepsEff clearEffISRLocked.
Proof. intros e. split; [by right|done]. Qed.
Lemma clearLearners_eff : keepsEff clearLearnersLocked.
Proof. unfold clearLearnersLocked. eff. Qed.
Lemma pop_eff : keepsEff popInflightHeadLocked.
Proof. unfold popInflightHeadLocked. eff. Qed.
Lemma resolve_eff id err : keepsEff (resolveLocked (F:=F) id err).
Proof. unfold resolveLocked. eff. Qed.
Local Hint Resolve clearEff_eff clearLearners_eff pop_eff resolve_eff : eff.

Lemma sweep_loop_eff n now : keepsEff (sweep_loop cl n now).
Proof. induction n as [|n IH]; cbn [sweep_loop]; unfold markCommittedLocked; eff. Qed.
Local Hint Resolve sweep_loop_eff : eff.
Lemma sweep_eff now : keepsEff (sweepLocked cl now).
Proof. unfold sweepLocked. eff. Qed.
Local Hint Resolve sweep_eff : eff.

Lemma enterEpoch_eff ep now : keepsEff (enterEpoch cl ep now).
Proof. unfold enterEpoch, flushEpochLocked. eff. apply eachInflight_eff. intros id. eff. Qed.
Local Hint Resolve enterEpoch_eff : eff.

Lemma flush_eff ep now : keepsEff (flushEpochLocked cl ep now).
Proof. unfold flushEpochLocked. eff. apply eachInflight_eff. intros id. eff. Qed.
Local Hint Resolve flush_eff : eff.

(** What a grant makes of the lease. *)
Definition leased (ep expiry : Z) (e e' : Engine F) : Prop :=
  effStays e e' /\ (leaseStays e e' \/ leaseEpoch e' = ep /\ leaseExpiry e' = expiry).

(** A step that sets the lease, then steps that keep it. *)
Lemma leased_then {A} ep expiry (m : M A) e e1 : keepsEff m -> leased ep expiry e e1 -> leased ep expiry e (m e1).1.
Proof.
  intros Hm [H1 H2]. destruct (Hm e1) as [H3 [H4 H5]]. split; [by etransitivity|]. unfold leaseStays in *. rewrite H4, H5. done.
Qed.

Lemma GrantLease_leased ep expiry now e : leased ep expiry e (GrantLease cl ep expiry now e).1.
Proof.
  unfold GrantLease. rewrite bind_gets. destruct (ep <? leaseEpoch e); [by split; [left|left]|]. rewrite !bind_modify.
  apply leased_then; [eff|]. split; [by left|by right].
Qed.

Lemma Promote_leased ep expiry now e : leased ep expiry e (Promote cl ep expiry now e).1.
Proof.
  unfold Promote. rewrite bind_gets. destruct (ep <=? epoch e); [by split; [left|left]|]. rewrite bind_gets.
  destruct (poisoned e); [by split; [left|left]|]. rewrite !bind_modify. apply leased_then; [eff|]. split; [by left|by right].
Qed.

Lemma proposeCheck_eff primary isr minISR now : keepsEff (proposeCheck nodeID primary isr minISR now).
Proof. unfold proposeCheck. eff. Qed.
Lemma applyData_eff data : keepsEff (applyData Apply data).
Proof. unfold applyData. eff. Qed.
Local Hint Resolve applyData_eff : eff.

Lemma register_eff ep isr data now : keepsEff (proposeRegister nodeID cl ep isr data now).
Proof. unfold proposeRegister, registerInflightLocked, allocRing, makeRoom, growInflightRingLocked, noteFrontierLocked. eff. Qed.

Lemma submitPeer_eff i p m : keepsEff (submitPeerLocked i p m).
Proof. unfold submitPeerLocked, send, enqueue. eff. apply keeps_modify. intros e. destruct (peerQ e !! p); (split; [by left|done]). Qed.
Lemma submitLearner_eff p m : keepsEff (submitLearnerLocked p m).
Proof. unfold submitLearnerLocked, enqueue, dropPeerLocked, markLearnerAbandonedLocked. eff. Qed.
Local Hint Resolve submitPeer_eff submitLearner_eff : eff.
Lemma seqM_eff {A} (f : A -> M unit) l : (forall a, keepsEff (f a)) -> keepsEff (seqM f l).
Proof. intros Hf. induction l; cbn [seqM]; eff. Qed.
Lemma ship_eff inline p now : keepsEff (proposeShip cl inline p now).
Proof. unfold proposeShip. eff; apply seqM_eff; intros; eff. Qed.
Lemma runSender_eff g a p : keepsEff (runSender g a p).
Proof. unfold runSender, send. eff. Qed.

Lemma inflightAt_eff s : keepsEff (inflightAtLocked s).
Proof. unfold inflightAtLocked. eff. Qed.
Local Hint Resolve inflightAt_eff : eff.
Lemma completeSend_eff p m a now : keepsEff (completeSend cl p m a now).
Proof. unfold completeSend, failSend, ackInflightLocked, creditPeerAckedLocked, notePeerSuccessLocked, notePeerFailureLocked. eff. Qed.
Lemma creditGroup_eff n s p ep th : keepsEff (creditGroup n s p ep th).
Proof. revert s. induction n as [|n IH]; intros s; cbn [creditGroup]; eff. Qed.
Local Hint Resolve creditGroup_eff : eff.
Lemma completeGroup_eff p ep f l a now : keepsEff (completeGroupSend cl p ep f l a now).
Proof. unfold completeGroupSend, creditPeerAckedLocked, notePeerSuccessLocked, notePeerFailureLocked. eff. Qed.
Lemma await_eff id d : keepsEff (awaitDone id d).
Proof. unfold awaitDone. eff. Qed.

Lemma receive_eff m now : keepsEff (Receive cl Apply m now).
Proof. unfold Receive, receiveLocked, noteFrontierLocked. eff. Qed.
Local Hint Resolve receive_eff : eff.
Lemma receive_loop_eff ms ep ok now : keepsEff (receive_loop cl Apply ms ep ok now).
Proof. revert ep ok. induction ms as [|x l IH]; intros a b; cbn [receive_loop]; change receiveLocked with (@Receive F); eff. Qed.
Local Hint Resolve receive_loop_eff : eff.
Lemma receiveGroup_eff ms now : keepsEff (ReceiveGroup cl Apply ms now).
Proof. unfold ReceiveGroup. destruct ms as [|m ms]; eff. Qed.
Lemma receiveChunk_eff c now : keepsEff (ReceiveSnapshotChunk cl c now).
Proof. unfold ReceiveSnapshotChunk. eff. Qed.

Lemma ringDelta_eff a b : keepsEff (ringDeltaLocked a b).
Proof. unfold ringDeltaLocked. eff. Qed.
Local Hint Resolve ringDelta_eff : eff.
Lemma backfill_eff E k gap : keepsEff (backfillRound E k gap).
Proof. unfold backfillRound. eff. Qed.
Lemma flip_eff p E k now : keepsEff (flipRound p E k now).
Proof. unfold flipRound, createLearnerSenderLocked, dropPeerLocked. eff. Qed.
Lemma abort_eff p : keepsEff (AbortLearnerCatchup p).
Proof. unfold AbortLearnerCatchup, dropPeerLocked. eff. Qed.
Lemma teardown_eff : keepsEff TeardownLearners.
Proof. unfold TeardownLearners. eff. Qed.
Lemma reclaim_eff : keepsEff ReclaimOrphanLearners.
Proof. unfold ReclaimOrphanLearners. eff. Qed.
Lemma take_eff E now : keepsEff (takeSnapshot SnapshotFSM E now).
Proof. unfold takeSnapshot. eff. Qed.
Lemma popAll_eff n : keepsEff (popAll n).
Proof. induction n as [|n IH]; cbn [popAll]; eff. Qed.
Local Hint Resolve popAll_eff : eff.
Lemma install_eff E fs fe blob ok : keepsEff (installSnapshot InstallFSM E fs fe blob ok).
Proof. unfold installSnapshot. eff. apply eachInflight_eff. intros id. eff. Qed.

(** A shrink and a grow set the override to what they are given, or do nothing. *)
Definition effSetTo (ep : Z) (isr : list string) (e e' : Engine F) : Prop :=
  leaseStays e e' /\ (effStays e e' \/ effISREpoch e' = ep /\ effISR e' = isr).

Lemma shrink_eff ep isr now e : effSetTo ep isr e (ShrinkISR cl ep isr now e).1.
Proof.
  unfold ShrinkISR. rewrite !bind_gets. destruct (_ || _); [by split; [|left; left]|]. rewrite !bind_modify.
  match goal with |- effSetTo _ _ _ (?m ?e1).1 => assert (keepsEff m) as Hm end.
  { eff. apply eachInflight_eff. intros id. unfold narrow. eff. }
  match goal with |- effSetTo _ _ _ (?m ?e1).1 => destruct (Hm e1) as [[[H1 H2]|H1] Hl] end; (split; [done|]); [right; by rewrite H1, H2|left; by right].
Qed.

Lemma grow_eff ep isr e : effSetTo ep isr e (GrowISR ep isr e).1.
Proof. unfold GrowISR. rewrite !bind_gets. destruct (_ || _); [by split; [|left; left]|]. by split; [|right]. Qed.

End Eff.
