(* ===== verification/Cluster.v ===== *)
(** * A cluster: replicated shards under the metadata that governs them.

    The nodes of one shard (Replication.v), the log of the meta-Raft group and how far
    each node has applied it, and the goroutines that read the metadata and act on the
    engine: the lease keeper (src/cluster/pb_wiring.go), the proposer through
    [metaControl] (pb_control.go), the shrink and the grow driver. Whatever any node
    proposes to the log, failover included, is an entry that gets appended. *)
From stdpp Require Import strings gmap sets.
From S2P Require Import Prelude Ring Engine Replication MetaState MetaFSM MetaProps Drivers.
Import Engine Replication.
Import MetaState MetaFSM.

Module Cluster.

Section System.
Context {F : Type} (f0 : F) (cl : CommitLevel).
Context (Apply : F -> bytes -> F * option bytes) (SnapshotFSM : F -> option bytes) (InstallFSM : F -> bytes -> F * bool).
Context (fresh : Engine F).
(** Decoding of the entries, the shard, and the configured floor. *)
Context (gobDecode : bytes -> option logBody) (sh : Z) (minISR : Z).

Record CNode := MkCNode {
  view : nat;
  barriered : Z;
  baseline : Drivers.pbISRReconcile;
}.

(** [told]: the sets the drivers handed to engines, with their epochs. *)
Record Cluster := MkCluster {
  sys : @Sys F;
  log : list (Z * bytes);
  cnodes : gmap string CNode;
  told : list (Z * list string);
}.

Definition cinit : Cluster := MkCluster init [] ∅ [].
Definition cnode (c : Cluster) (n : string) : CNode := default (MkCNode 0 0 ∅) (cnodes c !! n).
Definition setCNode (n : string) (x : CNode) (c : Cluster) : Cluster := MkCluster (sys c) (log c) (<[n := x]> (cnodes c)) (told c).
Definition setSys (s : Sys) (c : Cluster) : Cluster := MkCluster s (log c) (cnodes c) (told c).
Definition tell (ep : Z) (isr : list string) (c : Cluster) : Cluster := MkCluster (sys c) (log c) (cnodes c) (told c ++ [(ep, isr)]).

(** The metadata a node sees. *)
Definition meta (c : Cluster) (n : string) : State := replica gobDecode (log c) (view (cnode c n)).

(** The node has applied (or restored) up to entry [i]. *)
Definition see (n : string) (i : nat) (c : Cluster) : Cluster :=
  let x := cnode c n in
  setCNode n (MkCNode (Nat.max (view x) (Nat.min i (length (log c)))) (barriered x) (baseline x)) c.

(** An event of the shard. An engine takes a lease for an epoch only from [grant]. *)
Definition run (ev : event) (c : Cluster) : Cluster :=
  setSys (exec cl Apply SnapshotFSM InstallFSM (fun _ => noName) fresh ev (sys c)) c.
Definition grant (n : string) (ep leaseTTL now : Z) (c : Cluster) : Cluster :=
  setSys (exec cl Apply SnapshotFSM InstallFSM (fun _ => n) fresh (EKeep n ep (now + leaseTTL) now) (sys c)) c.

(** One shard of [leaseKeeper.tick]. [connected] is the outcome of the connection
    check, [confirmed] that of the read barrier, which returns when the node has
    applied what was committed. *)
Definition keeper (n : string) (connected confirmed : bool) (leaseTTL now : Z) (c : Cluster) : Cluster :=
  if negb connected then c else
  if negb (bool_decide (primaryOf (meta c n) sh = n)) then c else
  let ep := epochOf (meta c n) sh in
  if barriered (cnode c n) =? ep then grant n ep leaseTTL now c else
  if negb confirmed then c else
  let c := see n (length (log c)) c in
  if negb (bool_decide (primaryOf (meta c n) sh = n)) then c else
  let ep := epochOf (meta c n) sh in
  let x := cnode c n in
  grant n ep leaseTTL now (setCNode n (MkCNode (view x) ep (baseline x)) c).

(** The start of a proposal: the primary is read, then the set in sync, maybe from
    later metadata. *)
Definition propose (n : string) (i : nat) (now : Z) (data : bytes) (c : Cluster) : Cluster :=
  let primary := primaryOf (meta c n) sh in
  let c := see n i c in
  run (ECheck n primary (isrOf (meta c n) sh) minISR now data) c.

Definition setBaseline (n : string) (b : Drivers.pbISRReconcile) (c : Cluster) : Cluster :=
  let x := cnode c n in setCNode n (MkCNode (view x) (barriered x) b) c.

(** One shard of [pbShrinkDriver.tick], as far as it acts on the engine. *)
Definition shrinkTick (n : string) (now : Z) (c : Cluster) : Cluster :=
  let st := meta c n in
  let b := baseline (cnode c n) in
  if negb (bool_decide (primaryOf st sh = n)) then setBaseline n (Drivers.forget b sh) c else
  let ep := epochOf st sh in
  let isr := isrOf st sh in
  if negb (epoch (eng (node fresh (sys c) n)) =? ep) then c else
  match Drivers.shrinkReconcile b sh ep isr with
  | Drivers.Changed => setBaseline n (Drivers.set_ b sh ep isr) (run (EShrink n ep isr now) (tell ep isr c))
  | Drivers.First => setBaseline n (Drivers.set_ b sh ep isr) c
  | Drivers.Same => c
  end.

(** One shard of [pbGrowDriver.tick], likewise. *)
Definition growTick (n : string) (c : Cluster) : Cluster :=
  let st := meta c n in
  let b := baseline (cnode c n) in
  if negb (bool_decide (primaryOf st sh = n)) then run (ETeardown n) c else
  let c := run (EReclaim n) c in
  let ep := epochOf st sh in
  let isr := isrOf st sh in
  if negb (epoch (eng (node fresh (sys c) n)) =? ep) then c else
  match Drivers.growReconcile b sh ep isr with
  | Drivers.Changed => setBaseline n (Drivers.set_ b sh ep isr) (run (EGrow n ep isr) (tell ep isr c))
  | Drivers.First => setBaseline n (Drivers.set_ b sh ep isr) c
  | Drivers.Same => c
  end.

Inductive cevent :=
| CCommit (idx : Z) (data : bytes)
| CSee (n : string) (i : nat)
| CKeep (n : string) (connected confirmed : bool) (leaseTTL now : Z)
| CPropose (n : string) (i : nat) (now : Z) (data : bytes)
| CShrink (n : string) (now : Z)
| CGrow (n : string)
| CRun (ev : event).

(** Events of the engines and the transport that read no metadata. *)
Definition internal (ev : event) : bool :=
  match ev with EKeep _ _ _ _ | ECheck _ _ _ _ _ _ | EShrink _ _ _ _ | EGrow _ _ _ => false | _ => true end.

(** A node has a name, or its configuration is refused. *)
Definition cexec (ev : cevent) (c : Cluster) : Cluster :=
  match ev with
  | CCommit idx data => MkCluster (sys c) (log c ++ [(idx, data)]) (cnodes c) (told c)
  | CSee n i => see n i c
  | CKeep n connected confirmed leaseTTL now => if bool_decide (n = noName) then c else keeper n connected confirmed leaseTTL now c
  | CPropose n i now data => propose n i now data c
  | CShrink n now => shrinkTick n now c
  | CGrow n => growTick n c
  | CRun ev => if internal ev then run ev c else c
  end.

Definition cexecs (evs : list cevent) (c : Cluster) : Cluster := foldl (fun c ev => cexec ev c) c evs.

(** ** The primary of an epoch, by the log *)

(** The first view of the log that shows the epoch names its primary. *)
Definition primaryAt (l : list (Z * bytes)) (ep : Z) : string :=
  match list_find (fun i => epochOf (replica gobDecode l i) sh = ep) (seq 0 (S (length l))) with
  | Some (_, i) => primaryOf (replica gobDecode l i) sh
  | None => noName
  end.

End System.
End Cluster.
