(* ===== verification/ClusterProps.v ===== *)
(** * What a cluster guarantees, whatever its log says and whoever applies it when. *)
From stdpp Require Import strings gmap sets.
From S2P Require Import Prelude Ring Engine EngineInv Replication ReplInv ReplSteps ReplProps MetaState MetaFSM MetaProps Drivers Cluster.
Import Engine Replication.
Import MetaState MetaFSM Cluster.

Section Props.
Context {F : Type} (f0 : F) (cl : CommitLevel).
Context (Apply : F -> bytes -> F * option bytes) (SnapshotFSM : F -> option bytes) (InstallFSM : F -> bytes -> F * bool).
Context (cap : Z) (fresh : Engine F).
Context (gobDecode : bytes -> option logBody) (sh : Z) (minISR : Z).

Local Abbreviation replica := (replica gobDecode).
Local Abbreviation primaryAt := (primaryAt gobDecode sh).
Local Abbreviation exec pf := (exec cl Apply SnapshotFSM InstallFSM pf fresh).
Local Abbreviation execs pf := (execs cl Apply SnapshotFSM InstallFSM pf fresh).
Local Abbreviation cexec := (cexec cl Apply SnapshotFSM InstallFSM fresh gobDecode sh minISR).
Local Abbreviation cexecs := (cexecs cl Apply SnapshotFSM InstallFSM fresh gobDecode sh minISR).
Local Abbreviation meta := (meta gobDecode).

(** ** Views of the log *)

Lemma replica_app l x i : (i <= length l)%nat -> replica (l ++ x) i = replica l i.
Proof. intros Hi. unfold MetaProps.replica. by rewrite take_app_le. Qed.

(** The primary of an epoch is the one any view of it shows. *)
Lemma primaryAt_view l i : (i <= length l)%nat -> primaryAt l (epochOf (replica l i) sh) = primaryOf (replica l i) sh.
Proof.
  intros Hi. unfold Cluster.primaryAt. destruct (list_find _ _) as [[k j]|] eqn:E.
  - apply list_find_Some in E as (_ & Hj & _). destruct (Nat.le_ge_cases i j) as [Hij|Hij].
    + symmetry. by apply (replica_leads gobDecode sh l i j Hij).
    + by apply (replica_leads gobDecode sh l j i Hij).
  - exfalso. eapply list_find_None in E. eapply Forall_forall in E; [by apply E|]. apply elem_of_seq. lia.
Qed.

Lemma primaryAt_prefix l L i : l `prefix_of` L -> (i <= length l)%nat -> primaryAt L (epochOf (replica l i) sh) = primaryOf (replica l i) sh.
Proof.
  intros [x ->] Hi. rewrite <- (replica_app l x i Hi). apply primaryAt_view. rewrite length_app. lia.
Qed.

(** ** Runs of the cluster are runs of its shard *)

Definition viewsOk (c : @Cluster F) : Prop := forall n, (view (cnode c n) <= length (log c))%nat.

Lemma cnode_set n x (c : @Cluster F) m : cnode (setCNode n x c) m = if decide (m = n) then x else cnode c m.
Proof.
  unfold cnode, setCNode. cbn. case_decide as Hm; [subst; by rewrite lookup_insert_eq|by rewrite lookup_insert_ne].
Qed.

Lemma views_set n x c : viewsOk c -> (view x <= length (log c))%nat -> viewsOk (setCNode n x c).
Proof. intros Hv Hx m. rewrite cnode_set. case_decide; [done|apply Hv]. Qed.

Lemma views_see n i c : viewsOk c -> viewsOk (see n i c).
Proof. intros Hv. apply views_set; [done|]. cbn. pose proof (Hv n). lia. Qed.

(** A step of the cluster makes some events of its shard happen. *)
Definition steps (L : list (Z * bytes)) (c c' : @Cluster F) : Prop :=
  viewsOk c' /\ log c `prefix_of` log c' /\ (log c' `prefix_of` L -> exists evs, sys c' = execs (primaryAt L) evs (sys c)).

Lemma steps_refl L c : viewsOk c -> steps L c c.
Proof. intros Hv. split_and!; [done..|]. intros _. by exists []. Qed.

Lemma steps_trans L c1 c2 c3 : steps L c1 c2 -> steps L c2 c3 -> steps L c1 c3.
Proof.
  intros (V1 & P1 & H1) (V2 & P2 & H2). split_and!; [done|by etransitivity|]. intros HL.
  destruct H1 as [e1 E1]; [by etransitivity|]. destruct (H2 HL) as [e2 E2]. exists (e1 ++ e2). unfold Replication.execs in *. by rewrite foldl_app, <- E1.
Qed.

(** Only the lease keeper asks who the primary is. *)
Lemma exec_primary pf pf' ev s : (forall n ep ex now, ev = EKeep n ep ex now -> (pf ep = n <-> pf' ep = n)) -> exec pf ev s = exec pf' ev s.
Proof.
  intros H. destruct ev; try done. cbn. specialize (H n ep expiry now eq_refl).
  assert (bool_decide (pf ep = n) = bool_decide (pf' ep = n)) as -> by (by apply bool_decide_ext). done.
Qed.

Lemma steps_run L ev c : (forall n ep ex now, ev <> EKeep n ep ex now) -> viewsOk c -> steps L c (run cl Apply SnapshotFSM InstallFSM fresh ev c).
Proof.
  intros Hk Hv. split_and!; [done..|]. intros _. exists [ev]. cbn. apply exec_primary. intros n ep ex now ->. by destruct (Hk n ep ex now).
Qed.

Lemma steps_nodes L n x c : viewsOk c -> (view x <= length (log c))%nat -> steps L c (setCNode n x c).
Proof. intros Hv Hx. split_and!; [by apply views_set|done|]. intros _. by exists []. Qed.

Lemma steps_tell L ep isr c : viewsOk c -> steps L c (tell ep isr c).
Proof. intros Hv. split_and!; [done..|]. intros _. by exists []. Qed.

Lemma steps_see L n i c : viewsOk c -> steps L c (see n i c).
Proof. intros Hv. apply steps_nodes; [done|]. cbn. pose proof (Hv n). lia. Qed.

(** The keeper grants a lease to the primary the log names. *)
Lemma steps_grant L n ttl now c : viewsOk c -> primaryOf (meta c n) sh = n ->
  steps L c (grant cl Apply SnapshotFSM InstallFSM fresh n (epochOf (meta c n) sh) ttl now c).
Proof.
  intros Hv Hp. split_and!; [done..|]. intros HL. exists [EKeep n (epochOf (meta c n) sh) (now + ttl) now]. cbn [Replication.execs foldl].
  apply exec_primary. intros n' ep ex now' [= <- <- <- <-]. split; [|done]. intros _.
  unfold Cluster.meta. rewrite (primaryAt_prefix (log c) L _ HL (Hv n)). exact Hp.
Qed.

Lemma meta_see_self n i (c : @Cluster F) : meta (see n i c) n = replica (log c) (Nat.max (view (cnode c n)) (Nat.min i (length (log c)))).
Proof. unfold Cluster.meta, see. rewrite cnode_set, decide_True by done. done. Qed.

Lemma steps_keeper L n connected confirmed ttl now c : viewsOk c ->
  steps L c (keeper cl Apply SnapshotFSM InstallFSM fresh gobDecode sh n connected confirmed ttl now c).
Proof.
  intros Hv. unfold keeper. destruct connected; [|by apply steps_refl]. cbn [negb]. case_bool_decide as Hp; [|by apply steps_refl]. cbn [negb].
  destruct (_ =? _); [by apply steps_grant|]. destruct confirmed; [|by apply steps_refl]. cbn [negb].
  eapply steps_trans; [by apply (steps_see L n (length (log c)))|]. set (c1 := see n (length (log c)) c). assert (viewsOk c1) as Hv1 by by apply views_see.
  case_bool_decide as Hp1; [|by apply steps_refl]. cbn [negb].
  set (c2 := setCNode n _ c1). assert (viewsOk c2) as Hv2. { apply views_set; [done|]. apply (Hv1 n). }
  assert (meta c2 n = meta c1 n) as Hm. { unfold c2, Cluster.meta. by rewrite cnode_set, decide_True. }
  apply (steps_trans L c1 c2); [apply steps_nodes; [done|apply (Hv1 n)]|]. assert (primaryOf (meta c2 n) sh = n) as Hp2 by by rewrite Hm.
  clearbody c2. rewrite <- Hm. by apply steps_grant.
Qed.

Lemma steps_cexec L ev c : viewsOk c -> steps L c (cexec ev c).
Proof.
  intros Hv. destruct ev as [idx data|n i|n connected confirmed ttl now|n i now data|n now|n|ev]; cbn [Cluster.cexec].
  - split_and!; [|by eexists|].
    + intros n. pose proof (Hv n). unfold cnode in *. cbn. rewrite length_app. lia.
    + intros _. by exists [].
  - by apply steps_see.
  - case_bool_decide; [by apply steps_refl|by apply steps_keeper].
  - unfold propose. eapply steps_trans; [by apply (steps_see L n i)|]. apply steps_run; [done|by apply views_see].
  - unfold shrinkTick, setBaseline. destruct (negb _); [apply steps_nodes; [done|apply (Hv n)]|]. destruct (negb _); [by apply steps_refl|].
    destruct (Drivers.shrinkReconcile _ _ _ _); [apply steps_nodes; [done|apply (Hv n)]| |by apply steps_refl].
    eapply steps_trans; [by apply (steps_tell L (epochOf (meta c n) sh) (isrOf (meta c n) sh))|].
    eapply steps_trans; [by apply (steps_run L (EShrink n (epochOf (meta c n) sh) (isrOf (meta c n) sh) now))|]. apply steps_nodes; [done|apply (Hv n)].
  - unfold growTick, setBaseline. destruct (negb _); [by apply steps_run|].
    eapply steps_trans; [by apply (steps_run L (EReclaim n))|]. set (c1 := run _ _ _ _ _ _ c). assert (viewsOk c1) as Hv1 by done.
    destruct (negb _); [by apply steps_refl|]. destruct (Drivers.growReconcile _ _ _ _); [apply steps_nodes; [done|apply (Hv1 n)]| |by apply steps_refl].
    eapply steps_trans; [by apply (steps_tell L (epochOf (meta c n) sh) (isrOf (meta c n) sh))|].
    eapply steps_trans; [by apply (steps_run L (EGrow n (epochOf (meta c n) sh) (isrOf (meta c n) sh)))|]. apply steps_nodes; [done|apply (Hv1 n)].
  - destruct (internal ev) eqn:E; [|by apply steps_refl]. apply steps_run; [|done]. by intros n ep ex now ->.
Qed.

Lemma steps_cexecs L evs c : viewsOk c -> steps L c (cexecs evs c).
Proof.
  revert c. induction evs as [|ev evs IH]; intros c Hv; [by apply steps_refl|]. cbn. eapply steps_trans; [by apply (steps_cexec L ev)|].
  apply IH. by apply (steps_cexec L ev).
Qed.

End Props.
