(* ===== verification/ClusterInv.v ===== *)
(** * The sets in sync a write was required on: an invariant of clusters.

    Every write is required on a set in sync the log committed, except for members that
    a set of its epoch leaves out which the drivers handed to an engine. *)
From stdpp Require Import strings gmap sets.
From S2P Require Import Prelude Ring Engine EngineInv EngineOps EngineEff Replication ReplInv ReplSteps ReplProps.
From S2P Require Import MetaState MetaFSM MetaProps Drivers Cluster ClusterProps.
Import Engine Replication.
Import MetaState MetaFSM Cluster.

(** ** Steps of a shard that read no metadata *)

Section Quiet.
Context {F : Type} (cl : CommitLevel).
Context (Apply : F -> bytes -> F * option bytes) (SnapshotFSM : F -> option bytes) (InstallFSM : F -> bytes -> F * bool).
Context (pf : Z -> string) (fresh : Engine F).
Local Abbreviation node := (node fresh).
Local Abbreviation exec := (exec cl Apply SnapshotFSM InstallFSM pf fresh).

(** A write that is checked or applied keeps its epoch and its set. *)
Definition pending (w : phase) (ep : Z) (isr : list string) : Prop :=
  match w with Checked ep' isr' _ | Applied ep' isr' _ => ep' = ep /\ isr' = isr | _ => False end.

Record quietNode (nd nd' : @Node F) : Prop := {
  q_eff : effKept (eng nd) (eng nd');
  q_writer : forall ep isr, pending (writer nd') ep isr -> pending (writer nd) ep isr;
}.

#[local] Instance quietNode_preorder : PreOrder quietNode.
Proof.
  split; [by split|]. intros a b c [H1 H2] [H3 H4]. split; [by etransitivity|]. intros ep isr H. by apply H2, H4.
Qed.

Record quiet (s s' : @Sys F) : Prop := {
  q_node : forall n, quietNode (node s n) (node s' n);
  q_required : required s' = required s;
  q_shrinks : shrinks s' = shrinks s;
}.

#[local] Instance quiet_preorder : PreOrder quiet.
Proof.
  split; [by split|]. intros a b c [H1 H2 H3] [H4 H5 H6]. split; [|congruence..]. intros n. etransitivity; [apply H1|apply H4].
Qed.

Lemma node_setNode s n nd m : node (setNode n nd s) m = if decide (m = n) then nd else node s m.
Proof. unfold Replication.node, setNode. cbn. case_decide as Hm; [subst; by rewrite lookup_insert_eq|by rewrite lookup_insert_ne]. Qed.

Lemma quiet_set s n nd : quietNode (node s n) nd -> quiet s (setNode n nd s).
Proof. intros H. split; [|done..]. intros m. rewrite node_setNode. by case_decide; [subst|]. Qed.

Lemma quiet_eng s n e : effKept (eng (node s n)) e -> quiet s (setNode n (with_eng e (node s n)) s).
Proof. intros H. by apply quiet_set. Qed.

Lemma quiet_on {A} s n (m : st (Engine F) perr A) k : keepsEff m ->
  (forall a e, m (eng (node s n)) = (e, Ok a) -> quiet s (setNode n (with_eng e (node s n)) s) -> quiet s (k a (setNode n (with_eng e (node s n)) s))) -> quiet s (on fresh n m k s).
Proof.
  intros Hm Hk. specialize (Hm (eng (node s n))). unfold on. destruct (m (eng (node s n))) as [e [a|err|]] eqn:E; cbn in Hm; [|by apply quiet_eng|done].
  apply Hk; [done|]. by apply quiet_eng.
Qed.

(** A step that changes nothing but bookkeeping. *)
Lemma quiet_same s s1 s2 : quiet s s1 -> nodes s2 = nodes s1 -> required s2 = required s1 -> shrinks s2 = shrinks s1 -> quiet s s2.
Proof.
  intros [H1 H2 H3] Hn Hr Hs. split; [|congruence..]. intros n. specialize (H1 n). unfold Replication.node in *. by rewrite Hn.
Qed.

(** The writer moves on. *)
Lemma quiet_writer s s1 n w : quiet s s1 -> (forall ep isr, pending w ep isr -> pending (writer (node s n)) ep isr) ->
  quiet s (setNode n (with_writer w (node s1 n)) s1).
Proof.
  intros [H1 H2 H3] Hw. split; [|done..]. intros m. rewrite node_setNode. case_decide as Hm; [subst|by apply H1]. destruct (H1 n). by split.
Qed.

Lemma quiet_other s s1 n nd : quiet s s1 -> eng nd = eng (node s1 n) -> writer nd = writer (node s1 n) -> quiet s (setNode n nd s1).
Proof.
  intros Hq He Hw. etransitivity; [done|]. apply quiet_set. split; [by rewrite He|by rewrite Hw].
Qed.

Lemma quiet_handle s p x now k : (forall a s', quiet s s' -> quiet s (k a s')) -> quiet s (handle cl Apply fresh p x now k s).
Proof.
  intros Hk. assert (forall n l s', quiet s s' -> quiet s (accept fresh n l s')) as Ha.
  { intros n l s' Hq. pose (nd := node s' n).
    apply (quiet_same s (setNode n (MkNode (eng nd) (writer nd) (taken nd) (installing nd) (list_to_set l ∪ accepted nd) (lost nd)) s')); [by apply quiet_other|done..]. }
  destruct x as [m|ms|c]; cbn [handle]; apply quiet_on; [apply receive_eff| |apply receiveGroup_eff| |apply receiveChunk_eff|].
  - intros a e _ Hq. by apply Hk, Ha.
  - intros a e _ Hq. by apply Hk, Ha.
  - intros [a|b] e _ Hq; [by apply Hk|]. by apply quiet_other.
Qed.

(** The events that do not come from metadata, a registration apart. *)
Lemma exec_quiet ev s : internal ev = true -> (forall n now, ev <> ERegister n now) -> quiet s (exec ev s).
Proof.
  intros Hi Hr. assert (forall A n (m : st (Engine F) perr A), keepsEff m -> quiet s (on fresh n m (fun _ s => s) s)) as Hid by (intros; by apply quiet_on).
  destruct ev; try done; cbn [Replication.exec].
  - destruct (writer (node s n)) as [|ep isr data| |] eqn:Ew; try done. apply quiet_on; [apply keeps_try, applyData_eff|].
    intros a e _ Hq. apply quiet_writer; [done|]. intros ep' isr'. rewrite Ew. by destruct a.
  - by destruct (Hr n now).
  - destruct (writer (node s n)) as [| | |p] eqn:Ew; try done. apply quiet_on; [apply ship_eff|]. intros a e _ Hq. by apply quiet_writer.
  - apply Hid, runSender_eff.
  - unfold deliver. destruct (outbox _ !! i) as [[p x]|]; [|done]. case_decide; [done|]. apply quiet_handle. intros a s' Hq. by eapply quiet_same.
  - destruct (replies s !! i) as [[[[n p] x] a]|]; [|done]. unfold complete. destruct x as [m|[|m ms]|c]; try done; apply Hid; [apply completeSend_eff|apply completeGroup_eff].
  - destruct (outbox _ !! i) as [[p x]|]; [|done]. unfold complete. destruct x as [m|[|m ms]|c]; try done; apply Hid; [apply completeSend_eff|apply completeGroup_eff].
  - unfold await. destruct (recs _ !! id); [|done]. apply quiet_on; [apply await_eff|]. intros [[|]|] e _ Hq; by eapply quiet_same.
  - destruct (position k); [|done]. apply quiet_on; [apply backfill_eff|]. intros [|[]] e _ Hq; by eapply quiet_same.
  - destruct (_ && _); [|done]. apply Hid, flip_eff.
  - apply Hid, abort_eff.
  - apply Hid, teardown_eff.
  - apply Hid, reclaim_eff.
  - destruct (_ && _); [|done]. apply quiet_on; [apply take_eff|]. intros [[b fs] fe] e _ Hq. by apply quiet_other.
  - unfold chunk. destruct (taken _ !! i) as [[[E [fs fe]] blob]|]; [|done]. by destruct (chunkAt _ _ _ _ _).
  - unfold deliverCatchup. destruct (catchup s !! i) as [[[n p] x]|]; [|done]. case_decide; [done|]. by apply quiet_handle.
  - destruct (idle fresh s n); [|done]. unfold install. destruct (installing (node s n)) as [[c b]|]; [|done]. unfold forget.
    apply quiet_other; [|done..]. set (s1 := setNode n _ s). assert (quiet s s1) as H1 by by apply quiet_other.
    etransitivity; [exact H1|]. apply quiet_on; [apply install_eff|]. done.
Qed.

End Quiet.

(** ** What the parts of a proposal say *)

Section Parts.
Context {F : Type} (n : string) (cl : CommitLevel).

Lemma proposeCheck_inv primary isr minISR now (e e' : Engine F) ep : proposeCheck n primary isr minISR now e = (e', Ok (Some ep)) ->
  e' = e /\ leaseEpoch e = ep /\ now < leaseExpiry e /\ minISR <= blen isr.
Proof.
  unfold proposeCheck. rewrite bind_gets. destruct (poisoned e); [done|]. destruct (negb _); [done|]. rewrite !bind_gets.
  destruct (Z.eqb_spec (leaseEpoch e) (epoch e)), (Z.leb_spec (leaseExpiry e) now); cbn [negb orb]; try done.
  destruct (Z.ltb_spec (blen isr) minISR); [done|]. rewrite bind_gets. destruct (windowFullLocked e); [done|]. intros [= <- <-]. done.
Qed.

Lemma bind_Ok_inv {S E A B} (m : st S E A) (k : A -> st S E B) s s' b : (m ≫= k) s = (s', Ok b) -> exists s1 a, m s = (s1, Ok a) /\ k a s1 = (s', Ok b).
Proof. unfold mbind, st_bind. destruct (m s) as [s1 [a|err|]]; [|done..]. eauto. Qed.

Lemma distinct_complete isr : forall seen p, p ∈ isr -> p ∉ seen -> p ∈ distinct seen isr.
Proof.
  induction isr as [|m isr IH]; intros seen p Hp Hs; [by apply elem_of_nil in Hp|]. cbn. apply elem_of_cons in Hp as [->|Hp].
  - rewrite decide_False by done. by left.
  - case_decide; [by apply IH|]. destruct (decide (p = m)) as [->|Hne]; [by left|]. right. apply IH; [done|]. rewrite elem_of_union, elem_of_singleton. tauto.
Qed.

(** The peers a write is registered with. *)
Lemma register_peers ep isr data now (e e' : Engine F) p : proposeRegister n cl ep isr data now e = (e', Ok p) ->
  forall q, q ∈ isr -> q <> n -> q ∈ pPeers p \/ effISREpoch e = ep /\ q ∉ effISR e.
Proof.
  unfold proposeRegister. rewrite !bind_gets. intros H q Hq Hn.
  assert (pPeers p = (if effISREpoch e =? ep then intersectPeers (distinctPeers n isr) (effISR e) else distinctPeers n isr)) as ->.
  { destruct (appliedFrontierLocked e) as [ps pe]. rewrite bind_gets in H.
    apply bind_Ok_inv in H as (? & [? ?] & _ & H). do 5 apply bind_Ok_inv in H as (? & ? & _ & H). by injection H as _ <-. }
  assert (q ∈ distinctPeers n isr) as Hd by (apply distinct_complete; [done|by rewrite elem_of_singleton]).
  destruct (Z.eqb_spec (effISREpoch e) ep) as [->|]; [|by left]. destruct (decide (q ∈ effISR e)); [left|by right].
  unfold intersectPeers. by apply list_elem_of_filter.
Qed.
End Parts.

(** ** The invariant *)

Section Cov.
Context {F : Type} (f0 : F) (cl : CommitLevel).
Context (Apply : F -> bytes -> F * option bytes) (SnapshotFSM : F -> option bytes) (InstallFSM : F -> bytes -> F * bool).
Context (fresh : Engine F).
Context (gobDecode : bytes -> option logBody) (sh : Z) (minISR : Z).

Local Abbreviation replica := (replica gobDecode).
Local Abbreviation primaryAt := (primaryAt gobDecode sh).
Local Abbreviation exec pf := (exec cl Apply SnapshotFSM InstallFSM pf fresh).
Local Abbreviation cexec := (cexec cl Apply SnapshotFSM InstallFSM fresh gobDecode sh minISR).
Local Abbreviation cexecs := (cexecs cl Apply SnapshotFSM InstallFSM fresh gobDecode sh minISR).
Local Abbreviation meta := (meta gobDecode).
Local Abbreviation node := (node fresh).

(** A set in sync the log committed for an epoch; a member that a set an engine was
    told leaves out. *)
Definition committedSet (l : list (Z * bytes)) (ep : Z) (isr : list string) : Prop :=
  exists i, (i <= length l)%nat /\ epochOf (replica l i) sh = ep /\ isrOf (replica l i) sh = isr.
Definition leftOut (t : list (Z * list string)) (ep : Z) (p : string) : Prop := exists isr, (ep, isr) ∈ t /\ p ∉ isr.

(** A set in sync a writer of the epoch can have read. *)
Definition readSet (l : list (Z * bytes)) (ep : Z) (isr : list string) : Prop :=
  exists i, (i <= length l)%nat /\ ep <= epochOf (replica l i) sh /\ isrOf (replica l i) sh = isr /\ minISR <= blen isr.

(** The node is the primary the log names for the epoch. *)
Definition leader (l : list (Z * bytes)) (ep : Z) (n : string) : Prop := n <> noName /\ primaryAt l ep = n.

Record covNode (l : list (Z * bytes)) (t : list (Z * list string)) (v : nat) (n : string) (nd : @Node F) : Prop := {
  cv_lease : leaseExpiry (eng nd) <= 0 \/ 0 < leaseEpoch (eng nd) <= epochOf (replica l v) sh /\ leader l (leaseEpoch (eng nd)) n;
  cv_eff : effISREpoch (eng nd) = 0 \/ (effISREpoch (eng nd), effISR (eng nd)) ∈ t;
  cv_writer : forall ep isr, pending (writer nd) ep isr -> 0 < ep /\ leader l ep n /\ readSet l ep isr;
}.

Record cov (c : @Cluster F) : Prop := {
  c_views : viewsOk c;
  c_nodes : forall n, covNode (log c) (told c) (view (cnode c n)) n (node (sys c) n);
  c_required : forall ep seq ps, required (sys c) !! (ep, seq) = Some ps -> exists n isr, leader (log c) ep n /\ readSet (log c) ep isr /\
    forall p, p ∈ isr -> p <> n -> p ∈ ps \/ leftOut (told c) ep p;
  c_shrinks : forall x, x ∈ shrinks (sys c) -> x ∈ told c;
  c_told : forall ep isr, (ep, isr) ∈ told c -> committedSet (log c) ep isr;
}.

(** *** A longer log *)

Lemma committed_mono l x ep isr : committedSet l ep isr -> committedSet (l ++ x) ep isr.
Proof. intros (i & Hi & H). exists i. rewrite length_app, replica_app by done. split; [lia|done]. Qed.

Lemma readSet_mono l x ep isr : readSet l ep isr -> readSet (l ++ x) ep isr.
Proof. intros (i & Hi & H). exists i. rewrite length_app, replica_app by done. split; [lia|done]. Qed.

Lemma leader_mono l x ep n : leader l ep n -> leader (l ++ x) ep n.
Proof.
  intros [Hn Hp]. split; [done|]. unfold Cluster.primaryAt in Hp at 1. destruct (list_find _ _) as [[k i]|] eqn:E; [|by subst].
  apply list_find_Some in E as (Hk & He & _). apply list_elem_of_lookup_2, elem_of_seq in Hk. rewrite <- He, <- Hp.
  apply primaryAt_prefix; [by eexists|lia].
Qed.

Lemma covNode_mono l t x v n nd : (v <= length l)%nat -> covNode l t v n nd -> covNode (l ++ x) t v n nd.
Proof.
  intros Hv [H1 H2 H3]. split.
  - destruct H1 as [H1|[H1 H1']]; [by left|right]. rewrite replica_app by done. split; [done|by apply leader_mono].
  - done.
  - intros ep isr Hp. destruct (H3 _ _ Hp) as (? & ? & ?). split_and!; [done|by apply leader_mono|by apply readSet_mono].
Qed.

Lemma cov_commit c x : cov c -> cov (MkCluster (sys c) (log c ++ [x]) (cnodes c) (told c)).
Proof.
  intros [H1 H2 H3 H4 H5]. split; cbn.
  - intros n. specialize (H1 n). unfold cnode in *. cbn. rewrite length_app. lia.
  - intros n. apply covNode_mono; [apply (H1 n)|apply H2].
  - intros ep seq ps Hr. destruct (H3 _ _ _ Hr) as (n & isr & A & B & C). exists n, isr. split_and!; [by apply leader_mono|by apply readSet_mono|done].
  - done.
  - intros ep isr Hs. by apply committed_mono, H5.
Qed.

(** *** A later view *)

Lemma cov_view c n x : cov c -> (view (cnode c n) <= view x <= length (log c))%nat -> cov (setCNode n x c).
Proof.
  intros [H1 H2 H3 H4 H5] Hx. split; [apply views_set; [done|lia]| |done..]. intros m. rewrite cnode_set. cbn. case_decide as Hm; [subst m|apply H2].
  destruct (H2 n) as [A B C]. split; [|done..]. destruct A as [A|[A A']]; [by left|right]. split; [|done].
  destruct (replica_leads gobDecode sh (log c) (view (cnode c n)) (view x)) as [Hle _]; [lia|]. lia.
Qed.

Lemma cov_see c n i : cov c -> cov (see n i c).
Proof. intros H. apply cov_view; [done|]. cbn. pose proof (c_views c H n). lia. Qed.

(** *** A quiet step *)

Lemma covNode_quiet l t v n nd nd' : quietNode nd nd' -> covNode l t v n nd -> covNode l t v n nd'.
Proof.
  intros [[Hs [Hl1 Hl2]] Hw] [A B C]. split.
  - by rewrite Hl1, Hl2.
  - destruct Hs as [[-> ->]|Hs]; [done|by left].
  - intros ep isr Hp. by apply C, Hw.
Qed.

Lemma cov_quiet c s' : cov c -> quiet fresh (sys c) s' -> cov (setSys s' c).
Proof.
  intros [H1 H2 H3 H4 H5] [Q1 Q2 Q3]. split; [done| | | |done]; cbn; rewrite ?Q2, ?Q3; [|done..]. intros n. eapply covNode_quiet; [apply Q1|apply H2].
Qed.

(** The step of one node. *)
Lemma cov_node c s' n : cov c -> (forall m, m <> n -> node s' m = node (sys c) m) -> covNode (log c) (told c) (view (cnode c n)) n (node s' n) ->
  required s' = required (sys c) -> (forall x, x ∈ shrinks s' -> x ∈ shrinks (sys c) \/ x ∈ told c) -> cov (setSys s' c).
Proof.
  intros [H1 H2 H3 H4 H5] Hm Hn Hr Hs. split; [done| | | |done]; cbn; rewrite ?Hr; [|done|].
  - intros m. destruct (decide (m = n)) as [->|Hne]; [done|]. rewrite Hm by done. apply H2.
  - intros x Hin. destruct (Hs _ Hin) as [?|Hc]; [by apply H4|done].
Qed.

(** The views a node acts on. *)
Lemma meta_committed (c : @Cluster F) n : viewsOk c -> committedSet (log c) (epochOf (meta c n) sh) (isrOf (meta c n) sh).
Proof. intros Hv. exists (view (cnode c n)). by split; [apply Hv|]. Qed.

Lemma primary_pos l i : primaryOf (replica l i) sh <> noName -> 0 < epochOf (replica l i) sh.
Proof.
  enough (0 <= epochOf (replica l i) sh /\ (primaryOf (replica l i) sh <> noName -> 0 < epochOf (replica l i) sh)) as [_ H] by exact H.
  apply (applyAll_inv gobDecode (fun s => 0 <= epochOf s sh /\ (primaryOf s sh <> noName -> 0 < epochOf s sh))); [|by cbn].
  intros idx e s s' Hc [H1 H2]. pose proof (change_leads sh _ _ _ _ Hc) as [L1 L2].
  split; [lia|]. intros Hp. destruct (decide (epochOf s sh = epochOf s' sh)) as [He|]; [|lia]. rewrite <- He. apply H2. by rewrite (L2 He).
Qed.

Lemma cov_leased c n ttl now : cov c -> n <> noName -> primaryOf (meta c n) sh = n -> let ep := epochOf (meta c n) sh in
  cov (setSys (on fresh n (cur ← gets epoch; if cur <? ep then Promote cl ep (now + ttl) now else GrantLease cl ep (now + ttl) now) (fun _ s => s) (sys c)) c).
Proof.
  intros Hc Hn Hp ep. set (m := _ : st (Engine F) perr unit).
  assert (forall e, leased ep (now + ttl) e (m e).1) as Hm.
  { intros e. unfold m. rewrite bind_gets. destruct (epoch e <? ep); [apply Promote_leased|apply GrantLease_leased]. }
  specialize (Hm (eng (node (sys c) n))). unfold on. destruct (m (eng (node (sys c) n))) as [e o] eqn:E. cbn in Hm.
  assert (cov (setSys (setNode n (with_eng e (node (sys c) n)) (sys c)) c)) as Hok.
  { apply (cov_node c _ n); [done| | |done|by left].
    - intros k Hk. by rewrite node_setNode, decide_False.
    - rewrite node_setNode, decide_True by done. destruct (c_nodes c Hc n) as [A B C], Hm as [Hs Hl]. split; [| |done]; cbn.
      + destruct Hl as [[-> ->]|[-> ->]]; [done|]. right. split; [split; [|done]|].
        * apply primary_pos. change (primaryOf (meta c n) sh <> noName). by rewrite Hp.
        * split; [done|]. unfold ep, Cluster.meta. rewrite primaryAt_view by apply (c_views c Hc n). exact Hp.
      + destruct Hs as [[-> ->]|Hs]; [done|by left]. }
  destruct o as [[]|err|]; [done..|]. by apply (cov_quiet _ _ Hc).
Qed.

Lemma cov_grant c n ttl now : cov c -> n <> noName -> primaryOf (meta c n) sh = n ->
  cov (grant cl Apply SnapshotFSM InstallFSM fresh n (epochOf (meta c n) sh) ttl now c).
Proof.
  intros Hc Hn Hp. unfold grant. cbn [Replication.exec]. rewrite bool_decide_true by done. unfold keep. set (s1 := MkSys _ _ _ _ _ _ _ _ _ _).
  apply (cov_leased (setSys s1 c) n ttl now); [by apply cov_quiet|done|done].
Qed.

(** An operation of one engine, and what it does to the system after. *)
Lemma cov_on {A} c n (m : st (Engine F) perr A) k : cov c ->
  (forall e o, m (eng (node (sys c) n)) = (e, o) -> covNode (log c) (told c) (view (cnode c n)) n (with_eng e (node (sys c) n))) ->
  (forall a e, m (eng (node (sys c) n)) = (e, Ok a) -> cov (setSys (setNode n (with_eng e (node (sys c) n)) (sys c)) c) ->
     cov (setSys (k a (setNode n (with_eng e (node (sys c) n)) (sys c))) c)) ->
  cov (setSys (on fresh n m k (sys c)) c).
Proof.
  intros Hc Hm Hk. unfold on. destruct (m (eng (node (sys c) n))) as [e o] eqn:E.
  assert (cov (setSys (setNode n (with_eng e (node (sys c) n)) (sys c)) c)) as Hok.
  { apply (cov_node c _ n); [done| | |done|by left].
    - intros j Hj. by rewrite node_setNode, decide_False.
    - rewrite node_setNode, decide_True by done. by apply (Hm e o). }
  destruct o as [a|err|]; [by apply Hk|done|]. by apply (cov_quiet _ _ Hc).
Qed.

Lemma cov_check c n primary now data : cov c ->
  cov (run cl Apply SnapshotFSM InstallFSM fresh (ECheck n primary (isrOf (meta c n) sh) minISR now data) c).
Proof.
  intros Hc. unfold run. cbn [Replication.exec]. destruct (idle fresh (sys c) n); [|by apply (cov_quiet _ _ Hc)]. cbn [andb].
  destruct (Z.leb_spec 0 now) as [Hnow|]; [|by apply (cov_quiet _ _ Hc)]. unfold check. apply cov_on; [done| |].
  - intros e o E. eapply covNode_quiet; [|apply (c_nodes c Hc n)]. split; [|done]. cbn. pose proof (proposeCheck_eff n primary (isrOf (meta c n) sh) minISR now (eng (node (sys c) n))) as H.
    by rewrite E in H.
  - intros [ep|] e E Hok; [|done]. apply proposeCheck_inv in E as (-> & Hl & Hex & Hmin).
    apply (cov_node (setSys (setNode n (with_eng (eng (node (sys c) n)) (node (sys c) n)) (sys c)) c) _ n Hok); cbn [sys setSys]; [|  |done|by left].
    + intros j Hj. by rewrite node_setNode, decide_False.
    + rewrite node_setNode, decide_True, node_setNode, decide_True by done. destruct (c_nodes c Hc n) as [A B C]. split; [done..|].
      cbn. intros ep' isr' [<- <-]. destruct A as [A|[A A']]; [lia|]. rewrite Hl in *. split_and!; [lia|done|].
      exists (view (cnode c n)). split_and!; [apply (c_views c Hc n)|lia|done|done].
Qed.

(** A set of the log is handed to an engine. *)
Lemma cov_tell c ep isr : cov c -> committedSet (log c) ep isr -> cov (tell ep isr c).
Proof.
  intros [H1 H2 H3 H4 H5] Hs. split; [done| | | |]; cbn.
  - intros n. destruct (H2 n) as [A B C]. split; [done| |done]. destruct B; [by left|right]. apply elem_of_app. by left.
  - intros ep' seq ps Hr. destruct (H3 _ _ _ Hr) as (n & isr' & A & B & C). exists n, isr'. split_and!; [done..|].
    intros p Hp Hn. destruct (C p Hp Hn) as [|(isr1 & Ht & Hout)]; [by left|right]. exists isr1. split; [apply elem_of_app; by left|done].
  - intros x Hx. apply elem_of_app. left. by apply H4.
  - intros ep' isr' [Hin|Hin]%elem_of_app; [by apply H5|]. apply list_elem_of_singleton in Hin. by simplify_eq.
Qed.

Lemma cov_shrink c n ep isr now : cov c -> (ep, isr) ∈ told c -> cov (run cl Apply SnapshotFSM InstallFSM fresh (EShrink n ep isr now) c).
Proof.
  intros Hc Ht. unfold run. cbn [Replication.exec]. unfold shrink. apply cov_on; [done| |].
  - intros e o E. pose proof (shrink_eff cl ep isr now (eng (node (sys c) n))) as [[H1 H2] H]. rewrite E in *. cbn in *.
    destruct (c_nodes c Hc n) as [A B C]. split; cbn; [by rewrite H1, H2| |done].
    destruct H as [[[-> ->]|H]|[-> ->]]; [done|by left|by right].
  - intros [] e E [H1 H2 H3 H4 H5]. split; [done..| |done]. cbn. intros x [Hin|Hin]%elem_of_app; [by apply H4|].
    by apply list_elem_of_singleton in Hin as ->.
Qed.

Lemma cov_grow c n ep isr : cov c -> (ep, isr) ∈ told c -> cov (run cl Apply SnapshotFSM InstallFSM fresh (EGrow n ep isr) c).
Proof.
  intros Hc Hs. unfold run. cbn [Replication.exec]. apply cov_on; [done| |done].
  intros e o E. pose proof (grow_eff ep isr (eng (node (sys c) n))) as [[H1 H2] H]. rewrite E in *. cbn in *.
  destruct (c_nodes c Hc n) as [A B C]. split; cbn; [by rewrite H1, H2| |done].
  destruct H as [[[-> ->]|H]|[-> ->]]; [done|by left|by right].
Qed.

(** The peers a write requires. *)
Definition requiredOk (l : list (Z * bytes)) (t : list (Z * list string)) (ep : Z) (ps : list string) : Prop :=
  exists n isr, leader l ep n /\ readSet l ep isr /\ forall p, p ∈ isr -> p <> n -> p ∈ ps \/ leftOut t ep p.

Lemma cov_required c s' k ps : cov c -> nodes s' = nodes (sys c) -> shrinks s' = shrinks (sys c) ->
  required s' = <[k := ps]> (required (sys c)) -> requiredOk (log c) (told c) k.1 ps -> cov (setSys s' c).
Proof.
  intros [H1 H2 H3 H4 H5] Hn Hs Hr Hk. split; [done| | | |done]; cbn; [|rewrite Hr|by rewrite Hs].
  - intros n. unfold Replication.node. rewrite Hn. apply H2.
  - intros ep seq ps' Hl. destruct (decide (k = (ep, seq))) as [->|Hne]; [rewrite lookup_insert_eq in Hl; by simplify_eq|].
    rewrite lookup_insert_ne in Hl by done. by apply (H3 ep seq).
Qed.

Lemma cov_register c n now : cov c -> cov (run cl Apply SnapshotFSM InstallFSM fresh (ERegister n now) c).
Proof.
  intros Hc. unfold run. cbn [Replication.exec]. destruct (writer (node (sys c) n)) as [| |ep isr data|] eqn:Ew; try by apply (cov_quiet _ _ Hc).
  destruct (_ <? _); [|by apply (cov_quiet _ _ Hc)]. unfold register. destruct (c_nodes c Hc n) as [A B C]. apply cov_on; [done| |].
  - intros e o E. eapply covNode_quiet; [|by split]. split; [|done]. cbn. pose proof (register_eff n cl ep isr data now (eng (node (sys c) n))) as H. by rewrite E in H.
  - intros p e E Hok. destruct (C ep isr) as (Hep & Hlead & Hread); [by rewrite Ew|].
    set (c1 := setSys _ c) in Hok. set (s1 := setNode n _ (sys c)). set (s2 := setNode n (with_writer (Shipping p) (node s1 n)) s1).
    assert (cov (setSys s2 c1)) as Hc2.
    { apply (cov_quiet _ _ Hok). by apply quiet_writer. }
    apply (cov_required (setSys s2 c1) _ (ep, pSeq p) (pPeers p) Hc2); [done..|].
    exists n, isr. split_and!; [done..|]. intros q Hq Hne. destruct (register_peers n cl ep isr data now _ _ _ E q Hq Hne) as [|[He Hn]]; [by left|right].
    destruct B as [B|B]; [lia|]. rewrite He in B. by exists (effISR (eng (node (sys c) n))).
Qed.

Lemma cov_cexec ev c : cov c -> cov (cexec ev c).
Proof.
  intros Hc. assert (forall n b, cov c -> cov (setBaseline n b c)) as Hb. { intros n b _. apply cov_view; [done|]. split; [done|apply (c_views c Hc n)]. }
  destruct ev as [idx data|n i|n connected confirmed ttl now|n i now data|n now|n|ev]; cbn [Cluster.cexec].
  - by apply cov_commit.
  - by apply cov_see.
  - case_bool_decide as Hn; [done|]. unfold keeper. destruct connected; [|done]. cbn [negb]. case_bool_decide as Hp; [|done]. cbn [negb].
    destruct (_ =? _); [by apply cov_grant|]. destruct confirmed; [|done]. cbn [negb]. set (c1 := see n (length (log c)) c). assert (cov c1) as H1 by by apply cov_see.
    case_bool_decide as Hp1; [|done]. cbn [negb]. set (c2 := setCNode n _ c1).
    assert (cov c2) as H2. { apply cov_view; [done|]. split; [done|apply (c_views c1 H1 n)]. }
    assert (meta c2 n = meta c1 n) as Hm. { unfold c2, Cluster.meta. by rewrite cnode_set, decide_True. }
    rewrite <- Hm. apply cov_grant; [done..|]. by rewrite Hm.
  - unfold propose. by apply cov_check, cov_see.
  - unfold shrinkTick. destruct (negb _); [by apply Hb|]. destruct (negb _); [done|]. destruct (Drivers.shrinkReconcile _ _ _ _); [by apply Hb| |done].
    apply cov_view; [|split; [done|apply (c_views c Hc n)]]. apply cov_shrink; [|apply elem_of_app; right; by apply list_elem_of_singleton].
    apply cov_tell; [done|]. by apply meta_committed, c_views.
  - unfold growTick. destruct (negb _); [apply (cov_quiet _ _ Hc), exec_quiet; done|].
    set (c1 := run _ _ _ _ _ _ c). assert (cov c1) as H1 by (apply (cov_quiet _ _ Hc), exec_quiet; done). destruct (negb _); [done|].
    destruct (Drivers.growReconcile _ _ _ _); [| |done].
    + apply cov_view; [done|]. split; [done|apply (c_views c Hc n)].
    + apply cov_view; [|split; [done|apply (c_views c Hc n)]]. apply cov_grow; [|apply elem_of_app; right; by apply list_elem_of_singleton].
      apply cov_tell; [done|]. by apply (meta_committed c n), c_views.
  - destruct (internal ev) eqn:Ei; [|done]. assert ((exists n now, ev = ERegister n now) \/ forall n now, ev <> ERegister n now) as [(n & now & ->)|Hne].
    { destruct ev; try (right; done). left. by eexists _, _. }
    + by apply cov_register.
    + by apply (cov_quiet _ _ Hc), exec_quiet.
Qed.

Lemma cov_run evs cap : NewWithRingCapacity cap (0, 0) false f0 = Ok fresh -> cov (cexecs evs cinit).
Proof.
  intros Hf. assert (leaseExpiry fresh = 0 /\ effISREpoch fresh = 0) as [Hl He].
  { unfold NewWithRingCapacity in Hf. destruct (_ <? _); [done|]. cbn in Hf. by injection Hf as <-. }
  unfold Cluster.cexecs. induction evs as [|ev evs IH] using rev_ind; [|rewrite foldl_app; by apply cov_cexec].
  split.
  - intros n. unfold cnode. cbn. rewrite lookup_empty. cbn. lia.
  - intros n. unfold Replication.node. cbn. rewrite lookup_empty. split; cbn; [left; lia|by left|done].
  - intros ep seq ps. cbn. by rewrite lookup_empty.
  - intros x Hin. by apply elem_of_nil in Hin.
  - intros ep isr Hin. by apply elem_of_nil in Hin.
Qed.

End Cov.
