(* ===== verification/ClusterMain.v ===== *)
(** * Clusters: the guarantees of replication under the metadata that governs it. *)
From stdpp Require Import strings gmap sets.
From S2P Require Import Prelude Ring Engine EngineInv EngineOps Replication ReplInv ReplSteps ReplProps.
From S2P Require Import MetaState MetaFSM MetaProps Failover Drivers Cluster ClusterProps ClusterInv.
Import Engine Replication.
Import MetaState MetaFSM Cluster.

Section Main.
Context {F : Type} (f0 : F) (cl : CommitLevel).
Context (Apply : F -> bytes -> F * option bytes) (SnapshotFSM : F -> option bytes) (InstallFSM : F -> bytes -> F * bool).
Context (cap : Z) (fresh : Engine F).
Context (gobDecode : bytes -> option logBody) (sh : Z) (minISR : Z).

Local Abbreviation replica := (replica gobDecode).
Local Abbreviation primaryAt := (primaryAt gobDecode sh).
Local Abbreviation node := (node fresh).
Local Abbreviation nodeLog := (nodeLog fresh).
Local Abbreviation crun evs := (cexecs cl Apply SnapshotFSM InstallFSM fresh gobDecode sh minISR evs cinit).
Local Abbreviation setting := (setting f0 Apply SnapshotFSM InstallFSM cap fresh).
Local Abbreviation execs pf := (execs cl Apply SnapshotFSM InstallFSM pf fresh).




End Main.
