(* ===== verification/ClusterRuns.v ===== *)
(** * Runs of a cluster: witnesses, and what failover may lose. *)
From stdpp Require Import strings gmap sets.
From S2P Require Import Prelude Ring Engine EngineInv EngineOps Replication ReplInv ReplSteps ReplProps.
From S2P Require Import MetaState MetaFSM MetaProps MetaRuns Failover Drivers Cluster ClusterProps ClusterInv ClusterMain.
Import Engine Replication ReplicationRuns.
Import MetaState MetaFSM Cluster.

Module ClusterRuns.

Definition nc : string := "c".
Definition nd : string := "d".

(** The bodies the entries below refer to by their place. *)
Definition bodies : list logBody :=
  [Body (setMembersEntry [MkPeer na na na na; MkPeer nb nb nb nb; MkPeer nc nc nc nc; MkPeer nd nd nd nd] 1 4 2);
   MetaRuns.body (ApplySetShardSeed true 0 1 nd [nd; nc; nb; na]);
   MetaRuns.body (ApplySetShardEpoch true 0 2 nb);
   MetaRuns.body (ApplySetShardISR true 0 2 [nb; nc]);
   MetaRuns.body (ApplySetShardISR true 0 2 [nb; nc; na]);
   MetaRuns.body (ApplySetShardSeed true 0 1 na [na; nb; nc]);
   MetaRuns.body (ApplySetShardISR true 0 1 [na; nb]);
   MetaRuns.body (ApplySetShardISR true 0 1 [na; nb; nc]);
   MetaRuns.body (ApplySetShardISR true 0 1 [na; nc])].
Definition gob : bytes -> option logBody := MetaRuns.tableGob bodies.

Abbreviation crun evs := (cexecs CommitFullISR apply snap restore engine0 gob 0 2 evs cinit).

(** [nd] is the primary of epoch 1; its write to [na] is delayed. [nb] becomes the
    primary of epoch 2, takes [nc] back, then [na], and has not seen the last set. *)
Definition takeover : list cevent :=
  [CCommit 1 (MetaRuns.entry OpSetMembers 0); CCommit 2 (MetaRuns.entry OpSetShardEpoch 1); CSee nd 2;
   CKeep nd true true 1000 0; CPropose nd 2 1 [Byte.x64]; CRun (EApply nd); CRun (ERegister nd 1); CRun (EShip nd (fun _ => true) 1);
   CCommit 3 (MetaRuns.entry OpSetShardEpoch 2); CSee nb 3; CKeep nb true true 1000 2000; CGrow nb; CRun (EFlip nb nc 2 0 2001);
   CCommit 4 (MetaRuns.entry OpSetShardISR 3); CSee nb 4; CGrow nb; CRun (EFlip nb na 2 0 2002);
   CCommit 5 (MetaRuns.entry OpSetShardISR 4)].

(** The delayed write reaches [na]; [nb] writes, and [nc] accepts. *)
Definition tie : list cevent :=
  takeover ++
  [CRun (EDeliver nd 2 2003);
   CPropose nb 4 2004 [Byte.x62]; CRun (EApply nb); CRun (ERegister nb 2004); CRun (EShip nb (fun _ => true) 2004); CRun (ESender nb na false 1);
   CRun (EDeliver nb 0 2005); CRun (EDeliver nb 1 2005); CRun (EReply 1 2006); CRun (EAwait nb 0 false)].

(** The answers of the candidates [na] and [nc] to [nd]. *)
Definition ask (c : @Cluster bytes) : Failover.resolver :=
  Drivers.pbCandidateHighWater nd (fun _ => Some (eng (node engine0 (sys c) nd)))
    (Some (fun _ n => if bool_decide (n = nb) then None else Some (CatchupInfo (eng (node engine0 (sys c) n))))).

(** Failover can lose an acknowledged write, with a floor of two and one dead node.
    [na] was found to hold a prefix of [nb]'s history and is back in the committed
    set, but is still in an older epoch, and accepts a delayed write of the primary of
    that epoch; [nb], which has not seen the set with [na] yet, acknowledges a write that
    [nc] accepted. Now [nb] is silent for longer than the timeout. [na] and [nc] answer
    with the same number of writes, and the tie is broken by name: [na] is promoted,
    which has never had the acknowledged write. *)
Lemma tie_loses_acked_write :
  let c := crun tie in
  acked (sys c) = [(2, 1)] /\
  nodeLog engine0 (sys c) nc = Some [(2, 1, [Byte.x62])] /\ nodeLog engine0 (sys c) na = Some [(1, 1, [Byte.x64])] /\
  Failover.pbFailoverDecisions (replica gob (log c) 5) (Failover.observeRenew 2000 0 2 Failover.newPBFailoverTracker) 12001 12001 10000 (Some (ask c)) =
    [Failover.MkPromotion 0 3 na].
Proof. vm_compute. split_and!; reflexivity. Qed.

(** [nc] left the set of [na] and is back; before the drivers have handed the wider
    set to the engine, [nb] has failed to answer fifty writes. *)
Definition widened : list cevent :=
  [CCommit 1 (MetaRuns.entry OpSetMembers 0); CCommit 2 (MetaRuns.entry OpSetShardEpoch 5); CSee na 2; CKeep na true true 1000 0; CShrink na 0;
   CCommit 3 (MetaRuns.entry OpSetShardISR 6); CSee na 3; CShrink na 1; CRun (EFlip na nc 1 0 2); CCommit 4 (MetaRuns.entry OpSetShardISR 7);
   CSee na 4] ++
  flat_map (fun i => [CPropose na 4 3 [Byte.x61]; CRun (EApply na); CRun (ERegister na 3); CRun (EShip na (fun _ => true) 3); CRun (EFail na i 4)]) (seq 0 50) ++
  [CShrink na 7].

(** [nb] is removed too, and the drivers tick; [na] writes again. *)
Definition crossed : list cevent :=
  widened ++
  [CCommit 5 (MetaRuns.entry OpSetShardISR 8); CSee na 5; CGrow na; CShrink na 8; CGrow na; CShrink na 9;
   CPropose na 5 12 [Byte.x62]; CRun (EApply na); CRun (ERegister na 12); CRun (EShip na (fun _ => true) 12); CRun (EAwait na 50 false)].

(** A write can be acknowledged that only the primary has, with a floor of two and a
    committed set of two. The set went from [na], [nb] to [na], [nc] in two steps between
    two ticks of the grow driver, the second one what the shrink driver decides on. It
    is neither narrower nor wider than the set the engine was last told, so no driver
    hands it to the engine, and the next write is required on the members the two sets
    share: none but [na]. When [na] dies, [nc] is promoted, which has no write. *)
Lemma crossed_sets_ack_alone :
  let c := crun crossed in
  Drivers.decidePBShrink 0 1 na (isrOf (meta gob (crun widened) na) 0) (elements (StalledPeers 50 (eng (node engine0 (sys (crun widened)) na)))) 2 =
    Some (Drivers.MkShrink 0 1 [na; nc]) /\
  isrOf (meta gob c na) 0 = [na; nc] /\ told c = [(1, [na; nb])] /\
  acked (sys c) = [(1, 51)] /\ required (sys c) !! (1, 51) = Some [] /\
  nodeLog engine0 (sys c) nb = Some [] /\ nodeLog engine0 (sys c) nc = Some [] /\
  Failover.pbFailoverDecisions (replica gob (log c) 5) (Failover.observeRenew 12 0 1 Failover.newPBFailoverTracker) 10013 10013 10000
    (Some (Drivers.pbCandidateHighWater nd (fun _ => @None (Engine bytes)) (Some (fun _ n => if bool_decide (n = na) then None else Some (CatchupInfo (eng (node engine0 (sys c) n))))))) =
    [Failover.MkPromotion 0 2 nc].
Proof. vm_compute. split_and!; reflexivity. Qed.



End ClusterRuns.
