(* ===== verification/KVWire.v ===== *)
(** * Arguments and results of the key-value operations (src/sdk/wire/builtin.go,
    batch.go).

    A duration is a number of nanoseconds, an [int64]. *)
From S2P Require Import Prelude Wire.

Module KVWire.

Inductive werr := ErrShortArgs | ErrTTLOutOfRange.

#[export] Instance werr_eq_dec : EqDecision werr.
Proof. solve_decision. Defined.

Definition millisecond : Z := 1000000.
Definition maxTTLMs : Z := Z.quot (2 ^ 63 - 1) millisecond.

(** [time.Duration(ms) * time.Millisecond] and [uint64(ttl / time.Millisecond)]. *)
Definition fromMs (ms : Z) : Z := toInt (toInt ms * millisecond).
Definition toMs (ttl : Z) : Z := u64 (Z.quot ttl millisecond).

Definition ttlFromMs (ms : Z) : outcome werr Z := if maxTTLMs <? ms then Err ErrTTLOutOfRange else Ok (fromMs ms).

Definition StdKeyExtractor (args : bytes) : option bytes :=
  if blen args <? 2 then None else
  match beAt (E:=werr) 2 args 0 with
  | Ok n => if blen args <? 2 + n then None else match slice (E:=werr) args 2 (2 + n) with Ok k => Some k | _ => None end
  | _ => None
  end.

(** ** Keys *)

Definition EncodeKeyArgs (key : bytes) : bytes := be_put 2 (blen key) ++ key.

Definition DecodeKeyArgs (args : bytes) : outcome werr bytes :=
  if blen args <? 2 then Err ErrShortArgs else
  klen ← beAt 2 args 0;
  if blen args <? 2 + klen then Err ErrShortArgs else
  slice args 2 (2 + klen).

(** ** Put *)

Definition EncodePutArgs (key val : bytes) (ttl : Z) : bytes :=
  be_put 2 (blen key) ++ key ++ be_put 4 (blen val) ++ val ++ be_put 8 (toMs ttl).

Definition DecodePutArgs (args : bytes) : outcome werr (bytes * bytes * Z) :=
  if blen args <? 2 then Err ErrShortArgs else
  klen ← beAt 2 args 0;
  if blen args <? 2 + klen + 4 then Err ErrShortArgs else
  key ← slice args 2 (2 + klen);
  let off := 2 + klen in
  vlen ← beAt 4 args off;
  let off := off + 4 in
  if (vlen <? 0) || (blen args - off <? vlen) then Err ErrShortArgs else
  val ← slice args off (off + vlen);
  let off := off + vlen in
  if blen args - off <? 8 then Err ErrShortArgs else
  ms ← beAt 8 args off;
  Ok (key, val, fromMs ms).

(** ** Expire *)

Definition EncodeExpireArgs (key : bytes) (ttl : Z) : bytes := be_put 2 (blen key) ++ key ++ be_put 8 (toMs ttl).

Definition DecodeExpireArgs (args : bytes) : outcome werr (bytes * Z) :=
  if blen args <? 2 then Err ErrShortArgs else
  klen ← beAt 2 args 0;
  if blen args <? 2 + klen + 8 then Err ErrShortArgs else
  key ← slice args 2 (2 + klen);
  ms ← beAt 8 args (2 + klen);
  Ok (key, fromMs ms).

(** ** Incr *)

Definition EncodeIncrArgs (key : bytes) (delta : Z) : bytes := be_put 2 (blen key) ++ key ++ be_put 8 (u64 delta).

Definition DecodeIncrArgs (args : bytes) : outcome werr (bytes * Z) :=
  if blen args <? 2 then Err ErrShortArgs else
  klen ← beAt 2 args 0;
  if blen args <? 2 + klen + 8 then Err ErrShortArgs else
  key ← slice args 2 (2 + klen);
  d ← beAt 8 args (2 + klen);
  Ok (key, toInt d).

Definition EncodeIncrResult (v : Z) : bytes := be_put 8 (u64 v).

Definition DecodeIncrResult (b : bytes) : outcome werr Z :=
  if negb (blen b =? 8) then Err ErrShortArgs else
  v ← be_get 8 b;
  Ok (toInt v).

(** ** Compare and swap *)

Definition EncodeSetNXArgs : bytes -> bytes -> Z -> bytes := EncodePutArgs.

Definition EncodeCASArgs (key val : bytes) (hasExpected : bool) (expected : bytes) (ttl : Z) : bytes :=
  let expected := if hasExpected then expected else [] in
  be_put 2 (blen key) ++ key ++ be_put 4 (blen val) ++ val ++ [if hasExpected then Byte.x01 else Byte.x00] ++
  be_put 4 (blen expected) ++ expected ++ be_put 8 (toMs ttl).

Definition DecodeCASArgs (args : bytes) : outcome werr (bytes * bytes * bool * bytes * Z) :=
  if blen args <? 2 then Err ErrShortArgs else
  klen ← beAt 2 args 0;
  let off := 2 in
  if blen args - off <? klen + 4 then Err ErrShortArgs else
  key ← slice args off (off + klen);
  let off := off + klen in
  vlen ← beAt 4 args off;
  let off := off + 4 in
  if (vlen <? 0) || (blen args - off <? vlen) then Err ErrShortArgs else
  val ← slice args off (off + vlen);
  let off := off + vlen in
  if blen args - off <? 1 + 4 then Err ErrShortArgs else
  has ← byte_at args off;
  let hasExpected := negb (has =? 0) in
  let off := off + 1 in
  elen ← beAt 4 args off;
  let off := off + 4 in
  if (elen <? 0) || (blen args - off <? elen) then Err ErrShortArgs else
  expected ← slice args off (off + elen);
  let off := off + elen in
  if blen args - off <? 8 then Err ErrShortArgs else
  ms ← beAt 8 args off;
  Ok (key, val, hasExpected, if hasExpected then expected else [], fromMs ms).

Definition EncodeCADArgs (key expected : bytes) : bytes := be_put 2 (blen key) ++ key ++ be_put 4 (blen expected) ++ expected.

Definition DecodeCADArgs (args : bytes) : outcome werr (bytes * bytes) :=
  if blen args <? 2 then Err ErrShortArgs else
  klen ← beAt 2 args 0;
  let off := 2 in
  if blen args - off <? klen + 4 then Err ErrShortArgs else
  key ← slice args off (off + klen);
  let off := off + klen in
  elen ← beAt 4 args off;
  let off := off + 4 in
  if (elen <? 0) || (blen args - off <? elen) then Err ErrShortArgs else
  expected ← slice args off (off + elen);
  Ok (key, expected).

Definition DecodeCASResult (b : bytes) : outcome werr bool :=
  if negb (blen b =? 1) then Err ErrShortArgs else
  x ← byte_at b 0;
  Ok (negb (x =? 0)).

(** ** Results with a value *)

Definition EncodeGetDelResult (val : bytes) (found : bool) : bytes :=
  if negb found then [Byte.x00] else [Byte.x01] ++ be_put 4 (blen val) ++ val.

(** [None]: not found. *)
Definition DecodeGetDelResult (b : bytes) : outcome werr (option bytes) :=
  if blen b <? 1 then Err ErrShortArgs else
  f ← byte_at b 0;
  if f =? 0 then Ok None else
  let off := 1 in
  if blen b - off <? 4 then Err ErrShortArgs else
  vlen ← beAt 4 b off;
  let off := off + 4 in
  if (vlen <? 0) || (blen b - off <? vlen) then Err ErrShortArgs else
  v ← slice b off (off + vlen);
  Ok (Some v).

Definition EncodeTTLResult (ms : Z) : bytes := be_put 8 (u64 ms).

Definition DecodeTTLResult (b : bytes) : outcome werr Z :=
  if negb (blen b =? 8) then Err ErrShortArgs else
  v ← be_get 8 b;
  Ok (toInt v).

(** ** Incr with expiry, compare and expire *)

Definition EncodeIncrExArgs (key : bytes) (delta ttl : Z) : bytes :=
  be_put 2 (blen key) ++ key ++ be_put 8 (u64 delta) ++ be_put 8 (toMs ttl).

Definition DecodeIncrExArgs (args : bytes) : outcome werr (bytes * Z * Z) :=
  if blen args <? 2 then Err ErrShortArgs else
  klen ← beAt 2 args 0;
  let off := 2 in
  if blen args - off <? klen + 8 + 8 then Err ErrShortArgs else
  key ← slice args off (off + klen);
  let off := off + klen in
  d ← beAt 8 args off;
  let off := off + 8 in
  ms ← beAt 8 args off;
  ttl ← ttlFromMs ms;
  Ok (key, toInt d, ttl).

Definition EncodeCAEXArgs (key expected : bytes) (ttl : Z) : bytes :=
  be_put 2 (blen key) ++ key ++ be_put 4 (blen expected) ++ expected ++ be_put 8 (toMs ttl).

Definition DecodeCAEXArgs (args : bytes) : outcome werr (bytes * bytes * Z) :=
  if blen args <? 2 then Err ErrShortArgs else
  klen ← beAt 2 args 0;
  let off := 2 in
  if blen args - off <? klen + 4 then Err ErrShortArgs else
  key ← slice args off (off + klen);
  let off := off + klen in
  elen ← beAt 4 args off;
  let off := off + 4 in
  if (elen <? 0) || (blen args - off <? elen) then Err ErrShortArgs else
  expected ← slice args off (off + elen);
  let off := off + elen in
  if blen args - off <? 8 then Err ErrShortArgs else
  ms ← beAt 8 args off;
  ttl ← ttlFromMs ms;
  Ok (key, expected, ttl).

(** ** Batches *)

Definition EncodeMGetArgs (keys : list bytes) : bytes :=
  be_put 2 (blen keys) ++ concat ((fun k : bytes => be_put 2 (blen k) ++ k) <$> keys).

Fixpoint decodeKeys (args : bytes) (off : Z) (n : nat) (keys : list bytes) : outcome werr (list bytes) :=
  match n with
  | O => Ok keys
  | S n =>
      if blen args - off <? 2 then Err ErrShortArgs else
      kl ← beAt 2 args off;
      let off := off + 2 in
      if blen args - off <? kl then Err ErrShortArgs else
      k ← slice args off (off + kl);
      decodeKeys args (off + kl) n (keys ++ [k])
  end.

Definition DecodeMGetArgs (args : bytes) : outcome werr (list bytes) :=
  if blen args <? 2 then Err ErrShortArgs else
  n ← beAt 2 args 0;
  if negb (CountFitsIn n (blen args - 2) 2) then Err ErrShortArgs else
  decodeKeys args 2 (Z.to_nat n) [].

(** A missing key is [None]. *)
Definition EncodeMGetResult (vals : list (option bytes)) : bytes :=
  be_put 2 (blen vals) ++
  concat ((fun v : option bytes => match v with None => [Byte.x00] | Some v => [Byte.x01] ++ be_put 4 (blen v) ++ v end) <$> vals).

Fixpoint decodeValues (b : bytes) (off : Z) (n : nat) (out : list (option bytes)) : outcome werr (list (option bytes)) :=
  match n with
  | O => Ok out
  | S n =>
      if blen b - off <? 1 then Err ErrShortArgs else
      f ← byte_at b off;
      let off := off + 1 in
      if f =? 0 then decodeValues b off n (out ++ [None]) else
      if blen b - off <? 4 then Err ErrShortArgs else
      vlen ← beAt 4 b off;
      let off := off + 4 in
      if (vlen <? 0) || (blen b - off <? vlen) then Err ErrShortArgs else
      v ← slice b off (off + vlen);
      decodeValues b (off + vlen) n (out ++ [Some v])
  end.

Definition DecodeMGetResult (b : bytes) : outcome werr (list (option bytes)) :=
  if blen b <? 2 then Err ErrShortArgs else
  n ← beAt 2 b 0;
  if negb (CountFitsIn n (blen b - 2) 1) then Err ErrShortArgs else
  decodeValues b 2 (Z.to_nat n) [].

Record PutEntry := MkPut { pKey : bytes; pVal : bytes; pTTL : Z }.
Definition minPutEntrySize : Z := 2 + 4 + 8.

Definition EncodePutBatchArgs (entries : list PutEntry) : bytes :=
  be_put 4 (blen entries) ++ concat ((fun e => EncodePutArgs (pKey e) (pVal e) (pTTL e)) <$> entries).

(** The entry at the front, and how many bytes it takes. *)
Definition decodeOnePut (buf : bytes) : outcome werr (PutEntry * Z) :=
  if blen buf <? 2 then Err ErrShortArgs else
  klen ← beAt 2 buf 0;
  let off := 2 in
  if blen buf <? off + klen + 4 then Err ErrShortArgs else
  key ← slice buf off (off + klen);
  let off := off + klen in
  vlen ← beAt 4 buf off;
  let off := off + 4 in
  if vlen <? 0 then Err ErrShortArgs else
  if blen buf <? off + vlen + 8 then Err ErrShortArgs else
  val ← slice buf off (off + vlen);
  let off := off + vlen in
  ms ← beAt 8 buf off;
  Ok (MkPut key val (fromMs ms), off + 8).

Fixpoint decodePuts (args : bytes) (off : Z) (n : nat) (entries : list PutEntry) : outcome werr (list PutEntry) :=
  match n with
  | O => Ok entries
  | S n =>
      rest ← slice_from args off;
      '(e, consumed) ← decodeOnePut rest;
      decodePuts args (off + consumed) n (entries ++ [e])
  end.

Definition DecodePutBatchArgs (args : bytes) : outcome werr (list PutEntry) :=
  if blen args <? 4 then Err ErrShortArgs else
  n ← beAt 4 args 0;
  if negb (CountFitsIn n (blen args - 4) minPutEntrySize) then Err ErrShortArgs else
  decodePuts args 4 (Z.to_nat n) [].

Definition EncodePutBatchResult (n : Z) : bytes := be_put 4 n.
Definition DecodePutBatchResult (b : bytes) : outcome werr Z := if blen b <? 4 then Err ErrShortArgs else beAt 4 b 0.

(** Batches are routed by their first key. *)
Definition mgetKeyExtractor (args : bytes) : option bytes :=
  if blen args <? 2 then None else match slice_from (E:=werr) args 2 with Ok r => StdKeyExtractor r | _ => None end.
Definition putBatchKeyExtractor (args : bytes) : option bytes :=
  if blen args <? 4 then None else match slice_from (E:=werr) args 4 with Ok r => StdKeyExtractor r | _ => None end.

End KVWire.
