(* ===== verification/KVWireProps.v ===== *)
(** * The frames of the key-value operations decode to what was encoded. *)
From S2P Require Import Prelude Wire KVWire.
Import KVWire.

(** Keys and values a frame can hold, and the durations: what is left of one after the
    wire is its whole milliseconds. *)
Definition keyFits (k : bytes) : Prop := blen k < 2 ^ 16.
Definition valFits (v : bytes) : Prop := blen v < 2 ^ 32.
Definition duration (ttl : Z) : Prop := 0 <= ttl < 2 ^ 63.
Definition int64 (x : Z) : Prop := - 2 ^ 63 <= x < 2 ^ 63.
Definition wholeMs (ttl : Z) : Z := ttl / millisecond * millisecond.

Lemma toMs_fits ttl : fits (8 * Z.of_nat 8) (toMs ttl).
Proof. apply (fits_wrap 64). lia. Qed.

Lemma u64_fits x : fits (8 * Z.of_nat 8) (u64 x).
Proof. apply (fits_wrap 64). lia. Qed.

Lemma toMs_eq ttl : duration ttl -> toMs ttl = ttl / millisecond /\ 0 <= ttl / millisecond <= maxTTLMs.
Proof.
  unfold duration, toMs, maxTTLMs, millisecond. intros H. rewrite Z.quot_div_nonneg by lia.
  change (Z.quot (2 ^ 63 - 1) 1000000) with ((2 ^ 63 - 1) / 1000000).
  assert (ttl / 1000000 <= (2 ^ 63 - 1) / 1000000) by (apply Z.div_le_mono; lia). assert (0 <= ttl / 1000000) by (apply Z.div_pos; lia).
  split; [|done]. apply wrap_fits. split; [done|]. eapply Z.le_lt_trans; [done|reflexivity].
Qed.

Lemma fromMs_small ms : 0 <= ms <= maxTTLMs -> fromMs ms = ms * millisecond.
Proof.
  change maxTTLMs with 9223372036854 in *. unfold fromMs, millisecond. intros H. rewrite (toInt_id ms) by lia. apply toInt_id. lia.
Qed.

Lemma fromMs_toMs ttl : duration ttl -> fromMs (toMs ttl) = wholeMs ttl.
Proof. intros H. destruct (toMs_eq ttl H) as [-> Hr]. by apply fromMs_small. Qed.

Lemma ttlFromMs_toMs ttl : duration ttl -> ttlFromMs (toMs ttl) = Ok (wholeMs ttl).
Proof.
  intros H. unfold ttlFromMs. destruct (toMs_eq ttl H) as [-> Hr]. rewrite (proj2 (Z.ltb_ge _ _)) by lia. f_equal. by apply fromMs_small.
Qed.

Lemma toInt_int64 x : int64 x -> toInt (u64 x) = x.
Proof. intros H. rewrite toInt_u64. by apply toInt_id. Qed.

#[local] Hint Resolve toMs_fits u64_fits : core.

Ltac sizes := unfold keyFits, valFits in *; repeat match goal with
  | H : blen ?k < _ |- _ => lazymatch goal with H : 0 <= blen k |- _ => fail | _ => pose proof (blen_nonneg k) end end.

Lemma DecodeKeyArgs_enc k : keyFits k -> DecodeKeyArgs (EncodeKeyArgs k) = Ok k.
Proof. intros Hk. sizes. unfold DecodeKeyArgs, EncodeKeyArgs. read_frame. done. Qed.

Lemma StdKeyExtractor_enc k r : keyFits k -> StdKeyExtractor (be_put 2 (blen k) ++ k ++ r) = Some k.
Proof. intros Hk. sizes. unfold StdKeyExtractor. read_frame. done. Qed.

Lemma DecodePutArgs_enc k v ttl : keyFits k -> valFits v -> duration ttl -> DecodePutArgs (EncodePutArgs k v ttl) = Ok (k, v, wholeMs ttl).
Proof. intros Hk Hv Ht. sizes. unfold DecodePutArgs, EncodePutArgs. read_frame. by rewrite fromMs_toMs. Qed.

Lemma DecodeExpireArgs_enc k ttl : keyFits k -> duration ttl -> DecodeExpireArgs (EncodeExpireArgs k ttl) = Ok (k, wholeMs ttl).
Proof. intros Hk Ht. sizes. unfold DecodeExpireArgs, EncodeExpireArgs. read_frame. by rewrite fromMs_toMs. Qed.

Lemma DecodeIncrArgs_enc k d : keyFits k -> int64 d -> DecodeIncrArgs (EncodeIncrArgs k d) = Ok (k, d).
Proof. intros Hk Hd. sizes. unfold DecodeIncrArgs, EncodeIncrArgs. read_frame. by rewrite toInt_int64. Qed.

Lemma be_get_u64 {E} x : be_get (E:=E) 8 (be_put 8 (u64 x)) = Ok (u64 x).
Proof. rewrite be_get_put. f_equal. apply (wrap_fits 64), (fits_wrap 64). lia. Qed.

Lemma DecodeIncrResult_enc d : int64 d -> DecodeIncrResult (EncodeIncrResult d) = Ok d.
Proof. intros Hd. unfold DecodeIncrResult, EncodeIncrResult. rewrite blen_be_put, be_get_u64. cbn. by rewrite toInt_int64. Qed.

Lemma DecodeTTLResult_enc d : int64 d -> DecodeTTLResult (EncodeTTLResult d) = Ok d.
Proof. apply DecodeIncrResult_enc. Qed.

Lemma flag_byte (b : bool) : negb (byte.unsigned (if b then Byte.x01 else Byte.x00) =? 0) = b.
Proof. by destruct b. Qed.

Lemma DecodeCASArgs_enc k v has x ttl : keyFits k -> valFits v -> valFits x -> duration ttl ->
  DecodeCASArgs (EncodeCASArgs k v has x ttl) = Ok (k, v, has, if has then x else [], wholeMs ttl).
Proof.
  intros Hk Hv Hx Ht. unfold DecodeCASArgs, EncodeCASArgs. assert (valFits (if has then x else [])) as Hx' by (destruct has; [done|by vm_compute]).
  remember (if has then x else []) as y eqn:Ey in *. sizes. read_frame. rewrite flag_byte, fromMs_toMs by done. by destruct has; subst.
Qed.

Lemma DecodeCADArgs_enc k x : keyFits k -> valFits x -> DecodeCADArgs (EncodeCADArgs k x) = Ok (k, x).
Proof. intros Hk Hx. sizes. unfold DecodeCADArgs, EncodeCADArgs. read_frame. done. Qed.

Lemma DecodeCASResult_flag b : DecodeCASResult [if b : bool then Byte.x01 else Byte.x00] = Ok b.
Proof. by destruct b. Qed.

Lemma DecodeGetDelResult_enc v : (forall x, v = Some x -> valFits x) ->
  DecodeGetDelResult (EncodeGetDelResult (default [] v) (bool_decide (v <> None))) = Ok v.
Proof.
  intros Hv. destruct v as [x|]; [|done]. specialize (Hv x eq_refl). change (default [] (Some x)) with x. unfold DecodeGetDelResult, EncodeGetDelResult.
  rewrite bool_decide_true by done. cbn [negb]. sizes. room. read_byte. change (byte.unsigned Byte.x01 =? 0) with false. cbv iota. read_frame. done.
Qed.

Lemma DecodeIncrExArgs_enc k d ttl : keyFits k -> int64 d -> duration ttl -> DecodeIncrExArgs (EncodeIncrExArgs k d ttl) = Ok (k, d, wholeMs ttl).
Proof.
  intros Hk Hd Ht. sizes. unfold DecodeIncrExArgs, EncodeIncrExArgs. read_frame. rewrite ttlFromMs_toMs by done. cbn. by rewrite toInt_int64.
Qed.

Lemma DecodeCAEXArgs_enc k x ttl : keyFits k -> valFits x -> duration ttl -> DecodeCAEXArgs (EncodeCAEXArgs k x ttl) = Ok (k, x, wholeMs ttl).
Proof. intros Hk Hx Ht. sizes. unfold DecodeCAEXArgs, EncodeCAEXArgs. read_frame. by rewrite ttlFromMs_toMs. Qed.

(** *** Batches *)

Lemma fits_count n b k : 0 <= n -> 1 <= k -> n * k <= b -> CountFitsIn n b k = true.
Proof. intros H1 H2 H3. apply CountFitsIn_spec; [done|]. nia. Qed.

Definition keyFrames (keys : list bytes) : bytes := concat ((fun k : bytes => be_put 2 (blen k) ++ k) <$> keys).

Lemma keyFrames_len keys : 2 * blen keys <= blen (keyFrames keys).
Proof.
  unfold keyFrames. induction keys as [|k keys IH]; [done|]. cbn [fmap list_fmap concat]. pose proof (blen_nonneg k). len.
Qed.

Lemma decodeKeys_frames keys a acc off : Forall keyFits keys -> off = blen a ->
  decodeKeys (a ++ keyFrames keys) off (length keys) acc = Ok (acc ++ keys).
Proof.
  intros Hk. revert a acc off. induction Hk as [|k keys Hk Hks IH]; intros a acc off ->; [cbn; by rewrite app_nil_r|].
  cbn [length decodeKeys]. unfold keyFrames. cbn [fmap list_fmap concat]. fold (keyFrames keys). rewrite <- !app_assoc. sizes. pose proof (blen_nonneg (keyFrames keys)).
  read_frame. rewrite (app_assoc (be_put 2 (blen k))), (app_assoc a), IH by len. by rewrite <- app_assoc.
Qed.

Lemma DecodeMGetArgs_enc keys : blen keys < 2 ^ 16 -> Forall keyFits keys -> DecodeMGetArgs (EncodeMGetArgs keys) = Ok keys.
Proof.
  intros Hn Hk. unfold DecodeMGetArgs, EncodeMGetArgs. fold (keyFrames keys). pose proof (keyFrames_len keys). pose proof (blen_nonneg keys). pose proof (blen_nonneg (keyFrames keys)).
  room. read_int. rewrite fits_count by len. cbn [negb]. unfold blen at 2. rewrite Nat2Z.id. by rewrite decodeKeys_frames.
Qed.

Definition valueFrames (vals : list (option bytes)) : bytes :=
  concat ((fun v : option bytes => match v with None => [Byte.x00] | Some v => [Byte.x01] ++ be_put 4 (blen v) ++ v end) <$> vals).
Definition optFits (v : option bytes) : Prop := forall x, v = Some x -> valFits x.

Lemma valueFrames_len vals : blen vals <= blen (valueFrames vals).
Proof.
  unfold valueFrames. induction vals as [|[v|] vals IH]; [done|cbn [fmap list_fmap concat]; pose proof (blen_nonneg v); len|cbn [fmap list_fmap concat]; len].
Qed.

Lemma decodeValues_frames vals a acc off : Forall optFits vals -> off = blen a ->
  decodeValues (a ++ valueFrames vals) off (length vals) acc = Ok (acc ++ vals).
Proof.
  intros Hv. revert a acc off. induction Hv as [|v vals Hv Hvs IH]; intros a acc off ->; [cbn; by rewrite app_nil_r|].
  cbn [length decodeValues]. unfold valueFrames. cbn [fmap list_fmap concat]. fold (valueFrames vals). pose proof (blen_nonneg (valueFrames vals)).
  destruct v as [v|].
  - specialize (Hv v eq_refl). rewrite <- !app_assoc. sizes. room. read_byte. change (byte.unsigned Byte.x01 =? 0) with false. cbv iota. read_frame.
    rewrite (app_assoc (be_put 4 (blen v))), (app_assoc [Byte.x01]), (app_assoc a), IH by len. by rewrite <- app_assoc.
  - room. read_byte. change (byte.unsigned Byte.x00 =? 0) with true. cbv iota. rewrite (app_assoc a), IH by len. by rewrite <- app_assoc.
Qed.

Lemma DecodeMGetResult_enc vals : blen vals < 2 ^ 16 -> Forall optFits vals -> DecodeMGetResult (EncodeMGetResult vals) = Ok vals.
Proof.
  intros Hn Hv. unfold DecodeMGetResult, EncodeMGetResult. fold (valueFrames vals). pose proof (valueFrames_len vals). pose proof (blen_nonneg vals). pose proof (blen_nonneg (valueFrames vals)).
  room. read_int. rewrite fits_count by len. cbn [negb]. unfold blen at 2. rewrite Nat2Z.id. by rewrite decodeValues_frames.
Qed.

Definition putFits (e : PutEntry) : Prop := keyFits (pKey e) /\ valFits (pVal e) /\ duration (pTTL e).
Definition onWire (e : PutEntry) : PutEntry := MkPut (pKey e) (pVal e) (wholeMs (pTTL e)).
Definition putFrame (e : PutEntry) : bytes := EncodePutArgs (pKey e) (pVal e) (pTTL e).
Definition putFrames (l : list PutEntry) : bytes := concat (putFrame <$> l).

Lemma decodeOnePut_frame e r : putFits e -> decodeOnePut (putFrame e ++ r) = Ok (onWire e, blen (putFrame e)).
Proof.
  intros (Hk & Hv & Ht). destruct e as [k v ttl]. unfold decodeOnePut, putFrame, EncodePutArgs, onWire in *. cbn [pKey pVal pTTL] in *. rewrite <- !app_assoc.
  sizes. pose proof (blen_nonneg r). read_frame. rewrite fromMs_toMs by done. do 2 f_equal. len.
Qed.

Lemma decodePuts_frames l a acc off : Forall putFits l -> off = blen a -> decodePuts (a ++ putFrames l) off (length l) acc = Ok (acc ++ (onWire <$> l)).
Proof.
  intros Hl. revert a acc off. induction Hl as [|e l He Hl IH]; intros a acc off ->; [cbn; by rewrite app_nil_r|].
  cbn [length decodePuts]. rewrite slice_from_app by done. cbn [mbind outcome_bind]. unfold putFrames. cbn [fmap list_fmap concat]. fold (putFrames l).
  rewrite decodeOnePut_frame by done. cbn [mbind outcome_bind]. rewrite (app_assoc a), IH by (rewrite blen_app; lia). by rewrite <- app_assoc.
Qed.

Lemma putFrames_len l : 14 * blen l <= blen (putFrames l).
Proof.
  unfold putFrames. induction l as [|e l IH]; [done|]. cbn [fmap list_fmap concat]. unfold putFrame at 1, EncodePutArgs. pose proof (blen_nonneg (pKey e)). pose proof (blen_nonneg (pVal e)). len.
Qed.

Lemma DecodePutBatchArgs_enc l : blen l < 2 ^ 32 -> Forall putFits l -> DecodePutBatchArgs (EncodePutBatchArgs l) = Ok (onWire <$> l).
Proof.
  intros Hn Hl. unfold DecodePutBatchArgs, EncodePutBatchArgs. change (concat _) with (putFrames l). pose proof (putFrames_len l). pose proof (blen_nonneg l). pose proof (blen_nonneg (putFrames l)).
  room. read_int. rewrite fits_count by (unfold minPutEntrySize; len). cbn [negb]. unfold blen at 2. rewrite Nat2Z.id. by rewrite decodePuts_frames.
Qed.

(** *** Any bytes *)

Ltac total D := intros; unfold D, ttlFromMs; match goal with |- context [blen ?b] => pose proof (blen_nonneg b) end; read_any; repeat case_match; done.

Lemma DecodeKeyArgs_total b : DecodeKeyArgs b <> Panic.
Proof. total DecodeKeyArgs. Qed.
Lemma DecodePutArgs_total b : DecodePutArgs b <> Panic.
Proof. total DecodePutArgs. Qed.
Lemma DecodeExpireArgs_total b : DecodeExpireArgs b <> Panic.
Proof. total DecodeExpireArgs. Qed.
Lemma DecodeIncrArgs_total b : DecodeIncrArgs b <> Panic.
Proof. total DecodeIncrArgs. Qed.
Lemma DecodeCASArgs_total b : DecodeCASArgs b <> Panic.
Proof. total DecodeCASArgs. Qed.
Lemma DecodeCADArgs_total b : DecodeCADArgs b <> Panic.
Proof. total DecodeCADArgs. Qed.
Lemma DecodeIncrExArgs_total b : DecodeIncrExArgs b <> Panic.
Proof. total DecodeIncrExArgs. Qed.
Lemma DecodeCAEXArgs_total b : DecodeCAEXArgs b <> Panic.
Proof. total DecodeCAEXArgs. Qed.

Lemma decodeKeys_total b n off acc : 0 <= off -> decodeKeys b off n acc <> Panic.
Proof.
  revert off acc. induction n as [|n IH]; intros off acc Ho; [done|]. cbn [decodeKeys]. read_any. apply IH. unfold fits in *. lia.
Qed.

Lemma DecodeMGetArgs_total b : DecodeMGetArgs b <> Panic.
Proof. unfold DecodeMGetArgs. read_any. destruct (negb _); [done|]. by apply decodeKeys_total. Qed.

Lemma decodeOnePut_total b : decodeOnePut b = Err ErrShortArgs \/ exists e n, decodeOnePut b = Ok (e, n) /\ 0 <= n <= blen b.
Proof.
  unfold decodeOnePut. pose proof (blen_nonneg b). destruct (Z.ltb_spec (blen b) 2); [by left|]. destruct (beAt_in (E:=werr) 2 b 0) as (kl & -> & ?); [lia..|]. unfold fits in *. cbn [mbind outcome_bind].
  destruct (Z.ltb_spec (blen b) (2 + kl + 4)); [by left|]. destruct (slice_exists (E:=werr) b 2 (2 + kl)) as (k & -> & ?); [lia..|]. cbn [mbind outcome_bind].
  destruct (beAt_in (E:=werr) 4 b (2 + kl)) as (vl & -> & ?); [lia..|]. unfold fits in *. cbn [mbind outcome_bind]. destruct (Z.ltb_spec vl 0); [by left|].
  destruct (Z.ltb_spec (blen b) (2 + kl + 4 + vl + 8)); [by left|]. destruct (slice_exists (E:=werr) b (2 + kl + 4) (2 + kl + 4 + vl)) as (v & -> & ?); [lia..|]. cbn [mbind outcome_bind].
  destruct (beAt_in (E:=werr) 8 b (2 + kl + 4 + vl)) as (ms & -> & ?); [lia..|]. cbn [mbind outcome_bind]. right. do 2 eexists. split; [done|]. lia.
Qed.

Lemma decodePuts_total b n off acc : 0 <= off <= blen b -> decodePuts b off n acc <> Panic.
Proof.
  revert off acc. induction n as [|n IH]; intros off acc Ho; [done|]. cbn [decodePuts]. unfold slice_from.
  destruct (slice_exists (E:=werr) b off (blen b)) as (r & -> & ?); [lia..|]. cbn [mbind outcome_bind].
  destruct (decodeOnePut_total r) as [->|(e & k & -> & ?)]; [done|]. cbn [mbind outcome_bind]. apply IH. lia.
Qed.

Lemma DecodePutBatchArgs_total b : DecodePutBatchArgs b <> Panic.
Proof. unfold DecodePutBatchArgs. read_any. destruct (negb _); [done|]. apply decodePuts_total. lia. Qed.

(** ** Properties *)

(** C36. The arguments of every key-value operation decode to what was encoded: keys of
    up to 65535 bytes and values of up to 4 GiB as they are, durations to their whole
    milliseconds, batches entry by entry; the key a request is routed by is the one it
    encodes, or the first of its batch; and no bytes make a decoder read outside
    them. *)
Theorem kv_args_roundtrip :
  (forall k v x d ttl has, keyFits k -> valFits v -> valFits x -> int64 d -> duration ttl ->
     DecodeKeyArgs (EncodeKeyArgs k) = Ok k /\
     DecodePutArgs (EncodePutArgs k v ttl) = Ok (k, v, wholeMs ttl) /\
     DecodeExpireArgs (EncodeExpireArgs k ttl) = Ok (k, wholeMs ttl) /\
     DecodeIncrArgs (EncodeIncrArgs k d) = Ok (k, d) /\
     DecodeCASArgs (EncodeCASArgs k v has x ttl) = Ok (k, v, has, if has then x else [], wholeMs ttl) /\
     DecodeCADArgs (EncodeCADArgs k x) = Ok (k, x) /\
     DecodeIncrExArgs (EncodeIncrExArgs k d ttl) = Ok (k, d, wholeMs ttl) /\
     DecodeCAEXArgs (EncodeCAEXArgs k x ttl) = Ok (k, x, wholeMs ttl) /\
     Forall (fun f => StdKeyExtractor f = Some k) [EncodeKeyArgs k; EncodePutArgs k v ttl; EncodeExpireArgs k ttl; EncodeIncrArgs k d;
       EncodeCASArgs k v has x ttl; EncodeCADArgs k x; EncodeIncrExArgs k d ttl; EncodeCAEXArgs k x ttl]) /\
  (forall ks, blen ks < 2 ^ 16 -> Forall keyFits ks -> DecodeMGetArgs (EncodeMGetArgs ks) = Ok ks /\ mgetKeyExtractor (EncodeMGetArgs ks) = head ks) /\
  (forall l, blen l < 2 ^ 32 -> Forall putFits l -> DecodePutBatchArgs (EncodePutBatchArgs l) = Ok (onWire <$> l) /\
     putBatchKeyExtractor (EncodePutBatchArgs l) = pKey <$> head l) /\
  (forall b, DecodeKeyArgs b <> Panic /\ DecodePutArgs b <> Panic /\ DecodeExpireArgs b <> Panic /\ DecodeIncrArgs b <> Panic /\ DecodeCASArgs b <> Panic /\
     DecodeCADArgs b <> Panic /\ DecodeIncrExArgs b <> Panic /\ DecodeCAEXArgs b <> Panic /\ DecodeMGetArgs b <> Panic /\ DecodePutBatchArgs b <> Panic).
Proof.
  split_and!.
  - intros k v x d ttl has Hk Hv Hx Hd Ht. split_and!; auto using DecodeKeyArgs_enc, DecodePutArgs_enc, DecodeExpireArgs_enc, DecodeIncrArgs_enc,
      DecodeCASArgs_enc, DecodeCADArgs_enc, DecodeIncrExArgs_enc, DecodeCAEXArgs_enc.
    repeat constructor; try (by apply StdKeyExtractor_enc). unfold EncodeKeyArgs. rewrite <- (app_nil_r k) at 2. by apply StdKeyExtractor_enc.
  - intros ks Hn Hk. split; [by apply DecodeMGetArgs_enc|]. unfold mgetKeyExtractor, EncodeMGetArgs. room. rewrite slice_from_app by done.
    destruct Hk as [|k ks Hk _]; [done|]. cbn [fmap list_fmap concat]. rewrite <- app_assoc. by apply StdKeyExtractor_enc.
  - intros l Hn Hl. split; [by apply DecodePutBatchArgs_enc|]. unfold putBatchKeyExtractor, EncodePutBatchArgs. room. rewrite slice_from_app by done.
    destruct Hl as [|e l (Hk & _) _]; [done|]. cbn [fmap list_fmap concat]. unfold EncodePutArgs. rewrite <- !app_assoc. by apply StdKeyExtractor_enc.
  - intros b. split_and!; auto using DecodeKeyArgs_total, DecodePutArgs_total, DecodeExpireArgs_total, DecodeIncrArgs_total, DecodeCASArgs_total,
      DecodeCADArgs_total, DecodeIncrExArgs_total, DecodeCAEXArgs_total, DecodeMGetArgs_total, DecodePutBatchArgs_total.
Qed.
