(* ===== verification/ShardLog.v ===== *)
(** * The entries of a shard group's log (src/shard/log.go).

    An entry names an operation and carries its arguments. The stamped layout also
    carries the clock of the node that proposed it. *)
From S2P Require Import Prelude Wire.
From Stdlib Require Import Strings.String.

Module ShardLog.

Inductive entryErr := ErrLogEntryTruncated | ErrLogEntryVersion.

#[export] Instance entryErr_eq_dec : EqDecision entryErr.
Proof. solve_decision. Defined.

Definition maxOpNameLen : Z := 255.
Definition logStampMarker : Z := 0.
Definition logStampVersion : Z := 1.
Definition stampedHeaderLen : Z := 1 + 1 + 8 + 1.

(** Conversions between a string and its bytes. *)
Definition str (s : string) : bytes := list_byte_of_string s.
Definition ofBytes (b : bytes) : string := string_of_list_byte b.

Definition EncodeLogEntry (opName : string) (args : bytes) : outcome entryErr bytes :=
  let name := str opName in
  if maxOpNameLen <? blen name then Panic else
  Ok (be_put 1 (blen name) ++ name ++ be_put 4 (u32 (blen args)) ++ args).

(** [appendStampedHeader] fills a buffer of exactly this size. *)
Definition appendStampedHeader (opName : string) (args : bytes) (stampMs : Z) : bytes :=
  let name := str opName in
  be_put 1 logStampMarker ++ be_put 1 logStampVersion ++ be_put 8 stampMs ++ be_put 1 (blen name) ++ name ++
  be_put 4 (u32 (blen args)) ++ args.

Definition EncodeLogEntryStamped (opName : string) (args : bytes) (stampMs : Z) : outcome entryErr bytes :=
  if maxOpNameLen <? blen (str opName) then Panic else Ok (appendStampedHeader opName args stampMs).

(** The name, the arguments, the stamp and whether there was one. *)
Definition decoded : Type := string * bytes * Z * bool.

Definition decodeStampedLogEntry (buf : bytes) : outcome entryErr decoded :=
  if blen buf <? stampedHeaderLen then Err ErrLogEntryTruncated else
  ver ← byte_at buf 1;
  if negb (ver =? logStampVersion) then Err ErrLogEntryVersion else
  stampMs ← beAt 8 buf 2;
  nameLen ← byte_at buf 10;
  if blen buf <? stampedHeaderLen + nameLen + 4 then Err ErrLogEntryTruncated else
  name ← slice buf stampedHeaderLen (stampedHeaderLen + nameLen);
  let off := stampedHeaderLen + nameLen in
  argsLen ← beAt 4 buf off;
  if blen buf <? off + 4 + argsLen then Err ErrLogEntryTruncated else
  args ← slice buf (off + 4) (off + 4 + argsLen);
  Ok (ofBytes name, args, stampMs, true).

Definition DecodeLogEntry (buf : bytes) : outcome entryErr decoded :=
  if blen buf <? 1 then Err ErrLogEntryTruncated else
  first ← byte_at buf 0;
  if first =? logStampMarker then decodeStampedLogEntry buf else
  let nameLen := first in
  if blen buf <? 1 + nameLen + 4 then Err ErrLogEntryTruncated else
  name ← slice buf 1 (1 + nameLen);
  argsLen ← beAt 4 buf (1 + nameLen);
  if blen buf <? 1 + nameLen + 4 + argsLen then Err ErrLogEntryTruncated else
  args ← slice buf (1 + nameLen + 4) (1 + nameLen + 4 + argsLen);
  Ok (ofBytes name, args, 0, false).

(** ** Lemmas *)

(** Names and arguments an entry can hold. *)
Definition nameFits (opName : string) : Prop := 1 <= blen (str opName) <= maxOpNameLen.
Definition argsFit (args : bytes) : Prop := blen args < 2 ^ 32.

Lemma ofBytes_str s : ofBytes (str s) = s.
Proof. apply string_of_list_byte_of_string. Qed.

Lemma be_put_1 x : be_put 1 x = [byte.of_Z x].
Proof. done. Qed.

Lemma small_byte x : 0 <= x <= 255 -> byte.unsigned (byte.of_Z x) = x.
Proof. intros H. rewrite byte.unsigned_of_Z. apply (wrap_fits 8). unfold fits. lia. Qed.

Lemma decode_encode opName args : nameFits opName -> argsFit args ->
  exists b, EncodeLogEntry opName args = Ok b /\ DecodeLogEntry b = Ok (opName, args, 0, false).
Proof.
  unfold nameFits, argsFit, maxOpNameLen. intros Hn Ha. pose proof (blen_nonneg args). unfold EncodeLogEntry, maxOpNameLen. rewrite (proj2 (Z.ltb_ge _ _)) by lia.
  eexists. split; [done|]. unfold DecodeLogEntry. rewrite be_put_1, (wrap_fits 32) by (unfold fits; lia). room. read_byte. rewrite small_byte by lia.
  unfold logStampMarker. rewrite (proj2 (Z.eqb_neq _ _)) by lia. read_frame. by rewrite ofBytes_str.
Qed.

Lemma decode_encodeStamped opName args stampMs : blen (str opName) <= maxOpNameLen -> argsFit args -> fits 64 stampMs ->
  exists b, EncodeLogEntryStamped opName args stampMs = Ok b /\ DecodeLogEntry b = Ok (opName, args, stampMs, true).
Proof.
  unfold argsFit, maxOpNameLen. intros Hn Ha Hs. pose proof (blen_nonneg args). pose proof (blen_nonneg (str opName)). unfold EncodeLogEntryStamped, maxOpNameLen.
  rewrite (proj2 (Z.ltb_ge _ _)) by lia. eexists. split; [done|]. unfold DecodeLogEntry, decodeStampedLogEntry, appendStampedHeader, logStampMarker, logStampVersion, stampedHeaderLen.
  rewrite !be_put_1, (wrap_fits 32) by (unfold fits; lia). repeat first [room|read_byte]. rewrite !small_byte by lia. cbn [Z.eqb Pos.eqb negb].
  read_frame. by rewrite ofBytes_str.
Qed.

Lemma DecodeLogEntry_total b : DecodeLogEntry b <> Panic.
Proof.
  unfold DecodeLogEntry, decodeStampedLogEntry, stampedHeaderLen. pose proof (blen_nonneg b). read_any. destruct (_ =? logStampMarker); [|read_any; done].
  read_any. destruct (negb _); [done|]. read_any. done.
Qed.

(** An entry of a shard's log decodes to the operation, the arguments and the
    stamp it was encoded with, whether it is stamped or not, and a stamped entry is
    never taken for an unstamped one; a name that is too long panics; and no bytes make the
    decoder read outside them. *)
Theorem log_entry_roundtrip :
  (forall opName args, nameFits opName -> argsFit args -> exists b, EncodeLogEntry opName args = Ok b /\ DecodeLogEntry b = Ok (opName, args, 0, false)) /\
  (forall opName args stampMs, blen (str opName) <= maxOpNameLen -> argsFit args -> fits 64 stampMs ->
     exists b, EncodeLogEntryStamped opName args stampMs = Ok b /\ DecodeLogEntry b = Ok (opName, args, stampMs, true)) /\
  (forall opName args stampMs, maxOpNameLen < blen (str opName) -> EncodeLogEntry opName args = Panic /\ EncodeLogEntryStamped opName args stampMs = Panic) /\
  (forall b, DecodeLogEntry b <> Panic).
Proof.
  split_and!; [exact decode_encode|exact decode_encodeStamped| |exact DecodeLogEntry_total].
  intros opName args stampMs Hn. unfold EncodeLogEntry, EncodeLogEntryStamped. rewrite (proj2 (Z.ltb_lt maxOpNameLen (blen (str opName))) Hn). done.
Qed.

End ShardLog.
