(* ===== verification/Cache.v ===== *)
(** * The cache: shards selected by the hash of the key (src/cache/cache.go, flush.go).

    Each shard keeps, next to the state of Shard.v, the header of its data file and the
    applied index mirrored from it. Shard [i] has its own oracle [ws i]; an msync and
    the write of a flush sidecar are calls of it. *)
From S2P Require Import Prelude CacheConfig SipHash Entry Page IndexTable Shard CacheFile.
Import Entry Page IndexTable Shard.

Module Cache.

Record cshard := MkCS {
  core : shard;
  hdr : bytes;
  appliedIndex : Z;
  sidecar : CacheFile.fileRead;
}.
Definition setCore (c : cshard) (s : shard) : cshard := MkCS s (hdr c) (appliedIndex c) (sidecar c).
Definition setHdr (c : cshard) (h : bytes) : cshard := MkCS (core c) h (appliedIndex c) (sidecar c).
Definition setApplied (c : cshard) (i : Z) : cshard := MkCS (core c) (hdr c) i (sidecar c).
Definition setSidecar (c : cshard) (f : CacheFile.fileRead) : cshard := MkCS (core c) (hdr c) (appliedIndex c) f.

Record Cache := MkCache { shards : list cshard }.

Abbreviation C := (st Cache cerr).
Abbreviation CS := (st cshard cerr).

(** What a shard does, seen from its cell. *)
Definition inCore {A} (m : M A) : CS A := fun c => let (s, o) := m (core c) in (setCore c s, o).

(** The bytes of the header, written in place. *)
Definition inHdr (m : CacheFile.W unit) : CS unit := fun c =>
  match m (hdr c) with
  | (h, Ok _) => (setHdr c h, Ok tt)
  | (h, _) => (setHdr c h, Panic)
  end.

Section Facade.
Context (hashKey : bytes -> Z) (ws : nat -> world) (cfg : Config).

Definition mask : Z := u64 (NumShards cfg - 1).

Definition ShardIndex (key : bytes) : Z := Z.land (hashKey key) mask.

(** [c.shards[i]], out of range a panic. *)
Definition onCell {A} (i : nat) (m : CS A) : C A := fun c =>
  match shards c !! i with
  | None => (c, Panic)
  | Some s => let (s', o) := m s in (MkCache (<[i := s']> (shards c)), o)
  end.

(** [shardForH], and the method called on the shard it selects. *)
Definition shardForH {A} (key : bytes) (m : world -> Z -> M A) : C A :=
  let h := hashKey key in
  let i := Z.to_nat (Z.land h mask) in
  onCell i (inCore (m (ws i) h)).

(** ** Keys *)

Definition Get (key : bytes) : C bytes := shardForH key (fun w h => getH w cfg key h).
Definition GetAt (key : bytes) (nowMs : Z) : C bytes := shardForH key (fun w h => getAtH cfg key h nowMs).
Definition GetWithExpiry (key : bytes) : C (bytes * Z) := shardForH key (fun w h => getWithExpiryH w cfg key h).
Definition GetWithExpiryAt (key : bytes) (nowMs : Z) : C (bytes * Z) := shardForH key (fun w h => getWithExpiryAtH cfg key h nowMs).
Definition Put (key value : bytes) (ttl : Z) : C unit := shardForH key (fun w h => putH hashKey w cfg key value ttl h).
Definition PutAt (key value : bytes) (ttl nowMs : Z) : C unit := shardForH key (fun w h => putAtH hashKey w cfg key value ttl nowMs h).
Definition PutAbs (key value : bytes) (expiryMs : Z) : C unit := shardForH key (fun w h => putAbsH hashKey w cfg key value expiryMs h).
Definition Del (key : bytes) : C bool := shardForH key (fun w h => delH hashKey w cfg key h).
Definition NowMs : C Z := onCell 0 (inCore (now (ws 0))).

(** ** The logical clock *)

Definition LastAppliedStampMs (c : Cache) : Z := foldl (fun m s => if m <? lastAppliedStampMs (core s) then lastAppliedStampMs (core s) else m) 0 (shards c).

(** A loop over every shard. *)
Fixpoint eachFrom (f : nat -> CS unit) (i : nat) (l : list cshard) : list cshard * outcome cerr unit :=
  match l with
  | [] => ([], Ok tt)
  | s :: l =>
      match f i s with
      | (s', Ok _) => let (l', o) := eachFrom f (S i) l in (s' :: l', o)
      | (s', o) => (s' :: l, o)
      end
  end.
Definition each (f : nat -> CS unit) : C unit := fun c => let (l, o) := eachFrom f 0 (shards c) in (MkCache l, o).

Definition AdvanceAppliedStamp (stampMs : Z) : C unit :=
  if stampMs =? 0 then mret tt else each (fun _ => inCore (advanceAppliedStamp stampMs)).

(** ** The applied index *)

(** The smallest over the shards; 0 as soon as a shard is not mapped. *)
Fixpoint minApplied (l : list cshard) (m : Z) : Z :=
  match l with
  | [] => if m =? 2 ^ 64 - 1 then 0 else m
  | s :: l => if negb (isMmap (core s)) then 0 else minApplied l (if appliedIndex s <? m then appliedIndex s else m)
  end.
Definition AppliedIndex (c : Cache) : Z := minApplied (shards c) (2 ^ 64 - 1).

(** One msync: the next answer of the oracle. *)
Definition syncRegion (w : world) : CS bool := inCore (n ← gets calls; modify (fun s => setCalls s (S (calls s)));; mret (msyncOk w n)).

(** The bounds of every page go to its header. *)
Fixpoint projectAll (ps : list page) : outcome cerr (list page) :=
  match ps with
  | [] => Ok []
  | p :: ps => p ← projectBounds p (head p) (tail p); ps ← projectAll ps; Ok (p :: ps)
  end.
Definition projectPages : M unit := ps ← gets pages; ps ← lift (projectAll ps); modify (fun s => setPages s ps).

Definition setAppliedShard (idx : Z) (force : bool) (w : world) : CS unit :=
  s ← gets core;
  if negb (isMmap s) then mret tt
  else
    inHdr (CacheFile.setAppliedStamp (lastAppliedStampMs s));;
    if force then
      dataOK ← syncRegion w;
      if dataOK : bool then
        inCore projectPages;;
        boundsOK ← syncRegion w;
        if boundsOK : bool then
          inHdr (CacheFile.setAppliedIndex idx);;
          modify (fun c => setApplied c idx);;
          syncRegion w;; mret tt
        else mret tt
      else mret tt
    else
      inHdr (CacheFile.setAppliedIndex idx);;
      modify (fun c => setApplied c idx).

Definition SetAppliedIndex (idx : Z) (force : bool) : C unit := each (fun i => setAppliedShard idx force (ws i)).

(** ** Flush *)

(** The sidecar file is replaced as a whole: it is staged, synced and renamed, or the
    write fails and the old one stays; then the directory is synced, and when that
    fails the new one is in place already. *)
Definition writeFlushSidecar (w : world) (floor : Z) : CS unit :=
  renamed ← syncRegion w;
  if renamed : bool then
    (match CacheFile.encodeFlushSidecar floor (replicate 17 Byte.x00) with
     | (rec, Ok _) => modify (fun c => setSidecar c (CacheFile.Contents rec))
     | _ => panic
     end);;
    dirOK ← syncRegion w;
    if dirOK : bool then mret tt else throw ErrFlushNotDurable
  else throw ErrFlushNotDurable.

Definition setFlushed (s : shard) (floor : Z) : shard :=
  MkShard (newIndexTable 0) (pages s) (genCounter s) (writeIdx s) (writeSeq s) (nextVictim s) (isMmap s) (Shard.sieve s)
    (shardKey s) floor (lastAppliedStampMs s) (ctr s) (removed s) (calls s).

Definition flush (w : world) : CS unit :=
  s ← gets core;
  let floor := writeSeq s in
  (if isMmap s then writeFlushSidecar w floor else mret tt);;
  modify (fun c => setCore c (setFlushed (core c) floor)).

(** Every shard is flushed; the first error is returned. *)
Fixpoint flushFrom (i : nat) (l : list cshard) (firstErr : option cerr) : list cshard * outcome cerr unit :=
  match l with
  | [] => ([], match firstErr with None => Ok tt | Some e => Err e end)
  | s :: l =>
      match flush (ws i) s with
      | (s', Panic) => (s' :: l, Panic)
      | (s', o) =>
          let (l', o') := flushFrom (S i) l (match o, firstErr with Err e, None => Some e | _, _ => firstErr end) in
          (s' :: l', o')
      end
  end.
Definition Flush : C unit := fun c => let (l, o) := flushFrom 0 (shards c) None in (MkCache l, o).

(** ** Construction: [New] without a data directory *)

Fixpoint newShards (n : nat) : list cshard * outcome cerr unit :=
  match n with
  | O => ([], Ok tt)
  | S n =>
      match newHeapShard cfg with
      | (s, Ok _) => let (l, o) := newShards n in (MkCS s [] 0 CacheFile.NotExist :: l, o)
      | (_, o) => ([], o)
      end
  end.

Definition New : outcome (CacheConfig.configErr + cerr) Cache :=
  match CacheConfig.Validate true cfg with
  | Err e => Err (inl e)
  | Panic => Panic
  | Ok _ =>
      match newShards (Z.to_nat (NumShards cfg)) with
      | (l, Ok _) => Ok (MkCache l)
      | (_, Err e) => Err (inr e)
      | (_, Panic) => Panic
      end
  end.

End Facade.

End Cache.
