(* ===== verification/KVOps.v ===== *)
(** * The key-value operations (src/ops/runtime.go, builtin.go, batch.go).

    The handlers run on a [TxContext] over a cache; what they use of the cache is the
    class [KVStore]. The dispatcher is one without a record index, so [reindexKV] does
    nothing. *)
From S2P Require Import Prelude CacheConfig SipHash Entry Page IndexTable Shard CacheFile Cache Wire KVWire.
From stdpp Require Import strings.
Import Entry KVWire.
#[local] Open Scope Z_scope.

(** The methods of a cache the operations call. *)
Class KVStore (S : Type) := {
  cGet : bytes -> st S cerr bytes;
  cGetAt : bytes -> Z -> st S cerr bytes;
  cGetWithExpiry : bytes -> st S cerr (bytes * Z);
  cGetWithExpiryAt : bytes -> Z -> st S cerr (bytes * Z);
  cPut : bytes -> bytes -> Z -> st S cerr unit;
  cPutAt : bytes -> bytes -> Z -> Z -> st S cerr unit;
  cPutAbs : bytes -> bytes -> Z -> st S cerr unit;
  cDel : bytes -> st S cerr bool;
  cNowMs : st S cerr Z;
  cFlush : st S cerr unit;
}.

#[export] Instance Cache_KVStore (hashKey : bytes -> Z) (ws : nat -> Shard.world) (cfg : CacheConfig.Config) : KVStore Cache.Cache := {
  cGet := Cache.Get hashKey ws cfg;
  cGetAt := Cache.GetAt hashKey ws cfg;
  cGetWithExpiry := Cache.GetWithExpiry hashKey ws cfg;
  cGetWithExpiryAt := Cache.GetWithExpiryAt hashKey ws cfg;
  cPut := Cache.Put hashKey ws cfg;
  cPutAt := Cache.PutAt hashKey ws cfg;
  cPutAbs := Cache.PutAbs hashKey ws cfg;
  cDel := Cache.Del hashKey ws cfg;
  cNowMs := Cache.NowMs ws;
  cFlush := Cache.Flush ws;
}.

Module KVOps.

(** What an operation returns as an error: one of the decoders', one of the cache's,
    a counter of the wrong size, or one of an operation that is not modelled here. *)
Inductive opErr := OWire (e : KVWire.werr) | OCache (e : cerr) | ONotCounter | OWASMNotResident | OWASMNoGroupBinding | OOther (msg : bytes).

#[export] Instance opErr_eq_dec : EqDecision opErr.
Proof. solve_decision. Defined.

Record TxContext := MkTx { applyStamped : bool; applyNowMs : Z }.

Section Handlers.
Context {S : Type} `{KVStore S}.

Abbreviation T := (st S opErr).

Definition orErr {E A} (f : E -> opErr) (o : outcome E A) : outcome opErr A :=
  match o with Ok a => Ok a | Err e => Err (f e) | Panic => Panic end.

(** A call of the cache, and the decoding of the arguments. *)
Definition onCache {A} (m : st S cerr A) : T A := fun s => let (s', o) := m s in (s', orErr OCache o).
Definition decode {A} (o : outcome KVWire.werr A) : T A := lift (orErr OWire o).

(** ** TxContext *)

Definition txGet (tx : TxContext) (key : bytes) : T bytes :=
  onCache (if applyStamped tx then cGetAt key (applyNowMs tx) else cGet key).
Definition txPut (tx : TxContext) (key value : bytes) (ttl : Z) : T unit :=
  onCache (if applyStamped tx then cPutAt key value ttl (applyNowMs tx) else cPut key value ttl).
Definition txGetWithExpiry (tx : TxContext) (key : bytes) : T (bytes * Z) :=
  onCache (if applyStamped tx then cGetWithExpiryAt key (applyNowMs tx) else cGetWithExpiry key).
Definition txPutAbs (key value : bytes) (expiryMs : Z) : T unit := onCache (cPutAbs key value expiryMs).
Definition txDel (key : bytes) : T bool := onCache (cDel key).

Definition txExpire (tx : TxContext) (key : bytes) (ttl : Z) : T unit := v ← txGet tx key; txPut tx key v ttl.

(** A read whose [ErrNotFound] is told from other errors. *)
Definition found {A} (m : T A) : T (option A) :=
  r ← try m;
  match r with
  | inl v => mret (Some v)
  | inr (OCache ErrNotFound) => mret None
  | inr e => throw e
  end.

(** ** Handlers *)

Definition handler : Type := TxContext -> bytes -> T bytes.

Definition zero : bytes := [Byte.x00].
Definition one : bytes := [Byte.x01].

Definition handleGet : handler := fun tx args => key ← decode (KVWire.DecodeKeyArgs args); txGet tx key.

Definition handlePut : handler := fun tx args =>
  '(key, val, ttl) ← decode (KVWire.DecodePutArgs args);
  txPut tx key val ttl;; mret [].

Definition handleDel : handler := fun tx args =>
  key ← decode (KVWire.DecodeKeyArgs args);
  existed ← txDel key;
  mret (if existed : bool then one else zero).

Definition handleFlush : handler := fun tx _ => onCache cFlush;; mret [].

Definition handleExpire : handler := fun tx args =>
  '(key, ttl) ← decode (KVWire.DecodeExpireArgs args);
  txExpire tx key ttl;; mret [].

(** The eight bytes of a counter. *)
Definition counterBytes (n : Z) : bytes := be_put 8 (u64 n).

Definition handleIncr : handler := fun tx args =>
  '(key, delta) ← decode (KVWire.DecodeIncrArgs args);
  v ← found (txGet tx key);
  current ← (match v with
             | None => mret 0
             | Some v => if negb (blen v =? 8) then throw ONotCounter else x ← lift (be_get 8 v); mret (toInt x)
             end);
  let next := toInt (current + delta) in
  txPut tx key (counterBytes next) 0;;
  mret (KVWire.EncodeIncrResult next).

Definition handleSetNX : handler := fun tx args =>
  '(key, val, ttl) ← decode (KVWire.DecodePutArgs args);
  v ← found (txGet tx key);
  match v with
  | None => txPut tx key val ttl;; mret one
  | Some _ => mret zero
  end.

Definition handleCAS : handler := fun tx args =>
  '(key, val, hasExpected, expected, ttl) ← decode (KVWire.DecodeCASArgs args);
  cur ← found (txGet tx key);
  if match cur with
     | None => hasExpected
     | Some cur => negb hasExpected || negb (bool_decide (cur = expected))
     end
  then mret zero
  else txPut tx key val ttl;; mret one.

Definition handleCompareAndDel : handler := fun tx args =>
  '(key, expected) ← decode (KVWire.DecodeCADArgs args);
  cur ← found (txGet tx key);
  match cur with
  | None => mret zero
  | Some cur =>
      if negb (bool_decide (cur = expected)) then mret zero
      else existed ← txDel key; mret (if existed : bool then one else zero)
  end.

Definition handleExists : handler := fun tx args =>
  key ← decode (KVWire.DecodeKeyArgs args);
  v ← found (txGet tx key);
  mret (match v with None => zero | Some _ => one end).

Definition handleGetDel : handler := fun tx args =>
  key ← decode (KVWire.DecodeKeyArgs args);
  v ← found (txGet tx key);
  match v with
  | None => mret (KVWire.EncodeGetDelResult [] false)
  | Some v => txDel key;; mret (KVWire.EncodeGetDelResult v true)
  end.

Definition handleGetSet : handler := fun tx args =>
  '(key, val, ttl) ← decode (KVWire.DecodePutArgs args);
  old ← found (txGet tx key);
  txPut tx key val ttl;;
  mret (match old with None => KVWire.EncodeGetDelResult [] false | Some v => KVWire.EncodeGetDelResult v true end).

Definition handlePersist : handler := fun tx args =>
  key ← decode (KVWire.DecodeKeyArgs args);
  r ← found (txGetWithExpiry tx key);
  match r with
  | None => mret zero
  | Some (val, expiryMs) => if expiryMs =? 0 then mret zero else txPutAbs key val 0;; mret one
  end.

Definition handleTTL : handler := fun tx args =>
  key ← decode (KVWire.DecodeKeyArgs args);
  r ← found (txGetWithExpiry tx key);
  match r with
  | None => mret (KVWire.EncodeTTLResult (-2))
  | Some (_, expiryMs) =>
      if expiryMs =? 0 then mret (KVWire.EncodeTTLResult (-1))
      else
        now ← onCache cNowMs;
        let remaining := toInt (toInt expiryMs - toInt now) in
        mret (KVWire.EncodeTTLResult (if remaining <? 0 then 0 else remaining))
  end.

Definition handleIncrEx : handler := fun tx args =>
  '(key, delta, ttl) ← decode (KVWire.DecodeIncrExArgs args);
  r ← found (txGetWithExpiry tx key);
  match r with
  | None => txPut tx key (counterBytes delta) ttl;; mret (KVWire.EncodeIncrResult delta)
  | Some (v, expiryMs) =>
      if negb (blen v =? 8) then throw ONotCounter
      else
        x ← lift (be_get 8 v);
        let next := toInt (toInt x + delta) in
        txPutAbs key (counterBytes next) expiryMs;;
        mret (KVWire.EncodeIncrResult next)
  end.

Definition handleCAEX : handler := fun tx args =>
  '(key, expected, ttl) ← decode (KVWire.DecodeCAEXArgs args);
  cur ← found (txGet tx key);
  match cur with
  | None => mret zero
  | Some cur => if negb (bool_decide (cur = expected)) then mret zero else txExpire tx key ttl;; mret one
  end.

Fixpoint getAll (tx : TxContext) (keys : list bytes) : T (list (option bytes)) :=
  match keys with
  | [] => mret []
  | k :: keys => v ← found (txGet tx k); vs ← getAll tx keys; mret (v :: vs)
  end.

Definition handleMGet : handler := fun tx args =>
  keys ← decode (KVWire.DecodeMGetArgs args);
  vals ← getAll tx keys;
  mret (KVWire.EncodeMGetResult vals).

(** Each entry is put on its own; the first error is kept. *)
Fixpoint putAll (tx : TxContext) (entries : list KVWire.PutEntry) (firstErr : option opErr) : T (option opErr) :=
  match entries with
  | [] => mret firstErr
  | e :: entries =>
      r ← try (txPut tx (KVWire.pKey e) (KVWire.pVal e) (KVWire.pTTL e));
      putAll tx entries (match r, firstErr with inr perr, None => Some perr | _, _ => firstErr end)
  end.

Definition handlePutBatch : handler := fun tx args =>
  entries ← decode (KVWire.DecodePutBatchArgs args);
  firstErr ← putAll tx entries None;
  match firstErr with
  | Some e => throw e
  | None => mret (KVWire.EncodePutBatchResult (blen entries))
  end.

Definition handlePing : handler := fun _ _ => mret [].

(** ** The table of operations (sdk/wire/builtin_routing.go, [builtinHandlers]) *)

Inductive OpKind := OpReadOnly | OpReadWrite.

#[export] Instance OpKind_eq_dec : EqDecision OpKind.
Proof. solve_decision. Defined.

Definition builtinHandlers : list (string * (OpKind * handler)) :=
  [("get", (OpReadOnly, handleGet)); ("put", (OpReadWrite, handlePut)); ("del", (OpReadWrite, handleDel));
   ("expire", (OpReadWrite, handleExpire)); ("incr", (OpReadWrite, handleIncr)); ("set_nx", (OpReadWrite, handleSetNX));
   ("cas", (OpReadWrite, handleCAS)); ("cad", (OpReadWrite, handleCompareAndDel)); ("exists", (OpReadOnly, handleExists));
   ("getdel", (OpReadWrite, handleGetDel)); ("getset", (OpReadWrite, handleGetSet)); ("persist", (OpReadWrite, handlePersist));
   ("ttl", (OpReadOnly, handleTTL)); ("incr_ex", (OpReadWrite, handleIncrEx)); ("caex", (OpReadWrite, handleCAEX));
   ("mget", (OpReadOnly, handleMGet)); ("put_batch", (OpReadWrite, handlePutBatch)); ("flush", (OpReadWrite, handleFlush));
   ("__ping__", (OpReadOnly, handlePing))]%string.

(** [Registry.Lookup]. *)
Fixpoint Lookup (opName : string) (l : list (string * (OpKind * handler))) : option (OpKind * handler) :=
  match l with
  | [] => None
  | (n, e) :: l => if bool_decide (n = opName) then Some e else Lookup opName l
  end.

End Handlers.

End KVOps.
