(* ===== verification/KVSpec.v ===== *)
(** * What the key-value operations do.

    [KVLaws] is what a cache promises: a partial map from keys to values with expiries.
    Against it every write operation is a decision on the entry of its key. *)
From S2P Require Import Prelude CacheConfig SipHash Entry Page IndexTable Shard CacheFile Cache Wire KVWire KVWireProps KVOps.
From stdpp Require Import strings.
Import Entry KVWire KVOps.
#[local] Open Scope Z_scope.

Definition entryOf : Type := option (bytes * Z).
Definition kvmap : Type := bytes -> entryOf.

(** The entry as a read at [now] sees it. *)
Definition live (now : Z) (x : entryOf) : entryOf :=
  match x with Some (v, e) => if Shard.isExpired e now then None else Some (v, e) | None => None end.

(** ** The promises of a cache *)

(** A write can fail for want of room, which is the state of one node, or because the
    entry is larger than what any page has room for. *)
Definition fullErr (e : cerr) : Prop := e = ErrFull \/ e = ErrCannotEvict \/ e = ErrReuseBarrier.
Definition refusal (room : Z) (k v : bytes) (e : cerr) : Prop :=
  fullErr e \/ (e = errEntryTooLarge /\ room < entrySpanExact (blen k) (blen v)) \/ (e = errKeyTooLong /\ maxKeyLen < blen k).

Class KVLaws (S : Type) `{KVStore S} := {
  content : S -> kvmap;
  kvOk : S -> Prop;
  lossy : Prop;
  room : Z;
  hash : bytes -> Z;
  (** The expiries are 64-bit, and no two keys of the map share a hash. *)
  law_fits s k v e : kvOk s -> content s k = Some (v, e) -> fits 64 e;
  law_hash s k k' : kvOk s -> content s k <> None -> k' <> k -> hash k' = hash k -> content s k' = None;
  (** A read returns the live entry, and may drop it if it has expired. *)
  law_read s k n : kvOk s -> exists s',
    cGetWithExpiryAt k n s = (s', match live n (content s k) with Some x => Ok x | None => Err ErrNotFound end) /\ kvOk s' /\
    forall k', content s' k' = content s k' \/ (k' = k /\ content s' k' = None /\ live n (content s k) = None);
  law_readWall s k : kvOk s -> exists n s',
    cGetWithExpiry k s = (s', match live n (content s k) with Some x => Ok x | None => Err ErrNotFound end) /\ kvOk s' /\
    forall k', content s' k' = content s k' \/ (k' = k /\ content s' k' = None /\ live n (content s k) = None);
  law_getAt s k n : cGetAt k n s = (x ← cGetWithExpiryAt k n; mret x.1) s;
  law_get s k : cGet k s = (x ← cGetWithExpiry k; mret x.1) s;
  (** A write stores the entry, or fails; other keys are lost to eviction or to a
      collision only. *)
  law_write s k v e : kvOk s -> fits 64 e ->
    match cPutAbs k v e s with
    | (s', Ok _) => kvOk s' /\ content s' k = Some (v, e) /\
        forall k', k' <> k -> content s' k' = content s k' \/ ((lossy \/ hash k' = hash k) /\ content s' k' = None)
    | (s', Err er) => refusal room k v er /\ kvOk s' /\ forall k', content s' k' = content s k' \/ (lossy /\ content s' k' = None)
    | (_, Panic) => False
    end;
  law_putAt s k v ttl n : kvOk s -> exists s1, cPutAt k v ttl n s = cPutAbs k v (Shard.expiryAtFrom ttl n) s1 /\ kvOk s1 /\
    forall k', content s1 k' = content s k';
  law_put s k v ttl : kvOk s -> exists n s1, cPut k v ttl s = cPutAbs k v (Shard.expiryAtFrom ttl n) s1 /\ kvOk s1 /\
    forall k', content s1 k' = content s k';
  law_del s k : kvOk s ->
    match cDel k s with
    | (s', Ok b) => kvOk s' /\ b = bool_decide (content s k <> None) /\ content s' k = None /\
        forall k', k' <> k -> content s' k' = content s k' \/ (lossy /\ content s' k' = None)
    | (s', Err er) => refusal room k [] er /\ kvOk s' /\ forall k', content s' k' = content s k' \/ (lossy /\ content s' k' = None)
    | (_, Panic) => False
    end;
  law_now s : kvOk s -> exists n s', cNowMs s = (s', Ok n) /\ kvOk s' /\ forall k, content s' k = content s k;
  law_flush s : kvOk s ->
    match cFlush s with
    | (s', Ok _) => kvOk s' /\ forall k, content s' k = None
    | (s', Err er) => er = ErrFlushNotDurable /\ kvOk s' /\ forall k, content s' k = content s k \/ content s' k = None
    | (_, Panic) => False
    end;
}.

(** ** The specification *)

Inductive request :=
| RPut (k v : bytes) (ttl : Z) | RDel (k : bytes) | RExpire (k : bytes) (ttl : Z) | RIncr (k : bytes) (d : Z)
| RSetNX (k v : bytes) (ttl : Z) | RCAS (k v : bytes) (expected : option bytes) (ttl : Z) | RCAD (k x : bytes)
| RGetDel (k : bytes) | RGetSet (k v : bytes) (ttl : Z) | RPersist (k : bytes)
| RIncrEx (k : bytes) (d ttl : Z) | RCAEX (k x : bytes) (ttl : Z).

Definition reqKey (r : request) : bytes :=
  match r with
  | RPut k _ _ | RDel k | RExpire k _ | RIncr k _ | RSetNX k _ _ | RCAS k _ _ _ | RCAD k _ | RGetDel k | RGetSet k _ _ | RPersist k
  | RIncrEx k _ _ | RCAEX k _ _ => k
  end.

Definition reqName (r : request) : string :=
  match r with
  | RPut _ _ _ => "put" | RDel _ => "del" | RExpire _ _ => "expire" | RIncr _ _ => "incr" | RSetNX _ _ _ => "set_nx" | RCAS _ _ _ _ => "cas"
  | RCAD _ _ => "cad" | RGetDel _ => "getdel" | RGetSet _ _ _ => "getset" | RPersist _ => "persist" | RIncrEx _ _ _ => "incr_ex"
  | RCAEX _ _ _ => "caex"
  end%string.

Definition reqArgs (r : request) : bytes :=
  match r with
  | RPut k v ttl | RSetNX k v ttl | RGetSet k v ttl => EncodePutArgs k v ttl
  | RDel k | RGetDel k | RPersist k => EncodeKeyArgs k
  | RExpire k ttl => EncodeExpireArgs k ttl
  | RIncr k d => EncodeIncrArgs k d
  | RCAS k v x ttl => EncodeCASArgs k v (bool_decide (x <> None)) (default [] x) ttl
  | RCAD k x => EncodeCADArgs k x
  | RIncrEx k d ttl => EncodeIncrExArgs k d ttl
  | RCAEX k x ttl => EncodeCAEXArgs k x ttl
  end.

(** Requests a frame can carry. *)
Definition reqOk (r : request) : Prop :=
  match r with
  | RPut k v ttl | RSetNX k v ttl | RGetSet k v ttl => keyFits k /\ valFits v /\ duration ttl
  | RDel k | RGetDel k | RPersist k => keyFits k
  | RExpire k ttl => keyFits k /\ duration ttl
  | RIncr k d => keyFits k /\ int64 d
  | RCAS k v x ttl => keyFits k /\ valFits v /\ optFits x /\ duration ttl
  | RCAD k x => keyFits k /\ valFits x
  | RIncrEx k d ttl => keyFits k /\ int64 d /\ duration ttl
  | RCAEX k x ttl => keyFits k /\ valFits x /\ duration ttl
  end.

Inductive action := Keep | Store (v : bytes) (e : Z) | Remove.

Definition counterOf (v : bytes) : Z := toInt (le_combine (reverse v)).
Definition deadline (now ttl : Z) : Z := Shard.expiryAtFrom (wholeMs ttl) now.
Definition flag (b : bool) : bytes := if b then one else zero.

(** The answer to a request and what becomes of its key, from the entry of the key. *)
Definition decide_ (now : Z) (r : request) (raw : entryOf) : outcome opErr bytes * action :=
  match r, live now raw with
  | RPut _ v ttl, _ => (Ok [], Store v (deadline now ttl))
  | RDel _, _ => (Ok (flag (bool_decide (raw <> None))), Remove)
  | RExpire _ ttl, Some (v, _) => (Ok [], Store v (deadline now ttl))
  | RExpire _ _, None => (Err (OCache ErrNotFound), Keep)
  | RIncr _ d, None => (Ok (EncodeIncrResult d), Store (counterBytes d) 0)
  | RIncr _ d, Some (v, _) =>
      if blen v =? 8 then let n := toInt (counterOf v + d) in (Ok (EncodeIncrResult n), Store (counterBytes n) 0) else (Err ONotCounter, Keep)
  | RSetNX _ v ttl, None => (Ok one, Store v (deadline now ttl))
  | RSetNX _ _ _, Some _ => (Ok zero, Keep)
  | RCAS _ v x ttl, cur => if bool_decide (fst <$> cur = x) then (Ok one, Store v (deadline now ttl)) else (Ok zero, Keep)
  | RCAD _ x, cur => if bool_decide (fst <$> cur = Some x) then (Ok one, Remove) else (Ok zero, Keep)
  | RGetDel _, Some (v, _) => (Ok (EncodeGetDelResult v true), Remove)
  | RGetDel _, None => (Ok (EncodeGetDelResult [] false), Keep)
  | RGetSet _ v ttl, cur => (Ok (EncodeGetDelResult (default [] (fst <$> cur)) (bool_decide (cur <> None))), Store v (deadline now ttl))
  | RPersist _, Some (v, e) => if e =? 0 then (Ok zero, Keep) else (Ok one, Store v 0)
  | RPersist _, None => (Ok zero, Keep)
  | RIncrEx _ d ttl, None => (Ok (EncodeIncrResult d), Store (counterBytes d) (deadline now ttl))
  | RIncrEx _ d _, Some (v, e) =>
      if blen v =? 8 then let n := toInt (counterOf v + d) in (Ok (EncodeIncrResult n), Store (counterBytes n) e) else (Err ONotCounter, Keep)
  | RCAEX _ x ttl, Some (v, _) => if bool_decide (v = x) then (Ok one, Store v (deadline now ttl)) else (Ok zero, Keep)
  | RCAEX _ _ _, None => (Ok zero, Keep)
  end.

Section Spec.
Context {S : Type} `{KVLaws S}.
#[local] Abbreviation T := (st S opErr).

(** What a read at [n] may change, and the map after an action. *)
Definition readRel (n : Z) (k : bytes) (s s' : S) : Prop :=
  kvOk s' /\ forall k', content s' k' = content s k' \/ (k' = k /\ content s' k' = None /\ live n (content s k) = None).

Definition applied (n : Z) (k : bytes) (act : action) (s s' : S) : Prop :=
  match act with
  | Keep => readRel n k s s'
  | Store v e => kvOk s' /\ content s' k = Some (v, e) /\
      forall k', k' <> k -> content s' k' = content s k' \/ ((lossy \/ hash k' = hash k) /\ content s' k' = None)
  | Remove => kvOk s' /\ content s' k = None /\ forall k', k' <> k -> content s' k' = content s k' \/ (lossy /\ content s' k' = None)
  end.

(** A write that failed changed nothing, evicted entries and the expired entry of the
    key apart. *)
Definition refused (n : Z) (k : bytes) (s s' : S) : Prop :=
  kvOk s' /\ forall k', content s' k' = content s k' \/ (content s' k' = None /\ (lossy \/ (k' = k /\ live n (content s k) = None))).

(** The value an action writes. *)
Definition written (act : action) : bytes := match act with Store v _ => v | _ => [] end.

(** The operation does what was decided, or its write fails. *)
Definition meets (n : Z) (k : bytes) (d : outcome opErr bytes * action) (s : S) (r : S * outcome opErr bytes) : Prop :=
  (r.2 = d.1 /\ applied n k d.2 s r.1) \/
  (d.2 <> Keep /\ exists e, refusal room k (written d.2) e /\ r.2 = Err (OCache e) /\ refused n k s r.1).

Lemma readRel_refl n k s : kvOk s -> readRel n k s s.
Proof. intros Hs. split; [done|]. by left. Qed.

Lemma readRel_trans n k s1 s2 s3 : readRel n k s1 s2 -> readRel n k s2 s3 -> readRel n k s1 s3.
Proof.
  intros [_ H1] [H3 H2]. split; [done|]. intros k'. destruct (H2 k') as [->|(-> & Hn & Hl)]; [apply H1|].
  right. split_and!; try done. destruct (H1 k) as [<-|(_ & _ & ?)]; done.
Qed.

Lemma live_read n k s s' : readRel n k s s' -> live n (content s' k) = live n (content s k).
Proof. intros [_ Hr]. destruct (Hr k) as [->|(_ & -> & ->)]; done. Qed.

Lemma present_read n k s s' x : readRel n k s s' -> live n (content s k) = Some x -> content s' k = content s k.
Proof. intros [_ Hr] Hx. destruct (Hr k) as [?|(_ & _ & ?)]; [done|congruence]. Qed.

(** *** Reads *)

Lemma getEntry_ok n k s : kvOk s -> exists s', txGetWithExpiry (MkTx true n) k s =
    (s', match live n (content s k) with Some x => Ok x | None => Err (OCache ErrNotFound) end) /\ readRel n k s s'.
Proof.
  intros Hs. destruct (law_read s k n Hs) as (s' & He & Hr). exists s'. unfold txGetWithExpiry, onCache. cbn [applyStamped applyNowMs].
  rewrite He. split; [by destruct (live n (content s k))|done].
Qed.

Lemma txGet_ok n k s : kvOk s -> exists s', txGet (MkTx true n) k s =
    (s', match live n (content s k) with Some (v, _) => Ok v | None => Err (OCache ErrNotFound) end) /\ readRel n k s s'.
Proof.
  intros Hs. destruct (law_read s k n Hs) as (s' & He & Hr). exists s'. unfold txGet, onCache. cbn [applyStamped applyNowMs].
  rewrite law_getAt. unfold mbind, st_bind. rewrite He. split; [by destruct (live n (content s k)) as [[v e]|]|done].
Qed.

Lemma found_get n k s : kvOk s -> exists s', found (txGet (MkTx true n) k) s = (s', Ok (fst <$> live n (content s k))) /\ readRel n k s s'.
Proof.
  intros Hs. destruct (txGet_ok n k s Hs) as (s' & He & Hr). exists s'. split; [|done]. unfold found, try, mbind, st_bind. rewrite He.
  by destruct (live n (content s k)) as [[v e]|].
Qed.

Lemma found_entry n k s : kvOk s -> exists s', found (txGetWithExpiry (MkTx true n) k) s = (s', Ok (live n (content s k))) /\ readRel n k s s'.
Proof.
  intros Hs. destruct (getEntry_ok n k s Hs) as (s' & He & Hr). exists s'. split; [|done]. unfold found, try, mbind, st_bind. rewrite He.
  by destruct (live n (content s k)) as [x|].
Qed.

(** *** Writes, after reads *)

Lemma stored_after n k v e s s1 s2 : readRel n k s s1 -> applied n k (Store v e) s1 s2 -> applied n k (Store v e) s s2.
Proof.
  intros [_ Hr] (Hok & Hk & Ho). split_and!; try done. intros k' Hne. destruct (Ho k' Hne) as [->|?]; [|by right].
  destruct (Hr k') as [?|(? & _)]; [by left|done].
Qed.

Lemma refused_after n k s s1 s2 : readRel n k s s1 -> (kvOk s2 /\ forall k', content s2 k' = content s1 k' \/ (lossy /\ content s2 k' = None)) -> refused n k s s2.
Proof.
  intros [_ Hr] [Hok Ho]. split; [done|]. intros k'. destruct (Ho k') as [->|[? ?]]; [|right; auto].
  destruct (Hr k') as [?|(-> & ? & ?)]; [by left|right; auto].
Qed.

Lemma putAbs_meets n k v e ans s s1 : kvOk s1 -> fits 64 e -> readRel n k s s1 ->
  meets n k (Ok ans, Store v e) s ((txPutAbs k v e;; mret ans) s1).
Proof.
  intros Hs He Hr. pose proof (law_write s1 k v e Hs He) as Hw. unfold meets, txPutAbs, onCache, mbind, st_bind.
  destruct (cPutAbs k v e s1) as [s2 [[]|er|]]; cbn [orErr fst snd]; [left|right|done].
  - split; [done|]. by eapply stored_after.
  - destruct Hw as (Hne & Hw). split; [done|]. exists er. split_and!; try done. by eapply refused_after.
Qed.

Lemma expiry_fits ttl n : fits 64 (Shard.expiryAtFrom ttl n).
Proof. unfold Shard.expiryAtFrom. destruct (_ <=? _); [done|]. by apply fits_wrap. Qed.

Lemma put_meets n k v ttl ans s s1 : readRel n k s s1 ->
  meets n k (Ok ans, Store v (Shard.expiryAtFrom ttl n)) s ((txPut (MkTx true n) k v ttl;; mret ans) s1).
Proof.
  intros Hr. destruct (law_putAt s1 k v ttl n (proj1 Hr)) as (s2 & He & Hs2 & Hc).
  assert (readRel n k s s2) as Hr2.
  { eapply readRel_trans; [done|]. split; [done|]. intros k'. left. apply Hc. }
  pose proof (putAbs_meets n k v _ ans s s2 Hs2 (expiry_fits ttl n) Hr2) as Hm.
  unfold txPut, txPutAbs, onCache, mbind, st_bind in *. cbn [applyStamped applyNowMs]. by rewrite He.
Qed.

Lemma del_meets n k (f : bool -> bytes) ans s s1 : readRel n k s s1 -> f (bool_decide (content s1 k <> None)) = ans ->
  meets n k (Ok ans, Remove) s ((b ← txDel k; mret (f b)) s1).
Proof.
  intros Hr Hf. pose proof (law_del s1 k (proj1 Hr)) as Hw. unfold meets, txDel, onCache, mbind, st_bind.
  destruct (cDel k s1) as [s2 [b|er|]]; cbn [orErr fst snd]; [left|right|done].
  - destruct Hw as (Hok & -> & Hn & Ho). rewrite Hf. split; [done|]. split_and!; try done.
    cbn. intros k' Hne. destruct (Ho k' Hne) as [->|?]; [|by right]. destruct (proj2 Hr k') as [?|(? & _)]; [by left|done].
  - destruct Hw as (Hne & Hw). split; [done|]. exists er. split_and!; try done. by eapply refused_after.
Qed.

Lemma keep_meets n k o s s1 : readRel n k s s1 -> meets n k (o, Keep) s (s1, o).
Proof. by left. Qed.

Lemma decode_ok {A B} (o : outcome werr A) a (k : A -> T B) s : o = Ok a -> (decode o ≫= k) s = k a s.
Proof. by intros ->. Qed.

Lemma expire_meets n k ttl ans s s1 : readRel n k s s1 -> meets n k
    (match live n (content s k) with Some (v, _) => (Ok ans, Store v (Shard.expiryAtFrom ttl n)) | None => (Err (OCache ErrNotFound), Keep) end)
    s ((txExpire (MkTx true n) k ttl;; mret ans) s1).
Proof.
  intros Hr. destruct (txGet_ok n k s1 (proj1 Hr)) as (s2 & He & Hr2). pose proof (readRel_trans _ _ _ _ _ Hr Hr2) as Hr3.
  rewrite (live_read _ _ _ _ Hr) in He. unfold txExpire. rewrite bind_assoc. destruct (live n (content s k)) as [[v e]|].
  - rewrite (bind_ok _ _ _ _ _ He). by apply put_meets.
  - rewrite (bind_err _ _ _ _ _ He). by apply keep_meets.
Qed.

(** *** Every operation *)

Lemma counter_read (v : bytes) : (blen v =? 8) = true -> be_get (E:=opErr) 8 v = Ok (le_combine (reverse v)).
Proof. intros Hv%Z.eqb_eq. rewrite be_get_in by lia. rewrite take_ge; [done|]. unfold blen in Hv. lia. Qed.

Lemma incr_meets n s k d : kvOk s -> keyFits k -> int64 d ->
  meets n k (decide_ n (RIncr k d) (content s k)) s (handleIncr (MkTx true n) (EncodeIncrArgs k d) s).
Proof.
  intros Hs Hk Hd. unfold handleIncr. rewrite (decode_ok _ _ _ _ (DecodeIncrArgs_enc k d Hk Hd)). cbv beta iota.
  destruct (found_get n k s Hs) as (s1 & He & Hr). rewrite (bind_ok _ _ _ _ _ He). cbn [decide_]. destruct (live n (content s k)) as [[v e]|]; cbn [fmap option_fmap option_map fst].
  - destruct (blen v =? 8) eqn:Ev; cbn [negb]; [|by apply keep_meets].
    rewrite bind_assoc, (bind_lift _ _ _ _ (counter_read v Ev)). by apply (put_meets n k _ 0).
  - cbn [mbind]. rewrite (bind_ok (mret 0) _ s1 s1 0 eq_refl). rewrite Z.add_0_l, (toInt_id d) by done. by apply (put_meets n k _ 0).
Qed.

Lemma incrEx_meets n s k d ttl : kvOk s -> keyFits k -> int64 d -> duration ttl ->
  meets n k (decide_ n (RIncrEx k d ttl) (content s k)) s (handleIncrEx (MkTx true n) (EncodeIncrExArgs k d ttl) s).
Proof.
  intros Hs Hk Hd Ht. unfold handleIncrEx. rewrite (decode_ok _ _ _ _ (DecodeIncrExArgs_enc k d ttl Hk Hd Ht)). cbv beta iota.
  destruct (found_entry n k s Hs) as (s1 & He & Hr). rewrite (bind_ok _ _ _ _ _ He). cbn [decide_]. destruct (live n (content s k)) as [[v e]|] eqn:El.
  - destruct (blen v =? 8) eqn:Ev; cbn [negb]; [|by apply keep_meets].
    rewrite (bind_lift _ _ _ _ (counter_read v Ev)). apply putAbs_meets; [apply Hr| |done].
    apply (law_fits s k v e Hs). unfold live in El. destruct (content s k) as [[v' e']|]; [|done]. by destruct (Shard.isExpired e' n).
  - by apply put_meets.
Qed.

Lemma cas_meets n s k v x ttl : kvOk s -> keyFits k -> valFits v -> optFits x -> duration ttl ->
  meets n k (decide_ n (RCAS k v x ttl) (content s k)) s
    (handleCAS (MkTx true n) (EncodeCASArgs k v (bool_decide (x <> None)) (default [] x) ttl) s).
Proof.
  intros Hs Hk Hv Hx Ht. assert (valFits (default [] x)) as Hd by (destruct x as [x|]; [by apply Hx|by vm_compute]).
  unfold handleCAS. rewrite (decode_ok _ _ _ _ (DecodeCASArgs_enc k v _ _ ttl Hk Hv Hd Ht)). cbv beta iota.
  destruct (found_get n k s Hs) as (s1 & He & Hr). rewrite (bind_ok _ _ _ _ _ He). cbn [decide_].
  match goal with |- meets _ _ (if ?b then _ else _) _ ((if ?c then _ else _) _) => assert (c = negb b) as -> end.
  { destruct (live n (content s k)) as [[c e]|], x as [x|]; cbn; try done. change (default [] (Some x)) with x.
    destruct (decide (c = x)) as [->|Hne]; [by rewrite !bool_decide_true by done|]. by rewrite !bool_decide_false by congruence. }
  destruct (bool_decide _); cbn [negb]; [by apply put_meets|by apply keep_meets].
Qed.

Lemma cad_meets n s k x : kvOk s -> keyFits k -> valFits x ->
  meets n k (decide_ n (RCAD k x) (content s k)) s (handleCompareAndDel (MkTx true n) (EncodeCADArgs k x) s).
Proof.
  intros Hs Hk Hx. unfold handleCompareAndDel. rewrite (decode_ok _ _ _ _ (DecodeCADArgs_enc k x Hk Hx)). cbv beta iota.
  destruct (found_get n k s Hs) as (s1 & He & Hr). rewrite (bind_ok _ _ _ _ _ He). cbn [decide_].
  destruct (live n (content s k)) as [[c e]|] eqn:El; cbn [fmap option_fmap option_map fst]; [|by apply keep_meets].
  destruct (decide (c = x)) as [->|Hne].
  - rewrite !bool_decide_true by done. cbn [negb]. apply (del_meets n k flag one s s1 Hr).
    rewrite (present_read _ _ _ _ _ Hr El). unfold live in El. by destruct (content s k) as [[v' e']|].
  - rewrite !bool_decide_false by congruence. by apply keep_meets.
Qed.

Lemma getdel_meets n s k : kvOk s -> keyFits k ->
  meets n k (decide_ n (RGetDel k) (content s k)) s (handleGetDel (MkTx true n) (EncodeKeyArgs k) s).
Proof.
  intros Hs Hk. unfold handleGetDel. rewrite (decode_ok _ _ _ _ (DecodeKeyArgs_enc k Hk)).
  destruct (found_get n k s Hs) as (s1 & He & Hr). rewrite (bind_ok _ _ _ _ _ He). cbn [decide_].
  destruct (live n (content s k)) as [[c e]|] eqn:El; cbn [fmap option_fmap option_map fst]; [|by apply keep_meets].
  by apply (del_meets n k (fun _ => EncodeGetDelResult c true) _ s s1 Hr eq_refl).
Qed.

Lemma persist_meets n s k : kvOk s -> keyFits k ->
  meets n k (decide_ n (RPersist k) (content s k)) s (handlePersist (MkTx true n) (EncodeKeyArgs k) s).
Proof.
  intros Hs Hk. unfold handlePersist. rewrite (decode_ok _ _ _ _ (DecodeKeyArgs_enc k Hk)).
  destruct (found_entry n k s Hs) as (s1 & He & Hr). rewrite (bind_ok _ _ _ _ _ He). cbn [decide_].
  destruct (live n (content s k)) as [[v e]|]; [|by apply keep_meets]. destruct (e =? 0); [by apply keep_meets|].
  apply putAbs_meets; [apply Hr|done|done].
Qed.

Lemma caex_meets n s k x ttl : kvOk s -> keyFits k -> valFits x -> duration ttl ->
  meets n k (decide_ n (RCAEX k x ttl) (content s k)) s (handleCAEX (MkTx true n) (EncodeCAEXArgs k x ttl) s).
Proof.
  intros Hs Hk Hx Ht. unfold handleCAEX. rewrite (decode_ok _ _ _ _ (DecodeCAEXArgs_enc k x ttl Hk Hx Ht)). cbv beta iota.
  destruct (found_get n k s Hs) as (s1 & He & Hr). rewrite (bind_ok _ _ _ _ _ He). cbn [decide_].
  pose proof (expire_meets n k (wholeMs ttl) one s s1 Hr) as Hm.
  destruct (live n (content s k)) as [[c e]|]; cbn [fmap option_fmap option_map fst]; [|by apply keep_meets].
  destruct (bool_decide (c = x)); [done|by apply keep_meets].
Qed.

Lemma op_meets n s r : kvOk s -> reqOk r -> exists h, Lookup (reqName r) builtinHandlers = Some (OpReadWrite, h) /\
  meets n (reqKey r) (decide_ n r (content s (reqKey r))) s (h (MkTx true n) (reqArgs r) s).
Proof.
  intros Hs Hr. destruct r as [k v ttl|k|k ttl|k d|k v ttl|k v x ttl|k x|k|k v ttl|k|k d ttl|k x ttl]; cbn [reqOk reqKey reqArgs reqName] in *;
    (eexists; split; [reflexivity|]); try (destruct Hr as (Hk & Hr)).
  - unfold handlePut. rewrite (decode_ok _ _ _ _ (DecodePutArgs_enc k v ttl Hk (proj1 Hr) (proj2 Hr))). by apply put_meets, readRel_refl.
  - unfold handleDel. rewrite (decode_ok _ _ _ _ (DecodeKeyArgs_enc k Hr)). apply (del_meets n k flag _ s s (readRel_refl n k s Hs) eq_refl).
  - unfold handleExpire. rewrite (decode_ok _ _ _ _ (DecodeExpireArgs_enc k ttl Hk Hr)). cbv beta iota.
    pose proof (expire_meets n k (wholeMs ttl) [] s s (readRel_refl n k s Hs)) as Hm. cbn [decide_]. by destruct (live n (content s k)) as [[v e]|].
  - by apply incr_meets.
  - unfold handleSetNX. rewrite (decode_ok _ _ _ _ (DecodePutArgs_enc k v ttl Hk (proj1 Hr) (proj2 Hr))). cbv beta iota.
    destruct (found_get n k s Hs) as (s1 & He & Hr1). rewrite (bind_ok _ _ _ _ _ He). cbn [decide_].
    destruct (live n (content s k)) as [[c e]|]; [by apply keep_meets|by apply put_meets].
  - by apply cas_meets; destruct_and?.
  - by apply cad_meets.
  - by apply getdel_meets.
  - unfold handleGetSet. rewrite (decode_ok _ _ _ _ (DecodePutArgs_enc k v ttl Hk (proj1 Hr) (proj2 Hr))). cbv beta iota.
    destruct (found_get n k s Hs) as (s1 & He & Hr1). rewrite (bind_ok _ _ _ _ _ He). cbn [decide_].
    destruct (live n (content s k)) as [[c e]|]; by apply put_meets.
  - by apply persist_meets.
  - by apply incrEx_meets; destruct_and?.
  - by apply caex_meets; destruct_and?.
Qed.

End Spec.

(** ** The map after a request *)

(** Two maps a read from [t] on cannot tell apart. *)
Definition agree (t : Z) (m m' : kvmap) : Prop := forall k, live t (m k) = live t (m' k).

#[export] Instance agree_equivalence t : Equivalence (agree t).
Proof. split; [by intros m k|by intros m m' Hm k|intros m1 m2 m3 H1 H2 k; by rewrite H1]. Qed.

Definition after (hash : bytes -> Z) (k : bytes) (act : action) (m : kvmap) : kvmap :=
  match act with
  | Keep => m
  | Store v e => fun k' => if bool_decide (k' = k) then Some (v, e) else if hash k' =? hash k then None else m k'
  | Remove => fun k' => if bool_decide (k' = k) then None else m k'
  end.

(** What a request does to a map that nothing but requests changes. *)
Definition specApply (hash : bytes -> Z) (n : Z) (r : request) (m : kvmap) : kvmap :=
  after hash (reqKey r) (decide_ n r (m (reqKey r))).2 m.

Lemma live_later t n x : t <= n -> live n (live t x) = live n x.
Proof.
  intros Ht. destruct x as [[v e]|]; [|done]. cbn. destruct (Shard.isExpired e t) eqn:Et; [|done]. cbn.
  unfold Shard.isExpired in *. apply andb_true_iff in Et as [-> Et%Z.leb_le]. rewrite (proj2 (Z.leb_le _ _)) by lia. done.
Qed.

Lemma agree_later t n m m' : t <= n -> agree t m m' -> agree n m m'.
Proof. intros Ht Hm k. rewrite <- (live_later t n), (Hm k) by done. by apply live_later. Qed.

(** [m] is [m'] but for entries that had expired at [t] and were dropped. *)
Definition stands (t : Z) (m m' : kvmap) : Prop := forall k, m k = m' k \/ (m k = None /\ live t (m' k) = None).

Lemma stands_refl t m : stands t m m.
Proof. by left. Qed.

Lemma stands_agree t m m' : stands t m m' -> agree t m m'.
Proof. intros Hm k. by destruct (Hm k) as [->|[-> ->]]. Qed.

Lemma stands_later t n m m' : t <= n -> stands t m m' -> stands n m m'.
Proof. intros Ht Hm k. destruct (Hm k) as [->|[-> He]]; [by left|]. right. split; [done|]. by rewrite <- (live_later t n), He. Qed.

(** Only the live entry matters, except to the answer of a delete. *)
Definition isDel (r : request) : Prop := match r with RDel _ => True | _ => False end.

Lemma decide_live n r x y : live n x = live n y -> (decide_ n r x).2 = (decide_ n r y).2 /\ (~ isDel r -> (decide_ n r x).1 = (decide_ n r y).1).
Proof. intros Hl. destruct r; cbn [decide_ isDel]; rewrite ?Hl; done. Qed.

Section Map.
Context {S : Type} `{KVLaws S}.

Lemma applied_after n k act s s' m : ~ lossy -> kvOk s' -> applied n k act s s' -> stands n (content s) m -> stands n (content s') (after hash k act m).
Proof.
  intros Hl Hok Ha Hm k'. destruct act as [|v e|]; cbn [after].
  - destruct Ha as [_ Ha]. destruct (Ha k') as [->|(-> & -> & He)]; [apply Hm|]. right. split; [done|]. by rewrite <- (stands_agree _ _ _ Hm).
  - destruct Ha as (_ & Hk & Ho). destruct (decide (k' = k)) as [->|Hne]; [left; by rewrite bool_decide_true, Hk|]. rewrite bool_decide_false by done.
    destruct (Z.eqb_spec (hash k') (hash k)) as [Hh|Hh].
    + left. rewrite (law_hash s' k k' Hok); [done|by rewrite Hk|done|done].
    + destruct (Ho k' Hne) as [->|[[?|?] _]]; [apply Hm|done|done].
  - destruct Ha as (_ & Hk & Ho). destruct (decide (k' = k)) as [->|Hne]; [left; by rewrite bool_decide_true, Hk|]. rewrite bool_decide_false by done.
    destruct (Ho k' Hne) as [->|[? _]]; [apply Hm|done].
Qed.

Lemma refused_after_all n k s s' m : ~ lossy -> refused n k s s' -> stands n (content s) m -> stands n (content s') m.
Proof.
  intros Hl [_ Hr] Hm k'. destruct (Hr k') as [->|(-> & [?|[-> He]])]; [apply Hm|done|]. right. split; [done|]. by rewrite <- (stands_agree _ _ _ Hm).
Qed.

(** The answer on a store that stands for [m] is that of [m], except that the delete of
    an expired entry may find none. *)
Definition answersAs (n : Z) (r : request) (x : option (bytes * Z)) (o : outcome opErr bytes) : Prop :=
  o = (decide_ n r x).1 \/ (isDel r /\ live n x = None /\ o = (decide_ n r None).1).

Lemma decide_stands n s r m : stands n (content s) m -> answersAs n r (m (reqKey r)) (decide_ n r (content s (reqKey r))).1.
Proof.
  intros Hm. destruct (decide_live n r _ _ (stands_agree _ _ _ Hm (reqKey r))) as [_ Hd]. destruct (Hm (reqKey r)) as [->|[Hc He]]; [by left|].
  destruct r; try (left; apply Hd; by intros []). right. rewrite Hc. by split_and!.
Qed.

(** One request on a store that stands for [m]. *)
Lemma request_stands t n s r m : ~ lossy -> kvOk s -> reqOk r -> stands t (content s) m -> t <= n ->
  exists h, Lookup (reqName r) builtinHandlers = Some (OpReadWrite, h) /\ let (s', o) := h (MkTx true n) (reqArgs r) s in kvOk s' /\
    ((o = (decide_ n r (content s (reqKey r))).1 /\ stands n (content s') (specApply hash n r m)) \/
     exists e, refusal room (reqKey r) (written (decide_ n r (m (reqKey r))).2) e /\ o = Err (OCache e) /\ stands n (content s') m).
Proof.
  intros Hl Hs Hr Hm Ht. apply (stands_later t n) in Hm; [|done]. destruct (op_meets n s r Hs Hr) as (h & Hh & Hmeet). exists h. split; [done|].
  destruct (h _ _ s) as [s' o]. destruct (decide_live n r _ _ (stands_agree _ _ _ Hm (reqKey r))) as [Hact _]. unfold specApply. rewrite <- Hact.
  destruct Hmeet as [[Ho Ha]|(_ & e & He & Ho & Href)]; cbn [fst snd] in *.
  - assert (kvOk s') as Hok by (destruct (decide_ n r _).2; apply Ha). split; [done|]. left. split; [done|]. by apply (applied_after n (reqKey r) _ s).
  - split; [apply Href|]. right. exists e. split_and!; try done. by eapply refused_after_all.
Qed.

End Map.
