(* ===== verification/CacheProps.v ===== *)
(** * The cache keeps the promises the operations rely on. *)
From S2P Require Import Prelude CacheConfig SipHash Entry Page IndexTable Shard ShardInv ShardGet ShardPut ShardRoom ShardEvict ShardFit ShardWrite ShardProps CacheFile Cache Wire KVWire KVWireProps KVOps KVSpec.
Import Entry Page IndexTable Shard.

(** ** One shard *)

Section Shard.
Context (hashKey : bytes -> Z) (Hhash : forall k, fits 64 (hashKey k)).
Context (w : world) (cfg : Config) (Hcfg : cfg_ok cfg) (Hpol : AtCapPolicy cfg = PolicyRingbufEvict \/ AtCapPolicy cfg = PolicyRejectWrites).
#[local] Abbreviation shard_ok := (shard_ok hashKey cfg).
#[local] Abbreviation lookup := (lookup hashKey).

(** The invariant is kept, and the kind of the shard. *)
Definition stays (s s' : shard) : Prop := shard_ok s' /\ isMmap s' = isMmap s.

Lemma stays_trans s1 s2 s3 : stays s1 s2 -> stays s2 s3 -> stays s1 s3.
Proof. intros [_ H1] [H2 H3]. split; [done|congruence]. Qed.

Lemma evo_stays P s s' : evo hashKey cfg P s s' -> stays s s'.
Proof. intros He. split; [by eapply ev_ok|by eapply ev_mmap]. Qed.

Lemma lookup_ref s k x : shard_ok s -> lookup s k = Some x ->
  exists ref r, abs (tab s) !! hashKey k = Some ref /\ ref_to hashKey (pages s) (hashKey k) ref r /\ ekey r = k /\ x = (evalue r, eexp r).
Proof.
  intros Hok. unfold ShardInv.lookup, lookup_in. destruct (abs (tab s) !! hashKey k) as [ref|] eqn:Ea; [|done].
  destruct (ok_index _ _ s Hok _ _ Ea) as (r & Hr). rewrite (ref_to_rec _ _ _ _ _ Hr). destruct (bool_decide _) eqn:Ek; [|done].
  apply bool_decide_eq_true in Ek. intros [= <-]. by exists ref, r.
Qed.

Lemma lookup_fits s k v e : shard_ok s -> lookup s k = Some (v, e) -> fits 64 e.
Proof.
  intros Hok Hl. destruct (lookup_ref s k _ Hok Hl) as (ref & r & _ & (_ & p & _ & _ & Hin & _) & _ & [= -> ->]).
  destruct (entry_in_framed _ _ _ Hin) as [Hf _]. destruct Hf as (Hr & _). apply Hr.
Qed.

Lemma lookup_hash s k k' : shard_ok s -> lookup s k <> None -> k' <> k -> hashKey k' = hashKey k -> lookup s k' = None.
Proof.
  intros Hok Hl Hne Hh. destruct (lookup s k) as [x|] eqn:El; [|done]. destruct (lookup s k') as [y|] eqn:El'; [|done].
  destruct (lookup_ref s k x Hok El) as (ref & r & Ha & Hr & Hk & _). destruct (lookup_ref s k' y Hok El') as (ref' & r' & Ha' & Hr' & Hk' & _).
  rewrite Hh in Ha', Hr'. rewrite Ha in Ha'. injection Ha' as <-. destruct (ref_to_inj _ _ _ _ _ _ _ Hr Hr') as [<- _]. congruence.
Qed.

Lemma getCore_live s k n allow : shard_ok s -> exists s',
  getCore cfg k (hashKey k) n allow s = (s', match KVSpec.live n (lookup s k) with Some x => Ok x | None => Err ErrNotFound end) /\ stays s s' /\
  forall k', lookup s' k' = lookup s k' \/ (k' = k /\ lookup s' k' = None /\ KVSpec.live n (lookup s k) = None).
Proof.
  intros Hok. pose proof (getCore_ok hashKey Hhash cfg s k n allow Hok) as H. unfold wp in H.
  destruct (getCore _ _ _ _ _ s) as [s' [x|er|]]; simpl in H; [| |done]; exists s'.
  - destruct H as (He & v & e & Hl & -> & Hx). rewrite Hl. cbn. rewrite Hx. split; [done|]. split; [by eapply evo_stays|].
    intros k'. left. by apply (evo_nokey_lookup _ _ _ _ _ He).
  - destruct H as (-> & He & Hm). assert (KVSpec.live n (lookup s k) = None) as Hn.
    { unfold KVSpec.live. destruct (lookup s k) as [[v e]|]; [by rewrite Hm|done]. }
    rewrite Hn. split; [done|]. split; [by eapply evo_stays|]. intros k'. destruct (ev_lookup _ _ _ _ _ He k') as [?|[-> ?]]; auto.
Qed.

Lemma room_refusal s k v e : room_err cfg s (entrySpanExact (blen k) (blen v)) e -> refusal (PageSize cfg - pageHdrSize) k v e.
Proof.
  unfold refusal, fullErr, room_err, maxEntryBytes. intros [[-> Hr]|[(_ & _ & [->| ->])|[[_ ->]|[[n Hn] _]]]]; auto.
  - right. left. split; [done|]. unfold pageHdrSize in *. destruct (isMmap s); lia.
  - destruct Hpol; congruence.
Qed.

Lemma put_entry s k v e : shard_ok s -> fits 64 e ->
  match putAbsH hashKey w cfg k v e (hashKey k) s with
  | (s', Ok _) => stays s s' /\ lookup s' k = Some (v, e) /\
      forall k', k' <> k -> lookup s' k' = lookup s k' \/ ((AtCapPolicy cfg = PolicyRingbufEvict \/ hashKey k' = hashKey k) /\ lookup s' k' = None)
  | (s', Err er) => refusal (PageSize cfg - pageHdrSize) k v er /\ stays s s' /\ forall k', lookup s' k' = lookup s k' \/ (AtCapPolicy cfg = PolicyRingbufEvict /\ lookup s' k' = None)
  | (_, Panic) => False
  end.
Proof.
  intros Hok He. pose proof (put_ok hashKey Hhash w cfg Hcfg s k v e Hok He) as H. unfold wp in H. unfold putAbsH.
  destruct (putAtExpLocked _ _ _ _ _ _ _ s) as [s' [[]|er|]]; simpl in H; [| |done].
  - by destruct H as [H1 H2 _ H4 H5].
  - destruct H as [Hev Her]. split; [|split; [by eapply evo_stays|exact (ev_lookup _ _ _ _ _ Hev)]].
    destruct Her as [Her|[-> ?]]; [by eapply room_refusal|right; by right].
Qed.

Lemma del_entry s k : shard_ok s ->
  match delH hashKey w cfg k (hashKey k) s with
  | (s', Ok b) => stays s s' /\ b = bool_decide (lookup s k <> None) /\ lookup s' k = None /\
      forall k', k' <> k -> lookup s' k' = lookup s k' \/ (AtCapPolicy cfg = PolicyRingbufEvict /\ lookup s' k' = None)
  | (s', Err er) => refusal (PageSize cfg - pageHdrSize) k [] er /\ stays s s' /\ forall k', lookup s' k' = lookup s k' \/ (AtCapPolicy cfg = PolicyRingbufEvict /\ lookup s' k' = None)
  | (_, Panic) => False
  end.
Proof.
  intros Hok. pose proof (delete_ok hashKey Hhash w cfg Hcfg s k Hok) as H. unfold wp in H.
  destruct (delH _ _ _ _ _ s) as [s' [b|er|]]; simpl in H; [| |done].
  - destruct H as (He & Hn & -> & _). split; [by eapply evo_stays|]. split_and!; try done.
    intros k' Hne. destruct (ev_lookup _ _ _ _ _ He k') as [?|[[?|?] ?]]; auto. done.
  - destruct H as (He & _ & _ & Her). split; [|split; [by eapply evo_stays|exact (ev_lookup _ _ _ _ _ He)]].
    by eapply room_refusal.
Qed.

(** The clock and the logical clock are not part of the map. *)
Lemma calls_quiet s n : shard_ok s -> stays s (setCalls s n) /\ forall k, lookup (setCalls s n) k = lookup s k.
Proof. intros Hok. split; [|done]. split; [|done]. apply (shard_ok_ext _ _ s); try done; apply Hok. Qed.

Lemma stamp_quiet s n : shard_ok s -> let s' := (advanceAppliedStamp n s).1 in
  advanceAppliedStamp n s = (s', Ok tt) /\ stays s s' /\ forall k, lookup s' k = lookup s k.
Proof.
  intros Hok. unfold advanceAppliedStamp, modify. cbn [fst]. destruct (n <=? lastAppliedStampMs s); (split; [done|]; split; [|done]); (split; [|done]); [done|].
  apply (shard_ok_ext _ _ s); try done; apply Hok.
Qed.

Lemma flushed_ok s fl : shard_ok s -> stays s (Cache.setFlushed s fl) /\ forall k, lookup (Cache.setFlushed s fl) k = None.
Proof.
  intros Hok. destruct (newIndexTable_ok 0) as (Hw & Ha & _); [lia|]. split; [|intros k; unfold ShardInv.lookup, lookup_in; cbn [Cache.setFlushed tab]; by rewrite Ha].
  split; [|done]. split; cbn [Cache.setFlushed tab pages isMmap writeIdx nextVictim genCounter]; try apply Hok; [done|reflexivity|]. intros h ref. by rewrite Ha.
Qed.

End Shard.

(** ** The cache *)

Section Cache.
Context (hashKey : bytes -> Z) (Hhash : forall k, fits 64 (hashKey k)).
Context (ws : nat -> world) (cfg : Config) (Hcfg : cfg_ok cfg) (Hpol : AtCapPolicy cfg = PolicyRingbufEvict \/ AtCapPolicy cfg = PolicyRejectWrites).
Context (nbits : Z) (Hbits : 0 <= nbits < 64) (Hshards : NumShards cfg = 2 ^ nbits).
Context (mm : bool).
#[local] Abbreviation shard_ok := (shard_ok hashKey cfg).
#[local] Abbreviation lookup := (lookup hashKey).
#[local] Abbreviation stays := (stays hashKey cfg).
#[local] Abbreviation shardForH := (Cache.shardForH hashKey ws cfg).

(** The number of the shard of a key. *)
Definition cellOf (k : bytes) : nat := Z.to_nat (Z.land (hashKey k) (Cache.mask cfg)).

(** The shards are all mapped or none is; a mapped one has the header of its file. *)
Record cell_ok (s : Cache.cshard) : Prop := {
  ce_shard : shard_ok (Cache.core s);
  ce_kind : isMmap (Cache.core s) = mm;
  ce_hdr : isMmap (Cache.core s) = true -> blen (Cache.hdr s) = CacheFile.headerSize;
  ce_idx : 0 <= Cache.appliedIndex s < 2 ^ 64;
}.

Lemma cell_stays s s' : cell_ok s -> stays (Cache.core s) s' -> cell_ok (Cache.setCore s s').
Proof. intros [H1 Hk H2 H3] [H4 H5]. split; cbn; [done|congruence|by rewrite H5|done]. Qed.

(** A key is in no shard but its own. *)
Record cache_ok (c : Cache.Cache) : Prop := {
  ca_len : length (Cache.shards c) = Z.to_nat (NumShards cfg);
  ca_shards : Forall cell_ok (Cache.shards c);
  ca_placed : forall i s k, Cache.shards c !! i = Some s -> lookup (Cache.core s) k <> None -> cellOf k = i;
}.

(** No key but [k] is new in [s']. *)
Definition onlyNew (k : bytes) (s s' : shard) : Prop := forall k', lookup s' k' <> None -> k' = k \/ lookup s k' <> None.

Lemma onlyNew_of k s s' : (forall k', k' <> k -> lookup s' k' = lookup s k' \/ lookup s' k' = None) -> onlyNew k s s'.
Proof. intros H k' Hk'. destruct (decide (k' = k)) as [->|Hne]; [by left|]. right. by destruct (H k' Hne) as [<-|?]. Qed.

Definition cacheContent (c : Cache.Cache) : kvmap := fun k =>
  match Cache.shards c !! cellOf k with Some s => lookup (Cache.core s) k | None => None end.

(** The cells changed, but no key is new. *)
Lemma cells_ok c l : cache_ok c -> Forall2 (fun s s' => cell_ok s' /\ forall k, lookup (Cache.core s') k <> None -> lookup (Cache.core s) k <> None) (Cache.shards c) l ->
  cache_ok (Cache.MkCache l).
Proof.
  intros [Hl Hf Hp] Hr. split; cbn; [by rewrite <- (Forall2_length _ _ _ Hr)|apply Forall_lookup; intros i s' Hs'; by destruct (Forall2_lookup_r _ _ _ _ _ Hr Hs') as (s & _ & ? & _)|].
  intros i s' k Hs' Hk. destruct (Forall2_lookup_r _ _ _ _ _ Hr Hs') as (s & Hs & _ & Hn). by apply (Hp i s); [|apply Hn].
Qed.

(** Cells that hold the same entries. *)
Lemma same_cells c l : cache_ok c -> Forall2 (fun s s' => cell_ok s' /\ forall k, lookup (Cache.core s') k = lookup (Cache.core s) k) (Cache.shards c) l ->
  cache_ok (Cache.MkCache l) /\ forall k, cacheContent (Cache.MkCache l) k = cacheContent c k.
Proof.
  intros Hc Hl. split.
  - apply (cells_ok c); [done|]. eapply Forall2_impl; [exact Hl|]. intros s s' [H1 H2]. split; [done|]. intros k. by rewrite H2.
  - intros k. unfold cacheContent. cbn [Cache.shards]. destruct (Cache.shards c !! cellOf k) as [s|] eqn:Es.
    + destruct (Forall2_lookup_l _ _ _ _ _ Hl Es) as (s' & -> & Hk). apply Hk.
    + apply lookup_ge_None in Es. rewrite (Forall2_length _ _ _ Hl) in Es. by rewrite (proj2 (lookup_ge_None _ _) Es).
Qed.

Lemma mask_eq : Cache.mask cfg = Z.ones nbits.
Proof.
  unfold Cache.mask. rewrite Hshards, Z.ones_equiv. apply wrap_fits. pose proof (Z.pow_pos_nonneg 2 nbits ltac:(lia) ltac:(lia)).
  pose proof (Z.pow_lt_mono_r 2 nbits 64 ltac:(lia) ltac:(lia)). unfold fits. lia.
Qed.

Lemma cellOf_lt k : (cellOf k < Z.to_nat (NumShards cfg))%nat.
Proof.
  unfold cellOf. rewrite mask_eq, Z.land_ones, Hshards by lia. pose proof (Z.mod_pos_bound (hashKey k) (2 ^ nbits) ltac:(apply Z.pow_pos_nonneg; lia)). lia.
Qed.

Lemma cellOf_hash k k' : hashKey k' = hashKey k -> cellOf k' = cellOf k.
Proof. unfold cellOf. by intros ->. Qed.

(** The cell of a key, and the map of a cache in which one cell changed. *)
Lemma cell_of c k : cache_ok c -> exists s, Cache.shards c !! cellOf k = Some s /\ cell_ok s.
Proof.
  intros [Hl Hf _]. destruct (lookup_lt_is_Some_2 (Cache.shards c) (cellOf k)) as [s Hs]; [rewrite Hl; apply cellOf_lt|].
  exists s. split; [done|]. exact (Forall_lookup_1 _ _ _ _ Hf Hs).
Qed.

Lemma cell_update c k s s' : cache_ok c -> Cache.shards c !! cellOf k = Some s -> cell_ok s' -> onlyNew k (Cache.core s) (Cache.core s') ->
  let c' := Cache.MkCache (<[cellOf k := s']> (Cache.shards c)) in
  cache_ok c' /\ forall k', cacheContent c' k' = if bool_decide (cellOf k' = cellOf k) then lookup (Cache.core s') k' else cacheContent c k'.
Proof.
  intros [Hl Hf Hp] Hs Hok Hn. split.
  - split; cbn; [by rewrite length_insert|by apply Forall_insert|]. intros i s0 k' Hi Hk'. destruct (decide (i = cellOf k)) as [->|Hne].
    + rewrite list_lookup_insert_eq in Hi by (rewrite Hl; apply cellOf_lt). injection Hi as <-. destruct (Hn k' Hk') as [->|?]; [done|]. by eapply Hp.
    + rewrite list_lookup_insert_ne in Hi by done. by eapply Hp.
  - intros k'. unfold cacheContent. cbn. destruct (decide (cellOf k' = cellOf k)) as [->|Hne].
    + rewrite bool_decide_true by done. by rewrite list_lookup_insert_eq by (rewrite Hl; apply cellOf_lt).
    + rewrite bool_decide_false by done. by rewrite list_lookup_insert_ne.
Qed.

Lemma content_cell c k s : Cache.shards c !! cellOf k = Some s -> forall k', cellOf k' = cellOf k -> cacheContent c k' = lookup (Cache.core s) k'.
Proof. intros Hs k' Hk. unfold cacheContent. by rewrite Hk, Hs. Qed.

(** A method on the shard of [k]: what is shown of the shard holds of the cache. *)
Lemma shardForH_run {A} c k (m : world -> Z -> M A) : cache_ok c -> exists s, shard_ok s /\
  (forall k', cellOf k' = cellOf k -> cacheContent c k' = lookup s k') /\
  let (s', o) := m (ws (cellOf k)) (hashKey k) s in
  exists c', shardForH k m c = (c', o) /\ (stays s s' -> onlyNew k s s' -> cache_ok c' /\
    (forall k', cellOf k' = cellOf k -> cacheContent c' k' = lookup s' k') /\
    forall k', cellOf k' <> cellOf k -> cacheContent c' k' = cacheContent c k').
Proof.
  intros Hc. destruct (cell_of c k Hc) as (cs & Hs & Hok). exists (Cache.core cs). split; [apply Hok|]. split; [by apply content_cell|].
  destruct (m _ _ (Cache.core cs)) as [s' o] eqn:Em.
  exists (Cache.MkCache (<[cellOf k := Cache.setCore cs s']> (Cache.shards c))). split.
  { unfold Cache.shardForH, Cache.onCell. fold (cellOf k). rewrite Hs. unfold Cache.inCore. by rewrite Em. }
  intros Hok' Hnew. destruct (cell_update c k cs (Cache.setCore cs s') Hc Hs (cell_stays _ _ Hok Hok') Hnew) as [H1 H2]. split; [done|].
  split; intros k' Hk'; rewrite H2; [by rewrite bool_decide_true|by rewrite bool_decide_false].
Qed.

(** What happens to an entry of the shard happens to it in the cache. *)
Lemma by_cell c c' k s s' : (forall k', cellOf k' = cellOf k -> cacheContent c k' = lookup s k') ->
  (forall k', cellOf k' = cellOf k -> cacheContent c' k' = lookup s' k') -> (forall k', cellOf k' <> cellOf k -> cacheContent c' k' = cacheContent c k') ->
  forall (lost : Prop) k', lookup s' k' = lookup s k' \/ (lost /\ lookup s' k' = None) -> cacheContent c' k' = cacheContent c k' \/ (lost /\ cacheContent c' k' = None).
Proof.
  intros Hcs Hin Hout lost k' Hl. destruct (decide (cellOf k' = cellOf k)) as [Hk|Hk]; [|left; by apply Hout]. by rewrite (Hin k' Hk), (Hcs k' Hk).
Qed.

(** Methods in sequence on the same shard. *)
Lemma shardForH_bind {A B} k (m1 : world -> Z -> M A) (m2 : A -> world -> Z -> M B) c :
  shardForH k (fun w h => m1 w h ≫= fun a => m2 a w h) c = (shardForH k m1 ≫= fun a => shardForH k (m2 a)) c.
Proof.
  unfold mbind at 2, st_bind. unfold Cache.shardForH, Cache.onCell. fold (cellOf k). destruct (Cache.shards c !! cellOf k) as [cs|] eqn:Hs; [|done].
  unfold Cache.inCore, mbind, st_bind. destruct (m1 _ _ (Cache.core cs)) as [s1 [a|e|]]; try done. cbn [Cache.shards].
  rewrite list_lookup_insert_eq by (by apply lookup_lt_Some in Hs). cbn [Cache.core Cache.setCore].
  destruct (m2 a _ _ s1) as [s2 o]. by rewrite list_insert_insert_eq.
Qed.

Lemma shardForH_ext {A} k (m m' : world -> Z -> M A) c : (forall w h s, m w h s = m' w h s) -> shardForH k m c = shardForH k m' c.
Proof.
  intros Hm. unfold Cache.shardForH, Cache.onCell. destruct (Cache.shards c !! _) as [cs|]; [|done]. unfold Cache.inCore. by rewrite Hm.
Qed.

Lemma shardForH_map {A B} k (m : world -> Z -> M A) (f : A -> B) c :
  shardForH k (fun w h => a ← m w h; mret (f a)) c = (a ← shardForH k m; mret (f a)) c.
Proof.
  unfold mbind at 2, st_bind, Cache.shardForH, Cache.onCell. destruct (Cache.shards c !! _) as [cs|]; [|done].
  unfold Cache.inCore, mbind, st_bind. by destruct (m _ _ (Cache.core cs)) as [s1 [a|e|]].
Qed.

Lemma lift_read (P : Z -> Prop) c k (m : world -> Z -> M (bytes * Z)) : cache_ok c ->
  (forall s, shard_ok s -> exists n s', P n /\ m (ws (cellOf k)) (hashKey k) s =
     (s', match KVSpec.live n (lookup s k) with Some x => Ok x | None => Err ErrNotFound end) /\ stays s s' /\
     forall k', lookup s' k' = lookup s k' \/ (k' = k /\ lookup s' k' = None /\ KVSpec.live n (lookup s k) = None)) ->
  exists n c', P n /\ shardForH k m c = (c', match KVSpec.live n (cacheContent c k) with Some x => Ok x | None => Err ErrNotFound end) /\ cache_ok c' /\
    forall k', cacheContent c' k' = cacheContent c k' \/ (k' = k /\ cacheContent c' k' = None /\ KVSpec.live n (cacheContent c k) = None).
Proof.
  intros Hc Hm. destruct (shardForH_run c k m Hc) as (s & Hok & Hcs & Hrun). destruct (Hm s Hok) as (n & s' & HP & He & Hok' & Hl). rewrite He in Hrun.
  destruct Hrun as (c' & Hrun & Hres). assert (onlyNew k s s') as Hnew by (apply onlyNew_of; intros k' _; destruct (Hl k') as [?|(_ & ? & _)]; auto).
  destruct (Hres Hok' Hnew) as (Hc' & Hin & Hout). exists n, c'. rewrite (Hcs k eq_refl). split_and!; try done.
  intros k'. destruct (decide (cellOf k' = cellOf k)) as [Hk|Hk]; [|left; by apply Hout]. rewrite (Hin k' Hk), (Hcs k' Hk). apply Hl.
Qed.

(** *** The laws *)

Lemma cache_read c k n : cache_ok c -> exists c',
  Cache.GetWithExpiryAt hashKey ws cfg k n c = (c', match KVSpec.live n (cacheContent c k) with Some x => Ok x | None => Err ErrNotFound end) /\ cache_ok c' /\
  forall k', cacheContent c' k' = cacheContent c k' \/ (k' = k /\ cacheContent c' k' = None /\ KVSpec.live n (cacheContent c k) = None).
Proof.
  intros Hc. destruct (lift_read (fun m => m = n) c k (fun w h => getWithExpiryAtH cfg k h n) Hc) as (n' & c' & -> & Hg); [|by exists c'].
  intros s Hok. destruct (stamp_quiet hashKey cfg s n Hok) as (Hs & Hok1 & Hl1).
  destruct (getCore_live hashKey Hhash cfg _ k n true (proj1 Hok1)) as (s' & Hg & Hok' & Hl'). exists n, s'. split; [done|].
  unfold getWithExpiryAtH. rewrite (bind_ok _ _ _ _ _ Hs), Hg. rewrite Hl1. split; [done|]. split; [exact (stays_trans _ _ _ _ _ Hok1 Hok')|]. intros k'. rewrite <- (Hl1 k'), <- (Hl1 k). apply Hl'.
Qed.

Lemma cache_readWall c k : cache_ok c -> exists n c',
  Cache.GetWithExpiry hashKey ws cfg k c = (c', match KVSpec.live n (cacheContent c k) with Some x => Ok x | None => Err ErrNotFound end) /\ cache_ok c' /\
  forall k', cacheContent c' k' = cacheContent c k' \/ (k' = k /\ cacheContent c' k' = None /\ KVSpec.live n (cacheContent c k) = None).
Proof.
  intros Hc. destruct (lift_read (fun _ => True) c k (fun w h => getWithExpiryH w cfg k h) Hc) as (n & c' & _ & Hg); [|by exists n, c'].
  intros s Hok. destruct (calls_quiet hashKey cfg s (S (calls s)) Hok) as (Hok1 & Hl1).
  destruct (getCore_live hashKey Hhash cfg _ k (clock (ws (cellOf k)) (calls s)) (negb (Replicated cfg)) (proj1 Hok1)) as (s' & Hg & Hok' & Hl').
  exists (clock (ws (cellOf k)) (calls s)), s'. split; [done|]. split; [exact Hg|]. split; [exact (stays_trans _ _ _ _ _ Hok1 Hok')|done].
Qed.

Lemma cache_write c k v e : cache_ok c -> fits 64 e ->
  match Cache.PutAbs hashKey ws cfg k v e c with
  | (c', Ok _) => cache_ok c' /\ cacheContent c' k = Some (v, e) /\
      forall k', k' <> k -> cacheContent c' k' = cacheContent c k' \/ ((AtCapPolicy cfg = PolicyRingbufEvict \/ hashKey k' = hashKey k) /\ cacheContent c' k' = None)
  | (c', Err er) => refusal (PageSize cfg - pageHdrSize) k v er /\ cache_ok c' /\
      forall k', cacheContent c' k' = cacheContent c k' \/ (AtCapPolicy cfg = PolicyRingbufEvict /\ cacheContent c' k' = None)
  | (_, Panic) => False
  end.
Proof.
  intros Hc He. destruct (shardForH_run c k (fun w h => putAbsH hashKey w cfg k v e h) Hc) as (s & Hok & Hcs & Hrun).
  pose proof (put_entry hashKey Hhash (ws (cellOf k)) cfg Hcfg Hpol s k v e Hok He) as Hp. cbv beta in Hrun.
  destruct (putAbsH _ _ _ _ _ _ _ s) as [s' [[]|er|]]; [| |done]; destruct Hrun as (c' & Hrun & Hres); unfold Cache.PutAbs; rewrite Hrun.
  - destruct Hp as (Hok' & Hk & Hl). destruct (Hres Hok' ltac:(apply onlyNew_of; intros k' Hne; destruct (Hl k' Hne) as [?|[_ ?]]; auto)) as (Hc' & Hin & Hout). split; [done|]. split; [by rewrite (Hin k)|].
    intros k' Hne. by apply (by_cell _ _ _ _ _ Hcs Hin Hout), Hl.
  - destruct Hp as (Her & Hok' & Hl). destruct (Hres Hok' ltac:(apply onlyNew_of; intros k' _; destruct (Hl k') as [?|[_ ?]]; auto)) as (Hc' & Hin & Hout). split; [done|]. split; [done|].
    intros k'. by apply (by_cell _ _ _ _ _ Hcs Hin Hout), Hl.
Qed.

Lemma cache_del c k : cache_ok c ->
  match Cache.Del hashKey ws cfg k c with
  | (c', Ok b) => cache_ok c' /\ b = bool_decide (cacheContent c k <> None) /\ cacheContent c' k = None /\
      forall k', k' <> k -> cacheContent c' k' = cacheContent c k' \/ (AtCapPolicy cfg = PolicyRingbufEvict /\ cacheContent c' k' = None)
  | (c', Err er) => refusal (PageSize cfg - pageHdrSize) k [] er /\ cache_ok c' /\
      forall k', cacheContent c' k' = cacheContent c k' \/ (AtCapPolicy cfg = PolicyRingbufEvict /\ cacheContent c' k' = None)
  | (_, Panic) => False
  end.
Proof.
  intros Hc. destruct (shardForH_run c k (fun w h => delH hashKey w cfg k h) Hc) as (s & Hok & Hcs & Hrun).
  pose proof (del_entry hashKey Hhash (ws (cellOf k)) cfg Hcfg Hpol s k Hok) as Hp. cbv beta in Hrun.
  destruct (delH _ _ _ _ _ s) as [s' [b|er|]]; [| |done]; destruct Hrun as (c' & Hrun & Hres); unfold Cache.Del; rewrite Hrun.
  - destruct Hp as (Hok' & Hb & Hk & Hl). destruct (Hres Hok' ltac:(apply onlyNew_of; intros k' Hne; destruct (Hl k' Hne) as [?|[_ ?]]; auto)) as (Hc' & Hin & Hout). split; [done|]. split; [by rewrite (Hcs k)|]. split; [by rewrite (Hin k)|].
    intros k' Hne. by apply (by_cell _ _ _ _ _ Hcs Hin Hout), Hl.
  - destruct Hp as (Her & Hok' & Hl). destruct (Hres Hok' ltac:(apply onlyNew_of; intros k' _; destruct (Hl k') as [?|[_ ?]]; auto)) as (Hc' & Hin & Hout). split; [done|]. split; [done|].
    intros k'. by apply (by_cell _ _ _ _ _ Hcs Hin Hout), Hl.
Qed.

Lemma cache_putAt c k v ttl n : cache_ok c -> exists c1, Cache.PutAt hashKey ws cfg k v ttl n c = Cache.PutAbs hashKey ws cfg k v (expiryAtFrom ttl n) c1 /\
  cache_ok c1 /\ forall k', cacheContent c1 k' = cacheContent c k'.
Proof.
  intros Hc. destruct (shardForH_run c k (fun _ _ => advanceAppliedStamp n) Hc) as (s & Hok & Hcs & Hrun). cbv beta in Hrun.
  destruct (stamp_quiet hashKey cfg s n Hok) as (Hs & Hok1 & Hl1). rewrite Hs in Hrun. destruct Hrun as (c1 & Hrun & Hres).
  destruct (Hres Hok1 ltac:(apply onlyNew_of; intros k' _; left; apply Hl1)) as (Hc1 & Hin & Hout). exists c1. split; [|split; [done|]].
  - etransitivity; [apply (shardForH_bind k (fun _ _ => advanceAppliedStamp n) (fun _ w h => putAbsH hashKey w cfg k v (expiryAtFrom ttl n) h))|].
    by rewrite (bind_ok _ _ _ _ _ Hrun).
  - intros k'. destruct (by_cell _ _ _ _ _ Hcs Hin Hout False k') as [?|[[] _]]; [left; apply Hl1|done].
Qed.

(** A deadline taken from the wall clock is that of some reading of it. *)
Lemma wallExpiry_run w ttl s : exists c n, wallExpiry w ttl s = (setCalls s c, Ok (expiryAtFrom ttl n)).
Proof.
  unfold wallExpiry, expiryAt, expiryAtFrom. destruct (injected w); [by exists (S (calls s)), (clock w (calls s))|].
  destruct (ttl <=? 0); [exists (calls s), 0; by destruct s|]. exists (S (calls s)). set (x := _ / _). exists (x - u64 (Z.quot ttl 1000000)).
  by replace (x - u64 (Z.quot ttl 1000000) + u64 (Z.quot ttl 1000000)) with x by lia.
Qed.

Lemma cache_put c k v ttl : cache_ok c -> exists n c1, Cache.Put hashKey ws cfg k v ttl c = Cache.PutAbs hashKey ws cfg k v (expiryAtFrom ttl n) c1 /\
  cache_ok c1 /\ forall k', cacheContent c1 k' = cacheContent c k'.
Proof.
  intros Hc. destruct (shardForH_run c k (fun w _ => wallExpiry w ttl) Hc) as (s & Hok & Hcs & Hrun). cbv beta in Hrun.
  destruct (wallExpiry_run (ws (cellOf k)) ttl s) as (m & n & He). destruct (calls_quiet hashKey cfg s m Hok) as (Hok1 & Hl1). rewrite He in Hrun.
  destruct Hrun as (c1 & Hrun & Hres). destruct (Hres Hok1 ltac:(apply onlyNew_of; intros k' _; left; apply Hl1)) as (Hc1 & Hin & Hout). exists n, c1. split; [|split; [done|]].
  - etransitivity; [apply (shardForH_bind k (fun w _ => wallExpiry w ttl) (fun e w h => putAbsH hashKey w cfg k v e h))|].
    by rewrite (bind_ok _ _ _ _ _ Hrun).
  - intros k'. destruct (by_cell _ _ _ _ _ Hcs Hin Hout False k') as [?|[[] _]]; [left; apply Hl1|done].
Qed.

Lemma cache_now c : cache_ok c -> exists n c', Cache.NowMs ws c = (c', Ok n) /\ cache_ok c' /\ forall k, cacheContent c' k = cacheContent c k.
Proof.
  intros Hc. pose proof (Z.pow_pos_nonneg 2 nbits ltac:(lia) ltac:(lia)) as Hp.
  destruct (lookup_lt_is_Some_2 (Cache.shards c) 0) as [cs Hs]; [rewrite (ca_len c Hc); lia|].
  pose proof (Forall_lookup_1 _ _ _ _ (ca_shards c Hc) Hs) as Hok. destruct (calls_quiet hashKey cfg (Cache.core cs) (S (calls (Cache.core cs))) (ce_shard _ Hok)) as (Hok1 & Hl1).
  unfold Cache.NowMs, Cache.onCell. rewrite Hs. do 2 eexists. split; [reflexivity|]. split.
  - apply (cells_ok c); [done|]. rewrite <- (list_insert_id _ _ _ Hs) at 1. apply Forall2_insert; [|split; [exact (cell_stays _ _ Hok Hok1)|]; intros k; cbn; by rewrite Hl1].
    apply Forall_Forall2_diag. apply (Forall_impl _ _ _ (ca_shards c Hc)). by intros s Hs'.
  - intros k. unfold cacheContent. cbn. destruct (decide (cellOf k = 0%nat)) as [->|Hne].
    + rewrite list_lookup_insert_eq by (by apply lookup_lt_Some in Hs). rewrite Hs. apply Hl1.
    + by rewrite list_lookup_insert_ne by congruence.
Qed.

(** Flushing one shard empties it or, when its sidecar cannot be made durable, changes
    no key of it. *)
Lemma flush_cell w s : cell_ok s ->
  match Cache.flush w s with
  | (s', Ok _) => cell_ok s' /\ forall k, lookup (Cache.core s') k = None
  | (s', Err e) => e = ErrFlushNotDurable /\ cell_ok s' /\ forall k, lookup (Cache.core s') k = lookup (Cache.core s) k
  | (_, Panic) => False
  end.
Proof.
  intros Hc. pose proof (ce_shard _ Hc) as Hok. unfold Cache.flush. rewrite bind_gets. destruct (isMmap (Cache.core s)) eqn:Hm.
  - destruct (calls_quiet hashKey cfg (Cache.core s) (S (calls (Cache.core s))) Hok) as (Hok1 & Hl1).
    destruct (calls_quiet hashKey cfg (Cache.core s) (S (S (calls (Cache.core s)))) Hok) as (Hok2 & Hl2).
    unfold Cache.writeFlushSidecar, Cache.syncRegion, Cache.inCore, mbind, st_bind, gets, modify, mret, st_ret. cbn [Cache.core Cache.setCore].
    destruct (msyncOk w (calls (Cache.core s))); [|by split_and!; [|apply cell_stays|]]. rewrite CacheFile.encode_sidecar by done.
    cbn [Cache.core Cache.setCore Cache.setSidecar calls setCalls]. destruct Hc as [_ Hk Hh Hi].
    destruct (msyncOk w (S (calls (Cache.core s)))); [|by split; [done|]; split; [split; cbn; [apply Hok2|done..]|]].
    destruct (flushed_ok hashKey cfg (setCalls (Cache.core s) (S (S (calls (Cache.core s))))) (writeSeq (Cache.core s)) (proj1 Hok2)) as [Hf1 Hf2].
    split; [|done]. split; cbn; [apply Hf1|done..].
  - destruct (flushed_ok hashKey cfg (Cache.core s) (writeSeq (Cache.core s)) Hok) as [Hf1 Hf2]. split; [by apply cell_stays|done].
Qed.

Lemma flushFrom_ok l : forall i fe, Forall cell_ok l -> (fe = None \/ fe = Some ErrFlushNotDurable) ->
  let (l', o) := Cache.flushFrom ws i l fe in length l' = length l /\ Forall cell_ok l' /\
    (o = Ok tt \/ o = Err ErrFlushNotDurable) /\ (o = Ok tt -> fe = None) /\
    forall j s', l' !! j = Some s' -> exists s, l !! j = Some s /\ forall k, lookup (Cache.core s') k = None \/ (o <> Ok tt /\ lookup (Cache.core s') k = lookup (Cache.core s) k).
Proof.
  induction l as [|s l IH]; intros i fe Hl Hfe; cbn [Cache.flushFrom].
  - split_and!; try done; [destruct Hfe as [->| ->]; auto|destruct Hfe as [->| ->]; done].
  - inversion Hl as [|? ? Hs Hl']; subst. pose proof (flush_cell (ws i) s Hs) as Hf. destruct (Cache.flush (ws i) s) as [s' [u|e|]]; [| |done].
    + specialize (IH (S i) fe Hl' Hfe).
      destruct (Cache.flushFrom ws (S i) l fe) as [l' o]. destruct IH as (H1 & H2 & H3 & H4 & H5). destruct Hf as [Hf1 Hf2].
      cbn. split_and!; try done; [by f_equal|by constructor|]. intros [|j] s0; cbn; [|apply H5]. intros [= <-]. exists s. split; [done|]. auto.
    + destruct Hf as (-> & Hf1 & Hf2). assert (match fe with Some _ => fe | None => Some ErrFlushNotDurable end = Some ErrFlushNotDurable) as -> by (by destruct Hfe as [->| ->]).
      specialize (IH (S i) (Some ErrFlushNotDurable) Hl' (or_intror eq_refl)). destruct (Cache.flushFrom ws (S i) l _) as [l' o]. destruct IH as (H1 & H2 & H3 & H4 & H5).
      assert (o <> Ok tt) as Ho by (intros Ho; by specialize (H4 Ho)).
      cbn. split_and!; try done; [by f_equal|by constructor|]. intros [|j] s0; cbn; [|apply H5]. intros [= <-]. exists s. split; [done|]. auto.
Qed.

Lemma cache_flush c : cache_ok c ->
  match Cache.Flush ws c with
  | (c', Ok _) => cache_ok c' /\ forall k, cacheContent c' k = None
  | (c', Err er) => er = ErrFlushNotDurable /\ cache_ok c' /\ forall k, cacheContent c' k = cacheContent c k \/ cacheContent c' k = None
  | (_, Panic) => False
  end.
Proof.
  intros Hc. pose proof (flushFrom_ok (Cache.shards c) 0 None (ca_shards c Hc) (or_introl eq_refl)) as Hf. unfold Cache.Flush.
  destruct (Cache.flushFrom ws 0 (Cache.shards c) None) as [l' o]. destruct Hf as (H1 & H2 & H3 & _ & H5).
  assert (cache_ok (Cache.MkCache l')) as Hc'.
  { apply (cells_ok c); [done|]. apply Forall2_same_length_lookup. split; [done|]. intros j s s' Hs Hs'. split; [exact (Forall_lookup_1 _ _ _ _ H2 Hs')|].
    intros k Hk. destruct (H5 j s' Hs') as (s0 & Hs0 & Hs0'). rewrite Hs in Hs0. injection Hs0 as <-. by destruct (Hs0' k) as [?|[_ <-]]. }
  assert (forall k, cacheContent (Cache.MkCache l') k = None \/ (o <> Ok tt /\ cacheContent (Cache.MkCache l') k = cacheContent c k)) as Hk.
  { intros k. unfold cacheContent. cbn [Cache.shards]. destruct (l' !! cellOf k) as [s'|] eqn:Es; [|by left]. destruct (H5 _ _ Es) as (s & -> & Hs). apply Hs. }
  destruct H3 as [->| ->].
  - split; [done|]. intros k. by destruct (Hk k) as [?|[? _]].
  - split_and!; try done. intros k. destruct (Hk k) as [?|[_ ?]]; auto.
Qed.

#[export] Program Instance Cache_KVLaws : @KVLaws Cache.Cache (Cache_KVStore hashKey ws cfg) := {|
  content := cacheContent;
  kvOk := cache_ok;
  lossy := AtCapPolicy cfg = PolicyRingbufEvict;
  room := PageSize cfg - pageHdrSize;
  hash := hashKey;
|}.
Next Obligation.
  intros c k v e Hc Hk. unfold cacheContent in Hk. destruct (cell_of c k Hc) as (s & Hs & Hok). rewrite Hs in Hk. eapply lookup_fits; [apply Hok|done].
Qed.
Next Obligation.
  intros c k k' Hc Hk Hne Hh. unfold cacheContent in *. rewrite (cellOf_hash k k' Hh). destruct (cell_of c k Hc) as (s & Hs & Hok). rewrite Hs in *. eapply lookup_hash; [apply Hok|done..].
Qed.
Next Obligation. exact cache_read. Qed.
Next Obligation. exact cache_readWall. Qed.
Next Obligation.
  intros c k n. cbn. unfold Cache.GetWithExpiryAt. rewrite <- (shardForH_map k _ (fun x => x.1)). apply shardForH_ext. intros w h s. unfold getAtH, getWithExpiryAtH.
  rewrite bind_assoc. unfold mbind, st_bind. destruct (advanceAppliedStamp n s) as [s1 [u| |]]; try done. by destruct (getCore _ _ _ _ _ s1) as [s2 [[v e]| |]].
Qed.
Next Obligation.
  intros c k. cbn. unfold Cache.GetWithExpiry. rewrite <- (shardForH_map k _ (fun x => x.1)). apply shardForH_ext. intros w h s. unfold getH, getWithExpiryH.
  rewrite bind_assoc. unfold mbind, st_bind. destruct (now w s) as [s1 [n| |]]; try done. by destruct (getCore _ _ _ _ _ s1) as [s2 [[v e]| |]].
Qed.
Next Obligation. exact cache_write. Qed.
Next Obligation. exact cache_putAt. Qed.
Next Obligation. exact cache_put. Qed.
Next Obligation. exact cache_del. Qed.
Next Obligation. exact cache_now. Qed.
Next Obligation. exact cache_flush. Qed.

End Cache.
