(* ===== verification/CacheMark.v ===== *)
(** * Recording the applied index changes no entry. *)
From S2P Require Import Prelude CacheConfig SipHash Entry Page IndexTable Shard ShardInv ShardGet ShardPut ShardRoom ShardEvict ShardFit ShardWrite ShardProps CacheFile Cache Wire KVWire KVWireProps KVOps KVSpec CacheProps.
Import Entry Page IndexTable Shard.

(** ** Writing into a header *)

Lemma putAt_in lo src (r : bytes) : 0 <= lo -> lo + blen src <= blen r -> exists r', CacheFile.putAt lo src r = (r', Ok tt) /\ blen r' = blen r.
Proof.
  intros Hlo Hhi. unfold CacheFile.putAt. destruct (store (E:=CacheFile.fileErr) r lo src) as [r'|e|] eqn:Es.
  - exists r'. split; [done|]. by eapply store_len.
  - unfold store in Es. by destruct (_ && _).
  - exfalso. unfold store in Es. rewrite (proj2 (Z.leb_le 0 lo)), (proj2 (Z.leb_le _ _)) in Es by lia. done.
Qed.

Lemma crcAt_in lo hi (r : bytes) : 0 <= lo <= hi -> hi <= blen r -> exists x, CacheFile.crcAt lo hi r = (r, Ok x).
Proof.
  intros Hlo Hhi. unfold CacheFile.crcAt, CacheFile.crcOf. destruct (slice_exists (E:=CacheFile.fileErr) r lo hi) as (x & -> & _); [lia..|]. by eexists.
Qed.

(** A sequence of stores inside the region goes through. *)
Ltac header_write :=
  repeat match goal with
  | |- context [(CacheFile.putAt ?lo ?src ≫= _) ?r] =>
      let r' := fresh "r" in let E := fresh in let L := fresh in
      destruct (putAt_in lo src r) as (r' & E & L); [done|autorewrite with blen; cbn; lia|]; rewrite (bind_ok _ _ _ _ _ E); cbv beta
  | |- context [(CacheFile.crcAt ?lo ?hi ≫= _) ?r] =>
      let x := fresh "x" in let E := fresh in
      destruct (crcAt_in lo hi r) as (x & E); [done|cbn; lia|]; rewrite (bind_ok _ _ _ _ _ E); cbv beta
  end.

Lemma setAppliedStamp_in n (r : bytes) : blen r = CacheFile.headerSize -> exists r', CacheFile.setAppliedStamp n r = (r', Ok tt) /\ blen r' = CacheFile.headerSize.
Proof.
  unfold CacheFile.headerSize. intros Hr. unfold CacheFile.setAppliedStamp, CacheFile.hdrStampOff, CacheFile.hdrStampCRCOff. header_write.
  destruct (putAt_in 40 (le_put 4 x) r0) as (r1 & -> & L); [done|rewrite blen_le_put; lia|]. exists r1. split; [done|lia].
Qed.

Lemma setAppliedIndex_in n (r : bytes) : blen r = CacheFile.headerSize -> exists r', CacheFile.setAppliedIndex n r = (r', Ok tt) /\ blen r' = CacheFile.headerSize.
Proof.
  unfold CacheFile.headerSize. intros Hr. unfold CacheFile.setAppliedIndex. header_write.
  destruct (putAt_in 28 (le_put 4 x) r0) as (r1 & -> & L); [done|rewrite blen_le_put; lia|]. exists r1. split; [done|lia].
Qed.

Section Mark.
Context (hashKey : bytes -> Z) (Hhash : forall k, fits 64 (hashKey k)).
Context (cfg : Config) (Hcfg : cfg_ok cfg) (kind : bool).
#[local] Abbreviation shard_ok := (shard_ok hashKey cfg).
#[local] Abbreviation lookup := (lookup hashKey).
#[local] Abbreviation cell_ok := (cell_ok hashKey cfg kind).

(** ** The bounds of the pages *)

(** [p'] is [p] up to the header of its bytes. *)
Definition sameEntries (mm : bool) (p p' : page) : Prop :=
  page_ok cfg mm p' /\ gen p' = gen p /\ forall off r, entry_in p off r -> entry_in p' off r.

Lemma pages_evo s ps : shard_ok s -> Forall2 (sameEntries (isMmap s)) (pages s) ps -> evo hashKey cfg nokey s (setPages s ps).
Proof.
  intros Hok Hps. pose proof Hok as [Hw Hl Hp Hn Hm Hi Hwi Hv Hg]. pose proof (Forall2_length _ _ _ Hps) as Hlen.
  assert (Hkeep : forall h ref r, ref_to hashKey (pages s) h ref r -> ref_to hashKey ps h ref r).
  { intros h ref r (Hf & q & Hq & Hgq & Hin & Hh). split; [done|]. destruct (Forall2_lookup_l _ _ _ _ _ Hps Hq) as (q' & Hq' & _ & Hg' & Hin').
    exists q'. split; [done|]. split; [congruence|]. split; [by apply Hin'|done]. }
  split; [|done|done|].
  - split; cbn; try done.
    + apply Forall_lookup. intros i p' Hp'. destruct (Forall2_lookup_r _ _ _ _ _ Hps Hp') as (p & _ & Hs & _). exact Hs.
    + unfold blen in *. by rewrite <- Hlen.
    + unfold blen in *. by rewrite <- Hlen.
    + intros h ref Ha. destruct (Hi h ref Ha) as (r & Hr). exists r. by apply Hkeep.
  - intros k. left. unfold ShardInv.lookup, lookup_in. cbn. destruct (abs (tab s) !! hashKey k) as [ref|] eqn:Ea; [|done].
    destruct (Hi _ _ Ea) as (r & Hr). by rewrite (ref_to_rec _ _ _ _ _ Hr), (ref_to_rec _ _ _ _ _ (Hkeep _ _ _ Hr)).
Qed.

Lemma projectBounds_same mm p h t : page_ok cfg mm p -> exists p', projectBounds p h t = Ok p' /\ sameEntries mm p p'.
Proof.
  intros Hpo. pose proof Hpo as [[es Hq] Hkind Hsize Hgen Hret Hbar Hv Hh]. destruct mm.
  2: { exists p. unfold projectBounds. rewrite Hkind. split; [done|]. split; [done|]. done. }
  pose proof (co_size _ Hcfg). destruct (projectBounds_ok p h t Hkind) as (d & Hb & Hl & Hd); [lia|]. exists (setData p d). split; [done|].
  assert (He : entries (setData p d) = entries p).
  { unfold entries. change (Page.isMmap (setData p d)) with (Page.isMmap p). rewrite Hkind. exact Hd. }
  assert (Hqq : forall es, queue p es -> queue (setData p d) es).
  { intros es' [[Hb1 Hs1 Hm1] Ht]. split.
    - split; rewrite ?He; try done. intros Hi. destruct (Hm1 Hi). cbn [data framingKey setData]. split; [lia|done].
    - cbn [head tail setData heapHead heapTail]. eapply tiled_mono; [|done]. intros off r _ Hf. apply (framed_ext p); [done|done|done|by rewrite He|done]. }
  split; [|split; [done|]].
  - split; try done; [by exists es; apply Hqq|cbn [data setData]; lia].
  - intros off r (es1 & es2 & Hq' & ->). exists es1, es2. split; [by apply Hqq|done].
Qed.

Lemma projectAll_same mm ps : Forall (page_ok cfg mm) ps -> exists ps', Cache.projectAll ps = Ok ps' /\ Forall2 (sameEntries mm) ps ps'.
Proof.
  induction 1 as [|p ps Hp Hps IH]; [by exists []|]. cbn [Cache.projectAll]. destruct (projectBounds_same mm p (head p) (tail p) Hp) as (p' & -> & Hs).
  destruct IH as (ps' & -> & Hss). exists (p' :: ps'). split; [done|]. by constructor.
Qed.

Lemma projectPages_same s : shard_ok s -> exists s', Cache.projectPages s = (s', Ok tt) /\ evo hashKey cfg nokey s s'.
Proof.
  intros Hok. destruct (projectAll_same (isMmap s) (pages s) (ok_pages _ _ s Hok)) as (ps & Hp & Hps). exists (setPages s ps).
  split; [|by apply pages_evo]. unfold Cache.projectPages. rewrite bind_gets, (bind_lift _ _ _ _ Hp). done.
Qed.

(** ** One shard *)

Lemma sync_cell w s : cell_ok s -> exists s', Cache.syncRegion w s = (s', Ok (msyncOk w (calls (Cache.core s)))) /\ cell_ok s' /\
  isMmap (Cache.core s') = isMmap (Cache.core s) /\ Cache.appliedIndex s' = Cache.appliedIndex s /\ forall k, lookup (Cache.core s') k = lookup (Cache.core s) k.
Proof.
  intros Hc. destruct (calls_quiet hashKey cfg (Cache.core s) (S (calls (Cache.core s))) (ce_shard _ _ _ _ Hc)) as (Hok1 & Hl1).
  eexists. split; [reflexivity|]. split; [by apply cell_stays|]. done.
Qed.

Lemma hdr_cell (m : CacheFile.W unit) s : cell_ok s -> isMmap (Cache.core s) = true ->
  (forall r, blen r = CacheFile.headerSize -> exists r', m r = (r', Ok tt) /\ blen r' = CacheFile.headerSize) ->
  exists h, Cache.inHdr m s = (Cache.setHdr s h, Ok tt) /\ cell_ok (Cache.setHdr s h).
Proof.
  intros [H1 Hk H2 H3] Hm Hw. destruct (Hw _ (H2 Hm)) as (r' & He & Hr). exists r'. unfold Cache.inHdr. rewrite He. split; [done|]. by split.
Qed.

(** What recording does to a cell: the index is the old one or the new one, and with
    every msync it is the new one. *)
Definition marked (idx : Z) (s s' : Cache.cshard) : Prop :=
  cell_ok s' /\ isMmap (Cache.core s') = isMmap (Cache.core s) /\ (forall k, lookup (Cache.core s') k = lookup (Cache.core s) k) /\
  (Cache.appliedIndex s' = Cache.appliedIndex s \/ Cache.appliedIndex s' = idx).

Lemma mark_index idx s : cell_ok s -> isMmap (Cache.core s) = true -> 0 <= idx < 2 ^ 64 -> exists s',
  (Cache.inHdr (CacheFile.setAppliedIndex idx);; modify (fun c => Cache.setApplied c idx)) s = (s', Ok tt) /\ cell_ok s' /\
  Cache.core s' = Cache.core s /\ Cache.appliedIndex s' = idx.
Proof.
  intros Hc Hm Hi. destruct (hdr_cell (CacheFile.setAppliedIndex idx) s Hc Hm) as (h & He & [H1 Hk H2 H3]); [intros; by apply setAppliedIndex_in|].
  rewrite (bind_ok _ _ _ _ _ He). eexists. split; [reflexivity|]. split; [by split|done].
Qed.

Lemma setAppliedShard_ok idx force w s : cell_ok s -> 0 <= idx < 2 ^ 64 -> exists s', Cache.setAppliedShard idx force w s = (s', Ok tt) /\ marked idx s s' /\
  (isMmap (Cache.core s) = true -> (force = true -> forall n, msyncOk w n = true) -> Cache.appliedIndex s' = idx).
Proof.
  intros Hc Hi. unfold Cache.setAppliedShard. rewrite bind_gets. destruct (isMmap (Cache.core s)) eqn:Hm; cbn [negb].
  2: { exists s. split; [done|]. split; [split_and!; auto|done]. }
  destruct (hdr_cell (CacheFile.setAppliedStamp (lastAppliedStampMs (Cache.core s))) s Hc Hm) as (h & He & Hc1); [intros; by apply setAppliedStamp_in|].
  rewrite (bind_ok _ _ _ _ _ He). set (s1 := Cache.setHdr s h) in *. assert (Cache.core s1 = Cache.core s) as Hcore by done.
  assert (marked idx s s1) as Hmark by (split_and!; auto). destruct force; cbv iota.
  2: { destruct (mark_index idx s1 Hc1 Hm Hi) as (s' & -> & Hc' & Hcs & Hx). exists s'. split; [done|]. split; [|done]. split_and!; auto; by rewrite Hcs. }
  destruct (sync_cell w s1 Hc1) as (s2 & E2 & Hc2 & Hm2 & Hx2 & Hl2). rewrite (bind_ok _ _ _ _ _ E2). destruct (msyncOk w _) eqn:Es1.
  2: { exists s2. split; [done|]. split; [split_and!; try done; by left|]. intros _ Hsync. rewrite (Hsync eq_refl) in Es1. done. }
  destruct (projectPages_same (Cache.core s2) (ce_shard _ _ _ _ Hc2)) as (c3 & E3 & Hev3).
  assert (Cache.inCore Cache.projectPages s2 = (Cache.setCore s2 c3, Ok tt)) as E3' by (unfold Cache.inCore; by rewrite E3).
  rewrite (bind_ok _ _ _ _ _ E3'). pose proof (cell_stays _ _ _ _ _ Hc2 (evo_stays _ _ _ _ _ Hev3)) as Hc3.
  destruct (sync_cell w (Cache.setCore s2 c3) Hc3) as (s4 & E4 & Hc4 & Hm4 & Hx4 & Hl4). rewrite (bind_ok _ _ _ _ _ E4).
  assert (isMmap (Cache.core s4) = true) as Hmm by (rewrite Hm4; cbn; by rewrite (ev_mmap _ _ _ _ _ Hev3), Hm2).
  assert (forall k, lookup (Cache.core s4) k = lookup (Cache.core s) k) as Hl by (intros k; rewrite Hl4; cbn; by rewrite (evo_nokey_lookup _ _ _ _ k Hev3), Hl2).
  destruct (msyncOk w (calls (Cache.core (Cache.setCore s2 c3)))) eqn:Es2.
  2: { exists s4. split; [done|]. split; [split_and!; [done|congruence|done|left; rewrite Hx4; exact Hx2]|]. intros _ Hsync. rewrite (Hsync eq_refl) in Es2. done. }
  destruct (mark_index idx s4 Hc4 Hmm Hi) as (s5 & E5 & Hc5 & Hcs & Hx5).
  destruct (sync_cell w s5 Hc5) as (s6 & E6 & Hc6 & Hm6 & Hx6 & Hl6). exists s6. split.
  { cbv beta iota. rewrite <- (bind_assoc (Cache.inHdr _) (fun _ => modify (fun c => Cache.setApplied c idx)) (fun _ => Cache.syncRegion w;; mret tt)). rewrite (bind_ok _ _ _ _ _ E5). by rewrite (bind_ok _ _ _ _ _ E6). }
  split; [|intros _ _; congruence]. split_and!; [done|rewrite Hm6, Hcs; congruence|intros k; by rewrite Hl6, Hcs|right; congruence].
Qed.

(** ** Every shard *)

Lemma eachFrom_ok (f : nat -> Cache.CS unit) (R : Cache.cshard -> Cache.cshard -> Prop) l : forall i,
  (forall i s, s ∈ l -> exists s', f i s = (s', Ok tt) /\ R s s') -> exists l', Cache.eachFrom f i l = (l', Ok tt) /\ Forall2 R l l'.
Proof.
  induction l as [|s l IH]; intros i Hf; [by exists []|]. cbn [Cache.eachFrom]. destruct (Hf i s) as (s' & -> & Hs); [by left|].
  destruct (IH (S i)) as (l' & -> & Hl); [intros j x Hx; apply Hf; by right|]. exists (s' :: l'). split; [done|]. by constructor.
Qed.

(** The smallest index of mapped shards. *)
Definition minOf (l : list Cache.cshard) : Z := foldr (fun s a => Z.min (Cache.appliedIndex s) a) (2 ^ 64 - 1) l.
Definition mapped (l : list Cache.cshard) : bool := forallb (fun s => isMmap (Cache.core s)) l.

Lemma minApplied_eq l : forall m, m <= 2 ^ 64 - 1 ->
  Cache.minApplied l m = if mapped l then (if Z.min m (minOf l) =? 2 ^ 64 - 1 then 0 else Z.min m (minOf l)) else 0.
Proof.
  induction l as [|s l IH]; intros m Hm; cbn [Cache.minApplied mapped forallb minOf foldr].
  - by rewrite Z.min_l by lia.
  - destruct (isMmap (Cache.core s)); [|done]. cbn [negb andb]. rewrite IH by (destruct (Z.ltb_spec (Cache.appliedIndex s) m); lia). fold (mapped l) (minOf l).
    replace (Z.min (if Cache.appliedIndex s <? m then Cache.appliedIndex s else m) (minOf l)) with (Z.min m (Z.min (Cache.appliedIndex s) (minOf l))); [done|].
    destruct (Z.ltb_spec (Cache.appliedIndex s) m); lia.
Qed.

Lemma minOf_le l : minOf l <= 2 ^ 64 - 1.
Proof. induction l as [|s l IH]; cbn [minOf foldr]; [done|]. fold (minOf l). lia. Qed.

Lemma minOf_nonneg l : Forall cell_ok l -> 0 <= minOf l.
Proof. induction 1 as [|s l [_ _ _ Hs] Hl IH]; cbn [minOf foldr]; [done|]. fold (minOf l). lia. Qed.

Lemma AppliedIndex_eq c : Cache.AppliedIndex c = if mapped (Cache.shards c) then (if minOf (Cache.shards c) =? 2 ^ 64 - 1 then 0 else minOf (Cache.shards c)) else 0.
Proof. unfold Cache.AppliedIndex. rewrite minApplied_eq by lia. rewrite Z.min_r by apply minOf_le. done. Qed.

Lemma marked_mapped idx l l' : Forall2 (marked idx) l l' -> mapped l' = mapped l.
Proof. induction 1 as [|s s' l l' (_ & Hm & _) Hl IH]; [done|]. cbn [mapped forallb]. fold (mapped l) (mapped l'). congruence. Qed.

Lemma marked_minOf idx l l' : Forall2 (marked idx) l l' -> Z.min (minOf l) idx <= minOf l' /\ (minOf l' = minOf l \/ minOf l' <= idx).
Proof.
  induction 1 as [|s s' l l' (_ & _ & _ & Hs) Hl IH]; cbn [minOf foldr]; [lia|]. fold (minOf l) (minOf l'). destruct Hs as [->| ->]; lia.
Qed.

(** The smallest index stays between where it was and the one recorded. *)
Lemma marked_index idx c c' : Forall2 (marked idx) (Cache.shards c) (Cache.shards c') -> Forall cell_ok (Cache.shards c') ->
  0 <= idx < 2 ^ 64 - 1 -> Cache.AppliedIndex c <= idx -> Cache.AppliedIndex c <= Cache.AppliedIndex c' <= idx.
Proof.
  intros Hm Hc Hi. rewrite !AppliedIndex_eq, (marked_mapped _ _ _ Hm). destruct (mapped _); [|lia]. pose proof (marked_minOf _ _ _ Hm) as [H1 H2].
  pose proof (minOf_nonneg _ Hc). pose proof (minOf_le (Cache.shards c')). pose proof (minOf_le (Cache.shards c)).
  destruct (Z.eqb_spec (minOf (Cache.shards c)) (2 ^ 64 - 1)), (Z.eqb_spec (minOf (Cache.shards c')) (2 ^ 64 - 1)); lia.
Qed.

Lemma exact_index idx c : 0 <= idx < 2 ^ 64 - 1 -> (0 < length (Cache.shards c))%nat -> mapped (Cache.shards c) = true ->
  Forall (fun s => Cache.appliedIndex s = idx) (Cache.shards c) -> Cache.AppliedIndex c = idx.
Proof.
  intros Hi Hn Hm Hf. rewrite AppliedIndex_eq, Hm. assert (minOf (Cache.shards c) = idx) as ->; [|rewrite (proj2 (Z.eqb_neq _ _)) by lia; done].
  destruct Hf as [|s l Hs Hl]; [cbn in Hn; lia|]. cbn [minOf foldr]. fold (minOf l). rewrite Hs. assert (idx <= minOf l); [|lia]. clear Hn Hm.
  induction Hl as [|s' l Hs' Hl IH]; cbn [minOf foldr]; [lia|]. fold (minOf l). rewrite Hs'. lia.
Qed.

End Mark.
