(* ===== verification/ShardFSM.v ===== *)
(** * The state machine of a shard group (src/shard/fsm.go, apply_class.go,
    pb_applier.go).

    What changes while an entry is blocked is the environment: [registry n] are the
    operations after [n] waits and [stopped n] says whether the store starts to close
    during the [n]-th. The hooks and the logging are left out; the halt of a replicated
    shard ends the process, which is the flag [halted]. *)
From S2P Require Import Prelude CacheConfig SipHash Entry Page IndexTable Shard CacheFile Cache Wire KVWire KVOps LogCodec ShardLog.
From stdpp Require Import strings.
Import Entry KVWire KVOps ShardLog.
#[local] Open Scope Z_scope.

(** The applied index a cache keeps for the state machine. *)
Class Watermark (S : Type) := {
  cAppliedIndex : S -> Z;
  cSetAppliedIndex : Z -> bool -> st S cerr unit;
}.

#[export] Instance Cache_Watermark (ws : nat -> Shard.world) : Watermark Cache.Cache := {
  cAppliedIndex := Cache.AppliedIndex;
  cSetAppliedIndex := Cache.SetAppliedIndex ws;
}.

Module ShardFSM.

(** ** Errors of an application *)

Inductive applyErr := EDecode (e : entryErr) | ENotRegistered | EReadOnly | EOp (e : opErr) | EAbandoned.

#[export] Instance applyErr_eq_dec : EqDecision applyErr.
Proof. solve_decision. Defined.

Inductive applyClass := classAdvance | classFatal | classRetry.

#[export] Instance applyClass_eq_dec : EqDecision applyClass.
Proof. solve_decision. Defined.

Definition classifyApplyErr (err : applyErr) : applyClass :=
  match err with
  | EOp OWASMNotResident => classRetry
  | EDecode ErrLogEntryVersion => classFatal
  | ENotRegistered => classFatal
  | EReadOnly => classFatal
  | EOp OWASMNoGroupBinding => classFatal
  | EOp (OCache ErrFull) | EOp (OCache ErrCannotEvict) => classFatal
  | EOp (OCache ErrFlushNotDurable) => classFatal
  | EOp (OCache ErrReuseBarrier) => classFatal
  | _ => classAdvance
  end.

Record ApplyResponse := MkResp { Result : bytes; RErr : option applyErr }.
Definition emptyResp : ApplyResponse := MkResp [] None.

Section FSM.
Context {S : Type} `{KVStore S} `{Watermark S}.
Context (registry : nat -> string -> option (OpKind * handler (S:=S))) (stopped : nat -> bool).
Context (durable replicated : bool).

Record fsm := MkFSM {
  cache : S;
  appliedIndex : Z;
  abandoned : bool;
  halted : bool;
  waits : nat;
}.
Definition setCache (f : fsm) (c : S) : fsm := MkFSM c (appliedIndex f) (abandoned f) (halted f) (waits f).
Definition setApplied (f : fsm) (i : Z) : fsm := MkFSM (cache f) i (abandoned f) (halted f) (waits f).
Definition setAbandoned (f : fsm) : fsm := MkFSM (cache f) (appliedIndex f) true (halted f) (waits f).
Definition setHalted (f : fsm) : fsm := MkFSM (cache f) (appliedIndex f) (abandoned f) true (waits f).
Definition setWaits (f : fsm) (n : nat) : fsm := MkFSM (cache f) (appliedIndex f) (abandoned f) (halted f) n.

Abbreviation A := (st fsm cerr).

(** ** One entry *)

Definition runHandler (h : handler (S:=S)) (tx : TxContext) (args : bytes) : A ApplyResponse := fun f =>
  match h tx args (cache f) with
  | (c, Ok r) => (setCache f c, Ok (MkResp r None))
  | (c, Err e) => (setCache f c, Ok (MkResp [] (Some (EOp e))))
  | (c, Panic) => (setCache f c, Panic)
  end.

Definition applyEntryData (data : bytes) : A ApplyResponse :=
  match DecodeLogEntry data with
  | Panic => panic
  | Err e => mret (MkResp [] (Some (EDecode e)))
  | Ok (opName, args, stampMs, stamped) =>
      n ← gets waits;
      match registry n opName with
      | None => mret (MkResp [] (Some ENotRegistered))
      | Some (OpReadOnly, _) => mret (MkResp [] (Some EReadOnly))
      | Some (OpReadWrite, h) => runHandler h (MkTx stamped stampMs) args
      end
  end.

(** How an application that may block ended. [Blocked]: it was still waiting after
    [fuel] waits. *)
Inductive verdict := Verdict (r : ApplyResponse) | Abandoned (r : ApplyResponse) | Blocked.

Definition retries (r : ApplyResponse) : bool :=
  match RErr r with Some e => bool_decide (classifyApplyErr e = classRetry) | None => false end.

(** A wait: [false] when the store closes during it. *)
Definition waitApplyRetry : A bool :=
  n ← gets waits; modify (fun f => setWaits f (Datatypes.S n));; mret (negb (stopped n)).

Fixpoint applyWithRetry (fuel : nat) (attempts : nat) (data : bytes) (beforeFirstWait : A unit) : A verdict :=
  match fuel with
  | O => mret Blocked
  | Datatypes.S fuel =>
      resp ← applyEntryData data;
      if negb (retries resp) then mret (Verdict resp)
      else
        (if bool_decide (attempts = 0%nat) then beforeFirstWait else mret tt);;
        go ← waitApplyRetry;
        if negb go then mret (Abandoned resp) else applyWithRetry fuel (Datatypes.S attempts) data beforeFirstWait
  end.

(** ** The applied index *)

Definition advanceApplied (idx : Z) : A unit := modify (fun f => if idx <=? appliedIndex f then f else setApplied f idx).

Definition setWatermark (idx : Z) : A unit := fun f => let (c, o) := cSetAppliedIndex idx durable (cache f) in (setCache f c, o).

(** Record [idx]: the header first, then the signal readers wait for. *)
Definition record (idx : Z) : A unit := setWatermark idx;; advanceApplied idx.

Definition fatal (r : ApplyResponse) : bool :=
  match RErr r with Some e => replicated && bool_decide (classifyApplyErr e = classFatal) | None => false end.

Definition fireFatalApply : A unit := modify setHalted.

(** ** Apply and ApplyBatch *)

(** The deferred advance also runs while a panic unwinds. [None]: still blocked. *)
Definition Apply (fuel : nat) (l : LogCodec.Log) : A (option ApplyResponse) :=
  f ← gets id;
  if abandoned f then mret (Some (MkResp [] (Some EAbandoned)))
  else if LogCodec.Index l <=? cAppliedIndex (cache f) then advanceApplied (LogCodec.Index l);; mret (Some emptyResp)
  else
    fun f =>
      match applyWithRetry fuel 0 (LogCodec.Data l) (mret tt) f with
      | (f, Panic) => (record (LogCodec.Index l);; panic) f
      | (f, Err e) => (f, Err e)
      | (f, Ok Blocked) => (f, Ok None)
      | (f, Ok (Abandoned resp)) => (setAbandoned f, Ok (Some resp))
      | (f, Ok (Verdict resp)) =>
          (if fatal resp then fireFatalApply;; mret (Some resp) else record (LogCodec.Index l);; mret (Some resp)) f
      end.

Definition LogCommand : Z := 0.

(** The responses so far; [false] when the batch ended early. *)
Fixpoint batchLoop (fuel : nat) (cacheApplied : Z) (logs : list LogCodec.Log) (appliedPrefix : Z) (resps : list ApplyResponse) : A (list ApplyResponse * bool) :=
  match logs with
  | [] => mret (resps, true)
  | l :: logs =>
      let raised := if appliedPrefix <? LogCodec.Index l then LogCodec.Index l else appliedPrefix in
      if negb (LogCodec.Type_ l =? LogCommand) then batchLoop fuel cacheApplied logs raised (resps ++ [emptyResp])
      else if LogCodec.Index l <=? cacheApplied then batchLoop fuel cacheApplied logs raised (resps ++ [emptyResp])
      else
        let recordPrefix := if cacheApplied <? appliedPrefix then record appliedPrefix else mret tt in
        v ← applyWithRetry fuel 0 (LogCodec.Data l) recordPrefix;
        match v with
        | Blocked => mret (resps, false)
        | Abandoned resp => modify setAbandoned;; mret (resps ++ [resp], false)
        | Verdict resp =>
            if fatal resp then recordPrefix;; fireFatalApply;; mret (resps ++ [resp], false)
            else batchLoop fuel cacheApplied logs raised (resps ++ [resp])
        end
  end.

Definition maxIndex (logs : list LogCodec.Log) : Z := foldl (fun m l => if m <? LogCodec.Index l then LogCodec.Index l else m) 0 logs.

(** The responses to a prefix of the batch: the rest is left unset. *)
Definition ApplyBatch (fuel : nat) (logs : list LogCodec.Log) : A (list ApplyResponse) :=
  f ← gets id;
  if abandoned f then mret ((fun _ => MkResp [] (Some EAbandoned)) <$> logs)
  else
    let cacheApplied := cAppliedIndex (cache f) in
    '(resps, finished) ← batchLoop fuel cacheApplied logs cacheApplied [];
    if negb finished then mret resps
    else
      let maxIdx := maxIndex logs in
      (if 0 <? maxIdx then
         (if cacheApplied <? maxIdx then setWatermark maxIdx else mret tt);;
         advanceApplied maxIdx
       else mret tt);;
      mret resps.

(** ** The applier of the primary-backup engine (pb_applier.go) *)

Definition isInfraError (e : applyErr) : bool :=
  match e with ENotRegistered | EDecode _ | EReadOnly => true | _ => false end.

(** [errText] is the text of an error. *)
Definition encodePBResult (errText : applyErr -> bytes) (r : ApplyResponse) : bytes :=
  match RErr r with
  | Some e => [Byte.x01] ++ le_put 4 (u32 (blen (errText e))) ++ errText e
  | None => [Byte.x00] ++ le_put 4 (u32 (blen (Result r))) ++ Result r
  end.

Inductive pbResponse := PBResult (b : bytes) | PBError (msg : bytes) | PBShort | PBTruncated.

Definition decodePBResult (b : bytes) : outcome cerr pbResponse :=
  if blen b <? 5 then Ok PBShort else
  x ← slice b 1 5;
  n ← le_get 4 x;
  if blen b - 5 <? n then Ok PBTruncated else
  payload ← slice b 5 (5 + n);
  first ← byte_at b 0;
  Ok (if first =? 1 then PBError payload else PBResult payload).

(** What the engine gets; [PBBlocked]: the call has not returned. *)
Inductive pbApplied := PBOk (b : bytes) | errPBInfra | PBBlocked.

Definition shardApplierApply (errText : applyErr -> bytes) (fuel : nat) (data : bytes) : A pbApplied :=
  v ← applyWithRetry fuel 0 data (mret tt);
  match v with
  | Blocked => mret PBBlocked
  | Abandoned _ => mret errPBInfra
  | Verdict resp =>
      mret (if match RErr resp with Some e => isInfraError e || bool_decide (classifyApplyErr e = classFatal) | None => false end
            then errPBInfra else PBOk (encodePBResult errText resp))
  end.

End FSM.

End ShardFSM.
