(* ===== verification/FSMProps.v ===== *)
(** * A replica's state is the replay of the log.

    Against the promises of a cache that keeps an applied index: however the entries of
    the log are cut into batches, and wherever the process is restarted from what the
    cache kept, the map of the cache is the one the requests give when each is applied
    once, in order. *)
From S2P Require Import Prelude CacheConfig SipHash Entry Page IndexTable Shard CacheFile Cache Wire KVWire KVWireProps KVOps KVSpec LogCodec ShardLog ShardFSM.
From stdpp Require Import strings.
Import Entry KVWire KVOps ShardLog ShardFSM.
#[local] Open Scope Z_scope.

(** What a cache promises of its applied index: only recording changes it, to something
    between the old one and the recorded one, and recording changes no entry. *)
Class WatermarkLaws (S : Type) `{KVLaws S} `{Watermark S} := {
  wm_getAt k n s : kvOk s -> cAppliedIndex (cGetAt k n s).1 = cAppliedIndex s;
  wm_read k n s : kvOk s -> cAppliedIndex (cGetWithExpiryAt k n s).1 = cAppliedIndex s;
  wm_write k v e s : kvOk s -> fits 64 e -> cAppliedIndex (cPutAbs k v e s).1 = cAppliedIndex s;
  wm_putAt k v ttl n s : kvOk s -> cAppliedIndex (cPutAt k v ttl n s).1 = cAppliedIndex s;
  wm_del k s : kvOk s -> cAppliedIndex (cDel k s).1 = cAppliedIndex s;
  wm_range s : kvOk s -> 0 <= cAppliedIndex s;
  wm_set i d s : kvOk s -> 0 <= i < 2 ^ 64 - 1 -> exists s', cSetAppliedIndex i d s = (s', Ok tt) /\ kvOk s' /\
    (forall k, content s' k = content s k) /\ (cAppliedIndex s <= i -> cAppliedIndex s <= cAppliedIndex s' <= i);
}.

(** ** Operations leave the applied index alone *)

Create HintDb keeps.

Section Keeps.
Context {S : Type} {K : KVStore S} {L : KVLaws S} {W : Watermark S} {WL : WatermarkLaws S}.

(** [m] keeps the invariant and the index, and what it returns satisfies [Q]. *)
Definition keeps {A} (m : st S opErr A) (Q : A -> Prop) : Prop := forall s, kvOk s ->
  kvOk (m s).1 /\ cAppliedIndex (m s).1 = cAppliedIndex s /\ forall a, (m s).2 = Ok a -> Q a.

Definition any {A} : A -> Prop := fun _ => True.
Definition entryFits (x : option (bytes * Z)) : Prop := forall v e, x = Some (v, e) -> fits 64 e.

Lemma idx_bind {A B} (m : st S opErr A) (k : A -> st S opErr B) Q R : keeps m Q -> (forall a, Q a -> keeps (k a) R) -> keeps (m ≫= k) R.
Proof.
  intros Hm Hk s Hs. destruct (Hm s Hs) as (H1 & H2 & H3). unfold mbind, st_bind. destruct (m s) as [s' [a|e|]]; cbn in *; [|done|done].
  destruct (Hk a (H3 a eq_refl) s' H1) as (H4 & H5 & H6). split; [done|]. split; [congruence|done].
Qed.

Lemma idx_ret {A} (a : A) : keeps (mret a) any.
Proof. by intros s Hs. Qed.
Lemma idx_throw {A} e : keeps (throw (A:=A) e) any.
Proof. by intros s Hs. Qed.
Lemma idx_lift {A} (o : outcome opErr A) : keeps (lift o) any.
Proof. by intros s Hs. Qed.

Lemma keeps_found {A} (m : st S opErr A) (Q : option A -> Prop) : Q None -> keeps m (fun a => Q (Some a)) -> keeps (found m) Q.
Proof.
  intros Hn Hm s Hs. destruct (Hm s Hs) as (H1 & H2 & H3). unfold found, try, mbind, st_bind. destruct (m s) as [s' [a|e|]]; cbn in *; [|destruct e as [|[]| | | |]; split_and!; try done|done].
  - split_and!; try done. intros x [= <-]. by apply H3.
  - by intros x [= <-].
Qed.

Lemma keeps_get n k : keeps (txGet (MkTx true n) k) any.
Proof.
  intros s Hs. destruct (txGet_ok n k s Hs) as (s' & He & Hr & _). pose proof (wm_getAt k n s Hs) as Hi. rewrite He. split_and!; try done.
  unfold txGet, onCache in He. cbn in He. destruct (cGetAt k n s). by injection He as <- _.
Qed.

Lemma keeps_entry n k : keeps (found (txGetWithExpiry (MkTx true n) k)) entryFits.
Proof.
  intros s Hs. destruct (found_entry n k s Hs) as (s' & He & Hr & _). pose proof (wm_read k n s Hs) as Hi. rewrite He. split_and!; [done| |].
  - unfold found, try, txGetWithExpiry, onCache, mbind, st_bind in He. cbn in He. destruct (cGetWithExpiryAt k n s) as [s1 [x|e|]]; cbn in *; [by injection He as <- _| |by injection He as <- _].
    by destruct e; injection He as <- _.
  - intros a [= <-] v e Hl. apply (law_fits s k v e Hs). unfold live in Hl. destruct (content s k) as [[v' e']|]; [|done]. by destruct (Shard.isExpired e' n).
Qed.

Lemma keeps_put n k v ttl : keeps (txPut (MkTx true n) k v ttl) any.
Proof.
  intros s Hs. pose proof (wm_putAt k v ttl n s Hs) as Hi. destruct (law_putAt s k v ttl n Hs) as (s1 & He & Hs1 & _).
  pose proof (law_write s1 k v _ Hs1 (expiry_fits ttl n)) as Hw. unfold txPut, onCache. cbn [applyStamped applyNowMs]. rewrite He in *.
  destruct (cPutAbs k v _ s1) as [s2 [[]|e|]]; cbn in *; [|by destruct Hw as (_ & ? & _)|done]. by destruct Hw.
Qed.

Lemma keeps_putAbs k v e : fits 64 e -> keeps (txPutAbs k v e) any.
Proof.
  intros He s Hs. pose proof (wm_write k v e s Hs He) as Hi. pose proof (law_write s k v e Hs He) as Hw. unfold txPutAbs, onCache.
  destruct (cPutAbs k v e s) as [s2 [[]|er|]]; cbn in *; [|by destruct Hw as (_ & ? & _)|done]. by destruct Hw.
Qed.

Lemma keeps_del k : keeps (txDel k) any.
Proof.
  intros s Hs. pose proof (wm_del k s Hs) as Hi. pose proof (law_del s k Hs) as Hw. unfold txDel, onCache.
  destruct (cDel k s) as [s2 [b|er|]]; cbn in *; [|by destruct Hw as (_ & ? & _)|done]. by destruct Hw.
Qed.

Lemma keeps_foundGet n k : keeps (found (txGet (MkTx true n) k)) any.
Proof. apply keeps_found; [done|]. intros s Hs. by destruct (keeps_get n k s Hs) as (? & ? & _). Qed.

Lemma keeps_expire n k ttl : keeps (txExpire (MkTx true n) k ttl) any.
Proof. eapply idx_bind; [apply keeps_get|]. intros v _. apply keeps_put. Qed.

Lemma fits_zero : fits 64 0.
Proof. done. Qed.

#[local] Hint Resolve fits_zero idx_ret idx_throw idx_lift keeps_get keeps_entry keeps_put keeps_putAbs keeps_del keeps_foundGet keeps_expire : keeps.

Ltac keep := repeat match goal with
  | |- keeps (_ ≫= _) _ => first [eapply idx_bind; [solve [eauto with keeps]|intros ? ?] | apply (idx_bind _ _ any); [|intros ? ?]]
  | |- keeps (match ?x with _ => _ end) _ => destruct x eqn:?
  | |- keeps (if ?x then _ else _) _ => destruct x
  | |- keeps _ _ => solve [eauto with keeps]
  end.

Lemma request_keeps n r : exists h, Lookup (reqName r) builtinHandlers = Some (OpReadWrite, h) /\ keeps (h (MkTx true n) (reqArgs r)) any.
Proof.
  destruct r; (eexists; split; [reflexivity|]);
    unfold handlePut, handleDel, handleExpire, handleIncr, handleSetNX, handleCAS, handleCompareAndDel, handleGetDel, handleGetSet, handlePersist, handleIncrEx, handleCAEX, decode.
  all: keep.
Qed.

End Keeps.

(** ** The history *)

(** An entry of the log: a request with the clock of its proposer, or an entry that is
    no command. *)
Inductive item := Cmd (n : Z) (r : request) | Other.

Definition specItem (hash : bytes -> Z) (m : kvmap) (it : item) : kvmap := match it with Cmd n r => specApply hash n r m | Other => m end.

(** The map after the entries [l], from nothing. *)
Definition replayed (hash : bytes -> Z) (l : list item) : kvmap := foldl (specItem hash) (fun _ => None) l.

(** The values a request brings, besides a counter. *)
Definition reqLen (r : request) : Z := match r with RPut _ v _ | RSetNX _ v _ | RCAS _ v _ _ | RGetSet _ v _ => blen v | _ => 0 end.

Definition smallReq (room : Z) (r : request) : Prop := entrySpanExact (blen (reqKey r)) (Z.max 8 (reqLen r)) <= room.
Definition smallMap (room : Z) (m : kvmap) : Prop := forall k v e, m k = Some (v, e) -> entrySpanExact (blen k) (blen v) <= room.

Lemma counterBytes_len n : blen (counterBytes n) = 8.
Proof. apply blen_be_put. Qed.

Lemma decide_small room n r m : smallMap room m -> smallReq room r -> entrySpanExact (blen (reqKey r)) (blen (written (decide_ n r (m (reqKey r))).2)) <= room.
Proof.
  intros Hm. unfold smallReq. assert (forall v e, live n (m (reqKey r)) = Some (v, e) -> entrySpanExact (blen (reqKey r)) (blen v) <= room) as Hl.
  { intros v e Hl. apply (Hm _ v e). unfold live in Hl. destruct (m (reqKey r)) as [[v' e']|]; [|done]. by destruct (Shard.isExpired e' n). }
  unfold entrySpanExact in *. intros Hr. destruct r; cbn [reqKey reqLen decide_] in *;
    repeat (case_match; try (cbn [written snd]; rewrite ?blen_nil, ?counterBytes_len; first [lia|by eapply Hl])); cbn [written snd]; rewrite ?blen_nil; lia.
Qed.

Lemma specApply_small room hash n r m : smallMap room m -> smallReq room r -> smallMap room (specApply hash n r m).
Proof.
  intros Hm Hr k v e. pose proof (decide_small room n r m Hm Hr) as Hd. unfold specApply, after. destruct (decide_ n r (m (reqKey r))).2 as [|v' e'|].
  - apply Hm.
  - destruct (decide (k = reqKey r)) as [->|Hne]; [rewrite bool_decide_true by done; by intros [= <- <-]|rewrite bool_decide_false by done].
    destruct (_ =? _); [done|apply Hm].
  - destruct (bool_decide _); [done|apply Hm].
Qed.

(** ** A replica *)

Section Replica.
Context {S : Type} {K : KVStore S} {L : KVLaws S} {W : Watermark S} {WL : WatermarkLaws S}.
Context (registry : nat -> string -> option (OpKind * handler (S:=S))) (stopped : nat -> bool) (durable : bool).
Context (hist : list item).
#[local] Abbreviation fsm := (@fsm S).

(** The operations are registered, the store of a replica refuses writes rather than
    evict, requests fit, and no stamp is before an earlier one. *)
Record setup : Prop := {
  su_registry n r : registry n (reqName r) = Lookup (reqName r) builtinHandlers;
  su_lossy : ~ lossy;
  su_cmd p n r : hist !! p = Some (Cmd n r) -> reqOk r /\ smallReq room r /\ argsFit (reqArgs r) /\ fits 64 n;
  su_clock p p' n n' r r' : (p <= p')%nat -> hist !! p = Some (Cmd n r) -> hist !! p' = Some (Cmd n' r') -> n <= n';
  su_len : blen hist < 2 ^ 64 - 1;
}.

(** The entry of index [p + 1]. *)
Definition isEntry (p : nat) (l : LogCodec.Log) : Prop :=
  LogCodec.Index l = Z.of_nat p + 1 /\
  match hist !! p with
  | Some (Cmd n r) => LogCodec.Type_ l = LogCommand /\ EncodeLogEntryStamped (reqName r) (reqArgs r) n = Ok (LogCodec.Data l)
  | Some Other => LogCodec.Type_ l <> LogCommand
  | None => False
  end.

(** [logs] are the entries from position [p] on. *)
Fixpoint delivers (p : nat) (logs : list LogCodec.Log) : Prop :=
  match logs with [] => True | l :: logs => isEntry p l /\ delivers (Datatypes.S p) logs end.

(** [n] is not before the stamps of the entries up to position [p], that one included. *)
Definition asOf (p : nat) (n : Z) : Prop := forall q m r, (q <= p)%nat -> hist !! q = Some (Cmd m r) -> m <= n.

(** The store is what the first [p] entries give. *)
Definition holds (c : S) (p : nat) : Prop :=
  (p <= length hist)%nat /\ kvOk c /\ forall n, asOf p n -> stands n (content c) (replayed hash (take p hist)).

Lemma replayed_next p it : hist !! p = Some it -> replayed hash (take (Datatypes.S p) hist) = specItem hash (replayed hash (take p hist)) it.
Proof. intros Hp. unfold replayed. by rewrite (take_S_r _ _ _ Hp), foldl_app. Qed.

Lemma replayed_small p : setup -> smallMap room (replayed hash (take p hist)).
Proof.
  intros Hsu. induction p as [|p IH]; [by intros k v e|]. destruct (hist !! p) as [it|] eqn:Hp.
  - rewrite (replayed_next p it Hp). destruct it as [n r|]; [|done]. cbn. apply specApply_small; [done|]. by destruct (su_cmd Hsu p n r Hp) as (_ & ? & _).
  - rewrite take_ge by (apply lookup_ge_None in Hp; lia). rewrite take_ge in IH by (by apply lookup_ge_None in Hp). done.
Qed.

Lemma holds_other c p : holds c p -> hist !! p = Some Other -> holds c (Datatypes.S p).
Proof.
  intros (Hp & Hok & Ha) Hi. split; [by apply lookup_lt_Some in Hi|]. split; [done|]. intros n Hn. rewrite (replayed_next p _ Hi). cbn.
  apply Ha. intros q m r Hq. apply Hn. lia.
Qed.

(** The answer of the replay to a request; the delete of an expired entry may be
    answered as that of an absent one. *)
Definition answerOf (o : outcome opErr bytes) : ApplyResponse :=
  match o with Ok b => MkResp b None | Err e => MkResp [] (Some (EOp e)) | Panic => emptyResp end.
Definition answers (p : nat) (resp : ApplyResponse) : Prop :=
  forall n r, hist !! p = Some (Cmd n r) -> exists o, answersAs n r (replayed hash (take p hist) (reqKey r)) o /\ resp = answerOf o.

Lemma decided_advances n r x : match (decide_ n r x).1 with Ok _ => True | Err e => classifyApplyErr (EOp e) = classAdvance | Panic => False end.
Proof. destruct r; cbn [decide_]; destruct (live n x) as [[v' e']|]; repeat match goal with |- context [if ?b then _ else _] => destruct b end; done. Qed.

Lemma setup_fatal e (r : bool) : fullErr e -> fatal r (MkResp [] (Some (EOp (OCache e)))) = r.
Proof. intros [->|[->| ->]]; cbn; by rewrite bool_decide_true, andb_true_r. Qed.

(** One command: applied, or refused for want of room with nothing changed. *)
Lemma command_step fuel p n r l (f : fsm) before : setup -> hist !! p = Some (Cmd n r) -> isEntry p l -> holds (cache f) p ->
  exists c resp, applyWithRetry registry stopped (Datatypes.S fuel) 0 (LogCodec.Data l) before f = (setCache f c, Ok (Verdict resp)) /\
    cAppliedIndex c = cAppliedIndex (cache f) /\
    ((fatal true resp = false /\ holds c (Datatypes.S p) /\ answers p resp) \/ (fatal true resp = true /\ holds c p)).
Proof.
  intros Hsu Hp Hl (Hlen & Hok & Ha). unfold isEntry in Hl. rewrite Hp in Hl. destruct Hl as (_ & _ & Henc). destruct (su_cmd Hsu p n r Hp) as (Hr & Hsmall & Hargs & Hn).
  assert (asOf p n) as Hnow by (intros q m r' Hq Hq'; by eapply (su_clock Hsu)). pose proof (Ha n Hnow) as Hagree.
  destruct (request_stands n n (cache f) r _ (su_lossy Hsu) Hok Hr Hagree ltac:(lia)) as (h & Hh & Hrun).
  destruct (request_keeps n r) as (h' & Hh' & Hk). rewrite Hh in Hh'. injection Hh' as <-. destruct (Hk (cache f) Hok) as (_ & Hidx & _).
  assert (blen (str (reqName r)) <= maxOpNameLen) as Hname by (by destruct r).
  destruct (decode_encodeStamped (reqName r) (reqArgs r) n Hname Hargs Hn) as (b & Hb & Hdec). rewrite Henc in Hb. injection Hb as <-.
  destruct (h (MkTx true n) (reqArgs r) (cache f)) as [c o] eqn:Eh. cbn in Hidx. destruct Hrun as (Hokc & Hres).
  assert (Hdata : o <> Panic -> applyEntryData registry (LogCodec.Data l) f = (setCache f c, Ok (answerOf o))).
  { intros Ho. unfold applyEntryData. rewrite Hdec, bind_gets, (su_registry Hsu), Hh. unfold runHandler. rewrite Eh. by destruct o. }
  assert (Hrun : o <> Panic -> retries (answerOf o) = false -> applyWithRetry registry stopped (Datatypes.S fuel) 0 (LogCodec.Data l) before f = (setCache f c, Ok (Verdict (answerOf o)))).
  { intros Ho Hre. cbn [applyWithRetry]. rewrite (bind_ok _ _ _ _ _ (Hdata Ho)), Hre. done. }
  exists c, (answerOf o). destruct Hres as [[Ho Hag]|(e & He & -> & Hag)].
  - pose proof (decided_advances n r (content (cache f) (reqKey r))) as Hadv. rewrite <- Ho in Hadv.
    assert (o <> Panic /\ retries (answerOf o) = false /\ fatal true (answerOf o) = false) as (H1 & H2 & H3).
    { destruct o as [b|e|]; [done| |done]. unfold retries, fatal, answerOf. cbn [RErr]. rewrite Hadv. done. }
    split; [by apply Hrun|]. split; [done|]. left. split; [done|]. split.
    + split; [by apply lookup_lt_Some in Hp|]. split; [done|]. intros n' Hn'. rewrite (replayed_next p _ Hp). cbn. apply (stands_later n); [|done]. eapply Hn'; [|done]. lia.
    + intros n' r' Hp'. rewrite Hp in Hp'. injection Hp' as <- <-. exists o. split; [|done]. rewrite Ho. by apply decide_stands.
  - pose proof (decide_small room n r _ (replayed_small p Hsu) Hsmall) as Hsm. assert (fullErr e) as Hfull.
    { destruct He as [?|[[_ ?]|[_ Hk']]]; [done|lia|]. exfalso. assert (keyFits (reqKey r)) as Hkf by (destruct r; cbn in *; tauto). unfold keyFits, maxKeyLen in *. lia. }
    split; [apply Hrun; [done|by destruct Hfull as [->|[->| ->]]]|]. split; [done|]. right. split; [by apply (setup_fatal e true)|].
    split; [done|]. split; [done|]. intros n' Hn'. apply (stands_later n); [|done]. eapply Hn'; [|done]. lia.
Qed.

(** ** Recording *)

(** Recording always succeeds in full. *)
Definition exact : Prop := forall i s, kvOk s -> 0 <= i < 2 ^ 64 - 1 -> cAppliedIndex (cSetAppliedIndex i durable s).1 = i.

Lemma holds_same c c' p : (forall k, content c' k = content c k) -> kvOk c' -> holds c p -> holds c' p.
Proof. intros Hc Hok (Hp & _ & Ha). split; [done|]. split; [done|]. intros n Hn k. rewrite Hc. by apply Ha. Qed.

Lemma setWatermark_ok i (f : fsm) p : 0 <= i < 2 ^ 64 - 1 -> holds (cache f) p -> exists c, setWatermark durable i f = (setCache f c, Ok tt) /\ holds c p /\
  (cAppliedIndex (cache f) <= i -> cAppliedIndex (cache f) <= cAppliedIndex c <= i) /\ (exact -> cAppliedIndex c = i).
Proof.
  intros Hi Hh. destruct (wm_set i durable (cache f) (proj1 (proj2 Hh)) Hi) as (c & He & Hok & Hc & Hidx). exists c. unfold setWatermark. rewrite He.
  split; [done|]. split; [by eapply holds_same|]. split; [done|]. intros Hx. specialize (Hx i (cache f) (proj1 (proj2 Hh)) Hi). by rewrite He in Hx.
Qed.

Definition recordPrefix (w a : Z) : st fsm cerr unit := if w <? a then record durable a else mret tt.

(** Recording the prefix [a] of a batch on a cache that recorded [w]. *)
Lemma recordPrefix_ok w a (f : fsm) p : setup -> cAppliedIndex (cache f) = w -> 0 <= w <= a -> a <= Z.of_nat p -> holds (cache f) p ->
  exists f', recordPrefix w a f = (f', Ok tt) /\ holds (cache f') p /\ w <= cAppliedIndex (cache f') <= a /\ (exact -> cAppliedIndex (cache f') = a) /\
    abandoned f' = abandoned f /\ waits f' = waits f.
Proof.
  intros Hsu Hw Ha Hp Hh. unfold recordPrefix. destruct (Z.ltb_spec w a) as [Hlt|Hge]; [|exists f; split_and!; try done; lia].
  assert (0 <= a < 2 ^ 64 - 1) as Hr by (pose proof (su_len Hsu); pose proof (proj1 Hh); unfold blen in *; lia).
  destruct (setWatermark_ok a f p Hr Hh) as (c & He & Hh' & Hidx & Hx). unfold record. rewrite (bind_ok _ _ _ _ _ He).
  eexists. split; [reflexivity|]. rewrite Hw in *. specialize (Hidx ltac:(lia)). cbn. destruct (a <=? appliedIndex f); cbn; split_and!; try done; lia.
Qed.

(** ** Batches *)

(** What the entries from position [p] on did, with the index [w] recorded before the
    batch and the prefix [a] of it applied: all of them, or those before one that halted
    the process. *)
Definition batched (p : nat) (w a : Z) (logs : list LogCodec.Log) (resps : list ApplyResponse) (f : fsm) (out : fsm * outcome cerr (list ApplyResponse * bool)) : Prop :=
  exists f' rs (fin : bool), out = (f', Ok (resps ++ rs, fin)) /\ abandoned f' = abandoned f /\ waits f' = waits f /\
    (forall i resp, rs !! i = Some resp -> (Z.to_nat w <= p + i)%nat -> fin = true -> answers (p + i) resp) /\
    if fin then
      halted f' = halted f /\ appliedIndex f' = appliedIndex f /\ length rs = length logs /\ cAppliedIndex (cache f') = w /\ holds (cache f') (Nat.max (p + length logs) (Z.to_nat w))
    else halted f' = true /\ exists q, holds (cache f') q /\ (Nat.max p (Z.to_nat w) <= q < p + length logs)%nat /\ w <= cAppliedIndex (cache f') <= Z.of_nat q /\
      (exact -> a = Z.of_nat (Nat.max p (Z.to_nat w)) -> cAppliedIndex (cache f') = Z.of_nat q).

(** An entry that was applied or passed over, then the rest. *)
Lemma batched_cons p w a a' l logs resps resp (f f1 : fsm) out : ((Z.to_nat w <= p)%nat -> answers p resp) ->
  (a = Z.of_nat (Nat.max p (Z.to_nat w)) -> a' = Z.of_nat (Nat.max (Datatypes.S p) (Z.to_nat w))) ->
  abandoned f1 = abandoned f -> waits f1 = waits f -> halted f1 = halted f -> appliedIndex f1 = appliedIndex f ->
  batched (Datatypes.S p) w a' logs (resps ++ [resp]) f1 out -> batched p w a (l :: logs) resps f out.
Proof.
  intros Hans Hrt Hab Hwt Hha Hap (f' & rs & fin & -> & H1 & H2 & H3 & H4). exists f', (resp :: rs), fin. rewrite <- app_assoc.
  split; [done|]. split; [congruence|]. split; [congruence|]. split.
  - intros [|i] x; cbn; [intros [= <-] Hx _; rewrite Nat.add_0_r in *; by apply Hans|]. intros Hx Hwi Hfin. rewrite Nat.add_succ_r in *. by apply (H3 i x).
  - destruct fin.
    + destruct H4 as (H5 & H6 & H7 & H8 & H9). split_and!; try done; [congruence|congruence|cbn; congruence|]. cbn [length]. by rewrite Nat.add_succ_r.
    + destruct H4 as (H5 & q & H6 & H7 & H8 & H9). split; [done|]. exists q. split; [done|]. cbn [length]. split; [lia|]. split; [done|]. intros Hx Ht. apply H9; [done|by apply Hrt].
Qed.

Lemma batchLoop_ok fuel w logs : setup -> 0 <= w -> forall p a resps (f : fsm), delivers p logs -> cAppliedIndex (cache f) = w ->
  w <= a <= Z.of_nat (Nat.max p (Z.to_nat w)) -> holds (cache f) (Nat.max p (Z.to_nat w)) ->
  batched p w a logs resps f (batchLoop registry stopped durable true (Datatypes.S fuel) w logs a resps f).
Proof.
  intros Hsu Hw. induction logs as [|l logs IH]; intros p a resps f Hd Hf Ha Hh; cbn [batchLoop].
  { exists f, [], true. rewrite app_nil_r. split_and!; try done. rewrite Nat.add_0_r. done. }
  destruct Hd as [He Hd]. pose proof He as [Hidx Hkind]. rewrite Hidx. cbv zeta. fold (recordPrefix w a).
  set (raised := if a <? Z.of_nat p + 1 then Z.of_nat p + 1 else a).
  assert (w <= raised <= Z.of_nat (Nat.max (Datatypes.S p) (Z.to_nat w)) /\ (a = Z.of_nat (Nat.max p (Z.to_nat w)) -> raised = Z.of_nat (Nat.max (Datatypes.S p) (Z.to_nat w)))) as [Hr Hrt].
  { unfold raised. destruct (Z.ltb_spec a (Z.of_nat p + 1)); lia. }
  assert (Hnext : forall resp f1, ((Z.to_nat w <= p)%nat -> answers p resp) -> cAppliedIndex (cache f1) = w ->
    holds (cache f1) (Nat.max (Datatypes.S p) (Z.to_nat w)) -> abandoned f1 = abandoned f -> waits f1 = waits f -> halted f1 = halted f -> appliedIndex f1 = appliedIndex f ->
    batched p w a (l :: logs) resps f (batchLoop registry stopped durable true (Datatypes.S fuel) w logs raised (resps ++ [resp]) f1)).
  { intros resp f1 Hans Hf1 Hh1 Hab Hwt Hha Hap. eapply batched_cons; try done. by apply IH. }
  clear IH. destruct (hist !! p) as [[n r|]|] eqn:Hp; [| |done].
  - destruct Hkind as [-> Henc]. rewrite Z.eqb_refl. cbn [negb]. destruct (Z.leb_spec (Z.of_nat p + 1) w) as [Hle|Hgt].
    + apply Hnext; try done; [lia|]. by replace (Nat.max (Datatypes.S p) (Z.to_nat w)) with (Nat.max p (Z.to_nat w)) by lia.
    + replace (Nat.max p (Z.to_nat w)) with p in * by lia. destruct (command_step fuel p n r l f (recordPrefix w a) Hsu Hp He Hh) as (c & resp & Hrun & Hci & Hres).
      rewrite (bind_ok _ _ _ _ _ Hrun). destruct Hres as [(Hfat & Hhc & Hans)|[Hfat Hhc]]; rewrite Hfat.
      * apply Hnext; try done; [by rewrite <- Hf|]. by replace (Nat.max (Datatypes.S p) (Z.to_nat w)) with (Datatypes.S p) by lia.
      * destruct (recordPrefix_ok w a (setCache f c) p Hsu ltac:(by rewrite <- Hf) ltac:(lia) ltac:(lia) Hhc) as (f2 & Hrp & Hh2 & Hi2 & Hx2 & Hab2 & Hwt2).
        rewrite (bind_ok _ _ _ _ _ Hrp). exists (setHalted f2), [resp], false. split; [done|]. split; [done|]. split; [done|]. split; [done|]. split; [done|].
        exists p. split; [done|]. cbn [length]. split; [lia|]. split; [cbn; lia|]. intros Hx Ht. cbn. rewrite (Hx2 Hx). lia.
  - assert ((LogCodec.Type_ l =? LogCommand) = false) as -> by (by apply Z.eqb_neq). cbn [negb].
    apply Hnext; try done; [by intros _ n r Hn; rewrite Hp in Hn|]. destruct (decide (Z.to_nat w <= p)%nat).
    + replace (Nat.max (Datatypes.S p) (Z.to_nat w)) with (Datatypes.S p) by lia. apply holds_other; [|done]. by replace p with (Nat.max p (Z.to_nat w)) by lia.
    + by replace (Nat.max (Datatypes.S p) (Z.to_nat w)) with (Nat.max p (Z.to_nat w)) by lia.
Qed.

(** ** Runs *)

#[local] Abbreviation mark f := (Z.to_nat (cAppliedIndex (cache f))).

(** A process that goes on, with the entries from position [p] on to come. *)
Record running (f : fsm) (p : nat) : Prop := {
  ru_abandoned : abandoned f = false;
  ru_halted : halted f = false;
  ru_holds : holds (cache f) (Nat.max p (mark f));
  ru_applied : appliedIndex f <= Z.of_nat (Nat.max p (mark f));
  ru_exact : exact -> (p <= mark f)%nat;
}.

(** What is left of a process that halted. *)
Definition stoppedAt (f : fsm) (q : nat) : Prop := halted f = true /\ holds (cache f) q /\ cAppliedIndex (cache f) <= Z.of_nat q /\ (exact -> cAppliedIndex (cache f) = Z.of_nat q).

Lemma maxIndex_delivers logs : forall p, delivers p logs -> logs <> [] -> maxIndex logs = Z.of_nat (p + length logs).
Proof.
  induction logs as [|l logs IH] using rev_ind; intros p Hd Hn; [done|]. unfold maxIndex. rewrite foldl_app. cbn [foldl]. fold (maxIndex logs).
  assert (delivers p logs /\ LogCodec.Index l = Z.of_nat (p + length logs) + 1) as [Hd' Hl].
  { clear IH Hn. revert p Hd. induction logs as [|l' logs IH]; intros p; cbn; [intros [[? _] _]; split; [done|]; lia|].
    intros [He Hd]. destruct (IH _ Hd) as [H1 H2]. split; [done|]. lia. }
  rewrite length_app, Hl. cbn [length]. destruct (decide (logs = [])) as [->|Hne].
  - cbn. rewrite (proj2 (Z.ltb_lt _ _)) by lia. lia.
  - rewrite (IH p Hd' Hne), (proj2 (Z.ltb_lt _ _)) by lia. lia.
Qed.

(** The end of a batch. *)
Lemma finish_ok p w len (f : fsm) : setup -> (0 < len)%nat -> cAppliedIndex (cache f) = w -> 0 <= w -> holds (cache f) (Nat.max (p + len) (Z.to_nat w)) ->
  appliedIndex f <= Z.of_nat (Nat.max p (Z.to_nat w)) -> abandoned f = false -> halted f = false -> (exact -> (p <= Z.to_nat w)%nat) ->
  exists f', ((if w <? Z.of_nat (p + len) then setWatermark durable (Z.of_nat (p + len)) else mret tt);; advanceApplied (Z.of_nat (p + len))) f = (f', Ok tt) /\
    running f' (p + len).
Proof.
  intros Hsu Hlen Hf Hw Hh Hap Hab Hha Hx. pose proof (proj1 Hh) as Hbound. pose proof (su_len Hsu) as Hlim. unfold blen in Hlim.
  assert (exists f1, (if w <? Z.of_nat (p + len) then setWatermark durable (Z.of_nat (p + len)) else mret tt) f = (f1, Ok tt) /\ appliedIndex f1 = appliedIndex f /\
    abandoned f1 = false /\ halted f1 = false /\ holds (cache f1) (Nat.max (p + len) (mark f1)) /\ (exact -> (p + len <= mark f1)%nat) /\ (Z.to_nat w <= mark f1)%nat) as (f1 & Hr1 & Ha1 & Hb1 & Hc1 & Hh1 & Hx1 & Hm1).
  { destruct (Z.ltb_spec w (Z.of_nat (p + len))) as [Hlt|Hge].
    - destruct (setWatermark_ok (Z.of_nat (p + len)) f (Nat.max (p + len) (Z.to_nat w)) ltac:(lia) Hh) as (c & He & Hh' & Hidx & Hex).
      specialize (Hidx ltac:(lia)). exists (setCache f c). split; [done|]. cbn. split_and!; try done; [|intros Hxx; specialize (Hex Hxx); lia|lia].
      by replace (Nat.max (p + len) (Z.to_nat (cAppliedIndex c))) with (Nat.max (p + len) (Z.to_nat w)) by lia.
    - exists f. rewrite Hf. split_and!; try done. intros _. lia. }
  rewrite (bind_ok _ _ _ _ _ Hr1). eexists. split; [reflexivity|]. unfold advanceApplied, modify. destruct (Z.leb_spec (Z.of_nat (p + len)) (appliedIndex f1)); cbn; split; try done; cbn; lia.
Qed.

(** What a process answered to the entries from position [p] on that it had not seen. *)
Definition answered (f : fsm) (p : nat) (rs : list ApplyResponse) : Prop :=
  forall i resp, rs !! i = Some resp -> (mark f <= p + i)%nat -> answers (p + i) resp.

Lemma ApplyBatch_ok fuel logs p (f : fsm) : setup -> running f p -> delivers p logs -> exists f' rs,
  ApplyBatch registry stopped durable true (Datatypes.S fuel) logs f = (f', Ok rs) /\
  ((running f' (p + length logs) /\ length rs = length logs /\ answered f p rs) \/ exists q, stoppedAt f' q).
Proof.
  intros Hsu [Hab Hha Hh Hap Hx] Hd. unfold ApplyBatch. rewrite bind_gets. cbn [id]. rewrite Hab. pose proof (wm_range (cache f) (proj1 (proj2 Hh))) as Hw.
  destruct (batchLoop_ok fuel (cAppliedIndex (cache f)) logs Hsu Hw p (cAppliedIndex (cache f)) [] f Hd eq_refl ltac:(lia) Hh) as (f1 & rs & fin & Hrun & Hb1 & _ & Hans & Hres).
  cbv zeta. rewrite (bind_ok _ _ _ _ _ Hrun). cbn [app]. destruct fin; cbn [negb].
  - destruct Hres as (Hh1 & Ha1 & Hl1 & Hw1 & Hho). destruct (decide (logs = [])) as [->|Hne].
    + exists f1, rs. split; [done|]. left. cbn in *. rewrite Nat.add_0_r in *. split; [|split; [done|by intros i resp Hi Hm; apply (Hans i)]].
      split; rewrite ?Hw1; try done; congruence.
    + rewrite (maxIndex_delivers logs p Hd Hne). assert (0 < length logs)%nat as Hpos by (destruct logs; [done|cbn; lia]). rewrite (proj2 (Z.ltb_lt 0 _)) by lia.
      destruct (finish_ok p (cAppliedIndex (cache f)) (length logs) f1 Hsu Hpos Hw1 Hw Hho ltac:(congruence) ltac:(congruence) ltac:(congruence) Hx) as (f2 & Hfin & Hr2).
      rewrite (bind_ok _ _ _ _ _ Hfin). exists f2, rs. split; [done|]. left. split; [done|]. split; [done|]. intros i resp Hi Hm. by apply (Hans i).
  - destruct Hres as (Hh1 & q & Hq & Hr & Hi & Hex). exists f1, rs. split; [done|]. right. exists q. split_and!; try done; [lia|]. intros Hxx. apply Hex; [done|]. specialize (Hx Hxx). lia.
Qed.

Lemma record_ok p (f : fsm) : setup -> (mark f <= p)%nat -> abandoned f = false -> halted f = false -> holds (cache f) (Datatypes.S p) -> appliedIndex f <= Z.of_nat p ->
  exists f', record durable (Z.of_nat p + 1) f = (f', Ok tt) /\ running f' (Datatypes.S p).
Proof.
  intros Hsu Hm Hab Hha Hh Hap. pose proof (su_len Hsu). pose proof (proj1 Hh). unfold blen in *. pose proof (wm_range (cache f) (proj1 (proj2 Hh))).
  destruct (setWatermark_ok (Z.of_nat p + 1) f _ ltac:(lia) Hh) as (c & He & Hh' & Hidx & Hx). specialize (Hidx ltac:(lia)). unfold record. rewrite (bind_ok _ _ _ _ _ He).
  eexists. split; [reflexivity|]. assert (Nat.max (Datatypes.S p) (Z.to_nat (cAppliedIndex c)) = Datatypes.S p) as Hmax by lia.
  cbn. rewrite (proj2 (Z.leb_gt _ _)) by (cbn; lia). split; cbn; rewrite ?Hmax; try done; [lia|]. intros Hxx. rewrite (Hx Hxx). lia.
Qed.

Lemma Apply_ok fuel l p n r (f : fsm) : setup -> running f p -> isEntry p l -> hist !! p = Some (Cmd n r) -> exists f' resp,
  Apply registry stopped durable true (Datatypes.S fuel) l f = (f', Ok (Some resp)) /\
  ((running f' (Datatypes.S p) /\ answered f p [resp]) \/ exists q, stoppedAt f' q).
Proof.
  intros Hsu [Hab Hha Hh Hap Hx] He Hp. unfold Apply. rewrite bind_gets. cbn [id]. rewrite Hab, (proj1 He). pose proof (wm_range (cache f) (proj1 (proj2 Hh))) as Hw.
  destruct (Z.leb_spec (Z.of_nat p + 1) (cAppliedIndex (cache f))) as [Hle|Hgt].
  - eexists _, emptyResp. split; [reflexivity|]. left. assert (Nat.max (Datatypes.S p) (mark f) = Nat.max p (mark f)) as Hmax by lia. split.
    + destruct (Z.leb_spec (Z.of_nat p + 1) (appliedIndex f)); split; cbn; rewrite ?Hmax; try done; lia.
    + intros [|i] resp Hi Hm; [lia|done].
  - replace (Nat.max p (mark f)) with p in * by lia. destruct (command_step fuel p n r l f (mret tt) Hsu Hp He Hh) as (c & resp & Hrun & Hidx & Hcase). rewrite Hrun.
    destruct Hcase as [(-> & Hc & Ha)|(-> & Hc)].
    + assert (holds (cache (setCache f c)) (Datatypes.S p)) as Hc' by done.
      destruct (record_ok p (setCache f c) Hsu ltac:(cbn; rewrite Hidx; lia) Hab Hha Hc' Hap) as (f' & Hr & Hf'). rewrite (bind_ok _ _ _ _ _ Hr).
      eexists _, _. split; [reflexivity|]. left. split; [done|]. intros [|i] resp' Hi Hm; [|done]. injection Hi as <-. by rewrite Nat.add_0_r.
    + eexists _, _. split; [reflexivity|]. right. exists p. split; [done|]. cbn. rewrite Hidx. split_and!; try done; [lia|]. intros Hxx. specialize (Hx Hxx). lia.
Qed.

(** The processes of one replica over one store: a process starts on an empty
    store, takes batches and single commands in log order, and may be replaced
    by another on the same store, to which the log is delivered again from
    any entry that is not beyond the watermark. *)
Inductive reaches : fsm -> nat -> Prop :=
| reaches_start c w : kvOk c -> (forall k, content c k = None) -> cAppliedIndex c = 0 -> reaches (MkFSM c 0 false false w) 0
| reaches_batch f p fuel logs f' rs : reaches f p -> halted f = false -> delivers p logs ->
    ApplyBatch registry stopped durable true (Datatypes.S fuel) logs f = (f', Ok rs) -> reaches f' (p + length logs)
| reaches_apply f p fuel l n r f' resp : reaches f p -> halted f = false -> isEntry p l -> hist !! p = Some (Cmd n r) ->
    Apply registry stopped durable true (Datatypes.S fuel) l f = (f', Ok resp) -> reaches f' (Datatypes.S p)
| reaches_restart f p i w : reaches f p -> exact -> (i <= mark f)%nat -> reaches (MkFSM (cache f) 0 false false w) i.

Lemma stoppedAt_halted f q : stoppedAt f q -> halted f = true.
Proof. by intros [? _]. Qed.

Lemma reaches_ok f p : setup -> reaches f p -> running f p \/ exists q, stoppedAt f q.
Proof.
  intros Hsu. induction 1 as [c w Hok Hc Hidx|f p fuel logs f' rs _ IH Hha Hd Hrun|f p fuel l n r f' resp _ IH Hha He Hp Hrun|f p i w _ IH Hx Hi].
  - left. split; cbn; rewrite ?Hidx; try done; try lia. split; [lia|]. split; [done|]. intros n _ k. left. by rewrite Hc.
  - destruct IH as [IH|[q IH]]; [|by rewrite (stoppedAt_halted _ _ IH) in Hha].
    destruct (ApplyBatch_ok fuel logs p f Hsu IH Hd) as (f1 & rs1 & Hrun1 & Hcase). rewrite Hrun in Hrun1. injection Hrun1 as -> ->. destruct Hcase as [[H1 _]|H1]; [by left|by right].
  - destruct IH as [IH|[q IH]]; [|by rewrite (stoppedAt_halted _ _ IH) in Hha].
    destruct (Apply_ok fuel l p n r f Hsu IH He Hp) as (f1 & rs1 & Hrun1 & Hcase). rewrite Hrun in Hrun1. injection Hrun1 as -> ->. destruct Hcase as [[H1 _]|H1]; [by left|by right].
  - left. assert (holds (cache f) (mark f)) as Hh.
    { destruct IH as [[_ _ Hh _ Hle]|(q & _ & Hh & _ & Hq)]; [by replace (mark f) with (Nat.max p (mark f)) by (specialize (Hle Hx); lia)|].
      by rewrite (Hq Hx), Nat2Z.id. }
    pose proof (wm_range (cache f) (proj1 (proj2 Hh))). split; cbn; try done; [|lia]. by replace (Nat.max i (mark f)) with (mark f) by lia.
Qed.

(** C2. A replica of a shard is its log. Whatever batches and single commands
    raft delivers, across restarts that keep the store and redeliver entries,
    the live keys of the store, with their values and deadlines, are those of
    running the first [q] entries of the log, one after the other, on a plain
    map, for a [q] that neither the watermark nor the index readers wait for
    exceeds. While the process goes on [q] is at least what was delivered, and
    the next batch always comes back; unless the process halts on a full store,
    it has one response per entry, and the response of an entry not seen before
    is the one the plain map gives, deletes included; only the delete of a key
    whose entry has expired may answer, instead, that there was no such key,
    because a store drops expired entries when it finds them. The store is one
    that does not evict, and restarts are those of a store that records its
    index exactly. *)
Theorem replica_replays_log f p : setup -> reaches f p -> exists q,
  (q <= length hist)%nat /\ kvOk (cache f) /\ (forall n, asOf q n -> agree n (content (cache f)) (replayed hash (take q hist))) /\
  cAppliedIndex (cache f) <= Z.of_nat q /\
  (halted f = false -> (p <= q)%nat /\ appliedIndex f <= Z.of_nat q /\
    forall fuel logs, delivers p logs -> exists f' rs, ApplyBatch registry stopped durable true (Datatypes.S fuel) logs f = (f', Ok rs) /\
      (halted f' = false -> length rs = length logs /\ forall i resp, rs !! i = Some resp -> (q <= p + i)%nat -> answers (p + i) resp)).
Proof.
  intros Hsu Hr. destruct (reaches_ok f p Hsu Hr) as [Hrun|(q & Hq)].
  - pose proof Hrun as [_ Hha (Hlen & Hok & Ha) Hap _]. pose proof (wm_range (cache f) Hok). exists (Nat.max p (mark f)). split_and!; try done; [intros n Hn; by apply stands_agree, Ha|lia|]. intros _. split_and!; [lia|done|].
    intros fuel logs Hd. destruct (ApplyBatch_ok fuel logs p f Hsu Hrun Hd) as (f' & rs & Heq & Hcase). exists f', rs. split; [done|]. intros Hha'.
    destruct Hcase as [(_ & Hl & Hans)|[q' Hq']]; [|by rewrite (stoppedAt_halted _ _ Hq') in Hha']. split; [done|]. intros i resp Hi Hle. apply (Hans i); [done|lia].
  - destruct Hq as (Hha & (Hlen & Hok & Ha) & Hle & _). exists q. split_and!; try done; [intros n Hn; by apply stands_agree, Ha|by rewrite Hha].
Qed.

End Replica.
