(* ===== verification/CacheFSM.v ===== *)
(** * The cache under the state machine: its applied index keeps the promises the
    replica relies on, and a sample replica runs on it. *)
From S2P Require Import Prelude CacheConfig SipHash Entry Page IndexTable Shard ShardInv ShardGet ShardPut ShardRoom ShardEvict ShardFit ShardWrite ShardProps CacheFile Cache Wire KVWire KVWireProps KVOps KVSpec CacheProps CacheMark LogCodec ShardLog ShardFSM FSMProps.
From stdpp Require Import strings.
Import Entry Page IndexTable Shard KVWire KVOps ShardLog ShardFSM.
#[local] Open Scope Z_scope.

Section Instance_.
Context (hashKey : bytes -> Z) (Hhash : forall k, fits 64 (hashKey k)).
Context (ws : nat -> world) (cfg : Config) (Hcfg : cfg_ok cfg) (Hpol : AtCapPolicy cfg = PolicyRingbufEvict \/ AtCapPolicy cfg = PolicyRejectWrites).
Context (nbits : Z) (Hbits : 0 <= nbits < 64) (Hshards : NumShards cfg = 2 ^ nbits).
Context (mm : bool).
#[local] Abbreviation shard_ok := (shard_ok hashKey cfg).
#[local] Abbreviation lookup := (lookup hashKey).
#[local] Abbreviation stays := (stays hashKey cfg).
#[local] Abbreviation shardForH := (Cache.shardForH hashKey ws cfg).
#[local] Abbreviation cell_ok := (cell_ok hashKey cfg mm).
#[local] Abbreviation cache_ok := (cache_ok hashKey cfg mm).
#[local] Abbreviation cellOf := (cellOf hashKey cfg).
#[local] Abbreviation cacheContent := (cacheContent hashKey cfg).

(** ** An operation on a key leaves the applied index alone *)

Lemma insert_same l : forall i cs cs', l !! i = Some cs -> isMmap (Cache.core cs') = isMmap (Cache.core cs) -> Cache.appliedIndex cs' = Cache.appliedIndex cs ->
  mapped (<[i := cs']> l) = mapped l /\ minOf (<[i := cs']> l) = minOf l.
Proof.
  induction l as [|s l IH]; intros [|i] cs cs' Hi Hm Ha; try done; cbn in Hi.
  - injection Hi as ->. cbn. by rewrite Hm, Ha.
  - destruct (IH i cs cs' Hi Hm Ha) as [H1 H2]. change (<[S i := cs']> (s :: l)) with (s :: <[i := cs']> l). unfold mapped, minOf in *. cbn [forallb foldr]. by rewrite H1, H2.
Qed.

Lemma op_index {A} c k (m : world -> Z -> M A) : cache_ok c -> (forall s, shard_ok s -> stays s (m (ws (cellOf k)) (hashKey k) s).1) ->
  Cache.AppliedIndex (shardForH k m c).1 = Cache.AppliedIndex c.
Proof.
  intros Hc Hm. destruct (cell_of hashKey cfg nbits Hbits Hshards mm c k Hc) as (cs & Hs & Hok).
  unfold Cache.shardForH, Cache.onCell. fold (cellOf k). rewrite Hs. unfold Cache.inCore.
  specialize (Hm _ (ce_shard _ _ _ _ Hok)). destruct (m _ _ (Cache.core cs)) as [s' o]. cbn [fst] in *.
  destruct (insert_same _ _ cs (Cache.setCore cs s') Hs) as [H1 H2]; [apply Hm|done|].
  rewrite !AppliedIndex_eq. cbn [Cache.shards]. by rewrite H1, H2.
Qed.

Lemma putAbs_stays w k v e s : shard_ok s -> fits 64 e -> stays s (putAbsH hashKey w cfg k v e (hashKey k) s).1.
Proof.
  intros Hok He. pose proof (put_entry hashKey Hhash w cfg Hcfg Hpol s k v e Hok He) as Hp. destruct (putAbsH _ _ _ _ _ _ _ s) as [s' [[]|er|]]; [apply Hp..|done].
Qed.

Lemma del_stays w k s : shard_ok s -> stays s (delH hashKey w cfg k (hashKey k) s).1.
Proof.
  intros Hok. pose proof (del_entry hashKey Hhash w cfg Hcfg Hpol s k Hok) as Hp. destruct (delH _ _ _ _ _ s) as [s' [b|er|]]; [apply Hp..|done].
Qed.

Lemma readAt_stays k n s : shard_ok s -> stays s (getWithExpiryAtH cfg k (hashKey k) n s).1.
Proof.
  intros Hok. destruct (stamp_quiet hashKey cfg s n Hok) as (Hs & Hok1 & _). destruct (getCore_live hashKey Hhash cfg _ k n true (proj1 Hok1)) as (s' & Hg & Hok' & _).
  unfold getWithExpiryAtH. rewrite (bind_ok _ _ _ _ _ Hs), Hg. exact (stays_trans _ _ _ _ _ Hok1 Hok').
Qed.

#[local] Abbreviation laws := (Cache_KVLaws hashKey Hhash ws cfg Hcfg Hpol nbits Hbits Hshards mm).

Lemma set_ok idx force c : cache_ok c -> 0 <= idx < 2 ^ 64 -> exists c', Cache.SetAppliedIndex ws idx force c = (c', Ok tt) /\
  Forall2 (fun s s' => marked hashKey cfg mm idx s s' /\ (mm = true -> (force = true -> forall i n, msyncOk (ws i) n = true) -> Cache.appliedIndex s' = idx))
    (Cache.shards c) (Cache.shards c').
Proof.
  intros Hc Hi. unfold Cache.SetAppliedIndex, Cache.each.
  destruct (eachFrom_ok (fun i => Cache.setAppliedShard idx force (ws i))
    (fun s s' => marked hashKey cfg mm idx s s' /\ (mm = true -> (force = true -> forall i n, msyncOk (ws i) n = true) -> Cache.appliedIndex s' = idx))
    (Cache.shards c) 0) as (l' & He & Hl).
  - intros i s Hs. pose proof (proj1 (Forall_forall _ _) (ca_shards _ _ _ c Hc) s Hs) as Hok.
    destruct (setAppliedShard_ok hashKey cfg Hcfg mm idx force (ws i) s Hok Hi) as (s' & He & Hm & Hx). exists s'. split; [done|]. split; [done|].
    intros Hmm Hsync. apply Hx; [by rewrite (ce_kind _ _ _ _ Hok)|]. intros Hf n. by apply Hsync.
  - exists (Cache.MkCache l'). rewrite He. done.
Qed.

Lemma marked_cache idx c c' : cache_ok c -> Forall2 (marked hashKey cfg mm idx) (Cache.shards c) (Cache.shards c') ->
  cache_ok c' /\ forall k, cacheContent c' k = cacheContent c k.
Proof. intros Hc Hm. destruct c' as [l']. apply (same_cells hashKey cfg mm c); [done|]. eapply Forall2_impl; [exact Hm|]. by intros s s' (H1 & _ & H2 & _). Qed.

#[export] Program Instance Cache_WatermarkLaws : @WatermarkLaws Cache.Cache _ laws (Cache_Watermark ws) := {}.
Next Obligation.
  intros k n c Hc. apply op_index; [done|]. intros s Hok. pose proof (readAt_stays k n s Hok) as Hr. unfold getAtH, getWithExpiryAtH, mbind, st_bind in *.
  destruct (advanceAppliedStamp n s) as [s1 [u| |]]; [|done..]. by destruct (getCore _ _ _ _ _ s1) as [s2 [[v e]| |]].
Qed.
Next Obligation. intros k n c Hc. apply op_index; [done|]. intros s Hok. by apply readAt_stays. Qed.
Next Obligation. intros k v e c Hc He. apply op_index; [done|]. intros s Hok. by apply putAbs_stays. Qed.
Next Obligation.
  intros k v ttl n c Hc. apply op_index; [done|]. intros s Hok. destruct (stamp_quiet hashKey cfg s n Hok) as (Hs & Hok1 & _).
  unfold putAtH. rewrite (bind_ok _ _ _ _ _ Hs). eapply stays_trans; [exact Hok1|]. apply putAbs_stays; [apply Hok1|apply expiry_fits].
Qed.
Next Obligation. intros k c Hc. apply op_index; [done|]. intros s Hok. by apply del_stays. Qed.
Next Obligation.
  intros c Hc. cbn. rewrite AppliedIndex_eq. pose proof (minOf_nonneg _ _ _ _ (ca_shards _ _ _ c Hc)). destruct (mapped _); [|done]. by destruct (_ =? _).
Qed.
Next Obligation.
  intros i d c Hc Hi. destruct (set_ok i d c Hc ltac:(lia)) as (c' & He & Hm). exists c'. split; [done|].
  assert (Forall2 (marked hashKey cfg mm i) (Cache.shards c) (Cache.shards c')) as Hm' by (eapply Forall2_impl; [exact Hm|by intros ? ? []]).
  destruct (marked_cache i c c' Hc Hm') as [Hc' Hk]. split; [done|]. split; [done|]. apply (marked_index _ _ _ _ _ _ Hm' (ca_shards _ _ _ c' Hc') Hi).
Qed.

(** A mapped cache records exactly what it is told, unless an msync fails. *)
Lemma cache_exact durable : mm = true -> (durable = true -> forall i n, msyncOk (ws i) n = true) -> @exact Cache.Cache _ laws (Cache_Watermark ws) durable.
Proof.
  intros Hmm Hsync i c Hc Hi. cbn. destruct (set_ok i durable c Hc ltac:(lia)) as (c' & -> & Hm). cbn [fst].
  assert (Forall2 (marked hashKey cfg mm i) (Cache.shards c) (Cache.shards c')) as Hm' by (eapply Forall2_impl; [exact Hm|by intros ? ? []]).
  destruct (marked_cache i c c' Hc Hm') as [[Hl' Hf' _] _]. apply exact_index; [done|rewrite Hl', Hshards; pose proof (Z.pow_pos_nonneg 2 nbits); lia| |].
  - unfold mapped. apply forallb_forall. intros s Hs. pose proof (proj1 (Forall_forall _ _) Hf' s (proj2 (list_elem_of_In _ _) Hs)) as Hok. by rewrite (ce_kind _ _ _ _ Hok), Hmm.
  - apply Forall_lookup. intros j s' Hs'. destruct (Forall2_lookup_r _ _ _ _ _ Hm Hs') as (s & _ & _ & Hx). by apply Hx.
Qed.

(** C5. Every write request of the client library meets its specification on the
    cache: the registered handler, given the stamp of a log entry and the encoded
    arguments, answers what [decide_] says for the entry of the key and does to the
    key what it says - store a value with its deadline, remove the key, or nothing,
    which may drop the key's own entry if it has expired. A store may displace a key
    of the same hash; beside that no other key changes, unless the policy is to
    evict, under which any of them may be lost. Or the write is refused, for an entry
    over the page size or a full store: then the answer is that error, and no key
    changes, but for the key's own entry if it has expired and, under the evicting
    policy, for keys that were evicted, among which the key itself may be. *)
Theorem requests_met c n r : cache_ok c -> reqOk r -> exists h, Lookup (reqName r) (@builtinHandlers _ (Cache_KVStore hashKey ws cfg)) = Some (OpReadWrite, h) /\
  @meets Cache.Cache _ laws n (reqKey r) (decide_ n r (cacheContent c (reqKey r))) c (h (MkTx true n) (reqArgs r) c).
Proof. intros Hc Hr. exact (@op_meets _ _ laws n c r Hc Hr). Qed.

End Instance_.

(** ** A new cache *)

Section New.
Context (hashKey : bytes -> Z) (cfg : Config) (Hcfg : cfg_ok cfg).

Lemma newShards_ok n : exists l, Cache.newShards cfg n = (l, Ok tt) /\ length l = n /\ Forall (cell_ok hashKey cfg false) l /\
  Forall (fun s => Cache.appliedIndex s = 0 /\ forall k, ShardInv.lookup hashKey (Cache.core s) k = None) l.
Proof.
  induction n as [|n (l & He & Hl & H1 & H2)]; [by exists []|]. cbn [Cache.newShards]. destruct (new_ok hashKey cfg Hcfg) as (s & -> & Hok & Hm & Hk). rewrite He.
  eexists. split; [reflexivity|]. split; [cbn; congruence|]. split; constructor; try done. split; cbn; try done. by rewrite Hm.
Qed.

Lemma newShards_cache : exists c, Cache.newShards cfg (Z.to_nat (NumShards cfg)) = (Cache.shards c, Ok tt) /\ cache_ok hashKey cfg false c /\
  (forall k, cacheContent hashKey cfg c k = None) /\ Cache.AppliedIndex c = 0.
Proof.
  destruct (newShards_ok (Z.to_nat (NumShards cfg))) as (l & He & Hl & H1 & H2). exists (Cache.MkCache l). split; [done|]. split.
  { split; [done|done|]. intros i s k Hs Hk. destruct Hk. by apply (Forall_lookup_1 _ _ _ _ H2 Hs). }
  split.
  - intros k. unfold cacheContent. cbn. destruct (l !! _) as [s|] eqn:Es; [|done]. by apply (Forall_lookup_1 _ _ _ _ H2 Es).
  - rewrite AppliedIndex_eq. cbn. destruct H1 as [|s l Hs _]; [done|]. cbn. by rewrite (ce_kind _ _ _ _ Hs).
Qed.

(** A valid configuration gives an empty cache. *)
Lemma New_ok : CacheConfig.Validate true cfg = Ok tt -> exists c, Cache.New cfg = Ok c /\ cache_ok hashKey cfg false c /\
  (forall k, cacheContent hashKey cfg c k = None) /\ Cache.AppliedIndex c = 0.
Proof.
  intros Hv. destruct newShards_cache as ([l] & He & Hc). exists (Cache.MkCache l). split; [|done]. unfold Cache.New. by rewrite Hv, He.
Qed.

End New.

(** ** A sample replica: two shards of four small pages that reject when full *)

Definition sampleCfg2 : Config := MkConfig 2 96 384 1 PolicyRejectWrites 0 false false false 1 true true 0 0 0 true true true.
Definition sampleWorlds : nat -> world := fun _ => sampleWorld.

Lemma sampleCfg2_ok : cfg_ok sampleCfg2.
Proof. split; vm_compute; split; done. Qed.

Definition sampleCache : Cache.Cache := Cache.MkCache (Cache.newShards sampleCfg2 2).1.

Lemma sampleCache_ok : cache_ok sampleHash sampleCfg2 false sampleCache /\ (forall k, cacheContent sampleHash sampleCfg2 sampleCache k = None) /\ Cache.AppliedIndex sampleCache = 0.
Proof.
  destruct (newShards_cache sampleHash sampleCfg2 sampleCfg2_ok) as ([l] & He & Hc). unfold sampleCache. change 2%nat with (Z.to_nat (NumShards sampleCfg2)). by rewrite He.
Qed.

Lemma sampleBits : 0 <= 1 < 64.
Proof. done. Qed.

Abbreviation sampleStore := (Cache_KVStore sampleHash sampleWorlds sampleCfg2).
Abbreviation sampleLaws := (Cache_KVLaws sampleHash sampleHash_fits sampleWorlds sampleCfg2 sampleCfg2_ok (or_intror eq_refl) 1 sampleBits eq_refl false).
Abbreviation sampleMarks :=
  (Cache_WatermarkLaws sampleHash sampleHash_fits sampleWorlds sampleCfg2 sampleCfg2_ok (or_intror eq_refl) 1 sampleBits eq_refl false).

(** A counter is incremented from nothing. *)
Lemma requests_met_witness : exists h, Lookup "incr" (@builtinHandlers _ (Cache_KVStore sampleHash sampleWorlds sampleCfg2)) = Some (OpReadWrite, h) /\
  @meets Cache.Cache _ sampleLaws 1000 [Byte.x01] (Ok (EncodeIncrResult 5), Store (counterBytes 5) 0) sampleCache (h (MkTx true 1000) (EncodeIncrArgs [Byte.x01] 5) sampleCache).
Proof.
  pose proof (requests_met sampleHash sampleHash_fits sampleWorlds sampleCfg2 sampleCfg2_ok (or_intror eq_refl) 1 sampleBits eq_refl false sampleCache 1000 (RIncr [Byte.x01] 5)
    (proj1 sampleCache_ok) ltac:(vm_compute; repeat split; discriminate)) as H.
  cbn [reqKey] in H. rewrite (proj1 (proj2 sampleCache_ok)) in H. exact H.
Defined.

(** Two increments of a counter, with an entry that is not a command between them. *)
Definition sampleHist : list item := [Cmd 1000 (RIncr [Byte.x01] 5); Other; Cmd 1001 (RIncr [Byte.x01] 6)].
Definition sampleEntry (i : Z) (it : item) : LogCodec.Log :=
  match it with
  | Cmd n r => LogCodec.MkLog i 1 LogCommand 0 (match EncodeLogEntryStamped (reqName r) (reqArgs r) n with Ok b => b | _ => [] end) []
  | Other => LogCodec.MkLog i 1 1 0 [] []
  end.
Definition sampleRegistry : nat -> string -> option (OpKind * @handler Cache.Cache) := fun _ name => Lookup name (@builtinHandlers _ sampleStore).

Lemma sample_setup : @setup Cache.Cache sampleStore sampleLaws sampleRegistry sampleHist.
Proof.
  split.
  - done.
  - done.
  - intros [|[|[|p]]] n r; cbn; try done; intros [= <- <-]; vm_compute; repeat split; discriminate.
  - intros [|[|[|p]]] [|[|[|p']]] n n' r r' Hp; cbn; try done; try (intros [= <- <-] [= <- <-]; done); lia.
  - done.
Qed.

Definition sampleLogs : list LogCodec.Log := [sampleEntry 1 (Cmd 1000 (RIncr [Byte.x01] 5)); sampleEntry 2 Other].
Definition sampleStart : @fsm Cache.Cache := MkFSM sampleCache 0 false false 0.
Abbreviation sampleBatch := (@ApplyBatch Cache.Cache (Cache_Watermark sampleWorlds) sampleRegistry (fun _ => false) false true 1 sampleLogs sampleStart).

Lemma sample_start : @reaches Cache.Cache sampleStore sampleLaws (Cache_Watermark sampleWorlds) sampleRegistry (fun _ => false) false sampleHist sampleStart 0.
Proof. apply reaches_start; apply sampleCache_ok. Qed.

Lemma sample_delivers : delivers sampleHist 0 sampleLogs.
Proof. vm_compute. repeat split; discriminate. Qed.

Lemma sample_answers : sampleBatch.2 = Ok [MkResp (EncodeIncrResult 5) None; emptyResp].
Proof. vm_compute. reflexivity. Qed.

Lemma pair_of_snd {A B} (p : A * B) b : p.2 = b -> p = (p.1, b).
Proof. by intros <-; destruct p. Qed.

Lemma sample_run : sampleBatch = (sampleBatch.1, Ok [MkResp (EncodeIncrResult 5) None; emptyResp]).
Proof. exact (pair_of_snd _ _ sample_answers). Qed.

Lemma sample_reaches : @reaches Cache.Cache sampleStore sampleLaws (Cache_Watermark sampleWorlds) sampleRegistry (fun _ => false) false sampleHist sampleBatch.1 2.
Proof. exact (reaches_batch _ _ _ _ sampleStart 0 0 sampleLogs _ _ sample_start eq_refl sample_delivers sample_run). Qed.

Lemma sample_live : halted sampleBatch.1 = false.
Proof. vm_compute. reflexivity. Qed.

Lemma sample_asOf q : asOf sampleHist q 1001.
Proof. intros p m r _ Hp. destruct p as [|[|[|p]]]; cbn in Hp; try discriminate; injection Hp as <- <-; lia. Qed.

(** After the first batch: the counter is 5, as in the replay of two entries. *)
Lemma replica_replays_log_witness : exists q, (2 <= q <= 3)%nat /\
  agree 1001 (@content _ _ sampleLaws (cache sampleBatch.1)) (replayed (@hash _ _ sampleLaws) (take q sampleHist)).
Proof.
  destruct (@replica_replays_log Cache.Cache sampleStore sampleLaws (Cache_Watermark sampleWorlds) sampleMarks sampleRegistry (fun _ => false) false sampleHist sampleBatch.1 2
    sample_setup sample_reaches) as (q & Hq & _ & Ha & _ & Hlive).
  exists q. exact (conj (conj (proj1 (Hlive sample_live)) Hq) (Ha 1001 (sample_asOf q))).
Defined.
