(* ===== verification/CacheOpen.v ===== *)
(** * Opening a cache with a data directory (src/cache/shard.go, src/cache/cache.go).

    A pages file is its header, its page regions and the sidecar beside it. [newShard]
    validates the header, rotates a bad file aside, lays down a header on a fresh one,
    and rebuilds the index of a file that has entries. Cold compaction is disabled
    ([DisableColdCompaction]); a file of version 4 is migrated by code that is not
    modelled, and such a file is reported as [OlderVersion]. *)
From S2P Require Import Prelude CacheConfig SipHash Entry Page IndexTable Shard ShardInv CacheFile Cache.
Import Entry Page IndexTable Shard.

Module CacheOpen.

Record file := MkFile { fHdr : bytes; fPages : list bytes; fSide : CacheFile.fileRead }.

Inductive openErr := OFile (e : CacheFile.fileErr) | OShard (e : cerr) | OlderVersion.

Definition ofFile {A} (o : outcome CacheFile.fileErr A) : outcome openErr A :=
  match o with Ok a => Ok a | Err e => Err (OFile e) | Panic => Panic end.

Section Open.
Context (hashKey : bytes -> Z) (w : world) (cfg : Config).
Context (rnd : option bytes).

(** What [mmapFile] maps when the file does not exist. *)
Definition zeroFile (side : CacheFile.fileRead) : file :=
  MkFile (replicate (Z.to_nat CacheFile.headerSize) Byte.x00)
    (replicate (Z.to_nat (MaxPagesPerShard cfg)) (replicate (Z.to_nat (PageSize cfg)) Byte.x00)) side.

Definition setStamp (s : shard) (n : Z) : shard :=
  MkShard (tab s) (pages s) (genCounter s) (writeIdx s) (writeSeq s) (nextVictim s) (isMmap s) (Shard.sieve s)
    (shardKey s) (flushedThroughSeq s) n (ctr s) (removed s) (calls s).

(** The header of a fresh file. *)
Definition freshHeader (h : bytes) : outcome openErr bytes :=
  match CacheFile.writeHeader rnd (PageSize cfg) (MaxPagesPerShard cfg) 0 h with
  | (h', Ok _) => Ok h'
  | (_, Err e) => Err (OFile e)
  | (_, Panic) => Panic
  end.

(** From the attachment of the pages on: the header is [h], the applied index [idx]. *)
Definition attach (h : bytes) (regions : list bytes) (side : CacheFile.fileRead) (idx : Z) (fresh : bool) : outcome openErr Cache.cshard :=
  fk ← ofFile (CacheFile.readFramingKey h);
  match fk with
  | None => Err (OFile CacheFile.framingKeyCRC)
  | Some fk =>
      floor ← ofFile (CacheFile.readFlushSidecar side);
      stamp ← ofFile (if fresh then Ok 0 else CacheFile.readAppliedStamp h);
      let (s, o) :=
        (attachMmapRegion regions;;
         modify (fun s => setStamp s stamp);;
         (if fresh then mret tt else rebuildIndexFromPages hashKey w cfg);;
         modify (fun s => setWriteIdx s (blen (pages s) - 1));;
         modify (fun s => if writeSeq s <? flushedThroughSeq s then setWriteSeq s (flushedThroughSeq s) else s))
          (emptyShard cfg true fk floor) in
      match o with
      | Ok _ => Ok (Cache.MkCS s h idx side)
      | Err e => Err (OShard e)
      | Panic => Panic
      end
  end.

Definition openFresh (f : file) : outcome openErr Cache.cshard := h ← freshHeader (fHdr f); attach h (fPages f) (fSide f) 0 true.

Definition newMmapShard (f : file) : outcome openErr Cache.cshard :=
  match CacheFile.validateHeader (fHdr f) (PageSize cfg) (MaxPagesPerShard cfg) with
  | Panic => Panic
  | Err CacheFile.errFutureVersion => Err (OFile CacheFile.errFutureVersion)
  | Err _ => openFresh (zeroFile (fSide f))
  | Ok (_, true) => openFresh f
  | Ok (idx, false) =>
      version ← ofFile (CacheFile.u32At (fHdr f) 8 12);
      if version <? CacheFile.cacheVersion then Err OlderVersion
      else attach (fHdr f) (fPages f) (fSide f) idx false
  end.

End Open.

(** The shards of [New], each over the file of its directory. *)
Fixpoint openAll (hashKey : bytes -> Z) (ws : nat -> world) (cfg : Config) (rnd : nat -> option bytes) (i : nat) (fs : list file) : outcome openErr (list Cache.cshard) :=
  match fs with
  | [] => Ok []
  | f :: fs => s ← newMmapShard hashKey (ws i) cfg (rnd i) f; l ← openAll hashKey ws cfg rnd (S i) fs; Ok (s :: l)
  end.

(** What a killed process leaves: the mapping is shared, so the kernel keeps what was
    stored in it. *)
Definition killed (s : Cache.cshard) : file := MkFile (Cache.hdr s) (data <$> pages (Cache.core s)) (Cache.sidecar s).

(** [Close] of a shard: the bounds are projected first. *)
Definition closed (s : Cache.cshard) : outcome cerr file :=
  regions ← Shard.Close (Cache.core s); Ok (MkFile (Cache.hdr s) regions (Cache.sidecar s)).

End CacheOpen.
