(* ===== verification/CacheCrash.v ===== *)
(** * A cache on files: a fresh one starts empty, reads and deletes of a mapped shard, and
    what a killed process leaves. *)
From S2P Require Import Prelude CacheConfig SipHash Entry Page IndexTable Shard ShardInv ShardGet ShardPut ShardRoom ShardEvict ShardFit ShardWrite ShardProps CacheFile Cache Wire KVWire KVWireProps KVOps KVSpec CacheProps CacheMark LogCodec ShardLog ShardFSM FSMProps CacheFSM CacheOpen.
From stdpp Require Import strings.
Import Entry Page IndexTable Shard KVWire KVOps ShardLog ShardFSM CacheOpen.
#[local] Open Scope Z_scope.

(** ** A fresh file *)

Section Fresh.
Context (hashKey : bytes -> Z) (w : world) (cfg : Config) (Hcfg : cfg_ok cfg).
#[local] Abbreviation zeros n := (replicate (Z.to_nat n) Byte.x00).

Lemma combine_zeros k : le_combine (replicate k Byte.x00) = 0.
Proof. induction k as [|k IH]; [done|]. cbn [replicate]. change (le_combine (Byte.x00 :: replicate k Byte.x00)) with (Z.lor 0 (Z.shiftl (le_combine (replicate k Byte.x00)) 8)). by rewrite IH. Qed.

Lemma zeros_get k n lo hi : 0 <= lo -> hi = lo + Z.of_nat k -> hi <= n -> (b ← slice (E:=cerr) (zeros n) lo hi; le_get k b) = Ok 0.
Proof.
  intros Hlo -> Hn. rewrite slice_in by (rewrite ?blen_replicate; lia). cbn [mbind outcome_bind]. rewrite drop_replicate, take_replicate.
  unfold le_get. rewrite length_replicate, (proj2 (Nat.leb_le _ _)) by lia. by rewrite take_replicate, combine_zeros.
Qed.

Lemma attach_zero n : forall s, isMmap s = true -> blen (shardKey s) = SipHash.framingKeyLen -> fits 16 (genCounter s) ->
  exists ps g, attach_pages (replicate n (zeros (PageSize cfg))) s = (setGenCounter (setPages s (pages s ++ ps)) g, Ok tt) /\ fits 16 g /\ length ps = n /\ Forall (page_ok cfg true) ps.
Proof.
  pose proof (co_size _ Hcfg) as Hsize. unfold pageHdrSize in Hsize. induction n as [|n IH]; intros s Hm Hk Hg; cbn [replicate attach_pages].
  - exists [], (genCounter s). rewrite app_nil_r. by destruct s.
  - unfold nextGen. rewrite bind_assoc, bind_gets, bind_assoc, bind_modify. cbn [mret st_ret].
    set (g := u16 (genCounter s + 1)). set (p := setFramingKey (setGen (newMmapPage (zeros (PageSize cfg))) (genCounter s)) (shardKey s)).
    set (q := setNonce (setTail (setHead p 0) 0) 0).
    destruct (IH (setPages (setGenCounter s g) (pages s ++ [q]))) as (ps & g' & He & Hg' & Hl & Hps); [done|done|apply fits_wrap; lia|].
    exists (q :: ps), g'. split; [|split; [done|]; split; [cbn; by rewrite Hl|]].
    + transitivity (attach_pages (replicate n (zeros (PageSize cfg))) (setPages (setGenCounter s g) (pages s ++ [q]))); [|rewrite He; cbn; by rewrite <- app_assoc].
      assert (durableBounds p = Ok (0, 0)) as Hb.
      { unfold durableBounds. cbn. rewrite (zeros_get 4 _ 0 4), (zeros_get 4 _ 4 8) by lia. done. }
      assert (durableNonce p = Ok 0) as Hn by (unfold durableNonce; cbn; by apply (zeros_get 8); lia).
      unfold mbind, st_bind, gets, lift, modify, mret, st_ret. cbn [shardKey setGenCounter]. fold p. by rewrite Hb, Hn.
    + constructor; [|done]. split; try done; cbn; [|by rewrite blen_replicate, Z2Nat.id by lia].
      exists []. split; [|done]. assert (blen (entries q) = PageSize cfg - 16) as He'.
      { unfold entries. cbn. unfold pageHdrSize. rewrite drop_replicate, blen_replicate. lia. }
      split; rewrite ?He'; cbn; [lia|lia|]. intros _. split; [rewrite blen_replicate; unfold pageHdrSize; lia|done].
Qed.

Lemma newMmapShard_fresh key : blen key = SipHash.framingKeyLen -> exists s, newMmapShard hashKey w cfg (Some key) (zeroFile cfg CacheFile.NotExist) = Ok s /\
  cell_ok hashKey cfg true s /\ Cache.appliedIndex s = 0 /\ forall k, ShardInv.lookup hashKey (Cache.core s) k = None.
Proof.
  intros Hkey. pose proof (co_pages _ Hcfg) as Hpages. pose proof (co_size _ Hcfg) as Hsize. unfold pageHdrSize in Hsize.
  set (h := CacheFile.MkHeader (PageSize cfg) (MaxPagesPerShard cfg) 0 0 0 0 key).
  assert (CacheFile.header_ok h) as Hh by (split; unfold fits; cbn; try done; lia).
  unfold newMmapShard, zeroFile. cbn [fHdr fPages fSide]. change (CacheFile.validateHeader _ _ _) with (@Ok CacheFile.fileErr (Z * bool) (0, true)). cbv iota.
  unfold openFresh, freshHeader. cbn [fHdr fPages fSide]. rewrite (CacheFile.writeHeader_layout key) by done. cbn [mbind outcome_bind].
  unfold attach. rewrite (CacheFile.readFramingKey_layout h Hh). cbn [ofFile mbind outcome_bind CacheFile.hKey CacheFile.readFlushSidecar].
  destruct (attach_zero (Z.to_nat (MaxPagesPerShard cfg)) (emptyShard cfg true key 0)) as (ps & g & He & Hg & Hl & Hps); [done..|].
  unfold attachMmapRegion. rewrite (bind_ok _ _ _ _ _ He), !bind_modify. eexists. split; [reflexivity|]. cbn [Cache.core Cache.appliedIndex].
  destruct (newIndexTable_ok 0) as (Hw & Ha & _); [lia|].
  assert (blen ps = MaxPagesPerShard cfg) as Hlen by (unfold blen; lia).
  split; [|split; [done|]].
  - split; cbn; [|done| |done].
    + split; cbn; try done; rewrite ?Hlen; try done; lia.
    + intros _. unfold CacheFile.layout, CacheFile.guarded, CacheFile.core, CacheFile.frontier. change (drop 128 _) with (@nil byte).
      repeat rewrite ?blen_app, ?blen_le_put, ?blen_replicate. change (blen (@nil byte)) with 0. cbn [CacheFile.hKey]. unfold SipHash.framingKeyLen, CacheFile.headerSize in *. lia.
  - intros k. unfold ShardInv.lookup, lookup_in. cbn [tab Cache.core setWriteIdx setStamp setGenCounter setPages emptyShard writeSeq flushedThroughSeq Z.ltb Z.compare]. by rewrite Ha.
Qed.
End Fresh.

(** ** A killed process *)

(** One shard of three small pages on a file, that rejects when full. *)
Definition fileCfg : Config := MkConfig 1 128 384 0 PolicyRejectWrites 0 true false false 1 true false 0 0 0 false false false.
Definition openOne (f : file) : outcome openErr Cache.Cache := s ← newMmapShard sampleHash sampleWorld fileCfg (Some mmapKey) f; Ok (Cache.MkCache [s]).

(** A shard on a fresh file that holds one key, and the key is deleted. *)
Definition mappedShard : shard := match openOne (zeroFile fileCfg CacheFile.NotExist) with Ok (Cache.MkCache [s]) => Cache.core s | _ => emptyShard fileCfg true mmapKey 0 end.
Abbreviation mappedPut := (putAtExpLocked sampleHash sampleWorld fileCfg [Byte.x01] [Byte.x02] 0 (sampleHash [Byte.x01]) mappedShard).

Lemma fileCfg_ok : cfg_ok fileCfg.
Proof. split; vm_compute; split; done. Qed.

Lemma mappedShard_ok : shard_ok sampleHash fileCfg mappedShard.
Proof.
  destruct (newMmapShard_fresh sampleHash sampleWorld fileCfg fileCfg_ok mmapKey eq_refl) as (s & E & Hs & _). unfold mappedShard, openOne. rewrite E. exact (ce_shard _ _ _ _ Hs).
Qed.

Lemma put_keeps s k v e s' : shard_ok sampleHash fileCfg s -> fits 64 e -> putAtExpLocked sampleHash sampleWorld fileCfg k v e (sampleHash k) s = (s', Ok tt) ->
  shard_ok sampleHash fileCfg s'.
Proof.
  intros Hs He E. pose proof (put_ok sampleHash sampleHash_fits sampleWorld fileCfg fileCfg_ok s k v e Hs He) as H. unfold wp in H. rewrite E in H. apply H.
Qed.

Lemma mappedPut_answer : mappedPut.2 = Ok tt.
Proof. vm_compute. reflexivity. Qed.

Lemma mappedPut_ok : shard_ok sampleHash fileCfg mappedPut.1.
Proof. exact (put_keeps _ _ _ 0 _ mappedShard_ok ltac:(unfold fits; lia) (pair_of_snd _ _ mappedPut_answer)). Qed.

Lemma mappedDel_answer : (delH sampleHash sampleWorld fileCfg [Byte.x01] (sampleHash [Byte.x01]) mappedPut.1).2 = Ok true.
Proof. vm_compute. reflexivity. Qed.

Lemma mappedPut_mmap : isMmap mappedPut.1 = true.
Proof. vm_compute. reflexivity. Qed.



Lemma shard_delete_witness : recorded [Byte.x01] (delH sampleHash sampleWorld fileCfg [Byte.x01] (sampleHash [Byte.x01]) mappedPut.1).1.
Proof.
  pose proof (shard_delete sampleHash sampleWorld fileCfg mappedPut.1 [Byte.x01] sampleHash_fits fileCfg_ok mappedPut_ok) as H.
  rewrite (pair_of_snd _ _ mappedDel_answer) in H. destruct H as (_ & _ & _ & H & _). exact (H eq_refl mappedPut_mmap).
Defined.

Definition fileRegistry : nat -> string -> option (OpKind * @handler Cache.Cache) := fun _ name => Lookup name (@builtinHandlers _ (Cache_KVStore sampleHash sampleWorlds fileCfg)).
Definition deliver (durable : bool) (c : Cache.Cache) (logs : list LogCodec.Log) : @fsm Cache.Cache * outcome cerr (list ApplyResponse) :=
  @ApplyBatch Cache.Cache (Cache_Watermark sampleWorlds) fileRegistry (fun _ => false) durable true 1 logs (MkFSM c 0 false false 0).

(** The answers to an increment before the process is killed and when the entry is
    delivered again after it, the index the reopened cache reports, and the counter
    that is read then. *)
Definition killRun (durable : bool) : outcome openErr (outcome cerr (list ApplyResponse) * outcome cerr (list ApplyResponse) * Z * outcome cerr bytes) :=
  let logs := [sampleEntry 1 (Cmd 1000 (RIncr [Byte.x01] 5))] in
  c ← openOne (zeroFile fileCfg CacheFile.NotExist);
  let (f, r1) := deliver durable c logs in
  match Cache.shards (cache f) with
  | [s] =>
      c' ← openOne (killed s);
      let (f', r2) := deliver durable c' logs in
      Ok (r1, r2, Cache.AppliedIndex c', (Cache.GetAt sampleHash sampleWorlds fileCfg [Byte.x01] 1000 (cache f')).2)
  | _ => Panic
  end.

(** Without [Durable] a killed process loses the writes it has recorded as
    applied. The shard answers an increment; the process is killed, and no byte stored in the
    mapping is lost. The reopened cache reports that entry 1 is applied, so the entry
    is skipped when raft delivers it again, and the counter is not there: the header
    carries the new index but the page's bounds were never projected into the file.
    With [Durable] the same run keeps the counter (one shard, pages of 128
    bytes). *)
Lemma crash_loses_applied_writes :
  killRun false = Ok (Ok [MkResp (counterBytes 5) None], Ok [emptyResp], 1, Err ErrNotFound) /\
  killRun true = Ok (Ok [MkResp (counterBytes 5) None], Ok [emptyResp], 1, Ok (counterBytes 5)).
Proof. split; vm_compute; reflexivity. Qed.
