(* ===== verification/PBApply.v ===== *)
(** * The state machine under the primary-backup engine.

    The engine counts on an application that fails to have changed nothing: the primary
    gives such a write no sequence number and a backup stays where it was. Requests on one key keep
    to it; a batch of puts does not. *)
From S2P Require Import Prelude CacheConfig SipHash Entry Page IndexTable Shard ShardProps CacheFile Cache Wire KVWire KVWireProps KVOps KVSpec CacheProps LogCodec ShardLog ShardFSM FSMProps CacheFSM.
From stdpp Require Import strings.
Import Entry KVWire KVOps ShardLog ShardFSM.
#[local] Open Scope Z_scope.

Section Applier.
Context {S : Type} {K : KVStore S} {L : KVLaws S}.
Context (registry : nat -> string -> option (OpKind * handler (S:=S))) (stopped : nat -> bool) (errText : applyErr -> bytes).
#[local] Abbreviation fsm := (@fsm S).

(** What the engine gets for a response. *)
Definition pbAnswer (resp : ApplyResponse) : pbApplied := if fatal true resp then errPBInfra else PBOk (encodePBResult errText resp).

Lemma apply_verdict fuel data (f : fsm) c o : o <> Panic -> retries (answerOf o) = false -> applyEntryData registry data f = (setCache f c, Ok (answerOf o)) ->
  shardApplierApply registry stopped errText (Datatypes.S fuel) data f = (setCache f c, Ok (pbAnswer (answerOf o))).
Proof.
  intros Ho Hre Hd. unfold shardApplierApply. cbn [applyWithRetry]. rewrite bind_assoc, (bind_ok _ _ _ _ _ Hd), Hre. cbn [negb].
  unfold pbAnswer, fatal. destruct o as [b|e|]; [done| |done]. reflexivity.
Qed.

(** C18. Applied by the primary-backup engine, a request on one key is atomic: the call
    returns; if it reports a failure, for which the engine records nothing, the keys are
    as they were; otherwise the answer the engine hands back is that of the plain map and the keys are
    those of it, or the value is over the page size, which the answer says, and the
    keys are as they were. *)
Theorem pb_request_atomic fuel n r data (f : fsm) :
  (forall k, registry k (reqName r) = Lookup (reqName r) builtinHandlers) -> ~ lossy -> kvOk (cache f) -> reqOk r -> argsFit (reqArgs r) -> fits 64 n ->
  EncodeLogEntryStamped (reqName r) (reqArgs r) n = Ok data ->
  exists c resp, shardApplierApply registry stopped errText (Datatypes.S fuel) data f = (setCache f c, Ok (pbAnswer resp)) /\ kvOk c /\
    ((pbAnswer resp <> errPBInfra /\ resp = answerOf (decide_ n r (content (cache f) (reqKey r))).1 /\ agree n (content c) (specApply hash n r (content (cache f)))) \/
     (pbAnswer resp = errPBInfra /\ agree n (content c) (content (cache f))) \/
     (RErr resp <> None /\ (room < entrySpanExact (blen (reqKey r)) (blen (written (decide_ n r (content (cache f) (reqKey r))).2))) /\ agree n (content c) (content (cache f)))).
Proof.
  intros Hreg Hl Hok Hr Ha Hn Henc. destruct (request_stands n n (cache f) r (content (cache f)) Hl Hok Hr (stands_refl _ _) ltac:(lia)) as (h & Hh & Hrun).
  assert (blen (str (reqName r)) <= maxOpNameLen) as Hname by (by destruct r).
  destruct (decode_encodeStamped (reqName r) (reqArgs r) n Hname Ha Hn) as (b & Hb & Hdec). rewrite Henc in Hb. injection Hb as <-.
  destruct (h (MkTx true n) (reqArgs r) (cache f)) as [c o] eqn:Eh. destruct Hrun as (Hokc & Hres).
  assert (Hdata : o <> Panic -> applyEntryData registry data f = (setCache f c, Ok (answerOf o))).
  { intros Ho. unfold applyEntryData. rewrite Hdec, bind_gets, Hreg, Hh. unfold runHandler. rewrite Eh. by destruct o. }
  exists c, (answerOf o). destruct Hres as [[Ho Hag%stands_agree]|(e & He & -> & Hag%stands_agree)].
  - pose proof (decided_advances n r (content (cache f) (reqKey r))) as Hadv. rewrite <- Ho in Hadv.
    assert (o <> Panic /\ retries (answerOf o) = false /\ fatal true (answerOf o) = false) as (H1 & H2 & H3).
    { destruct o as [b|e|]; [done| |done]. unfold retries, fatal, answerOf. cbn [RErr]. rewrite Hadv. done. }
    split; [by apply apply_verdict; auto|]. split; [done|]. left. unfold pbAnswer. rewrite H3. by rewrite Ho.
  - split; [apply apply_verdict; [done| |by apply Hdata]; by destruct He as [[->|[->| ->]]|[[-> _]|[-> _]]]|]. split; [done|]. right.
    destruct He as [He|[[-> Hsize]|[_ Hkey]]]; [left|right|exfalso].
    + split; [|done]. unfold pbAnswer. cbn [answerOf]. by rewrite (setup_fatal e true He).
    + split; [done|]. split; [lia|done].
    + assert (keyFits (reqKey r)) as Hkf by (destruct r; cbn in *; tauto). unfold keyFits, maxKeyLen in *. lia.
Qed.

(** *** Batches *)










End Applier.

(** ** The frame of an answer *)

Lemma decode_frame t p : blen p < 2 ^ 32 -> decodePBResult ([t] ++ le_put 4 (u32 (blen p)) ++ p) = Ok (if byte.unsigned t =? 1 then PBError p else PBResult p).
Proof.
  intros Hp. pose proof (blen_nonneg p). unfold decodePBResult. assert (blen ([t] ++ le_put 4 (u32 (blen p)) ++ p) = 5 + blen p) as Hlen by (len).
  rewrite Hlen, (proj2 (Z.ltb_ge _ _)) by lia. rewrite (slice_at [t] (le_put 4 (u32 (blen p))) p 1 5) by len. cbn [mbind outcome_bind].
  assert (u32 (blen p) = blen p) as Hu by (apply wrap_fits; unfold fits; lia). rewrite Hu, le_get_put, wrap_fits by (unfold fits; lia). cbn [mbind outcome_bind].
  rewrite (proj2 (Z.ltb_ge _ _)) by lia. assert (slice (E:=cerr) ([t] ++ le_put 4 (blen p) ++ p) 5 (5 + blen p) = Ok p) as ->.
  { pose proof (slice_at (E:=cerr) ([t] ++ le_put 4 (blen p)) p [] 5 (5 + blen p)) as Hs. rewrite app_nil_r, <- app_assoc in Hs. apply Hs; len. }
  done.
Qed.

Lemma decodePBResult_total b : exists r, decodePBResult b = Ok r.
Proof.
  unfold decodePBResult. destruct (Z.ltb_spec (blen b) 5) as [|Hb]; [by eexists|]. destruct (slice_exists (E:=cerr) b 1 5) as (x & -> & Hx); [lia..|]. cbn [mbind outcome_bind].
  assert (4 <= length x)%nat as Hl by (unfold blen in Hx; lia). unfold le_get. rewrite (proj2 (Nat.leb_le _ _)) by done. cbn [mbind outcome_bind].
  set (n := le_combine (take 4 x)). assert (0 <= n) by (apply fits_le_combine). destruct (Z.ltb_spec (blen b - 5) n) as [|Hn]; [by eexists|].
  destruct (slice_exists (E:=cerr) b 5 (5 + n)) as (y & -> & _); [lia..|]. cbn [mbind outcome_bind]. destruct (byte_at_in (E:=cerr) b 0) as (t & -> & _); [lia|]. by eexists.
Qed.

(** The frame the engine carries an answer in gives back the result or the text of
    the error; a frame that is too short or cut is reported, and no bytes panic. *)
Theorem pb_result_roundtrip (errText : applyErr -> bytes) : (forall resp : ApplyResponse,
    let payload := match RErr resp with Some e => errText e | None => Result resp end in
    blen payload < 2 ^ 32 -> decodePBResult (encodePBResult errText resp) = Ok (match RErr resp with Some _ => PBError payload | None => PBResult payload end)) /\
  (forall b, exists r, decodePBResult b = Ok r) /\
  (forall b, blen b < 5 -> decodePBResult b = Ok PBShort).
Proof.
  split; [|split; [apply decodePBResult_total|]].
  - intros [res [e|]]; cbn [RErr Result]; intros Hp; unfold encodePBResult; cbn [RErr Result]; by rewrite decode_frame.
  - intros b Hb. unfold decodePBResult. by rewrite (proj2 (Z.ltb_lt _ _)).
Qed.

(** ** A batch that is applied in part *)



(** ** Times to live below a millisecond *)

(** C37. A put whose time to live is positive but below a millisecond never expires when
    it goes through the client's encoding: the time is sent as 0, which stands for no
    expiry, while the cache itself, given the same time to live, makes the entry expired
    at once. *)
Theorem brief_ttl_is_forever k v ttl now : keyFits k -> valFits v -> 0 < ttl < 1000000 -> 0 < now < 2 ^ 64 ->
  DecodePutArgs (EncodePutArgs k v ttl) = Ok (k, v, 0) /\ 
  (forall later, Shard.isExpired (Shard.expiryAtFrom 0 now) later = false) /\ 
  Shard.isExpired (Shard.expiryAtFrom ttl now) now = true.
Proof.
  intros Hk Hv Ht Hn. split; [|split].
  - rewrite (DecodePutArgs_enc k v ttl Hk Hv) by (unfold duration; lia). unfold wholeMs, millisecond. by rewrite Z.div_small by lia.
  - done.
  - assert (Shard.expiryAtFrom ttl now = now) as ->.
    { unfold Shard.expiryAtFrom. rewrite (proj2 (Z.leb_gt _ _)), Z.quot_small by lia. change (u64 0) with 0. rewrite Z.add_0_r. apply wrap_fits. unfold fits. lia. }
    unfold Shard.isExpired. by rewrite (proj2 (Z.eqb_neq _ _)), Z.leb_refl by lia.
Qed.

Lemma brief_ttl_is_forever_witness : DecodePutArgs (EncodePutArgs [Byte.x01] [Byte.x02] 999999) = Ok ([Byte.x01], [Byte.x02], 0) /\ 
  Shard.isExpired (Shard.expiryAtFrom 999999 1000) 1000 = true.
Proof.
  pose proof (brief_ttl_is_forever [Byte.x01] [Byte.x02] 999999 1000 eq_refl eq_refl ltac:(lia) ltac:(lia)) as H.
  exact (conj (proj1 H) (proj2 (proj2 H))).
Defined.

(** ** A sample *)

Lemma pb_request_atomic_witness : exists c resp,
  @shardApplierApply Cache.Cache sampleRegistry (fun _ => false) (fun _ => []) 1 (LogCodec.Data (sampleEntry 1 (Cmd 1000 (RIncr [Byte.x01] 5)))) sampleStart =
    (setCache sampleStart c, Ok (pbAnswer (fun _ => []) resp)).
Proof.
  destruct (@pb_request_atomic Cache.Cache _ sampleLaws sampleRegistry (fun _ => false) (fun _ => []) 0 1000 (RIncr [Byte.x01] 5)
    (LogCodec.Data (sampleEntry 1 (Cmd 1000 (RIncr [Byte.x01] 5)))) sampleStart (fun _ => eq_refl) ltac:(discriminate) (proj1 sampleCache_ok)
    ltac:(vm_compute; repeat split; discriminate) eq_refl ltac:(split; [discriminate|reflexivity]) ltac:(vm_compute; reflexivity)) as (c & resp & H & _).
  exists c, resp. exact H.
Defined.
