(* ===== verification/CacheIter.v ===== *)
(** * Walking a cache (src/cache/iterate.go).

    A callback sees every entry that has not expired by the shard's wall clock, and may
    stop the walk. A walk that is never stopped sees each live key of the map once. *)
From S2P Require Import Prelude CacheConfig SipHash Entry Page IndexTable Shard ShardInv ShardGet CacheFile Cache KVSpec CacheProps.
Import Entry Page IndexTable Shard.

Module CacheIter.

Section Walk.
Context {A : Type} (fn : bytes -> bytes -> Z -> A -> A * bool).

(** One slot of the table; the callback returns false to stop. *)
Definition visit (s : shard) (now : Z) (i : nat) (a : A) : outcome cerr (A * bool) :=
  match slotRef s i with
  | None => Ok (a, true)
  | Some (ref, _) =>
      match pages s !! Z.to_nat (SlabRef.pageIdx ref) with
      | None => Panic
      | Some p =>
          match Read p (SlabRef.offset ref) with
          | Panic => Panic
          | Err _ => Ok (a, true)
          | Ok (k, v, exp) =>
              if isExpired exp now then Ok (a, true)
              else
                m ← MetaAt p (SlabRef.offset ref);
                if match m with Some meta => metaIsTombstone meta | None => false end then Ok (a, true)
                else Ok (fn k v exp a)
          end
      end
  end.

Fixpoint visitAll (s : shard) (now : Z) (l : list nat) (a : A) : outcome cerr (A * bool) :=
  match l with
  | [] => Ok (a, true)
  | i :: l => '(a, go) ← visit s now i a; if go : bool then visitAll s now l a else Ok (a, false)
  end.

Definition iterate (w : world) (a : A) : M (A * bool) :=
  n ← now w;
  s ← gets id;
  lift (visitAll s n (seq 0 (length (ctrl (tab s)))) a).

Fixpoint iterateFrom (ws : nat -> world) (i : nat) (l : list Cache.cshard) (a : A) : list Cache.cshard * outcome cerr A :=
  match l with
  | [] => ([], Ok a)
  | s :: l =>
      match Cache.inCore (iterate (ws i) a) s with
      | (s', Ok (a, true)) => let (l', o) := iterateFrom ws (S i) l a in (s' :: l', o)
      | (s', Ok (a, false)) => (s' :: l, Ok a)
      | (s', Err e) => (s' :: l, Err e)
      | (s', Panic) => (s' :: l, Panic)
      end
  end.

Definition Iterate (ws : nat -> world) (a : A) : Cache.C A := fun c => let (l, o) := iterateFrom ws 0 (Cache.shards c) a in (Cache.MkCache l, o).

End Walk.

(** ** What a walk sees *)

Section Shard.
Context (hashKey : bytes -> Z) (cfg : Config).
#[local] Abbreviation shard_ok := (shard_ok hashKey cfg).
#[local] Abbreviation lookup := (lookup hashKey).

(** The entry of a slot, if it is live at [n]. *)
Definition liveAt (s : shard) (n : Z) (i : nat) : option (bytes * bytes * Z) :=
  match entry_at (tab s) i with
  | Some (h, ref) => match rec_at (pages s) ref with Some (k, v, e) => if isExpired e n then None else Some (k, v, e) | None => None end
  | None => None
  end.
Definition walked (s : shard) (n : Z) : list (bytes * bytes * Z) := omap (liveAt s n) (seq 0 (length (ctrl (tab s)))).

Lemma slotRef_entry s i : shard_ok s -> slotRef s i = (fun x => (x.2, x.1)) <$> entry_at (tab s) i.
Proof.
  intros Hok. unfold slotRef, entry_at, isOcc. destruct (ctrl (tab s) !! i) as [c|] eqn:Ec; [|done].
  destruct (refs (tab s) !! i) as [r|], (hashes (tab s) !! i) as [h|]; cbn; by destruct (c =? ctrlEmpty), (c =? ctrlTombstone).
Qed.

Lemma slot_entry s i h ref : shard_ok s -> entry_at (tab s) i = Some (h, ref) -> exists r, ref_to hashKey (pages s) h ref r.
Proof. intros Hok He. apply (ok_index _ _ s Hok), lookup_abs; [apply Hok|]. exists i. by apply entry_at_spec. Qed.

Lemma visit_live {A} (fn : bytes -> bytes -> Z -> A -> A * bool) s n i a : shard_ok s ->
  visit fn s n i a = Ok (match liveAt s n i with Some (k, v, e) => fn k v e a | None => (a, true) end).
Proof.
  intros Hok. unfold visit, liveAt. rewrite (slotRef_entry s i Hok). destruct (entry_at (tab s) i) as [[h ref]|] eqn:Ee; [|done]. cbn [fmap option_fmap option_map fst snd].
  destruct (slot_entry s i h ref Hok Ee) as (r & Hr). rewrite (ref_to_rec _ _ _ _ _ Hr). destruct Hr as (_ & p & -> & _ & Hin & _ & Ht).
  rewrite (entry_in_read _ _ _ Hin). destruct (isExpired _ _); [done|]. rewrite (entry_in_meta _ _ _ Hin). cbn [mbind outcome_bind]. by rewrite Ht.
Qed.

Lemma visitAll_live {A} (step : bytes * bytes * Z -> A -> A) s n l : shard_ok s -> forall a,
  visitAll (fun k v e a => (step (k, v, e) a, true)) s n l a = Ok (foldl (fun a x => step x a) a (omap (liveAt s n) l), true).
Proof.
  intros Hok. induction l as [|i l IH]; intros a; [done|]. cbn [visitAll]. rewrite (visit_live _ s n i a Hok). cbn [mbind outcome_bind omap list_omap].
  destruct (liveAt s n i) as [[[k v] e]|]; cbn [foldl]; apply IH.
Qed.

Lemma walked_spec s n k v e : shard_ok s -> (k, v, e) ∈ walked s n <-> lookup s k = Some (v, e) /\ isExpired e n = false.
Proof.
  intros Hok. unfold walked. rewrite list_elem_of_omap. split.
  - intros (i & _ & Hi). unfold liveAt in Hi. destruct (entry_at (tab s) i) as [[h ref]|] eqn:Ee; [|done]. destruct (slot_entry s i h ref Hok Ee) as (r & Hr).
    rewrite (ref_to_rec _ _ _ _ _ Hr) in Hi. destruct (isExpired (eexp r) n) eqn:Ex; [done|]. injection Hi as <- <- <-. split; [|done].
    assert (hashKey (ekey r) = h) as Hh by (by destruct Hr as (_ & p & _ & _ & _ & ? & _)). subst h.
    unfold ShardInv.lookup. rewrite (lookup_in_ref _ _ _ _ ref r); [by rewrite bool_decide_true| |done]. apply lookup_abs; [apply Hok|]. exists i. by apply entry_at_spec.
  - intros [Hl Hx]. destruct (lookup_ref hashKey cfg s k _ Hok Hl) as (ref & r & Ha & Hr & <- & [= -> ->]). apply lookup_abs in Ha as (i & Ho & Hi); [|apply Hok].
    exists i. split; [apply elem_of_seq; pose proof (occ_lt _ _ _ Ho); lia|]. unfold liveAt. rewrite (proj2 (entry_at_spec _ _ _ _) (conj Ho Hi)), (ref_to_rec _ _ _ _ _ Hr).
    by rewrite Hx.
Qed.

Lemma walked_keys s n : shard_ok s -> NoDup ((fun x => x.1.1) <$> walked s n).
Proof.
  intros Hok. unfold walked. assert (NoDup (seq 0 (length (ctrl (tab s))))) as Hnd by apply NoDup_seq. revert Hnd. generalize (seq 0 (length (ctrl (tab s)))) as l.
  induction l as [|i l IH]; intros Hnd; [constructor|]. inversion Hnd as [|? ? Hni Hnd']; subst. cbn [omap list_omap].
  destruct (liveAt s n i) as [[[k v] e]|] eqn:El; [|by apply IH]. cbn [fmap list_fmap]. constructor; [|by apply IH]. intros ([[k' v'] e'] & Hk & Hin)%list_elem_of_fmap. cbn in Hk. subst k'.
  apply list_elem_of_omap in Hin as (j & Hj & Hl). apply Hni. replace i with j; [done|].
  assert (forall i v e, liveAt s n i = Some (k, v, e) -> occ (tab s) i (hashKey k)) as Hocc.
  { intros i0 v0 e0. unfold liveAt. destruct (entry_at (tab s) i0) as [[h ref]|] eqn:Ee; [|done]. destruct (slot_entry s i0 h ref Hok Ee) as (r & Hr). rewrite (ref_to_rec _ _ _ _ _ Hr).
    destruct (isExpired _ _); [done|]. intros [= <- <- <-]. destruct Hr as (_ & p & _ & _ & _ & -> & _). by apply entry_at_spec in Ee as [? _]. }
  apply (tw_uniq _ (ok_tab _ _ s Hok) j i (hashKey k)); [by apply (Hocc j v' e')|by apply (Hocc i v e)].
Qed.

End Shard.

Section Cache.
Context (hashKey : bytes -> Z) (ws : nat -> world) (cfg : Config) (mm : bool).
#[local] Abbreviation lookup := (ShardInv.lookup hashKey).
#[local] Abbreviation cell_ok := (cell_ok hashKey cfg mm).
#[local] Abbreviation cache_ok := (cache_ok hashKey cfg mm).
#[local] Abbreviation cellOf := (cellOf hashKey cfg).
#[local] Abbreviation cacheContent := (cacheContent hashKey cfg).

(** The callback that keeps what it sees. *)
Definition collect (k v : bytes) (e : Z) (acc : list (bytes * bytes * Z)) : list (bytes * bytes * Z) * bool := (acc ++ [(k, v, e)], true).

(** The reading of the wall clock that decides over a key. *)
Definition walkNow (c : Cache.Cache) (k : bytes) : Z :=
  match Cache.shards c !! cellOf k with Some s => clock (ws (cellOf k)) (calls (Cache.core s)) | None => 0 end.

Fixpoint walkedFrom (i : nat) (l : list Cache.cshard) : list (bytes * bytes * Z) :=
  match l with [] => [] | s :: l => walked (Cache.core s) (clock (ws i) (calls (Cache.core s))) ++ walkedFrom (S i) l end.

Lemma foldl_snoc {X} (l : list X) : forall a, foldl (fun a x => a ++ [x]) a l = a ++ l.
Proof. induction l as [|x l IH]; intros a; cbn; [by rewrite app_nil_r|]. rewrite IH, <- app_assoc. done. Qed.

Lemma iterate_collect w s a : shard_ok hashKey cfg s -> iterate collect w a s = (setCalls s (S (calls s)), Ok (a ++ walked s (clock w (calls s)), true)).
Proof.
  intros Hok. pose proof (visitAll_live hashKey cfg (fun x a => a ++ [x]) (setCalls s (S (calls s))) (clock w (calls s)) (seq 0 (length (ctrl (tab s))))) as Hv.
  unfold iterate, now, mbind, st_bind, gets, modify, mret, st_ret, lift. cbn [id]. change collect with (fun k v e a => ((fun (x : bytes * bytes * Z) a => a ++ [x]) (k, v, e) a, true)).
  cbn [tab setCalls]. rewrite Hv; [|by apply (calls_quiet hashKey cfg s _ Hok)]. by rewrite foldl_snoc.
Qed.

Lemma iterateFrom_ok l : Forall cell_ok l -> forall i a, exists l', iterateFrom collect ws i l a = (l', Ok (a ++ walkedFrom i l)) /\
  Forall2 (fun s s' => cell_ok s' /\ (forall k, lookup (Cache.core s') k = lookup (Cache.core s) k) /\ lastAppliedStampMs (Cache.core s') = lastAppliedStampMs (Cache.core s)) l l'.
Proof.
  induction 1 as [|s l Hs Hl IH]; intros i a; cbn [iterateFrom].
  - exists []. split; [|constructor]. cbn. by rewrite app_nil_r.
  - unfold Cache.inCore. rewrite (iterate_collect (ws i) _ a (ce_shard _ _ _ _ Hs)). destruct (IH (S i) (a ++ walked (Cache.core s) (clock (ws i) (calls (Cache.core s))))) as (l' & -> & Hl').
    eexists. split; [cbn [walkedFrom]; by rewrite app_assoc|]. destruct (calls_quiet hashKey cfg (Cache.core s) (S (calls (Cache.core s))) (ce_shard _ _ _ _ Hs)) as (Hst & Hk).
    constructor; [|done]. split; [by apply cell_stays|done].
Qed.

Lemma walkedFrom_spec l x : forall i, x ∈ walkedFrom i l <-> exists j s, l !! j = Some s /\ x ∈ walked (Cache.core s) (clock (ws (i + j)) (calls (Cache.core s))).
Proof.
  induction l as [|s l IH]; intros i; cbn [walkedFrom]; [split; [by intros ?%not_elem_of_nil|by intros (j & s & ? & _)]|]. rewrite elem_of_app, IH. split.
  - intros [Hx|(j & s' & Hs' & Hx)]; [exists 0%nat, s; by rewrite Nat.add_0_r|]. exists (S j), s'. by rewrite Nat.add_succ_r.
  - intros ([|j] & s' & Hs' & Hx); [left; injection Hs' as ->; by rewrite Nat.add_0_r in Hx|]. right. exists j, s'. by rewrite Nat.add_succ_r in Hx.
Qed.

Lemma walkedFrom_keys l : forall i, Forall cell_ok l -> (forall j s k, l !! j = Some s -> lookup (Cache.core s) k <> None -> cellOf k = (i + j)%nat) ->
  NoDup ((fun x => x.1.1) <$> walkedFrom i l).
Proof.
  induction l as [|s l IH]; intros i Hf Hp; cbn [walkedFrom]; [constructor|]. inversion Hf as [|? ? Hs Hf']; subst. rewrite fmap_app. apply NoDup_app. split_and!.
  - apply (walked_keys hashKey cfg). apply Hs.
  - intros k Hk Hk'. apply list_elem_of_fmap in Hk as ([[k0 v] e] & -> & Hx). apply list_elem_of_fmap in Hk' as ([[k1 v'] e'] & Hk & Hy). cbn in *. subst k1.
    apply (walked_spec hashKey cfg) in Hx as [Hx _]; [|apply Hs]. apply walkedFrom_spec in Hy as (j & s' & Hs' & Hy).
    apply (walked_spec hashKey cfg) in Hy as [Hy _]; [|apply (Forall_lookup_1 _ _ _ _ Hf' Hs')].
    pose proof (Hp 0%nat s k0 eq_refl ltac:(congruence)). pose proof (Hp (S j) s' k0 Hs' ltac:(congruence)). lia.
  - apply IH; [done|]. intros j s' k Hs' Hk. rewrite (Hp (S j) s' k Hs' Hk). lia.
Qed.

Lemma Iterate_spec c k v e : cache_ok c -> (k, v, e) ∈ walkedFrom 0 (Cache.shards c) <-> cacheContent c k = Some (v, e) /\ isExpired e (walkNow c k) = false.
Proof.
  intros Hc. rewrite walkedFrom_spec. unfold CacheProps.cacheContent, walkNow. split.
  - intros (j & s & Hs & Hx). pose proof (Forall_lookup_1 _ _ _ _ (ca_shards _ _ _ c Hc) Hs) as Hok. apply (walked_spec hashKey cfg) in Hx as [Hx1 Hx2]; [|apply Hok].
    assert (cellOf k = j) as -> by (eapply (ca_placed _ _ _ c Hc); [done|congruence]). by rewrite Hs.
  - destruct (Cache.shards c !! cellOf k) as [s|] eqn:Hs; [|by intros [? _]]. intros Hx. exists (cellOf k), s. split; [done|].
    pose proof (Forall_lookup_1 _ _ _ _ (ca_shards _ _ _ c Hc) Hs) as Hok. apply (walked_spec hashKey cfg); [apply Hok|done].
Qed.

End Cache.

End CacheIter.
