(* ===== verification/Snapshot.v ===== *)
(** * Snapshots of a shard's state machine (src/shard/snapshot.go, and [Snapshot] and
    [Restore] of src/shard/fsm.go).

    A snapshot is the entries a walk of the cache sees, the blob of the vector store, the
    blob of the registered operations and a trailer under a checksum. Restoring one
    deletes what a walk of the cache sees and puts the entries of the snapshot back with their
    deadlines. The vector store and the registrations are opaque: whatever
    saves and loads them. *)
From S2P Require Import Prelude Crc32 CacheConfig SipHash Entry Page IndexTable Shard ShardInv CacheFile Cache Wire KVWire KVOps KVSpec CacheProps CacheIter LogCodec ShardLog ShardFSM.
From stdpp Require Import strings.
Import Crc32 Entry KVOps ShardFSM.
#[local] Open Scope Z_scope.

(** What a snapshot uses of a cache beside its keys. *)
Class Walk (S : Type) := {
  cIterate : st S cerr (list (bytes * bytes * Z));
  cLastStamp : S -> Z;
  cAdvanceStamp : Z -> st S cerr unit;
}.

#[export] Instance Cache_Walk (ws : nat -> Shard.world) : Walk Cache.Cache := {
  cIterate := CacheIter.Iterate CacheIter.collect ws [];
  cLastStamp := Cache.LastAppliedStampMs;
  cAdvanceStamp := Cache.AdvanceAppliedStamp;
}.

Module Snapshot.

Inductive snapErr := errBadSnapshot | errSnapshotCRC | errUnsupported | errStore (e : cerr) | errVectors | errWASM | errAbandonedApply.

Definition snapshotMagic : bytes := [Byte.x52; Byte.x53; Byte.x53; Byte.x54].
Definition trailerMagic : bytes := [Byte.x54; Byte.x52; Byte.x4c; Byte.x52].
Definition snapshotVersion : Z := 5.

Definition trailerLen (version : Z) : Z :=
  if 4 <=? version then 4 + 8 + 8 + 8 + 4 else if version =? 3 then 4 + 8 + 8 + 4 else 4 + 8 + 4.

Section Snapshot.
Context {S V W : Type} `{KVStore S} `{Walk S} `{Watermark S}.
(** The vector store, and the hooks of the registrations. A loader that fails may have
    loaded a part. *)
Context (SnapshotAll : V -> option bytes) (RestoreAll : bytes -> V -> V * bool).
Context (wasmSnapshot : option (W -> bytes)) (wasmRestore : option (bytes -> W -> W * bool)).

Record full := MkFull { store : S; vectors : option V; wasm : W }.
Definition setStore (m : full) (s : S) : full := MkFull s (vectors m) (wasm m).

Abbreviation R := (st full snapErr).

Definition onStore {A} (m : st S cerr A) : R A := fun f =>
  match m (store f) with
  | (s, Ok a) => (setStore f s, Ok a)
  | (s, Err e) => (setStore f s, Err (errStore e))
  | (s, Panic) => (setStore f s, Panic)
  end.

(** ** Writing *)

Definition entryBytes (x : bytes * bytes * Z) : bytes :=
  let '(k, v, e) := x in be_put 2 (u16 (blen k)) ++ k ++ be_put 4 (u32 (blen v)) ++ v ++ be_put 8 e.

Definition body (l : list (bytes * bytes * Z)) (vec wasmBlob : bytes) : bytes :=
  mjoin (entryBytes <$> l) ++ be_put 4 (u32 (blen vec)) ++ vec ++ be_put 4 (u32 (blen wasmBlob)) ++ wasmBlob.

Definition sealed (b : bytes) (count appliedIndex stampMs : Z) : bytes :=
  let head := snapshotMagic ++ be_put 1 snapshotVersion ++ b in
  head ++ trailerMagic ++ be_put 8 count ++ be_put 8 appliedIndex ++ be_put 8 stampMs ++
  be_put 4 (ChecksumIEEE (head ++ be_put 8 appliedIndex ++ be_put 8 stampMs)).

Definition serializeSnapshot (appliedIndex : Z) (wasmBlob : bytes) : R bytes :=
  l ← onStore cIterate;
  f ← gets id;
  match (match vectors f with None => Some [] | Some v => SnapshotAll v end) with
  | None => throw errVectors
  | Some vec => mret (sealed (body l vec wasmBlob) (blen l) appliedIndex (cLastStamp (store f)))
  end.

(** ** Reading *)

Fixpoint clear (l : list (bytes * bytes * Z)) : R unit :=
  match l with
  | [] => mret tt
  | (k, _, _) :: l => onStore (cDel k);; clear l
  end.

(** Entry by entry from [off] on; the offset of what follows them. *)
Fixpoint replay (fuel : nat) (count expectedCount : Z) (b : bytes) (off : Z) : R Z :=
  if negb (count <? expectedCount) then mret off
  else
    match fuel with
    | O => panic
    | Datatypes.S fuel =>
        if blen b <? off + 2 then throw errBadSnapshot else
        klen ← lift (beAt 2 b off);
        let off := off + 2 in
        if blen b <? off + klen then throw errBadSnapshot else
        key ← lift (slice b off (off + klen));
        let off := off + klen in
        if blen b <? off + 4 then throw errBadSnapshot else
        vlen ← lift (beAt 4 b off);
        let off := off + 4 in
        if blen b <? off + vlen then throw errBadSnapshot else
        val ← lift (slice b off (off + vlen));
        let off := off + vlen in
        if blen b <? off + 8 then throw errBadSnapshot else
        expiry ← lift (beAt 8 b off);
        let off := off + 8 in
        onStore (cPutAbs key val expiry);;
        replay fuel (count + 1) expectedCount b off
    end.

Definition restoreVectors (blob : bytes) : R unit := fun f =>
  match vectors f with
  | None => (f, Err errBadSnapshot)
  | Some v => let (v', ok) := RestoreAll blob v in (MkFull (store f) (Some v') (wasm f), if ok : bool then Ok tt else Err errVectors)
  end.

Definition restoreWASM (blob : bytes) : R unit := fun f =>
  match wasmRestore with
  | None => (f, Err errBadSnapshot)
  | Some r => let (w', ok) := r blob (wasm f) in (MkFull (store f) (vectors f) w', if ok : bool then Ok tt else Err errWASM)
  end.

(** The sections after the entries. *)
Definition sections (version : Z) (b : bytes) (off : Z) : R unit :=
  if version <? 2 then if negb (off =? blen b) then throw errBadSnapshot else mret tt
  else if version <? 5 then
    f ← gets id;
    if (off <? blen b) && bool_decide (is_Some (vectors f)) then
      if blen b <? off + 4 then throw errBadSnapshot else
      vlen ← lift (beAt 4 b off);
      let off := off + 4 in
      if negb (off + vlen =? blen b) then throw errBadSnapshot else
      blob ← lift (slice b off (off + vlen));
      restoreVectors blob
    else if negb (off =? blen b) then throw errBadSnapshot else mret tt
  else
    if blen b <? off + 4 then throw errBadSnapshot else
    vlen ← lift (beAt 4 b off);
    let off := off + 4 in
    if blen b <? off + vlen then throw errBadSnapshot else
    (if 0 <? vlen then blob ← lift (slice b off (off + vlen)); restoreVectors blob else mret tt);;
    let off := off + vlen in
    if blen b <? off + 4 then throw errBadSnapshot else
    wlen ← lift (beAt 4 b off);
    let off := off + 4 in
    if blen b <? off + wlen then throw errBadSnapshot else
    (if 0 <? wlen then blob ← lift (slice b off (off + wlen)); restoreWASM blob else mret tt);;
    if negb (off + wlen =? blen b) then throw errBadSnapshot else mret tt.

(** The checks of the header and the trailer: version, count, applied index, clock
    and body. *)
Definition parseFrame (all : bytes) : outcome snapErr (Z * Z * Z * Z * bytes) :=
  if blen all <? 5 + 4 + 8 + 4 then Err errBadSnapshot else
  magic ← slice all 0 4;
  if negb (bool_decide (magic = snapshotMagic)) then Err errBadSnapshot else
  version ← byte_at all 4;
  if (version <? 1) || (snapshotVersion <? version) then Err errUnsupported else
  let tlen := trailerLen version in
  if blen all <? 5 + tlen then Err errBadSnapshot else
  let trailerStart := blen all - tlen in
  tm ← slice all trailerStart (trailerStart + 4);
  if negb (bool_decide (tm = trailerMagic)) then Err errBadSnapshot else
  expectedCount ← beAt 8 all (trailerStart + 4);
  expectedCRC ← beAt 4 all (trailerStart + tlen - 4);
  head ← slice all 0 trailerStart;
  appliedIndex ← (if 3 <=? version then beAt 8 all (trailerStart + 12) else Ok 0);
  c1 ← (if 3 <=? version then slice all (trailerStart + 12) (trailerStart + 20) else Ok []);
  stampMs ← (if 4 <=? version then beAt 8 all (trailerStart + 20) else Ok 0);
  c2 ← (if 4 <=? version then slice all (trailerStart + 20) (trailerStart + 28) else Ok []);
  if negb (ChecksumIEEE (head ++ c1 ++ c2) =? expectedCRC) then Err errSnapshotCRC else
  b ← slice all 5 trailerStart;
  Ok (version, expectedCount, appliedIndex, stampMs, b).

Definition restoreSnapshot (all : bytes) : R Z :=
  '(version, expectedCount, appliedIndex, stampMs, b) ← lift (parseFrame all);
  keysToDelete ← onStore cIterate;
  clear keysToDelete;;
  off ← replay (Datatypes.S (length b)) 0 expectedCount b 0;
  onStore (cAdvanceStamp stampMs);;
  sections version b off;;
  mret appliedIndex.

(** ** The state machine *)

Definition fsmSnapshot (f : @fsm S) (v : option V) (x : W) : (@fsm S * outcome snapErr bytes) :=
  if abandoned f then (f, Err errAbandonedApply)
  else
    let blob := match wasmSnapshot with Some g => g x | None => [] end in
    let (m, o) := serializeSnapshot (appliedIndex f) blob (MkFull (cache f) v x) in
    (setCache f (store m), o).

(** The rebuild of the record index walks nothing in a dispatcher without one. *)
Definition fsmRestore (durable : bool) (all : bytes) (f : @fsm S) (v : option V) (x : W) : (@fsm S * option V * W * outcome snapErr unit) :=
  match restoreSnapshot all (MkFull (cache f) v x) with
  | (m, Ok idx) =>
      match (advanceApplied idx;; setWatermark durable idx) (setCache f (store m)) with
      | (f', Ok _) => (f', vectors m, wasm m, Ok tt)
      | (f', Err e) => (f', vectors m, wasm m, Err (errStore e))
      | (f', Panic) => (f', vectors m, wasm m, Panic)
      end
  | (m, Err e) => (setCache f (store m), vectors m, wasm m, Err e)
  | (m, Panic) => (setCache f (store m), vectors m, wasm m, Panic)
  end.

End Snapshot.

End Snapshot.
