(* ===== verification/SnapshotProps.v ===== *)
(** * What a snapshot restores. *)
From S2P Require Import Prelude Crc32 CacheConfig SipHash Entry Page IndexTable Shard ShardInv CacheFile Cache Wire KVWire KVWireProps KVOps KVSpec CacheProps CacheIter LogCodec ShardLog ShardFSM FSMProps Snapshot.
From stdpp Require Import strings.
Import Crc32 Entry KVOps ShardFSM Snapshot.
#[local] Open Scope Z_scope.

(** What a cache promises of a walk and of its clock: a walk sees each key once, and
    every key that has not expired by the reading [walkNow] of the wall clock. *)
Class WalkLaws (S : Type) `{KVLaws S} `{Walk S} := {
  walkNow : S -> bytes -> Z;
  wk_iterate s : kvOk s -> exists s' l, cIterate s = (s', Ok l) /\ kvOk s' /\ (forall k, content s' k = content s k) /\ cLastStamp s' = cLastStamp s /\
    NoDup ((fun x => x.1.1) <$> l) /\ forall k v e, (k, v, e) ∈ l <-> content s k = Some (v, e) /\ Shard.isExpired e (walkNow s k) = false;
  wk_advance n s : kvOk s -> exists s', cAdvanceStamp n s = (s', Ok tt) /\ kvOk s' /\ (forall k, content s' k = content s k) /\
    (0 <= n -> cLastStamp s' = Z.max n (cLastStamp s));
  wk_fits s k v e : kvOk s -> content s k = Some (v, e) -> keyFits k /\ valFits v;
}.

(** ** The frame *)

(** A piece of a concatenation that is given by what precedes it. *)
Lemma slice_piece {E} (all a x r : bytes) lo hi : all = a ++ x ++ r -> lo = blen a -> hi = blen a + blen x -> slice (E:=E) all lo hi = Ok x.
Proof. intros ->. apply slice_at. Qed.

Lemma beAt_piece {E} (all a r : bytes) n x off : all = a ++ be_put n x ++ r -> off = blen a -> fits (8 * Z.of_nat n) x -> beAt (E:=E) n all off = Ok x.
Proof. intros -> Ho Hx. eapply beAt_slice; [|done|done]. apply slice_at; [done|]. rewrite blen_be_put. lia. Qed.

Lemma then_ret {S E} (m n : st S E unit) s : (m;; (n;; mret tt)) s = (m;; n) s.
Proof. unfold mbind, st_bind. destruct (m s) as [s1 [[]|e|]]; [|done..]. by destruct (n s1) as [s2 [[]|e|]]. Qed.

Section Frame.
Context (b : bytes) (count idx stamp : Z) (Hc : fits 64 count) (Hi : fits 64 idx) (Hs : fits 64 stamp).

Lemma parse_sealed : parseFrame (sealed b count idx stamp) = Ok (5, count, idx, stamp, b).
Proof.
  unfold sealed. set (crc := ChecksumIEEE _). assert (fits 32 crc) as Hcrc by apply crc_fits. change (be_put 1 snapshotVersion) with [Byte.x05] in *.
  set (pre := snapshotMagic ++ [Byte.x05] ++ b) in *. pose proof (blen_nonneg b). assert (blen snapshotMagic = 4) as Hm by done. assert (blen trailerMagic = 4) as Ht by done.
  assert (blen pre = 5 + blen b) as Hpre by (unfold pre; rewrite !blen_app, Hm; change (blen [Byte.x05]) with 1; lia).
  set (all := pre ++ trailerMagic ++ be_put 8 count ++ be_put 8 idx ++ be_put 8 stamp ++ be_put 4 crc).
  assert (blen all = 37 + blen b) as Ha by (unfold all; rewrite !blen_app, !blen_be_put, Hpre, Ht; lia).
  assert (slice (E:=snapErr) all 0 4 = Ok snapshotMagic) as E1 by (by apply (slice_piece _ [] _ ([Byte.x05] ++ b ++ trailerMagic ++ be_put 8 count ++ be_put 8 idx ++ be_put 8 stamp ++ be_put 4 crc))).
  assert (byte_at (E:=snapErr) all 4 = Ok 5) as E2 by (by apply (byte_at_cons snapshotMagic (b ++ trailerMagic ++ be_put 8 count ++ be_put 8 idx ++ be_put 8 stamp ++ be_put 4 crc) Byte.x05)).
  assert (slice (E:=snapErr) all (5 + blen b) (5 + blen b + 4) = Ok trailerMagic) as E3 by (apply (slice_piece _ pre _ (be_put 8 count ++ be_put 8 idx ++ be_put 8 stamp ++ be_put 4 crc)); rewrite ?Hpre; done).
  assert (forall a n x r, all = (pre ++ trailerMagic ++ a) ++ be_put n x ++ r -> fits (8 * Z.of_nat n) x ->
    beAt (E:=snapErr) n all (9 + blen b + blen a) = Ok x /\ slice (E:=snapErr) all (9 + blen b + blen a) (9 + blen b + blen a + Z.of_nat n) = Ok (be_put n x)) as Hfield.
  { intros a n x r E Hx. assert (9 + blen b + blen a = blen (pre ++ trailerMagic ++ a)) by (rewrite !blen_app, Hpre, Ht; lia).
    split; [by apply (beAt_piece _ (pre ++ trailerMagic ++ a) r)|apply (slice_piece _ (pre ++ trailerMagic ++ a) _ r); rewrite ?blen_be_put; [done|done|lia]]. }
  destruct (Hfield [] 8%nat count (be_put 8 idx ++ be_put 8 stamp ++ be_put 4 crc)) as [F1 _]; [unfold all; by rewrite <- !app_assoc|done|].
  destruct (Hfield (be_put 8 count) 8%nat idx (be_put 8 stamp ++ be_put 4 crc)) as [F2 F2']; [unfold all; by rewrite <- !app_assoc|done|].
  destruct (Hfield (be_put 8 count ++ be_put 8 idx) 8%nat stamp (be_put 4 crc)) as [F3 F3']; [unfold all; by rewrite <- !app_assoc|done|].
  destruct (Hfield (be_put 8 count ++ be_put 8 idx ++ be_put 8 stamp) 4%nat crc []) as [F4 _]; [unfold all; by rewrite <- !app_assoc, app_nil_r|done|].
  rewrite !blen_app, !blen_be_put in F4. rewrite blen_app, !blen_be_put in F3. rewrite blen_app, !blen_be_put in F3'. rewrite blen_be_put in F2, F2'. change (blen (@nil byte)) with 0 in F1.
  assert (slice (E:=snapErr) all 0 (5 + blen b) = Ok pre) as F5 by (apply (slice_piece _ [] _ (trailerMagic ++ be_put 8 count ++ be_put 8 idx ++ be_put 8 stamp ++ be_put 4 crc)); [done..|by rewrite Hpre]).
  assert (slice (E:=snapErr) all 5 (5 + blen b) = Ok b) as F6 by (by apply (slice_piece _ (snapshotMagic ++ [Byte.x05]) _ (trailerMagic ++ be_put 8 count ++ be_put 8 idx ++ be_put 8 stamp ++ be_put 4 crc))).
  unfold parseFrame. rewrite Ha, (proj2 (Z.ltb_ge _ _)) by lia. rewrite E1. cbn [mbind outcome_bind]. rewrite bool_decide_eq_true_2 by done. cbn [negb].
  rewrite E2. cbn [mbind outcome_bind]. change ((5 <? 1) || (snapshotVersion <? 5)) with false. change (trailerLen 5) with 32.
  change (3 <=? 5) with true. change (4 <=? 5) with true. cbn match.
  replace (37 + blen b - 32) with (5 + blen b) by lia. rewrite (proj2 (Z.ltb_ge _ _)) by lia.
  rewrite E3. cbn [mbind outcome_bind].
  rewrite bool_decide_eq_true_2 by done. cbn [negb].
  replace (5 + blen b + 4) with (9 + blen b + 0) by lia. replace (5 + blen b + 32 - 4) with (9 + blen b + (Z.of_nat 8 + (Z.of_nat 8 + Z.of_nat 8))) by lia.
  replace (5 + blen b + 12) with (9 + blen b + Z.of_nat 8) by lia. replace (5 + blen b + 20) with (9 + blen b + Z.of_nat 8 + Z.of_nat 8) by lia.
  replace (5 + blen b + 28) with (9 + blen b + (Z.of_nat 8 + Z.of_nat 8) + Z.of_nat 8) by lia.
  rewrite F1, F4, F5, F2, F2'. replace (9 + blen b + Z.of_nat 8 + Z.of_nat 8) with (9 + blen b + (Z.of_nat 8 + Z.of_nat 8)) by lia.
  rewrite F3, F3'. cbn [mbind outcome_bind]. change (ChecksumIEEE _) with crc at 1. rewrite Z.eqb_refl. cbn [negb]. by rewrite F6.
Qed.
End Frame.

Lemma parse_total all : (exists x, parseFrame all = Ok x) \/ exists e, parseFrame all = Err e.
Proof.
  unfold parseFrame. destruct (blen all <? _) eqn:E1; [by right; eexists|]. apply Z.ltb_ge in E1.
  destruct (slice_exists (E:=snapErr) all 0 4) as (x & -> & _); [lia..|]. cbn [mbind outcome_bind]. destruct (negb _); [by right; eexists|].
  destruct (byte_at_in (E:=snapErr) all 4) as (version & -> & _); [lia..|]. cbn [mbind outcome_bind]. destruct (_ || _); [by right; eexists|]. cbn zeta.
  destruct (blen all <? 5 + _) eqn:E2; [by right; eexists|]. apply Z.ltb_ge in E2.
  assert (16 <= trailerLen version /\ ((3 <=? version) = true -> 24 <= trailerLen version) /\ ((4 <=? version) = true -> 32 <= trailerLen version)) as (Ht & Ht3 & Ht4).
  { unfold trailerLen. destruct (4 <=? version) eqn:E4; [lia|]. destruct (version =? 3) eqn:E3; [lia|]. apply Z.leb_gt in E4. apply Z.eqb_neq in E3. split_and!; [lia| |done]. intros H%Z.leb_le. lia. }
  destruct (slice_exists (E:=snapErr) all (blen all - trailerLen version) (blen all - trailerLen version + 4)) as (tm & -> & _); [lia..|]. cbn [mbind outcome_bind]. destruct (negb _); [by right; eexists|].
  destruct (beAt_in (E:=snapErr) 8 all (blen all - trailerLen version + 4)) as (count & -> & _); [lia..|].
  destruct (beAt_in (E:=snapErr) 4 all (blen all - trailerLen version + trailerLen version - 4)) as (crc & -> & _); [lia..|].
  destruct (slice_exists (E:=snapErr) all 0 (blen all - trailerLen version)) as (hd & -> & _); [lia..|]. cbn [mbind outcome_bind].
  assert (forall (c : bool) off hi, (c = true -> 0 <= off /\ off + 8 = hi /\ hi <= blen all) -> (exists x, (if c then beAt (E:=snapErr) 8 all off else Ok 0) = Ok x) /\ exists x, (if c then slice (E:=snapErr) all off hi else Ok []) = Ok x) as Hf.
  { intros [] off hi Hc; [|by split; eexists]. destruct (Hc eq_refl) as (? & ? & ?). destruct (beAt_in (E:=snapErr) 8 all off) as (y & -> & _); [lia..|]. destruct (slice_exists (E:=snapErr) all off hi) as (z & -> & _); [lia..|].
    by split; eexists. }
  destruct (Hf (3 <=? version) (blen all - trailerLen version + 12) (blen all - trailerLen version + 20)) as [[i ->] [c1 Ec1]]; [intros H; specialize (Ht3 H); lia|].
  destruct (Hf (4 <=? version) (blen all - trailerLen version + 20) (blen all - trailerLen version + 28)) as [[st Es] [c2 Ec2]]; [intros H; specialize (Ht4 H); lia|].
  cbn [mbind outcome_bind]. rewrite Ec1, Es. cbn [mbind outcome_bind]. rewrite Ec2. cbn [mbind outcome_bind].
  destruct (negb _); [by right; eexists|]. destruct (slice_exists (E:=snapErr) all 5 (blen all - trailerLen version)) as (b & -> & _); [lia..|]. by left; eexists.
Qed.

(** ** Restoring *)

Section Restore.
Context {S V W : Type} `{KVLaws S} `{Walk S}.
Context (RestoreAll : bytes -> V -> V * bool) (wasmRestore : option (bytes -> W -> W * bool)).
Abbreviation full := (@full S V W).

Definition keysOf (l : list (bytes * bytes * Z)) : list bytes := (fun x => x.1.1) <$> l.

(** The cache refused a write. *)
Definition storeRefused (e : snapErr) : Prop := exists er k v, e = errStore er /\ refusal room k v er.

(** Only the cache differs. *)
Definition sameRest (f f' : full) : Prop := vectors f' = vectors f /\ wasm f' = wasm f.

#[local] Instance sameRest_preorder : PreOrder sameRest.
Proof. split; [done|intros f g h [? ?] [? ?]; split; congruence]. Qed.

Lemma sameRest_eq f f' : sameRest f f' -> f' = setStore f (store f').
Proof. destruct f, f'. intros [? ?]. cbn in *. by subst. Qed.

Lemma clear_spec (Hll : ~ lossy) l : forall f, kvOk (store f) ->
  match clear l f with
  | (f', Ok _) => sameRest f f' /\ kvOk (store f') /\ forall k, content (store f') k = if bool_decide (k ∈ keysOf l) then None else content (store f) k
  | (f', Err e) => sameRest f f' /\ kvOk (store f') /\ storeRefused e
  | (_, Panic) => False
  end.
Proof.
  induction l as [|[[k v] e] l IH]; intros f Hf; [done|]. cbn [clear]. unfold mbind, st_bind at 1, onStore at 1. pose proof (law_del (store f) k Hf) as Hd.
  destruct (cDel k (store f)) as [s1 [b|er|]]; [|destruct Hd as (Hr & Hs & _); cbn; split_and!; [done..|by exists er, k, []]|done].
  destruct Hd as (Hs & _ & Hk & Ho). pose proof (IH (setStore f s1) Hs) as Hc. destruct (clear l (setStore f s1)) as [f' [u|e'|]]; cbn [store setStore] in Hc; [|done..].
  destruct Hc as (Hsame & Hok & Hc). split; [done|]. split; [done|]. intros k'. rewrite Hc. cbn [keysOf fmap list_fmap fst].
  destruct (decide (k' ∈ keysOf l)) as [Hin|Hni]; [rewrite !bool_decide_eq_true_2; [done|by right|done]|]. rewrite (bool_decide_eq_false_2 (k' ∈ keysOf l)) by done.
  destruct (decide (k' = k)) as [->|Hne]; [rewrite bool_decide_eq_true_2; [done|by left]|]. rewrite bool_decide_eq_false_2 by (by intros [?|?]%elem_of_cons).
  destruct (Ho k' Hne) as [?|[? _]]; done.
Qed.

(** What [l] leaves of the map [m]: its entries, and the keys that share no hash with them. *)
Definition overlaid (l : list (bytes * bytes * Z)) (m m' : kvmap) : Prop :=
  (forall k v e, (k, v, e) ∈ l -> m' k = Some (v, e)) /\
  (forall k, k ∉ keysOf l -> m' k = m k \/ (m' k = None /\ exists k', k' ∈ keysOf l /\ hash k = hash k')).

Definition apart (l : list (bytes * bytes * Z)) : Prop := NoDup (hash <$> keysOf l).

Definition entryFits (x : bytes * bytes * Z) : Prop := keyFits x.1.1 /\ valFits x.1.2 /\ fits 64 x.2.

Lemma overlaid_nil m : overlaid [] m m.
Proof. split; [by intros k v e Hin%elem_of_nil|by left]. Qed.

Lemma overlaid_cons k v e l m m1 m' : apart ((k, v, e) :: l) -> m1 k = Some (v, e) ->
  (forall k', k' <> k -> m1 k' = m k' \/ (hash k' = hash k /\ m1 k' = None)) -> overlaid l m1 m' -> overlaid ((k, v, e) :: l) m m'.
Proof.
  intros Ha Hk Ho [Hl Hn]. apply NoDup_cons in Ha as [Hni _]. cbn in Hni. split.
  - intros k' v' e' [[= -> -> ->]|Hin]%elem_of_cons; [|by apply Hl]. destruct (Hn k) as [?|[_ (k' & Hk' & E)]]; [|congruence|].
    + intros Hin. apply Hni. by apply list_elem_of_fmap_2.
    + destruct Hni. rewrite E. by apply list_elem_of_fmap_2.
  - intros k' Hk'. apply not_elem_of_cons in Hk' as [Hne Hk']. cbn in Hne. destruct (Hn k' Hk') as [E|[E (k2 & H2 & Eh)]]; [|right; split; [done|]; exists k2; split; [by right|done]].
    rewrite E. destruct (Ho k' Hne) as [?|[Eh ?]]; [by left|]. right. split; [done|]. exists k. split; [by left|done].
Qed.

Lemma replay_step fuel c n pre k v e r (f : full) : c < n -> entryFits (k, v, e) ->
  replay (Datatypes.S fuel) c n (pre ++ entryBytes (k, v, e) ++ r) (blen pre) f =
  (onStore (cPutAbs k v e);; replay fuel (c + 1) n (pre ++ entryBytes (k, v, e) ++ r) (blen (pre ++ entryBytes (k, v, e)))) f.
Proof.
  intros Hc (Hk & Hv & He). cbn in Hk, Hv, He. unfold keyFits in Hk. unfold valFits in Hv. pose proof (blen_nonneg k). pose proof (blen_nonneg v). pose proof (blen_nonneg r).
  assert (blen (entryBytes (k, v, e)) = 14 + blen k + blen v) as Hl by (unfold entryBytes; rewrite !blen_app, !blen_be_put; lia).
  remember (pre ++ entryBytes (k, v, e) ++ r) as b eqn:Eb. assert (blen b = blen pre + (14 + blen k + blen v) + blen r) as Hb by (subst b; rewrite !blen_app, Hl; lia).
  unfold entryBytes in Eb. rewrite (wrap_fits 16 (blen k)), (wrap_fits 32 (blen v)) in Eb by (unfold fits; lia). rewrite <- !app_assoc in Eb.
  cbn [replay]. rewrite (proj2 (Z.ltb_lt c n)) by done. cbn [negb]. rewrite (proj2 (Z.ltb_ge _ _)) by lia.
  rewrite (bind_lift _ (blen k)) by (eapply (beAt_piece _ pre); [exact Eb|done|unfold fits; lia]). cbn zeta. rewrite (proj2 (Z.ltb_ge _ _)) by lia.
  rewrite (bind_lift _ k) by (eapply (slice_piece _ (pre ++ be_put 2 (blen k))); [rewrite <- app_assoc; exact Eb|rewrite blen_app, blen_be_put; lia..]).
  rewrite (proj2 (Z.ltb_ge _ _)) by lia.
  rewrite (bind_lift _ (blen v)) by (eapply (beAt_piece _ (pre ++ be_put 2 (blen k) ++ k)); [rewrite <- !app_assoc; exact Eb|rewrite !blen_app, blen_be_put; lia|unfold fits; lia]).
  rewrite (proj2 (Z.ltb_ge _ _)) by lia.
  rewrite (bind_lift _ v) by (eapply (slice_piece _ (pre ++ be_put 2 (blen k) ++ k ++ be_put 4 (blen v))); [rewrite <- !app_assoc; exact Eb|rewrite !blen_app, !blen_be_put; lia..]).
  rewrite (proj2 (Z.ltb_ge _ _)) by lia.
  rewrite (bind_lift _ e) by (eapply (beAt_piece _ (pre ++ be_put 2 (blen k) ++ k ++ be_put 4 (blen v) ++ v)); [rewrite <- !app_assoc; exact Eb|rewrite !blen_app, !blen_be_put; lia|exact He]).
  rewrite blen_app, Hl. by replace (blen pre + 2 + blen k + 4 + blen v + 8) with (blen pre + (14 + blen k + blen v)) by lia.
Qed.

Lemma replay_spec (Hll : ~ lossy) l r : forall fuel c pre f, Forall entryFits l -> apart l -> (length l <= fuel)%nat -> kvOk (store f) ->
  match replay fuel c (c + blen l) (pre ++ mjoin (entryBytes <$> l) ++ r) (blen pre) f with
  | (f', Ok off) => off = blen (pre ++ mjoin (entryBytes <$> l)) /\ sameRest f f' /\ kvOk (store f') /\ overlaid l (content (store f)) (content (store f'))
  | (f', Err e) => sameRest f f' /\ kvOk (store f') /\ storeRefused e
  | (_, Panic) => False
  end.
Proof.
  induction l as [|[[k v] e] l IH]; intros fuel c pre f Hfit Ha Hfu Hf.
  - rewrite blen_nil, Z.add_0_r. destruct fuel; cbn [replay]; rewrite Z.ltb_irrefl; cbn; rewrite app_nil_r; (split; [done|split; [done|split; [done|apply overlaid_nil]]]).
  - destruct fuel as [|fuel]; [cbn in Hfu; lia|]. apply Forall_cons in Hfit as [Hx Hfit]. change (mjoin (entryBytes <$> (k, v, e) :: l)) with (entryBytes (k, v, e) ++ mjoin (entryBytes <$> l)).
    rewrite <- app_assoc, replay_step by (rewrite ?blen_cons; pose proof (blen_nonneg l); try lia; done). unfold mbind, st_bind at 1, onStore at 1.
    pose proof (law_write (store f) k v e Hf (proj2 (proj2 Hx))) as Hw. destruct (cPutAbs k v e (store f)) as [s1 [[]|er|]]; [|destruct Hw as (Hr & Hs & _); cbn; split_and!; [done..|by exists er, k, v]|done].
    destruct Hw as (Hs & Hk & Ho). specialize (IH fuel (c + 1) (pre ++ entryBytes (k, v, e)) (setStore f s1) Hfit (proj2 (proj1 (NoDup_cons _ _) Ha)) ltac:(cbn in Hfu; lia) Hs).
    rewrite <- (app_assoc pre) in IH. rewrite blen_cons, Z.add_assoc. destruct (replay _ _ _ _ _ _) as [f' [off|e'|]]; [|done..].
    destruct IH as (-> & Hsame & Hok & Hov). split; [by rewrite <- app_assoc|]. split; [done|]. split; [done|]. eapply overlaid_cons; [done|exact Hk| |exact Hov].
    intros k' Hne. destruct (Ho k' Hne) as [?|[[?|?] ?]]; [by left|done|by right].
Qed.

(** The vector store and the registrations get their blobs, in this order, if these are
    not empty. *)
Definition hooks (vec wb : bytes) : st full snapErr unit :=
  (if 0 <? blen vec then restoreVectors RestoreAll vec else mret tt);; (if 0 <? blen wb then restoreWASM wasmRestore wb else mret tt).

Lemma sections_spec pre vec wb (f : full) : valFits vec -> valFits wb ->
  sections RestoreAll wasmRestore 5 (pre ++ be_put 4 (u32 (blen vec)) ++ vec ++ be_put 4 (u32 (blen wb)) ++ wb) (blen pre) f = hooks vec wb f.
Proof.
  intros Hv Hw. unfold valFits in Hv, Hw. pose proof (blen_nonneg vec). pose proof (blen_nonneg wb). rewrite (wrap_fits 32 (blen vec)), (wrap_fits 32 (blen wb)) by (unfold fits; lia).
  remember (pre ++ _) as b eqn:Eb. assert (blen b = blen pre + 8 + blen vec + blen wb) as Hb by (subst b; rewrite !blen_app, !blen_be_put; lia).
  unfold sections. change (5 <? 2) with false. change (5 <? 5) with false. cbn match. rewrite (proj2 (Z.ltb_ge _ _)) by lia.
  rewrite (bind_lift _ (blen vec)) by (eapply (beAt_piece _ pre); [exact Eb|done|unfold fits; lia]). cbn zeta. rewrite (proj2 (Z.ltb_ge _ _)) by lia.
  assert (slice (E:=snapErr) b (blen pre + 4) (blen pre + 4 + blen vec) = Ok vec) as ->
    by (eapply (slice_piece _ (pre ++ be_put 4 (blen vec))); [rewrite <- !app_assoc; exact Eb|rewrite blen_app, blen_be_put; lia..]).
  assert (beAt (E:=snapErr) 4 b (blen pre + 4 + blen vec) = Ok (blen wb)) as ->
    by (eapply (beAt_piece _ (pre ++ be_put 4 (blen vec) ++ vec)); [rewrite <- !app_assoc; exact Eb|rewrite !blen_app, blen_be_put; lia|unfold fits; lia]).
  assert (slice (E:=snapErr) b (blen pre + 4 + blen vec + 4) (blen pre + 4 + blen vec + 4 + blen wb) = Ok wb) as Hs
    by (eapply (slice_piece _ (pre ++ be_put 4 (blen vec) ++ vec ++ be_put 4 (blen wb)) _ []); [rewrite <- !app_assoc, app_nil_r; exact Eb|rewrite !blen_app, !blen_be_put; lia..]).
  unfold hooks. rewrite (proj2 (Z.ltb_ge (blen b) (_ + 4))) by lia. transitivity (((if 0 <? blen vec then restoreVectors RestoreAll vec else mret tt);;
    ((if 0 <? blen wb then restoreWASM wasmRestore wb else mret tt);; mret tt)) f).
  - destruct (0 <? blen vec); cbn; (destruct (restoreVectors RestoreAll vec f) as [f1 [[]|e|]] || idtac); try done; unfold mbind, st_bind, lift;
      rewrite (proj2 (Z.ltb_ge (blen b) _)), (proj2 (Z.eqb_eq (_ + blen wb) (blen b))) by lia; cbn [negb]; rewrite Hs; by destruct (0 <? blen wb).
  - apply then_ret.
Qed.

(** Steps that touch neither the cache nor panic. *)
Definition storeKept (m : st full snapErr unit) : Prop := forall f, match m f with (f', Panic) => False | (f', _) => store f' = store f end.

Lemma storeKept_then m n : storeKept m -> storeKept n -> storeKept (m;; n).
Proof.
  intros Hm Hn f. specialize (Hm f). unfold mbind, st_bind. destruct (m f) as [f1 [[]|e|]]; [|done..]. specialize (Hn f1).
  destruct (n f1) as [f2 [[]|e|]]; congruence.
Qed.

Lemma hooks_store vec wb : storeKept (hooks vec wb).
Proof.
  apply storeKept_then; intros f.
  - destruct (0 <? blen vec); [|done]. unfold restoreVectors. destruct (vectors f) as [v|]; [|done]. by destruct (RestoreAll vec v) as [v' []].
  - destruct (0 <? blen wb); [|done]. unfold restoreWASM. destruct wasmRestore as [r|]; [|done]. by destruct (r wb (wasm f)) as [w' []].
Qed.

End Restore.

Section Sealed.
Context {S V W : Type} `{HL : KVLaws S} `{HW : !Walk S} `{WL : !WalkLaws S}.
Context (RestoreAll : bytes -> V -> V * bool) (wasmRestore : option (bytes -> W -> W * bool)).
Context (l : list (bytes * bytes * Z)) (vec wb : bytes) (idx stamp : Z).
Context (Hfits : Forall entryFits l) (Hapart : apart l) (Hcount : fits 64 (blen l)) (Hvec : valFits vec) (Hwb : valFits wb) (Hidx : fits 64 idx) (Hstamp : fits 64 stamp).

Lemma entries_length : (length l <= length (body l vec wb))%nat.
Proof.
  unfold body. rewrite length_app. apply (Nat.le_trans _ (length (mjoin (entryBytes <$> l)))); [|lia]. clear. induction l as [|[[k v] e] l' IH]; [done|].
  cbn [fmap list_fmap mjoin list_join length]. rewrite length_app.
  assert (length (entryBytes (k, v, e)) <> 0)%nat as Hne; [|apply (Nat.add_le_mono 1); [lia|exact IH]]. pose proof (blen_be_put 2 (u16 (blen k))) as Hb.
  intros Hz%length_zero_iff_nil. apply app_eq_nil in Hz as [Hz _]. rewrite Hz in Hb. done.
Qed.

Lemma sealed_count n st : blen l <= blen (sealed (body l vec wb) (blen l) n st).
Proof.
  pose proof entries_length as Hl. assert (blen l <= blen (body l vec wb)) by (unfold blen; lia). unfold sealed. rewrite blen_app, (blen_app snapshotMagic), (blen_app (be_put 1 _) (body _ _ _)).
  rewrite !(Z.add_comm (blen snapshotMagic)), <- Z.add_assoc, blen_be_put. match goal with |- _ <= _ + (_ + blen ?r) => pose proof (blen_nonneg r) end. pose proof (blen_nonneg snapshotMagic). lia.
Qed.

(** What a restore leaves: the entries, and nothing beside them that has not expired. *)
Definition restoredTo (s s' : S) : Prop :=
  (forall k v e, (k, v, e) ∈ l -> content s' k = Some (v, e)) /\
  (forall k, k ∉ keysOf l -> content s' k = None \/ (content s' k = content s k /\ live (walkNow s k) (content s k) = None)).

Lemma wiped s l0 m : kvOk s -> (forall k v e, (k, v, e) ∈ l0 <-> content s k = Some (v, e) /\ Shard.isExpired e (walkNow s k) = false) ->
  (forall k, m k = if bool_decide (k ∈ keysOf l0) then None else content s k) -> forall k, m k = None \/ (m k = content s k /\ live (walkNow s k) (content s k) = None).
Proof.
  intros Hs Hl Hm k. rewrite Hm. case_bool_decide as Hin; [by left|]. right. split; [done|]. destruct (content s k) as [[v e]|] eqn:Ek; [|done]. cbn.
  destruct (Shard.isExpired e _) eqn:Ex; [done|]. destruct Hin. apply list_elem_of_fmap. exists (k, v, e). split; [done|]. by apply Hl.
Qed.

Lemma restore_sealed (Hll : ~ lossy) (f : @full S V W) : kvOk (store f) ->
  match restoreSnapshot RestoreAll wasmRestore (sealed (body l vec wb) (blen l) idx stamp) f with
  | (f', Ok i) => i = idx /\ kvOk (store f') /\ stamp <= cLastStamp (store f') /\ restoredTo (store f) (store f') /\
      hooks RestoreAll wasmRestore vec wb (setStore f (store f')) = (f', Ok tt)
  | (f', Err e) => storeRefused e \/ exists s, hooks RestoreAll wasmRestore vec wb (setStore f s) = (f', Err e)
  | (_, Panic) => False
  end.
Proof.
  intros Hf. unfold restoreSnapshot. rewrite (bind_lift _ (5, blen l, idx, stamp, body l vec wb)) by (by apply parse_sealed).
  destruct (wk_iterate (store f) Hf) as (s0 & l0 & Hi & Hs0 & Hc0 & _ & _ & Hl0). rewrite (bind_ok _ _ f (setStore f s0) l0) by (unfold onStore; by rewrite Hi).
  pose proof (clear_spec Hll l0 (setStore f s0) Hs0) as Hcl. unfold mbind at 1, st_bind at 1. destruct (clear l0 (setStore f s0)) as [f1 [[]|e|]]; [|by left; apply Hcl|done].
  destruct Hcl as (Hr1 & Hf1 & Hc1). pose proof (replay_spec Hll l (be_put 4 (u32 (blen vec)) ++ vec ++ be_put 4 (u32 (blen wb)) ++ wb) (Datatypes.S (length (body l vec wb))) 0 [] f1 Hfits Hapart
    ltac:(pose proof entries_length; lia) Hf1) as Hre. rewrite Z.add_0_l, !app_nil_l in Hre. change (blen (@nil byte)) with 0 in Hre.
  unfold mbind at 1, st_bind at 1. destruct (replay _ _ _ _ _ f1) as [f2 [off|e|]]; [|by left; apply Hre|done].
  destruct Hre as (-> & Hr2 & Hf2 & Hov). destruct (wk_advance stamp (store f2) Hf2) as (s3 & Ha & Hs3 & Hc3 & Hst). rewrite (bind_ok _ _ f2 (setStore f2 s3) tt) by (unfold onStore; by rewrite Ha).
  unfold mbind, st_bind. unfold body. rewrite sections_spec by done. replace (setStore f2 s3) with (setStore f s3) by (destruct Hr1, Hr2; unfold setStore in *; cbn in *; congruence).
  pose proof (hooks_store RestoreAll wasmRestore vec wb (setStore f s3)) as Hh. destruct (hooks RestoreAll wasmRestore vec wb (setStore f s3)) as [f' [[]|e|]] eqn:Eh; [|by right; exists s3|done].
  cbn in Hh. subst s3. split; [done|]. split; [done|]. split; [rewrite Hst by apply Hstamp; lia|]. split; [|done]. destruct Hov as [Hin Hout].
  split; [intros k v e Hk; rewrite Hc3; by apply Hin|]. intros k Hk. rewrite Hc3. destruct (Hout k Hk) as [->|[-> _]]; [|by left]. apply (wiped (store f) l0); [done|done|].
  intros k'. rewrite Hc1. cbn [store setStore]. by rewrite Hc0.
Qed.

End Sealed.

(** ** Restoring any bytes *)

Section Total.
Context {S V W : Type} `{HL : KVLaws S} `{HW : !Walk S} `{WL : !WalkLaws S}.
Context (RestoreAll : bytes -> V -> V * bool) (wasmRestore : option (bytes -> W -> W * bool)).
Abbreviation R := (st (@full S V W) snapErr).

(** A step that returns or fails, on a cache that is in order before and after. *)
Definition safe {A} (Q : A -> Prop) (m : R A) : Prop := forall f, kvOk (store f) ->
  match m f with (f', Ok a) => kvOk (store f') /\ Q a | (f', Err _) => kvOk (store f') | (_, Panic) => False end.

Lemma safe_bind {A B} P Q (m : R A) (k : A -> R B) : safe P m -> (forall a, P a -> safe Q (k a)) -> safe Q (m ≫= k).
Proof.
  intros Hm Hk f Hf. specialize (Hm f Hf). unfold mbind, st_bind. destruct (m f) as [f1 [a|e|]]; [|done..]. destruct Hm as [Hf1 Ha]. by apply (Hk a Ha f1).
Qed.

Lemma safe_ret {A} (Q : A -> Prop) a : Q a -> safe Q (mret a).
Proof. intros Ha f Hf. done. Qed.

Lemma safe_throw {A} (Q : A -> Prop) e : safe Q (throw e).
Proof. intros f Hf. done. Qed.

Lemma safe_if {A} (Q : A -> Prop) (c : bool) m n : (c = true -> safe Q m) -> (c = false -> safe Q n) -> safe Q (if c then m else n).
Proof. destruct c; auto. Qed.

Lemma safe_beAt {B} n b off Q (k : Z -> R B) : 0 <= off -> off + Z.of_nat n <= blen b -> (forall x, fits (8 * Z.of_nat n) x -> safe Q (k x)) -> safe Q (lift (beAt n b off) ≫= k).
Proof. intros Ho Hn Hk f Hf. destruct (beAt_in (E:=snapErr) n b off Ho Hn) as (x & Hx & Hfx). rewrite (bind_lift _ x) by done. by apply Hk. Qed.

Lemma safe_slice {B} b lo hi Q (k : bytes -> R B) : 0 <= lo <= hi -> hi <= blen b -> (forall x, safe Q (k x)) -> safe Q (lift (slice b lo hi) ≫= k).
Proof. intros Ho Hn Hk f Hf. destruct (slice_exists (E:=snapErr) b lo hi Ho Hn) as (x & Hx & _). rewrite (bind_lift _ x) by done. by apply Hk. Qed.

Lemma safe_onStore {A} (m : st S cerr A) :
  (forall s, kvOk s -> match m s with (s', Panic) => False | (s', _) => kvOk s' end) -> safe (fun _ => True) (onStore m).
Proof. intros Hm f Hf. specialize (Hm _ Hf). unfold onStore. by destruct (m (store f)) as [s' [a|e|]]. Qed.

Lemma safe_kept m : storeKept m -> safe (fun _ : unit => True) m.
Proof. intros Hm f Hf. specialize (Hm f). destruct (m f) as [f' [[]|e|]]; by rewrite ?Hm. Qed.

Lemma safe_gets {A B} (g : @full S V W -> A) Q (k : A -> R B) : (forall a, safe Q (k a)) -> safe Q (gets g ≫= k).
Proof. intros Hk f Hf. rewrite bind_gets. by apply Hk. Qed.

#[local] Ltac checked := apply safe_if; [intros _; apply safe_throw|intros ?%Z.ltb_ge].

Lemma safe_put k v e : fits 64 e -> safe (fun _ => True) (onStore (cPutAbs k v e)).
Proof. intros He. apply safe_onStore. intros s Hs. pose proof (law_write s k v e Hs He) as Hw. destruct (cPutAbs k v e s) as [s' [a|er|]]; [by apply Hw|by apply Hw|done]. Qed.

Lemma safe_clear l : safe (fun _ => True) (clear l).
Proof.
  induction l as [|[[k v] e] l IH]; [by apply safe_ret|]. cbn [clear]. eapply safe_bind; [|intros _ _; exact IH]. apply (safe_onStore (cDel k)). intros s Hs.
  pose proof (law_del s k Hs) as Hd. destruct (cDel k s) as [s' [a|er|]]; [by apply Hd|by apply Hd|done].
Qed.

(** An entry takes fourteen bytes and more, so the fuel lasts. *)
Lemma safe_replay n b : forall fuel c off, 0 <= off <= blen b -> blen b - off < Z.of_nat fuel -> safe (fun off' => 0 <= off' <= blen b) (replay fuel c n b off).
Proof.
  induction fuel as [|fuel IH]; intros c off Ho Hf; cbn [replay]; (apply safe_if; intros _; [by apply safe_ret|]); [lia|].
  checked. apply safe_beAt; [lia..|]. intros klen [Hk _]. cbn zeta. checked. apply safe_slice; [lia..|]. intros k.
  checked. apply safe_beAt; [lia..|]. intros vlen [Hv _]. checked. apply safe_slice; [lia..|]. intros v.
  checked. apply safe_beAt; [lia..|]. intros e He. eapply safe_bind; [by apply safe_put|]. intros _ _. apply IH; lia.
Qed.

Lemma safe_vectors blob : safe (fun _ => True) (restoreVectors RestoreAll blob).
Proof. apply safe_kept. intros f. unfold restoreVectors. destruct (vectors f) as [v|]; [|done]. by destruct (RestoreAll blob v) as [v' []]. Qed.

Lemma safe_wasm blob : safe (fun _ => True) (restoreWASM wasmRestore blob).
Proof. apply safe_kept. intros f. unfold restoreWASM. destruct wasmRestore as [r|]; [|done]. by destruct (r blob (wasm f)) as [w' []]. Qed.

Lemma safe_end (c : bool) : safe (fun _ => True) (if c then throw errBadSnapshot else mret tt).
Proof. apply safe_if; intros _; [apply safe_throw|by apply safe_ret]. Qed.

Lemma safe_sections version b off : 0 <= off <= blen b -> safe (fun _ => True) (sections RestoreAll wasmRestore version b off).
Proof.
  intros Ho. unfold sections. apply safe_if; intros _; [apply safe_end|]. apply safe_if; intros _.
  - apply safe_gets. intros f. apply safe_if; intros Hoff; [|apply safe_end]. checked. apply safe_beAt; [lia..|]. intros vlen [Hv _]. cbn zeta.
    apply safe_if; intros Hl; [apply safe_throw|]. apply negb_false_iff, Z.eqb_eq in Hl. apply safe_slice; [lia..|]. apply safe_vectors.
  - checked. apply safe_beAt; [lia..|]. intros vlen [Hv _]. cbn zeta. checked.
    apply (safe_bind (fun _ => True)); [apply safe_if; intros _; [apply safe_slice; [lia..|]; apply safe_vectors|by apply safe_ret]|]. intros _ _.
    checked. apply safe_beAt; [lia..|]. intros wlen [Hw _]. checked.
    apply (safe_bind (fun _ => True)); [apply safe_if; intros _; [apply safe_slice; [lia..|]; apply safe_wasm|by apply safe_ret]|]. intros _ _. apply safe_end.
Qed.

(** C34. Restoring any bytes whatever, of any of the five versions or of none, into a cache
    that is in order ends: it does not read beyond the bytes, the loop over the entries stops before
    its fuel runs out, whatever count the trailer claims, and the cache is in order afterwards, on the error
    paths too. *)
Theorem restore_total all (f : @full S V W) : kvOk (store f) ->
  match restoreSnapshot RestoreAll wasmRestore all f with (_, Panic) => False | (f', _) => kvOk (store f') end.
Proof.
  intros Hf. cut (safe (fun _ => True) (restoreSnapshot RestoreAll wasmRestore all)); [intros Hs; specialize (Hs f Hf); by destruct (restoreSnapshot _ _ _ f) as [f' [i|e|]]; destruct_and?|].
  clear f Hf. unfold restoreSnapshot. destruct (parse_total all) as [([[[[version count] idx] stamp] b] & Hp)|[e Hp]]; rewrite Hp; [|apply safe_throw].
  change (lift (Ok (version, count, idx, stamp, b)) : R _) with (mret (version, count, idx, stamp, b) : R _).
  apply (safe_bind (fun x => x = (version, count, idx, stamp, b))); [by apply safe_ret|]. intros _ ->.
  apply (safe_bind (fun _ => True)); [apply (safe_onStore cIterate); intros s Hs; by destruct (wk_iterate s Hs) as (s' & l & -> & ? & _)|]. intros l _.
  apply (safe_bind (fun _ => True)); [apply safe_clear|]. intros _ _. apply (safe_bind (fun off => 0 <= off <= blen b)); [apply safe_replay; pose proof (blen_nonneg b); unfold blen in *; lia|].
  intros off Ho. apply (safe_bind (fun _ => True)); [apply (safe_onStore (cAdvanceStamp stamp)); intros s Hs; by destruct (wk_advance stamp s Hs) as (s' & -> & ? & _)|]. intros _ _.
  apply (safe_bind (fun _ => True)); [by apply safe_sections|]. intros _ _. by apply safe_ret.
Qed.

End Total.

(** ** The round trip *)

Section Roundtrip.
Context {S V W : Type} `{HL : KVLaws S} `{HW : !Walk S} `{WL : !WalkLaws S}.
Context (SnapshotAll : V -> option bytes).

Definition vectorBlob (f : @full S V W) : option bytes := match vectors f with None => Some [] | Some v => SnapshotAll v end.

Lemma serialize_spec (f : @full S V W) idx wb vec : kvOk (store f) -> vectorBlob f = Some vec -> exists s' l,
  serializeSnapshot SnapshotAll idx wb f = (setStore f s', Ok (sealed (body l vec wb) (blen l) idx (cLastStamp (store f)))) /\ kvOk s' /\
  (forall k, content s' k = content (store f) k) /\ Forall entryFits l /\ apart l /\
  forall k v e, (k, v, e) ∈ l <-> content (store f) k = Some (v, e) /\ Shard.isExpired e (walkNow (store f) k) = false.
Proof.
  intros Hf Hv. destruct (wk_iterate (store f) Hf) as (s' & l & Hi & Hs & Hc & Hst & Hnd & Hl). exists s', l. split_and!; [|done|done| | |done].
  - unfold serializeSnapshot. rewrite (bind_ok _ _ f (setStore f s') l) by (unfold onStore; by rewrite Hi). rewrite bind_gets. unfold vectorBlob in Hv. cbn [setStore vectors id]. rewrite Hv. cbn. by rewrite Hst.
  - apply Forall_forall. intros [[k v] e] [Hk _]%Hl. destruct (wk_fits (store f) k v e Hf Hk). split; [done|split; [done|]]. exact (law_fits _ k v e Hf Hk).
  - unfold apart. apply NoDup_fmap_2_strong; [|done]. intros k k' ([[k1 v] e] & -> & [Hk _]%Hl)%list_elem_of_fmap ([[k2 v'] e'] & -> & [Hk' _]%Hl)%list_elem_of_fmap Hh. cbn in *.
    destruct (decide (k2 = k1)) as [|Hne]; [done|]. assert (content (store f) k2 = None) by (apply (law_hash (store f) k1); [done|congruence|done|done]). congruence.
Qed.

End Roundtrip.

Section Replicas.
(** The replica that takes the snapshot and the one that restores it. *)
Context {S1 S2 V W : Type} `{L1 : KVLaws S1} `{W1 : !Walk S1} `{WL1 : !WalkLaws S1} `{L2 : KVLaws S2} `{W2 : !Walk S2} `{WL2 : !WalkLaws S2}.
Context (Hhash : forall k, hash (S:=S1) k = hash (S:=S2) k).
Context (SnapshotAll : V -> option bytes) (RestoreAll : bytes -> V -> V * bool) (wasmRestore : option (bytes -> W -> W * bool)).

(** [s'] holds what the snapshot's walk of [s1] saw; beside it only what the wipe's walk
    of [s2] took for expired. *)
Definition installed (s1 : S1) (s2 s' : S2) : Prop := forall k,
  content s' k = live (walkNow s1 k) (content s1 k) \/
  (live (walkNow s1 k) (content s1 k) = None /\ content s' k = content s2 k /\ live (walkNow s2 k) (content s2 k) = None).

Lemma installed_agree s1 s2 s' t : installed s1 s2 s' -> (forall k, walkNow s1 k <= t /\ walkNow s2 k <= t) -> agree t (content s') (content s1).
Proof.
  intros Hi Ht k. destruct (Ht k) as [Ht1 Ht2]. rewrite <- (live_later _ t (content s1 k) Ht1). destruct (Hi k) as [->|(-> & -> & E2)]; [by rewrite live_later|].
  rewrite <- (live_later _ t (content s2 k) Ht2), E2. done.
Qed.

Lemma restored_installed l s1 s2 s' : restoredTo l s2 s' ->
  (forall k v e, (k, v, e) ∈ l <-> content s1 k = Some (v, e) /\ Shard.isExpired e (walkNow s1 k) = false) -> installed s1 s2 s'.
Proof.
  intros [Hin Hout] Hl k. destruct (live (walkNow s1 k) (content s1 k)) as [[v e]|] eqn:El.
  - left. apply Hin, Hl. unfold live in El. destruct (content s1 k) as [[v' e']|]; [|done]. destruct (Shard.isExpired e' _) eqn:Ex; [done|]. by injection El as -> ->.
  - destruct (Hout k) as [->|[-> ?]]; [|by left|by right]. intros ([[k' v] e] & -> & [Hk Hx]%Hl)%list_elem_of_fmap. cbn in *. rewrite Hk in El. cbn in El. by rewrite Hx in El.
Qed.

(** Taking a snapshot and restoring it. *)
Lemma taken_restored (f1 : @full S1 V W) (f2 : @full S2 V W) idx wb vec : kvOk (store f1) -> kvOk (store f2) -> ~ lossy (S:=S2) ->
  fits 64 idx -> fits 64 (cLastStamp (store f1)) -> vectorBlob SnapshotAll f1 = Some vec -> valFits vec -> valFits wb ->
  exists s1' all, serializeSnapshot SnapshotAll idx wb f1 = (setStore f1 s1', Ok all) /\ (forall k, content s1' k = content (store f1) k) /\
  (blen all < 2 ^ 64 ->
   match restoreSnapshot RestoreAll wasmRestore all f2 with
   | (f2', Ok i) => i = idx /\ kvOk (store f2') /\ cLastStamp (store f1) <= cLastStamp (store f2') /\ installed (store f1) (store f2) (store f2') /\
       hooks RestoreAll wasmRestore vec wb (setStore f2 (store f2')) = (f2', Ok tt)
   | (f2', Err e) => storeRefused (S:=S2) e \/ exists s, hooks RestoreAll wasmRestore vec wb (setStore f2 s) = (f2', Err e)
   | (_, Panic) => False
   end).
Proof.
  intros H1 H2 Hll Hi Hst Hv Hvf Hwf. destruct (serialize_spec SnapshotAll f1 idx wb vec H1 Hv) as (s' & l & Hs & Hs' & Hc & Hfit & Ha & Hl).
  exists s', (sealed (body l vec wb) (blen l) idx (cLastStamp (store f1))). split; [done|]. split; [done|]. intros Hlen.
  assert (fits 64 (blen l)) as Hn by (split; [apply blen_nonneg|]; pose proof (sealed_count l vec wb idx (cLastStamp (store f1))); lia).
  assert (apart (S:=S2) l) as Ha2 by (unfold apart in *; by rewrite <- (list_fmap_ext _ _ _ (fun _ k _ => Hhash k))).
  pose proof (restore_sealed RestoreAll wasmRestore l vec wb idx _ Hfit Ha2 Hn Hvf Hwf Hi Hst Hll f2 H2) as Hr.
  destruct (restoreSnapshot _ _ _ f2) as [f2' [i|e|]]; [|done..]. destruct Hr as (-> & Hok & Hclk & Hto & Hh). split_and!; try done.
  by apply (restored_installed l).
Qed.

(** C15. A snapshot taken by one replica and restored by another, on a cache that does not
    evict. Taking it succeeds when the vector store can be saved, and changes no entry.
    Restoring the bytes gives the applied index that was sealed into them, a logical
    clock that is not behind the one of the source, the blobs of the vector store
    and of the registrations to their loaders, and every entry the walk of the source saw with its value and deadline
    unchanged; of the entries the restoring replica had, none is left but such as had expired by
    its wall clock. So from the time of both walks on no read tells the two apart.
    A restore fails only if the cache has no room or a loader refuses its blob. *)
Theorem snapshot_roundtrip (f1 : @full S1 V W) (f2 : @full S2 V W) idx wb vec : kvOk (store f1) -> kvOk (store f2) -> ~ lossy (S:=S2) ->
  fits 64 idx -> fits 64 (cLastStamp (store f1)) -> vectorBlob SnapshotAll f1 = Some vec -> valFits vec -> valFits wb ->
  exists f1' all, serializeSnapshot SnapshotAll idx wb f1 = (f1', Ok all) /\ (forall k, content (store f1') k = content (store f1) k) /\
  (blen all < 2 ^ 64 ->
   match restoreSnapshot RestoreAll wasmRestore all f2 with
   | (f2', Ok i) => i = idx /\ kvOk (store f2') /\ cLastStamp (store f1) <= cLastStamp (store f2') /\ installed (store f1) (store f2) (store f2') /\
       (forall t, (forall k, walkNow (store f1) k <= t /\ walkNow (store f2) k <= t) -> agree t (content (store f2')) (content (store f1))) /\
       hooks RestoreAll wasmRestore vec wb (setStore f2 (store f2')) = (f2', Ok tt)
   | (f2', Err e) => storeRefused (S:=S2) e \/ exists s, hooks RestoreAll wasmRestore vec wb (setStore f2 s) = (f2', Err e)
   | (_, Panic) => False
   end).
Proof.
  intros H1 H2 Hll Hi Hst Hv Hvf Hwf. destruct (taken_restored f1 f2 idx wb vec H1 H2 Hll Hi Hst Hv Hvf Hwf) as (s' & all & Hs & Hc & Hr).
  exists (setStore f1 s'), all. split; [done|]. split; [done|]. intros Hlen. specialize (Hr Hlen). destruct (restoreSnapshot _ _ _ f2) as [f2' [i|e|]]; [|done..].
  destruct Hr as (-> & Hok & Hclk & Hin & Hh). split_and!; try done. intros t Ht. by apply installed_agree with (s2 := store f2).
Qed.

Lemma setNX_meets {S} `{HL : KVLaws S} n s k v ttl : kvOk s -> keyFits k -> valFits v -> duration ttl ->
  meets n k (decide_ n (RSetNX k v ttl) (content s k)) s (handleSetNX (MkTx true n) (KVWire.EncodePutArgs k v ttl) s).
Proof.
  intros Hs Hk Hv Ht. destruct (op_meets n s (RSetNX k v ttl) Hs) as (h & Hh & Hm); [by split_and!|].
  assert (Some (OpReadWrite, handleSetNX) = Some (OpReadWrite, h)) as Heq by exact Hh. by injection Heq as <-.
Qed.

(** C13. A snapshot forgets entries that are live for the log. A key whose deadline lies after
    the stamp [n] of the entries that are still to be applied, and not after the wall clock that the
    snapshot's walk reads, is left out of the snapshot. The replica that restores the snapshot,
    where the key was absent, reports the sealed index as applied and does not have it; so the same entry of the log, a put-if-absent
    of the key stamped [n], is answered with 0 by the replica that took the snapshot and,
    unless the cache refuses the write, with 1 by the one that restored it, which stores
    another value. *)
Theorem snapshot_forgets_live_entries (f1 : @full S1 V W) (f2 : @full S2 V W) idx wb vec k v e n v' ttl : kvOk (store f1) -> kvOk (store f2) -> ~ lossy (S:=S2) ->
  fits 64 idx -> fits 64 (cLastStamp (store f1)) -> vectorBlob SnapshotAll f1 = Some vec -> valFits vec -> valFits wb ->
  content (store f1) k = Some (v, e) -> Shard.isExpired e n = false -> Shard.isExpired e (walkNow (store f1) k) = true -> content (store f2) k = None ->
  keyFits k -> valFits v' -> duration ttl ->
  exists f1' all, serializeSnapshot SnapshotAll idx wb f1 = (f1', Ok all) /\
  (blen all < 2 ^ 64 ->
   match restoreSnapshot RestoreAll wasmRestore all f2 with
   | (f2', Ok i) => i = idx /\ content (store f2') k = None /\
       (handleSetNX (MkTx true n) (KVWire.EncodePutArgs k v' ttl) (store f1)).2 = Ok zero /\
       match handleSetNX (MkTx true n) (KVWire.EncodePutArgs k v' ttl) (store f2') with
       | (s, Ok b) => b = one /\ content s k = Some (v', deadline n ttl)
       | (_, Err er) => exists c, er = OCache c /\ refusal (room (S:=S2)) k v' c
       | (_, Panic) => False
       end
   | (f2', Err er) => storeRefused (S:=S2) er \/ exists s, hooks RestoreAll wasmRestore vec wb (setStore f2 s) = (f2', Err er)
   | (_, Panic) => False
   end).
Proof.
  intros H1 H2 Hll Hi Hst Hv Hvf Hwf Hk Hn Hw Hk2 Hkf Hvf' Ht. destruct (taken_restored f1 f2 idx wb vec H1 H2 Hll Hi Hst Hv Hvf Hwf) as (s' & all & Hs & _ & Hr).
  exists (setStore f1 s'), all. split; [done|]. intros Hlen. specialize (Hr Hlen). destruct (restoreSnapshot _ _ _ f2) as [f2' [i|er|]]; [|done..].
  destruct Hr as (-> & Hok & _ & Hin & _). assert (content (store f2') k = None) as Hnone.
  { destruct (Hin k) as [->|(_ & -> & _)]; [|done]. rewrite Hk. cbn. by rewrite Hw. }
  split; [done|]. split; [done|]. split.
  - pose proof (setNX_meets n (store f1) k v' ttl H1 Hkf Hvf' Ht) as Hm. rewrite Hk in Hm. cbn in Hm. rewrite Hn in Hm. by destruct Hm as [[Hm _]|[? _]].
  - pose proof (setNX_meets n (store f2') k v' ttl Hok Hkf Hvf' Ht) as Hm. rewrite Hnone in Hm. cbn in Hm.
    destruct (handleSetNX _ _ (store f2')) as [s o]. destruct Hm as [[Hm Ha]|(_ & c & Hc & Hm & _)]; cbn in *; subst o; [|by exists c]. split; [done|]. apply Ha.
Qed.

(** ** A replica that is restored from a snapshot *)

Context {M1 : Watermark S1} {ML1 : WatermarkLaws S1} {M2 : Watermark S2} {ML2 : WatermarkLaws S2}.
Context (registry : nat -> string -> option (OpKind * handler (S:=S1))) (stopped : nat -> bool) (durable durable2 : bool) (hist : list item).
Context (wasmSnapshot : option (W -> bytes)).

Definition wasmBlob (x : W) : bytes := match wasmSnapshot with Some g => g x | None => [] end.

(** C4. A replica restored from a snapshot is the log as well. The source has been delivered [p]
    entries of its log. It can take a snapshot, and a replica that restores it reports
    at least the index of the source as applied, and holds what running the first [q] entries of
    the log on a plain map gives, for a [q] of at least [p] and of at least that index: every
    read tells the same that is not before the stamps of these entries and
    not before the wall clocks the two walks read. The restore fails only if the
    cache of the restoring replica has no room or a loader refuses its blob. *)
Theorem restored_replica_replays_log (f : @fsm S1) p (g : @fsm S2) v x v2 x2 vec : setup registry hist -> reaches registry stopped durable hist f p -> halted f = false ->
  0 <= appliedIndex f -> fits 64 (cLastStamp (cache f)) -> vectorBlob SnapshotAll (MkFull (cache f) v x) = Some vec -> valFits vec -> valFits (wasmBlob x) ->
  kvOk (cache g) -> ~ lossy (S:=S2) ->
  exists f' all, fsmSnapshot SnapshotAll wasmSnapshot f v x = (f', Ok all) /\ (forall k, content (cache f') k = content (cache f) k) /\
  (blen all < 2 ^ 64 ->
   match fsmRestore RestoreAll wasmRestore durable2 all g v2 x2 with
   | (g', _, _, Ok _) => kvOk (cache g') /\ appliedIndex f <= appliedIndex g' /\ exists q, (p <= q <= length hist)%nat /\ appliedIndex f <= Z.of_nat q /\
       forall n, asOf hist q n -> (forall k, walkNow (cache f) k <= n /\ walkNow (cache g) k <= n) -> agree n (content (cache g')) (replayed (hash (S:=S1)) (take q hist))
   | (_, _, _, Err e) => storeRefused (S:=S2) e \/ exists (s : S2) m, hooks RestoreAll wasmRestore vec (wasmBlob x) (MkFull s v2 x2) = (m, Err e)
   | (_, _, _, Panic) => False
   end).
Proof.
  intros Hsu Hre Hha Hi0 Hst Hv Hvf Hwf Hg Hll. destruct (reaches_ok _ _ _ _ f p Hsu Hre) as [[Hab _ (Hlen & Hok & Hag) Hap _]|[q Hq]]; [|by rewrite (stoppedAt_halted _ _ _ _ Hq) in Hha].
  set (q := Nat.max p (Z.to_nat (cAppliedIndex (cache f)))) in *. pose proof (su_len _ _ Hsu) as Hh. unfold blen in Hh.
  destruct (taken_restored (MkFull (cache f) v x) (MkFull (cache g) v2 x2) (appliedIndex f) (wasmBlob x) vec Hok Hg Hll) as (s' & all & Hs & Hc & Hr); [unfold fits; lia|done..|].
  exists (setCache f s'), all. split; [unfold fsmSnapshot; rewrite Hab; fold (wasmBlob x); by rewrite Hs|]. split; [done|]. intros Hsz. specialize (Hr Hsz). unfold fsmRestore.
  destruct (restoreSnapshot _ _ _ _) as [m [i|e|]]; [|destruct Hr as [?|[s Hx]]; [by left|right; by exists s, m]|done].
  destruct Hr as (-> & Hm & _ & Hin & _). set (g1 := if appliedIndex f <=? appliedIndex (setCache g (store m)) then setCache g (store m) else setApplied (setCache g (store m)) (appliedIndex f)).
  assert (cache g1 = store m /\ appliedIndex f <= appliedIndex g1) as [Hg1 Hi1] by (unfold g1; destruct (Z.leb_spec (appliedIndex f) (appliedIndex (setCache g (store m)))); cbn in *; split; (done || lia)).
  destruct (wm_set (appliedIndex f) durable2 (store m) Hm ltac:(lia)) as (c & He & Hokc & Hcc & _).
  unfold advanceApplied. rewrite bind_modify. fold g1. unfold setWatermark. rewrite Hg1, He. cbn [cache setCache appliedIndex].
  split; [done|]. split; [done|]. exists q. split; [unfold q in *; lia|]. split; [done|]. intros n Hn Hw. transitivity (content (cache f)); [|by apply stands_agree, Hag].
  transitivity (content (store m)); [intros k; by rewrite Hcc|]. by apply (installed_agree (cache f) (cache g)).
Qed.

End Replicas.
