(* ===== verification/SnapshotCache.v ===== *)
(** * Snapshots of the cache: it keeps the promises a snapshot relies on, a sample
    replica is restored from one, and a snapshot forgets entries that are live. *)
From S2P Require Import Prelude CacheConfig SipHash Entry Page IndexTable Shard ShardInv ShardProps CacheFile Cache Wire KVWire KVWireProps KVOps KVSpec CacheProps CacheMark CacheIter LogCodec ShardLog ShardFSM FSMProps CacheFSM Snapshot SnapshotProps.
From stdpp Require Import strings.
Import Entry Page IndexTable Shard KVWire KVOps ShardLog ShardFSM Snapshot.
#[local] Open Scope Z_scope.

Section Instance_.
Context (hashKey : bytes -> Z) (Hhash : forall k, fits 64 (hashKey k)).
Context (ws : nat -> world) (cfg : Config) (Hcfg : cfg_ok cfg) (Hpol : AtCapPolicy cfg = PolicyRingbufEvict \/ AtCapPolicy cfg = PolicyRejectWrites).
Context (nbits : Z) (Hbits : 0 <= nbits < 64) (Hshards : NumShards cfg = 2 ^ nbits).
Context (mm : bool).
#[local] Abbreviation lookup := (ShardInv.lookup hashKey).
#[local] Abbreviation cell_ok := (cell_ok hashKey cfg mm).
#[local] Abbreviation cache_ok := (cache_ok hashKey cfg mm).
#[local] Abbreviation cellOf := (cellOf hashKey cfg).
#[local] Abbreviation cacheContent := (cacheContent hashKey cfg).
#[local] Abbreviation laws := (Cache_KVLaws hashKey Hhash ws cfg Hcfg Hpol nbits Hbits Hshards mm).

Lemma lookup_sizes s k v e : shard_ok hashKey cfg s -> lookup s k = Some (v, e) -> keyFits k /\ valFits v.
Proof.
  intros Hok Hl. destruct (lookup_ref hashKey cfg s k _ Hok Hl) as (ref & r & _ & (_ & p & _ & _ & Hin & _) & <- & [= -> ->]).
  destruct (entry_in_framed _ _ _ Hin) as [Hf _]. destruct Hf as ([Hk Hv _ _] & _). unfold keyFits, valFits, maxKeyLen, maxValueLen in *. lia.
Qed.

(** The logical clock is the largest of the shards' and 0. *)
Definition lastStamp (l : list Cache.cshard) : Z := foldr (fun s m => Z.max (lastAppliedStampMs (Cache.core s)) m) 0 l.

Lemma lastStamp_nonneg l : 0 <= lastStamp l.
Proof. induction l as [|s l IH]; cbn; [done|]. fold (lastStamp l). lia. Qed.

Lemma LastAppliedStampMs_eq c : Cache.LastAppliedStampMs c = lastStamp (Cache.shards c).
Proof.
  unfold Cache.LastAppliedStampMs. assert (forall l a, 0 <= a -> foldl (fun m s => if m <? lastAppliedStampMs (Cache.core s) then lastAppliedStampMs (Cache.core s) else m) a l = Z.max a (lastStamp l)) as H.
  { induction l as [|s l IH]; intros a Ha; cbn [foldl lastStamp foldr]; [lia|]. fold (lastStamp l). destruct (Z.ltb_spec a (lastAppliedStampMs (Cache.core s))); rewrite IH by lia; lia. }
  rewrite H by done. pose proof (lastStamp_nonneg (Cache.shards c)). lia.
Qed.

Lemma lastStamp_same l l' : Forall2 (fun s s' => lastAppliedStampMs (Cache.core s') = lastAppliedStampMs (Cache.core s)) l l' -> lastStamp l' = lastStamp l.
Proof. induction 1 as [|s s' l l' H _ IH]; cbn; [done|]. fold (lastStamp l) (lastStamp l'). by rewrite H, IH. Qed.

Lemma lastStamp_raised n l l' : 0 <= n -> Forall2 (fun s s' => lastAppliedStampMs (Cache.core s') = Z.max n (lastAppliedStampMs (Cache.core s))) l l' -> l <> [] ->
  lastStamp l' = Z.max n (lastStamp l).
Proof.
  intros Hn. induction 1 as [|s s' l l' H Hl IH]; [done|]. intros _. cbn. fold (lastStamp l) (lastStamp l'). rewrite H. destruct l as [|t l]; [inversion Hl; cbn; lia|]. rewrite IH by done. lia.
Qed.

#[export] Program Instance Cache_WalkLaws : @WalkLaws Cache.Cache _ laws (Cache_Walk ws) := {| walkNow := CacheIter.walkNow hashKey ws cfg |}.
Next Obligation.
  intros c Hc. destruct (CacheIter.iterateFrom_ok hashKey ws cfg mm _ (ca_shards _ _ _ c Hc) 0 []) as (l' & He & Hl). exists (Cache.MkCache l'), (CacheIter.walkedFrom ws 0 (Cache.shards c)).
  destruct (same_cells hashKey cfg mm c l' Hc) as [Hc' Hk]; [eapply Forall2_impl; [exact Hl|]; by intros s s' (? & ? & _)|].
  split; [cbn; unfold CacheIter.Iterate; by rewrite He|]. split; [done|]. split; [done|]. split; [|split].
  - cbn [cLastStamp Cache_Walk]. rewrite !LastAppliedStampMs_eq. apply lastStamp_same. eapply Forall2_impl; [exact Hl|]. by intros s s' (_ & _ & ?).
  - apply (CacheIter.walkedFrom_keys hashKey ws cfg mm); [apply Hc|]. apply (ca_placed _ _ _ c Hc).
  - intros k v e. by apply (CacheIter.Iterate_spec hashKey ws cfg mm).
Qed.
Next Obligation.
  intros n c Hc. cbn [cAdvanceStamp cLastStamp Cache_Walk]. unfold Cache.AdvanceAppliedStamp. destruct (Z.eqb_spec n 0) as [->|Hn].
  { exists c. split_and!; try done. intros _. rewrite LastAppliedStampMs_eq. pose proof (lastStamp_nonneg (Cache.shards c)). lia. }
  unfold Cache.each. destruct (eachFrom_ok (fun _ => Cache.inCore (advanceAppliedStamp n))
    (fun s s' => (cell_ok s' /\ forall k, lookup (Cache.core s') k = lookup (Cache.core s) k) /\ lastAppliedStampMs (Cache.core s') = Z.max n (lastAppliedStampMs (Cache.core s))) (Cache.shards c) 0) as (l' & -> & Hl).
  { intros i s Hs. pose proof (proj1 (Forall_forall _ _) (ca_shards _ _ _ c Hc) s Hs) as Hok. destruct (stamp_quiet hashKey cfg (Cache.core s) n (ce_shard _ _ _ _ Hok)) as (He & Hst & Hk).
    unfold Cache.inCore. rewrite He. eexists. split; [reflexivity|]. split; [split; [by apply cell_stays|done]|]. unfold advanceAppliedStamp, modify. cbn. destruct (Z.leb_spec n (lastAppliedStampMs (Cache.core s))); cbn; lia. }
  destruct (same_cells hashKey cfg mm c l' Hc) as [Hc' Hk]; [eapply Forall2_impl; [exact Hl|]; by intros s s' [? _]|].
  exists (Cache.MkCache l'). split_and!; try done. intros Hp. rewrite !LastAppliedStampMs_eq. apply lastStamp_raised; [done|eapply Forall2_impl; [exact Hl|]; by intros s s' [_ ?]|].
  intros Hnil. pose proof (ca_len _ _ _ c Hc) as Hlen. rewrite Hnil, Hshards in Hlen. cbn in Hlen. pose proof (Z.pow_pos_nonneg 2 nbits). lia.
Qed.
Next Obligation.
  intros c k v e Hc Hk. cbn in Hk. unfold CacheProps.cacheContent in Hk. destruct (cell_of hashKey cfg nbits Hbits Hshards mm c k Hc) as (s & Hs & Hok). rewrite Hs in Hk.
  eapply lookup_sizes; [apply Hok|done].
Qed.

End Instance_.

(** ** A sample: a key with a deadline is taken and restored *)

Abbreviation sampleWalks := (Cache_WalkLaws sampleHash sampleHash_fits sampleWorlds sampleCfg2 sampleCfg2_ok (or_intror eq_refl) 1 sampleBits eq_refl false).
Abbreviation put k v e c := (Cache.PutAbs sampleHash sampleWorlds sampleCfg2 k v e c).
Definition source : Cache.Cache := (put [Byte.x01] [Byte.x2a] 5000 sampleCache).1.

(** Another replica, that has a key the source does not have. *)
Definition target : Cache.Cache := (put [Byte.x02] [Byte.x2b] 0 sampleCache).1.

Lemma put_sample k v e : fits 64 e -> (put k v e sampleCache).2 = Ok tt -> cache_ok sampleHash sampleCfg2 false (put k v e sampleCache).1.
Proof. intros He Hr. pose proof (@law_write _ _ sampleLaws sampleCache k v e (proj1 sampleCache_ok) He) as Hw. cbn [cPutAbs Cache_KVStore] in Hw. rewrite (pair_of_snd _ _ Hr) in Hw. apply Hw. Qed.

Lemma source_ok : cache_ok sampleHash sampleCfg2 false source.
Proof. apply put_sample; [done|]. vm_compute. reflexivity. Qed.

Lemma target_ok : cache_ok sampleHash sampleCfg2 false target.
Proof. apply put_sample; [done|]. vm_compute. reflexivity. Qed.

(** The vector store and the registrations are bytes that are saved and loaded as they are. *)
Definition withBlobs (c : Cache.Cache) (v w : bytes) : @full Cache.Cache bytes bytes := MkFull c (Some v) w.
Abbreviation sourceAll := (withBlobs source [Byte.x09] [Byte.x08]).
Abbreviation targetAll := (withBlobs target [] []).
Abbreviation taken := (@serializeSnapshot Cache.Cache bytes bytes (Cache_Walk sampleWorlds) Some 7 [Byte.x08] sourceAll).
Definition sampleBytes : bytes := match taken.2 with Ok b => b | _ => [] end.
Abbreviation given := (@restoreSnapshot Cache.Cache bytes bytes sampleStore (Cache_Walk sampleWorlds) (fun b _ => (b, true)) (Some (fun b _ => (b, true))) sampleBytes targetAll).

Lemma sample_restores : given.2 = Ok 7.
Proof. vm_compute. reflexivity. Qed.

Lemma given_eq : given = (given.1, Ok 7).
Proof. exact (pair_of_snd _ _ sample_restores). Qed.

Lemma sample_size : blen sampleBytes < 2 ^ 64.
Proof. vm_compute. reflexivity. Qed.

Lemma sample_clock : fits 64 (@cLastStamp _ (Cache_Walk sampleWorlds) (store sourceAll)).
Proof. split; vm_compute; done. Qed.

Lemma at_store (P : Cache.Cache -> Prop) c v w : P c -> P (store (withBlobs c v w)).
Proof. done. Qed.

Lemma sample_now c k : @walkNow _ _ sampleLaws _ sampleWalks c k <= 2000.
Proof. change (CacheIter.walkNow sampleHash sampleWorlds sampleCfg2 c k <= 2000). unfold CacheIter.walkNow. by destruct (Cache.shards c !! _). Qed.

(** The restored replica answers as the source. *)
Lemma snapshot_roundtrip_witness : given = (given.1, Ok 7) /\ agree 2000 (@content _ _ sampleLaws (store given.1)) (@content _ _ sampleLaws (store sourceAll)).
Proof.
  destruct (@snapshot_roundtrip _ _ bytes bytes _ sampleLaws _ sampleWalks _ sampleLaws _ sampleWalks (fun k => eq_refl) Some (fun b _ => (b, true)) (Some (fun b _ => (b, true)))
    sourceAll targetAll 7 [Byte.x08] [Byte.x09] (at_store _ _ _ _ source_ok) (at_store _ _ _ _ target_ok) ltac:(done) ltac:(done) sample_clock eq_refl ltac:(done) ltac:(done)) as (f1' & all & Hs & _ & Hr).
  assert (sampleBytes = all) as E by (unfold sampleBytes; by rewrite Hs). rewrite <- E in Hr. specialize (Hr sample_size). rewrite given_eq in Hr. destruct Hr as (_ & _ & _ & _ & Ha & _).
  split; [exact given_eq|]. exact (Ha 2000 (fun k => conj (sample_now (store sourceAll) k) (sample_now (store targetAll) k))).
Defined.

(** A snapshot that was cut short. *)
Lemma restore_total_witness : match @restoreSnapshot Cache.Cache bytes bytes sampleStore (Cache_Walk sampleWorlds) (fun b _ => (b, true)) None (take 40 sampleBytes) targetAll with
  | (_, Panic) => False
  | (f', _) => @kvOk _ _ sampleLaws (store f')
  end.
Proof. exact (@restore_total _ bytes bytes _ sampleLaws _ sampleWalks (fun b _ => (b, true)) None (take 40 sampleBytes) targetAll (at_store _ _ _ _ target_ok)). Defined.

(** ** The sample replica after its first batch, and one restored from its snapshot *)

Abbreviation shot := (@fsmSnapshot Cache.Cache bytes bytes (Cache_Walk sampleWorlds) Some None sampleBatch.1 None []).
Definition shotBytes : bytes := match shot.2 with Ok b => b | _ => [] end.
Abbreviation joined := (@fsmRestore Cache.Cache bytes bytes sampleStore (Cache_Walk sampleWorlds) (Cache_Watermark sampleWorlds) (fun b _ => (b, true)) None false shotBytes sampleStart None []).

Lemma joined_answer : joined.2 = Ok tt.
Proof. vm_compute. reflexivity. Qed.

Lemma joined_eq : joined = (joined.1.1.1, joined.1.1.2, joined.1.2, Ok tt).
Proof. rewrite (pair_of_snd _ _ joined_answer) at 1. generalize joined. by intros [[[f v] x] o]. Qed.

Lemma shot_size : blen shotBytes < 2 ^ 64.
Proof. vm_compute. reflexivity. Qed.

Lemma batch_clock : fits 64 (@cLastStamp _ (Cache_Walk sampleWorlds) (cache sampleBatch.1)).
Proof. split; vm_compute; done. Qed.

Lemma batch_index : 0 <= appliedIndex sampleBatch.1.
Proof. vm_compute. done. Qed.

Lemma sample_asOf_later q : asOf sampleHist q 2000.
Proof. intros p m r _ Hp. destruct p as [|[|[|p]]]; cbn in Hp; try discriminate; injection Hp as <- <-; lia. Qed.

Lemma restored_replica_replays_log_witness : exists q, (2 <= q <= 3)%nat /\
  agree 2000 (@content _ _ sampleLaws (cache joined.1.1.1)) (replayed (@hash _ _ sampleLaws) (take q sampleHist)).
Proof.
  destruct (@restored_replica_replays_log _ _ bytes bytes _ sampleLaws _ sampleWalks _ sampleLaws _ sampleWalks (fun k => eq_refl) Some (fun b _ => (b, true)) None
    _ sampleMarks _ sampleMarks sampleRegistry (fun _ => false) false false sampleHist None sampleBatch.1 2 sampleStart None [] None [] []
    sample_setup sample_reaches sample_live batch_index batch_clock eq_refl ltac:(done) ltac:(done) (proj1 sampleCache_ok) ltac:(done)) as (f' & all & Hs & _ & Hr).
  assert (shotBytes = all) as E by (unfold shotBytes; by rewrite Hs). rewrite <- E in Hr. specialize (Hr shot_size). rewrite joined_eq in Hr. destruct Hr as (_ & _ & q & Hq & _ & Ha).
  exists q. split; [exact Hq|]. exact (Ha 2000 (sample_asOf_later q) (fun k => conj (sample_now (cache sampleBatch.1) k) (sample_now (cache sampleStart) k))).
Defined.

(** ** What a snapshot forgets *)

(** The wall clock when the snapshot is taken. *)
Definition lateWorlds : nat -> world := fun _ => MkWorld (fun _ => 1020) (fun n => Some (Z.of_nat n)) (fun _ => true) true (fun _ => 0).
Definition applySample (l : list LogCodec.Log) (f : @fsm Cache.Cache) : @fsm Cache.Cache * outcome cerr (list ApplyResponse) :=
  @ApplyBatch Cache.Cache (Cache_Watermark sampleWorlds) sampleRegistry (fun _ => false) false true 1 l f.
Definition firstEntry : list LogCodec.Log := [sampleEntry 1 (Cmd 1000 (RPut [Byte.x01] [Byte.x2a] 10000000))].
Definition secondEntry : list LogCodec.Log := [sampleEntry 2 (Cmd 1005 (RSetNX [Byte.x01] [Byte.x2b] 0))].

(** The answers to the second entry: of the replica that has applied the first one, and
    of the replica that is restored from its snapshot. *)
Definition forgetRun : outcome snapErr (outcome cerr (list ApplyResponse) * outcome cerr (list ApplyResponse) * Z) :=
  let (f, _) := applySample firstEntry sampleStart in
  let (_, b) := @fsmSnapshot _ unit unit (Cache_Walk lateWorlds) (fun _ => None) None f None tt in
  b ← b;
  let '(f', _, _, r) := @fsmRestore _ unit unit sampleStore (Cache_Walk lateWorlds) (Cache_Watermark sampleWorlds) (fun _ x => (x, false)) None false b sampleStart None tt in
  _ ← r;
  Ok ((applySample secondEntry f).2, (applySample secondEntry f').2, appliedIndex f').

(** The first entry of the log, stamped 1000, puts a key for 10 ms; the second, stamped
    1005, puts it if it is absent; the snapshot is taken between them, at 1020. *)
Lemma forget_run : forgetRun = Ok (Ok [MkResp [Byte.x00] None], Ok [MkResp [Byte.x01] None], 1).
Proof. vm_compute. reflexivity. Qed.

(** The theorem at a key that expires at 990, a snapshot taken at 1000 and an entry of the
    log that is stamped 985. *)
Definition brief : Cache.Cache := (put [Byte.x01] [Byte.x2a] 990 sampleCache).1.
Abbreviation briefAll := (withBlobs brief [Byte.x09] [Byte.x08]).
Abbreviation emptyAll := (withBlobs sampleCache [] []).
Abbreviation briefTaken := (@serializeSnapshot Cache.Cache bytes bytes (Cache_Walk sampleWorlds) Some 7 [Byte.x08] briefAll).
Definition briefBytes : bytes := match briefTaken.2 with Ok b => b | _ => [] end.
Abbreviation briefGiven := (@restoreSnapshot Cache.Cache bytes bytes sampleStore (Cache_Walk sampleWorlds) (fun b _ => (b, true)) (Some (fun b _ => (b, true))) briefBytes emptyAll).

Lemma brief_ok : cache_ok sampleHash sampleCfg2 false brief.
Proof. apply put_sample; [done|]. vm_compute. reflexivity. Qed.

Lemma brief_key : @content _ _ sampleLaws brief [Byte.x01] = Some ([Byte.x2a], 990).
Proof. vm_compute. reflexivity. Qed.

Lemma brief_walk : isExpired 990 (@walkNow _ _ sampleLaws _ sampleWalks brief [Byte.x01]) = true.
Proof. vm_compute. reflexivity. Qed.

Lemma brief_clock : fits 64 (@cLastStamp _ (Cache_Walk sampleWorlds) (store briefAll)).
Proof. split; vm_compute; done. Qed.

Lemma brief_size : blen briefBytes < 2 ^ 64.
Proof. vm_compute. reflexivity. Qed.

Lemma brief_restores : briefGiven.2 = Ok 7.
Proof. vm_compute. reflexivity. Qed.

Lemma snapshot_forgets_live_entries_witness : briefGiven = (briefGiven.1, Ok 7) /\ @content _ _ sampleLaws (store briefGiven.1) [Byte.x01] = None /\
  (@handleSetNX Cache.Cache sampleStore (MkTx true 985) (EncodePutArgs [Byte.x01] [Byte.x2b] 0) (store briefAll)).2 = Ok zero.
Proof.
  destruct (@snapshot_forgets_live_entries _ _ bytes bytes _ sampleLaws _ sampleWalks _ sampleLaws _ sampleWalks (fun k => eq_refl) Some (fun b _ => (b, true)) (Some (fun b _ => (b, true)))
    briefAll emptyAll 7 [Byte.x08] [Byte.x09] [Byte.x01] [Byte.x2a] 990 985 [Byte.x2b] 0 (at_store _ _ _ _ brief_ok) (at_store _ _ _ _ (proj1 sampleCache_ok)) ltac:(done) ltac:(done)
    brief_clock eq_refl ltac:(done) ltac:(done) brief_key eq_refl brief_walk (proj1 (proj2 sampleCache_ok) _) ltac:(done) ltac:(done) ltac:(done)) as (f1' & all & Hs & Hr).
  assert (briefBytes = all) as E by (unfold briefBytes; by rewrite Hs). rewrite <- E in Hr. specialize (Hr brief_size).
  rewrite (pair_of_snd _ _ brief_restores) in Hr. destruct Hr as (_ & H1 & H2 & _). split; [exact (pair_of_snd _ _ brief_restores)|]. exact (conj H1 H2).
Defined.
