(* ===== verification/ReadIndex.v ===== *)
(** * Read barriers (src/shard/readindex_coalesce.go, its twins
    src/cluster/meta_readindex_coalesce.go and shard_readindex_coalesce.go, and the read path of
    src/shard/store.go).

    Readers of a store share round trips to a quorum: while a flight is on, those who arrive
    form the batch of the next one. A reader must not get the result of a flight that was
    called before it arrived. The readers, the flights and the commits of other clients
    interleave: code under the mutex is one step, and so is the call of the barrier, its return, and
    each wake-up. *)
From S2P Require Import Prelude.
From stdpp Require Import gmap.
#[local] Open Scope Z_scope.

Module ReadIndex.

Section Coalescer.
(** What a flight returns, what a reader returns whose wait ran out, and whether a result
    reflects everything committed up to an index. *)
Context {A : Type} (timedOut : A) (covers : A -> nat -> bool).

(** The barrier body is the same for every reader of a store. *)
Record batch := MkBatch { done : option A; budget : Z }.

(** Where a caller of [do] is: blocked on the result of a batch, or leading a flight: before
    the call of the barrier, in it (with the commit index at the call), or at
    the head of the drain loop. A leader keeps the result of its own batch. *)
Inductive phase :=
| Waiting (b : nat)
| Leading (b : nat) (own : option A)
| Flying (b : nat) (own : option A) (at_ : nat)
| Draining (own : A)
| Returned (a : A).

Record reader := MkReader { arrival : nat; deadline : Z; ph : phase }.
Definition setPh (p : phase) (r : reader) : reader := MkReader (arrival r) (deadline r) p.

(** The coalescer, its batches and callers, the index of the last commit and the time;
    and the calls of the barrier with the deadline they were given. *)
Record sys := MkSys {
  running : bool;
  pending : option nat;
  batches : list batch;
  readers : list reader;
  committed : nat;
  now : Z;
  calls : list (nat * Z);
}.

Definition start (c : nat) (t : Z) : sys := MkSys false None [] [] c t [].

Definition withBatches (l : list batch) (s : sys) : sys := MkSys (running s) (pending s) l (readers s) (committed s) (now s) (calls s).
Definition withReaders (l : list reader) (s : sys) : sys := MkSys (running s) (pending s) (batches s) l (committed s) (now s) (calls s).
Definition withSlot (r : bool) (p : option nat) (s : sys) : sys := MkSys r p (batches s) (readers s) (committed s) (now s) (calls s).
Definition withCalls (l : list (nat * Z)) (s : sys) : sys := MkSys (running s) (pending s) (batches s) (readers s) (committed s) (now s) l.

Definition move (i : nat) (p : phase) (s : sys) : sys := withReaders (alter (setPh p) i (readers s)) s.

(** The locked part of [do]: the caller joins the pending batch, or opens it; if no flight
    is on it detaches the batch and leads. *)
Definition do_ (dl : Z) (s : sys) : sys :=
  let (b, s) := match pending s with
                | Some b => (b, s)
                | None => (length (batches s), withSlot (running s) (Some (length (batches s))) (withBatches (batches s ++ [MkBatch None 0]) s))
                end in
  let s := withBatches (alter (fun x => if budget x <? dl then MkBatch (done x) dl else x) b (batches s)) s in
  if running s then withReaders (readers s ++ [MkReader (committed s) dl (Waiting b)]) s
  else withReaders (readers s ++ [MkReader (committed s) dl (Leading b None)]) (withSlot true None s).

(** [runBatch]: the call of the barrier, with the budget of the batch, *)
Definition call (i : nat) (s : sys) : option sys :=
  match readers s !! i with
  | Some (MkReader _ _ (Leading b own)) =>
      match batches s !! b with
      | Some x => Some (withCalls (calls s ++ [(b, budget x)]) (move i (Flying b own (committed s)) s))
      | None => None
      end
  | _ => None
  end.

(** and its return, which publishes the result. *)
Definition publish (i : nat) (a : A) (s : sys) : option sys :=
  match readers s !! i with
  | Some (MkReader _ _ (Flying b own c)) =>
      if covers a c then Some (move i (Draining (default a own)) (withBatches (alter (fun x => MkBatch (Some a) (budget x)) b (batches s)) s)) else None
  | _ => None
  end.

(** One turn of the loop of [drain]. *)
Definition drain (i : nat) (s : sys) : option sys :=
  match readers s !! i with
  | Some (MkReader _ _ (Draining own)) =>
      match pending s with
      | None => Some (move i (Returned own) (withSlot false None s))
      | Some b => Some (move i (Leading b (Some own)) (withSlot (running s) None s))
      end
  | _ => None
  end.

(** [wait]: the result is there, or the deadline has passed. *)
Definition wake (i : nat) (s : sys) : option sys :=
  match readers s !! i with
  | Some (MkReader _ _ (Waiting b)) => match batches s !! b with Some (MkBatch (Some a) _) => Some (move i (Returned a) s) | _ => None end
  | _ => None
  end.

Definition expire (i : nat) (s : sys) : option sys :=
  match readers s !! i with
  | Some (MkReader _ dl (Waiting _)) => if dl <=? now s then Some (move i (Returned timedOut) s) else None
  | _ => None
  end.

Inductive event := Arrive (dl : Z) | Call (i : nat) | Publish (i : nat) (a : A) | Drain (i : nat) | Wake (i : nat) | Expire (i : nat) | Commit | Tick (n : nat).

Definition step (e : event) (s : sys) : option sys :=
  match e with
  | Arrive dl => Some (do_ dl s)
  | Call i => call i s
  | Publish i a => publish i a s
  | Drain i => drain i s
  | Wake i => wake i s
  | Expire i => expire i s
  | Commit => Some (MkSys (running s) (pending s) (batches s) (readers s) (S (committed s)) (now s) (calls s))
  | Tick n => Some (MkSys (running s) (pending s) (batches s) (readers s) (committed s) (now s + Z.of_nat n) (calls s))
  end.

Fixpoint run (es : list event) (s : sys) : option sys :=
  match es with
  | [] => Some s
  | e :: es => match step e s with Some s' => run es s' | None => None end
  end.

Inductive reach : sys -> Prop :=
| reach_start c t : reach (start c t)
| reach_step s e s' : reach s -> step e s = Some s' -> reach s'.

End Coalescer.

Arguments event : clear implicits.
Arguments sys : clear implicits.
Arguments phase : clear implicits.
Arguments reader : clear implicits.
Arguments batch : clear implicits.

(** ** A coalescer per shard (shardFrontierCoalescer) *)

Section Keyed.
Context {A : Type} (timedOut : A) (covers : A -> nat -> bool) (c0 : nat) (t0 : Z).

Definition flightFor (idx : Z) (m : gmap Z (sys A)) : sys A := default (start c0 t0) (m !! idx).

Definition stepFor (idx : Z) (e : event A) (m : gmap Z (sys A)) : option (gmap Z (sys A)) :=
  match step timedOut covers e (flightFor idx m) with Some s => Some (<[idx := s]> m) | None => None end.

Inductive reachFor : gmap Z (sys A) -> Prop :=
| reachFor_start : reachFor ∅
| reachFor_step m idx e m' : reachFor m -> stepFor idx e m = Some m' -> reachFor m'.

End Keyed.

(** ** The read path of a store *)

Inductive readErr := NotLeaderError | ErrLinearizableTimeout | ErrRaft.

(** What the calls of raft answer. *)
Inductive raftAns := RaftOk | RaftNotLeader | RaftFailed.

(** [timeout] is what is left of the deadline when the commit index has been compared. *)
Definition verifyLeaderAndCatchUpBody (verify : raftAns) (ci applied timeout : Z) (barrier : raftAns) : outcome readErr unit :=
  match verify with
  | RaftNotLeader => Err NotLeaderError
  | RaftFailed => Err ErrRaft
  | RaftOk =>
      if ci <=? applied then Ok tt
      else if timeout <=? 0 then Err ErrLinearizableTimeout
      else match barrier with RaftOk => Ok tt | RaftNotLeader => Err NotLeaderError | RaftFailed => Err ErrLinearizableTimeout end
  end.

(** [catchUp] is the coalesced barrier, [frontierFn] the answer of the leader, if the store
    can ask it. *)
Definition serveBoundedStaleness (isLeader : bool) (ci applied bound : Z) (frontierFn : option (option Z)) (catchUp : outcome readErr unit) : outcome readErr unit :=
  if isLeader then
    let lag := if applied <? ci then u64 (ci - applied) else 0 in
    if lag <=? bound then Ok tt else catchUp
  else
    match frontierFn with
    | None => catchUp
    | Some None => Err NotLeaderError
    | Some (Some frontier) =>
        if (frontier <=? applied) || (u64 (applied + bound) <? applied) || (frontier <=? u64 (applied + bound)) then Ok tt else Err NotLeaderError
    end.

End ReadIndex.
