(* ===== verification/ReadIndexProps.v ===== *)
(** * What a coalesced read barrier promises. *)
From S2P Require Import Prelude ReadIndex.
From stdpp Require Import gmap.
Import ReadIndex.
#[local] Open Scope Z_scope.

Section Coalescer.
Context {A : Type} (timedOut : A) (covers : A -> nat -> bool).
(** A result that covers an index covers the ones before it; a refusal covers anything. *)
Context (Hmono : forall a m n, covers a n = true -> (m <= n)%nat -> covers a m = true) (Htimed : forall n, covers timedOut n = true).
#[local] Abbreviation sys := (sys A).
#[local] Abbreviation step := (step timedOut covers).
#[local] Abbreviation reach := (reach timedOut covers).

Definition leads (p : phase A) : bool := match p with Leading _ _ | Flying _ _ _ | Draining _ => true | _ => false end.

(** The batch a leader works on. *)
Definition flight (p : phase A) : option nat := match p with Leading b _ | Flying b _ _ => Some b | _ => None end.

(** [n] is covered by what has been returned so far. *)
Definition ownOk (own : option A) (n : nat) : Prop := forall a, own = Some a -> covers a n = true.

Definition readerOk (s : sys) (r : reader A) : Prop :=
  (arrival r <= committed s)%nat /\
  match ph r with
  | Waiting b => exists x, batches s !! b = Some x /\ deadline r <= budget x /\ ownOk (done x) (arrival r) /\
      forall j r' own c, readers s !! j = Some r' -> ph r' = Flying b own c -> (arrival r <= c)%nat
  | Leading b own => ownOk own (arrival r)
  | Flying b own c => ownOk own (arrival r) /\ (c <= committed s)%nat /\ (own = None -> (arrival r <= c)%nat)
  | Draining a | Returned a => covers a (arrival r) = true
  end.

Record inv (s : sys) : Prop := {
  in_readers i r : readers s !! i = Some r -> readerOk s r;
  (** A flight has one leader, and a batch is pending only while a flight is on. *)
  in_one i j r r' : readers s !! i = Some r -> readers s !! j = Some r' -> leads (ph r) = true -> leads (ph r') = true -> i = j;
  in_running : running s = true <-> exists i r, readers s !! i = Some r /\ leads (ph r) = true;
  in_pending b : pending s = Some b -> running s = true /\ exists x, batches s !! b = Some x /\ done x = None;
  (** The batch of a flight is not done and not pending, and every other batch is one of the three. *)
  in_flight i r b : readers s !! i = Some r -> flight (ph r) = Some b -> pending s <> Some b /\ exists x, batches s !! b = Some x /\ done x = None;
  in_open b x : batches s !! b = Some x -> done x = None -> pending s = Some b \/ exists i r, readers s !! i = Some r /\ flight (ph r) = Some b;
  (** The barrier is called once for a batch, with the budget of the batch. *)
  in_calls b t : (b, t) ∈ calls s -> pending s <> Some b /\ (exists x, batches s !! b = Some x /\ budget x = t) /\
    forall i r own, readers s !! i = Some r -> ph r <> Leading b own;
  in_once : NoDup (calls s).*1;
}.

Lemma start_inv c t : inv (start c t).
Proof. split; cbn; try done; try (intros; by rewrite ?lookup_nil in *); [|by intros ? ? ?%elem_of_nil|constructor]. split; [done|by intros (i & r & ? & _)]. Qed.

Lemma moved (s : sys) i p j r : readers (move i p s) !! j = Some r ->
  (j = i /\ exists r0, readers s !! i = Some r0 /\ r = setPh p r0) \/ (j <> i /\ readers s !! j = Some r).
Proof.
  unfold move. cbn. destruct (decide (j = i)) as [->|Hne]; [rewrite list_lookup_alter_eq; left|rewrite list_lookup_alter_ne by done; by right].
  split; [done|]. destruct (readers s !! i) as [r0|]; [|done]. cbn in *. exists r0. split; [done|congruence].
Qed.

Lemma move_at (s : sys) i p r : readers s !! i = Some r -> readers (move i p s) !! i = Some (setPh p r).
Proof. intros Hr. unfold move. cbn. by rewrite list_lookup_alter_eq, Hr. Qed.

Lemma move_else (s : sys) i p j : j <> i -> readers (move i p s) !! j = readers s !! j.
Proof. intros Hne. unfold move. cbn. by rewrite list_lookup_alter_ne. Qed.

(** A waiting reader returns. *)
Lemma settle_inv s i r b a : inv s -> readers s !! i = Some r -> ph r = Waiting b -> covers a (arrival r) = true -> inv (move i (Returned a) s).
Proof.
  intros Hs Hr Hb Ha. assert (forall j r', readers (move i (Returned a) s) !! j = Some r' -> leads (ph r') = true \/ flight (ph r') <> None \/ (exists b own, ph r' = Leading b own) -> readers s !! j = Some r') as Hl.
  { intros j r' [(-> & r0 & Hr0 & ->)|[_ ?]]%moved; [|done]. cbn. intros [?|[?|(? & ? & ?)]]; done. }
  assert (forall j r', readers s !! j = Some r' -> (leads (ph r') = true \/ flight (ph r') <> None) -> readers (move i (Returned a) s) !! j = Some r') as Hl'.
  { intros j r' Hj Hq. rewrite move_else; [done|]. intros ->. rewrite Hr in Hj. injection Hj as <-. rewrite Hb in Hq. by destruct Hq. }
  destruct Hs as [H1 H2 H3 H4 H5 H6 H7 H8]. split; try done.
  - intros j r' Hj. destruct (moved _ _ _ _ _ Hj) as [(-> & r0 & Hr0 & ->)|[Hne Hj']].
    + rewrite Hr in Hr0. injection Hr0 as <-. split; [apply (H1 _ _ Hr)|done].
    + destruct (H1 _ _ Hj') as [Hc Hp]. split; [done|]. destruct (ph r') eqn:Ep; try done. destruct Hp as (x & Hx & Hd & Ho & Hf). exists x. split_and!; try done.
      intros j0 r0 own c Hj0 Hp0. apply (Hf j0 r0 own c); [|done]. apply Hl; [done|]. left. by rewrite Hp0.
  - intros j k r1 r2 H11 H12 Hl1 Hl2. apply (H2 j k r1 r2); auto.
  - etransitivity; [exact H3|]. split; intros (j & r' & Hj & Hle); exists j, r'; auto.
  - intros j r' b' Hj Hf. apply (H5 j r' b'); [|done]. apply Hl; [done|]. right. left. congruence.
  - intros b' x Hx Hd. destruct (H6 b' x Hx Hd) as [?|(j & r' & Hj & Hf)]; [by left|]. right. exists j, r'. split; [|done]. apply Hl'; [done|]. right. congruence.
  - intros b' t Hin. destruct (H7 b' t Hin) as (Hp & Hx & Hn). split_and!; try done. intros j r' own Hj Hp'. apply (Hn j r' own); [|done]. apply Hl; [done|]. right. right. eauto.
Qed.

Lemma committed_inv s n t : inv s -> (committed s <= n)%nat -> inv (MkSys (running s) (pending s) (batches s) (readers s) n t (calls s)).
Proof.
  intros [H1 H2 H3 H4 H5 H6 H7 H8] Hn. split; try done. intros i r Hr. destruct (H1 i r Hr) as [Ha Hp]. split; [cbn; lia|]. destruct (ph r); try done. destruct Hp as (? & ? & ?). split_and!; try done. cbn. lia.
Qed.

(** A leader moves on within its flight. *)
Lemma call_inv s i s' : inv s -> call i s = Some s' -> inv s'.
Proof.
  intros Hs. unfold call. destruct (readers s !! i) as [[ar dl [|b own| | |]]|] eqn:Hr; try done. destruct (batches s !! b) as [x|] eqn:Hb; [|done]. intros [= <-].
  set (p := Flying b own (committed s)). destruct Hs as [H1 H2 H3 H4 H5 H6 H7 H8].
  assert (forall j r', readers (move i p s) !! j = Some r' -> exists r0, readers s !! j = Some r0 /\ leads (ph r') = leads (ph r0) /\ flight (ph r') = flight (ph r0) /\ (ph r' = ph r0 \/ (j = i /\ r' = MkReader ar dl p))) as Hold.
  { intros j r' [(-> & r0 & Hr0 & ->)|[Hne Hj]]%moved; [|exists r'; auto]. rewrite Hr in Hr0. injection Hr0 as <-. eexists. split; [exact Hr|]. split_and!; try done. by right. }
  assert (forall j r0, readers s !! j = Some r0 -> exists r', readers (move i p s) !! j = Some r' /\ leads (ph r') = leads (ph r0) /\ flight (ph r') = flight (ph r0)) as Hnew.
  { intros j r0 Hj. destruct (decide (j = i)) as [->|Hne]; [rewrite (move_at _ _ _ _ Hj)|rewrite move_else by done; eauto]. rewrite Hr in Hj. injection Hj as <-. eauto. }
  split; cbn [withCalls running pending batches calls committed now]; try done.
  - intros j r' Hj. destruct (moved _ _ _ _ _ Hj) as [(-> & r0 & Hr0 & ->)|[Hne Hj']].
    + rewrite Hr in Hr0. injection Hr0 as <-. destruct (H1 _ _ Hr) as [Ha Ho]. cbn in Ha, Ho. split; [done|]. cbn. split_and!; done.
    + destruct (H1 _ _ Hj') as [Hc Hp]. split; [done|]. destruct (ph r') eqn:Ep; try done. destruct Hp as (y & Hy & Hd & Ho & Hf). exists y. split_and!; try done.
      intros j0 r0 own' c Hj0 Hp0. destruct (moved _ _ _ _ _ Hj0) as [(-> & r1 & Hr1 & ->)|[_ Hj0']]; [|by apply (Hf j0 r0 own' c)]. cbn in Hp0. injection Hp0 as <- <- <-. done.
  - intros j k r1 r2 Hj Hk Hl1 Hl2. destruct (Hold _ _ Hj) as (r3 & H3' & E3 & _), (Hold _ _ Hk) as (r4 & H4' & E4 & _). apply (H2 j k r3 r4); congruence.
  - etransitivity; [exact H3|]. split; intros (j & r' & Hj & Hle); [destruct (Hnew _ _ Hj) as (r0 & ? & E & _)|destruct (Hold _ _ Hj) as (r0 & ? & E & _)]; exists j, r0; (split; [done|congruence]).
  - intros j r' b' Hj Hf. destruct (Hold _ _ Hj) as (r0 & Hr0 & _ & E & _). apply (H5 j r0 b'); congruence.
  - intros b' y Hy Hd. destruct (H6 b' y Hy Hd) as [?|(j & r' & Hj & Hf)]; [by left|]. right. destruct (Hnew _ _ Hj) as (r0 & ? & _ & E). exists j, r0. split; [done|congruence].
  - intros b' t [Hin|[= -> ->]%list_elem_of_singleton]%elem_of_app.
    + destruct (H7 b' t Hin) as (Hp & Hx & Hn). split_and!; try done. intros j r' own' Hj Hp'. destruct (Hold _ _ Hj) as (r0 & Hr0 & _ & _ & [E|[_ ->]]); [|done]. apply (Hn j r0 own' Hr0). congruence.
    + split; [by apply (H5 i _ b Hr)|]. split; [by exists x|]. intros j r' own' Hj Hp'. destruct (Hold _ _ Hj) as (r0 & Hr0 & _ & _ & [E|[_ ->]]); [|done].
      assert (j = i) as -> by (apply (H2 j i r0 _ Hr0 Hr); [by rewrite <- E, Hp'|done]). by destruct (moved _ _ _ _ _ Hj) as [(_ & r1 & _ & ->)|[? _]].
  - rewrite fmap_app. apply NoDup_app. split; [done|]. split; [|apply NoDup_singleton]. intros b' ([b2 t] & -> & Hin)%list_elem_of_fmap Heq. cbn in Heq. apply list_elem_of_singleton in Heq as ->.
    destruct (H7 b t Hin) as (_ & _ & Hn). by apply (Hn i _ own Hr).
Qed.

(** While [i] leads, no other reader does. *)
Lemma leader_only s i r j r' : inv s -> readers s !! i = Some r -> leads (ph r) = true -> readers s !! j = Some r' -> j <> i -> leads (ph r') = false /\ flight (ph r') = None /\ forall b own, ph r' <> Leading b own.
Proof.
  intros Hs Hr Hl Hj Hne. assert (leads (ph r') = false) as E by (destruct (leads (ph r')) eqn:E; [by destruct Hne; apply (in_one s Hs j i r' r)|done]). split; [done|]. by destruct (ph r').
Qed.

Lemma alter_batch (l : list (batch A)) f b b' x : alter f b l !! b' = Some x -> (b' = b /\ exists x0, l !! b = Some x0 /\ x = f x0) \/ (b' <> b /\ l !! b' = Some x).
Proof.
  destruct (decide (b' = b)) as [->|Hne]; [rewrite list_lookup_alter_eq; left|rewrite list_lookup_alter_ne by done; by right]. split; [done|]. destruct (l !! b) as [x0|]; [|done]. cbn in *. exists x0. split; [done|congruence].
Qed.

Lemma publish_inv s i a s' : inv s -> publish covers i a s = Some s' -> inv s'.
Proof.
  intros Hs. unfold publish. destruct (readers s !! i) as [[ar dl [| |b own c| |]]|] eqn:Hr; try done. destruct (covers a c) eqn:Hcov; [|done]. intros [= <-].
  set (mark := fun x : batch A => MkBatch (Some a) (budget x)). pose proof (fun j r' Hj Hne => leader_only s i _ j r' Hs Hr eq_refl Hj Hne) as Honly.
  destruct Hs as [H1 H2 H3 H4 H5 H6 H7 H8]. destruct (H5 i _ b Hr eq_refl) as (Hpb & x & Hx & Hxd). destruct (H1 _ _ Hr) as [Har (Hown & Hcc & Hnone)]. cbn in Har, Hown, Hnone.
  set (s1 := withBatches (alter mark b (batches s)) s). change (readers s) with (readers s1) in Hr.
  split; cbn [move withReaders withBatches running pending batches calls committed now s1].
  - intros j r' [(-> & r0 & Hr0 & ->)|[Hne Hj]]%moved.
    + rewrite Hr in Hr0. injection Hr0 as <-. split; [done|]. cbn. destruct own as [o|]; [by apply Hown|]. apply (Hmono _ _ c Hcov). by apply Hnone.
    + destruct (H1 _ _ Hj) as [Hc Hp]. split; [done|]. destruct (ph r') as [b'|b' own'|b' own' c'|a'|a'] eqn:Ep; try done. destruct Hp as (y & Hy & Hd & Ho & Hf). cbn [batches move withReaders withBatches s1].
      destruct (decide (b' = b)) as [->|Hb].
      * exists (mark y). rewrite list_lookup_alter_eq, Hy. split_and!; try done; [intros a' [= <-]; apply (Hmono _ _ c Hcov), (Hf i _ own c Hr eq_refl)|].
        intros j0 r0 own' c' [(-> & r1 & _ & ->)|[Hne0 Hj0]]%moved Hp0; [done|]. by apply (Hf j0 r0 own' c').
      * exists y. rewrite list_lookup_alter_ne by done. split_and!; try done. intros j0 r0 own' c' [(-> & r1 & _ & ->)|[Hne0 Hj0]]%moved Hp0; [done|]. by apply (Hf j0 r0 own' c').
  - intros j k r1 r2 [(-> & r3 & _ & ->)|[Hnj Hj]]%moved [(-> & r4 & _ & ->)|[Hnk Hk]]%moved Hl1 Hl2; try done; [by rewrite (proj1 (Honly _ _ Hk Hnk)) in Hl2|by rewrite (proj1 (Honly _ _ Hj Hnj)) in Hl1|].
    by apply (H2 j k r1 r2).
  - split; [|intros _; apply H3; eauto]. intros _. eexists i, _. split; [by apply move_at|done].
  - intros b' Hp. destruct (H4 b' Hp) as (Hrun & y & Hy & Hd). split; [done|]. exists y. rewrite list_lookup_alter_ne by congruence. done.
  - intros j r' b' [(-> & r3 & _ & ->)|[Hnj Hj]]%moved Hf; [done|]. by rewrite (proj1 (proj2 (Honly _ _ Hj Hnj))) in Hf.
  - intros b' y [(-> & y0 & _ & ->)|[Hne Hy]]%alter_batch Hd; [done|]. destruct (H6 b' y Hy Hd) as [?|(j & r' & Hj & Hf)]; [by left|]. right. exists j, r'. split; [|done].
    rewrite move_else; [done|]. intros ->. change (readers s) with (readers s1) in Hj. rewrite Hr in Hj. injection Hj as <-. cbn in Hf. congruence.
  - intros b' t Hin. destruct (H7 b' t Hin) as (Hp & (y & Hy & Ht) & Hn). split; [done|]. split.
    + destruct (decide (b' = b)) as [->|Hb]; [exists (mark y); by rewrite list_lookup_alter_eq, Hy|exists y; by rewrite list_lookup_alter_ne].
    + intros j r' own' [(-> & r3 & _ & ->)|[Hnj Hj]]%moved; [done|]. by apply (Hn j r' own').
  - done.
Qed.

Lemma drain_inv s i s' : inv s -> drain i s = Some s' -> inv s'.
Proof.
  intros Hs. unfold drain. destruct (readers s !! i) as [[ar dl [| | |own|]]|] eqn:Hr; try done. pose proof (fun j r' Hj Hne => leader_only s i _ j r' Hs Hr eq_refl Hj Hne) as Honly.
  destruct Hs as [H1 H2 H3 H4 H5 H6 H7 H8]. destruct (H1 _ _ Hr) as [Har Hown]. cbn in Har, Hown.
  assert (forall sl p j r', j <> i -> readers s !! j = Some r' -> (forall b own c, p <> Flying b own c) -> readerOk (move i p (withSlot sl None s)) r') as Hothers.
  { intros sl p j r' Hne Hj Hp. destruct (H1 _ _ Hj) as [Hc Hp']. split; [done|]. destruct (ph r') as [b'|b' own'|b' own' c'|a'|a'] eqn:Ep; try done. destruct Hp' as (y & Hy & Hd & Ho & Hf).
    exists y. split_and!; try done. intros j0 r0 own' c' [(-> & r1 & _ & ->)|[Hne0 Hj0]]%moved Hp0; [by destruct (Hp _ _ _ Hp0)|]. by apply (Hf j0 r0 own' c'). }
  destruct (pending s) as [b|] eqn:Hpb; intros [= <-].
  - destruct (H4 b eq_refl) as (Hrun & x & Hx & Hxd). rewrite Hrun. split; cbn [move withReaders withSlot running pending batches calls committed now].
    + intros j r' [(-> & r0 & Hr0 & ->)|[Hne Hj]]%moved; [|by apply (Hothers _ _ j)]. cbn in Hr0. rewrite Hr in Hr0. injection Hr0 as <-. split; [done|]. cbn. by intros a [= <-].
    + intros j k r1 r2 [(-> & r3 & _ & ->)|[Hnj Hj]]%moved [(-> & r4 & _ & ->)|[Hnk Hk]]%moved Hl1 Hl2; try done; [by rewrite (proj1 (Honly _ _ Hk Hnk)) in Hl2|by rewrite (proj1 (Honly _ _ Hj Hnj)) in Hl1|].
      by apply (H2 j k r1 r2).
    + split; [|done]. intros _. eexists i, _. split; [by apply move_at|done].
    + done.
    + intros j r' b' [(-> & r3 & _ & ->)|[Hnj Hj]]%moved Hf; [|by rewrite (proj1 (proj2 (Honly _ _ Hj Hnj))) in Hf]. cbn in Hf. injection Hf as <-. split; [done|]. by exists x.
    + intros b' y Hy Hd. right. destruct (H6 b' y Hy Hd) as [[= <-]|(j & r' & Hj & Hf)]; [eexists i, _; split; [by apply move_at|done]|]. exists j, r'. split; [|done].
      rewrite move_else; [done|]. intros ->. rewrite Hr in Hj. injection Hj as <-. done.
    + intros b' t Hin. destruct (H7 b' t Hin) as (Hp & Hy & Hn). split; [done|]. split; [done|]. intros j r' own' [(-> & r3 & _ & ->)|[Hnj Hj]]%moved; [|by apply (Hn j r' own')]. cbn. congruence.
    + done.
  - split; cbn [move withReaders withSlot running pending batches calls committed now].
    + intros j r' [(-> & r0 & Hr0 & ->)|[Hne Hj]]%moved; [|by apply (Hothers _ _ j)]. cbn in Hr0. rewrite Hr in Hr0. injection Hr0 as <-. done.
    + intros j k r1 r2 [(-> & r3 & _ & ->)|[Hnj Hj]]%moved [(-> & r4 & _ & ->)|[Hnk Hk]]%moved Hl1 Hl2; try done. by apply (H2 j k r1 r2).
    + split; [done|]. intros (j & r' & [(-> & r3 & _ & ->)|[Hnj Hj]]%moved & Hl); [done|]. by rewrite (proj1 (Honly _ _ Hj Hnj)) in Hl.
    + done.
    + intros j r' b' [(-> & r3 & _ & ->)|[Hnj Hj]]%moved Hf; [done|]. by rewrite (proj1 (proj2 (Honly _ _ Hj Hnj))) in Hf.
    + intros b' y Hy Hd. right. destruct (H6 b' y Hy Hd) as [?|(j & r' & Hj & Hf)]; [done|]. exists j, r'. split; [|done]. rewrite move_else; [done|]. intros ->. rewrite Hr in Hj. by injection Hj as <-.
    + intros b' t Hin. destruct (H7 b' t Hin) as (Hp & Hy & Hn). split; [done|]. split; [done|]. intros j r' own' [(-> & r3 & _ & ->)|[Hnj Hj]]%moved; [done|]. by apply (Hn j r' own').
    + done.
Qed.

Definition raise_ (dl : Z) (x : batch A) : batch A := if budget x <? dl then MkBatch (done x) dl else x.

Lemma raise_spec dl x : done (raise_ dl x) = done x /\ dl <= budget (raise_ dl x) /\ budget x <= budget (raise_ dl x).
Proof. unfold raise_. destruct (Z.ltb_spec (budget x) dl); cbn; (split; [done|lia]). Qed.

Definition newcomer (s : sys) (dl : Z) (p : phase A) : reader A := MkReader (committed s) dl p.

(** The three ways to arrive: into the pending batch, into a new one while a flight is on,
    or as the leader of a flight. *)
Lemma do_cases dl s : inv s ->
  (exists b, pending s = Some b /\ running s = true /\
     do_ dl s = MkSys true (Some b) (alter (raise_ dl) b (batches s)) (readers s ++ [newcomer s dl (Waiting b)]) (committed s) (now s) (calls s)) \/
  (pending s = None /\ running s = true /\
     do_ dl s = MkSys true (Some (length (batches s))) (batches s ++ [raise_ dl (MkBatch None 0)]) (readers s ++ [newcomer s dl (Waiting (length (batches s)))]) (committed s) (now s) (calls s)) \/
  (pending s = None /\ running s = false /\
     do_ dl s = MkSys true None (batches s ++ [raise_ dl (MkBatch None 0)]) (readers s ++ [newcomer s dl (Leading (length (batches s)) None)]) (committed s) (now s) (calls s)).
Proof.
  intros Hs. unfold do_. destruct (pending s) as [b|] eqn:Hp.
  - left. exists b. destruct (in_pending s Hs b Hp) as [Hr _]. cbn. unfold withBatches, withReaders, newcomer. cbn. by rewrite Hr, Hp.
  - assert (forall f x, alter f (length (batches s)) (batches s ++ [x]) = batches s ++ [f x]) as Ha by (intros f x; induction (batches s) as [|y l IH]; cbn; [done|by f_equal]).
    right. cbn. destruct (running s) eqn:Hr; [left|right]; (split; [done|]; split; [done|]); unfold withBatches, withReaders, withSlot, newcomer; cbn; rewrite ?Hr, Ha; done.
Qed.

Lemma snoc_lookup {X} (l : list X) x i y : (l ++ [x]) !! i = Some y <-> l !! i = Some y \/ (i = length l /\ y = x).
Proof.
  destruct (decide (i < length l)%nat) as [Hi|Hi]; [rewrite lookup_app_l by done|rewrite lookup_app_r, (proj2 (lookup_ge_None l i)) by lia].
  - split; [by left|]. intros [?|[-> _]]; [done|lia].
  - destruct (decide (i = length l)) as [->|Hne]; [rewrite Nat.sub_diag; cbn; split; [intros [= ->]; by right|intros [?|[_ ->]]; done]|].
    rewrite (proj2 (lookup_ge_None [x] _)) by (cbn; lia). split; [done|]. intros [?|[? _]]; [done|lia].
Qed.

Lemma fresh_batch s : inv s -> (forall b x, batches s !! b = Some x -> b <> length (batches s)) /\ (forall b t, (b, t) ∈ calls s -> b <> length (batches s)) /\
  forall i r b, readers s !! i = Some r -> (flight (ph r) = Some b \/ ph r = Waiting b) -> b <> length (batches s).
Proof.
  intros Hs. assert (forall b x, batches s !! b = Some x -> b <> length (batches s)) as Hb by (intros b x Hx; apply lookup_lt_Some in Hx; lia). split; [done|]. split.
  - intros b t Hin. destruct (in_calls s Hs b t Hin) as (_ & (x & Hx & _) & _). by eapply Hb.
  - intros i r b Hr [Hf|Hw]; [destruct (in_flight s Hs i r b Hr Hf) as (_ & x & Hx & _); by eapply Hb|]. destruct (in_readers s Hs i r Hr) as [_ Hp]. rewrite Hw in Hp. destruct Hp as (x & Hx & _). by eapply Hb.
Qed.

(** The readers that were there stay in order when batches gain members. *)
Lemma readers_stay s r bs rs pe sl : readerOk s r ->
  (forall b x, batches s !! b = Some x -> exists x', bs !! b = Some x' /\ done x' = done x /\ budget x <= budget x') ->
  (forall j r' b own c, rs !! j = Some r' -> ph r' = Flying b own c -> readers s !! j = Some r') ->
  readerOk (MkSys sl pe bs rs (committed s) (now s) (calls s)) r.
Proof.
  intros [Ha Hp] Hb Hr. split; [done|]. destruct (ph r) as [b| | | |]; try done. destruct Hp as (x & Hx & Hd & Ho & Hf). destruct (Hb b x Hx) as (x' & Hx' & E & Hle). exists x'. cbn.
  split_and!; [done|lia|by rewrite E|]. intros j r' own c Hj Hp'. apply (Hf j r' own c); [|done]. by eapply Hr.
Qed.

(** A follower arrives: into batch [b], that is or becomes the pending one. *)
Lemma follow_inv s dl b bs : inv s -> running s = true -> (forall b', b' <> b -> bs !! b' = batches s !! b') -> (pending s = Some b \/ (pending s = None /\ b = length (batches s))) ->
  (exists x, bs !! b = Some x /\ done x = None /\ dl <= budget x /\ forall x0, batches s !! b = Some x0 -> done x0 = None /\ budget x0 <= budget x) ->
  inv (MkSys true (Some b) bs (readers s ++ [newcomer s dl (Waiting b)]) (committed s) (now s) (calls s)).
Proof.
  intros Hs Hrun Hbs Hb (x & Hx & Hxd & Hxl & Hx0). destruct (fresh_batch s Hs) as (_ & Hf2 & Hf3).
  assert (forall i r, readers s !! i = Some r -> flight (ph r) <> Some b) as Hnf by (intros i r Hr Hf; destruct Hb as [Hp|[_ ->]]; [by destruct (in_flight s Hs i r b Hr Hf)|by apply (Hf3 i r _ Hr (or_introl Hf))]).
  assert (forall i r, (readers s ++ [newcomer s dl (Waiting b)]) !! i = Some r -> leads (ph r) = true -> readers s !! i = Some r) as Hl by (intros i r [?|[_ ->]]%snoc_lookup ?; done).
  pose proof Hs as [H1 H2 H3 H4 H5 H6 H7 H8]. split; cbn.
  - intros i r [Hr|[-> ->]]%snoc_lookup.
    + eapply readers_stay; [by apply (H1 i)| |intros j r' b' own c [?|[_ ->]]%snoc_lookup ?; done]. intros b' y Hy. destruct (decide (b' = b)) as [->|Hne]; [|exists y; rewrite Hbs; done].
      exists x. destruct (Hx0 y Hy). split_and!; [done|congruence|done].
    + split; [done|]. exists x. split_and!; try done; [by intros a; rewrite Hxd|]. intros j r' own c [Hj|[_ ->]]%snoc_lookup Hp; [|done]. destruct (Hnf j r' Hj). by rewrite Hp.
  - intros i j r r' Hi Hj Hl1 Hl2. by apply (H2 i j r r'); auto.
  - split; [|done]. intros _. destruct (proj1 H3 Hrun) as (i & r & Hi & Hle). exists i, r. split; [apply snoc_lookup; by left|done].
  - intros b' [= <-]. split; [done|]. by exists x.
  - intros i r b' [Hi|[_ ->]]%snoc_lookup Hf; [|done]. assert (b' <> b) as Hne by (intros ->; by apply (Hnf i r)). split; [congruence|]. rewrite Hbs by done. by apply (H5 i r b').
  - intros b' y Hy Hd. destruct (decide (b' = b)) as [->|Hne]; [by left|]. right. rewrite Hbs in Hy by done. destruct (H6 b' y Hy Hd) as [Hp|(i & r & Hi & Hf)]; [destruct Hb as [?|[? _]]; congruence|].
    exists i, r. split; [apply snoc_lookup; by left|done].
  - intros b' t Hin. destruct (H7 b' t Hin) as (Hp & Hy & Hn). assert (b' <> b) as Hne by (destruct Hb as [Hb|[_ ->]]; [congruence|by eapply Hf2]). split; [congruence|]. rewrite Hbs by done. split; [done|].
    intros i r own [Hi|[_ ->]]%snoc_lookup; [by apply (Hn i r own)|done].
  - done.
Qed.

(** A leader arrives. *)
Lemma lead_inv s dl x : inv s -> running s = false -> pending s = None -> done x = None ->
  inv (MkSys true None (batches s ++ [x]) (readers s ++ [newcomer s dl (Leading (length (batches s)) None)]) (committed s) (now s) (calls s)).
Proof.
  intros Hs Hrun Hp Hxd. destruct (fresh_batch s Hs) as (Hf1 & Hf2 & Hf3).
  assert (forall i r, readers s !! i = Some r -> leads (ph r) = false) as Hl by (intros i r Hr; destruct (leads (ph r)) eqn:E; [rewrite (proj2 (in_running s Hs)) in Hrun; eauto|done]).
  assert (forall p, leads p = false -> flight p = None) as Hlf by (by intros []).
  pose proof Hs as [H1 H2 H3 H4 H5 H6 H7 H8]. split; cbn.
  - intros i r [Hr|[-> ->]]%snoc_lookup; [|split; [done|]; by intros a].
    eapply readers_stay; [by apply (H1 i)|intros b y Hy; exists y; split; [apply snoc_lookup; by left|done]|intros j r' b own c [?|[_ ->]]%snoc_lookup ?; done].
  - intros i j r r' [Hi|[-> ->]]%snoc_lookup [Hj|[-> ->]]%snoc_lookup Hl1 Hl2; [by rewrite (Hl i r Hi) in Hl1|by rewrite (Hl i r Hi) in Hl1|by rewrite (Hl j r' Hj) in Hl2|done].
  - split; [|done]. intros _. eexists _, _. split; [apply snoc_lookup; by right|done].
  - done.
  - intros i r b [Hi|[_ ->]]%snoc_lookup Hf; [by rewrite (Hlf _ (Hl i r Hi)) in Hf|]. cbn in Hf. injection Hf as <-. split; [done|]. exists x. split; [apply snoc_lookup; by right|done].
  - intros b y [Hy|[-> ->]]%snoc_lookup Hd; right; [|eexists _, _; split; [apply snoc_lookup; by right|done]]. destruct (H6 b y Hy Hd) as [?|(i & r & Hi & Hf)]; [congruence|]. by rewrite (Hlf _ (Hl i r Hi)) in Hf.
  - intros b t Hin. destruct (H7 b t Hin) as (_ & (y & Hy & Ht) & Hn). split; [done|]. split; [exists y; split; [apply snoc_lookup; by left|done]|].
    intros i r own [Hi|[_ ->]]%snoc_lookup; [by apply (Hn i r own)|]. cbn. intros [= E]. by apply (Hf2 b t).
  - done.
Qed.

Lemma do_inv s dl : inv s -> inv (do_ dl s).
Proof.
  intros Hs. destruct (raise_spec dl (MkBatch None 0)) as (Hn1 & Hn2 & _). destruct (do_cases dl s Hs) as [(b & Hp & Hr & ->)|[(Hp & Hr & ->)|(Hp & Hr & ->)]].
  - destruct (in_pending s Hs b Hp) as (_ & x & Hx & Hd). destruct (raise_spec dl x) as (E1 & E2 & E3). apply follow_inv; [done|done|by intros b' Hne; rewrite list_lookup_alter_ne|by left|].
    exists (raise_ dl x). rewrite list_lookup_alter_eq, Hx. split_and!; [done|congruence|done|]. intros x0 [= <-]. done.
  - destruct (fresh_batch s Hs) as (Hf & _ & _). apply follow_inv; [done|done| |by right|].
    + intros b' Hne. destruct (decide (b' < length (batches s))%nat) as [?|?]; [by rewrite lookup_app_l|]. rewrite (proj2 (lookup_ge_None (batches s) b')) by lia. apply lookup_ge_None. rewrite length_app. cbn. lia.
    + exists (raise_ dl (MkBatch None 0)). split; [apply snoc_lookup; by right|]. split_and!; try done. intros x0 Hx0. by destruct (Hf _ _ Hx0).
  - by apply lead_inv.
Qed.

Lemma reach_inv s : reach s -> inv s.
Proof.
  induction 1 as [c t|s e s' _ IH He]; [apply start_inv|]. destruct e as [dl|i|i a|i|i|i| |n]; cbn in He.
  - injection He as <-. by apply do_inv.
  - by eapply call_inv.
  - by eapply publish_inv.
  - by eapply drain_inv.
  - unfold wake in He. destruct (readers s !! i) as [[ar dl [b| | | |]]|] eqn:Hr; try done. destruct (batches s !! b) as [[[a|] bu]|] eqn:Hb; try done. injection He as <-.
    apply (settle_inv s i _ b a IH Hr); [done|]. destruct (in_readers s IH i _ Hr) as [_ (x & Hx & _ & Ho & _)]. rewrite Hb in Hx. injection Hx as <-. by apply Ho.
  - unfold expire in He. destruct (readers s !! i) as [[ar dl [b| | | |]]|] eqn:Hr; try done. destruct (dl <=? now s); [|done]. injection He as <-. by apply (settle_inv s i _ b timedOut IH Hr).
  - injection He as <-. apply committed_inv; [done|lia].
  - injection He as <-. by apply committed_inv.
Qed.

(** C12. No reader is served the result of a barrier from before its arrival. Readers arrive,
    lead flights, wait, time out and return in any interleaving with each other and with the commits
    of others; whatever a reader returns covers every write committed when it arrived.
    There is one flight at a time, the barrier runs once for a batch, and it gets a
    budget that no waiting reader of the batch exceeds. *)
Theorem read_covers_arrival s : reach s ->
  (forall i r a, readers s !! i = Some r -> ph r = Returned a -> covers a (arrival r) = true) /\
  (forall i j r r', readers s !! i = Some r -> readers s !! j = Some r' -> leads (ph r) = true -> leads (ph r') = true -> i = j) /\
  NoDup (calls s).*1 /\
  (forall b t i r, (b, t) ∈ calls s -> readers s !! i = Some r -> ph r = Waiting b -> deadline r <= t).
Proof.
  intros Hs%reach_inv. split; [|split; [apply (in_one s Hs)|split; [apply (in_once s Hs)|]]].
  - intros i r a Hr Hp. destruct (in_readers s Hs i r Hr) as [_ H]. by rewrite Hp in H.
  - intros b t i r Hc Hr Hp. destruct (in_readers s Hs i r Hr) as [_ H]. rewrite Hp in H. destruct H as (x & Hx & Hd & _). destruct (in_calls s Hs b t Hc) as (_ & (y & Hy & <-) & _). congruence.
Qed.

(** ** Every reader returns *)

(** The steps of the flights and of the readers that wait for them. *)
Definition internal (e : event A) : bool := match e with Call _ | Publish _ _ | Drain _ | Wake _ => true | _ => false end.

Definition weight (p : phase A) : nat := match p with Waiting _ => 1 | Leading _ _ => 3 | Flying _ _ _ => 2 | Draining _ => 1 | Returned _ => 0 end.
Definition weights (l : list (reader A)) : nat := sum_list_with (fun r => weight (ph r)) l.
Definition work (s : sys) : nat := weights (readers s) + match pending s with Some _ => 3 | None => 0 end.

Lemma move_weights (s : sys) i p r : readers s !! i = Some r -> (weights (readers (move i p s)) + weight (ph r) = weights (readers s) + weight p)%nat.
Proof.
  unfold move. cbn. generalize (readers s) as l. intros l. revert i. induction l as [|x l IH]; intros [|i] Hi; cbn in *; try done; [injection Hi as ->; unfold weights; cbn; lia|].
  specialize (IH i Hi). unfold weights in *. cbn. change (list_alter (setPh p) i l) with (alter (setPh p) i l). lia.
Qed.

Lemma internal_work s e s' : internal e = true -> step e s = Some s' -> work s = S (work s').
Proof.
  destruct e as [dl|i|i a|i|i|i| |n]; try done; intros _; cbn.
  - unfold call. destruct (readers s !! i) as [[ar dl [|b own| | |]]|] eqn:Hr; try done. destruct (batches s !! b); [|done]. intros [= <-]. pose proof (move_weights s i (Flying b own (committed s)) _ Hr) as Hw. unfold work. cbn in *. lia.
  - unfold publish. destruct (readers s !! i) as [[ar dl [| |b own c| |]]|] eqn:Hr; try done. destruct (covers a c); [|done]. intros [= <-].
    pose proof (move_weights s i (Draining (default a own)) _ Hr) as Hw. unfold work. cbn in *. lia.
  - unfold drain. destruct (readers s !! i) as [[ar dl [| | |own|]]|] eqn:Hr; try done. destruct (pending s) as [b|] eqn:Hp; intros [= <-];
      [pose proof (move_weights s i (Leading b (Some own)) _ Hr) as Hw|pose proof (move_weights s i (Returned own) _ Hr) as Hw]; unfold work; rewrite Hp; cbn in *; lia.
  - unfold wake. destruct (readers s !! i) as [[ar dl [b| | | |]]|] eqn:Hr; try done. destruct (batches s !! b) as [[[a|] bu]|]; try done. intros [= <-]. pose proof (move_weights s i (Returned a) _ Hr) as Hw. unfold work. cbn in *. lia.
Qed.

(** A leader can always go on, *)
Lemma leader_goes_on s i r : inv s -> readers s !! i = Some r -> leads (ph r) = true -> exists e s', internal e = true /\ step e s = Some s'.
Proof.
  intros Hs Hr Hl. destruct r as [ar dl p]. destruct p as [b|b own|b own c|own|a]; try done.
  - destruct (in_flight s Hs i _ b Hr eq_refl) as (_ & x & Hx & _). exists (Call i). cbn. unfold call. rewrite Hr, Hx. eauto.
  - exists (Publish i timedOut). cbn. unfold publish. rewrite Hr, Htimed. eauto.
  - exists (Drain i). cbn. unfold drain. rewrite Hr. destruct (pending s); eauto.
Qed.

(** and somebody can while a reader has not returned. *)
Lemma someone_goes_on s i r : inv s -> readers s !! i = Some r -> (forall a, ph r <> Returned a) -> exists e s', internal e = true /\ step e s = Some s'.
Proof.
  intros Hs Hr Hn. destruct (leads (ph r)) eqn:Hl; [by eapply leader_goes_on|]. destruct r as [ar dl p]. destruct p as [b| | | |a]; try done; [|by destruct (Hn a)].
  destruct (in_readers s Hs i _ Hr) as [_ ([[a|] bu] & Hx & _)]; [exists (Wake i); cbn; unfold wake; rewrite Hr, Hx; eauto|].
  destruct (in_open s Hs b _ Hx eq_refl) as [Hp|(j & r & Hj & Hf)].
  - destruct (in_pending s Hs b Hp) as [Hrun _]. destruct (proj1 (in_running s Hs) Hrun) as (j & r & Hj & Hl'). by eapply leader_goes_on.
  - eapply (leader_goes_on s j r); [done|done|]. by destruct (ph r).
Qed.

Lemma run_reach es : forall s s', reach s -> run timedOut covers es s = Some s' -> reach s'.
Proof. induction es as [|e es IH]; intros s s' Hs; cbn; [by intros [= <-]|]. destruct (step e s) as [s1|] eqn:He; [|done]. apply IH. by eapply reach_step. Qed.

Lemma run_work es : forall s s', Forall (fun e => internal e = true) es -> run timedOut covers es s = Some s' -> work s = (length es + work s')%nat.
Proof.
  induction es as [|e es IH]; intros s s' Hf; cbn; [by intros [= <-]|]. inversion Hf as [|? ? He Hf']; subst. destruct (step e s) as [s1|] eqn:Hs; [|done]. intros Hr. rewrite (internal_work s e s1 He Hs), (IH s1 s' Hf' Hr). done.
Qed.

(** C23. Every reader returns once readers stop arriving. A run of the flights and wake-ups
    alone has at most three steps for each reader and three more, and where none of these steps is
    possible any longer every reader has returned: none waits on a batch that nobody
    flies, and no flight is left without a leader. *)
Theorem readers_return s es s' : reach s -> Forall (fun e => internal e = true) es -> run timedOut covers es s = Some s' ->
  (length es <= 3 * length (readers s) + 3)%nat /\
  ((forall e s'', internal e = true -> step e s' <> Some s'') -> forall i r, readers s' !! i = Some r -> exists a, ph r = Returned a).
Proof.
  intros Hs Hes Hrun. split.
  - pose proof (run_work es s s' Hes Hrun) as Hw. assert (weights (readers s) <= 3 * length (readers s))%nat as Hle.
    { unfold weights. induction (readers s) as [|[ar dl []] l IH]; cbn in *; lia. }
    unfold work in Hw at 1. destruct (pending s); lia.
  - intros Hstuck i r Hr. pose proof (reach_inv s' (run_reach es s s' Hs Hrun)) as Hinv. destruct (ph r) as [b|b own|b own c|own|a] eqn:Hp; [..|by exists a];
      (destruct (someone_goes_on s' i r Hinv Hr) as (e & s2 & He & Hst); [by rewrite Hp|by destruct (Hstuck e s2 He)]).
Qed.

End Coalescer.

(** ** A coalescer per shard *)

(** Each shard's flights are a run of a coalescer of their own. *)
Lemma flights_apart {A} (timedOut : A) covers c0 t0 m : reachFor timedOut covers c0 t0 m -> forall idx, reach timedOut covers (flightFor c0 t0 idx m).
Proof.
  induction 1 as [|m idx e m' _ IH He]; intros idx'; [unfold flightFor; rewrite lookup_empty; apply reach_start|]. unfold stepFor in He. destruct (step timedOut covers e (flightFor c0 t0 idx m)) as [s|] eqn:Hs; [|done].
  injection He as <-. unfold flightFor. destruct (decide (idx' = idx)) as [->|Hne]; [rewrite lookup_insert_eq; by eapply reach_step|]. rewrite lookup_insert_ne by done. apply IH.
Qed.

(** ** The store *)

(** A result with the index the state machine has applied when it is returned. *)
Abbreviation readResult := (outcome readErr nat).
Definition applied_covers (r : readResult) (n : nat) : bool := match r with Ok f => (n <=? f)%nat | _ => true end.
Definition refused : readResult := Err ErrLinearizableTimeout.

Lemma applied_mono r m n : applied_covers r n = true -> (m <= n)%nat -> applied_covers r m = true.
Proof. destruct r; [|done..]. cbn. rewrite !Nat.leb_le. lia. Qed.

Lemma refused_covers n : applied_covers refused n = true.
Proof. done. Qed.

(** The barrier of a store is such a flight. [c] is the last index committed when it is
    called, [after] what the state machine has applied when it returns. A verified leader
    knows the commits that precede the verification, and a barrier returns when the state machine has applied
    what precedes it. *)
Lemma body_covers c verify ci applied timeout barrier after : (verify = RaftOk -> Z.of_nat c <= ci) -> (barrier = RaftOk -> ci <= Z.of_nat after) -> applied <= Z.of_nat after ->
  applied_covers (_ ← verifyLeaderAndCatchUpBody verify ci applied timeout barrier; Ok after) c = true.
Proof.
  intros Hv Hb Ha. unfold verifyLeaderAndCatchUpBody. destruct verify; [|done..]. specialize (Hv eq_refl). destruct (Z.leb_spec ci applied); cbn; [apply Nat.leb_le; lia|].
  destruct (timeout <=? 0); [done|]. destruct barrier; [|done..]. specialize (Hb eq_refl). cbn. apply Nat.leb_le. lia.
Qed.

(** A read with a bound serves a state that is at most [bound] entries behind what was
    committed when the frontier was taken, also where the sum wraps around. *)
Lemma bounded_read c isLeader ci applied bound frontierFn catchUp after : fits 64 ci -> fits 64 applied -> fits 64 bound -> (forall f, frontierFn = Some (Some f) -> c <= f < 2 ^ 64) ->
  (isLeader = true -> c <= ci) -> (catchUp = Ok tt -> c <= after) -> applied <= after -> serveBoundedStaleness isLeader ci applied bound frontierFn catchUp = Ok tt -> c <= after + bound.
Proof.
  unfold fits. intros Hci Hap Hbo Hf Hl Hc Ha. unfold serveBoundedStaleness. destruct isLeader.
  - specialize (Hl eq_refl). destruct (Z.ltb_spec applied ci) as [Hlt|Hge].
    + change (u64 (ci - applied)) with (wrap 64 (ci - applied)). rewrite wrap_fits by (unfold fits; lia). destruct (Z.leb_spec (ci - applied) bound); [lia|]. intros E. specialize (Hc E). lia.
    + destruct (Z.leb_spec 0 bound); [lia|]. intros E. specialize (Hc E). lia.
  - destruct frontierFn as [[f|]|]; [|done|intros E; specialize (Hc E); lia]. specialize (Hf f eq_refl). destruct (Z.leb_spec f applied); [lia|]. cbn [orb].
    change (u64 (applied + bound)) with ((applied + bound) mod 2 ^ 64). destruct (Z.ltb_spec ((applied + bound) mod 2 ^ 64) applied) as [Hw|Hw].
    + destruct (Z.ltb_spec (applied + bound) (2 ^ 64)) as [Hs|Hs]; [rewrite Z.mod_small in Hw by lia|]; lia.
    + cbn [orb]. destruct (Z.leb_spec f ((applied + bound) mod 2 ^ 64)); [|done]. pose proof (Z.mod_le (applied + bound) (2 ^ 64) ltac:(lia) ltac:(lia)). lia.
Qed.

(** ** Runs *)

Abbreviation storeReach := (reach refused applied_covers).

(** Two readers: the second arrives in the flight of the first, after a commit, and shares the
    next one. *)
Definition sampleRun : list (event readResult) := [Arrive 5; Call 0; Commit; Arrive 7; Publish 0 (Ok 3%nat); Drain 0; Call 0; Publish 0 (Ok 4%nat)].
Definition sampleEnd : sys readResult := default (start 0 0) (run refused applied_covers sampleRun (start 3 0)).

Lemma sampleEnd_reach : storeReach sampleEnd.
Proof. apply (run_reach _ _ sampleRun (start 3 0)); [apply reach_start|]. vm_compute. reflexivity. Qed.

(** The second reader waits for a batch the barrier was called for with its budget. *)
Lemma read_covers_arrival_witness : calls sampleEnd = [(0%nat, 5); (1%nat, 7)] /\ 7 <= 7.
Proof.
  split; [vm_compute; reflexivity|]. destruct (read_covers_arrival refused applied_covers applied_mono refused_covers sampleEnd sampleEnd_reach) as (_ & _ & _ & H).
  apply (H 1%nat 7 1%nat (MkReader 4 7 (Waiting 1))); [|vm_compute; reflexivity|reflexivity]. apply list_elem_of_lookup. exists 1%nat. vm_compute. reflexivity.
Defined.

(** From there the leader drains and the follower wakes. *)
Definition sampleRest : list (event readResult) := [Wake 1; Drain 0].
Definition sampleStop : sys readResult := default (start 0 0) (run refused applied_covers sampleRest sampleEnd).

Lemma readers_return_witness : (2 <= 3 * 2 + 3)%nat /\ readers sampleStop = [MkReader 3 5 (Returned (Ok 3%nat)); MkReader 4 7 (Returned (Ok 4%nat))].
Proof.
  split; [|vm_compute; reflexivity]. apply (readers_return refused applied_covers applied_mono refused_covers sampleEnd sampleRest sampleStop sampleEnd_reach); [repeat constructor|vm_compute; reflexivity].
Defined.

(** One more flight for the leader: a reader arrives in every flight. *)
Lemma another_flight d t (s : sys readResult) c b own c1 l : storeReach s -> running s = true -> pending s = None -> now s = t -> readers s = MkReader c d (Flying b own c1) :: l ->
  exists s' b', storeReach s' /\ running s' = true /\ pending s' = None /\ now s' = t /\ readers s' = MkReader c d (Flying b' (Some (default (Ok c1) own)) (committed s')) :: (l ++ [newcomer s d (Waiting b')]) /\
    length (calls s') = S (length (calls s)).
Proof.
  intros Hs Hr Hp Ht Hl. pose proof (reach_inv _ _ applied_mono refused_covers s Hs) as Hinv.
  destruct (do_cases _ d s Hinv) as [(b' & Hp' & _)|[(_ & _ & E)|(_ & Hr' & _)]]; [congruence| |congruence].
  destruct (fresh_batch _ s Hinv) as (_ & _ & Hf). assert (b <> length (batches s)) as Hb by (apply (Hf 0%nat (MkReader c d (Flying b own c1))); [by rewrite Hl|by left]).
  set (nb := length (batches s)) in *. set (bs := alter (fun x : batch readResult => MkBatch (Some (Ok c1)) (budget x)) b (batches s ++ [raise_ d (MkBatch None 0)])).
  assert (exists x, bs !! nb = Some x) as [x Hx] by (unfold bs; rewrite list_lookup_alter_ne by done; eexists; apply snoc_lookup; by right).
  set (s' := MkSys true None bs (MkReader c d (Flying nb (Some (default (Ok c1) own)) (committed s)) :: (l ++ [newcomer s d (Waiting nb)])) (committed s) (now s) (calls s ++ [(nb, budget x)])).
  exists s', nb. split; [|split_and!; try done; cbn; by rewrite length_app, Nat.add_1_r].
  apply (run_reach _ _ [Arrive d; Publish 0 (Ok c1); Drain 0; Call 0] s); [done|]. cbn [run step]. rewrite E, Hl. unfold publish, drain, call. cbn [readers app lookup list_lookup applied_covers]. rewrite Nat.leb_refl.
  cbn -[bs]. fold bs. rewrite Hx. done.
Qed.

(** C40. The reader that leads can be held for ever. Under a steady arrival of readers its
    own result is there after its first flight, but it goes on to fly for the others: after any
    number of further flights, with its deadline as long ago as one likes, it
    has not returned. *)
Theorem leader_is_held (n : nat) : exists s b c, storeReach s /\ readers s !! 0%nat = Some (MkReader 0 5 (Flying b (Some (Ok 0%nat)) c)) /\
  length (calls s) = S (S n) /\ 5 + Z.of_nat n <= now s.
Proof.
  assert (exists s b c l, storeReach s /\ running s = true /\ pending s = None /\ now s = 0 /\ readers s = MkReader 0 5 (Flying b (Some (Ok 0%nat)) c) :: l /\ length (calls s) = S (S n)) as (s & b & c & l & Hs & _ & _ & Ht & Hl & Hc).
  - induction n as [|n (s & b & c & l & Hs & Hr & Hp & Ht & Hl & Hc)].
    + set (s0 := default (start 0 0) (run refused applied_covers [Arrive 5; Call 0] (start 0 0))).
      destruct (another_flight 5 0 s0 0 0 None 0 []) as (s' & b' & Hs' & Hr' & Hp' & Ht' & Hl' & Hc'); try reflexivity; [apply (run_reach _ _ [Arrive 5; Call 0] (start 0 0)); [apply reach_start|reflexivity]|].
      exists s', b', (committed s'), ([] ++ [newcomer s0 5 (Waiting b')]). split_and!; done.
    + destruct (another_flight 5 0 s 0 b (Some (Ok 0%nat)) c l Hs Hr Hp Ht Hl) as (s' & b' & Hs' & Hr' & Hp' & Ht' & Hl' & Hc').
      exists s', b', (committed s'), (l ++ [newcomer s 5 (Waiting b')]). split_and!; try done. congruence.
  - eexists _, b, c. split; [by apply (reach_step _ _ s (Tick (5 + n)))|]. cbn. rewrite Hl. split_and!; try done. lia.
Qed.
