(* ===== verification/PBInstall.v ===== *)
(** * The durable frontier of the primary-backup engine and the fence around an install
    (src/cache/cache.go, src/shard/pb_frontier.go, pb_fence.go, pb_snapshot_store.go).

    A node stamps the newest write its pages hold into the header of every shard. Before it
    installs a snapshot it raises a fence, a file that marks the node unusable; after it has
    stamped the frontier of the snapshot it lowers the fence. Between the two the
    engine's locks keep every write out, so the methods run one after the other. The frontier a shard holds
    in memory is the one in its header: they are stored together. *)
From S2P Require Import Prelude Crc32 CacheConfig SipHash Entry Page IndexTable Shard ShardInv CacheFile Cache.
Import Crc32 Entry.
#[local] Open Scope Z_scope.

Module PBInstall.

(** ** The frontier in the headers *)

(** [PBFrontier]: the smallest over the shards; genesis as soon as a shard is not mapped. *)
Fixpoint minFrontier (l : list Cache.cshard) (minSeq minEpoch : Z) : outcome CacheFile.fileErr (Z * Z) :=
  match l with
  | [] => Ok (if minSeq =? 2 ^ 64 - 1 then (0, 0) else (minSeq, minEpoch))
  | s :: l =>
      if negb (Shard.isMmap (Cache.core s)) then Ok (0, 0)
      else
        v ← CacheFile.readPBFrontier (Cache.hdr s);
        if v.1 <? minSeq then minFrontier l v.1 v.2 else minFrontier l minSeq minEpoch
  end.
Definition PBFrontier (c : Cache.Cache) : outcome CacheFile.fileErr (Z * Z) := minFrontier (Cache.shards c) (2 ^ 64 - 1) 0.

(** Entries, then bounds, then the frontier, each behind an msync of its own; a failure
    leaves the shard with its old frontier. *)
Definition setFrontierShard (seq epoch : Z) (w : Shard.world) : Cache.CS unit :=
  s ← gets Cache.core;
  if negb (Shard.isMmap s) then mret tt
  else
    dataOK ← Cache.syncRegion w;
    if dataOK : bool then
      Cache.inCore Cache.projectPages;;
      boundsOK ← Cache.syncRegion w;
      if boundsOK : bool then
        Cache.inHdr (CacheFile.setPBFrontier seq epoch);;
        Cache.syncRegion w;; mret tt
      else mret tt
    else mret tt.

Definition SetPBFrontier (ws : nat -> Shard.world) (seq epoch : Z) : Cache.C unit := Cache.each (fun i => setFrontierShard seq epoch (ws i)).

(** ** The stamper *)

Record stamper := MkStamper { everyN : Z; pendSeq : Z; pendEpoch : Z; stampedSeq : Z; stampedEpoch : Z; sinceStamp : Z }.

Definition newPBFrontierStamper (every : Z) : stamper := MkStamper (if every <? 0 then 0 else every) 0 0 0 0 0.

(** The new pair, and whether the flusher is woken. *)
Definition record (seq epoch : Z) (s : stamper) : stamper * bool :=
  if 0 <? everyN s then
    let n := u64 (sinceStamp s + 1) in (MkStamper (everyN s) seq epoch (stampedSeq s) (stampedEpoch s) n, everyN s <=? n)
  else (MkStamper (everyN s) seq epoch (stampedSeq s) (stampedEpoch s) (sinceStamp s), false).

(** ** The fence *)

Definition pbFenceMagic : Z := 0x45434e4546425250.
Definition pbFenceVersion : Z := 1.
Definition pbFenceSize : Z := 8 + 4 + 8 + 8 + 4.

(** What [os.ReadFile] finds. *)
Inductive marker := Absent | Present (b : bytes) | Unreadable.

(** [dir] is false without a data directory. *)
Record fence := MkFence { dir : bool; file : marker }.

Inductive installErr := fenceCreate | fenceWrite | fenceSync | fenceClose | fenceRename | fenceDir | fenceRemove | storePanic.

(** The answers of the system calls: of the staging file, of the rename or the removal, and
    of the sync of the directory. *)
Record osAns := MkAns { createOk : bool; writeOk : bool; syncOk : bool; closeOk : bool; moveOk : bool; dirOk : bool }.

Definition markerBytes (seq epoch : Z) : bytes :=
  let b := le_put 8 pbFenceMagic ++ le_put 4 pbFenceVersion ++ le_put 8 seq ++ le_put 8 epoch in b ++ le_put 4 (ChecksumIEEE b).

Definition syncDir (os : osAns) : st fence installErr unit := if dirOk os then mret tt else throw fenceDir.

Definition raise (os : osAns) (seq epoch : Z) : st fence installErr unit :=
  f ← gets id;
  if negb (dir f) then mret tt
  else if negb (createOk os) then throw fenceCreate
  else if negb (writeOk os) then throw fenceWrite
  else if negb (syncOk os) then throw fenceSync
  else if negb (closeOk os) then throw fenceClose
  else if negb (moveOk os) then throw fenceRename
  else modify (fun f => MkFence (dir f) (Present (markerBytes seq epoch)));; syncDir os.

(** A file that is not there needs no removal. *)
Definition lower (os : osAns) : st fence installErr unit :=
  f ← gets id;
  if negb (dir f) then mret tt
  else
    match file f with
    | Absent => syncDir os
    | _ => if moveOk os then modify (fun f => MkFence (dir f) Absent);; syncDir os else throw fenceRemove
    end.

Definition raised (f : fence) : outcome installErr (Z * Z * bool) :=
  if negb (dir f) then Ok (0, 0, false)
  else
    match file f with
    | Absent | Unreadable => Ok (0, 0, false)
    | Present b =>
        if negb (blen b =? pbFenceSize) then Ok (0, 0, true)
        else
          magic ← (m ← slice b 0 8; le_get 8 m);
          if negb (magic =? pbFenceMagic) then Ok (0, 0, true) else
          version ← (m ← slice b 8 12; le_get 4 m);
          if negb (version =? pbFenceVersion) then Ok (0, 0, true) else
          crc ← (m ← slice b 28 32; le_get 4 m);
          body ← slice b 0 28;
          if negb (crc =? ChecksumIEEE body) then Ok (0, 0, true) else
          seq ← (m ← slice b 12 20; le_get 8 m);
          epoch ← (m ← slice b 20 28; le_get 8 m);
          Ok (seq, epoch, true)
    end.

(** ** The snapshot store *)

Record node := MkNode { cache : Cache.Cache; stamp : option stamper; fenceOf : fence }.
Abbreviation I := (st node installErr).

Definition onFence (m : st fence installErr unit) : I unit := fun n => let (f, o) := m (fenceOf n) in (MkNode (cache n) (stamp n) f, o).
Definition setStamp (s : stamper) : I unit := modify (fun n => MkNode (cache n) (Some s) (fenceOf n)).

Section Store.
Context (ws : nat -> Shard.world).

(** The failures of [SetPBFrontier] are logged, not returned. *)
Definition stampCache (seq epoch : Z) : I unit := fun n =>
  match SetPBFrontier ws seq epoch (cache n) with
  | (c, Ok _) => (MkNode c (stamp n) (fenceOf n), Ok tt)
  | (c, _) => (MkNode c (stamp n) (fenceOf n), Panic)
  end.

Definition flush : I unit :=
  n ← gets id;
  match stamp n with
  | None => mret tt
  | Some s =>
      if (pendSeq s =? stampedSeq s) && (pendEpoch s =? stampedEpoch s) then mret tt
      else setStamp (MkStamper (everyN s) (pendSeq s) (pendEpoch s) (pendSeq s) (pendEpoch s) 0);; stampCache (pendSeq s) (pendEpoch s)
  end.

Definition installFrontier (s : stamper) (seq epoch : Z) : I unit := setStamp (MkStamper (everyN s) seq epoch seq epoch 0);; stampCache seq epoch.

Definition BeginInstall (os : osAns) (seq epoch : Z) : I unit := onFence (raise os seq epoch).

Definition CommitInstall (os : osAns) (seq epoch : Z) : I unit :=
  n ← gets id;
  (match stamp n with Some s => installFrontier s seq epoch | None => stampCache seq epoch end);;
  onFence (lower os).

Definition AbortInstall (os : osAns) : I unit := onFence (lower os).

Definition InstallPending (n : node) : outcome installErr bool := x ← raised (fenceOf n); Ok x.2.

End Store.

End PBInstall.
