(* ===== verification/PBInstallProps.v ===== *)
(** * What an install of a snapshot leaves on disk. *)
From S2P Require Import Prelude Crc32 CacheConfig SipHash Entry Page IndexTable Shard ShardInv ShardGet ShardPut ShardRoom ShardEvict ShardFit ShardWrite ShardProps CacheFile Cache Wire KVWire KVOps KVSpec CacheProps CacheMark LogCodec ShardLog ShardFSM FSMProps CacheFSM CacheOpen CacheCrash PBInstall.
Import Crc32 Entry Shard CacheOpen PBInstall.
#[local] Open Scope Z_scope.

(** ** The frontier of a shard *)

Section Frontier.
Context (hashKey : bytes -> Z) (cfg : Config) (Hcfg : cfg_ok cfg) (mm : bool) (seq epoch : Z) (Hseq : fits 64 seq) (Hepoch : fits 64 epoch).
#[local] Abbreviation lookup := (ShardInv.lookup hashKey).
#[local] Abbreviation cell_ok := (cell_ok hashKey cfg mm).

(** The shard keeps its entries; its frontier is the old one, or the new one. *)
Definition stampedCell (s s' : Cache.cshard) : Prop :=
  cell_ok s' /\ (forall k, lookup (Cache.core s') k = lookup (Cache.core s) k) /\
  (Cache.hdr s' = Cache.hdr s \/ CacheFile.readPBFrontier (Cache.hdr s') = Ok (seq, epoch)).

Lemma sync_hdr w s s' b : Cache.syncRegion w s = (s', Ok b) -> Cache.hdr s' = Cache.hdr s.
Proof. intros E. unfold Cache.syncRegion, Cache.inCore in E. cbn in E. by injection E as <- _. Qed.

Lemma setFrontierShard_ok w s : cell_ok s -> exists s', setFrontierShard seq epoch w s = (s', Ok tt) /\ stampedCell s s' /\
  (mm = true -> (forall n, msyncOk w n = true) -> CacheFile.readPBFrontier (Cache.hdr s') = Ok (seq, epoch)).
Proof.
  intros Hc. unfold setFrontierShard. rewrite bind_gets. destruct (isMmap (Cache.core s)) eqn:Hm; cbn [negb]; rewrite (ce_kind _ _ _ _ Hc) in Hm.
  2: { exists s. split; [done|]. split; [|congruence]. split; [done|]. split; [done|by left]. }
  destruct (sync_cell hashKey cfg mm w s Hc) as (s1 & E1 & Hc1 & _ & _ & Hl1). pose proof (sync_hdr _ _ _ _ E1) as Hh1. rewrite (bind_ok _ _ _ _ _ E1). destruct (msyncOk w _) eqn:Es1.
  2: { exists s1. split; [done|]. split; [split; [done|]; split; [done|by left]|]. intros _ Hall. congruence. }
  destruct (projectPages_same hashKey cfg Hcfg (Cache.core s1) (ce_shard _ _ _ _ Hc1)) as (c2 & E2 & Hev).
  assert (Cache.inCore Cache.projectPages s1 = (Cache.setCore s1 c2, Ok tt)) as E2' by (unfold Cache.inCore; by rewrite E2).
  rewrite (bind_ok _ _ _ _ _ E2'). pose proof (cell_stays _ _ _ _ _ Hc1 (evo_stays _ _ _ _ _ Hev)) as Hc2.
  destruct (sync_cell hashKey cfg mm w (Cache.setCore s1 c2) Hc2) as (s3 & E3 & Hc3 & _ & _ & Hl3). pose proof (sync_hdr _ _ _ _ E3) as Hh3. change (Cache.hdr (Cache.setCore s1 c2)) with (Cache.hdr s1) in Hh3. rewrite (bind_ok _ _ _ _ _ E3).
  assert (forall k, lookup (Cache.core s3) k = lookup (Cache.core s) k) as Hl by (intros k; rewrite Hl3; cbn; by rewrite (evo_nokey_lookup _ _ _ _ k Hev), Hl1).
  destruct (msyncOk w (calls (Cache.core (Cache.setCore s1 c2)))) eqn:Es2.
  2: { exists s3. split; [done|]. split; [split; [done|]; split; [done|left; congruence]|]. intros _ Hall. congruence. }
  assert (blen (Cache.hdr s3) = CacheFile.headerSize) as Hsz by (apply (ce_hdr _ _ _ _ Hc3); rewrite (ce_kind _ _ _ _ Hc3); done).
  destruct (CacheFile.setPBFrontier_any (Cache.hdr s3) seq epoch Hsz Hseq Hepoch) as (h & Ew & Hhl & Hread).
  assert (Cache.inHdr (CacheFile.setPBFrontier seq epoch) s3 = (Cache.setHdr s3 h, Ok tt)) as E4 by (unfold Cache.inHdr; by rewrite Ew).
  assert (cell_ok (Cache.setHdr s3 h)) as Hc4 by (destruct Hc3; by split). destruct (sync_cell hashKey cfg mm w _ Hc4) as (s5 & E5 & Hc5 & _ & _ & Hl5). pose proof (sync_hdr _ _ _ _ E5) as Hh5.
  exists s5. split; [cbv beta iota; rewrite (bind_ok _ _ _ _ _ E4), (bind_ok _ _ _ _ _ E5); done|]. assert (CacheFile.readPBFrontier (Cache.hdr s5) = Ok (seq, epoch)) as Hr by (rewrite Hh5; exact Hread).
  split; [|done]. split; [done|]. split; [|by right]. intros k. rewrite Hl5. exact (Hl k).
Qed.

Lemma SetPBFrontier_ok ws c : cache_ok hashKey cfg mm c -> exists c', SetPBFrontier ws seq epoch c = (c', Ok tt) /\ cache_ok hashKey cfg mm c' /\
  (forall k, cacheContent hashKey cfg c' k = cacheContent hashKey cfg c k) /\ Forall2 stampedCell (Cache.shards c) (Cache.shards c') /\
  (mm = true -> (forall i n, msyncOk (ws i) n = true) -> Forall (fun s => CacheFile.readPBFrontier (Cache.hdr s) = Ok (seq, epoch)) (Cache.shards c')).
Proof.
  intros Hc. unfold SetPBFrontier, Cache.each.
  destruct (eachFrom_ok (fun i => setFrontierShard seq epoch (ws i))
    (fun s s' => stampedCell s s' /\ (mm = true -> (forall i n, msyncOk (ws i) n = true) -> CacheFile.readPBFrontier (Cache.hdr s') = Ok (seq, epoch))) (Cache.shards c) 0) as (l' & -> & Hl).
  { intros i s Hs. destruct (setFrontierShard_ok (ws i) s (proj1 (Forall_forall _ _) (ca_shards _ _ _ c Hc) s Hs)) as (s' & He & H1 & H2). exists s'. split; [done|]. split; [done|]. intros Hm Hall. apply H2; [done|]. intros n. apply Hall. }
  exists (Cache.MkCache l'). split; [done|]. destruct (same_cells hashKey cfg mm c l' Hc) as [Hc' Hk]; [eapply Forall2_impl; [exact Hl|]; by intros s s' [(? & ? & _) _]|].
  split; [done|]. split; [done|]. split; [eapply Forall2_impl; [exact Hl|]; by intros s s' [? _]|]. intros Hm Hall. apply Forall_lookup. intros i s' Hs'.
  destruct (Forall2_lookup_r _ _ _ _ _ Hl Hs') as (s & _ & _ & H). by apply H.
Qed.

(** Without an msync that succeeds the headers stay. *)
Lemma setFrontierShard_failed w s : cell_ok s -> (forall n, msyncOk w n = false) -> Cache.hdr (setFrontierShard seq epoch w s).1 = Cache.hdr s.
Proof.
  intros Hc Hall. unfold setFrontierShard. rewrite bind_gets. destruct (negb _); [done|]. destruct (sync_cell hashKey cfg mm w s Hc) as (s1 & E1 & _). rewrite (bind_ok _ _ _ _ _ E1), Hall.
  exact (sync_hdr _ _ _ _ E1).
Qed.

Lemma SetPBFrontier_failed ws c : cache_ok hashKey cfg mm c -> (forall i n, msyncOk (ws i) n = false) -> exists c', SetPBFrontier ws seq epoch c = (c', Ok tt) /\
  cache_ok hashKey cfg mm c' /\ (forall k, cacheContent hashKey cfg c' k = cacheContent hashKey cfg c k) /\
  Forall2 (fun s s' => Cache.hdr s' = Cache.hdr s /\ isMmap (Cache.core s') = isMmap (Cache.core s)) (Cache.shards c) (Cache.shards c').
Proof.
  intros Hc Hall. unfold SetPBFrontier, Cache.each.
  destruct (eachFrom_ok (fun i => setFrontierShard seq epoch (ws i)) (fun s s' => cell_ok s /\ stampedCell s s' /\ Cache.hdr s' = Cache.hdr s) (Cache.shards c) 0) as (l' & -> & Hl).
  { intros i s Hs. pose proof (proj1 (Forall_forall _ _) (ca_shards _ _ _ c Hc) s Hs) as Hcell. destruct (setFrontierShard_ok (ws i) s Hcell) as (s' & He & H1 & _).
    pose proof (setFrontierShard_failed (ws i) s Hcell (Hall i)) as Hh. rewrite He in Hh. by exists s'. }
  exists (Cache.MkCache l'). split; [done|]. destruct (same_cells hashKey cfg mm c l' Hc) as [Hc' Hk]; [eapply Forall2_impl; [exact Hl|]; by intros s s' (_ & (? & ? & _) & _)|].
  split; [done|]. split; [done|]. eapply Forall2_impl; [exact Hl|]. intros s s' (H1 & (H2 & _) & H3). split; [done|]. by rewrite (ce_kind _ _ _ _ H1), (ce_kind _ _ _ _ H2).
Qed.

Lemma minFrontier_same l l' : Forall2 (fun s s' => Cache.hdr s' = Cache.hdr s /\ isMmap (Cache.core s') = isMmap (Cache.core s)) l l' -> forall m e, minFrontier l' m e = minFrontier l m e.
Proof.
  induction 1 as [|s s' l l' [H1 H2] _ IH]; intros m e; cbn [minFrontier]; [done|]. rewrite H1, H2. destruct (negb _); [done|].
  destruct (CacheFile.readPBFrontier _) as [v| |]; try done. cbn. by destruct (_ <? _).
Qed.

Lemma minFrontier_all l : Forall (fun s => isMmap (Cache.core s) = true /\ CacheFile.readPBFrontier (Cache.hdr s) = Ok (seq, epoch)) l -> seq < 2 ^ 64 - 1 ->
  forall m e, (m = seq /\ e = epoch) \/ (seq < m /\ l <> []) -> minFrontier l m e = Ok (seq, epoch).
Proof.
  induction 1 as [|s l [Hm Hr] _ IH]; intros Hlt m e Hme; cbn [minFrontier].
  - destruct Hme as [[-> ->]|[_ ?]]; [|done]. by rewrite (proj2 (Z.eqb_neq _ _)) by lia.
  - rewrite Hm, Hr. cbn [negb mbind outcome_bind fst snd]. destruct (Z.ltb_spec seq m) as [Hs|Hs]; [apply IH; [done|by left]|]. destruct Hme as [[-> ->]|[? _]]; [apply IH; [done|by left]|lia].
Qed.

End Frontier.

(** ** The fence *)

Lemma raised_present d b : exists q e, raised (MkFence d (Present b)) = Ok (q, e, d).
Proof.
  unfold raised. cbn [dir file]. destruct d; cbn [negb]; [|by exists 0, 0]. destruct (Z.eqb_spec (blen b) pbFenceSize) as [Hb|]; cbn [negb]; [|by exists 0, 0]. change pbFenceSize with 32 in Hb.
  assert (forall lo n, 0 <= lo -> lo + Z.of_nat n <= 32 -> exists x, (m ← slice (E:=installErr) b lo (lo + Z.of_nat n); le_get n m) = Ok x) as Hget.
  { intros lo n H1 H2. destruct (slice_exists (E:=installErr) b lo (lo + Z.of_nat n)) as (m & -> & Hm); [lia|lia|]. cbn. unfold le_get. rewrite (proj2 (Nat.leb_le _ _)); [eauto|]. unfold blen in Hm. lia. }
  destruct (Hget 0 8%nat) as [magic E1]; [lia|lia|]. change (0 + Z.of_nat 8) with 8 in E1. rewrite E1. cbn [mbind outcome_bind]. destruct (negb _); [by exists 0, 0|].
  destruct (Hget 8 4%nat) as [version E2]; [lia|lia|]. change (8 + Z.of_nat 4) with 12 in E2. rewrite E2. cbn [mbind outcome_bind]. destruct (negb _); [by exists 0, 0|].
  destruct (Hget 28 4%nat) as [crc E3]; [lia|lia|]. change (28 + Z.of_nat 4) with 32 in E3. rewrite E3. cbn [mbind outcome_bind].
  destruct (slice_exists (E:=installErr) b 0 28) as (bd & -> & _); [lia|lia|]. cbn [mbind outcome_bind]. destruct (negb _); [by exists 0, 0|].
  destruct (Hget 12 8%nat) as [q E4]; [lia|lia|]. change (12 + Z.of_nat 8) with 20 in E4. rewrite E4. cbn [mbind outcome_bind].
  destruct (Hget 20 8%nat) as [e E5]; [lia|lia|]. change (20 + Z.of_nat 8) with 28 in E5. rewrite E5. by exists q, e.
Qed.

(** A fence that was raised is up, and stays up through a failed removal. *)
Lemma raise_pending os seq epoch f : dir f = true -> match raise os seq epoch f with
  | (f', Ok _) => exists q e, raised f' = Ok (q, e, true)
  | (f', Err _) => file f' = file f \/ exists q e, raised f' = Ok (q, e, true)
  | (_, Panic) => False
  end.
Proof.
  intros Hd. unfold raise. rewrite bind_gets. unfold id. rewrite Hd. cbn [negb]. destruct (createOk os), (writeOk os), (syncOk os), (closeOk os), (moveOk os); cbn [negb]; try (by left).
  generalize (markerBytes seq epoch) as b. intros b. rewrite bind_modify. unfold syncDir. rewrite Hd. pose proof (raised_present true b). destruct (dirOk os); [done|by right].
Qed.

Lemma lower_down os f : match lower os f with
  | (f', Ok _) => dir f' = dir f /\ raised f' = Ok (0, 0, false)
  | (f', Err _) => dir f' = dir f
  | (_, Panic) => False
  end.
Proof.
  unfold lower. rewrite bind_gets. unfold id. destruct (dir f) eqn:Hd; cbn [negb]; [|split; [done|]; unfold raised; by rewrite Hd]. unfold syncDir, raised.
  destruct (file f) eqn:Hf; [destruct (dirOk os); cbn; rewrite ?Hd, ?Hf; done| |]; (destruct (moveOk os); [rewrite bind_modify|done]; destruct (dirOk os); cbn; rewrite ?Hd; done).
Qed.

(** ** The install *)

Section Install.
Context (hashKey : bytes -> Z) (ws : nat -> world) (cfg : Config) (Hcfg : cfg_ok cfg) (Hshards : 1 <= NumShards cfg).

Lemma stamped_frontier seq epoch c : fits 64 seq -> fits 64 epoch -> seq < 2 ^ 64 - 1 -> cache_ok hashKey cfg true c -> (forall i n, msyncOk (ws i) n = true) ->
  exists c', SetPBFrontier ws seq epoch c = (c', Ok tt) /\ cache_ok hashKey cfg true c' /\ (forall k, cacheContent hashKey cfg c' k = cacheContent hashKey cfg c k) /\ PBFrontier c' = Ok (seq, epoch).
Proof.
  intros Hs He Hlt Hc Hall. destruct (SetPBFrontier_ok hashKey cfg Hcfg true seq epoch Hs He ws c Hc) as (c' & E & Hc' & Hk & _ & Hf). exists c'. split; [done|]. split; [done|]. split; [done|].
  unfold PBFrontier. apply minFrontier_all; [|done|].
  - apply Forall_lookup. intros i s Hi. split; [|by apply (Forall_lookup_1 _ _ _ _ (Hf eq_refl Hall) Hi)]. apply (ce_kind _ _ _ _ (Forall_lookup_1 _ _ _ _ (ca_shards _ _ _ c' Hc') Hi)).
  - right. split; [done|]. intros Hn. pose proof (ca_len _ _ _ c' Hc') as Hl. rewrite Hn in Hl. cbn in Hl. lia.
Qed.

(** C19. A committed install names the state it installed. On a cache on files, when the
    page and header flushes succeed, the commit of an install at (seq, epoch) leaves every key as it was, and
    the frontier a restarted node reads is (seq, epoch), also if it was higher before; the
    stamper that had another pair to write has nothing to write any more; and if the
    commit returns without an error the fence is down. Whatever bytes the fence file
    holds, a fence file that is read means an install is pending. *)
Theorem committed_install os seq epoch n s : fits 64 seq -> fits 64 epoch -> seq < 2 ^ 64 - 1 -> cache_ok hashKey cfg true (cache n) -> (forall i k, msyncOk (ws i) k = true) ->
  stamp n = Some s ->
  match CommitInstall ws os seq epoch n with
  | (n', o) => o <> Panic /\ PBFrontier (cache n') = Ok (seq, epoch) /\ cache_ok hashKey cfg true (cache n') /\
      (forall k, cacheContent hashKey cfg (cache n') k = cacheContent hashKey cfg (cache n) k) /\ flush ws n' = (n', Ok tt) /\
      (o = Ok tt -> InstallPending n' = Ok false) /\ forall b, InstallPending (MkNode (cache n') (stamp n') (MkFence true (Present b))) = Ok true
  end.
Proof.
  intros Hs He Hlt Hc Hall Hst. destruct (stamped_frontier seq epoch (cache n) Hs He Hlt Hc Hall) as (c' & E & Hc' & Hk & Hf).
  unfold CommitInstall. rewrite bind_gets. unfold id. rewrite Hst. unfold installFrontier. rewrite bind_assoc. unfold setStamp. rewrite bind_modify. set (s' := MkStamper (everyN s) seq epoch seq epoch 0).
  rewrite (bind_ok _ _ _ (MkNode c' (Some s') (fenceOf n)) tt) by (unfold stampCache; cbn [cache stamp fenceOf]; by rewrite E).
  unfold onFence. cbn [cache stamp fenceOf]. pose proof (lower_down os (fenceOf n)) as Hl. destruct (lower os (fenceOf n)) as [f' o]. cbn [cache stamp fenceOf].
  split; [by destruct o|]. split; [done|]. split; [done|]. split; [done|]. split; [|split].
  - unfold flush. rewrite bind_gets. unfold id. cbn [stamp s' pendSeq stampedSeq pendEpoch stampedEpoch]. by rewrite !Z.eqb_refl.
  - intros ->. destruct Hl as [_ Hl]. unfold InstallPending. cbn [fenceOf]. by rewrite Hl.
  - intros b. unfold InstallPending. cbn [fenceOf]. destruct (raised_present true b) as (q & e & ->). done.
Qed.

(** C21. A commit lowers the fence although the frontier was not stamped. On any cache
    on files, when the flushes fail while the commit of an install stamps the
    frontier, which only logs it, the commit answers what the removal of the fence
    answers; the frontier that a restart reads is still the one before the install; and
    no later flush stamps the new one, even if the flushes work again, since the stamper
    counts the pair as stamped. So a node whose frontier was above the snapshot it
    installed, as one that is repaired has it, is left without a fence, with a frontier
    above its state. *)
Theorem unstamped_install_unfenced os seq epoch n s : fits 64 seq -> fits 64 epoch -> cache_ok hashKey cfg true (cache n) -> (forall i k, msyncOk (ws i) k = false) ->
  stamp n = Some s ->
  match CommitInstall ws os seq epoch n with
  | (n', o) => o = (lower os (fenceOf n)).2 /\ PBFrontier (cache n') = PBFrontier (cache n) /\ cache_ok hashKey cfg true (cache n') /\
      (forall k, cacheContent hashKey cfg (cache n') k = cacheContent hashKey cfg (cache n) k) /\ (o = Ok tt -> InstallPending n' = Ok false) /\
      forall ws', flush ws' n' = (n', Ok tt)
  end.
Proof.
  intros Hs He Hc Hall Hst. destruct (SetPBFrontier_failed hashKey cfg Hcfg true seq epoch Hs He ws (cache n) Hc Hall) as (c' & E & Hc' & Hk & Hf).
  unfold CommitInstall. rewrite bind_gets. unfold id. rewrite Hst. unfold installFrontier. rewrite bind_assoc. unfold setStamp. rewrite bind_modify. set (s' := MkStamper (everyN s) seq epoch seq epoch 0).
  rewrite (bind_ok _ _ _ (MkNode c' (Some s') (fenceOf n)) tt) by (unfold stampCache; cbn [cache stamp fenceOf]; by rewrite E).
  unfold onFence. cbn [cache stamp fenceOf]. pose proof (lower_down os (fenceOf n)) as Hl. destruct (lower os (fenceOf n)) as [f' o]. cbn [cache stamp fenceOf snd].
  split; [done|]. split; [exact (minFrontier_same _ _ Hf _ _)|]. split; [done|]. split; [done|]. split.
  - intros ->. destruct Hl as [_ Hl]. unfold InstallPending. cbn [fenceOf]. by rewrite Hl.
  - intros ws'. unfold flush. rewrite bind_gets. unfold id. cbn [stamp s' pendSeq stampedSeq pendEpoch stampedEpoch]. by rewrite !Z.eqb_refl.
Qed.

End Install.

(** ** Runs *)

Definition allOk : osAns := MkAns true true true true true true.
Definition badWorlds : nat -> world := fun _ => MkWorld (fun _ => 1000) (fun n => Some (Z.of_nat n)) (fun _ => false) true (fun _ => 0).

Lemma fresh_cache : exists c, openOne (zeroFile fileCfg CacheFile.NotExist) = Ok c /\ cache_ok sampleHash fileCfg true c.
Proof.
  destruct (newMmapShard_fresh sampleHash sampleWorld fileCfg fileCfg_ok mmapKey eq_refl) as (s & E & Hs & _ & Hk). exists (Cache.MkCache [s]). unfold openOne. rewrite E. split; [done|].
  split; [done|by constructor|]. intros [|i] s0 k Hi Hn; cbn in Hi; [|done]. injection Hi as <-. by destruct (Hn (Hk k)).
Qed.

(** A fresh node, whose stamper has (9, 1) to write, commits an install at (5, 2). *)
Lemma committed_install_witness : exists c, openOne (zeroFile fileCfg CacheFile.NotExist) = Ok c /\
  PBFrontier (cache (CommitInstall sampleWorlds allOk 5 2 (MkNode c (Some (record 9 1 (newPBFrontierStamper 0)).1) (MkFence true Absent))).1) = Ok (5, 2).
Proof.
  destruct fresh_cache as (c & E & Hc). exists c. split; [done|].
  pose proof (committed_install sampleHash sampleWorlds fileCfg fileCfg_ok ltac:(vm_compute; discriminate) allOk 5 2 (MkNode c (Some (record 9 1 (newPBFrontierStamper 0)).1) (MkFence true Absent)) _
    ltac:(split; vm_compute; done) ltac:(split; vm_compute; done) ltac:(done) Hc (fun _ _ => eq_refl) eq_refl) as H.
  destruct (CommitInstall _ _ _ _ _) as [n' o]. apply H.
Defined.

(** A node on files that holds the writes of a history up to (9, 1), and stamps that. *)
Definition forked : outcome openErr node :=
  c ← openOne (zeroFile fileCfg CacheFile.NotExist);
  let (n, _) := flush sampleWorlds (MkNode c (Some (record 9 1 (newPBFrontierStamper 0)).1) (MkFence true Absent)) in Ok n.

(** It is repaired with a snapshot at (5, 2); the msync fails during the commit and works
    again afterwards. *)
Definition repairRun : outcome openErr (outcome installErr unit * outcome installErr bool * outcome CacheFile.fileErr (Z * Z) * outcome CacheFile.fileErr (Z * Z)) :=
  n ← forked;
  let (n, _) := BeginInstall allOk 5 2 n in
  let (n', r) := CommitInstall badWorlds allOk 5 2 n in
  let (n'', _) := flush sampleWorlds n' in
  Ok (r, InstallPending n', PBFrontier (cache n'), PBFrontier (cache n'')).

(** A node with a forked history up to (9, 1) installs a snapshot at (5, 2): the commit
    succeeds, the fence is down, and the frontier stays (9, 1). *)
Lemma repair_unstamped : repairRun = Ok (Ok tt, Ok false, Ok (9, 1), Ok (9, 1)).
Proof. vm_compute. reflexivity. Qed.

Lemma unstamped_install_unfenced_witness : exists c, openOne (zeroFile fileCfg CacheFile.NotExist) = Ok c /\
  let r := CommitInstall badWorlds allOk 5 2 (MkNode c (Some (record 9 1 (newPBFrontierStamper 0)).1) (MkFence true (Present []))) in
  r.2 = Ok tt /\ PBFrontier (cache r.1) = PBFrontier c /\ InstallPending r.1 = Ok false.
Proof.
  destruct fresh_cache as (c & E & Hc). exists c. split; [done|].
  pose proof (unstamped_install_unfenced sampleHash badWorlds fileCfg fileCfg_ok allOk 5 2 (MkNode c (Some (record 9 1 (newPBFrontierStamper 0)).1) (MkFence true (Present []))) _
    ltac:(split; vm_compute; done) ltac:(split; vm_compute; done) Hc (fun _ _ => eq_refl) eq_refl) as H.
  destruct (CommitInstall _ _ _ _ _) as [n' o]. destruct H as (H1 & H2 & _ & _ & H3 & _). cbv zeta. cbn [fst snd]. assert (o = Ok tt) as Ho by exact H1. split; [done|]. split; [exact H2|by apply H3].
Defined.
